(* ===== verification/_CoqProject ===== *)
-Q . S2P
Prelude.v
Text.v
Topology.v
InstGenerator.v
RankAddress.v
DeviceMemory.v
RankMemory.v
ExecutionGenerator.v
TraceGenerator.v
SparseReduction.v
WordMemory.v
SlsSimulator.v
AxdimmProofs.v
Allocators.v
Buffers.v
BitViews.v
Scan.v
Avx2.v
Imdb.v
ImdbRunner.v
Views.v
Aes.v
Secure.v
CpuSls.v
SecureExecutor.v
SecureRun.v
SlsDevice.v
Transfer.v
SlsRunner.v
CxlRun.v
CxlOperation.v
InfoFiles.v
DataFiles.v
DatagenImdb.v
DatagenPredicates.v
DatagenSls.v
SecureDevice.v
ThreadPool.v
Contexts.v
Handshake.v
Sysfs.v
ImdbDevice.v
PnmCtl.v
DatagenCache.v
DatagenSlsCache.v
