(* ===== verification/Prelude.v ===== *)
(** * A verification of the core of PNMLibrary

    PNMLibrary drives near-memory processing devices.  Two device families are
    supported: SLS (sparse-length-sum over embedding tables, on AXDIMM or CXL
    memory) and IMDB (scans of compressed database columns).  All paths below are
    under src/PNMLibrary.

    ** The program

    An SLS operation (include/pnmlib/sls/operation.h) names tables, and for every
    table and batch the rows to add up.  The host library places the tables in
    device memory (allocators, buffers, embedding tables), splits the batches of
    an operation into executions that fit the device's instruction and psum
    buffers (execution generator), compiles every execution into a trace of
    64-bit instructions (trace generator, instruction generators), copies the
    trace to the device through the rank interleaving, lets a compute unit run
    it, and gathers the resulting partial sums into the user's buffer.  The
    library's functional simulators execute the same traces: a simulator thread
    per compute unit waits for the exec register, runs the trace in the unit's
    instruction block and signals the end in the poll register.  The reduction
    runners take a unit of the packs that hold the tables, and run the executions
    of a pack on it while the other packs run on the threads of a pool.

    The IMDB part packs columns of [n]-bit values into words and scans them, on the
    host or on the engines of a device, which a runner starts and waits for through
    registers.  The secure part encrypts embedding tables before they reach a
    device, lets it add encrypted rows, and decrypts the sums with the pads of the
    same rows; with tags it also verifies them.

    ** The development, file by file

    - Prelude: errors and the result type with its [let!] notation, machine
      integers with their wrap-around, vectors with out-of-range accesses as
      errors, tactics ([dlia], [inv_result], [zbool]) and generic lemmas.
    - Text: decimal numbers, words, lines and the extractions of an input stream, which
      the standard library and fmt provide.  The class [FormatLaws] is what clients
      know of a type that is printed and read.
    - Topology: common/topology_constants.h, core/device/sls/utils/constants.h and
      the constants under hw/.  The values come from sysfs at run time; they are a
      record here, and [topology_wf] says what the code relies on.
    - InstGenerator: core/device/sls/utils/inst_generator.h, both generators.
      Encoding and decoding are inverse, for instructions and for addresses.
    - RankAddress: core/device/sls/utils/rank_address.{h,cpp}.  The interleaving is
      a bijection, the block-wise copies equal bytewise copies and round trip.
    - DeviceMemory: memory_map.h and nbuffer_memory.{h,cpp} in the same directory.
      The buffers of a unit rotate as a ring; a shift publishes what was written.
    - RankMemory: core/device/sls/rank_memory.h, include/pnmlib/core/memory_object.h.
    - ExecutionGenerator: sls/operation/execution_generator.{h,cpp}.  Every batch of
      every table is executed once, in order, within the limits.
    - TraceGenerator: sls/operation/ir.h, trace_generator_core.{h,cpp} and
      trace_generator.h.  The instruction generator is the class
      [InstructionGenerator] with [InstructionGeneratorLaws]; InstGenerator's
      theorems discharge the laws, and the theorems on traces are proved against
      the class.
    - SparseReduction: sls/operation/internal.h, packs_data.{h,cpp},
      param_checks.cpp, api/sls.cpp.  An operation is accepted and its results are
      gathered completely, in whatever order the executions finish.
    - WordMemory: loads and stores of words in byte memory and IEEE single
      addition, which the C++ language provides.
    - SlsSimulator, AxdimmProofs: core/device/sls/simulator_core/.  The CXL core,
      run on a trace that TraceGenerator produced, adds exactly the rows the
      lookups name, for rows that start within 4 GiB of their table: beyond, the
      32-bit product in the generator wraps, as TraceGenerator proves.  The AXDIMM core records every byte it writes in the dirty
      ranges, and clears them.
    - Allocators: core/memory/{ranked,sequential}_allocator.{h,cpp},
      core/memory/api/shared_region.cpp, include/pnmlib/core/{allocator,memory}.h and
      include/pnmlib/common/properties.h.  The kernel driver behind [ioctl] is a
      parameter with the laws [DriverLaws]; the class [Allocator] with
      [AllocatorLaws] is what clients see, and both allocators are instances.
    - Buffers: include/pnmlib/core/buffer.h and
      sls/operation/api/embedding_tables.cpp, clients of that class: buffers never
      leak or free twice, unless one is assigned to itself, which
      [Buffer.self_move_assign] describes; and replicated tables get the layout the execution
      generator expects.
    - BitViews: include/pnmlib/imdb/bit_common.h, bit_views.h, bit_iterator.h and
      bit_containers.h.  Packing round trips, bit vectors are sets.
    - Scan: include/pnmlib/imdb/scan_types.h, imdb/software_scan/nosimd/cpu_scan.h.
      The reference scans select exactly the matching rows.
    - Avx2: imdb/software_scan/avx2/ and imdb/utils/runner/avx2_scan.h.  The
      vectorised scans agree with the reference scans; where they do not (the tail
      of a column, bounds of 2^31 and more), a theorem gives an instance.
    - Imdb, ImdbRunner: include/pnmlib/imdb/libimdb.h, imdb/operation/scan.{h,cpp},
      core/device/imdb/ and core/operation_runner/imdb/runner.cpp.  A scan that goes
      through the registers to the engine and reads device memory reports exactly the
      matching rows, when the result buffer overlaps no input; in every interleaving
      of host and engine threads a runner gets the result of its own scan, and on
      every schedule its wait loop ends.
    - Views: include/pnmlib/common/rowwise_view.h and variable_row_view.h.
    - Aes, Secure: secure/encryption/AES/, sls_engine.h and sls_mac.h.  The pads come
      from the class [EncryptionBackend]; the AES-NI backend is an instance, and the
      engines are proved against the class: sums of encrypted rows decrypt to sums
      of plain rows, and the verification compares checksums.
    - CpuSls: common/cpu_sls.h and secure/plain/device/trivial_cpu.h.
    - SecureExecutor, SecureRun: secure/common/sls_executor.h and the pre- and
      postprocessor under secure/encryption/.  A secure operation on the CPU device
      returns what the plain reduction computes on the plain tables.
    - SlsDevice: core/device/sls/memblockhandler/, base.{h,cpp}, compute_device.h and
      simulator/ there, core/device/simulator/ and sls/compute_unit/.  Block
      handlers, registers, simulator threads and compute units of both buses.  The
      resource driver is the class [CunitDriver] with [CunitLaws].
    - Transfer: include/pnmlib/core/{accessor,transfer_manager}.h, the accessors of
      core/memory/ and the three transfer managers.  What is copied to a device is
      copied back, on each of them, through mappings that cover the views; those of
      ranks do not always, and [sls_make_covered] says when they do.
    - SlsRunner: core/operation_runner/reduction/ and the dispatch of
      core/context/sls.h.
    - CxlRun, CxlOperation: the composition.  An accepted operation, run on the CXL
      simulator with its packs in any order, leaves in the user's buffer the sum of
      the rows that the lookups of every batch name, and gives all units back.
    - Handshake: the host thread of a pack interleaved with the simulator thread of
      its unit.  Every schedule that keeps giving turns to both ends, in the state
      of the sequential run, and the host only polls while the simulator executes.
    - SecureDevice: secure/plain/device/untrusted_sls.h, secure/plain/sls.h and
      secure/shared/sls_runner_factory.cpp.  The untrusted device over CXL, with the
      checks of the SLS operation it builds, is the CPU device, and a secure operation
      on it returns the plain sums.
    - ThreadPool: common/threads/ under the reduction runner.  On every schedule, with
      overlapping and throwing actions and with the condition variable explicit, the
      pool runs every action once and ends; an operation that has returned has no
      action left, one that has thrown can.
    - Contexts: core/context/, core/device/device.cpp and include/pnmlib/core/
      {context,device,dispatcher,runner}.h.  The parts of every context fit each
      other, and a buffer over user data gives the data back.
    - InfoFiles, DataFiles: tools/datagen/line_parser.h, the info files and the binary
      files of the data generators, common/mapped_file.h.  What is stored is read back;
      a file without a byte is not.
    - DatagenImdb, DatagenPredicates: tools/datagen/imdb: column entries, scan ranges and
      predicate vectors, random and precise.  Doubles are IEEE numbers.  The precise
      generators end, within the tolerance or as close to the required selectivity as
      one value of the column allows.
    - DatagenSls: tools/datagen/sls: tables, lengths, indices and golden sums fit
      together.
    - Sysfs: common/misc_control.h, core/device/{sls,imdb}/control.cpp, the constructor
      of common/topology_constants.h and the opening of an SLS device.  The class
      [FileSystem] is what the attributes are read from and written to; the path macros
      of the kernel headers are the class [Headers].  The constants and the memory map of
      an opened device are those that the attributes describe.
    - ImdbDevice: include/pnmlib/imdb/libimdb.h and core/device/imdb/{base,simulator}.
      The registers of the threads as bytes of the mapped file refine the banks of
      Imdb; the driver and the simulator agree on the threads that are locked.
    - PnmCtl: tools/pnm_ctl, from the values of the options on.  Shared memory files are
      created and destroyed; the other commands read and write the controls of Sysfs.
    - DatagenCache: tools/datagen/imdb/utils.h, tools/datagen/common_factory.h and the
      factories.  Argument strings are parsed as they were printed, except where a part
      is left out; the data is what the seed gives, generated once, with its golden
      vectors, and then read back.
    - DatagenSlsCache: tools/datagen/sls/utils.h and the factories there.  The same for
      tables, lengths, indices and golden sums, with a number of its own from the random
      device for each of them.

    ** How the code is modelled

    A C++ function is a Rocq function of the same name; a class is a module or a
    record named [t] with the class's members as fields.  An operation that can
    throw, fail an assertion or run into undefined behaviour returns a [result];
    mutated objects are passed and returned.  Operations on the driver are in the
    monad [M] of Allocators, which keeps the driver's state across exceptions, so
    that [catch] blocks and destructors see it.  Unsigned integers are [Z] with the
    reduction ([u8], [u32], [u64], [u128]) written where the C++ type reduces.
    Assertions are checked, as in the debug build.  Memory is a function from
    addresses to bytes; pointers are addresses.

    Loops are structural where the code's are bounded.  Fuel appears in the copies
    of RankAddress (a number of 256-byte blocks; the theorems ask for at least the
    size of the copy), in the column loop of TraceGenerator (the longest batch plus
    one, [columns_fuel], always enough), in the simulators (the number of
    instructions of a buffer, the bound of the code's own loop), in the iterators
    of BitViews and Views (the size of the vector or buffer), in the extraction of
    lists from a stream (the number of its characters), in the binary search of
    DatagenImdb (33 rounds for 32-bit numbers), in the loop that
    loads a table of SecureExecutor (the number of rows), and in the polling loops
    of SlsDevice, where every unsuccessful load gives the simulator thread one
    iteration: one unit of fuel is enough for a run that the simulator completes,
    and a run that it does not complete polls forever, the error [OutOfFuel].  In
    every case a theorem states that a result is returned, not only that a returned
    result is right; Handshake shows it without fuel, for all schedules.

    ** What is not modelled

    Logging, profiling and timing; file descriptors.  Whether [mmap] or [ioctl] succeeds
    is a parameter, and so is the driver behind sysfs.  What an
    action of the thread pool does is not part of ThreadPool, so no theorem is about two
    packs that access memory at the same time: SlsRunner runs the packs one after another
    in any order, and Handshake interleaves a host thread with the simulator of its
    unit.  A scan whose result buffer overlaps its inputs is the error [NotModelled].  How the
    tables are placed in the untrusted device is an argument of its theorems.  The
    end-to-end theorems are about the CXL device and untagged [uint32_t] operations; for
    the AXDIMM device the runner is modelled and its simulator core is proved on its
    own.  The generators of selectivities and [generate_data], which uses them, are left
    out; the golden sums of [uint64_t] and [float] tables are a parameter.  Of tools/pnm_ctl, the parsing of options is CLI11's and the setup of DAX devices
    (dax.cpp) is a sequence of calls to ndctl.  Benchmarks and tests are not part of the
    library. *)

From Stdlib Require Export ZArith Lia.
From stdpp Require Export base tactics numbers option list.

#[global] Open Scope Z_scope.

(** ** Errors

    [error] has one constructor per exception class of
    include/pnmlib/common/error.h, one for [std::logic_error], one for the
    exceptions of the standard library that are no logic errors
    ([std::bad_optional_access], [std::bad_variant_access]), one for
    [std::abort], one for a failed [assert], and one for an
    access the C++ program may not make (an out-of-range [operator[]], a read
    through an empty optional, a shift by at least the operand's width).
    [OutOfFuel] has no counterpart in the program: it is the outcome of a loop
    whose fuel ran out. *)
Inductive error :=
  | OutOfMemory
  | BadAccess
  | InvalidArguments
  | IO
  | NotSupported
  | Failure
  | LogicError
  | StdException
  | Aborted
  | AssertionFailed
  | UndefinedBehaviour
  | NotModelled
  | OutOfFuel.

#[export] Instance error_eq_dec : EqDecision error.
Proof. solve_decision. Defined.

(** The outcome of a fallible C++ function. *)
Inductive result (A : Type) :=
  | Ok (a : A)
  | Err (e : error).
Arguments Ok {A} a.
Arguments Err {A} e.

#[export] Instance result_eq_dec {A} `{EqDecision A} : EqDecision (result A).
Proof. solve_decision. Defined.

Definition rbind {A B} (m : result A) (f : A → result B) : result B :=
  match m with Ok a => f a | Err e => Err e end.

Declare Scope pnm_scope.
Delimit Scope pnm_scope with pnm.
Notation "'let!' x := c 'in' k" := (rbind c (fun x => k))
  (at level 10, x pattern, c at level 200, k at level 200,
   format "'let!'  x  :=  c  'in' '//' k") : pnm_scope.
#[global] Open Scope pnm_scope.

(** [assert(b)] of the C++ sources. *)
Definition assert (b : bool) : result unit :=
  if b then Ok tt else Err AssertionFailed.

Definition of_option {A} (e : error) (o : option A) : result A :=
  match o with Some a => Ok a | None => Err e end.

Definition is_ok {A} (r : result A) : bool :=
  match r with Ok _ => true | Err _ => false end.

(** A loop over a list that threads a state and stops at the first error. *)
Fixpoint rfold {A S} (f : S → A → result S) (s : S) (l : list A) : result S :=
  match l with
  | [] => Ok s
  | x :: l' => let! s' := f s x in rfold f s' l'
  end.

(** A loop that collects the results of its body. *)
Definition rmap {A B} (f : A → result B) (l : list A) : result (list B) :=
  rfold (fun acc x => let! y := f x in Ok (acc ++ [y])) [] l.

(** ** Machine integers: values of [uintN_t] as [Z], wrap-around written out *)
Definition u8 (x : Z) : Z := x mod 2 ^ 8.
Definition u32 (x : Z) : Z := x mod 2 ^ 32.
Definition u64 (x : Z) : Z := x mod 2 ^ 64.
Definition u128 (x : Z) : Z := x mod 2 ^ 128.

#[global] Arguments u8 : simpl never.
#[global] Arguments u32 : simpl never.
#[global] Arguments u64 : simpl never.
#[global] Arguments u128 : simpl never.

(** ** The development's hint databases and tactics *)
Create HintDb pnm.

Ltac split_and_lia := repeat split; lia.

(** Evaluate [2 ^ k] for literal [k], everywhere. *)
Ltac pow_consts :=
  repeat match goal with
  | |- context [2 ^ Zpos ?p] =>
      let v := eval vm_compute in (2 ^ Zpos p) in change (2 ^ Zpos p) with v in *
  | H : context [2 ^ Zpos ?p] |- _ =>
      let v := eval vm_compute in (2 ^ Zpos p) in change (2 ^ Zpos p) with v in *
  end.

(** Linear arithmetic with division and remainder by literals. *)
Ltac dlia := pow_consts; Z.to_euclidean_division_equations; lia.

(** Decompose the success of a sequence of [let!]. *)
Ltac inv_result :=
  repeat match goal with
  | H : rbind ?m _ = Ok _ |- _ =>
      let E := fresh "E" in destruct m eqn:E; cbn [rbind] in H; [|discriminate H]
  | H : assert ?b = Ok _ |- _ =>
      unfold assert in H;
      let E := fresh "E" in destruct b eqn:E; [|discriminate H]; clear H
  | H : Ok _ = Ok _ |- _ => injection H; clear H; intros; subst
  | H : Err _ = Ok _ |- _ => discriminate H
  | H : of_option _ ?o = Ok _ |- _ =>
      let E := fresh "E" in destruct o eqn:E; cbn [of_option] in H; [|discriminate H]
  end.

(** Turn boolean comparisons of [Z] in hypotheses into propositions. *)
Ltac zbool :=
  repeat match goal with
  | H : (_ && _) = true |- _ => apply andb_true_iff in H; destruct H
  | H : (_ || _) = false |- _ => apply orb_false_iff in H; destruct H
  | H : negb _ = true |- _ => apply negb_true_iff in H
  | H : negb _ = false |- _ => apply negb_false_iff in H
  | H : (_ =? _) = true |- _ => apply Z.eqb_eq in H
  | H : (_ =? _) = false |- _ => apply Z.eqb_neq in H
  | H : (_ <? _) = true |- _ => apply Z.ltb_lt in H
  | H : (_ <? _) = false |- _ => apply Z.ltb_ge in H
  | H : (_ <=? _) = true |- _ => apply Z.leb_le in H
  | H : (_ <=? _) = false |- _ => apply Z.leb_gt in H
  end.

(** ** Bit fields as division and remainder

    Shifts and masks by constants become [/] and [mod], which [lia] decides. *)
Lemma land_ones_mod (x w m : Z) : 0 ≤ w → m = Z.ones w → Z.land x m = x mod 2 ^ w.
Proof. intros Hw ->. by apply Z.land_ones. Qed.

Lemma shiftr_div (x k : Z) : 0 ≤ k → Z.shiftr x k = x / 2 ^ k.
Proof. apply Z.shiftr_div_pow2. Qed.

Lemma shiftl_mul (x k : Z) : 0 ≤ k → Z.shiftl x k = x * 2 ^ k.
Proof. apply Z.shiftl_mul_pow2. Qed.

Lemma lxor_bits (x y : Z) :
  0 ≤ x < 2 → 0 ≤ y < 2 → Z.lxor x y = (x + y) mod 2.
Proof.
  intros. assert (x = 0 ∨ x = 1) as [-> | ->] by lia;
  assert (y = 0 ∨ y = 1) as [-> | ->] by lia; reflexivity.
Qed.

(** [lor] of two numbers with disjoint bits is their sum. *)
Lemma lor_disjoint_add (x y : Z) : Z.land x y = 0 → Z.lor x y = x + y.
Proof. intros H. rewrite Z.add_nocarry_lxor, Z.lxor_lor; done. Qed.

Lemma land_low_high (x y k : Z) : 0 ≤ k → 0 ≤ x < 2 ^ k → Z.land x (y * 2 ^ k) = 0.
Proof.
  intros Hk Hx. apply Z.bits_inj'. intros n Hn. rewrite Z.land_spec, Z.bits_0.
  destruct (Z.lt_ge_cases n k).
  - rewrite Z.mul_pow2_bits_low by lia. apply andb_false_r.
  - rewrite <- (Z.mod_small x (2 ^ k)), Z.mod_pow2_bits_high by lia. done.
Qed.

Lemma lor_low_high (x y k : Z) :
  0 ≤ k → 0 ≤ x < 2 ^ k → Z.lor x (y * 2 ^ k) = x + y * 2 ^ k.
Proof. intros. apply lor_disjoint_add, land_low_high; done. Qed.

Lemma lor_high_low (x y k : Z) :
  0 ≤ k → 0 ≤ x < 2 ^ k → Z.lor (y * 2 ^ k) x = y * 2 ^ k + x.
Proof. intros. rewrite Z.lor_comm, lor_low_high by done. lia. Qed.

(** [x & ~(2^k - 1)] clears the low [k] bits. *)
Lemma land_lnot_ones (x k : Z) :
  0 ≤ k → Z.land x (Z.lnot (2 ^ k - 1)) = x / 2 ^ k * 2 ^ k.
Proof.
  intros Hk. replace (2 ^ k - 1) with (Z.ones k) by (rewrite Z.ones_equiv; lia).
  rewrite <- Z.ldiff_land, Z.ldiff_ones_r, Z.shiftl_mul_pow2, Z.shiftr_div_pow2 by lia.
  done.
Qed.

Lemma testbit_above (x k n : Z) :
  0 ≤ x < 2 ^ k → 0 ≤ k ≤ n → Z.testbit x n = false.
Proof.
  intros Hx Hn. rewrite <- (Z.mod_small x (2 ^ k)) by done.
  apply Z.mod_pow2_bits_high; lia.
Qed.

Lemma pow2_pos (k : Z) : 0 ≤ k → 0 < 2 ^ k.
Proof. intros. apply Z.pow_pos_nonneg; lia. Qed.
#[export] Hint Resolve pow2_pos : pnm.

(** ** Sums of lists *)
Definition sum_list_Z (l : list Z) : Z := foldr Z.add 0 l.

Lemma sum_list_Z_app (l k : list Z) :
  sum_list_Z (l ++ k) = sum_list_Z l + sum_list_Z k.
Proof. induction l as [|x l IH]; cbn; [done|]. unfold sum_list_Z in *. lia. Qed.

Lemma sum_list_Z_nonneg (l : list Z) : Forall (Z.le 0) l → 0 ≤ sum_list_Z l.
Proof.
  induction 1 as [|x l Hx _ IH]; cbn; [done|]. unfold sum_list_Z in *. lia.
Qed.

Lemma fold_left_add_sum (l : list Z) (a : Z) :
  fold_left Z.add l a = a + sum_list_Z l.
Proof.
  revert a. induction l as [|x l IH]; intros a; cbn; [lia|].
  rewrite IH. unfold sum_list_Z. lia.
Qed.

Lemma rfold_app {A S} (f : S → A → result S) (l k : list A) (s : S) :
  rfold f s (l ++ k) = rbind (rfold f s l) (fun s' => rfold f s' k).
Proof.
  revert s. induction l as [|x l IH]; intros s; cbn; [done|].
  destruct (f s x); cbn; [apply IH | done].
Qed.

(** The invariant rule for [rfold]: if every step from a state satisfying [I]
    succeeds and re-establishes [I], then the whole loop succeeds in [I]. *)
Lemma rmap_spec {A B} (f : A → result B) (g : A → B) (l : list A) :
  (∀ x, x ∈ l → f x = Ok (g x)) → rmap f l = Ok (g <$> l).
Proof.
  intros H. unfold rmap.
  assert (E : ∀ acc, rfold (fun acc x => let! y := f x in Ok (acc ++ [y])) acc l =
                     Ok (acc ++ (g <$> l))).
  { induction l as [|x l IH]; intros acc; cbn [rfold].
    - by rewrite app_nil_r.
    - rewrite H by (by left). cbn [rbind]. rewrite IH by (intros; apply H; by right).
      by rewrite <- app_assoc. }
  apply E.
Qed.

Lemma rfold_invariant {A S} (f : S → A → result S) (I : list A → S → Prop)
    (l : list A) (s : S) :
  I [] s →
  (∀ done x todo s, l = done ++ x :: todo → I done s →
     ∃ s', f s x = Ok s' ∧ I (done ++ [x]) s') →
  ∃ s', rfold f s l = Ok s' ∧ I l s'.
Proof.
  intros H0 Hstep.
  enough (∀ todo done s, l = done ++ todo → I done s →
            ∃ s', rfold f s todo = Ok s' ∧ I l s') as H
    by (apply (H l []); done).
  induction todo as [|x todo IH]; intros don s' Hl Hs'.
  - exists s'. rewrite app_nil_r in Hl. subst. done.
  - destruct (Hstep don x todo s' Hl Hs') as (s'' & Hf & HI).
    cbn. rewrite Hf. cbn. apply (IH (don ++ [x])); [|done].
    rewrite Hl, <- app_assoc. done.
Qed.

(** [x & ~m] on 64-bit values. *)
Lemma land_u64_lnot (x m : Z) :
  0 ≤ x < 2 ^ 64 → Z.land x (u64 (Z.lnot m)) = Z.ldiff x m.
Proof.
  intros Hx. unfold u64. rewrite <- Z.land_ones by lia.
  rewrite (Z.land_comm (Z.lnot m)), Z.land_assoc, Z.land_ones by lia.
  rewrite Z.mod_small by done. rewrite Z.ldiff_land. done.
Qed.

(** Replace bit [k] of [x] by [b]: [(x & ~(1 << k)) | (b << k)]. *)
Lemma ldiff_bit (x k : Z) :
  0 ≤ k → Z.ldiff x (2 ^ k) = x - (x / 2 ^ k) mod 2 * 2 ^ k.
Proof.
  intros Hk. pose proof (Z.div_mod x (2 ^ k) ltac:(pose proof (pow2_pos k Hk); lia)) as E.
  pose proof (Z.mod_pos_bound x (2 ^ k) (pow2_pos k Hk)) as B.
  assert (Z.ldiff x (2 ^ k) + (x / 2 ^ k) mod 2 * 2 ^ k = x); [|lia].
  rewrite <- lor_disjoint_add.
  - apply Z.bits_inj'. intros n Hn. rewrite Z.lor_spec, Z.ldiff_spec, Z.pow2_bits_eqb by lia.
    rewrite <- (Z.bit0_mod (x / 2 ^ k)), <- Z.shiftr_div_pow2, Z.shiftr_spec, Z.add_0_l by lia.
    destruct (Z.eqb_spec k n) as [-> | Hne].
    + rewrite andb_false_r. destruct (Z.testbit x n); cbn [Z.b2z];
        rewrite ?Z.mul_1_l, ?Z.pow2_bits_true, ?Z.mul_0_l, ?Z.bits_0 by lia; done.
    + rewrite andb_true_r. destruct (Z.testbit x k); cbn [Z.b2z];
        rewrite ?Z.mul_1_l, ?Z.pow2_bits_false, ?Z.mul_0_l, ?Z.bits_0 by lia;
        apply orb_false_r.
  - apply Z.bits_inj'. intros n Hn. rewrite Z.land_spec, Z.ldiff_spec, Z.bits_0, Z.pow2_bits_eqb by lia.
    pose proof (Z.mod_pos_bound (x / 2 ^ k) 2 ltac:(lia)).
    assert ((x / 2 ^ k) mod 2 = 0 ∨ (x / 2 ^ k) mod 2 = 1) as [-> | ->] by lia;
      rewrite ?Z.mul_1_l, ?Z.mul_0_l, ?Z.bits_0, ?Z.pow2_bits_eqb by lia;
      destruct (Z.eqb_spec k n); rewrite ?andb_false_r; done.
Qed.

Lemma set_bit_arith (x b k : Z) :
  0 ≤ k → 0 ≤ b < 2 →
  Z.lor (Z.ldiff x (2 ^ k)) (b * 2 ^ k) = x - (x / 2 ^ k) mod 2 * 2 ^ k + b * 2 ^ k.
Proof.
  intros Hk Hb. rewrite lor_disjoint_add, ldiff_bit by
    (try done; apply Z.bits_inj'; intros n Hn;
     rewrite Z.land_spec, Z.ldiff_spec, Z.bits_0, Z.pow2_bits_eqb by lia;
     assert (b = 0 ∨ b = 1) as [-> | ->] by lia;
     rewrite ?Z.mul_1_l, ?Z.mul_0_l, ?Z.bits_0, ?Z.pow2_bits_eqb by lia;
     destruct (Z.eqb_spec k n); rewrite ?andb_false_r; done).
  done.
Qed.

(** ** Wrap-around of 64-bit arithmetic *)
Lemma u64_small (x : Z) : 0 ≤ x < 2 ^ 64 → u64 x = x.
Proof. apply Z.mod_small. Qed.

Lemma u64_range (x : Z) : 0 ≤ u64 x < 2 ^ 64.
Proof. apply Z.mod_pos_bound. lia. Qed.

Lemma u64_add_l (x y : Z) : u64 (u64 x + y) = u64 (x + y).
Proof. apply Zplus_mod_idemp_l. Qed.

Lemma u64_add_r (x y : Z) : u64 (x + u64 y) = u64 (x + y).
Proof. apply Zplus_mod_idemp_r. Qed.

Lemma u64_idem (x : Z) : u64 (u64 x) = u64 x.
Proof. apply Zmod_mod. Qed.

Create Rewrite HintDb u64.
#[export] Hint Rewrite u64_add_l u64_add_r u64_idem : u64.

(** ** Vectors indexed by [size_t]

    [v[i]] outside the vector is undefined behaviour. *)
Definition vec_at {A} (l : list A) (i : Z) : result A :=
  if i <? 0 then Err UndefinedBehaviour
  else of_option UndefinedBehaviour (l !! Z.to_nat i).

Definition vec_set {A} (l : list A) (i : Z) (x : A) : result (list A) :=
  if (0 <=? i) && (i <? Z.of_nat (length l))
  then Ok (<[Z.to_nat i := x]> l)
  else Err UndefinedBehaviour.

Lemma vec_at_Ok {A} (l : list A) (i : Z) (x : A) :
  vec_at l i = Ok x ↔ 0 ≤ i ∧ l !! Z.to_nat i = Some x.
Proof.
  unfold vec_at. destruct (i <? 0) eqn:E; zbool.
  - split; [done|lia].
  - destruct (l !! Z.to_nat i) eqn:El; cbn; split; intros H; try done.
    + injection H as ->. auto with lia.
    + destruct H as [_ [= ->]]. done.
    + by destruct H.
Qed.

Lemma vec_set_Ok {A} (l : list A) (i : Z) (x : A) :
  0 ≤ i < Z.of_nat (length l) → vec_set l i x = Ok (<[Z.to_nat i := x]> l).
Proof.
  intros H. unfold vec_set. replace (0 <=? i) with true by (symmetry; apply Z.leb_le; lia).
  by replace (i <? Z.of_nat (length l)) with true by (symmetry; apply Z.ltb_lt; lia).
Qed.

(** [0, 1, ..., n - 1] as [size_t] loop counters. *)
Definition range (n : Z) : list Z := Z.of_nat <$> seq 0 (Z.to_nat n).
#[global] Arguments range : simpl never.

Lemma elem_of_range (n i : Z) : i ∈ range n ↔ 0 ≤ i < n.
Proof.
  unfold range. rewrite list_elem_of_fmap. split.
  - intros (k & -> & Hk%elem_of_seq). lia.
  - intros Hi. exists (Z.to_nat i). rewrite Z2Nat.id by lia. split; [done|].
    apply elem_of_seq. lia.
Qed.

Lemma range_succ (n : Z) : 0 ≤ n → range (n + 1) = range n ++ [n].
Proof.
  intros Hn. unfold range. rewrite Z2Nat.inj_add by lia. change (Z.to_nat 1) with 1%nat.
  rewrite Nat.add_1_r, seq_S, fmap_app. cbn. by rewrite Z2Nat.id by lia.
Qed.

Lemma length_range (n : Z) : length (range n) = Z.to_nat n.
Proof. unfold range. by rewrite length_fmap, length_seq. Qed.

Lemma range_lookup (n : Z) (k : nat) : (k < Z.to_nat n)%nat → range n !! k = Some (Z.of_nat k).
Proof.
  intros Hk. unfold range. rewrite list_lookup_fmap, lookup_seq_lt by done. done.
Qed.

Lemma Forall_range (P : Z → Prop) (n : Z) : (∀ i, 0 ≤ i < n → P i) → Forall P (range n).
Proof.
  intros H. apply Forall_forall. intros i Hi. by apply H, elem_of_range.
Qed.

(** Setting a clear bit adds its weight. *)
Lemma lor_fresh_bit (x k : Z) :
  0 ≤ k → (x / 2 ^ k) mod 2 = 0 → Z.lor x (2 ^ k) = x + 2 ^ k.
Proof.
  intros Hk Hb. pose proof (set_bit_arith x 1 k Hk ltac:(lia)) as H.
  rewrite ldiff_bit, Hb, Z.mul_0_l, Z.sub_0_r, Z.mul_1_l in H by done. lia.
Qed.
