(* ===== verification/Text.v ===== *)
(** * Text: characters, numbers and input streams

    What the sources use of the standard library and of fmt to read and write text:
    decimal numbers, words, lines, and the extraction of values from an
    [std::istream].  A character is its code, a string the list of its characters.

    [Format] is what a client knows of a type that is printed with [fmt] and read with
    [operator>>]; [FormatLaws] is the contract, and unsigned integers of any width
    fulfil it. *)
From Stdlib Require Import String Ascii.
From S2P Require Import Prelude.

Abbreviation chars := (list Z).

(** A string literal. *)
Definition str (s : string) : chars := (fun c => Z.of_N (N_of_ascii c)) <$> list_ascii_of_string s.

(** [std::isspace] in the C locale. *)
Definition is_space (c : Z) : bool := (c =? 32) || ((9 <=? c) && (c <=? 13)).
Definition newline : Z := 10.

(** ** Decimal numbers *)

(** The longest prefix of digits: its value, if there is one, and what follows it. *)
Fixpoint read_digits (s : chars) (seen : bool) (value : Z) : option Z * chars :=
  match s with
  | c :: s' =>
      if (48 <=? c) && (c <=? 57) then read_digits s' true (10 * value + (c - 48))
      else (if seen then Some value else None, s)
  | [] => (if seen then Some value else None, [])
  end.

(** The decimal digits of a number. *)
Fixpoint digits (fuel : nat) (v : Z) : chars :=
  match fuel with
  | O => []
  | S f => if v <? 10 then [48 + v] else digits f (v / 10) ++ [48 + v mod 10]
  end.

(** ** Streams *)

(** An input string stream: what is left of it, or [None] once an extraction failed. *)
Definition stream := option chars.

Fixpoint skip_ws (s : chars) : chars :=
  match s with c :: s' => if is_space c then skip_ws s' else s | [] => [] end.

Fixpoint word (s : chars) : chars * chars :=
  match s with
  | c :: s' => if is_space c then ([], s) else let (w, rest) := word s' in (c :: w, rest)
  | [] => ([], [])
  end.

(** [is >> std::string] *)
Definition extract_word (iss : stream) (old : chars) : chars * stream :=
  match iss with
  | None => (old, None)
  | Some s => match skip_ws s with
              | [] => (old, None)
              | s' => let (w, rest) := word s' in (w, Some rest)
              end
  end.

(** [is >> char]; the character itself is of no interest to the sources. *)
Definition extract_char (iss : stream) : stream :=
  match iss with
  | None => None
  | Some s => match skip_ws s with [] => None | _ :: s' => Some s' end
  end.

Definition read_sign (s : chars) : bool * chars :=
  match s with
  | c :: s' => if c =? 45 then (true, s') else if c =? 43 then (false, s') else (false, s)
  | [] => (false, [])
  end.

(** [is >> v] for an unsigned integer of [W] bits.  At the end of the stream [v] keeps
    its value, where no digit is found it becomes 0, and where the number is too large
    the largest value; the extraction fails in all three cases. *)
Definition extract_unsigned (W : Z) (iss : stream) (old : Z) : Z * stream :=
  match iss with
  | None => (old, None)
  | Some s =>
      match skip_ws s with
      | [] => (old, None)
      | s' =>
          let (negative, s1) := read_sign s' in
          match read_digits s1 false 0 with
          | (None, _) => (0, None)
          | (Some v, rest) =>
              if v <? 2 ^ W then ((if negative then - v else v) mod 2 ^ W, Some rest)
              else (2 ^ W - 1, None)
          end
      end
  end.

(** [std::getline] until it fails: the lines of a text, the last one only if it has
    characters. *)
Fixpoint split_lines (s : chars) (line : chars) : list chars :=
  match s with
  | [] => match line with [] => [] | _ => [line] end
  | c :: s' => if c =? newline then line :: split_lines s' [] else split_lines s' (line ++ [c])
  end.
Definition lines (s : chars) : list chars := split_lines s [].

(** ** Values that are printed and read *)
Record Format (T : Type) := mkFormat {
  show : T → chars;                          (* fmt, "{}" *)
  extract : stream → T → T * stream;         (* operator>> *)
}.
Arguments show {T} f v.
Arguments extract {T} f iss old.

Definition unsigned (W : Z) : Format Z := {| show := digits 20; extract := extract_unsigned W |}.

(** [fmt::join(l, " ")] *)
Fixpoint join {T} (F : Format T) (l : list T) : chars :=
  match l with
  | [] => []
  | [v] => show F v
  | v :: l' => show F v ++ 32 :: join F l'
  end.

(** [std::copy(std::istream_iterator<T>{is}, {}, std::back_inserter(l))]: every
    extraction that succeeds consumes a character. *)
Fixpoint read_all {T} (F : Format T) (d : T) (fuel : nat) (iss : stream) : list T :=
  match fuel with
  | O => []
  | S f => match extract F iss d with
           | (v, Some rest) => v :: read_all F d f (Some rest)
           | (_, None) => []
           end
  end.

Definition stream_size (iss : stream) : nat := match iss with Some s => length s | None => O end.

Definition extract_all {T} (F : Format T) (d : T) (iss : stream) : list T :=
  read_all F d (S (stream_size iss)) iss.

(** What follows a value: nothing or white space. *)
Definition ends_value (s : chars) : Prop :=
  match s with [] => True | c :: _ => is_space c = true end.

Definition is_word (w : chars) : Prop := w ≠ [] ∧ Forall (fun c => is_space c = false) w.

(** Values in [valid] are printed as words that are read back, white space before a
    value is skipped, and reading makes progress. *)
Class FormatLaws {T} (F : Format T) (valid : T → Prop) := {
  show_word : ∀ v, valid v → is_word (show F v);
  extract_show : ∀ v rest old, valid v → ends_value rest →
    extract F (Some (show F v ++ rest)) old = (v, Some rest);
  extract_space : ∀ c s old, is_space c = true → extract F (Some (c :: s)) old = extract F (Some s) old;
  extract_failed : ∀ old, extract F None old = (old, None);
  extract_end : ∀ old, (extract F (Some []) old).2 = None;
  extract_progress : ∀ s old v rest, extract F (Some s) old = (v, Some rest) → (length rest < length s)%nat;
}.

(** ** Lemmas on digits *)
Lemma read_digits_app (s : chars) : ∀ (rest : chars) (seen : bool) (v : Z),
  Forall (fun c => 48 ≤ c ≤ 57) s →
  read_digits (s ++ rest) seen v =
  read_digits rest (seen || bool_decide (s ≠ [])) (fold_left (fun v c => 10 * v + (c - 48)) s v).
Proof.
  induction s as [|c s IH]; intros rest seen v Hs; cbn [app read_digits fold_left].
  - by rewrite bool_decide_eq_false_2, orb_false_r by congruence.
  - apply Forall_cons in Hs as [Hc Hs]. rewrite (proj2 (Z.leb_le 48 c)), (proj2 (Z.leb_le c 57)) by lia. cbn [andb].
    rewrite IH by done. rewrite (bool_decide_eq_true_2 (c :: s ≠ [])) by done. by rewrite orb_true_r.
Qed.

Lemma digits_value (fuel : nat) : ∀ v, 0 ≤ v < 10 ^ Z.of_nat fuel →
  Forall (fun c => 48 ≤ c ≤ 57) (digits fuel v) ∧ (0 < Z.of_nat fuel → digits fuel v ≠ []) ∧
  fold_left (fun v c => 10 * v + (c - 48)) (digits fuel v) 0 = v.
Proof.
  induction fuel as [|f IH]; intros v Hv; cbn [digits].
  - split; [constructor|]. split; [done|]. cbn in *. lia.
  - destruct (v <? 10) eqn:E; zbool.
    + repeat split; [constructor; [lia|constructor]|done|cbn; lia].
    + replace (Z.of_nat (S f)) with (Z.of_nat f + 1) in Hv by lia. rewrite Z.pow_add_r, Z.pow_1_r in Hv by lia.
      destruct (IH (v / 10)) as (H1 & _ & H3); [dlia|]. split; [|split].
      * apply Forall_app. split; [done|]. constructor; [dlia|constructor].
      * intros _ Hn. by apply app_eq_nil in Hn as [_ ?].
      * rewrite fold_left_app, H3. cbn. dlia.
Qed.

Lemma digits_read (s : chars) : ∀ (seen : bool) (v : Z), (length (read_digits s seen v).2 ≤ length s)%nat ∧
  (seen = false → ∀ x, (read_digits s seen v).1 = Some x → (length (read_digits s seen v).2 < length s)%nat).
Proof.
  induction s as [|c s IH]; intros seen v; cbn [read_digits]; [destruct seen; by split|].
  destruct ((48 <=? c) && (c <=? 57)).
  - destruct (IH true (10 * v + (c - 48))) as [H _]. cbn [length]. split; [lia|]. intros _ x _. lia.
  - cbn [fst snd]. split; [done|]. by intros -> x.
Qed.

(** ** Lemmas on streams *)
Lemma space_digit (c : Z) : is_space c = true → ¬ (48 ≤ c ≤ 57).
Proof. unfold is_space. intros H. zbool. lia. Qed.

Lemma skip_ws_length (s : chars) : (length (skip_ws s) ≤ length s)%nat.
Proof. induction s as [|c s IH]; cbn [skip_ws]; [done|]. destruct (is_space c); cbn [length]; lia. Qed.

Lemma skip_word (w rest : chars) : is_word w → skip_ws (w ++ rest) = w ++ rest.
Proof. intros [Hn Hw]. destruct w as [|c w]; [done|]. apply Forall_cons in Hw as [Hc _]. cbn. by rewrite Hc. Qed.

Lemma word_app (w rest : chars) : is_word w → ends_value rest → word (w ++ rest) = (w, rest).
Proof.
  intros [_ Hw] Hr. induction Hw as [|c w Hc Hw IH]; cbn [app word].
  - destruct rest as [|c rest]; cbn [word]; [done|]. by rewrite Hr.
  - by rewrite Hc, IH.
Qed.

Lemma extract_word_app (w rest old : chars) :
  is_word w → ends_value rest → extract_word (Some (w ++ rest)) old = (w, Some rest).
Proof.
  intros Hw Hr. unfold extract_word. rewrite skip_word by done. pose proof (word_app w rest Hw Hr) as E.
  destruct w as [|c w]; [by destruct Hw|]. cbn [app] in *. by rewrite E.
Qed.

Lemma digits_word (s : chars) : s ≠ [] → Forall (fun c => 48 ≤ c ≤ 57) s → is_word s.
Proof. intros Hn Hs. split; [done|]. eapply Forall_impl; [done|]. intros c Hc. apply not_true_is_false. intros H%space_digit. by apply H. Qed.

(** An unsigned integer of at most 64 bits is read back. *)
#[export] Instance unsigned_laws (W : Z) `{HW : !TCEq (0 <? W) true, HW' : !TCEq (W <=? 64) true} :
  FormatLaws (unsigned W) (fun v => 0 ≤ v < 2 ^ W).
Proof.
  apply TCEq_eq in HW, HW'. zbool.
  assert (HD : ∀ v, 0 ≤ v < 2 ^ W → 0 ≤ v < 10 ^ 20).
  { intros v Hv. assert (2 ^ W ≤ 2 ^ 64) by (apply Z.pow_le_mono_r; lia). lia. }
  assert (Hnil : ∀ s, skip_ws s = [] ∨ ∃ c s', skip_ws s = c :: s' ∧ is_space c = false).
  { intros s. induction s as [|c s IH]; cbn [skip_ws]; [by left|]. destruct (is_space c) eqn:E; [done|]. eauto. }
  split; cbn [unsigned show extract].
  - intros v Hv. destruct (digits_value 20 v (HD v Hv)) as (H1 & H2 & _). apply digits_word; [apply H2; lia|done].
  - intros v rest old Hv Hr. destruct (digits_value 20 v (HD v Hv)) as (H1 & H2 & H3).
    specialize (H2 ltac:(lia)). unfold extract_unsigned. rewrite skip_word by by apply digits_word.
    assert (Hend : read_digits rest true v = (Some v, rest)).
    { destruct rest as [|c rest]; cbn [read_digits]; [done|]. apply space_digit in Hr.
      by replace ((48 <=? c) && (c <=? 57)) with false by (symmetry; apply andb_false_iff; lia). }
    pose proof (read_digits_app (digits 20 v) rest false 0 H1) as E.
    rewrite H3, bool_decide_eq_true_2 in E by done. cbn [orb] in E. rewrite Hend in E.
    destruct (digits 20 v) as [|c s]; [done|]. apply Forall_cons in H1 as [Hc _]. cbn [app read_sign] in *.
    rewrite (proj2 (Z.eqb_neq c 45)), (proj2 (Z.eqb_neq c 43)) by lia. rewrite E.
    by rewrite (proj2 (Z.ltb_lt v _)), Z.mod_small by lia.
  - intros c s old Hc. unfold extract_unsigned. cbn [skip_ws]. by rewrite Hc.
  - done.
  - done.
  - intros s old v rest H. unfold extract_unsigned in H. pose proof (skip_ws_length s) as Hl.
    destruct (skip_ws s) as [|c s'] eqn:E; [done|]. destruct (read_sign (c :: s')) as [neg s1] eqn:Es.
    assert (length s1 ≤ length (c :: s'))%nat.
    { cbn [read_sign] in Es. repeat case_match; simplify_eq; cbn [length]; lia. }
    destruct (digits_read s1 false 0) as [_ Hd]. destruct (read_digits s1 false 0) as [[x|] r] eqn:Er; [|done].
    specialize (Hd eq_refl x eq_refl). cbn [snd] in Hd. case_match; simplify_eq. lia.
Qed.

(** ** Reading lists of values *)
Section lists.
Context {T : Type} (F : Format T) (valid : T → Prop) `{!FormatLaws F valid} (d : T).

(** The number of extractions the loop is given is never the reason it stops. *)
Lemma read_all_fuel (n m : nat) : ∀ iss, (stream_size iss < n)%nat → (stream_size iss < m)%nat →
  read_all F d n iss = read_all F d m iss.
Proof.
  revert m. induction n as [|n IH]; intros [|m] iss Hn Hm; try lia. cbn [read_all].
  destruct (extract F iss d) as [v [rest|]] eqn:E; [|done]. f_equal.
  destruct iss as [s|]; [|by rewrite extract_failed in E].
  apply extract_progress in E. cbn [stream_size] in *. apply IH; cbn [stream_size]; lia.
Qed.

Lemma read_all_space (c : Z) (s : chars) : is_space c = true → extract_all F d (Some (c :: s)) = extract_all F d (Some s).
Proof.
  intros Hc. unfold extract_all. rewrite (read_all_fuel _ (S (S (length s))) (Some s)) by (cbn [stream_size]; lia).
  cbn [stream_size length read_all]. by rewrite (extract_space (F:=F) c s d Hc).
Qed.

(** A list that was printed with [fmt::join] is read back. *)
Lemma join_read (l : list T) : Forall valid l → extract_all F d (Some (join F l)) = l.
Proof.
  induction 1 as [|v l Hv Hl IH]; [|destruct l as [|w l]]; cbn [join].
  - unfold extract_all. cbn [stream_size length read_all]. pose proof (extract_end (F:=F) d) as H.
    by destruct (extract F (Some []) d) as [? [|]].
  - unfold extract_all. cbn [read_all]. rewrite <- (app_nil_r (show F v)), extract_show by done.
    f_equal. destruct (stream_size _); cbn [read_all]; [done|]. pose proof (extract_end (F:=F) d) as H.
    by destruct (extract F (Some []) d) as [? [|]].
  - unfold extract_all. cbn [read_all]. rewrite extract_show by done. f_equal.
    rewrite <- (read_all_space 32) in IH by done. etrans; [|exact IH]. unfold extract_all. apply read_all_fuel; cbn [stream_size length].
    + rewrite length_app. cbn [length]. destruct (show_word (F:=F) v Hv) as [Hn _]. destruct (show F v); [done|]. cbn [length]. change (match l with [] => show F w | _ :: _ => show F w ++ 32 :: join F l end) with (join F (w :: l)). lia.
    + lia.
Qed.

(** A joined list has no line break. *)
Lemma join_line (l : list T) : Forall valid l → Forall (fun c => c ≠ newline) (join F l).
Proof.
  assert (Hs : ∀ v, valid v → Forall (fun c => c ≠ newline) (show F v)).
  { intros v Hv. destruct (show_word (F:=F) v Hv) as [_ Hw]. eapply Forall_impl; [done|]. by intros c Hc ->. }
  induction 1 as [|v l Hv Hl IH]; [constructor|]. destruct l as [|w l]; cbn [join]; [by apply Hs|].
  apply Forall_app. split; [by apply Hs|]. by constructor.
Qed.
End lists.

(** ** Lines *)
Lemma split_lines_app (s rest acc : chars) : Forall (fun c => c ≠ newline) s →
  split_lines (s ++ newline :: rest) acc = (acc ++ s) :: split_lines rest [].
Proof.
  intros Hs. revert acc. induction Hs as [|c s Hc Hs IH]; intros acc; cbn [app split_lines].
  - by rewrite app_nil_r.
  - rewrite (proj2 (Z.eqb_neq c newline)) by done. by rewrite IH, <- app_assoc.
Qed.

(** A text of complete lines is split into them. *)
Lemma lines_concat (ls : list chars) : Forall (Forall (fun c => c ≠ newline)) ls →
  lines (ls ≫= fun l => l ++ [newline]) = ls.
Proof.
  induction 1 as [|l ls Hl Hls IH]; [done|]. unfold lines in *. cbn [mbind list_bind].
  rewrite <- app_assoc. cbn [app]. rewrite split_lines_app by done. cbn [app]. f_equal. exact IH.
Qed.
