(* ===== verification/Topology.v ===== *)
(** * Topology and hardware constants

    The SLS and IMDB topology records of common/topology_constants.h (their
    values are read from sysfs, so they are data of the model), the derived
    buffer sizes of core/device/sls/utils/constants.h, and the instruction and
    address layouts of hw/. *)
From S2P Require Import Prelude.

(** ** common/topology_constants.h *)
Inductive BusType := AXDIMM | CXL.

#[export] Instance BusType_eq_dec : EqDecision BusType.
Proof. solve_decision. Defined.

Record Constants := mkConstants {
  Bus : BusType;
  NumOfCUnits : Z;
  PSumBufSize : Z;
  NumOfPSumBuf : Z;
  TagsBufSize : Z;
  NumOfTagsBuf : Z;
  InstBufSize : Z;
  NumOfInstBuf : Z;
  InstructionSize : Z;
  RankInterleavingSize : Z;
  AlignedTagSize : Z;
  RegPolling : Z;
  RegSlsExec : Z;
  RegSlsEn : Z;
  DataSize : Z
}.

(** ** core/device/sls/utils/constants.h *)
Definition psum_single_buf_size (t : Constants) : Z := PSumBufSize t / NumOfPSumBuf t.
Definition tags_single_buf_size (t : Constants) : Z := TagsBufSize t / NumOfTagsBuf t.
Definition inst_single_buf_size (t : Constants) : Z := InstBufSize t / NumOfInstBuf t.
Definition inst_per_single_buf (t : Constants) : Z :=
  inst_single_buf_size t / InstructionSize t.
Definition trace_header_size (t : Constants) : Z := InstructionSize t.
Definition inst_per_single_buf_no_header (t : Constants) : Z :=
  (inst_single_buf_size t - trace_header_size t) / InstructionSize t.

Definition POLL_FINISH_VALUE : Z := 0xFFFFFFFF.
Definition POLL_INST_NUM_OFFSET : Z := 8.
Definition SLS_ENABLE_VALUE : Z := 0xCAFE.
Definition SLS_DISABLE_VALUE : Z := 0.
Definition SLS_CONTROL_SWITCHED_VALUE : Z := 0x10001.

(** ** hw/pnm_hw_instr_constants.h *)
Definition DUMMY_INST_SIZE : Z := 16.
Definition INSTR_OPCODE_OFFSET : Z := 62.
Definition INSTR_OPCODE_MASK : Z := 0x03.
Definition INSTR_LOCAL_BIT_OFFSET : Z := 61.
Definition INSTR_LOCAL_BIT_MASK : Z := 0x01.
Definition INSTR_OUTPUT_IDX_OFFSET : Z := 49.
Definition INSTR_OUTPUT_IDX_MASK : Z := 0x0FFF.
Definition INSTR_TRACE_END_OFFSET : Z := 48.
Definition INSTR_TRACE_END_MASK : Z := 0x01.
Definition INSTR_ROW_OFFSET : Z := 14.
Definition INSTR_ROW_MASK : Z := 0x01FFFF.
Definition INSTR_BANKGROUP_OFFSET : Z := 12.
Definition INSTR_BANKGROUP_MASK : Z := 0x03.
Definition INSTR_BANK_OFFSET : Z := 10.
Definition INSTR_BANK_MASK : Z := 0x03.
Definition INSTR_COL_OFFSET : Z := 0.
Definition INSTR_COL_MASK : Z := 0x03FF.
Definition INSTR_HEADER_TAGBIT_POS : Z := 8.
Definition INSTR_HEADER_VSIZE_MASK : Z := 0x1F.

(** ** hw/pnm_addr_constants_types.h *)
Record BitRegionEntry := mkBitRegionEntry {
  RAOffset : Z;
  Mask : Z;
  RStartBit : Z
}.

Record BitXorEntry := mkBitXorEntry {
  RAOffset0 : Z;
  RAOffset1 : Z;
  XStartBit : Z
}.

(** ** hw/pnm_sim_addr_constants.h *)
Definition COL : list BitRegionEntry :=
  [mkBitRegionEntry 3 0x1F 0; mkBitRegionEntry 14 0x1F 5].

Definition ROW : list BitRegionEntry :=
  [mkBitRegionEntry 8 0x0F 0; mkBitRegionEntry 28 0x01 4;
   mkBitRegionEntry 21 0x7F 5; mkBitRegionEntry 29 0x1F 12].

Definition BG : list BitXorEntry :=
  [mkBitXorEntry 21 12 0; mkBitXorEntry 22 13 1].

Definition BANK : list BitXorEntry :=
  [mkBitXorEntry 23 19 0; mkBitXorEntry 24 20 1].

Definition HA_XOR_BIT : Z := 19.
Definition HA_BIT_POS : Z := 8.
Definition HA_MASK : Z := 1.

(** The topology the constructor of [Constants] can produce: the counts are
    positive and the interleaving size is the one it assigns. *)
Record topology_wf (t : Constants) : Prop := {
  wf_cunits : 0 < NumOfCUnits t ≤ 8;
  wf_psum_bufs : 0 < NumOfPSumBuf t ≤ 2;
  wf_tags_bufs : 0 < NumOfTagsBuf t ≤ 2;
  wf_inst_bufs : 0 < NumOfInstBuf t ≤ 2;
  wf_inst_size : InstructionSize t = 8;
  wf_interleaving : RankInterleavingSize t = 2 ^ HA_BIT_POS
}.
