(* ===== verification/InstGenerator.v ===== *)
(** * SLS instruction encoding (core/device/sls/utils/inst_generator.h)

    [RankedInstGenerator] and [ChannelInstGenerator]: the 64-bit SLS
    instruction word, and the mapping of a rank (channel) address to the
    row/bank/bank-group/column fields of an instruction. *)
From S2P Require Import Prelude Topology.

(** ** Opcodes *)
Definition SPARSE_FT_SUM_F32 : Z := 0.
Definition RESERVED : Z := 1.
Definition SPARSE_FT_SUM_U32 : Z := 2.
Definition SPARSE_FT_SUM_U32_TAGGED : Z := 3.

(** [dummy_inst]: a zero header followed by 15 copies of a no-op word. *)
Definition dummy_inst : list Z :=
  0 :: repeat 0xffd000000000000 (Z.to_nat DUMMY_INST_SIZE - 1).

Record DecodedInst := mkInst {
  opcode : Z;
  local_bit : Z;
  output_idx : Z;
  trace_end : Z;
  row : Z;
  bankgroup : Z;
  bank : Z;
  column : Z
}.

#[export] Instance DecodedInst_eq_dec : EqDecision DecodedInst.
Proof. solve_decision. Defined.

Module RankedInstGenerator.

Definition make_empty_instruction (opc out_idx : Z) : DecodedInst :=
  mkInst opc 0 out_idx 0 0 0 0 0.

(** The field-width check of the [DEBUG] build: {2, 1, 12, 1, 17, 2, 2, 10}. *)
Definition fields_fit (inst : DecodedInst) : bool :=
  (opcode inst <? 2 ^ 2) && (local_bit inst <? 2 ^ 1) &&
  (output_idx inst <? 2 ^ 12) && (trace_end inst <? 2 ^ 1) &&
  (row inst <? 2 ^ 17) && (bankgroup inst <? 2 ^ 2) &&
  (bank inst <? 2 ^ 2) && (column inst <? 2 ^ 10).

Definition known_opcode (opc : Z) : bool :=
  (opc =? SPARSE_FT_SUM_F32) || (opc =? RESERVED) ||
  (opc =? SPARSE_FT_SUM_U32) || (opc =? SPARSE_FT_SUM_U32_TAGGED).

Definition pack_fields (inst : DecodedInst) : Z :=
  u64 (u64 (Z.shiftl (opcode inst) INSTR_OPCODE_OFFSET) +
       u64 (Z.shiftl (local_bit inst) INSTR_LOCAL_BIT_OFFSET) +
       u64 (Z.shiftl (output_idx inst) INSTR_OUTPUT_IDX_OFFSET) +
       u64 (Z.shiftl (trace_end inst) INSTR_TRACE_END_OFFSET) +
       u64 (Z.shiftl (row inst) INSTR_ROW_OFFSET) +
       u64 (Z.shiftl (bankgroup inst) INSTR_BANKGROUP_OFFSET) +
       u64 (Z.shiftl (bank inst) INSTR_BANK_OFFSET) +
       u64 (Z.shiftl (column inst) INSTR_COL_OFFSET)).

(** [DEBUG] is the compile-time flag of the sources. *)
Definition encode_instruction (DEBUG : bool) (inst : DecodedInst) : result Z :=
  let! _ := (if DEBUG then assert (fields_fit inst) else Ok tt) in
  let! _ := assert (known_opcode (opcode inst)) in
  Ok (pack_fields inst).

Definition decode_instruction (input_instr : Z) : DecodedInst := {|
  opcode := u32 (Z.land (Z.shiftr input_instr INSTR_OPCODE_OFFSET) INSTR_OPCODE_MASK);
  local_bit :=
    u32 (Z.land (Z.shiftr input_instr INSTR_LOCAL_BIT_OFFSET) INSTR_LOCAL_BIT_MASK);
  output_idx :=
    u32 (Z.land (Z.shiftr input_instr INSTR_OUTPUT_IDX_OFFSET) INSTR_OUTPUT_IDX_MASK);
  trace_end :=
    u32 (Z.land (Z.shiftr input_instr INSTR_TRACE_END_OFFSET) INSTR_TRACE_END_MASK);
  row := u32 (Z.land (Z.shiftr input_instr INSTR_ROW_OFFSET) INSTR_ROW_MASK);
  bankgroup :=
    u32 (Z.land (Z.shiftr input_instr INSTR_BANKGROUP_OFFSET) INSTR_BANKGROUP_MASK);
  bank := u32 (Z.land (Z.shiftr input_instr INSTR_BANK_OFFSET) INSTR_BANK_MASK);
  column := u32 (Z.land (Z.shiftr input_instr INSTR_COL_OFFSET) INSTR_COL_MASK)
|}.

(** One iteration of the COLUMN/ROW loops of [encode_address_from_instruction]. *)
Definition add_region (field : Z) (rank_addr : Z) (entry : BitRegionEntry) : Z :=
  u64 (rank_addr +
       u64 (Z.shiftl (Z.land (Z.shiftr field (RStartBit entry)) (Mask entry))
                     (RAOffset entry))).

(** One iteration of the BankGroup/Bank loops. *)
Definition add_xor_bit (field : Z) (rank_addr : Z) (entry : BitXorEntry) : Z :=
  u64 (rank_addr +
       u64 (Z.shiftl (Z.lxor (Z.land (Z.shiftr field (XStartBit entry)) 1)
                             (Z.land (Z.shiftr rank_addr (RAOffset0 entry)) 1))
                     (RAOffset1 entry))).

Definition encode_address_from_instruction (inst : DecodedInst) : Z :=
  let rank_addr := fold_left (add_region (column inst)) COL 0 in
  let rank_addr := fold_left (add_region (row inst)) ROW rank_addr in
  let rank_addr := fold_left (add_xor_bit (bankgroup inst)) BG rank_addr in
  fold_left (add_xor_bit (bank inst)) BANK rank_addr.

Definition get_region (rank_addr : Z) (field : Z) (entry : BitRegionEntry) : Z :=
  u32 (field +
       Z.shiftl (Z.land (Z.shiftr rank_addr (RAOffset entry)) (Mask entry))
                (RStartBit entry)).

Definition get_xor_bit (rank_addr : Z) (field : Z) (entry : BitXorEntry) : Z :=
  u32 (field +
       Z.shiftl (Z.lxor (Z.land (Z.shiftr rank_addr (RAOffset0 entry)) 1)
                        (Z.land (Z.shiftr rank_addr (RAOffset1 entry)) 1))
                (XStartBit entry)).

Definition decode_address_to_instruction (rank_addr : Z) (inst : DecodedInst)
    : result DecodedInst :=
  let! _ := assert (rank_addr mod 4 =? 0) in
  Ok {| opcode := opcode inst;
        local_bit := local_bit inst;
        output_idx := output_idx inst;
        trace_end := trace_end inst;
        bankgroup := fold_left (get_xor_bit rank_addr) BG 0;
        bank := fold_left (get_xor_bit rank_addr) BANK 0;
        row := fold_left (get_region rank_addr) ROW 0;
        column := fold_left (get_region rank_addr) COL 0 |}.

End RankedInstGenerator.

Module ChannelInstGenerator.

Definition make_empty_instruction (opc out_idx : Z) : DecodedInst :=
  RankedInstGenerator.make_empty_instruction opc out_idx.

Definition encode_instruction (DEBUG : bool) (inst : DecodedInst) : result Z :=
  RankedInstGenerator.encode_instruction DEBUG inst.

Definition decode_instruction (input_instr : Z) : DecodedInst :=
  RankedInstGenerator.decode_instruction input_instr.

(** [channel_addr &= ~(0b1ULL << RAOffset1);
     channel_addr |= ((field >> StartBit) & 0b1) << RAOffset1] *)
Definition put_bit (field : Z) (channel_addr : Z) (entry : BitXorEntry) : Z :=
  Z.lor (Z.land channel_addr (u64 (Z.lnot (Z.shiftl 1 (RAOffset1 entry)))))
        (u32 (Z.shiftl (Z.land (Z.shiftr field (XStartBit entry)) 1)
                       (RAOffset1 entry))).

Definition encode_address_from_instruction (inst : DecodedInst) : Z :=
  let channel_addr := RankedInstGenerator.encode_address_from_instruction inst in
  let channel_addr := fold_left (put_bit (bank inst)) BANK channel_addr in
  fold_left (put_bit (bankgroup inst)) BG channel_addr.

Definition get_bit (channel_addr : Z) (field : Z) (entry : BitXorEntry) : Z :=
  Z.lor field (u32 (Z.shiftl (Z.land (Z.shiftr channel_addr (RAOffset1 entry)) 1)
                             (XStartBit entry))).

Definition decode_address_to_instruction (channel_addr : Z) (inst : DecodedInst)
    : result DecodedInst :=
  let! inst := RankedInstGenerator.decode_address_to_instruction channel_addr inst in
  Ok {| opcode := opcode inst;
        local_bit := local_bit inst;
        output_idx := output_idx inst;
        trace_end := trace_end inst;
        row := row inst;
        bankgroup := fold_left (get_bit channel_addr) BG 0;
        bank := fold_left (get_bit channel_addr) BANK 0;
        column := column inst |}.

End ChannelInstGenerator.

(** ** Lemmas *)

(** Every field fits its width in the instruction word. *)
Record inst_wf (i : DecodedInst) : Prop := {
  wf_opcode : 0 ≤ opcode i < 2 ^ 2;
  wf_local_bit : 0 ≤ local_bit i < 2 ^ 1;
  wf_output_idx : 0 ≤ output_idx i < 2 ^ 12;
  wf_trace_end : 0 ≤ trace_end i < 2 ^ 1;
  wf_row : 0 ≤ row i < 2 ^ 17;
  wf_bankgroup : 0 ≤ bankgroup i < 2 ^ 2;
  wf_bank : 0 ≤ bank i < 2 ^ 2;
  wf_column : 0 ≤ column i < 2 ^ 10
}.

(** The addresses an instruction can name: 34 bits, 8-byte granularity. *)
Definition addressable (a : Z) : Prop := 0 ≤ a < 2 ^ 34 ∧ a mod 8 = 0.

(** Constants unfolded, shifts and masks as [/], [*] and [mod]. *)
Ltac inst_consts :=
  cbv [INSTR_OPCODE_OFFSET INSTR_OPCODE_MASK INSTR_LOCAL_BIT_OFFSET
       INSTR_LOCAL_BIT_MASK INSTR_OUTPUT_IDX_OFFSET INSTR_OUTPUT_IDX_MASK
       INSTR_TRACE_END_OFFSET INSTR_TRACE_END_MASK INSTR_ROW_OFFSET INSTR_ROW_MASK
       INSTR_BANKGROUP_OFFSET INSTR_BANKGROUP_MASK INSTR_BANK_OFFSET INSTR_BANK_MASK
       INSTR_COL_OFFSET INSTR_COL_MASK COL ROW BG BANK
       RAOffset Mask RStartBit RAOffset0 RAOffset1 XStartBit fold_left] in *.

Ltac bits_to_arith :=
  inst_consts;
  rewrite ?shiftr_div, ?shiftl_mul by lia;
  rewrite ?(land_ones_mod _ 1 1), ?(land_ones_mod _ 1 0x01), ?(land_ones_mod _ 2 0x03),
    ?(land_ones_mod _ 4 0x0F), ?(land_ones_mod _ 5 0x1F), ?(land_ones_mod _ 7 0x7F),
    ?(land_ones_mod _ 10 0x03FF), ?(land_ones_mod _ 12 0x0FFF),
    ?(land_ones_mod _ 17 0x01FFFF) by (lia || reflexivity);
  rewrite ?lxor_bits by (apply Z.mod_pos_bound; lia);
  rewrite ?Z.pow_0_r, ?Z.mul_1_r, ?Z.div_1_r, ?Z.pow_1_r.

(** Machine-width truncations of values that already fit. *)
Ltac drop_wraps :=
  unfold u64, u32;
  repeat match goal with
  | |- context [?x mod 2 ^ 64] => rewrite (Z.mod_small x (2 ^ 64)) by dlia
  | |- context [?x mod 2 ^ 32] => rewrite (Z.mod_small x (2 ^ 32)) by dlia
  end.

Import RankedInstGenerator.

(** The instruction word as a sum of its fields at their offsets. *)
Lemma pack_fields_arith (i : DecodedInst) :
  inst_wf i →
  pack_fields i =
    opcode i * 2 ^ 62 + local_bit i * 2 ^ 61 + output_idx i * 2 ^ 49 +
    trace_end i * 2 ^ 48 + row i * 2 ^ 14 + bankgroup i * 2 ^ 12 + bank i * 2 ^ 10 +
    column i ∧ 0 ≤ pack_fields i < 2 ^ 64.
Proof.
  intros []. unfold pack_fields. bits_to_arith. drop_wraps. lia.
Qed.

Lemma decode_instruction_arith (w : Z) :
  0 ≤ w < 2 ^ 64 →
  decode_instruction w =
    mkInst (w / 2 ^ 62) ((w / 2 ^ 61) mod 2) ((w / 2 ^ 49) mod 2 ^ 12)
      ((w / 2 ^ 48) mod 2) ((w / 2 ^ 14) mod 2 ^ 17) ((w / 2 ^ 12) mod 2 ^ 2)
      ((w / 2 ^ 10) mod 2 ^ 2) (w mod 2 ^ 10).
Proof.
  intros Hw. unfold decode_instruction. bits_to_arith. unfold u32.
  f_equal; dlia.
Qed.

Lemma decode_instruction_wf (w : Z) : 0 ≤ w < 2 ^ 64 → inst_wf (decode_instruction w).
Proof. intros Hw. rewrite decode_instruction_arith by done. split; cbn; dlia. Qed.

Lemma decode_pack (i : DecodedInst) : inst_wf i → decode_instruction (pack_fields i) = i.
Proof.
  intros Hi. destruct (pack_fields_arith i Hi) as [E B].
  rewrite decode_instruction_arith by done. rewrite E.
  destruct i, Hi; cbn in *. f_equal; dlia.
Qed.

Lemma known_opcode_wf (i : DecodedInst) : inst_wf i → known_opcode (opcode i) = true.
Proof.
  intros [H _ _ _ _ _ _ _]. unfold known_opcode.
  assert (opcode i = 0 ∨ opcode i = 1 ∨ opcode i = 2 ∨ opcode i = 3)
    as [-> | [-> | [-> | ->]]] by lia; reflexivity.
Qed.

Lemma fields_fit_wf (i : DecodedInst) : inst_wf i → fields_fit i = true.
Proof. intros []. unfold fields_fit. rewrite !andb_true_iff, !Z.ltb_lt. lia. Qed.

Lemma encode_instruction_ok (dbg : bool) (i : DecodedInst) :
  inst_wf i → encode_instruction dbg i = Ok (pack_fields i).
Proof.
  intros Hi. unfold encode_instruction.
  rewrite fields_fit_wf, known_opcode_wf by done. by destruct dbg.
Qed.

(** ** Address mapping as arithmetic *)

(** Bit [k] of a non-negative number. *)
Definition bit (x k : Z) : Z := (x / 2 ^ k) mod 2.

Definition xor2 (x y : Z) : Z := (x + y) mod 2.

Lemma bit_range (x k : Z) : 0 ≤ bit x k < 2.
Proof. apply Z.mod_pos_bound. lia. Qed.

Lemma fold_col_arith (c : Z) :
  0 ≤ c < 2 ^ 10 →
  fold_left (add_region c) COL 0 = c mod 2 ^ 5 * 2 ^ 3 + c / 2 ^ 5 * 2 ^ 14.
Proof. intros. unfold add_region. bits_to_arith. drop_wraps. dlia. Qed.

Lemma fold_row_arith (r a : Z) :
  0 ≤ r < 2 ^ 17 → 0 ≤ a < 2 ^ 35 →
  fold_left (add_region r) ROW a =
    a + r mod 2 ^ 4 * 2 ^ 8 + (r / 2 ^ 4) mod 2 * 2 ^ 28 +
    (r / 2 ^ 5) mod 2 ^ 7 * 2 ^ 21 + r / 2 ^ 12 * 2 ^ 29.
Proof. intros. unfold add_region. bits_to_arith. drop_wraps. dlia. Qed.

Lemma add_xor_bit_arith (f a o0 o1 s : Z) :
  0 ≤ o0 → 0 ≤ o1 < 35 → 0 ≤ s → 0 ≤ a < 2 ^ 36 →
  add_xor_bit f a (mkBitXorEntry o0 o1 s) = a + xor2 (bit f s) (bit a o0) * 2 ^ o1.
Proof.
  intros H0 H1 Hs Ha. unfold add_xor_bit, xor2, bit. bits_to_arith.
  assert (2 ^ o1 ≤ 2 ^ 34) by (apply Z.pow_le_mono_r; lia).
  pose proof (pow2_pos o1 ltac:(lia)).
  set (b := (_ + _) mod 2). assert (0 ≤ b < 2) by (apply Z.mod_pos_bound; lia).
  clearbody b. assert (0 ≤ b * 2 ^ o1 ≤ 2 ^ o1) by nia.
  unfold u64. rewrite (Z.mod_small (b * _)), Z.mod_small; pow_consts; lia.
Qed.

Lemma xor2_range (x y : Z) : 0 ≤ xor2 x y < 2.
Proof. apply Z.mod_pos_bound. lia. Qed.

Lemma bit_add_high (lo hi k j : Z) :
  0 ≤ k → 0 ≤ j → 0 ≤ lo < 2 ^ k → bit (lo + hi * 2 ^ k) (k + j) = bit hi j.
Proof.
  intros Hk Hj Hlo. pose proof (pow2_pos k Hk). pose proof (pow2_pos j Hj).
  unfold bit. rewrite Z.pow_add_r, <- Z.div_div by lia.
  rewrite Z.div_add, (Z.div_small lo) by lia. done.
Qed.

(** The address bits from 21 up hold row bits 5..11, 4 and 12..16. *)
Definition row_high (r : Z) : Z :=
  (r / 2 ^ 5) mod 2 ^ 7 + (r / 2 ^ 4) mod 2 * 2 ^ 7 + r / 2 ^ 12 * 2 ^ 8.

Lemma row_high_bit (r : Z) :
  0 ≤ r < 2 ^ 17 →
  bit (row_high r) 0 = bit r 5 ∧ bit (row_high r) 1 = bit r 6 ∧
  bit (row_high r) 2 = bit r 7 ∧ bit (row_high r) 3 = bit r 8.
Proof. intros. unfold bit, row_high. repeat split; dlia. Qed.

Lemma add_xor_row (f lo r o1 s j : Z) :
  0 ≤ j → 0 ≤ o1 < 21 → 0 ≤ s → 0 ≤ lo < 2 ^ 21 → 0 ≤ r < 2 ^ 17 →
  add_xor_bit f (lo + row_high r * 2 ^ 21) (mkBitXorEntry (21 + j) o1 s) =
    lo + xor2 (bit f s) (bit (row_high r) j) * 2 ^ o1 + row_high r * 2 ^ 21.
Proof.
  intros Hj Ho Hs Hlo Hr. rewrite add_xor_bit_arith.
  - rewrite bit_add_high by lia. lia.
  - lia.
  - lia.
  - lia.
  - unfold row_high. dlia.
Qed.

(** The rank address of an instruction's fields, as a sum of bit groups. *)
Lemma encode_address_arith (i : DecodedInst) :
  inst_wf i →
  encode_address_from_instruction i =
    column i mod 2 ^ 5 * 2 ^ 3 + row i mod 2 ^ 4 * 2 ^ 8 +
    xor2 (bit (bankgroup i) 0) (bit (row i) 5) * 2 ^ 12 +
    xor2 (bit (bankgroup i) 1) (bit (row i) 6) * 2 ^ 13 +
    column i / 2 ^ 5 * 2 ^ 14 +
    xor2 (bit (bank i) 0) (bit (row i) 7) * 2 ^ 19 +
    xor2 (bit (bank i) 1) (bit (row i) 8) * 2 ^ 20 +
    (row i / 2 ^ 5) mod 2 ^ 7 * 2 ^ 21 + (row i / 2 ^ 4) mod 2 * 2 ^ 28 +
    row i / 2 ^ 12 * 2 ^ 29.
Proof.
  intros []. unfold encode_address_from_instruction.
  rewrite fold_col_arith by done. rewrite fold_row_arith by dlia.
  unfold BG, BANK. cbn [fold_left].
  destruct (row_high_bit (row i)) as (E0 & E1 & E2 & E3); [done|].
  pose proof (xor2_range (bit (bankgroup i) 0) (bit (row_high (row i)) 0)) as X0.
  pose proof (xor2_range (bit (bankgroup i) 1) (bit (row_high (row i)) 1)) as X1.
  pose proof (xor2_range (bit (bank i) 0) (bit (row_high (row i)) 2)) as X2.
  replace (_ + row i / 2 ^ 12 * 2 ^ 29) with
    (column i mod 2 ^ 5 * 2 ^ 3 + column i / 2 ^ 5 * 2 ^ 14 + row i mod 2 ^ 4 * 2 ^ 8
     + row_high (row i) * 2 ^ 21) by (unfold row_high; lia).
  rewrite <- E0, <- E1, <- E2, <- E3.
  rewrite (add_xor_row _ _ _ 12 0 0) by dlia.
  rewrite (add_xor_row _ _ _ 13 1 1) by dlia.
  rewrite (add_xor_row _ _ _ 19 0 2) by dlia.
  rewrite (add_xor_row _ _ _ 20 1 3) by dlia.
  unfold row_high. lia.
Qed.

Definition decoded_bankgroup (a : Z) : Z :=
  xor2 (bit a 21) (bit a 12) + xor2 (bit a 22) (bit a 13) * 2.
Definition decoded_bank (a : Z) : Z :=
  xor2 (bit a 23) (bit a 19) + xor2 (bit a 24) (bit a 20) * 2.
Definition decoded_row (a : Z) : Z :=
  (a / 2 ^ 8) mod 2 ^ 4 + bit a 28 * 2 ^ 4 + (a / 2 ^ 21) mod 2 ^ 7 * 2 ^ 5 +
  (a / 2 ^ 29) mod 2 ^ 5 * 2 ^ 12.
Definition decoded_column (a : Z) : Z :=
  (a / 2 ^ 3) mod 2 ^ 5 + (a / 2 ^ 14) mod 2 ^ 5 * 2 ^ 5.

Lemma fold_get_xor_arith (a o00 o01 o10 o11 : Z) :
  0 ≤ o00 → 0 ≤ o01 → 0 ≤ o10 → 0 ≤ o11 →
  fold_left (get_xor_bit a) [mkBitXorEntry o00 o01 0; mkBitXorEntry o10 o11 1] 0 =
    xor2 (bit a o00) (bit a o01) + xor2 (bit a o10) (bit a o11) * 2.
Proof.
  intros. unfold get_xor_bit, xor2, bit. bits_to_arith.
  pose proof (Z.mod_pos_bound ((a / 2 ^ o00) mod 2 + (a / 2 ^ o01) mod 2) 2).
  pose proof (Z.mod_pos_bound ((a / 2 ^ o10) mod 2 + (a / 2 ^ o11) mod 2) 2).
  unfold u32. rewrite (Z.mod_small (0 + _)), Z.mod_small; pow_consts; lia.
Qed.

Lemma decode_address_arith (a : Z) (i : DecodedInst) :
  a mod 4 = 0 →
  decode_address_to_instruction a i =
    Ok (mkInst (opcode i) (local_bit i) (output_idx i) (trace_end i)
          (decoded_row a) (decoded_bankgroup a) (decoded_bank a) (decoded_column a)).
Proof.
  intros Ha. unfold decode_address_to_instruction, BG, BANK.
  rewrite Ha, !fold_get_xor_arith by lia. cbn [Z.eqb assert rbind].
  repeat f_equal; unfold get_region, decoded_row, decoded_column, bit;
    bits_to_arith; drop_wraps; dlia.
Qed.

Lemma decoded_ranges (a : Z) :
  0 ≤ decoded_row a < 2 ^ 17 ∧ 0 ≤ decoded_bankgroup a < 2 ^ 2 ∧
  0 ≤ decoded_bank a < 2 ^ 2 ∧ 0 ≤ decoded_column a < 2 ^ 10.
Proof.
  unfold decoded_row, decoded_bankgroup, decoded_bank, decoded_column, xor2, bit.
  repeat split; dlia.
Qed.

(** Bits of the decoded row that the bank functions are XOR-ed with. *)
Lemma decoded_row_bits (a : Z) :
  bit (decoded_row a) 5 = bit a 21 ∧ bit (decoded_row a) 6 = bit a 22 ∧
  bit (decoded_row a) 7 = bit a 23 ∧ bit (decoded_row a) 8 = bit a 24.
Proof. unfold decoded_row, bit. repeat split; dlia. Qed.

Lemma xor2_cancel (x y : Z) : 0 ≤ x < 2 → 0 ≤ y < 2 → xor2 (xor2 x y) x = y.
Proof. intros. unfold xor2. dlia. Qed.

Lemma bit_pair (x y : Z) :
  0 ≤ x < 2 → 0 ≤ y < 2 → bit (x + y * 2) 0 = x ∧ bit (x + y * 2) 1 = y.
Proof. intros. unfold bit. rewrite Z.pow_0_r. dlia. Qed.

Lemma decoded_bank_bits (a : Z) :
  bit (decoded_bankgroup a) 0 = xor2 (bit a 21) (bit a 12) ∧
  bit (decoded_bankgroup a) 1 = xor2 (bit a 22) (bit a 13) ∧
  bit (decoded_bank a) 0 = xor2 (bit a 23) (bit a 19) ∧
  bit (decoded_bank a) 1 = xor2 (bit a 24) (bit a 20).
Proof.
  unfold decoded_bankgroup, decoded_bank.
  repeat split; apply bit_pair; apply xor2_range.
Qed.

(** An addressable number is the sum of the bit groups the fields come from. *)
Lemma address_groups (a : Z) :
  addressable a →
  a = (a / 2 ^ 3) mod 2 ^ 5 * 2 ^ 3 + (a / 2 ^ 8) mod 2 ^ 4 * 2 ^ 8 +
      bit a 12 * 2 ^ 12 + bit a 13 * 2 ^ 13 + (a / 2 ^ 14) mod 2 ^ 5 * 2 ^ 14 +
      bit a 19 * 2 ^ 19 + bit a 20 * 2 ^ 20 + (a / 2 ^ 21) mod 2 ^ 7 * 2 ^ 21 +
      bit a 28 * 2 ^ 28 + (a / 2 ^ 29) mod 2 ^ 5 * 2 ^ 29.
Proof. intros [Ha Hm]. unfold bit. dlia. Qed.

Lemma row_column_parts (a : Z) :
  decoded_column a mod 2 ^ 5 = (a / 2 ^ 3) mod 2 ^ 5 ∧
  decoded_column a / 2 ^ 5 = (a / 2 ^ 14) mod 2 ^ 5 ∧
  decoded_row a mod 2 ^ 4 = (a / 2 ^ 8) mod 2 ^ 4 ∧
  (decoded_row a / 2 ^ 5) mod 2 ^ 7 = (a / 2 ^ 21) mod 2 ^ 7 ∧
  (decoded_row a / 2 ^ 4) mod 2 = bit a 28 ∧
  decoded_row a / 2 ^ 12 = (a / 2 ^ 29) mod 2 ^ 5.
Proof. unfold decoded_column, decoded_row, bit. repeat split; dlia. Qed.

Lemma encode_decoded_address (a opc lb out te : Z) :
  addressable a →
  0 ≤ opc < 2 ^ 2 → 0 ≤ lb < 2 ^ 1 → 0 ≤ out < 2 ^ 12 → 0 ≤ te < 2 ^ 1 →
  encode_address_from_instruction
    (mkInst opc lb out te (decoded_row a) (decoded_bankgroup a) (decoded_bank a)
       (decoded_column a)) = a.
Proof.
  intros Ha Ho Hl Hout Ht. destruct (decoded_ranges a) as (R1 & R2 & R3 & R4).
  rewrite encode_address_arith by (split; cbn; lia).
  cbn [column row bankgroup bank].
  destruct (row_column_parts a) as (-> & -> & -> & -> & -> & ->).
  destruct (decoded_row_bits a) as (-> & -> & -> & ->).
  destruct (decoded_bank_bits a) as (-> & -> & -> & ->).
  rewrite !xor2_cancel by apply bit_range.
  symmetry. by apply address_groups.
Qed.

(** The other direction: the fields are recovered from the address they name. *)
Lemma encoded_address_addressable (i : DecodedInst) :
  inst_wf i → addressable (encode_address_from_instruction i).
Proof.
  intros Hi. rewrite encode_address_arith by done. destruct Hi.
  pose proof (xor2_range (bit (bankgroup i) 0) (bit (row i) 5)).
  pose proof (xor2_range (bit (bankgroup i) 1) (bit (row i) 6)).
  pose proof (xor2_range (bit (bank i) 0) (bit (row i) 7)).
  pose proof (xor2_range (bit (bank i) 1) (bit (row i) 8)).
  split; dlia.
Qed.

(** ** The channel address: bank and bank-group bits stored without the XOR *)

Lemma put_bit_arith (f a o0 o1 s : Z) :
  0 ≤ o1 < 32 → 0 ≤ s → 0 ≤ a < 2 ^ 64 →
  ChannelInstGenerator.put_bit f a (mkBitXorEntry o0 o1 s) =
    a - bit a o1 * 2 ^ o1 + bit f s * 2 ^ o1.
Proof.
  intros Ho Hs Ha. unfold ChannelInstGenerator.put_bit, bit. cbn [RAOffset1 XStartBit].
  rewrite land_u64_lnot, !shiftl_mul, Z.mul_1_l by lia.
  rewrite shiftr_div, (land_ones_mod _ 1 1) by (lia || reflexivity). rewrite Z.pow_1_r.
  set (b := (f / 2 ^ s) mod 2). assert (0 ≤ b < 2) by (apply Z.mod_pos_bound; lia).
  assert (2 ^ o1 ≤ 2 ^ 31) by (apply Z.pow_le_mono_r; lia).
  pose proof (pow2_pos o1 ltac:(lia)). unfold u32.
  rewrite (Z.mod_small (b * _)) by (pow_consts; nia). rewrite set_bit_arith by lia. done.
Qed.

(** Rewriting bit [k] of a number that has it as an explicit summand. *)
Lemma bit_of_sum (lo b hi k : Z) :
  0 ≤ k → 0 ≤ lo < 2 ^ k → 0 ≤ b < 2 → bit (lo + b * 2 ^ k + hi * 2 ^ (k + 1)) k = b.
Proof.
  intros Hk Hlo Hb. rewrite Z.pow_add_r by lia.
  replace (lo + _ + _) with (lo + (b + hi * 2) * 2 ^ k) by lia.
  rewrite <- (Z.add_0_r k) at 2. rewrite bit_add_high by lia.
  unfold bit. rewrite Z.pow_0_r, Z.div_1_r, Z.mod_add by lia. apply Z.mod_small. lia.
Qed.

Lemma put_bit_sum (f lo b hi o0 o1 s : Z) :
  0 ≤ o1 < 32 → 0 ≤ s → 0 ≤ lo < 2 ^ o1 → 0 ≤ b < 2 →
  0 ≤ hi → 0 ≤ lo + b * 2 ^ o1 + hi * 2 ^ (o1 + 1) < 2 ^ 64 →
  ChannelInstGenerator.put_bit f (lo + b * 2 ^ o1 + hi * 2 ^ (o1 + 1))
    (mkBitXorEntry o0 o1 s) = lo + bit f s * 2 ^ o1 + hi * 2 ^ (o1 + 1).
Proof. intros. rewrite put_bit_arith, bit_of_sum by lia. lia. Qed.

(** The loops of the channel encoder on an address given by its bit groups:
    bits 12, 13 ([g0], [g1]) and 19, 20 ([k0], [k1]) are overwritten. *)
Definition groups (lo g0 g1 c k0 k1 hi : Z) : Z :=
  lo + g0 * 2 ^ 12 + g1 * 2 ^ 13 + c * 2 ^ 14 + k0 * 2 ^ 19 + k1 * 2 ^ 20 + hi * 2 ^ 21.

Ltac groups_lia :=
  unfold groups; change (19 + 1) with 20; change (20 + 1) with 21;
  change (12 + 1) with 13; change (13 + 1) with 14; pow_consts; lia.

Lemma put_bank_groups (f lo g0 g1 c k0 k1 hi : Z) :
  0 ≤ lo < 2 ^ 12 → 0 ≤ g0 < 2 → 0 ≤ g1 < 2 → 0 ≤ c < 2 ^ 5 →
  0 ≤ k0 < 2 → 0 ≤ k1 < 2 → 0 ≤ hi < 2 ^ 13 →
  fold_left (ChannelInstGenerator.put_bit f) BANK (groups lo g0 g1 c k0 k1 hi) =
    groups lo g0 g1 c (bit f 0) (bit f 1) hi.
Proof.
  intros. pose proof (bit_range f 0). pose proof (bit_range f 1).
  unfold BANK. cbn [fold_left].
  replace (groups lo g0 g1 c k0 k1 hi) with
    (lo + g0 * 2 ^ 12 + g1 * 2 ^ 13 + c * 2 ^ 14 + k0 * 2 ^ 19
     + (k1 + hi * 2) * 2 ^ (19 + 1)) by groups_lia.
  rewrite put_bit_sum by groups_lia.
  replace (_ + (k1 + hi * 2) * 2 ^ (19 + 1)) with
    (lo + g0 * 2 ^ 12 + g1 * 2 ^ 13 + c * 2 ^ 14 + bit f 0 * 2 ^ 19 + k1 * 2 ^ 20
     + hi * 2 ^ (20 + 1)) by groups_lia.
  rewrite put_bit_sum by groups_lia. groups_lia.
Qed.

Lemma put_bg_groups (f lo g0 g1 c k0 k1 hi : Z) :
  0 ≤ lo < 2 ^ 12 → 0 ≤ g0 < 2 → 0 ≤ g1 < 2 → 0 ≤ c < 2 ^ 5 →
  0 ≤ k0 < 2 → 0 ≤ k1 < 2 → 0 ≤ hi < 2 ^ 13 →
  fold_left (ChannelInstGenerator.put_bit f) BG (groups lo g0 g1 c k0 k1 hi) =
    groups lo (bit f 0) (bit f 1) c k0 k1 hi.
Proof.
  intros. pose proof (bit_range f 0). pose proof (bit_range f 1).
  unfold BG. cbn [fold_left]. set (top := c + k0 * 2 ^ 5 + k1 * 2 ^ 6 + hi * 2 ^ 7).
  assert (0 ≤ top < 2 ^ 20) by (subst top; pow_consts; lia).
  replace (groups lo g0 g1 c k0 k1 hi) with
    (lo + g0 * 2 ^ 12 + (g1 + top * 2) * 2 ^ (12 + 1)) by (subst top; groups_lia).
  rewrite put_bit_sum by groups_lia.
  replace (_ + (g1 + top * 2) * 2 ^ (12 + 1)) with
    (lo + bit f 0 * 2 ^ 12 + g1 * 2 ^ 13 + top * 2 ^ (13 + 1)) by groups_lia.
  rewrite put_bit_sum by groups_lia. subst top. groups_lia.
Qed.

Lemma channel_encode_address_arith (i : DecodedInst) :
  inst_wf i →
  ChannelInstGenerator.encode_address_from_instruction i =
    groups (column i mod 2 ^ 5 * 2 ^ 3 + row i mod 2 ^ 4 * 2 ^ 8)
      (bit (bankgroup i) 0) (bit (bankgroup i) 1) (column i / 2 ^ 5)
      (bit (bank i) 0) (bit (bank i) 1) (row_high (row i)).
Proof.
  intros Hi. unfold ChannelInstGenerator.encode_address_from_instruction.
  rewrite encode_address_arith by done. destruct Hi.
  assert (0 ≤ column i mod 2 ^ 5 * 2 ^ 3 + row i mod 2 ^ 4 * 2 ^ 8 < 2 ^ 12) by dlia.
  assert (0 ≤ column i / 2 ^ 5 < 2 ^ 5) by dlia.
  assert (0 ≤ row_high (row i) < 2 ^ 13) by (unfold row_high; dlia).
  replace (_ + row i / 2 ^ 12 * 2 ^ 29) with
    (groups (column i mod 2 ^ 5 * 2 ^ 3 + row i mod 2 ^ 4 * 2 ^ 8)
      (xor2 (bit (bankgroup i) 0) (bit (row i) 5))
      (xor2 (bit (bankgroup i) 1) (bit (row i) 6)) (column i / 2 ^ 5)
      (xor2 (bit (bank i) 0) (bit (row i) 7)) (xor2 (bit (bank i) 1) (bit (row i) 8))
      (row_high (row i))) by (unfold groups, row_high; lia).
  rewrite put_bank_groups by (done || apply xor2_range).
  rewrite put_bg_groups by (done || apply xor2_range || apply bit_range). done.
Qed.

Lemma fold_get_bit_arith (a o00 o01 o10 o11 : Z) :
  0 ≤ o01 → 0 ≤ o11 →
  fold_left (ChannelInstGenerator.get_bit a)
    [mkBitXorEntry o00 o01 0; mkBitXorEntry o10 o11 1] 0 = bit a o01 + bit a o11 * 2.
Proof.
  intros. unfold ChannelInstGenerator.get_bit, bit. bits_to_arith.
  pose proof (bit_range a o01). pose proof (bit_range a o11). unfold bit in *.
  unfold u32. rewrite Z.lor_0_l, !(Z.mod_small _ (2 ^ 32)) by (pow_consts; lia).
  rewrite <- (lor_low_high _ _ 1) by (pow_consts; lia). done.
Qed.

Lemma channel_decode_address_arith (a : Z) (i : DecodedInst) :
  a mod 4 = 0 →
  ChannelInstGenerator.decode_address_to_instruction a i =
    Ok (mkInst (opcode i) (local_bit i) (output_idx i) (trace_end i) (decoded_row a)
          (bit a 12 + bit a 13 * 2) (bit a 19 + bit a 20 * 2) (decoded_column a)).
Proof.
  intros Ha. unfold ChannelInstGenerator.decode_address_to_instruction.
  rewrite decode_address_arith by done. unfold BG, BANK.
  rewrite !fold_get_bit_arith by lia. done.
Qed.

Lemma channel_encode_decoded (a opc lb out te : Z) :
  addressable a →
  0 ≤ opc < 2 ^ 2 → 0 ≤ lb < 2 ^ 1 → 0 ≤ out < 2 ^ 12 → 0 ≤ te < 2 ^ 1 →
  ChannelInstGenerator.encode_address_from_instruction
    (mkInst opc lb out te (decoded_row a) (bit a 12 + bit a 13 * 2)
       (bit a 19 + bit a 20 * 2) (decoded_column a)) = a.
Proof.
  intros Ha Ho Hl Hout Ht. destruct (decoded_ranges a) as (R1 & _ & _ & R4).
  pose proof (bit_range a 12). pose proof (bit_range a 13).
  pose proof (bit_range a 19). pose proof (bit_range a 20).
  rewrite channel_encode_address_arith by (split; cbn; pow_consts; lia).
  cbn [column row bankgroup bank].
  destruct (bit_pair (bit a 12) (bit a 13)) as [-> ->]; [lia|lia|].
  destruct (bit_pair (bit a 19) (bit a 20)) as [-> ->]; [lia|lia|].
  unfold row_high. destruct (row_column_parts a) as (-> & -> & -> & -> & -> & ->).
  rewrite (address_groups a Ha) at 11. unfold groups. lia.
Qed.

(** Fields from the address they encode to. *)
Lemma xor2_cancel' (x y : Z) : 0 ≤ x < 2 → 0 ≤ y < 2 → xor2 y (xor2 x y) = x.
Proof. intros. unfold xor2. dlia. Qed.

Lemma bits_of_two (x : Z) : 0 ≤ x < 2 ^ 2 → bit x 0 + bit x 1 * 2 = x.
Proof. intros. unfold bit. rewrite Z.pow_0_r. dlia. Qed.

Lemma groups_bits (lo g0 g1 c k0 k1 hi : Z) :
  0 ≤ lo < 2 ^ 12 → 0 ≤ g0 < 2 → 0 ≤ g1 < 2 → 0 ≤ c < 2 ^ 5 →
  0 ≤ k0 < 2 → 0 ≤ k1 < 2 → 0 ≤ hi < 2 ^ 13 →
  let a := groups lo g0 g1 c k0 k1 hi in
  bit a 12 = g0 ∧ bit a 13 = g1 ∧ bit a 19 = k0 ∧ bit a 20 = k1 ∧
  (a / 2 ^ 14) mod 2 ^ 5 = c ∧ a / 2 ^ 21 = hi ∧ a mod 2 ^ 12 = lo.
Proof. intros. subst a. unfold groups, bit. split_and!; dlia. Qed.

Lemma encode_address_groups (i : DecodedInst) :
  inst_wf i →
  encode_address_from_instruction i =
    groups (column i mod 2 ^ 5 * 2 ^ 3 + row i mod 2 ^ 4 * 2 ^ 8)
      (xor2 (bit (bankgroup i) 0) (bit (row i) 5))
      (xor2 (bit (bankgroup i) 1) (bit (row i) 6)) (column i / 2 ^ 5)
      (xor2 (bit (bank i) 0) (bit (row i) 7)) (xor2 (bit (bank i) 1) (bit (row i) 8))
      (row_high (row i)).
Proof. intros Hi. rewrite encode_address_arith by done. unfold groups, row_high. lia. Qed.

Lemma decoded_fields (i : DecodedInst) :
  inst_wf i →
  let a := encode_address_from_instruction i in
  mkInst (opcode i) (local_bit i) (output_idx i) (trace_end i)
    (decoded_row a) (decoded_bankgroup a) (decoded_bank a) (decoded_column a) = i.
Proof.
  intros Hi a. assert (Ea : a = encode_address_from_instruction i) by done.
  rewrite encode_address_groups in Ea by done. clearbody a. destruct Hi.
  destruct (groups_bits (column i mod 2 ^ 5 * 2 ^ 3 + row i mod 2 ^ 4 * 2 ^ 8)
      (xor2 (bit (bankgroup i) 0) (bit (row i) 5))
      (xor2 (bit (bankgroup i) 1) (bit (row i) 6)) (column i / 2 ^ 5)
      (xor2 (bit (bank i) 0) (bit (row i) 7)) (xor2 (bit (bank i) 1) (bit (row i) 8))
      (row_high (row i))) as (B12 & B13 & B19 & B20 & C & H & L);
    try apply xor2_range; [dlia | dlia | unfold row_high; dlia |].
  rewrite <- Ea in *. clear Ea.
  assert (Er : decoded_row a = row i).
  { unfold decoded_row, row_high, bit in *. clear B12 B13 B19 B20. dlia. }
  destruct (decoded_row_bits a) as (Q5 & Q6 & Q7 & Q8). rewrite Er in Q5, Q6, Q7, Q8.
  destruct i as [? ? ? ? r g k c]; cbn in *. f_equal.
  - exact Er.
  - unfold decoded_bankgroup. rewrite <- Q5, <- Q6, B12, B13.
    rewrite !xor2_cancel' by apply bit_range. by apply bits_of_two.
  - unfold decoded_bank. rewrite <- Q7, <- Q8, B19, B20.
    rewrite !xor2_cancel' by apply bit_range. by apply bits_of_two.
  - unfold decoded_column. rewrite C. clear - L wf_column0. dlia.
Qed.

(** ** Theorems *)

(** Fields of an instruction that do not come from the address. *)
Definition same_op (i j : DecodedInst) : Prop :=
  opcode i = opcode j ∧ local_bit i = local_bit j ∧
  output_idx i = output_idx j ∧ trace_end i = trace_end j.

(** Property C16.  [decode_instruction] inverts [encode_instruction]: an
    instruction whose fields fit their widths is encoded without tripping an
    assertion (in the debug build too), into a 64-bit word that decodes to the
    same fields. *)
Theorem instruction_roundtrip (dbg : bool) (i : DecodedInst) :
  inst_wf i →
  ∃ w, encode_instruction dbg i = Ok w ∧ 0 ≤ w < 2 ^ 64 ∧ decode_instruction w = i.
Proof.
  intros Hi. exists (pack_fields i).
  split; [by apply encode_instruction_ok|]. split; [by apply pack_fields_arith|].
  by apply decode_pack.
Qed.

Lemma instruction_roundtrip_witness :
  ∃ w, encode_instruction true (mkInst 2 0 17 1 70000 3 1 1023) = Ok w ∧
       0 ≤ w < 2 ^ 64 ∧ decode_instruction w = mkInst 2 0 17 1 70000 3 1 1023.
Proof.
  apply (instruction_roundtrip true (mkInst 2 0 17 1 70000 3 1 1023)).
  split; cbn; lia.
Defined.

(**  The rank-address mapping is a bijection between the 8-byte
    aligned 34-bit addresses and the row/bank/bank-group/column fields: decoding
    an address into an instruction and encoding it back gives the address
    (the XOR of the bank bits with row bits cancels), leaves the other fields
    alone and keeps every field within its width; and decoding the address an
    instruction names gives the instruction back. *)
Theorem ranked_address_roundtrip (a : Z) (i : DecodedInst) :
  addressable a → inst_wf i →
  (∃ i', decode_address_to_instruction a i = Ok i' ∧ inst_wf i' ∧ same_op i i' ∧
         encode_address_from_instruction i' = a) ∧
  decode_address_to_instruction (encode_address_from_instruction i) i = Ok i.
Proof.
  intros Ha Hi. destruct (decoded_ranges a) as (R1 & R2 & R3 & R4). split.
  - eexists. rewrite decode_address_arith by (destruct Ha; dlia).
    split; [done|]. destruct Hi.
    split; [split; done|]. split; [split_and!; done|]. by apply encode_decoded_address.
  - pose proof (encoded_address_addressable i Hi) as Hadr.
    rewrite decode_address_arith by (destruct Hadr; dlia).
    by rewrite (decoded_fields i Hi).
Qed.

(**  The channel generator's address mapping loses nothing either:
    every 8-byte aligned 34-bit channel address survives the round trip through
    an instruction. *)
Theorem channel_address_roundtrip (a : Z) (i : DecodedInst) :
  addressable a → inst_wf i →
  ∃ i', ChannelInstGenerator.decode_address_to_instruction a i = Ok i' ∧
        inst_wf i' ∧ same_op i i' ∧
        ChannelInstGenerator.encode_address_from_instruction i' = a.
Proof.
  intros Ha Hi. destruct (decoded_ranges a) as (R1 & _ & _ & R4).
  pose proof (bit_range a 12). pose proof (bit_range a 13).
  pose proof (bit_range a 19). pose proof (bit_range a 20).
  eexists. rewrite channel_decode_address_arith by (destruct Ha; dlia).
  split; [done|]. destruct Hi.
  split; [split; cbn; pow_consts; lia|]. split; [split_and!; done|].
  by apply channel_encode_decoded.
Qed.

(**  [decode_address_to_instruction] asserts only 4-byte alignment,
    but the instruction has no bit for address bit 2: an address that is 4
    modulo 8 passes the assertion and the instruction names the word 4 bytes
    below it. *)
Theorem half_word_address_is_rounded_down (a : Z) (i : DecodedInst) :
  addressable a → inst_wf i →
  ∃ i', decode_address_to_instruction (a + 4) i = Ok i' ∧
        encode_address_from_instruction i' = a.
Proof.
  intros Ha Hi.
  assert (E : decode_address_to_instruction (a + 4) i = decode_address_to_instruction a i).
  { rewrite !decode_address_arith by (destruct Ha; dlia). destruct Ha as [Hr Hm].
    assert (Hd : ∀ k, 3 ≤ k → (a + 4) / 2 ^ k = a / 2 ^ k).
    { intros k Hk. replace k with (3 + (k - 3)) by lia.
      rewrite Z.pow_add_r, <- !Z.div_div by (try apply pow2_pos; lia). f_equal. dlia. }
    unfold decoded_row, decoded_bankgroup, decoded_bank, decoded_column, bit.
    rewrite !Hd by lia. done. }
  rewrite E. eexists. rewrite decode_address_arith by (destruct Ha; dlia).
  split; [done|]. destruct Hi. by apply encode_decoded_address.
Qed.

Lemma half_word_address_witness :
  ∃ i', decode_address_to_instruction (0x1000 + 4) (mkInst 2 0 0 0 0 0 0 0) = Ok i' ∧
        encode_address_from_instruction i' = 0x1000.
Proof.
  apply (half_word_address_is_rounded_down 0x1000 (mkInst 2 0 0 0 0 0 0 0)).
  - split; [lia | reflexivity].
  - split; cbn; lia.
Defined.
