(* ===== verification/RankAddress.v ===== *)
(** * Interleaved rank addresses

    core/device/sls/utils/rank_address.{h,cpp}: the CXL transformation of a rank
    address into a system offset, the pointer class that applies it on every
    move, and the two block-wise [memcpy_interleaved] overloads.

    Host memory is a total map from 64-bit addresses to bytes; pointers are
    addresses and pointer arithmetic wraps at [2 ^ 64].  The cache flush after a
    block ([pnm::memory::flush], [mfence]) does not change the bytes and has no
    counterpart. *)
From S2P Require Import Prelude Topology.

(** ** Host memory *)
Definition memory : Type := Z → Z.

Definition upd (m : memory) (a v : Z) : memory :=
  fun x => if x =? a then v else m x.

(** [std::copy_n(src, n, dst)] on bytes, in its forward order. *)
Fixpoint copy_n (m : memory) (src : Z) (n : nat) (dst : Z) : memory :=
  match n with
  | O => m
  | S n' => copy_n (upd m dst (m src)) (u64 (src + 1)) n' (u64 (dst + 1))
  end.

Definition cunit_to_ha (cunit : Z) : Z := Z.land (u8 cunit) 1.

Definition LOW_BIT_MASK : Z := Z.shiftl 1 HA_BIT_POS - 1.

Definition interleaved_address (rank_address HA : Z) : Z :=
  let r16 := Z.land (Z.shiftr rank_address HA_XOR_BIT) HA_MASK in
  let HA := u8 (Z.lxor r16 HA) in
  let low_bits := Z.land rank_address LOW_BIT_MASK in
  let hi_bits := Z.land rank_address (u64 (Z.lnot LOW_BIT_MASK)) in
  Z.lor (Z.lor (u64 (Z.shiftl hi_bits 1)) (u64 (Z.shiftl HA HA_BIT_POS))) low_bits.

Module InterleavedPointer.

Record t := mk {
  base_ : Z;
  HA_ : Z;
  ranked_addr_ : Z;
  interleaved_ : Z
}.

(** The defaulted constructor: every member keeps its initializer. *)
Definition empty : t := mk 0 0 0 0.

Definition update (p : t) : t :=
  mk (base_ p) (HA_ p) (ranked_addr_ p)
     (u64 (base_ p + interleaved_address (ranked_addr_ p) (HA_ p))).

Definition make (base HA : Z) : t := update (mk base HA 0 0).

Definition get (p : t) : Z := interleaved_ p.

Definition set_ranked_addr (p : t) (ra : Z) : t := mk (base_ p) (HA_ p) ra (interleaved_ p).

(** [operator+=], [operator-=] *)
Definition add_assign (p : t) (offset : Z) : t :=
  update (set_ranked_addr p (u64 (ranked_addr_ p + offset))).
Definition sub_assign (p : t) (offset : Z) : t :=
  update (set_ranked_addr p (u64 (ranked_addr_ p - offset))).

(** [++p], [--p] *)
Definition pre_incr (p : t) : t := add_assign p 1.
Definition pre_decr (p : t) : t := sub_assign p 1.

(** [p++], [p--]: the value of the expression and the new pointer. *)
Definition post_incr (p : t) : t * t := (p, pre_incr p).
Definition post_decr (p : t) : t * t := (p, pre_decr p).

(** [operator==], [operator!=] *)
Definition eq (p q : t) : bool :=
  (base_ p =? base_ q) && (interleaved_ p =? interleaved_ q).
Definition ne (p q : t) : bool := negb (eq p q).

Definition ranked_address (p : t) : Z := ranked_addr_ p.

(** The free [operator+] and [operator-]. *)
Definition plus (p : t) (offset : Z) : t := add_assign p offset.
Definition minus (p : t) (offset : Z) : t := sub_assign p offset.

End InterleavedPointer.

Definition make_interleaved_pointer (cunit phys_offset virtual_addr : Z)
  : InterleavedPointer.t :=
  let HA := cunit_to_ha cunit in
  let base := u64 (virtual_addr - interleaved_address phys_offset HA) in
  InterleavedPointer.plus (InterleavedPointer.make base HA) phys_offset.

(** ** The block-wise copies

    [memcpy_block] and [memcpy_interleaved] are overloaded on the direction; [to]
    is the copy into interleaved memory and [from] the copy out of it.  A copy
    threads the memory, the two moving pointers and the [copied] counter. *)
Module CopyTo.

Record state := mkState {
  mem : memory;
  source : Z;
  dst : InterleavedPointer.t;
  copied : Z
}.

(** [copied += memcpy_block(source, block_size, dst)] *)
Definition memcpy_block (s : state) (block_size : Z) : state :=
  mkState (copy_n (mem s) (source s) (Z.to_nat block_size) (InterleavedPointer.get (dst s)))
          (u64 (source s + block_size))
          (InterleavedPointer.add_assign (dst s) block_size)
          (u64 (copied s + block_size)).

(** The unaligned prefix: the [if] before the loop. *)
Definition prefix (t : Constants) (bytes : Z) (s : state) : state :=
  let off := InterleavedPointer.ranked_address (dst s) mod RankInterleavingSize t in
  if negb (off =? 0)
  then memcpy_block s (Z.min bytes (RankInterleavingSize t - off))
  else s.

(** The [while] loop; [None] when the fuel runs out. *)
Fixpoint blocks (fuel : nat) (t : Constants) (bytes : Z) (s : state) : option state :=
  match fuel with
  | O => None
  | S fuel' =>
      if copied s <? bytes
      then blocks fuel' t bytes
             (memcpy_block s (Z.min (RankInterleavingSize t) (bytes - copied s)))
      else Some s
  end.

Definition memcpy_interleaved (fuel : nat) (t : Constants) (m : memory)
    (src bytes : Z) (dst : InterleavedPointer.t) : option (Z * memory) :=
  match blocks fuel t bytes (prefix t bytes (mkState m src dst 0)) with
  | Some s => Some (copied s, mem s)
  | None => None
  end.

End CopyTo.

Module CopyFrom.

Record state := mkState {
  mem : memory;
  src : InterleavedPointer.t;
  destination : Z;
  copied : Z
}.

Definition memcpy_block (s : state) (block_size : Z) : state :=
  mkState (copy_n (mem s) (InterleavedPointer.get (src s)) (Z.to_nat block_size)
             (destination s))
          (InterleavedPointer.add_assign (src s) block_size)
          (u64 (destination s + block_size))
          (u64 (copied s + block_size)).

Definition prefix (t : Constants) (bytes : Z) (s : state) : state :=
  let off := InterleavedPointer.ranked_address (src s) mod RankInterleavingSize t in
  if negb (off =? 0)
  then memcpy_block s (Z.min bytes (RankInterleavingSize t - off))
  else s.

Fixpoint blocks (fuel : nat) (t : Constants) (bytes : Z) (s : state) : option state :=
  match fuel with
  | O => None
  | S fuel' =>
      if copied s <? bytes
      then blocks fuel' t bytes
             (memcpy_block s (Z.min (RankInterleavingSize t) (bytes - copied s)))
      else Some s
  end.

Definition memcpy_interleaved (fuel : nat) (t : Constants) (m : memory)
    (src : InterleavedPointer.t) (bytes dst : Z) : option (Z * memory) :=
  match blocks fuel t bytes (prefix t bytes (mkState m src dst 0)) with
  | Some s => Some (copied s, mem s)
  | None => None
  end.

End CopyFrom.

(** ** Reference definitions *)

(** The system offset of a rank address, in arithmetic: the home agent's bit is
    inserted above the 256-byte block offset. *)
Definition system_offset (ra ha : Z) : Z :=
  ((ra / 2 ^ 8) * 2 + (ra / 2 ^ 19 + ha) mod 2) * 2 ^ 8 + ra mod 2 ^ 8.

(** A bytewise copy that computes both addresses anew for every byte. *)
Fixpoint copy_bytewise (m : memory) (from to : Z → Z) (i : Z) (n : nat) : memory :=
  match n with
  | O => m
  | S n' => copy_bytewise (upd m (to i) (m (from i))) from to (i + 1) n'
  end.

(** The host address of rank byte [ra] behind [p]. *)
Definition host_address (p : InterleavedPointer.t) (ra : Z) : Z :=
  u64 (InterleavedPointer.base_ p +
       interleaved_address (u64 ra) (InterleavedPointer.HA_ p)).

Record pointer_wf (p : InterleavedPointer.t) : Prop := {
  pw_ha : 0 ≤ InterleavedPointer.HA_ p < 2;
  pw_ranked : 0 ≤ InterleavedPointer.ranked_addr_ p < 2 ^ 64;
  pw_sync : InterleavedPointer.interleaved_ p =
            host_address p (InterleavedPointer.ranked_addr_ p)
}.

(** ** Lemmas *)

Lemma high_bits (x : Z) :
  0 ≤ x < 2 ^ 64 → Z.land x (u64 (Z.lnot LOW_BIT_MASK)) = (x / 2 ^ 8) * 2 ^ 8.
Proof.
  intros Hx. rewrite land_u64_lnot by done.
  change LOW_BIT_MASK with (2 ^ 8 - 1). by rewrite Z.ldiff_land, land_lnot_ones.
Qed.

Lemma interleaved_address_arith (ra ha : Z) :
  0 ≤ ra < 2 ^ 64 → 0 ≤ ha < 2 →
  interleaved_address ra ha = u64 (system_offset ra ha).
Proof.
  intros Hra Hha. unfold interleaved_address.
  rewrite high_bits by done.
  rewrite (land_ones_mod _ 8 LOW_BIT_MASK) by done.
  rewrite (land_ones_mod _ 1 HA_MASK) by done.
  rewrite shiftr_div by done. change HA_XOR_BIT with 19.
  rewrite lxor_bits by dlia.
  assert (Hr : 0 ≤ ((ra / 2 ^ 19) mod 2 ^ 1 + ha) mod 2 < 2) by dlia.
  assert (Hb : ((ra / 2 ^ 19) mod 2 ^ 1 + ha) mod 2 = (ra / 2 ^ 19 + ha) mod 2) by dlia.
  rewrite Hb in *. clear Hb. set (h := (ra / 2 ^ 19 + ha) mod 2) in *.
  rewrite !shiftl_mul by done. change HA_BIT_POS with 8.
  replace (u8 h) with h by (unfold u8; dlia).
  replace (u64 (h * 2 ^ 8)) with (h * 2 ^ 8) by (unfold u64; dlia).
  unfold system_offset. fold h.
  assert (E : u64 (ra / 2 ^ 8 * 2 ^ 8 * 2 ^ 1) = (ra / 2 ^ 8) mod 2 ^ 55 * 2 ^ 9)
    by (unfold u64; dlia).
  rewrite E, lor_high_low by dlia.
  replace ((ra / 2 ^ 8) mod 2 ^ 55 * 2 ^ 9 + h * 2 ^ 8)
    with (((ra / 2 ^ 8) mod 2 ^ 55 * 2 + h) * 2 ^ 8) by dlia.
  rewrite lor_high_low by dlia. unfold u64. dlia.
Qed.

(** Inside a 256-byte block the system offset moves with the rank address. *)
Lemma system_offset_block (ra ha j : Z) :
  0 ≤ j → ra mod 2 ^ 8 + j < 2 ^ 8 → system_offset (ra + j) ha = system_offset ra ha + j.
Proof.
  intros Hj Hb. unfold system_offset.
  assert (E1 : (ra + j) / 2 ^ 8 = ra / 2 ^ 8) by dlia.
  assert (E2 : (ra + j) mod 2 ^ 8 = ra mod 2 ^ 8 + j) by dlia.
  assert (E3 : (ra + j) / 2 ^ 19 = ra / 2 ^ 19) by dlia.
  rewrite E1, E2, E3. lia.
Qed.

Lemma host_address_arith (p : InterleavedPointer.t) (ra : Z) :
  0 ≤ InterleavedPointer.HA_ p < 2 →
  host_address p ra =
  u64 (InterleavedPointer.base_ p + system_offset (u64 ra) (InterleavedPointer.HA_ p)).
Proof.
  intros Hh. unfold host_address.
  rewrite interleaved_address_arith by (done || apply u64_range).
  by autorewrite with u64.
Qed.

Lemma host_address_succ (p : InterleavedPointer.t) (ra : Z) :
  0 ≤ InterleavedPointer.HA_ p < 2 → (ra mod 2 ^ 8) + 1 < 2 ^ 8 →
  host_address p (ra + 1) = u64 (host_address p ra + 1).
Proof.
  intros Hh Hb. rewrite !host_address_arith by done.
  assert (E : u64 (ra + 1) = u64 ra + 1) by (unfold u64; dlia).
  rewrite E, system_offset_block by (unfold u64; dlia).
  autorewrite with u64. f_equal. lia.
Qed.

Lemma cunit_to_ha_range (cunit : Z) : 0 ≤ cunit_to_ha cunit < 2.
Proof. unfold cunit_to_ha. rewrite (land_ones_mod _ 1) by done. apply Z.mod_pos_bound; lia. Qed.

Section pointer.
Context (p : InterleavedPointer.t) (Hp : pointer_wf p).

Lemma add_assign_ranked (k : Z) :
  InterleavedPointer.ranked_addr_ (InterleavedPointer.add_assign p k) =
  u64 (InterleavedPointer.ranked_addr_ p + k).
Proof. reflexivity. Qed.

Lemma add_assign_get (k : Z) :
  InterleavedPointer.get (InterleavedPointer.add_assign p k) =
  host_address p (InterleavedPointer.ranked_addr_ p + k).
Proof. reflexivity. Qed.

Lemma add_assign_add (j k : Z) :
  InterleavedPointer.add_assign (InterleavedPointer.add_assign p j) k =
  InterleavedPointer.add_assign p (j + k).
Proof.
  unfold InterleavedPointer.add_assign, InterleavedPointer.update,
    InterleavedPointer.set_ranked_addr; cbn.
  autorewrite with u64. by rewrite !Z.add_assoc.
Qed.

Lemma add_assign_0 : InterleavedPointer.add_assign p 0 = p.
Proof.
  destruct p as [b h r i], Hp as [Hh Hr Hs]; cbn in *.
  unfold InterleavedPointer.add_assign, InterleavedPointer.update; cbn.
  rewrite Z.add_0_r, u64_small by done.
  rewrite Hs. unfold host_address; cbn. by rewrite (u64_small r).
Qed.

Lemma add_assign_wf (k : Z) : pointer_wf (InterleavedPointer.add_assign p k).
Proof.
  destruct Hp. split; cbn; [done | apply u64_range |].
  unfold host_address; cbn. by rewrite u64_idem.
Qed.
End pointer.

(** ** The block-wise copy is the bytewise copy *)

Lemma copy_n_bytewise (n : nat) : ∀ (m : memory) (from to : Z → Z) (i : Z),
  (∀ j, i ≤ j → j + 1 < i + Z.of_nat n → from (j + 1) = u64 (from j + 1)) →
  (∀ j, i ≤ j → j + 1 < i + Z.of_nat n → to (j + 1) = u64 (to j + 1)) →
  copy_n m (from i) n (to i) = copy_bytewise m from to i n.
Proof.
  induction n as [|n IH]; intros m from to i Hf Ht; [done|]. cbn [copy_n copy_bytewise].
  destruct n as [|n]; [done|].
  rewrite <- (Hf i), <- (Ht i) by lia.
  apply IH; intros; [apply Hf | apply Ht]; lia.
Qed.

Lemma copy_bytewise_app (n1 n2 : nat) : ∀ (m : memory) (from to : Z → Z) (i : Z),
  copy_bytewise m from to i (n1 + n2) =
  copy_bytewise (copy_bytewise m from to i n1) from to (i + Z.of_nat n1) n2.
Proof.
  induction n1 as [|n1 IH]; intros m from to i; cbn [copy_bytewise Nat.add].
  - by rewrite Z.add_0_r.
  - rewrite IH. f_equal. lia.
Qed.

Lemma copy_bytewise_add (m : memory) (from to : Z → Z) (c k : Z) :
  0 ≤ c → 0 ≤ k →
  copy_bytewise m from to 0 (Z.to_nat (c + k)) =
  copy_bytewise (copy_bytewise m from to 0 (Z.to_nat c)) from to c (Z.to_nat k).
Proof.
  intros. rewrite Z2Nat.inj_add by lia. rewrite copy_bytewise_app.
  by rewrite Z.add_0_l, Z2Nat.id by lia.
Qed.

(** One block of at most 256 bytes that does not cross a block boundary. *)
Lemma copy_block (m : memory) (from : Z → Z) (p : InterleavedPointer.t) (ra c k : Z) (to_p : bool) :
  pointer_wf p → 0 ≤ c → 0 ≤ k →
  (ra + c) mod 2 ^ 8 + k ≤ 2 ^ 8 →
  (∀ j, from (j + 1) = u64 (from j + 1)) →
  let f := if to_p then from else fun i => host_address p (ra + i) in
  let t := if to_p then fun i => host_address p (ra + i) else from in
  copy_n m (f c) (Z.to_nat k) (t c) = copy_bytewise m f t c (Z.to_nat k).
Proof.
  intros Hp Hc Hk Hb Hf f t.
  assert (Hh : ∀ j, c ≤ j → j + 1 < c + Z.of_nat (Z.to_nat k) →
    host_address p (ra + (j + 1)) = u64 (host_address p (ra + j) + 1)).
  { intros j H1 H2. rewrite Z.add_assoc. apply host_address_succ; [apply Hp|].
    rewrite Z2Nat.id in H2 by done. dlia. }
  apply copy_n_bytewise; subst f t; destruct to_p; cbn; auto.
Qed.

Section copy_to.
Context (t : Constants) (Ht : RankInterleavingSize t = 2 ^ HA_BIT_POS).
Context (m : memory) (src : Z) (p : InterleavedPointer.t).
Context (Hsrc : 0 ≤ src < 2 ^ 64) (Hp : pointer_wf p).

Let from (i : Z) : Z := u64 (src + i).
Let to (i : Z) : Z := host_address p (InterleavedPointer.ranked_addr_ p + i).

Lemma linear_succ (j : Z) : u64 (src + (j + 1)) = u64 (u64 (src + j) + 1).
Proof. autorewrite with u64. f_equal. lia. Qed.

(** The state of the copy after [c] bytes. *)
Definition to_state (c : Z) : CopyTo.state :=
  CopyTo.mkState (copy_bytewise m from to 0 (Z.to_nat c)) (u64 (src + c))
    (InterleavedPointer.add_assign p c) c.

Lemma to_block (c k : Z) :
  0 ≤ c → 0 ≤ k → c + k < 2 ^ 64 →
  (InterleavedPointer.ranked_addr_ p + c) mod 2 ^ 8 + k ≤ 2 ^ 8 →
  CopyTo.memcpy_block (to_state c) k = to_state (c + k).
Proof.
  intros Hc Hk Hck Hb. unfold CopyTo.memcpy_block, to_state.
  cbn [CopyTo.mem CopyTo.source CopyTo.dst CopyTo.copied].
  rewrite add_assign_get, add_assign_add.
  rewrite copy_bytewise_add by done. f_equal.
  - exact (copy_block _ from p _ c k true Hp Hc Hk Hb linear_succ).
  - autorewrite with u64. f_equal. lia.
  - apply u64_small. lia.
Qed.

Lemma to_blocks_S (fuel : nat) (bytes c : Z) :
  CopyTo.blocks (S fuel) t bytes (to_state c) =
  if c <? bytes
  then CopyTo.blocks fuel t bytes
         (CopyTo.memcpy_block (to_state c) (Z.min (RankInterleavingSize t) (bytes - c)))
  else Some (to_state c).
Proof. reflexivity. Qed.

Lemma to_blocks (bytes : Z) (fuel : nat) : ∀ c,
  0 ≤ c ≤ bytes → bytes < 2 ^ 64 → bytes - c ≤ 2 ^ 8 * Z.of_nat fuel →
  ((InterleavedPointer.ranked_addr_ p + c) mod 2 ^ 8 = 0 ∨ c = bytes) →
  CopyTo.blocks (S fuel) t bytes (to_state c) = Some (to_state bytes).
Proof.
  induction fuel as [|fuel IH]; intros c Hc Hb Hf Ha; rewrite to_blocks_S;
    (destruct (c <? bytes) eqn:E; zbool; [|by replace c with bytes by lia]); [lia|].
  destruct Ha as [Ha|]; [|lia].
  rewrite Ht. change (2 ^ HA_BIT_POS) with (2 ^ 8).
  rewrite to_block by lia. apply (IH (c + Z.min (2 ^ 8) (bytes - c))); [lia..|].
  destruct (Z.le_gt_cases (bytes - c) (2 ^ 8)); [right; lia|left].
  rewrite Z.min_l by lia. dlia.
Qed.

Lemma to_start : CopyTo.mkState m src p 0 = to_state 0.
Proof.
  unfold to_state. rewrite Z.add_0_r, u64_small, add_assign_0 by done. done.
Qed.

Lemma to_prefix (bytes : Z) :
  0 ≤ bytes < 2 ^ 64 →
  ∃ c, CopyTo.prefix t bytes (to_state 0) = to_state c ∧ 0 ≤ c ≤ bytes ∧
    ((InterleavedPointer.ranked_addr_ p + c) mod 2 ^ 8 = 0 ∨ c = bytes).
Proof.
  intros Hb. unfold CopyTo.prefix.
  change (CopyTo.dst (to_state 0)) with (InterleavedPointer.add_assign p 0).
  rewrite add_assign_0 by done. unfold InterleavedPointer.ranked_address.
  rewrite Ht. change (2 ^ HA_BIT_POS) with (2 ^ 8).
  set (off := InterleavedPointer.ranked_addr_ p mod 2 ^ 8).
  destruct (off =? 0) eqn:E; zbool; cbn [negb].
  - exists 0. rewrite Z.add_0_r. auto with lia.
  - assert (0 ≤ off < 2 ^ 8) by (subst off; apply Z.mod_pos_bound; lia).
    exists (Z.min bytes (2 ^ 8 - off)).
    rewrite to_block; [|lia|lia|lia|rewrite Z.add_0_r; fold off; lia].
    rewrite Z.add_0_l. split; [done|]. split; [lia|].
    destruct (Z.le_gt_cases bytes (2 ^ 8 - off)); [right; lia|left].
    rewrite Z.min_r by lia. subst off. dlia.
Qed.

Lemma memcpy_to_bytewise (bytes : Z) (fuel : nat) :
  0 ≤ bytes < 2 ^ 64 → bytes ≤ 2 ^ 8 * Z.of_nat fuel →
  CopyTo.memcpy_interleaved (S fuel) t m src bytes p =
  Some (bytes, copy_bytewise m from to 0 (Z.to_nat bytes)).
Proof.
  intros Hb Hf. unfold CopyTo.memcpy_interleaved. rewrite to_start.
  destruct (to_prefix bytes Hb) as (c & -> & Hc & Ha).
  rewrite to_blocks by (done || lia). done.
Qed.
End copy_to.

Section copy_from.
Context (t : Constants) (Ht : RankInterleavingSize t = 2 ^ HA_BIT_POS).
Context (m : memory) (p : InterleavedPointer.t) (dst : Z).
Context (Hdst : 0 ≤ dst < 2 ^ 64) (Hp : pointer_wf p).

Let from (i : Z) : Z := host_address p (InterleavedPointer.ranked_addr_ p + i).
Let to (i : Z) : Z := u64 (dst + i).

Definition from_state (c : Z) : CopyFrom.state :=
  CopyFrom.mkState (copy_bytewise m from to 0 (Z.to_nat c))
    (InterleavedPointer.add_assign p c) (u64 (dst + c)) c.

Lemma from_block (c k : Z) :
  0 ≤ c → 0 ≤ k → c + k < 2 ^ 64 →
  (InterleavedPointer.ranked_addr_ p + c) mod 2 ^ 8 + k ≤ 2 ^ 8 →
  CopyFrom.memcpy_block (from_state c) k = from_state (c + k).
Proof.
  intros Hc Hk Hck Hb. unfold CopyFrom.memcpy_block, from_state.
  cbn [CopyFrom.mem CopyFrom.src CopyFrom.destination CopyFrom.copied].
  rewrite add_assign_get, add_assign_add.
  rewrite copy_bytewise_add by done. f_equal.
  - exact (copy_block _ to p _ c k false Hp Hc Hk Hb (linear_succ dst)).
  - autorewrite with u64. f_equal. lia.
  - apply u64_small. lia.
Qed.

Lemma from_blocks_S (fuel : nat) (bytes c : Z) :
  CopyFrom.blocks (S fuel) t bytes (from_state c) =
  if c <? bytes
  then CopyFrom.blocks fuel t bytes
         (CopyFrom.memcpy_block (from_state c) (Z.min (RankInterleavingSize t) (bytes - c)))
  else Some (from_state c).
Proof. reflexivity. Qed.

Lemma from_blocks (bytes : Z) (fuel : nat) : ∀ c,
  0 ≤ c ≤ bytes → bytes < 2 ^ 64 → bytes - c ≤ 2 ^ 8 * Z.of_nat fuel →
  ((InterleavedPointer.ranked_addr_ p + c) mod 2 ^ 8 = 0 ∨ c = bytes) →
  CopyFrom.blocks (S fuel) t bytes (from_state c) = Some (from_state bytes).
Proof.
  induction fuel as [|fuel IH]; intros c Hc Hb Hf Ha; rewrite from_blocks_S;
    (destruct (c <? bytes) eqn:E; zbool; [|by replace c with bytes by lia]); [lia|].
  destruct Ha as [Ha|]; [|lia].
  rewrite Ht. change (2 ^ HA_BIT_POS) with (2 ^ 8).
  rewrite from_block by lia. apply (IH (c + Z.min (2 ^ 8) (bytes - c))); [lia..|].
  destruct (Z.le_gt_cases (bytes - c) (2 ^ 8)); [right; lia|left].
  rewrite Z.min_l by lia. dlia.
Qed.

Lemma from_start : CopyFrom.mkState m p dst 0 = from_state 0.
Proof.
  unfold from_state. rewrite Z.add_0_r, u64_small, add_assign_0 by done. done.
Qed.

Lemma from_prefix (bytes : Z) :
  0 ≤ bytes < 2 ^ 64 →
  ∃ c, CopyFrom.prefix t bytes (from_state 0) = from_state c ∧ 0 ≤ c ≤ bytes ∧
    ((InterleavedPointer.ranked_addr_ p + c) mod 2 ^ 8 = 0 ∨ c = bytes).
Proof.
  intros Hb. unfold CopyFrom.prefix.
  change (CopyFrom.src (from_state 0)) with (InterleavedPointer.add_assign p 0).
  rewrite add_assign_0 by done. unfold InterleavedPointer.ranked_address.
  rewrite Ht. change (2 ^ HA_BIT_POS) with (2 ^ 8).
  set (off := InterleavedPointer.ranked_addr_ p mod 2 ^ 8).
  destruct (off =? 0) eqn:E; zbool; cbn [negb].
  - exists 0. rewrite Z.add_0_r. auto with lia.
  - assert (0 ≤ off < 2 ^ 8) by (subst off; apply Z.mod_pos_bound; lia).
    exists (Z.min bytes (2 ^ 8 - off)).
    rewrite from_block; [|lia|lia|lia|rewrite Z.add_0_r; fold off; lia].
    rewrite Z.add_0_l. split; [done|]. split; [lia|].
    destruct (Z.le_gt_cases bytes (2 ^ 8 - off)); [right; lia|left].
    rewrite Z.min_r by lia. subst off. dlia.
Qed.

Lemma memcpy_from_bytewise (bytes : Z) (fuel : nat) :
  0 ≤ bytes < 2 ^ 64 → bytes ≤ 2 ^ 8 * Z.of_nat fuel →
  CopyFrom.memcpy_interleaved (S fuel) t m p bytes dst =
  Some (bytes, copy_bytewise m from to 0 (Z.to_nat bytes)).
Proof.
  intros Hb Hf. unfold CopyFrom.memcpy_interleaved. rewrite from_start.
  destruct (from_prefix bytes Hb) as (c & -> & Hc & Ha).
  rewrite from_blocks by (done || lia). done.
Qed.
End copy_from.

(** ** What a bytewise copy leaves in memory *)

Lemma upd_same (m : memory) (a v : Z) : upd m a v a = v.
Proof. unfold upd. by rewrite Z.eqb_refl. Qed.

Lemma upd_other (m : memory) (a v x : Z) : x ≠ a → upd m a v x = m x.
Proof. intros H. unfold upd. by apply Z.eqb_neq in H as ->. Qed.

Lemma copy_bytewise_frame (n : nat) : ∀ (m : memory) (from to : Z → Z) (i x : Z),
  (∀ j, i ≤ j < i + Z.of_nat n → x ≠ to j) →
  copy_bytewise m from to i n x = m x.
Proof.
  induction n as [|n IH]; intros m from to i x Hx; [done|]. cbn [copy_bytewise].
  rewrite IH; [apply upd_other, Hx | intros; apply Hx]; lia.
Qed.

Lemma copy_bytewise_lookup (n : nat) : ∀ (m : memory) (from to : Z → Z) (i j : Z),
  (∀ a b, i ≤ a < i + Z.of_nat n → i ≤ b < i + Z.of_nat n → to a = to b → a = b) →
  (∀ a b, i ≤ a < i + Z.of_nat n → i ≤ b < i + Z.of_nat n → from a ≠ to b) →
  i ≤ j < i + Z.of_nat n →
  copy_bytewise m from to i n (to j) = m (from j).
Proof.
  induction n as [|n IH]; intros m from to i j Hinj Hdis Hj; [lia|]. cbn [copy_bytewise].
  destruct (Z.eq_dec j i) as [->|].
  - rewrite copy_bytewise_frame, upd_same; [done|].
    intros b Hb E. apply Hinj in E; lia.
  - rewrite IH; [apply upd_other, Hdis; lia | | | lia].
    + intros a b Ha Hb. apply Hinj; lia.
    + intros a b Ha Hb. apply Hdis; lia.
Qed.

Lemma system_offset_range (ra ha : Z) :
  0 ≤ ra < 2 ^ 63 → 0 ≤ system_offset ra ha < 2 ^ 64.
Proof.
  intros H. unfold system_offset.
  assert (0 ≤ (ra / 2 ^ 19 + ha) mod 2 < 2) by (apply Z.mod_pos_bound; lia).
  set (h := (ra / 2 ^ 19 + ha) mod 2) in *. clearbody h. dlia.
Qed.

Lemma interleaved_address_exact (ra ha : Z) :
  0 ≤ ra < 2 ^ 63 → 0 ≤ ha < 2 → interleaved_address ra ha = system_offset ra ha.
Proof.
  intros. rewrite interleaved_address_arith by lia.
  by apply u64_small, system_offset_range.
Qed.

(** The rank address and home agent of a system offset. *)
Definition rank_of_offset (a : Z) : Z := a / 2 ^ 9 * 2 ^ 8 + a mod 2 ^ 8.
Definition ha_of_offset (a : Z) : Z := (rank_of_offset a / 2 ^ 19 + a / 2 ^ 8) mod 2.

Lemma system_offset_of_rank (a : Z) :
  0 ≤ a → system_offset (rank_of_offset a) (ha_of_offset a) = a.
Proof.
  intros Ha. unfold system_offset, ha_of_offset. set (r := rank_of_offset a).
  assert (E : (r / 2 ^ 19 + (r / 2 ^ 19 + a / 2 ^ 8) mod 2) mod 2 = (a / 2 ^ 8) mod 2) by dlia.
  rewrite E. unfold r, rank_of_offset. dlia.
Qed.

Lemma rank_of_system_offset (ra ha : Z) :
  0 ≤ ra → 0 ≤ ha < 2 →
  rank_of_offset (system_offset ra ha) = ra ∧ ha_of_offset (system_offset ra ha) = ha.
Proof.
  intros Hr Hh.
  assert (0 ≤ (ra / 2 ^ 19 + ha) mod 2 < 2) by (apply Z.mod_pos_bound; lia).
  assert (E : rank_of_offset (system_offset ra ha) = ra).
  { unfold rank_of_offset, system_offset.
    set (h := (ra / 2 ^ 19 + ha) mod 2) in *. clearbody h. dlia. }
  split; [done|]. unfold ha_of_offset. rewrite E. unfold system_offset.
  assert (E2 : (((ra / 2 ^ 8) * 2 + (ra / 2 ^ 19 + ha) mod 2) * 2 ^ 8 + ra mod 2 ^ 8) / 2 ^ 8
    = (ra / 2 ^ 8) * 2 + (ra / 2 ^ 19 + ha) mod 2).
  { set (h := (ra / 2 ^ 19 + ha) mod 2) in *. clearbody h. dlia. }
  rewrite E2. set (q := ra / 2 ^ 8). set (r := ra / 2 ^ 19). clearbody q r. dlia.
Qed.

(** Rank bytes of one pointer are at distinct host addresses. *)
Lemma host_address_inj (p : InterleavedPointer.t) (r1 r2 : Z) :
  0 ≤ InterleavedPointer.HA_ p < 2 → 0 ≤ r1 < 2 ^ 63 → 0 ≤ r2 < 2 ^ 63 →
  host_address p r1 = host_address p r2 → r1 = r2.
Proof.
  intros Hh H1 H2. rewrite !host_address_arith by done.
  rewrite !(u64_small r1), !(u64_small r2) by lia. intros E.
  pose proof (system_offset_range r1 (InterleavedPointer.HA_ p) H1).
  pose proof (system_offset_range r2 (InterleavedPointer.HA_ p) H2).
  assert (system_offset r1 (InterleavedPointer.HA_ p) =
          system_offset r2 (InterleavedPointer.HA_ p)) as E' by (unfold u64 in E; dlia).
  apply (f_equal rank_of_offset) in E'.
  destruct (rank_of_system_offset r1 _ (proj1 H1) Hh), (rank_of_system_offset r2 _ (proj1 H2) Hh).
  congruence.
Qed.

(** ** Theorems *)

(** Property C15.  [interleaved_address] is a bijection between pairs of a rank
    address below [2 ^ 63] and a home agent, and system offsets: no two ranks
    share a byte and no byte of the range is unreachable. *)
Theorem interleaved_address_bijective :
  (∀ ra ha, 0 ≤ ra < 2 ^ 63 → 0 ≤ ha < 2 → 0 ≤ interleaved_address ra ha < 2 ^ 64) ∧
  (∀ r1 h1 r2 h2,
     0 ≤ r1 < 2 ^ 63 → 0 ≤ r2 < 2 ^ 63 → 0 ≤ h1 < 2 → 0 ≤ h2 < 2 →
     interleaved_address r1 h1 = interleaved_address r2 h2 → r1 = r2 ∧ h1 = h2) ∧
  (∀ a, 0 ≤ a < 2 ^ 64 →
     ∃ ra ha, 0 ≤ ra < 2 ^ 63 ∧ 0 ≤ ha < 2 ∧ interleaved_address ra ha = a).
Proof.
  split; [|split].
  - intros. rewrite interleaved_address_exact by done. by apply system_offset_range.
  - intros r1 h1 r2 h2 H1 H2 Hh1 Hh2. rewrite !interleaved_address_exact by done.
    intros E. destruct (rank_of_system_offset r1 h1) as [E1 E2]; [lia..|].
    destruct (rank_of_system_offset r2 h2) as [E3 E4]; [lia..|]. by rewrite E, E3, E4 in *.
  - intros a Ha. exists (rank_of_offset a), (ha_of_offset a).
    assert (0 ≤ rank_of_offset a < 2 ^ 63) by (unfold rank_of_offset; dlia).
    assert (0 ≤ ha_of_offset a < 2) by (apply Z.mod_pos_bound; lia).
    split; [done|]. split; [done|]. rewrite interleaved_address_exact by done.
    apply system_offset_of_rank. lia.
Qed.

(** Property C14.  Both [memcpy_interleaved] overloads terminate, report [bytes]
    and equal the reference copy that computes the interleaved address of every
    byte separately, for any alignment of the rank address and any overlap. *)
Theorem memcpy_interleaved_is_bytewise (t : Constants) (m : memory) (a bytes : Z)
    (p : InterleavedPointer.t) (fuel : nat) :
  RankInterleavingSize t = 2 ^ HA_BIT_POS → pointer_wf p →
  0 ≤ a < 2 ^ 64 → 0 ≤ bytes < 2 ^ 64 → bytes ≤ 2 ^ 8 * Z.of_nat fuel →
  let lin i := u64 (a + i) in
  let rank i := host_address p (InterleavedPointer.ranked_address p + i) in
  CopyTo.memcpy_interleaved (S fuel) t m a bytes p =
    Some (bytes, copy_bytewise m lin rank 0 (Z.to_nat bytes)) ∧
  CopyFrom.memcpy_interleaved (S fuel) t m p bytes a =
    Some (bytes, copy_bytewise m rank lin 0 (Z.to_nat bytes)).
Proof. intros. split; [apply memcpy_to_bytewise | apply memcpy_from_bytewise]; done. Qed.

(** A topology with the constants of the AXDIMM simulator's driver. *)
Definition sample_topology : Constants :=
  mkConstants AXDIMM 2 0x40000 2 0x40000 2 0x40000 2 8 256 16 0x2040 0x2080 0x20c0 4.

Lemma memcpy_interleaved_is_bytewise_witness :
  CopyTo.memcpy_interleaved 4 sample_topology (fun x => x mod 251) 5000 700
    (make_interleaved_pointer 3 100 90000) =
  Some (700, copy_bytewise (fun x => x mod 251) (fun i => u64 (5000 + i))
    (fun i => host_address (make_interleaved_pointer 3 100 90000)
       (InterleavedPointer.ranked_address (make_interleaved_pointer 3 100 90000) + i))
    0 (Z.to_nat 700)).
Proof.
  refine (proj1 (memcpy_interleaved_is_bytewise sample_topology (fun x => x mod 251) 5000 700
    (make_interleaved_pointer 3 100 90000) 3 eq_refl _ _ _ _)); [|lia..].
  split; [split; vm_compute; congruence.. | reflexivity].
Defined.

(** Copying a buffer into interleaved memory and reading it back
    elsewhere reproduces the buffer and changes no other byte, when the three
    regions do not overlap. *)
Theorem memcpy_interleaved_roundtrip (t : Constants) (m : memory) (src dst bytes : Z)
    (p : InterleavedPointer.t) (fuel : nat) :
  let rank i := host_address p (InterleavedPointer.ranked_address p + i) in
  RankInterleavingSize t = 2 ^ HA_BIT_POS → pointer_wf p →
  0 ≤ src → src + bytes ≤ 2 ^ 64 → 0 ≤ dst → dst + bytes ≤ 2 ^ 64 →
  0 < bytes ≤ 2 ^ 8 * Z.of_nat fuel →
  InterleavedPointer.ranked_address p + bytes ≤ 2 ^ 63 →
  (∀ i j, 0 ≤ i < bytes → 0 ≤ j < bytes → rank i ≠ src + j ∧ rank i ≠ dst + j) →
  ∃ m1 m2,
    CopyTo.memcpy_interleaved (S fuel) t m src bytes p = Some (bytes, m1) ∧
    CopyFrom.memcpy_interleaved (S fuel) t m1 p bytes dst = Some (bytes, m2) ∧
    (∀ i, 0 ≤ i < bytes → m2 (dst + i) = m (src + i)) ∧
    (∀ x, (∀ i, 0 ≤ i < bytes → x ≠ rank i ∧ x ≠ dst + i) → m2 x = m x).
Proof.
  intros rank Ht Hp Hs Hs' Hd Hd' [Hb Hf] Hr Hdis.
  pose proof (pw_ranked p Hp) as Hra. unfold InterleavedPointer.ranked_address in *.
  assert (Hn : Z.of_nat (Z.to_nat bytes) = bytes) by (apply Z2Nat.id; lia).
  assert (Hls : ∀ i, 0 ≤ i < bytes → u64 (src + i) = src + i) by (intros; apply u64_small; lia).
  assert (Hld : ∀ i, 0 ≤ i < bytes → u64 (dst + i) = dst + i) by (intros; apply u64_small; lia).
  assert (Hinj : ∀ i j, 0 ≤ i < bytes → 0 ≤ j < bytes → rank i = rank j → i = j).
  { intros i j Hi Hj E. apply host_address_inj in E; lia || apply Hp. }
  exists (copy_bytewise m (fun i => u64 (src + i)) rank 0 (Z.to_nat bytes)).
  eexists. split; [apply memcpy_to_bytewise; done || lia|].
  split; [apply memcpy_from_bytewise; done || lia|]. split.
  - intros i Hi. rewrite <- (Hld i Hi).
    rewrite (copy_bytewise_lookup _ _ rank (fun i => u64 (dst + i)) 0 i).
    + rewrite <- (Hls i Hi). rewrite (copy_bytewise_lookup _ _ (fun i => u64 (src + i)) rank 0 i);
        rewrite ?Z.add_0_l, ?Hn; [done|auto| |done].
      intros a b Ha Hb'. rewrite Hls by done. by edestruct Hdis as [E _]; [exact Hb'|exact Ha|]; auto.
    + rewrite Z.add_0_l, Hn. intros a b Ha Hb'. rewrite !Hld by done. lia.
    + rewrite Z.add_0_l, Hn. intros a b Ha Hb'. rewrite !Hld by done. by apply Hdis.
    + by rewrite Z.add_0_l, Hn.
  - intros x Hx. rewrite !copy_bytewise_frame; [done| |];
      rewrite Z.add_0_l, Hn; intros j Hj; [|rewrite Hld by done]; by apply Hx.
Qed.

(** A pointer made for a compute unit designates the given virtual
    address, remembers the rank offset, stays well formed under every move, and
    moving it by [k] and back restores it. *)
Theorem make_interleaved_pointer_spec (cunit phys_offset virtual_addr k : Z) :
  0 ≤ phys_offset < 2 ^ 64 → 0 ≤ virtual_addr < 2 ^ 64 →
  let p := make_interleaved_pointer cunit phys_offset virtual_addr in
  InterleavedPointer.get p = virtual_addr ∧
  InterleavedPointer.ranked_address p = phys_offset ∧
  pointer_wf p ∧ pointer_wf (InterleavedPointer.add_assign p k) ∧
  InterleavedPointer.sub_assign (InterleavedPointer.add_assign p k) k = p.
Proof.
  intros Hp Hv p.
  pose proof (cunit_to_ha_range cunit) as Hha.
  assert (Hwf : pointer_wf p).
  { split; [exact Hha | cbn; apply u64_range |].
    unfold host_address; cbn. by autorewrite with u64. }
  assert (Hg : InterleavedPointer.get p = virtual_addr).
  { unfold p, make_interleaved_pointer, InterleavedPointer.plus.
    rewrite add_assign_get. unfold host_address.
    change (InterleavedPointer.ranked_addr_ (InterleavedPointer.make _ _)) with 0.
    rewrite Z.add_0_l, (u64_small phys_offset) by done.
    change (InterleavedPointer.base_ (InterleavedPointer.make ?b _)) with b.
    change (InterleavedPointer.HA_ (InterleavedPointer.make _ ?h)) with h.
    rewrite u64_add_l, Z.sub_add. by apply u64_small. }
  split; [done|]. split; [cbn; by apply u64_small|]. split; [done|].
  split; [by apply add_assign_wf|].
  change (InterleavedPointer.add_assign (InterleavedPointer.add_assign p k) (- k) = p).
  rewrite add_assign_add, Z.add_opp_diag_r. by apply add_assign_0.
Qed.

Lemma make_interleaved_pointer_spec_witness :
  InterleavedPointer.get (make_interleaved_pointer 5 0x1234 0x7f0000000000) = 0x7f0000000000.
Proof. apply (make_interleaved_pointer_spec 5 0x1234 0x7f0000000000 3); lia. Defined.
