(* ===== verification/DeviceMemory.v ===== *)
(** * Device memory map and n-buffered blocks

    core/device/sls/utils/memory_map.h ([MemMap]) and
    core/device/sls/utils/nbuffer_memory.{h,cpp} ([NBufferedMemory]).  The
    addresses at which the blocks are mapped come from [mmap] and are data of
    the model. *)
From S2P Require Import Prelude Topology RankAddress.

(** The memory block types, in the order of [sls_mem_blocks_name]. *)
Definition SLS_BLOCK_BASE : Z := 0.
Definition SLS_BLOCK_INST : Z := 1.
Definition SLS_BLOCK_CFGR : Z := 2.
Definition SLS_BLOCK_TAGS : Z := 3.
Definition SLS_BLOCK_PSUM : Z := 4.
Definition SLS_BLOCK_MAX : Z := 5.

Module MemMap.

Record memAddr := mkMemAddr {
  addr : list Z;
  size : list Z
}.

Record t := mk {
  m_cunitAddrInfo : list memAddr;
  m_minSizeInfo : list Z
}.

(** [std::numeric_limits<size_t>::max()] *)
Definition size_max : Z := 2 ^ 64 - 1.

Definition check_block_type (type : Z) : result unit :=
  assert ((SLS_BLOCK_BASE <=? type) && (type <? SLS_BLOCK_MAX)).

(** [init]: the per-block minimum over all compute units; the caller has sized
    [m_cunitAddrInfo] to the number of compute units. *)
Definition min_sizes (mins : list Z) (info : memAddr) : list Z :=
  zip_with Z.min mins (size info).

Definition init (cunitAddrInfos : list memAddr) : t :=
  mk cunitAddrInfos
     (fold_left min_sizes cunitAddrInfos (replicate (Z.to_nat SLS_BLOCK_MAX) size_max)).

Definition get_min_block_size (m : t) (type : Z) : result Z :=
  let! _ := check_block_type type in vec_at (m_minSizeInfo m) type.

Definition get_all_cunits_block_size (m : t) (type : Z) : result Z :=
  let! _ := check_block_type type in
  rfold (fun acc info => let! s := vec_at (size info) type in Ok (u64 (acc + s)))
        0 (m_cunitAddrInfo m).

(** [m_map_[compute_unit].addr[type]] *)
Definition block_addr (m : t) (compute_unit type : Z) : result Z :=
  let! info := vec_at (m_cunitAddrInfo m) compute_unit in vec_at (addr info) type.

End MemMap.

Module NBufferedMemory.

(** [enum Type] *)
Inductive Type_ := READ | WRITE.

#[export] Instance Type_eq_dec : EqDecision Type_.
Proof. solve_decision. Defined.

Definition type_index (ty : Type_) : Z := match ty with READ => 0 | WRITE => 1 end.
Definition MAX : Z := 2.

Record t := mk {
  m_map_ : MemMap.t;
  single_buffer_size_ : Z;
  buffers_num_ : Z;
  indices_ : list (list Z);
  mem_block_type_ : Z
}.

Definition set_indices (b : t) (ix : list (list Z)) : t :=
  mk (m_map_ b) (single_buffer_size_ b) (buffers_num_ b) ix (mem_block_type_ b).

Definition check_index_access (tp : Constants) (rank : Z) : result unit :=
  assert (rank <? NumOfCUnits tp).

Definition check_index_value (b : t) (value : Z) : result unit :=
  assert ((0 <=? value) && (value <? buffers_num_ b)).

Definition get_index (tp : Constants) (b : t) (rank : Z) (ty : Type_) : result Z :=
  let! _ := check_index_access tp rank in
  let! row := vec_at (indices_ b) rank in
  let! idx := vec_at row (type_index ty) in
  let! _ := check_index_value b idx in
  Ok idx.

(** The parameter [value] is an [uint8_t]. *)
Definition set_index (tp : Constants) (b : t) (rank : Z) (ty : Type_) (v : Z) : result t :=
  let value := u8 v in
  let! _ := check_index_access tp rank in
  let! _ := check_index_value b value in
  let! row := vec_at (indices_ b) rank in
  let! row' := vec_set row (type_index ty) value in
  let! ix := vec_set (indices_ b) rank row' in
  Ok (set_indices b ix).

Definition shift_index (tp : Constants) (b : t) (rank : Z) (ty : Type_) : result t :=
  let! i := get_index tp b rank ty in
  set_index tp b rank ty ((i + 1) mod buffers_num_ b).

Definition shift_buffers (tp : Constants) (b : t) (rank : Z) : result t :=
  let! b := shift_index tp b rank READ in
  shift_index tp b rank WRITE.

(** The loop of the constructor. *)
Definition init_rank (tp : Constants) (b : t) (rank : Z) : result t :=
  let! b := set_index tp b rank READ (buffers_num_ b - 1) in
  set_index tp b rank WRITE 0.

Definition make (tp : Constants) (memory : MemMap.t)
    (single_buffer_size buffers_num mem_block_type : Z) : result t :=
  let b := mk memory single_buffer_size buffers_num
              (replicate (Z.to_nat (NumOfCUnits tp)) (replicate (Z.to_nat MAX) 0))
              mem_block_type in
  let! _ := assert (0 <? buffers_num) in
  let! _ := assert (0 <? single_buffer_size) in
  rfold (init_rank tp) b (range (NumOfCUnits tp)).

Definition get_buffer_by_index (b : t) (cunit index : Z) : result InterleavedPointer.t :=
  let! a := MemMap.block_addr (m_map_ b) cunit (mem_block_type_ b) in
  Ok (InterleavedPointer.plus (InterleavedPointer.make a (cunit_to_ha cunit))
        (u64 (single_buffer_size_ b * index))).

Definition get_buffer (tp : Constants) (b : t) (rank : Z) (ty : Type_)
  : result InterleavedPointer.t :=
  let! i := get_index tp b rank ty in get_buffer_by_index b rank i.

End NBufferedMemory.

(** ** The ring discipline of the buffers *)
Import NBufferedMemory.

(** The index vectors that give rank [k] the index [f ty k] for [ty]. *)
Definition rows (n : Z) (f : Type_ → Z → Z) : list (list Z) :=
  (fun k => [f READ k; f WRITE k]) <$> range n.

Definition tupd (f : Type_ → Z → Z) (ty : Type_) (k v : Z) : Type_ → Z → Z :=
  fun ty' k' => if decide (ty' = ty ∧ k' = k) then v else f ty' k'.

Lemma tupd_same (f : Type_ → Z → Z) (ty : Type_) (k v : Z) : tupd f ty k v ty k = v.
Proof. unfold tupd. by rewrite decide_True. Qed.

Lemma tupd_other (f : Type_ → Z → Z) (ty ty' : Type_) (k k' v : Z) :
  ty' ≠ ty ∨ k' ≠ k → tupd f ty k v ty' k' = f ty' k'.
Proof. intros H. unfold tupd. by rewrite decide_False by intuition. Qed.

Lemma rows_lookup (n : Z) (f : Type_ → Z → Z) (k : Z) :
  0 ≤ k < n → vec_at (rows n f) k = Ok [f READ k; f WRITE k].
Proof.
  intros Hk. apply vec_at_Ok. split; [lia|]. unfold rows.
  rewrite list_lookup_fmap, range_lookup by lia. cbn. by rewrite Z2Nat.id by lia.
Qed.

Lemma length_rows (n : Z) (f : Type_ → Z → Z) : length (rows n f) = Z.to_nat n.
Proof. unfold rows. by rewrite length_fmap, length_range. Qed.

Lemma rows_update (n : Z) (f f' : Type_ → Z → Z) (k : Z) :
  0 ≤ k < n → (∀ ty j, j ≠ k → f' ty j = f ty j) →
  vec_set (rows n f) k [f' READ k; f' WRITE k] = Ok (rows n f').
Proof.
  intros Hk Hf. rewrite vec_set_Ok by (rewrite length_rows; lia). f_equal.
  apply list_eq. intros i. unfold rows.
  destruct (decide (i = Z.to_nat k)) as [->|Hne].
  - rewrite list_lookup_insert_eq by (rewrite length_fmap, length_range; lia).
    rewrite list_lookup_fmap, range_lookup by lia. cbn. by rewrite Z2Nat.id by lia.
  - rewrite list_lookup_insert_ne by done. rewrite !list_lookup_fmap.
    destruct (decide (i < Z.to_nat n)%nat).
    + rewrite range_lookup by done. cbn. by rewrite !Hf by lia.
    + rewrite lookup_ge_None_2 by (rewrite length_range; lia). done.
Qed.

Lemma rows_ext (n : Z) (f g : Type_ → Z → Z) :
  (∀ ty k, 0 ≤ k < n → f ty k = g ty k) → rows n f = rows n g.
Proof.
  intros H. unfold rows. apply list_fmap_ext. intros i k Hk.
  apply list_elem_of_lookup_2, elem_of_range in Hk. by rewrite !H.
Qed.

Section ring.
Context (tp : Constants) (b : t).
Context (Hn : 0 < buffers_num_ b ≤ 2 ^ 8).

Definition with_idx (f : Type_ → Z → Z) : t := set_indices b (rows (NumOfCUnits tp) f).

Lemma with_idx_indices (f : Type_ → Z → Z) :
  indices_ (with_idx f) = rows (NumOfCUnits tp) f.
Proof. reflexivity. Qed.
#[local] Arguments with_idx : simpl never.

Lemma check_access (rank : Z) :
  rank < NumOfCUnits tp → check_index_access tp rank = Ok tt.
Proof. intros H. unfold check_index_access. by apply Z.ltb_lt in H as ->. Qed.

Lemma check_value (f : Type_ → Z → Z) (v : Z) :
  0 ≤ v < buffers_num_ b → check_index_value (with_idx f) v = Ok tt.
Proof.
  intros H. unfold check_index_value, with_idx; cbn.
  replace (0 <=? v) with true by lia. by replace (v <? buffers_num_ b) with true by lia.
Qed.

Lemma get_index_spec (f : Type_ → Z → Z) (rank : Z) (ty : Type_) :
  0 ≤ rank < NumOfCUnits tp → 0 ≤ f ty rank < buffers_num_ b →
  get_index tp (with_idx f) rank ty = Ok (f ty rank).
Proof.
  intros Hr Hf. unfold get_index.
  rewrite check_access, with_idx_indices by lia. cbn [rbind]. rewrite rows_lookup by done.
  cbn [rbind].
  assert (vec_at [f READ rank; f WRITE rank] (type_index ty) = Ok (f ty rank)) as ->
    by (by destruct ty).
  cbn [rbind]. by rewrite check_value.
Qed.

Lemma set_index_spec (f : Type_ → Z → Z) (rank v : Z) (ty : Type_) :
  0 ≤ rank < NumOfCUnits tp → 0 ≤ v < buffers_num_ b →
  set_index tp (with_idx f) rank ty v = Ok (with_idx (tupd f ty rank v)).
Proof.
  intros Hr Hv. unfold set_index. replace (u8 v) with v by (unfold u8; dlia).
  rewrite check_access, check_value, with_idx_indices by lia. cbn [rbind].
  rewrite rows_lookup by done. cbn [rbind].
  assert (Hrow : vec_set [f READ rank; f WRITE rank] (type_index ty) v =
    Ok [tupd f ty rank v READ rank; tupd f ty rank v WRITE rank]).
  { destruct ty; cbn; rewrite tupd_same; [rewrite (tupd_other _ READ WRITE)|
      rewrite (tupd_other _ WRITE READ)]; auto. }
  rewrite Hrow. cbn [rbind].
  rewrite rows_update by (done || (intros; apply tupd_other; auto)). done.
Qed.

Lemma shift_index_spec (f : Type_ → Z → Z) (rank : Z) (ty : Type_) :
  0 ≤ rank < NumOfCUnits tp → 0 ≤ f ty rank < buffers_num_ b →
  shift_index tp (with_idx f) rank ty =
  Ok (with_idx (tupd f ty rank ((f ty rank + 1) mod buffers_num_ b))).
Proof.
  intros Hr Hf. unfold shift_index. rewrite get_index_spec by done. cbn [rbind].
  change (buffers_num_ (with_idx f)) with (buffers_num_ b).
  apply set_index_spec; [done|]. apply Z.mod_pos_bound. lia.
Qed.

(** The indices of a rank that has been shifted [c rank] times. *)
Definition ring_index (c : Z → Z) (ty : Type_) (k : Z) : Z :=
  match ty with
  | READ => (c k + buffers_num_ b - 1) mod buffers_num_ b
  | WRITE => c k mod buffers_num_ b
  end.

Lemma ring_index_range (c : Z → Z) (ty : Type_) (k : Z) :
  0 ≤ ring_index c ty k < buffers_num_ b.
Proof. destruct ty; apply Z.mod_pos_bound; lia. Qed.

Definition bump (c : Z → Z) (k : Z) : Z → Z := fun x => if x =? k then c x + 1 else c x.

Lemma with_idx_ext (f g : Type_ → Z → Z) :
  (∀ ty k, 0 ≤ k < NumOfCUnits tp → f ty k = g ty k) → with_idx f = with_idx g.
Proof. intros H. unfold with_idx. by rewrite (rows_ext _ f g). Qed.

Lemma shift_buffers_spec (c : Z → Z) (rank : Z) :
  0 ≤ rank < NumOfCUnits tp →
  shift_buffers tp (with_idx (ring_index c)) rank = Ok (with_idx (ring_index (bump c rank))).
Proof.
  intros Hr. unfold shift_buffers.
  rewrite shift_index_spec by (done || apply ring_index_range). cbn [rbind].
  rewrite shift_index_spec by
    (done || (rewrite tupd_other by auto; apply ring_index_range)).
  f_equal. apply with_idx_ext. intros ty k Hk.
  rewrite (tupd_other _ READ WRITE) by auto. unfold bump.
  destruct (decide (k = rank)) as [->|Hne].
  - destruct ty; [rewrite tupd_other by auto|]; rewrite tupd_same; cbn;
      rewrite Z.eqb_refl, Zplus_mod_idemp_l; f_equal; lia.
  - rewrite !tupd_other by auto. apply Z.eqb_neq in Hne. destruct ty; cbn; by rewrite Hne.
Qed.

(** Shifts of any ranks in any order. *)
Definition count_shifts (l : list Z) (k : Z) : Z := Z.of_nat (length (filter (.= k) l)).

Lemma shifts_spec (l : list Z) : ∀ c,
  Forall (fun r => 0 ≤ r < NumOfCUnits tp) l →
  rfold (shift_buffers tp) (with_idx (ring_index c)) l =
  Ok (with_idx (ring_index (fun k => c k + count_shifts l k))).
Proof.
  induction l as [|r l IH]; intros c Hl; cbn [rfold].
  - f_equal. apply with_idx_ext. intros ty k _. unfold count_shifts; cbn.
    destruct ty; cbn; by rewrite Z.add_0_r.
  - inversion_clear Hl. rewrite shift_buffers_spec by done. cbn [rbind]. rewrite IH by done.
    f_equal. apply with_idx_ext. intros ty k _.
    assert (bump c r k + count_shifts l k = c k + count_shifts (r :: l) k) as E.
    { unfold bump, count_shifts. rewrite filter_cons.
      destruct (decide (r = k)) as [->|].
      - rewrite Z.eqb_refl. cbn [length]. lia.
      - replace (k =? r) with false by lia. lia. }
    destruct ty; cbn; by rewrite E.
Qed.
End ring.

Section construction.
Context (tp : Constants) (mem : MemMap.t) (sz n bt : Z).
Context (Hn : 0 < n ≤ 2 ^ 8) (Hsz : 0 < sz).

Definition blank : t := mk mem sz n [] bt.

Definition initial (ty : Type_) : Z := match ty with READ => n - 1 | WRITE => 0 end.

Definition init_fun (f : Type_ → Z → Z) (rank : Z) : Type_ → Z → Z :=
  tupd (tupd f READ rank (n - 1)) WRITE rank 0.

Lemma init_rank_spec (f : Type_ → Z → Z) (rank : Z) :
  0 ≤ rank < NumOfCUnits tp →
  init_rank tp (with_idx tp blank f) rank = Ok (with_idx tp blank (init_fun f rank)).
Proof.
  intros Hr. unfold init_rank.
  rewrite set_index_spec by (cbn; lia). cbn [rbind].
  by rewrite set_index_spec by (cbn; lia).
Qed.

Lemma init_ranks_spec (l : list Z) : ∀ f,
  Forall (fun r => 0 ≤ r < NumOfCUnits tp) l →
  rfold (init_rank tp) (with_idx tp blank f) l = Ok (with_idx tp blank (fold_left init_fun l f)).
Proof.
  induction l as [|r l IH]; intros f Hl; [done|]. inversion_clear Hl.
  cbn [rfold fold_left]. rewrite init_rank_spec by done. cbn [rbind]. by apply IH.
Qed.

Lemma fold_init_fun (l : list Z) : ∀ f ty k,
  fold_left init_fun l f ty k = if decide (k ∈ l) then initial ty else f ty k.
Proof.
  induction l as [|r l IH]; intros f ty k; cbn [fold_left]; [done|]. rewrite IH.
  destruct (decide (k ∈ l)).
  - rewrite decide_True by (by apply list_elem_of_further). done.
  - unfold init_fun. destruct (decide (k = r)) as [->|].
    + rewrite decide_True by apply list_elem_of_here.
      destruct ty; [rewrite tupd_other by auto|]; by rewrite tupd_same.
    + rewrite decide_False by (rewrite elem_of_cons; tauto).
      rewrite !tupd_other by auto. done.
Qed.

Lemma replicate_rows (m : Z) :
  replicate (Z.to_nat m) (replicate (Z.to_nat MAX) 0) = rows m (fun _ _ => 0).
Proof.
  unfold rows. apply replicate_as_elem_of. split; [by rewrite length_fmap, length_range|].
  intros y (k & -> & _)%list_elem_of_fmap. done.
Qed.

Lemma make_spec :
  make tp mem sz n bt = Ok (with_idx tp blank (ring_index blank (fun _ => 0))).
Proof.
  unfold make. replace (0 <? n) with true by lia. replace (0 <? sz) with true by lia.
  cbn [assert rbind]. rewrite replicate_rows.
  change (mk mem sz n (rows (NumOfCUnits tp) ?f) bt) with (with_idx tp blank f).
  rewrite init_ranks_spec by (by apply Forall_range).
  f_equal. apply with_idx_ext. intros ty k Hk. rewrite fold_init_fun.
  rewrite decide_True by (by apply elem_of_range).
  destruct ty; cbn; rewrite Z.mod_small by lia; lia.
Qed.
End construction.

(** ** Buffers of one unit do not overlap *)

Lemma ring_index_distinct (b : t) (c : Z → Z) (k : Z) :
  1 < buffers_num_ b → ring_index b c READ k ≠ ring_index b c WRITE k.
Proof.
  intros Hn. cbn. set (n := buffers_num_ b) in *. intros E.
  assert (H : (c k + n - 1 - c k) mod n = 0) by (rewrite Zminus_mod, E, Z.sub_diag; apply Z.mod_0_l; lia).
  replace (c k + n - 1 - c k) with (n - 1) in H by lia. rewrite Z.mod_small in H; lia.
Qed.

Lemma buffer_addresses_disjoint (a cunit sz n r w i j : Z) :
  0 < sz → sz * n < 2 ^ 63 → 0 ≤ r < n → 0 ≤ w < n → r ≠ w →
  0 ≤ i < sz → 0 ≤ j < sz →
  let p x := InterleavedPointer.plus (InterleavedPointer.make a (cunit_to_ha cunit))
               (u64 (sz * x)) in
  host_address (p r) (InterleavedPointer.ranked_address (p r) + i) ≠
  host_address (p w) (InterleavedPointer.ranked_address (p w) + j).
Proof.
  intros Hsz Hm Hr Hw Hne Hi Hj p E.
  assert (Hx : ∀ x, 0 ≤ x < n → 0 ≤ sz * x ∧ sz * x + sz ≤ sz * n) by nia.
  assert (Hra : ∀ x, 0 ≤ x < n → InterleavedPointer.ranked_address (p x) = sz * x).
  { intros x Hx'. cbn. specialize (Hx x Hx'). autorewrite with u64.
    rewrite Z.add_0_l. apply u64_small. lia. }
  rewrite !Hra in E by done.
  change (host_address (p w)) with (host_address (p r)) in E.
  pose proof (Hx r Hr). pose proof (Hx w Hw).
  apply host_address_inj in E; [nia | apply cunit_to_ha_range | lia | lia].
Qed.

(** ** Theorems *)

(** The constructor of [NBufferedMemory] and every later sequence
    of [shift_buffers] succeed; after them compute unit [k], shifted [c] times,
    writes buffer [c mod n] and reads buffer [(c - 1) mod n], whatever the
    shifts of the other units. *)
Theorem nbuffer_ring (tp : Constants) (mem : MemMap.t) (sz n bt : Z) (l : list Z) :
  0 < n ≤ 2 ^ 8 → 0 < sz → Forall (fun r => 0 ≤ r < NumOfCUnits tp) l →
  ∃ b b', make tp mem sz n bt = Ok b ∧ rfold (shift_buffers tp) b l = Ok b' ∧
    ∀ k, 0 ≤ k < NumOfCUnits tp →
      get_index tp b' k WRITE = Ok (count_shifts l k mod n) ∧
      get_index tp b' k READ = Ok ((count_shifts l k - 1) mod n).
Proof.
  intros Hn Hsz Hl. eexists _, _. split; [by apply make_spec|].
  split; [by apply shifts_spec|]. intros k Hk.
  rewrite !get_index_spec by (done || by apply ring_index_range).
  cbn. split; [done|]. f_equal.
  replace (0 + count_shifts l k + n - 1) with (count_shifts l k - 1 + 1 * n) by lia.
  apply Z_mod_plus_full.
Qed.

(** One [shift_buffers] makes the buffer that was being written the
    one that is read (the same interleaved pointer), and with at least two
    buffers the read and the write buffer of a unit share no byte. *)
Theorem shift_publishes_written_buffer (tp : Constants) (mem : MemMap.t) (sz n bt k a : Z)
    (l : list Z) :
  0 < n ≤ 2 ^ 8 → 0 < sz → sz * n < 2 ^ 63 →
  Forall (fun r => 0 ≤ r < NumOfCUnits tp) (k :: l) →
  MemMap.block_addr mem k bt = Ok a →
  ∃ b b' b'', make tp mem sz n bt = Ok b ∧ rfold (shift_buffers tp) b l = Ok b' ∧
    shift_buffers tp b' k = Ok b'' ∧
    get_buffer tp b'' k READ = get_buffer tp b' k WRITE ∧
    (1 < n → ∃ p q, get_buffer tp b' k READ = Ok p ∧ get_buffer tp b' k WRITE = Ok q ∧
       ∀ i j, 0 ≤ i < sz → 0 ≤ j < sz →
         host_address p (InterleavedPointer.ranked_address p + i) ≠
         host_address q (InterleavedPointer.ranked_address q + j)).
Proof.
  intros Hn Hsz Hmax Hl Ha. inversion_clear Hl as [|? ? Hk Hl'].
  eexists _, _, _. split; [by apply make_spec|]. split; [by apply shifts_spec|].
  split; [by apply shift_buffers_spec|]. unfold get_buffer.
  rewrite !get_index_spec by (done || by apply ring_index_range). cbn [rbind].
  split.
  - cbn [ring_index]. unfold bump. rewrite Z.eqb_refl. cbn [buffers_num_ blank].
    replace (0 + count_shifts l k + 1 + n - 1) with (count_shifts l k + 1 * n) by lia.
    by rewrite Z_mod_plus_full.
  - intros Hn2. unfold get_buffer_by_index. cbn [m_map_ mem_block_type_ with_idx set_indices blank].
    rewrite Ha. cbn [rbind]. eexists _, _. split; [done|]. split; [done|].
    intros i j Hi Hj. cbn [single_buffer_size_ with_idx set_indices blank].
    set (r := ring_index _ _ READ k). set (w := ring_index _ _ WRITE k).
    assert (Hr : 0 ≤ r < n) by (apply (ring_index_range (blank mem sz n bt)); cbn; lia).
    assert (Hw : 0 ≤ w < n) by (apply (ring_index_range (blank mem sz n bt)); cbn; lia).
    assert (Hne : r ≠ w) by (by apply ring_index_distinct).
    apply buffer_addresses_disjoint with n; done.
Qed.

