(* ===== verification/RankMemory.v ===== *)
(** * Memory objects and packs

    include/pnmlib/core/memory_object.h ([MemoryObject]) and
    core/device/sls/rank_memory.h ([RankMemory]): a table with its offset in
    every rank that stores it, and arrays indexed by a pack id, the bitmask of
    the ranks that share the tables. *)
From S2P Require Import Prelude Topology.

Module MemoryObject.

(** [offsets_] pairs a validity flag with the rank offset. *)
Record t := mk {
  object_id_ : Z;
  size_bytes_ : Z;
  offsets_ : list (bool * Z)
}.

Definition make (object_id size_bytes num_of_rank : Z) : t :=
  mk object_id size_bytes (replicate (Z.to_nat num_of_rank) (false, 0)).

Definition id (o : t) : Z := object_id_ o.
Definition bytes (o : t) : Z := size_bytes_ o.

Definition offset (o : t) (rank_id : Z) : result Z :=
  let! (is_valid, rank_offset) := vec_at (offsets_ o) rank_id in
  let! _ := assert is_valid in
  Ok rank_offset.

Definition set_offset (o : t) (rank_id off : Z) : result t :=
  let! _ := assert (rank_id <? Z.of_nat (length (offsets_ o))) in
  let! os := vec_set (offsets_ o) rank_id (true, off) in
  Ok (mk (object_id_ o) (size_bytes_ o) os).

Lemma offset_set_same (o o' : t) (r off : Z) :
  set_offset o r off = Ok o' → offset o' r = Ok off.
Proof.
  unfold set_offset. intros H. inv_result. zbool. unfold vec_set in E0.
  destruct (_ && _) eqn:Eb; [|discriminate]. zbool. inv_result. unfold offset; cbn.
  rewrite (proj2 (vec_at_Ok _ r (true, off))); [done|]. split; [lia|].
  apply list_lookup_insert_eq. lia.
Qed.

Lemma offset_set_other (o o' : t) (r r' off : Z) :
  set_offset o r off = Ok o' → r' ≠ r → 0 ≤ r' → offset o' r' = offset o r'.
Proof.
  unfold set_offset. intros H Hne Hr'. inv_result. zbool. unfold vec_set in E0.
  destruct (_ && _) eqn:Eb; [|discriminate]. zbool. inv_result. unfold offset, vec_at; cbn.
  rewrite list_lookup_insert_ne by lia. done.
Qed.

End MemoryObject.

Module RankMemory.

Definition num_of_pack (t : Constants) : Z := Z.shiftl 1 (NumOfCUnits t).

(** [1, 2, ..., num_of_pack - 1] *)
Definition pack_identifiers (t : Constants) : list Z :=
  (fun i => i + 1) <$> range (num_of_pack t - 1).

(** [packs_array<T>]: a vector with one cell per pack id. *)
Abbreviation packs_array := list (only parsing).

Definition make_packs_array {A} (t : Constants) (d : A) : packs_array A :=
  replicate (Z.to_nat (num_of_pack t)) d.

Definition of_vector {A} (t : Constants) (data : list A) : result (packs_array A) :=
  let! _ := assert (Z.of_nat (length data) =? num_of_pack t) in Ok data.

Abbreviation packs_to_objects := (list (list MemoryObject.t)) (only parsing).

Definition get_max_object_size_in_bytes (objects : list MemoryObject.t) : Z :=
  match objects with
  | [] => 0
  | o :: os =>
      MemoryObject.bytes
        (fold_left (fun largest x =>
           if MemoryObject.bytes largest <? MemoryObject.bytes x then x else largest) os o)
  end.

Definition get_max_object_size_in_packs (packs : packs_to_objects) : Z :=
  fold_left (fun m elm => Z.max m (get_max_object_size_in_bytes elm)) packs 0.

Definition get_objects_size_in_bytes (objects : list MemoryObject.t) : Z :=
  fold_left (fun sum elm => u64 (sum + MemoryObject.bytes elm)) objects 0.

Definition get_objects_size_in_packs (packs : packs_to_objects) : Z :=
  fold_left (fun sum elm => u64 (sum + get_objects_size_in_bytes elm)) packs 0.

End RankMemory.

Lemma elem_of_pack_identifiers (t : Constants) (p : Z) :
  p ∈ RankMemory.pack_identifiers t ↔ 1 ≤ p < RankMemory.num_of_pack t.
Proof.
  unfold RankMemory.pack_identifiers. rewrite list_elem_of_fmap. split.
  - intros (k & -> & Hk%elem_of_range). lia.
  - intros H. exists (p - 1). split; [lia|]. apply elem_of_range. lia.
Qed.

Lemma NoDup_range (n : Z) : NoDup (range n).
Proof. unfold range. apply NoDup_fmap_2; [intros ??; lia | apply NoDup_seq]. Qed.

Lemma NoDup_pack_identifiers (t : Constants) : NoDup (RankMemory.pack_identifiers t).
Proof. unfold RankMemory.pack_identifiers. apply NoDup_fmap_2; [intros ??; lia | apply NoDup_range]. Qed.
