(* ===== verification/ExecutionGenerator.v ===== *)
(** * Splitting an SLS operation into executions

    sls/operation/execution_generator.{h,cpp}.  Every (table, batch) pair of a
    pack is put into exactly one execution, in order, and each execution fits
    the device's instruction and psum buffers. *)
From S2P Require Import Prelude Topology RankMemory.

Module Execution.

(** [batch_offset_] is not initialized by the constructor: it is [None] until
    [commit_table_batches] sets it. *)
Record TableData := mkTableData {
  table_id_ : Z;
  table_batches_chunk_ : Z;
  batch_offset_ : option Z
}.

Record t := mk {
  tables_data_ : list TableData;
  total_lookups_ : Z;
  total_batches_in_chunks_ : Z;
  psum_size_ : Z
}.

Definition empty : t := mk [] 0 0 0.

Definition get_num_lookups (e : t) : Z := total_lookups_ e.
Definition get_num_batches (e : t) : Z := total_batches_in_chunks_ e.
Definition get_psum_read_size (e : t) : Z := psum_size_ e.
Definition get_tables_data (e : t) : list TableData := tables_data_ e.

(** Replace [tables_data_.back()]. *)
Fixpoint update_back (l : list TableData) (f : TableData → TableData) : list TableData :=
  match l with
  | [] => []
  | [x] => [f x]
  | x :: l' => x :: update_back l' f
  end.

Definition set_tables (e : t) (l : list TableData) : t :=
  mk l (total_lookups_ e) (total_batches_in_chunks_ e) (psum_size_ e).

(** Updates the execution and the caller's [tables_batches]. *)
Definition commit_table_batches (e : t) (tables_batches : list Z) : result (t * list Z) :=
  let! td := of_option UndefinedBehaviour (last (tables_data_ e)) in
  let! off := vec_at tables_batches (table_id_ td) in
  let! tb := vec_set tables_batches (table_id_ td) (u32 (off + table_batches_chunk_ td)) in
  Ok (set_tables e (update_back (tables_data_ e)
        (fun d => mkTableData (table_id_ d) (table_batches_chunk_ d) (Some off))), tb).

Definition ends_with (e : t) (t_id : Z) : bool :=
  match last (tables_data_ e) with
  | Some td => table_id_ td =? t_id
  | None => false
  end.

Definition add_batch (e : t) (t_id b_lookups : Z) (tables_batches : list Z)
  : result (t * list Z) :=
  let! _ := assert (negb (b_lookups =? 0)) in
  let! (e, tables_batches) :=
    (if ends_with e t_id then Ok (e, tables_batches)
     else
       let! (e, tables_batches) :=
         (match tables_data_ e with
          | [] => Ok (e, tables_batches)
          | _ => commit_table_batches e tables_batches
          end) in
       Ok (set_tables e (tables_data_ e ++ [mkTableData t_id 0 None]), tables_batches)) in
  Ok (mk (update_back (tables_data_ e)
            (fun d => mkTableData (table_id_ d) (u32 (table_batches_chunk_ d + 1))
                                  (batch_offset_ d)))
         (u64 (total_lookups_ e + b_lookups))
         (u64 (total_batches_in_chunks_ e + 1))
         (psum_size_ e), tables_batches).

End Execution.

Module ExecutionGenerator.
Import Execution.

Record t := mk {
  current_exec_ : Execution.t;
  exec_packs_ : RankMemory.packs_array (list Execution.t);
  tables_layout_ : RankMemory.packs_to_objects;
  tables_batches_ : list Z;
  max_inst_in_buf_ : Z;
  max_features_in_buf_ : Z;
  sparse_feature_in_bytes_ : Z
}.

(** The defaulted constructor. *)
Definition empty (tp : Constants) : t :=
  mk Execution.empty (RankMemory.make_packs_array tp []) (RankMemory.make_packs_array tp [])
     [] 0 0 0.

Definition init (g : t) (tables_layout : RankMemory.packs_to_objects)
    (max_inst_in_buf max_features_in_buf sparse_feature_in_bytes : Z) : t :=
  mk (current_exec_ g) (exec_packs_ g) tables_layout (tables_batches_ g)
     max_inst_in_buf max_features_in_buf sparse_feature_in_bytes.

Definition get_pack_execs (g : t) (pack : Z) : result (list Execution.t) :=
  vec_at (exec_packs_ g) (u8 pack).

Definition set_current (g : t) (e : Execution.t) (tb : list Z) : t :=
  mk e (exec_packs_ g) (tables_layout_ g) tb
     (max_inst_in_buf_ g) (max_features_in_buf_ g) (sparse_feature_in_bytes_ g).

Definition set_packs (g : t) (ps : RankMemory.packs_array (list Execution.t)) : t :=
  mk (current_exec_ g) ps (tables_layout_ g) (tables_batches_ g)
     (max_inst_in_buf_ g) (max_features_in_buf_ g) (sparse_feature_in_bytes_ g).

(** The condition under which a batch does not fit the current execution. *)
Definition overflows (g : t) (batch_lookups : Z) : bool :=
  (max_inst_in_buf_ g <? u64 (total_lookups_ (current_exec_ g) + batch_lookups)) ||
  (max_features_in_buf_ g <? u64 (total_batches_in_chunks_ (current_exec_ g) + 1)).

Definition try_add_batch (g : t) (table_id batch_lookups : Z) : result (bool * t) :=
  let! _ := assert (batch_lookups <=? max_inst_in_buf_ g) in
  if overflows g batch_lookups then
    let! (e, tb) := commit_table_batches (current_exec_ g) (tables_batches_ g) in
    Ok (false, set_current g e tb)
  else
    let! (e, tb) := add_batch (current_exec_ g) table_id batch_lookups (tables_batches_ g) in
    Ok (true, set_current g e tb).

Definition commit_execution (g : t) (pack : Z) : result t :=
  let e := current_exec_ g in
  let e := Execution.mk (tables_data_ e) (total_lookups_ e) (total_batches_in_chunks_ e)
             (u64 (total_batches_in_chunks_ e * sparse_feature_in_bytes_ g)) in
  let! _ := assert (0 <? total_lookups_ e) in
  let! _ := assert (0 <? total_batches_in_chunks_ e) in
  let! _ := assert (total_lookups_ e <=? max_inst_in_buf_ g) in
  let! _ := assert (total_batches_in_chunks_ e <=? max_features_in_buf_ g) in
  let! execs := vec_at (exec_packs_ g) (u8 pack) in
  let! ps := vec_set (exec_packs_ g) (u8 pack) (execs ++ [e]) in
  Ok (set_current (set_packs g ps) Execution.empty (tables_batches_ g)).

(** The body of the innermost loop of [generate]. *)
Definition process_batch (pack table_id : Z) (current_batch_lookups : list Z) (g : t)
    (batch_idx : Z) : result t :=
  let! b_lookups := vec_at current_batch_lookups batch_idx in
  let! (added, g) := try_add_batch g table_id b_lookups in
  if added then Ok g
  else
    let! g := commit_execution g pack in
    let! (e, tb) := add_batch (current_exec_ g) table_id b_lookups (tables_batches_ g) in
    Ok (set_current g e tb).

(** The loop over the tables of a pack. *)
Definition process_table (mini_batch_size num_tables : Z) (lengths : list Z) (pack : Z)
    (g : t) (obj : MemoryObject.t) : result t :=
  let current_table_batch_offset := u64 (MemoryObject.id obj * mini_batch_size) in
  let! _ := assert (u64 (current_table_batch_offset + mini_batch_size - 1) <?
                    u64 (num_tables * mini_batch_size)) in
  let current_batch_lookups := drop (Z.to_nat current_table_batch_offset) lengths in
  rfold (process_batch pack (u32 (MemoryObject.id obj)) current_batch_lookups) g
        (range mini_batch_size).

Definition process_pack (mini_batch_size num_tables : Z) (lengths : list Z) (g : t) (pack : Z)
  : result t :=
  let! objs := vec_at (tables_layout_ g) pack in
  let! g := rfold (process_table mini_batch_size num_tables lengths pack) g objs in
  if negb (total_lookups_ (current_exec_ g) =? 0) then
    let! (e, tb) := commit_table_batches (current_exec_ g) (tables_batches_ g) in
    commit_execution (set_current g e tb) pack
  else Ok g.

(** [std::vector::resize]: new elements are zero, existing ones are kept. *)
Definition resize (l : list Z) (n : Z) : list Z :=
  take (Z.to_nat n) l ++ replicate (Z.to_nat n - length l) 0.

Definition generate (tp : Constants) (g : t) (mini_batch_size num_tables : Z)
    (lengths : list Z) : result t :=
  let! _ := assert (0 <? max_inst_in_buf_ g) in
  let! _ := assert (0 <? max_features_in_buf_ g) in
  let! _ := assert (0 <? sparse_feature_in_bytes_ g) in
  let! _ := assert (0 <? mini_batch_size) in
  let! _ := assert (0 <? num_tables) in
  let g := set_current g (current_exec_ g) (resize (tables_batches_ g) num_tables) in
  let g := set_packs g ((fun _ => []) <$> exec_packs_ g) in
  rfold (process_pack mini_batch_size num_tables lengths) g (RankMemory.pack_identifiers tp).

End ExecutionGenerator.

(** ** The (table, batch) pairs an execution stands for *)
Import Execution.

Definition chunk_pairs (t off n : Z) : list (Z * Z) := (fun i => (t, off + i)) <$> range n.

Definition table_pairs (td : TableData) : list (Z * Z) :=
  match batch_offset_ td with
  | Some off => chunk_pairs (table_id_ td) off (table_batches_chunk_ td)
  | None => []
  end.

Definition exec_pairs (e : Execution.t) : list (Z * Z) := concat (table_pairs <$> tables_data_ e).

Definition bump (prog : Z → Z) (t : Z) : Z → Z := fun x => if x =? t then prog x + 1 else prog x.

#[local] Arguments bump : simpl never.
#[local] Arguments chunk_pairs : simpl never.

Lemma bump_same (prog : Z → Z) (t : Z) : bump prog t t = prog t + 1.
Proof. unfold bump. by rewrite Z.eqb_refl. Qed.

Lemma bump_other (prog : Z → Z) (t x : Z) : x ≠ t → bump prog t x = prog x.
Proof. intros H. unfold bump. by apply Z.eqb_neq in H as ->. Qed.

Lemma chunk_pairs_succ (t off n : Z) :
  0 ≤ n → chunk_pairs t off (n + 1) = chunk_pairs t off n ++ [(t, off + n)].
Proof. intros Hn. unfold chunk_pairs. by rewrite range_succ, fmap_app by done. Qed.

Lemma chunk_pairs_0 (t off : Z) : chunk_pairs t off 0 = [].
Proof. reflexivity. Qed.

Lemma update_back_snoc (l : list TableData) (x : TableData) (f : TableData → TableData) :
  update_back (l ++ [x]) f = l ++ [f x].
Proof.
  induction l as [|y l IH]; [done|]. cbn [app update_back]. rewrite IH.
  destruct l; done.
Qed.

(** A committed chunk. *)
Definition chunk_set (d : TableData) : Prop :=
  is_Some (batch_offset_ d) ∧ 0 < table_batches_chunk_ d.

(** ** The current execution *)
Section current.
Context (N : Z) (len : Z * Z → Z).

(** [e] holds the pairs [P]; table [t] has had [prog t] batches assigned to
    executions, of which the last chunk of [e] is not in [tb] yet. *)
Inductive open_tables (e : Execution.t) (tb : list Z) (P : list (Z * Z)) (prog : Z → Z) : Prop :=
  | open_empty :
      tables_data_ e = [] → P = [] →
      (∀ t, 0 ≤ t < N → tb !! Z.to_nat t = Some (prog t)) →
      open_tables e tb P prog
  | open_chunk (l : list TableData) (td : TableData) :
      tables_data_ e = l ++ [td] →
      Forall chunk_set l →
      0 ≤ table_id_ td < N → 0 < table_batches_chunk_ td ≤ prog (table_id_ td) →
      P = concat (table_pairs <$> l) ++
          chunk_pairs (table_id_ td) (prog (table_id_ td) - table_batches_chunk_ td)
                      (table_batches_chunk_ td) →
      tb !! Z.to_nat (table_id_ td) = Some (prog (table_id_ td) - table_batches_chunk_ td) →
      (∀ t, 0 ≤ t < N → t ≠ table_id_ td → tb !! Z.to_nat t = Some (prog t)) →
      open_tables e tb P prog.

Record cur_inv (e : Execution.t) (tb : list Z) (P : list (Z * Z)) (prog : Z → Z) : Prop := {
  ci_len : Z.of_nat (length tb) = N;
  ci_open : open_tables e tb P prog;
  ci_prog : ∀ t, 0 ≤ t < N → 0 ≤ prog t < 2 ^ 32;
  ci_lookups : total_lookups_ e = sum_list_Z (len <$> P);
  ci_batches : total_batches_in_chunks_ e = Z.of_nat (length P);
  ci_pos : Forall (fun p => 0 < len p) P;
  ci_psum : psum_size_ e = 0
}.

(** A committed execution. *)
Record committed (e : Execution.t) (P : list (Z * Z)) : Prop := {
  cm_offsets : Forall chunk_set (tables_data_ e);
  cm_pairs : exec_pairs e = P
}.

Lemma cur_inv_empty (tb : list Z) (prog : Z → Z) :
  Z.of_nat (length tb) = N →
  (∀ t, 0 ≤ t < N → tb !! Z.to_nat t = Some (prog t) ∧ 0 ≤ prog t < 2 ^ 32) →
  cur_inv Execution.empty tb [] prog.
Proof. intros HN H. split; try done; [apply open_empty; try done|]; intros; by apply H. Qed.

Lemma chunk_pairs_nonempty (l : list (Z * Z)) (t off n : Z) : 0 < n → l ++ chunk_pairs t off n ≠ [].
Proof.
  intros Hn [_ Hnil]%app_nil. apply (f_equal length) in Hnil.
  unfold chunk_pairs in Hnil. rewrite length_fmap, length_range in Hnil. cbn in Hnil. lia.
Qed.

Lemma commit_spec (e : Execution.t) (tb : list Z) (P : list (Z * Z)) (prog : Z → Z) :
  cur_inv e tb P prog → P ≠ [] →
  ∃ e' tb', commit_table_batches e tb = Ok (e', tb') ∧ committed e' P ∧
    total_lookups_ e' = total_lookups_ e ∧
    total_batches_in_chunks_ e' = total_batches_in_chunks_ e ∧
    psum_size_ e' = psum_size_ e ∧
    (∃ l td d, tables_data_ e = l ++ [td] ∧ tables_data_ e' = l ++ [d]) ∧
    Z.of_nat (length tb') = N ∧ ∀ t, 0 ≤ t < N → tb' !! Z.to_nat t = Some (prog t).
Proof.
  intros [HN Ho Hp _ _ _ _] HP. destruct Ho as [|l td Ht Hl Hid Hc -> Htb Hoth]; [done|].
  unfold commit_table_batches. rewrite Ht, last_snoc. cbn [of_option rbind].
  rewrite (proj2 (vec_at_Ok _ _ _) (conj (proj1 Hid) Htb)). cbn [rbind].
  rewrite vec_set_Ok by lia. cbn [rbind]. rewrite update_back_snoc.
  eexists _, _. split; [done|]. split; [split; cbn|].
  - apply Forall_app. split; [done|]. constructor; [|constructor]. split; cbn; [eauto|lia].
  - unfold exec_pairs; cbn. rewrite fmap_app, concat_app. cbn. by rewrite app_nil_r.
  - do 3 (split; [done|]). split; [by eexists _, _, _|]. split; [by rewrite length_insert|].
    intros t Htr. destruct (decide (t = table_id_ td)) as [->|Hne].
    + rewrite list_lookup_insert_eq by lia. f_equal. unfold u32.
      specialize (Hp _ Hid). rewrite Z.mod_small; lia.
    + rewrite list_lookup_insert_ne by lia. by apply Hoth.
Qed.

(** Adding a pair to the book-keeping of an execution that is already open on
    the pair's table. *)
Lemma add_to_chunk (tb : list Z) (P : list (Z * Z)) (prog : Z → Z)
    (l : list TableData) (td : TableData) (t b tl tbc ps : Z) :
  Z.of_nat (length tb) = N → (∀ x, 0 ≤ x < N → 0 ≤ prog x < 2 ^ 32) →
  Forall chunk_set l →
  table_id_ td = t → 0 ≤ t < N → 0 ≤ table_batches_chunk_ td ≤ prog t →
  prog t + 1 < 2 ^ 32 →
  P = concat (table_pairs <$> l) ++
      chunk_pairs t (prog t - table_batches_chunk_ td) (table_batches_chunk_ td) →
  tb !! Z.to_nat t = Some (prog t - table_batches_chunk_ td) →
  (∀ x, 0 ≤ x < N → x ≠ t → tb !! Z.to_nat x = Some (prog x)) →
  len (t, prog t) = b → 0 < b → Forall (fun p => 0 < len p) P →
  tl = sum_list_Z (len <$> P) → tbc = Z.of_nat (length P) →
  tl + b < 2 ^ 64 → tbc + 1 < 2 ^ 64 → ps = 0 →
  cur_inv
    (Execution.mk
       (update_back (l ++ [td]) (fun d => mkTableData (table_id_ d)
          (u32 (table_batches_chunk_ d + 1)) (batch_offset_ d)))
       (u64 (tl + b)) (u64 (tbc + 1)) ps)
    tb (P ++ [(t, prog t)]) (bump prog t).
Proof.
  intros HN Hp Hl Hid Ht Hc Hlt -> Htb Hoth Hb Hb0 Hpos -> -> Hs1 Hs2 ->.
  assert (Hnn : Forall (fun z => 0 ≤ z) (len <$> concat (table_pairs <$> l) ++
      chunk_pairs t (prog t - table_batches_chunk_ td) (table_batches_chunk_ td))).
  { apply Forall_fmap. eapply Forall_impl; [exact Hpos|]. cbn. lia. }
  apply sum_list_Z_nonneg in Hnn.
  rewrite update_back_snoc. set (c := table_batches_chunk_ td) in *.
  assert (Hu : u32 (c + 1) = c + 1) by (unfold u32; rewrite Z.mod_small; lia).
  split; cbn.
  - done.
  - eapply open_chunk; [reflexivity|done|cbn; by rewrite Hid|..]; cbn; rewrite ?Hid; fold c;
      rewrite ?Hu, ?bump_same.
    + lia.
    + replace (prog t + 1 - (c + 1)) with (prog t - c) by lia.
      rewrite chunk_pairs_succ by lia. rewrite Z.sub_add. by rewrite <- app_assoc.
    + rewrite Htb. f_equal. lia.
    + intros x Hx Hne. rewrite bump_other by done. by apply Hoth.
  - intros x Hx. destruct (decide (x = t)) as [->|]; [rewrite bump_same|rewrite bump_other by done];
      specialize (Hp _ Hx); lia.
  - rewrite (fmap_app len _ [_]), sum_list_Z_app. change (len <$> [(t, prog t)]) with [len (t, prog t)].
    rewrite Hb, u64_small; unfold sum_list_Z; cbn [foldr]; unfold sum_list_Z in *; lia.
  - rewrite (length_app _ [_]). cbn [length]. rewrite u64_small; lia.
  - apply Forall_app. split; [done|]. constructor; [|constructor]. by rewrite Hb.
  - done.
Qed.

Lemma add_batch_spec (e : Execution.t) (tb : list Z) (P : list (Z * Z)) (prog : Z → Z) (t b : Z) :
  cur_inv e tb P prog → 0 ≤ t < N → len (t, prog t) = b → 0 < b →
  prog t + 1 < 2 ^ 32 → total_lookups_ e + b < 2 ^ 64 → total_batches_in_chunks_ e + 1 < 2 ^ 64 →
  ∃ e' tb', add_batch e t b tb = Ok (e', tb') ∧ cur_inv e' tb' (P ++ [(t, prog t)]) (bump prog t).
Proof.
  intros Hinv Ht Hlen Hb Hp1 Hs1 Hs2. unfold add_batch.
  replace (negb (b =? 0)) with true by lia. cbn [assert rbind].
  pose proof Hinv as [HN Ho Hp Hlk Hbt Hpos Hps]. unfold ends_with.
  pose proof Ho as [He HP Htb | l td Htd Hl Hid Hc HP Htb Hoth].
  - rewrite He. cbn [last rbind app set_tables tables_data_].
    eexists _, _. split; [done|]. subst P. cbn [set_tables tables_data_]. rewrite He.
    apply (add_to_chunk tb [] prog [] (mkTableData t 0 None)); cbn; try done; try lia.
    + specialize (Hp _ Ht). lia.
    + rewrite Z.sub_0_r. by apply Htb.
    + intros. by apply Htb.
  - rewrite Htd, last_snoc. destruct (table_id_ td =? t) eqn:E; zbool.
    + cbn [rbind]. rewrite Htd. eexists _, _. split; [done|]. subst t.
      apply add_to_chunk; cbn; try done; try lia.
    + assert (HPn : P ≠ []).
      { rewrite HP. apply chunk_pairs_nonempty. lia. }
      destruct (commit_spec e tb P prog Hinv HPn) as
        (e' & tb' & Hc' & [Hco Hcp] & Htl & Htc & Htp & (l0 & td0 & d0 & Hd0 & Hd0') & HN' & Htb').
      rewrite <- Htd.
      destruct (tables_data_ e) eqn:Ed; [by destruct l|]. rewrite <- Ed in *.
      rewrite Hc'. cbn [rbind set_tables tables_data_]. eexists _, _. split; [done|].
      apply (add_to_chunk tb'); cbn; try done; try lia.
      * specialize (Hp _ Ht). lia.
      * rewrite chunk_pairs_0, app_nil_r, <- Hcp. done.
      * rewrite Z.sub_0_r. by apply Htb'.
      * intros. by apply Htb'.
Qed.
End current.

(** ** The generator *)
Section generator.
Import ExecutionGenerator.
Context (tp : Constants) (layout : RankMemory.packs_to_objects).
Context (maxi maxf sfb mb N : Z) (lengths : list Z).

(** Lookups of batch [b] of table [t]. *)
Definition len (p : Z * Z) : Z := default 0 (lengths !! Z.to_nat (p.1 * mb + p.2)).

(** The parameters [SparseReduction] passes, with sizes in the range of the
    C++ types. *)
Record params_ok : Prop := {
  po_maxi : 0 < maxi < 2 ^ 63;
  po_maxf : 0 < maxf < 2 ^ 63;
  po_sfb : 0 < sfb;
  po_mb : 0 < mb < 2 ^ 32;
  po_N : 0 < N < 2 ^ 32;
  po_length : Z.of_nat (length lengths) = N * mb;
  po_lengths : Forall (fun x => 0 < x ≤ maxi) lengths
}.
Context (Hok : params_ok).

Definition gst (e : Execution.t) (tb : list Z) (ps : list (list Execution.t)) : t :=
  ExecutionGenerator.mk e ps layout tb maxi maxf sfb.

(** An execution that fits the device and whose counters are those of its pairs. *)
Record good_exec (e : Execution.t) : Prop := {
  ge_offsets : Forall chunk_set (tables_data_ e);
  ge_lookups : total_lookups_ e = sum_list_Z (len <$> exec_pairs e);
  ge_batches : total_batches_in_chunks_ e = Z.of_nat (length (exec_pairs e));
  ge_fit_inst : 0 < total_lookups_ e ≤ maxi;
  ge_fit_psum : 0 < total_batches_in_chunks_ e ≤ maxf;
  ge_psum_size : psum_size_ e = u64 (total_batches_in_chunks_ e * sfb)
}.

Record pack_inv (e : Execution.t) (tb : list Z) (E : list Execution.t) (P D : list (Z * Z))
    (prog : Z → Z) : Prop := {
  pi_cur : cur_inv N len e tb P prog;
  pi_good : Forall good_exec E;
  pi_done : concat (exec_pairs <$> E) ++ P = D;
  pi_inst : total_lookups_ e ≤ maxi;
  pi_psum : total_batches_in_chunks_ e ≤ maxf
}.

Lemma cur_totals_nonneg (e : Execution.t) (tb : list Z) (P : list (Z * Z)) (prog : Z → Z) :
  cur_inv N len e tb P prog →
  0 ≤ total_lookups_ e ∧ 0 ≤ total_batches_in_chunks_ e ∧
  (P ≠ [] → 0 < total_lookups_ e ∧ 0 < total_batches_in_chunks_ e) ∧
  (P = [] → total_lookups_ e = 0 ∧ total_batches_in_chunks_ e = 0).
Proof.
  intros [_ _ _ -> -> Hpos _].
  assert (Hs : 0 ≤ sum_list_Z (len <$> P)).
  { apply sum_list_Z_nonneg, Forall_fmap. eapply Forall_impl; [exact Hpos|]. cbn. lia. }
  split; [done|]. split; [lia|]. split; [|by intros ->].
  intros HP. destruct P as [|p P]; [done|]. inversion_clear Hpos as [|? ? Hp HP'].
  assert (0 ≤ sum_list_Z (len <$> P)).
  { apply sum_list_Z_nonneg, Forall_fmap. eapply Forall_impl; [exact HP'|]. cbn. lia. }
  split; [|cbn; lia]. unfold sum_list_Z in *. cbn. lia.
Qed.

(** Committing a non-empty current execution to its pack. *)
Lemma commit_execution_spec (e : Execution.t) (tb : list Z) (E : list Execution.t)
    (P D : list (Z * Z)) (prog : Z → Z) (ps : list (list Execution.t)) (pack : Z) :
  pack_inv e tb E P D prog → P ≠ [] →
  0 ≤ pack < 2 ^ 8 → pack < Z.of_nat (length ps) →
  ∃ e' tb' e'',
    commit_table_batches e tb = Ok (e', tb') ∧
    commit_execution (gst e' tb' (<[Z.to_nat pack := E]> ps)) pack =
      Ok (gst Execution.empty tb' (<[Z.to_nat pack := E ++ [e'']]> ps)) ∧
    pack_inv Execution.empty tb' (E ++ [e'']) [] D prog.
Proof.
  intros [Hcur HE HD Hi Hf] HP Hpk Hlen.
  destruct (cur_totals_nonneg _ _ _ _ Hcur) as (_ & _ & Hpos & _). specialize (Hpos HP).
  destruct (commit_spec _ _ _ _ _ _ Hcur HP) as
    (e' & tb' & Hc & [Hco Hcp] & Htl & Htc & _ & _ & HN' & Htb').
  exists e', tb'. eexists. split; [done|]. unfold commit_execution.
  cbn [current_exec_ gst total_lookups_ total_batches_in_chunks_ max_inst_in_buf_
       max_features_in_buf_ exec_packs_].
  rewrite Htl, Htc.
  replace (0 <? total_lookups_ e) with true by lia.
  replace (0 <? total_batches_in_chunks_ e) with true by lia.
  replace (total_lookups_ e <=? maxi) with true by lia.
  replace (total_batches_in_chunks_ e <=? maxf) with true by lia.
  cbn [assert rbind].
  replace (u8 pack) with pack by (unfold u8; rewrite Z.mod_small; lia).
  rewrite (proj2 (vec_at_Ok _ pack E)) by (split; [lia|]; apply list_lookup_insert_eq; lia).
  cbn [rbind]. rewrite vec_set_Ok by (rewrite length_insert; lia). cbn [rbind].
  rewrite list_insert_insert_eq. split; [reflexivity|].
  destruct Hcur as [_ _ Hpr Hlk Hbt _ _]. split; try done.
  - apply cur_inv_empty; [done|]. auto.
  - apply Forall_app. split; [done|]. constructor; [|constructor].
    split; change (exec_pairs (Execution.mk (tables_data_ e') _ _ _)) with (exec_pairs e');
      rewrite ?Hcp; cbn; done || lia.
  - rewrite fmap_app, concat_app, app_nil_r. cbn [fmap list_fmap concat]. rewrite app_nil_r.
    change (exec_pairs (Execution.mk (tables_data_ e') _ _ _)) with (exec_pairs e').
    by rewrite Hcp.
  - cbn. destruct Hok. lia.
  - cbn. destruct Hok. lia.
Qed.

(** One batch of the inner loop. *)
Lemma process_batch_spec (e : Execution.t) (tb : list Z) (E : list Execution.t)
    (P D : list (Z * Z)) (prog : Z → Z) (ps : list (list Execution.t)) (pack t idx : Z)
    (lookups : list Z) :
  pack_inv e tb E P D prog →
  0 ≤ pack < 2 ^ 8 → pack < Z.of_nat (length ps) → 0 ≤ t < N →
  vec_at lookups idx = Ok (len (t, prog t)) → 0 < len (t, prog t) ≤ maxi →
  prog t + 1 < 2 ^ 32 →
  ∃ e' tb' E' P',
    process_batch pack t lookups (gst e tb (<[Z.to_nat pack := E]> ps)) idx =
      Ok (gst e' tb' (<[Z.to_nat pack := E']> ps)) ∧
    pack_inv e' tb' E' P' (D ++ [(t, prog t)]) (bump prog t).
Proof.
  intros Hinv Hpk Hlen Ht Hat Hb Hp1. unfold process_batch. rewrite Hat. cbn [rbind].
  unfold try_add_batch. cbn [max_inst_in_buf_ gst].
  replace (len (t, prog t) <=? maxi) with true by lia. cbn [assert rbind].
  pose proof Hok as [Hmi Hmf _ _ _ _ _]. pose proof Hinv as [Hcur HE HD Hi Hf].
  destruct (cur_totals_nonneg _ _ _ _ Hcur) as (H0 & H1 & _ & Hnil).
  unfold overflows. cbn [max_inst_in_buf_ max_features_in_buf_ current_exec_ gst tables_batches_].
  rewrite !u64_small by lia.
  destruct (_ || _) eqn:Eo.
  - assert (HP : P ≠ []).
    { intros ->. destruct (Hnil eq_refl) as [Hz1 Hz2]. rewrite Hz1, Hz2 in Eo.
      apply orb_true_iff in Eo as [Eo|Eo]; zbool; lia. }
    destruct (commit_execution_spec e tb E P D prog ps pack) as
      (e1 & tb1 & e2 & Hc & Hce & Hinv'); [done..|].
    rewrite Hc. cbn [rbind].
    change (set_current (gst e tb ?x) e1 tb1) with (gst e1 tb1 x).
    rewrite Hce. cbn [rbind current_exec_ gst tables_batches_].
    destruct (add_batch_spec N len Execution.empty tb1 [] prog t (len (t, prog t))) as
      (e3 & tb3 & Ha & Hcur3); [apply Hinv'|done|done|lia|done|cbn; lia|cbn; lia|].
    rewrite Ha. cbn [rbind]. eexists _, _, _, _. split; [reflexivity|].
    destruct Hinv' as [_ HE' HD' _ _]. rewrite app_nil_r in HD'.
    split; [exact Hcur3|done|by rewrite HD'|..];
      [rewrite (ci_lookups _ _ _ _ _ _ Hcur3)|rewrite (ci_batches _ _ _ _ _ _ Hcur3)];
      cbn -[len]; lia.
  - zbool. destruct (add_batch_spec N len e tb P prog t (len (t, prog t))) as
      (e3 & tb3 & Ha & Hcur3); [done..|lia|done|lia|lia|].
    rewrite Ha. cbn [rbind]. eexists _, _, _, _. split; [reflexivity|].
    split; [exact Hcur3|done|by rewrite app_assoc, HD|..].
    + rewrite (ci_lookups _ _ _ _ _ _ Hcur3), (fmap_app len _ [_]), sum_list_Z_app.
      rewrite <- (ci_lookups _ _ _ _ _ _ Hcur). unfold sum_list_Z. cbn -[len]. lia.
    + rewrite (ci_batches _ _ _ _ _ _ Hcur3), (length_app _ [_]).
      rewrite (ci_batches _ _ _ _ _ _ Hcur) in *. cbn. lia.
Qed.

(** All batches of the given tables, in order. *)
Definition tables_pairs (objs : list MemoryObject.t) : list (Z * Z) :=
  concat ((fun o => chunk_pairs (MemoryObject.id o) 0 mb) <$> objs).

Lemma len_lookup (t k : Z) :
  0 ≤ t < N → 0 ≤ k < mb →
  lengths !! Z.to_nat (t * mb + k) = Some (len (t, k)) ∧ 0 < len (t, k) ≤ maxi.
Proof.
  intros Ht Hk. destruct Hok as [_ _ _ _ _ Hl HF].
  destruct (lookup_lt_is_Some_2 lengths (Z.to_nat (t * mb + k))) as [x Hx]; [nia|].
  unfold len; cbn. rewrite Hx. split; [done|]. cbn.
  by apply (proj1 (Forall_lookup _ _) HF _ _ Hx).
Qed.

Lemma drop_len (t k : Z) :
  0 ≤ t < N → 0 ≤ k < mb →
  vec_at (drop (Z.to_nat (u64 (t * mb))) lengths) k = Ok (len (t, k)).
Proof.
  intros Ht Hk. destruct (len_lookup t k Ht Hk) as [Hl _]. destruct Hok.
  rewrite u64_small by nia. apply vec_at_Ok. split; [lia|].
  rewrite lookup_drop, <- Z2Nat.inj_add by nia. done.
Qed.

Lemma process_batches_spec (e : Execution.t) (tb : list Z) (E : list Execution.t)
    (P D : list (Z * Z)) (prog : Z → Z) (ps : list (list Execution.t)) (pack t : Z) (k : nat) :
  pack_inv e tb E P D prog →
  0 ≤ pack < 2 ^ 8 → pack < Z.of_nat (length ps) → 0 ≤ t < N → prog t = 0 →
  Z.of_nat k ≤ mb →
  ∃ e' tb' E' P' prog',
    rfold (process_batch pack t (drop (Z.to_nat (u64 (t * mb))) lengths))
          (gst e tb (<[Z.to_nat pack := E]> ps)) (range (Z.of_nat k)) =
      Ok (gst e' tb' (<[Z.to_nat pack := E']> ps)) ∧
    pack_inv e' tb' E' P' (D ++ chunk_pairs t 0 (Z.of_nat k)) prog' ∧
    prog' t = Z.of_nat k ∧ ∀ x, x ≠ t → prog' x = prog x.
Proof.
  intros Hinv Hpk Hlen Ht H0. induction k as [|k IH]; intros Hk.
  - exists e, tb, E, P, prog. rewrite chunk_pairs_0, app_nil_r. done.
  - destruct IH as (e1 & tb1 & E1 & P1 & prog1 & Hr & Hinv1 & Hp & Hoth); [lia|].
    replace (Z.of_nat (S k)) with (Z.of_nat k + 1) by lia.
    rewrite range_succ, rfold_app, Hr by lia. cbn [rbind rfold].
    pose proof Hok as [_ _ _ Hmb _ _ _].
    destruct (process_batch_spec e1 tb1 E1 P1 (D ++ chunk_pairs t 0 (Z.of_nat k)) prog1 ps pack t
      (Z.of_nat k) (drop (Z.to_nat (u64 (t * mb))) lengths)) as
      (e2 & tb2 & E2 & P2 & Hpb & Hinv2);
      [done..|rewrite Hp; apply drop_len; lia|rewrite Hp; apply len_lookup; lia|lia|].
    rewrite Hpb. cbn [rbind]. eexists _, _, _, _, _. split; [done|]. split; [|split].
    + rewrite chunk_pairs_succ, app_assoc by lia. rewrite <- Hp at 2. exact Hinv2.
    + rewrite bump_same. lia.
    + intros x Hx. rewrite bump_other by done. auto.
Qed.

Lemma process_table_spec (e : Execution.t) (tb : list Z) (E : list Execution.t)
    (P D : list (Z * Z)) (prog : Z → Z) (ps : list (list Execution.t)) (pack : Z)
    (obj : MemoryObject.t) :
  pack_inv e tb E P D prog →
  0 ≤ pack < 2 ^ 8 → pack < Z.of_nat (length ps) →
  0 ≤ MemoryObject.id obj < N → prog (MemoryObject.id obj) = 0 →
  ∃ e' tb' E' P' prog',
    process_table mb N lengths pack (gst e tb (<[Z.to_nat pack := E]> ps)) obj =
      Ok (gst e' tb' (<[Z.to_nat pack := E']> ps)) ∧
    pack_inv e' tb' E' P' (D ++ chunk_pairs (MemoryObject.id obj) 0 mb) prog' ∧
    ∀ x, x ≠ MemoryObject.id obj → prog' x = prog x.
Proof.
  intros Hinv Hpk Hlen Ht H0. pose proof Hok as [_ _ _ Hmb HN _ _]. unfold process_table.
  set (t := MemoryObject.id obj) in *.
  assert (Hle : 0 ≤ t * mb ∧ t * mb + mb ≤ N * mb ∧ N * mb < 2 ^ 64) by nia.
  assert (Ea : (u64 (u64 (t * mb) + mb - 1) <? u64 (N * mb)) = true).
  { rewrite (u64_small (t * mb)), !u64_small by lia. lia. }
  rewrite Ea. cbn [assert rbind].
  replace (u32 t) with t by (unfold u32; rewrite Z.mod_small; lia).
  destruct (process_batches_spec e tb E P D prog ps pack t (Z.to_nat mb)) as
    (e' & tb' & E' & P' & prog' & Hr & Hinv' & _ & Hoth); [done..|lia|].
  rewrite Z2Nat.id in * by lia. by exists e', tb', E', P', prog'.
Qed.

Lemma process_tables_spec (pack : Z) (ps : list (list Execution.t)) (objs : list MemoryObject.t) :
  ∀ e tb E P D prog,
  pack_inv e tb E P D prog →
  0 ≤ pack < 2 ^ 8 → pack < Z.of_nat (length ps) →
  NoDup (MemoryObject.id <$> objs) →
  (∀ o, o ∈ objs → 0 ≤ MemoryObject.id o < N ∧ prog (MemoryObject.id o) = 0) →
  ∃ e' tb' E' P' prog',
    rfold (process_table mb N lengths pack) (gst e tb (<[Z.to_nat pack := E]> ps)) objs =
      Ok (gst e' tb' (<[Z.to_nat pack := E']> ps)) ∧
    pack_inv e' tb' E' P' (D ++ tables_pairs objs) prog' ∧
    ∀ x, x ∉ MemoryObject.id <$> objs → prog' x = prog x.
Proof.
  induction objs as [|o objs IH]; intros e tb E P D prog Hinv Hpk Hlen Hnd Hobj.
  - exists e, tb, E, P, prog. cbn. by rewrite app_nil_r.
  - cbn [fmap list_fmap] in Hnd. apply NoDup_cons in Hnd as [Hno Hnd].
    destruct (Hobj o) as [Ho Hz]; [by left|].
    destruct (process_table_spec e tb E P D prog ps pack o) as
      (e1 & tb1 & E1 & P1 & prog1 & Hr & Hinv1 & Hoth); [done..|].
    cbn [rfold]. rewrite Hr. cbn [rbind].
    destruct (IH e1 tb1 E1 P1 _ prog1 Hinv1) as
      (e2 & tb2 & E2 & P2 & prog2 & Hr2 & Hinv2 & Hoth2); [done..| |].
    { intros o' Ho'. destruct (Hobj o') as [Hr' Hz']; [by right|]. split; [done|].
      rewrite Hoth; [done|]. intros Heq. apply Hno. rewrite <- Heq.
      by apply list_elem_of_fmap_2. }
    eexists _, _, _, _, _. split; [done|]. split.
    + cbn. rewrite app_assoc. done.
    + intros x Hx. cbn in Hx. apply not_elem_of_cons in Hx as [Hx1 Hx2].
      rewrite Hoth2, Hoth by done. done.
Qed.

(** What [generate] owes to a pack that stores [objs]. *)
Definition pack_result (objs : list MemoryObject.t) (E : list Execution.t) : Prop :=
  Forall good_exec E ∧ concat (exec_pairs <$> E) = tables_pairs objs.

(** Between packs: the current execution is empty and [tables_batches_] has the
    progress of every table. *)
Definition idle (tb : list Z) (prog : Z → Z) : Prop := cur_inv N len Execution.empty tb [] prog.

Lemma process_pack_spec (tb : list Z) (prog : Z → Z) (ps : list (list Execution.t)) (pack : Z)
    (objs : list MemoryObject.t) :
  idle tb prog → 0 ≤ pack < 2 ^ 8 → ps !! Z.to_nat pack = Some [] →
  vec_at layout pack = Ok objs → NoDup (MemoryObject.id <$> objs) →
  (∀ o, o ∈ objs → 0 ≤ MemoryObject.id o < N ∧ prog (MemoryObject.id o) = 0) →
  ∃ tb' E prog',
    process_pack mb N lengths (gst Execution.empty tb ps) pack =
      Ok (gst Execution.empty tb' (<[Z.to_nat pack := E]> ps)) ∧
    pack_result objs E ∧ idle tb' prog' ∧
    ∀ x, x ∉ MemoryObject.id <$> objs → prog' x = prog x.
Proof.
  intros Hidle Hpk Hps Hlay Hnd Hobj. pose proof Hok as [Hmi Hmf _ _ _ _ _].
  assert (Hlen : pack < Z.of_nat (length ps)) by (apply lookup_lt_Some in Hps; lia).
  unfold process_pack. cbn [tables_layout_ gst]. rewrite Hlay. cbn [rbind].
  assert (H0 : pack_inv Execution.empty tb [] [] [] prog) by (split; cbn; done || lia).
  destruct (process_tables_spec pack ps objs Execution.empty tb [] [] [] prog H0) as
    (e & tb1 & E & P & prog' & Hr & Hinv & Hoth); [done..|].
  rewrite list_insert_id in Hr by done. rewrite Hr. cbn [rbind current_exec_ gst tables_batches_].
  destruct (cur_totals_nonneg _ _ _ _ (pi_cur _ _ _ _ _ _ Hinv)) as (_ & _ & Hpos & Hnil).
  destruct (total_lookups_ e =? 0) eqn:Et; zbool; cbn [negb].
  - destruct P as [|p P]; [|exfalso; destruct Hpos; [done|lia]].
    destruct Hinv as [Hcur HE HD _ _].
    assert (He : e = Execution.empty).
    { pose proof Hcur as [_ [Hnt _ _|l td _ _ _ Hc Hnil' _ _] _ Hl Hb _ Hp].
      - destruct e; cbn in *; subst; done.
      - symmetry in Hnil'. apply chunk_pairs_nonempty in Hnil'; [done|lia]. }
    subst e. exists tb1, E, prog'. split; [done|]. split; [|done]. split; [done|].
    cbn in HD. by rewrite app_nil_r in HD.
  - assert (HP : P ≠ []) by (intros ->; by destruct Hnil).
    destruct (commit_execution_spec e tb1 E P _ prog' ps pack Hinv HP) as
      (e1 & tb2 & e2 & Hc & Hce & [Hcur' HE' HD' _ _]); [done..|].
    rewrite Hc. cbn [rbind]. change (set_current (gst e tb1 ?x) e1 tb2) with (gst e1 tb2 x).
    rewrite Hce. exists tb2, (E ++ [e2]), prog'. split; [done|]. split; [|done].
    split; [done|]. cbn in HD'. by rewrite app_nil_r in HD'.
Qed.

Definition pack_objs (pack : Z) : list MemoryObject.t := default [] (layout !! Z.to_nat pack).

Lemma process_packs_spec (L : list Z) : ∀ tb prog ps,
  idle tb prog → NoDup L →
  (∀ p, p ∈ L → 0 ≤ p < 2 ^ 8 ∧ p < Z.of_nat (length layout) ∧ ps !! Z.to_nat p = Some []) →
  NoDup (MemoryObject.id <$> concat (pack_objs <$> L)) →
  (∀ o, o ∈ concat (pack_objs <$> L) →
     0 ≤ MemoryObject.id o < N ∧ prog (MemoryObject.id o) = 0) →
  ∃ tb' ps',
    rfold (process_pack mb N lengths) (gst Execution.empty tb ps) L =
      Ok (gst Execution.empty tb' ps') ∧
    length ps' = length ps ∧
    (∀ p, p ∈ L → ∃ E, ps' !! Z.to_nat p = Some E ∧ pack_result (pack_objs p) E) ∧
    (∀ p, 0 ≤ p → p ∉ L → ps' !! Z.to_nat p = ps !! Z.to_nat p).
Proof.
  induction L as [|p L IH]; intros tb prog ps Hidle HndL HL Hnd Hobj.
  - exists tb, ps. split; [done|]. split; [done|]. split; [|done]. intros p Hp.
    by apply elem_of_nil in Hp.
  - apply NoDup_cons in HndL as [HpL HndL].
    cbn in Hnd, Hobj. rewrite fmap_app in Hnd. apply NoDup_app in Hnd as (Hnd1 & Hdis & Hnd2).
    destruct (HL p) as (Hp8 & Hplay & Hps); [by left|].
    destruct (process_pack_spec tb prog ps p (pack_objs p)) as
      (tb1 & E & prog1 & Hr & Hres & Hidle1 & Hoth); try done.
    { apply vec_at_Ok. split; [lia|]. unfold pack_objs.
      destruct (lookup_lt_is_Some_2 layout (Z.to_nat p)) as [x Hx]; [lia|]. by rewrite Hx. }
    { intros o Ho. apply Hobj, elem_of_app. by left. }
    cbn [rfold]. rewrite Hr. cbn [rbind].
    destruct (IH tb1 prog1 (<[Z.to_nat p := E]> ps)) as (tb' & ps' & Hr' & Hlen' & Hin & Hout).
    { done. } { done. }
    { intros q Hq. destruct (HL q) as (Hq8 & Hqlay & Hqs); [by right|]. split; [done|]. split; [done|].
      rewrite list_lookup_insert_ne; [done|]. intros Heq.
      apply HpL. replace p with q by lia. done. }
    { done. }
    { intros o Ho. destruct (Hobj o) as [Hr1 Hz]; [apply elem_of_app; by right|].
      split; [done|]. rewrite Hoth; [done|]. intros Hin. apply (Hdis _ Hin).
      by apply list_elem_of_fmap_2. }
    exists tb', ps'. split; [done|]. rewrite length_insert in Hlen'. split; [done|]. split.
    + intros q [->|Hq]%elem_of_cons; [|by apply Hin]. exists E. split; [|done].
      rewrite Hout by (done || lia). apply list_lookup_insert_eq.
      apply lookup_lt_Some in Hps. done.
    + intros q Hq [Hne Hq']%not_elem_of_cons. rewrite Hout by done.
      apply list_lookup_insert_ne. lia.
Qed.

(** The tables of the operation: the layout has a cell per pack and a table
    with an id below [N] is stored in at most one pack. *)
Record layout_ok : Prop := {
  lo_length : Z.of_nat (length layout) = RankMemory.num_of_pack tp;
  lo_packs : RankMemory.num_of_pack tp ≤ 2 ^ 8;
  lo_nodup : NoDup (MemoryObject.id <$> concat (pack_objs <$> RankMemory.pack_identifiers tp));
  lo_ids : ∀ o, o ∈ concat (pack_objs <$> RankMemory.pack_identifiers tp) →
             0 ≤ MemoryObject.id o < N
}.

Lemma generate_spec (e : list (list Execution.t)) :
  layout_ok → Z.of_nat (length e) = RankMemory.num_of_pack tp →
  ∃ tb ps,
    generate tp (gst Execution.empty [] e) mb N lengths = Ok (gst Execution.empty tb ps) ∧
    ∀ p, p ∈ RankMemory.pack_identifiers tp →
      ∃ E, ps !! Z.to_nat p = Some E ∧ pack_result (pack_objs p) E.
Proof.
  intros [Hlen Hpk Hnd Hids] He. pose proof Hok as [Hmi Hmf Hs Hmb HN _ _].
  unfold generate. cbn [max_inst_in_buf_ max_features_in_buf_ sparse_feature_in_bytes_ gst].
  replace (0 <? maxi) with true by lia. replace (0 <? maxf) with true by lia.
  replace (0 <? sfb) with true by lia. replace (0 <? mb) with true by lia.
  replace (0 <? N) with true by lia. cbn [assert rbind].
  set (tb := resize [] N). set (ps := (fun _ : list Execution.t => @nil Execution.t) <$> e).
  change (set_packs _ _) with (gst Execution.empty tb ps).
  destruct (process_packs_spec (RankMemory.pack_identifiers tp) tb (fun _ => 0) ps) as
    (tb' & ps' & Hr & _ & Hin & _).
  - apply cur_inv_empty; unfold tb, resize; rewrite take_nil, Nat.sub_0_r; cbn [app].
    + rewrite length_replicate. lia.
    + intros t Ht. split; [|lia]. by apply lookup_replicate_2; lia.
  - apply NoDup_pack_identifiers.
  - intros p Hp%elem_of_pack_identifiers. split; [lia|]. split; [lia|].
    unfold ps. rewrite list_lookup_fmap.
    destruct (lookup_lt_is_Some_2 e (Z.to_nat p)) as [x ->]; [lia|done].
  - done.
  - intros o Ho. auto.
  - exists tb', ps'. split; [exact Hr|exact Hin].
Qed.
End generator.

(** ** Theorems *)
Import ExecutionGenerator.

(** Property C10.  For an operation whose batches fit the instruction buffer,
    [generate] on a fresh generator trips no assertion and gives every pack
    executions that, one after the other, list every (table, batch) pair of the
    pack's tables exactly once and in order; each execution's counters are those
    of its pairs and stay within the instruction and psum buffers, and every
    chunk's batch offset is set. *)
Theorem generate_partitions_batches (tp : Constants) (layout : RankMemory.packs_to_objects)
    (maxi maxf sfb mb N : Z) (lengths : list Z) :
  params_ok maxi maxf sfb mb N lengths → layout_ok tp layout N →
  ∃ g, generate tp (init (ExecutionGenerator.empty tp) layout maxi maxf sfb) mb N lengths = Ok g ∧
    ∀ p, 1 ≤ p < RankMemory.num_of_pack tp → ∃ E,
      get_pack_execs g p = Ok E ∧
      concat (exec_pairs <$> E) = tables_pairs mb (pack_objs layout p) ∧
      Forall (good_exec maxi maxf sfb mb lengths) E.
Proof.
  intros Hok Hlay.
  destruct (generate_spec tp layout maxi maxf sfb mb N lengths Hok
    (RankMemory.make_packs_array tp [])) as (tb & ps & Hg & Hp).
  - done.
  - unfold RankMemory.make_packs_array. rewrite length_replicate, Z2Nat.id; [done|].
    unfold RankMemory.num_of_pack. rewrite Z.shiftl_1_l. apply Z.pow_nonneg. lia.
  - eexists. split; [exact Hg|]. intros p Hr. destruct Hlay as [_ Hpk _ _].
    destruct (Hp p) as (E & HE & HF & Hc); [by apply elem_of_pack_identifiers|].
    exists E. split; [|done]. unfold get_pack_execs. cbn.
    replace (u8 p) with p by (unfold u8; rewrite Z.mod_small; lia).
    apply vec_at_Ok. split; [lia|done].
Qed.

(** Two tables of three batches in one pack of a two-unit topology; at most four
    lookups and two vectors per execution. *)
Definition sample_layout : RankMemory.packs_to_objects :=
  [[]; [MemoryObject.make 1 640 2; MemoryObject.make 0 640 2]; []; []].

Definition sample_lengths : list Z := [1; 4; 2; 3; 1; 1].

Lemma sample_params_ok : params_ok 4 2 64 3 2 sample_lengths.
Proof. split; try lia; [reflexivity|]. repeat constructor; lia. Qed.

Lemma sample_layout_ok (tp : Constants) : NumOfCUnits tp = 2 → layout_ok tp sample_layout 2.
Proof.
  intros E. assert (En : RankMemory.num_of_pack tp = 4).
  { unfold RankMemory.num_of_pack. by rewrite E. }
  assert (Ec : concat (pack_objs sample_layout <$> RankMemory.pack_identifiers tp) =
    [MemoryObject.make 1 640 2; MemoryObject.make 0 640 2]).
  { unfold RankMemory.pack_identifiers. rewrite En. reflexivity. }
  split; rewrite ?En, ?Ec; [done|lia| |].
  - cbn. apply NoDup_cons. split; [|apply NoDup_singleton].
    intros H%list_elem_of_singleton. lia.
  - intros o Ho. apply elem_of_cons in Ho as [->|Ho]; [cbn; lia|].
    apply list_elem_of_singleton in Ho as ->. cbn; lia.
Qed.

Definition sample_cunits (n : Z) : Constants :=
  mkConstants AXDIMM n 0x40000 2 0x40000 2 0x40000 2 8 256 16 0x2040 0x2080 0x20c0 4.

Lemma generate_partitions_batches_witness : ∃ g E,
  generate (sample_cunits 2) (init (ExecutionGenerator.empty (sample_cunits 2)) sample_layout 4 2 64)
    3 2 sample_lengths = Ok g ∧
  get_pack_execs g 1 = Ok E ∧
  concat (exec_pairs <$> E) = [(1, 0); (1, 1); (1, 2); (0, 0); (0, 1); (0, 2)].
Proof.
  destruct (generate_partitions_batches (sample_cunits 2) sample_layout 4 2 64 3 2 sample_lengths)
    as (g & Hg & Hp); [exact sample_params_ok | by apply sample_layout_ok |].
  destruct (Hp 1) as (E & HE & Hc & _); [vm_compute; split; congruence|].
  exists g, E. auto.
Defined.
