(* ===== verification/TraceGenerator.v ===== *)
(** * Instruction traces

    sls/operation/ir.h, trace_generator_core.{h,cpp} and trace_generator.h: the
    intermediate instructions of an execution, and their compilation by an
    instruction generator, which is the template parameter of [TraceGenerator]
    and a class here.

    A pointer into the user's lengths or indices is the list of the elements it
    can read. *)
From S2P Require Import Prelude Topology InstGenerator RankMemory ExecutionGenerator.

(** ** The instruction generator as an interface *)
Class InstructionGenerator := {
  make_empty_instruction : Z → Z → DecodedInst;
  encode_instruction : DecodedInst → result Z;
  decode_instruction : Z → DecodedInst;
  encode_address_from_instruction : DecodedInst → Z;
  decode_address_to_instruction : Z → DecodedInst → result DecodedInst
}.

Definition set_end (i : DecodedInst) : DecodedInst :=
  mkInst (opcode i) (local_bit i) (output_idx i) 1 (row i) (bankgroup i) (bank i) (column i).

(** What the trace generator and the device rely on. *)
Class InstructionGeneratorLaws (G : InstructionGenerator) : Prop := {
  ig_empty : ∀ opc out, make_empty_instruction opc out = mkInst opc 0 out 0 0 0 0 0;
  ig_word : ∀ i, inst_wf i →
    ∃ w, encode_instruction i = Ok w ∧ 0 ≤ w < 2 ^ 64 ∧ decode_instruction w = i;
  ig_trace_end : ∀ i w, inst_wf i → trace_end i = 0 → encode_instruction i = Ok w →
    decode_instruction (Z.lor w (Z.shiftl 1 INSTR_TRACE_END_OFFSET)) = set_end i;
  ig_address : ∀ a i, addressable a → inst_wf i →
    ∃ i', decode_address_to_instruction a i = Ok i' ∧ inst_wf i' ∧ same_op i i' ∧
          encode_address_from_instruction i' = a ∧
          encode_address_from_instruction (set_end i') = a
}.

#[export] Instance Ranked (DEBUG : bool) : InstructionGenerator := {
  make_empty_instruction := RankedInstGenerator.make_empty_instruction;
  encode_instruction := RankedInstGenerator.encode_instruction DEBUG;
  decode_instruction := RankedInstGenerator.decode_instruction;
  encode_address_from_instruction := RankedInstGenerator.encode_address_from_instruction;
  decode_address_to_instruction := RankedInstGenerator.decode_address_to_instruction
}.

#[export] Instance Channel (DEBUG : bool) : InstructionGenerator := {
  make_empty_instruction := ChannelInstGenerator.make_empty_instruction;
  encode_instruction := ChannelInstGenerator.encode_instruction DEBUG;
  decode_instruction := ChannelInstGenerator.decode_instruction;
  encode_address_from_instruction := ChannelInstGenerator.encode_address_from_instruction;
  decode_address_to_instruction := ChannelInstGenerator.decode_address_to_instruction
}.

(** ** ir.h *)
Record InstructionIR := mkIR {
  ir_opcode : Z;
  output_index : Z;
  address : Z
}.

Definition encode_ir (opc output_index table_addr : Z) : InstructionIR :=
  mkIR opc output_index table_addr.

(** ** trace_generator_core *)
Module TraceGeneratorCore.

Record t := mk {
  bytes_per_row_full_ : Z;
  max_tables_rows_num_ : Z
}.

Definition empty : t := mk 0 0.

Definition init_mapping (sparse_feature_size_full max_tables_rows_num : Z) : t :=
  mk (u32 sparse_feature_size_full) max_tables_rows_num.

Definition init (tp : Constants) (sparse_feature_size max_tables_rows_num : Z)
    (is_tagged : bool) : t :=
  let extended_spase_feature_size :=
    u64 (sparse_feature_size + (if is_tagged then AlignedTagSize tp else 0)) in
  init_mapping extended_spase_feature_size max_tables_rows_num.

(** The product is computed in [uint32_t]. *)
Definition get_phys_address (c : t) (table_row_idx offset : Z) : result Z :=
  let! _ := assert (table_row_idx <? max_tables_rows_num_ c) in
  Ok (u64 (offset + u32 (table_row_idx * bytes_per_row_full_ c))).

Definition write_ir (c : t) (opc output_idx table_row_idx offset : Z)
    (trace : list InstructionIR) : result (list InstructionIR) :=
  let! addr := get_phys_address c table_row_idx offset in
  Ok (trace ++ [encode_ir opc output_idx addr]).

(** The body of the [for] loop over batches: the trace, [has_available_lookup]
    and [batch_index_base - index]. *)
Definition visit_batch (c : t) (cunit_offset : Z) (length : list Z) (index : list Z)
    (psum_id_base instruction_type lookup_offset : Z)
    (s : list InstructionIR * bool * Z) (batch_id : Z)
  : result (list InstructionIR * bool * Z) :=
  let '(trace, has_available_lookup, batch_index_base) := s in
  let! len := vec_at length batch_id in
  let! (trace, has_available_lookup) :=
    (if lookup_offset <? len then
       let! row_idx := vec_at index (batch_index_base + lookup_offset) in
       let! trace := write_ir c instruction_type (u32 (psum_id_base + batch_id)) row_idx
                       cunit_offset trace in
       Ok (trace, true)
     else Ok (trace, has_available_lookup)) in
  Ok (trace, has_available_lookup, batch_index_base + len).

(** The [while] loop from the start of an iteration; returns the trace and the
    number of processed indices. *)
Fixpoint columns (fuel : nat) (c : t) (cunit_offset : Z) (length : list Z)
    (batches_count : Z) (index : list Z) (psum_id_base instruction_type lookup_offset : Z)
    (trace : list InstructionIR) : result (list InstructionIR * Z) :=
  match fuel with
  | O => Err OutOfFuel
  | S fuel' =>
      let! (trace, has_available_lookup, batch_index_base) :=
        rfold (visit_batch c cunit_offset length index psum_id_base instruction_type
                 lookup_offset) (trace, false, 0) (range batches_count) in
      if has_available_lookup : bool
      then columns fuel' c cunit_offset length batches_count index psum_id_base
             instruction_type (u64 (lookup_offset + 1)) trace
      else Ok (trace, batch_index_base)
  end.

(** One iteration per column and a last one that finds nothing. *)
Definition columns_fuel (length : list Z) (batches_count : Z) : nat :=
  S (Z.to_nat (foldr Z.max 0 (take (Z.to_nat batches_count) length))).

Definition write_object_trace (c : t) (cunit_offset : Z) (length : list Z)
    (batches_count : Z) (index : list Z) (psum_id_base instruction_type : Z)
    (trace : list InstructionIR) : result (list InstructionIR * Z) :=
  columns (columns_fuel length batches_count) c cunit_offset length batches_count index
    psum_id_base instruction_type 0 trace.

(** The body of the loop over the tables of an execution: the trace and
    [batch_offset]. *)
Definition write_table (c : t) (tables_data : list Execution.TableData)
    (lengths indices : list (list Z)) (type compute_unit : Z)
    (objects : list MemoryObject.t) (s : list InstructionIR * Z) (table_idx : Z)
  : result (list InstructionIR * Z) :=
  let '(trace, batch_offset) := s in
  let! td := vec_at tables_data table_idx in
  let! object := of_option AssertionFailed
    (find (fun o => MemoryObject.id o =? Execution.table_id_ td) objects) in
  let! off := MemoryObject.offset object compute_unit in
  let! length := vec_at lengths table_idx in
  let! index := vec_at indices table_idx in
  let! (trace, _) := write_object_trace c off length (Execution.table_batches_chunk_ td)
                       index batch_offset type trace in
  Ok (trace, u32 (batch_offset + Execution.table_batches_chunk_ td)).

Definition generate_instructions (c : t) (exec : Execution.t) (lengths indices : list (list Z))
    (type compute_unit : Z) (objects : list MemoryObject.t) (trace : list InstructionIR)
  : result (list InstructionIR) :=
  let tables_data := Execution.get_tables_data exec in
  let! (trace, _) :=
    rfold (write_table c tables_data lengths indices type compute_unit objects)
      (trace, 0) (range (Z.of_nat (length tables_data))) in
  Ok trace.

End TraceGeneratorCore.

(** ** trace_generator.h *)
Module TraceGenerator.
Section with_generator.
Context {G : InstructionGenerator}.

Record t := mk {
  bytes_per_row_ : Z;
  core_ : TraceGeneratorCore.t;
  trace_ : list Z;
  ir_ : list InstructionIR
}.

Definition init (tp : Constants) (g : t) (sparse_feature_size max_tables_rows_num : Z)
    (is_tagged : bool) : t :=
  mk sparse_feature_size
     (TraceGeneratorCore.init tp sparse_feature_size max_tables_rows_num is_tagged)
     (trace_ g) (ir_ g).

Definition write_header (bytes_per_row : Z) (is_tagged : bool) : Z :=
  Z.lor (Z.lor 0 (Z.land (bytes_per_row / 128) INSTR_HEADER_VSIZE_MASK))
        (Z.shiftl (Z.b2z is_tagged) INSTR_HEADER_TAGBIT_POS).

Definition compile_func (instruction : InstructionIR) : result Z :=
  let inst := make_empty_instruction (ir_opcode instruction) (output_index instruction) in
  let! inst := decode_address_to_instruction (address instruction) inst in
  encode_instruction inst.

Definition compile (ir : list InstructionIR) : result (list Z) :=
  rfold (fun acc i => let! w := compile_func i in Ok (acc ++ [w])) [] ir.

(** [trace_.back() |= 1UL << INSTR_TRACE_END_OFFSET] *)
Fixpoint set_trace_end (trace : list Z) : list Z :=
  match trace with
  | [] => []
  | [w] => [Z.lor w (Z.shiftl 1 INSTR_TRACE_END_OFFSET)]
  | w :: trace' => w :: set_trace_end trace'
  end.

Definition generate_instructions (g : t) (exec : Execution.t) (lengths indices : list (list Z))
    (type compute_unit : Z) (objects : list MemoryObject.t) (is_tagged : bool) : result t :=
  let! ir := TraceGeneratorCore.generate_instructions (core_ g) exec lengths indices type
               compute_unit objects [] in
  let header := write_header (bytes_per_row_ g) is_tagged in
  let! code := compile ir in
  Ok (mk (bytes_per_row_ g) (core_ g) (set_trace_end (header :: code)) ir).

End with_generator.
End TraceGenerator.

(** ** Both generators satisfy the interface *)
Lemma set_end_wf (i : DecodedInst) : inst_wf i → inst_wf (set_end i).
Proof. intros []. split; cbn; done || lia. Qed.

Lemma pack_fields_set_end (i : DecodedInst) :
  inst_wf i → trace_end i = 0 →
  Z.lor (RankedInstGenerator.pack_fields i) (Z.shiftl 1 INSTR_TRACE_END_OFFSET) =
  RankedInstGenerator.pack_fields (set_end i).
Proof.
  intros Hi Ht. rewrite Z.shiftl_1_l. change INSTR_TRACE_END_OFFSET with 48.
  destruct (pack_fields_arith i Hi) as [E _].
  destruct (pack_fields_arith (set_end i) (set_end_wf i Hi)) as [E' _].
  rewrite E, E'. cbn [opcode local_bit output_idx trace_end row bankgroup bank column set_end].
  rewrite Ht. destruct Hi.
  rewrite lor_fresh_bit by dlia. pow_consts. lia.
Qed.

#[export] Instance Ranked_laws (DEBUG : bool) : InstructionGeneratorLaws (Ranked DEBUG).
Proof.
  split.
  - done.
  - intros i Hi. exists (RankedInstGenerator.pack_fields i). cbn.
    split; [by apply encode_instruction_ok|]. split; [by apply pack_fields_arith|].
    by apply decode_pack.
  - intros i w Hi Ht Hw. cbn in *. rewrite encode_instruction_ok in Hw by done.
    injection Hw as <-. rewrite pack_fields_set_end by done. by apply decode_pack, set_end_wf.
  - intros a i Ha Hi. destruct (decoded_ranges a) as (R1 & R2 & R3 & R4).
    cbn [decode_address_to_instruction encode_address_from_instruction Ranked].
    rewrite decode_address_arith by (destruct Ha; dlia). eexists. split; [done|].
    destruct Hi. split; [split; done|]. split; [split_and!; done|].
    split; [|unfold set_end; cbn [opcode local_bit output_idx row bankgroup bank column]];
      apply encode_decoded_address; done || lia.
Qed.

#[export] Instance Channel_laws (DEBUG : bool) : InstructionGeneratorLaws (Channel DEBUG).
Proof.
  destruct (Ranked_laws DEBUG) as [He Hw Ht _]. split; [exact He|exact Hw|exact Ht|].
  intros a i Ha Hi. destruct (decoded_ranges a) as (R1 & _ & _ & R4).
  pose proof (bit_range a 12). pose proof (bit_range a 13).
  pose proof (bit_range a 19). pose proof (bit_range a 20).
  cbn [decode_address_to_instruction encode_address_from_instruction Channel].
  rewrite channel_decode_address_arith by (destruct Ha; dlia). eexists. split; [done|].
  destruct Hi. split; [split; cbn; pow_consts; lia|]. split; [split_and!; done|].
  split; [|unfold set_end; cbn [opcode local_bit output_idx row bankgroup bank column]];
    apply channel_encode_decoded; done || lia.
Qed.

(** ** Column-major order *)

(** [concat (map f l)], the shape of every nested loop below. *)
Definition flat {A B} (f : A → list B) (l : list A) : list B := concat (f <$> l).

Lemma flat_app {A B} (f : A → list B) (l k : list A) : flat f (l ++ k) = flat f l ++ flat f k.
Proof. unfold flat. by rewrite fmap_app, concat_app. Qed.

Lemma flat_ext {A B} (f g : A → list B) (l : list A) :
  (∀ x, x ∈ l → f x = g x) → flat f l = flat g l.
Proof.
  intros H. unfold flat. f_equal. apply list_fmap_ext. intros i x Hx.
  by apply H, list_elem_of_lookup_2 with i.
Qed.

Lemma flat_nil {A B} (l : list A) : flat (fun _ => @nil B) l = [].
Proof. induction l; [done|]. unfold flat in *. cbn. done. Qed.

Lemma flat_app_fun {A B} (f g : A → list B) (l : list A) :
  flat (fun x => f x ++ g x) l ≡ₚ flat f l ++ flat g l.
Proof.
  induction l as [|x l IH]; [done|]. unfold flat in *. cbn. rewrite IH.
  rewrite <- !app_assoc. apply Permutation_app_head.
  rewrite !app_assoc. apply Permutation_app_tail, Permutation_app_comm.
Qed.

(** Two nested loops may be exchanged up to the order of what they emit. *)
Lemma flat_swap {A B C} (f : A → B → list C) (l : list A) (k : list B) :
  flat (fun x => flat (f x) k) l ≡ₚ flat (fun y => flat (fun x => f x y) l) k.
Proof.
  induction l as [|x l IH].
  - rewrite (flat_ext (fun y => flat (fun x => f x y) []) (fun _ => [])) by done.
    by rewrite flat_nil.
  - change (flat ?g (x :: l)) with (g x ++ flat g l). rewrite IH.
    rewrite <- flat_app_fun. done.
Qed.

Section object_trace.
Import TraceGeneratorCore.
Context (c : TraceGeneratorCore.t) (cunit_offset psum_id_base type : Z).
(** The lengths of the chunk's batches, the lookups the pointer can read and
    the indices behind the chunk. *)
Context (lens rest index : list Z).

Definition nb : Z := Z.of_nat (length lens).
Definition batch_start (b : Z) : Z := sum_list_Z (take (Z.to_nat b) lens).
Definition batch_len (b : Z) : Z := default 0 (lens !! Z.to_nat b).
Definition row_of (b k : Z) : Z := default 0 (index !! Z.to_nat (batch_start b + k)).

(** The instruction that the code emits for lookup [k] of batch [b], with the widths of
    its computations. *)
Definition emitted_ir (b k : Z) : InstructionIR :=
  mkIR type (u32 (psum_id_base + b))
       (u64 (cunit_offset + u32 (row_of b k * bytes_per_row_full_ c))).

(** The chunk's inputs: lengths fit [uint32_t], every index is available and
    below the number of rows. *)
Record chunk_ok : Prop := {
  ck_lens : Forall (fun x => 0 ≤ x < 2 ^ 32) lens;
  ck_index : sum_list_Z lens ≤ Z.of_nat (length index);
  ck_rows : ∀ b k, 0 ≤ b < nb → 0 ≤ k < batch_len b → row_of b k < max_tables_rows_num_ c
}.
Context (Hok : chunk_ok).

Lemma batch_start_succ (b : Z) :
  0 ≤ b < nb → batch_start (b + 1) = batch_start b + batch_len b.
Proof.
  intros Hb. unfold batch_start, batch_len. rewrite Z2Nat.inj_add by lia.
  change (Z.to_nat 1) with 1%nat. rewrite Nat.add_1_r.
  destruct (lookup_lt_is_Some_2 lens (Z.to_nat b)) as [x Hx]; [unfold nb in Hb; lia|].
  rewrite Hx, (take_S_r _ _ _ Hx), sum_list_Z_app. unfold sum_list_Z. cbn. lia.
Qed.

Lemma batch_len_range (b : Z) : 0 ≤ b < nb → 0 ≤ batch_len b < 2 ^ 32.
Proof.
  intros Hb. unfold batch_len.
  destruct (lookup_lt_is_Some_2 lens (Z.to_nat b)) as [x Hx]; [unfold nb in Hb; lia|].
  rewrite Hx. apply (proj1 (Forall_lookup _ _) (ck_lens Hok) _ _ Hx).
Qed.

Lemma lens_nonneg : Forall (Z.le 0) lens.
Proof. eapply Forall_impl; [apply (ck_lens Hok)|]. cbn. lia. Qed.

Lemma batch_start_nonneg (b : Z) : 0 ≤ batch_start b.
Proof. apply sum_list_Z_nonneg, Forall_take, lens_nonneg. Qed.

Lemma batch_start_total (b : Z) : batch_start b ≤ sum_list_Z lens.
Proof.
  unfold batch_start. rewrite <- (take_drop (Z.to_nat b) lens) at 2. rewrite sum_list_Z_app.
  pose proof (sum_list_Z_nonneg _ (Forall_drop _ (Z.to_nat b) _ lens_nonneg)). lia.
Qed.

Lemma row_of_lookup (b k : Z) :
  0 ≤ b < nb → 0 ≤ k < batch_len b → vec_at index (batch_start b + k) = Ok (row_of b k).
Proof.
  intros Hb Hk. pose proof (batch_start_nonneg b). apply vec_at_Ok. split; [lia|].
  assert (batch_start b + batch_len b ≤ sum_list_Z lens).
  { rewrite <- batch_start_succ by done. apply batch_start_total. }
  pose proof (ck_index Hok). unfold row_of.
  destruct (lookup_lt_is_Some_2 index (Z.to_nat (batch_start b + k))) as [x Hx]; [lia|].
  by rewrite Hx.
Qed.

Lemma batch_len_lookup (b : Z) : 0 ≤ b < nb → vec_at (lens ++ rest) b = Ok (batch_len b).
Proof.
  intros Hb. apply vec_at_Ok. split; [lia|]. unfold batch_len, nb in *.
  destruct (lookup_lt_is_Some_2 lens (Z.to_nat b)) as [x Hx]; [lia|].
  by rewrite (lookup_app_l_Some _ _ _ _ Hx), Hx.
Qed.

(** What the [for] loop emits for batch [b] in column [k]. *)
Definition emit (k b : Z) : list InstructionIR :=
  if k <? batch_len b then [emitted_ir b k] else [].

Lemma visit_batch_spec (k b : Z) (trace : list InstructionIR) (has : bool) :
  0 ≤ k → 0 ≤ b < nb →
  visit_batch c cunit_offset (lens ++ rest) index psum_id_base type k
    (trace, has, batch_start b) b =
  Ok (trace ++ emit k b, has || (k <? batch_len b), batch_start (b + 1)).
Proof.
  intros Hk Hb. unfold visit_batch, emit. rewrite batch_len_lookup by done. cbn [rbind].
  destruct (k <? batch_len b) eqn:E; zbool.
  - rewrite row_of_lookup by lia. cbn [rbind]. unfold write_ir, get_phys_address.
    assert ((row_of b k <? max_tables_rows_num_ c) = true) as ->.
    { apply Z.ltb_lt, (ck_rows Hok); lia. }
    cbn [assert rbind]. by rewrite batch_start_succ, orb_true_r.
  - cbn [rbind]. by rewrite app_nil_r, orb_false_r, batch_start_succ.
Qed.

Lemma visit_batches_spec (k : Z) (trace : list InstructionIR) (n : nat) :
  0 ≤ k → Z.of_nat n ≤ nb →
  rfold (visit_batch c cunit_offset (lens ++ rest) index psum_id_base type k)
    (trace, false, 0) (range (Z.of_nat n)) =
  Ok (trace ++ flat (emit k) (range (Z.of_nat n)),
      existsb (fun b => k <? batch_len b) (range (Z.of_nat n)), batch_start (Z.of_nat n)).
Proof.
  intros Hk. induction n as [|n IH]; intros Hn.
  - cbn. by rewrite app_nil_r.
  - replace (Z.of_nat (S n)) with (Z.of_nat n + 1) by lia.
    rewrite range_succ, rfold_app, IH by lia. cbn [rbind rfold].
    rewrite visit_batch_spec by lia. cbn [rbind].
    rewrite flat_app, existsb_app, app_assoc. cbn [existsb].
    unfold flat at 3; cbn. by rewrite app_nil_r, orb_false_r.
Qed.

Definition max_len : Z := foldr Z.max 0 lens.

Lemma max_len_spec (k : Z) :
  0 ≤ k → existsb (fun b => k <? batch_len b) (range nb) = (k <? max_len).
Proof.
  intros Hk. unfold max_len. apply eq_true_iff_eq. rewrite existsb_exists, Z.ltb_lt.
  assert (H : k < foldr Z.max 0 lens ↔ ∃ x, x ∈ lens ∧ k < x).
  { clear Hok rest index. induction lens as [|x l IH]; cbn.
    - split; [lia|]. intros (x & Hx & _). by apply elem_of_nil in Hx.
    - split.
      + intros Hlt. destruct (Z.le_gt_cases x k).
        * destruct (proj1 IH) as (y & Hy & Hky); [lia|]. exists y. split; [by right|done].
        * exists x. split; [by left|lia].
      + intros (y & [->|Hy]%elem_of_cons & Hky); [lia|].
        assert (k < foldr Z.max 0 l) by (apply IH; eauto). lia. }
  rewrite H. split.
  - intros (b & Hb & Hlt). zbool. apply list_elem_of_In, elem_of_range in Hb.
    exists (batch_len b). split; [|done]. unfold batch_len, nb in *.
    destruct (lookup_lt_is_Some_2 lens (Z.to_nat b)) as [x Hx]; [lia|].
    rewrite Hx. cbn. by eapply list_elem_of_lookup_2.
  - intros (x & [i Hi]%list_elem_of_lookup_1 & Hlt). exists (Z.of_nat i).
    pose proof (lookup_lt_Some _ _ _ Hi). split.
    + apply list_elem_of_In, elem_of_range. unfold nb. lia.
    + unfold batch_len. rewrite Nat2Z.id, Hi. cbn. by apply Z.ltb_lt.
Qed.

Lemma max_len_range : 0 ≤ max_len < 2 ^ 32.
Proof.
  unfold max_len. pose proof (ck_lens Hok) as H. clear Hok.
  induction H as [|x l Hx _ IH]; cbn; lia.
Qed.

(** Columns [k], [k + 1], ..., [max_len - 1]. *)
Definition columns_from (k : Z) : list InstructionIR :=
  flat (fun j => flat (emit (k + j)) (range nb)) (range (max_len - k)).

Lemma range_cons (n : Z) : 0 < n → range n = 0 :: ((fun i => 1 + i) <$> range (n - 1)).
Proof.
  intros Hn. unfold range. replace (Z.to_nat n) with (S (Z.to_nat (n - 1))) by lia.
  cbn [seq fmap list_fmap]. f_equal. rewrite <- fmap_S_seq, <- !list_fmap_compose.
  apply list_fmap_ext. intros i x _. unfold compose. lia.
Qed.

Lemma columns_from_step (k : Z) :
  k < max_len → columns_from k = flat (emit k) (range nb) ++ columns_from (k + 1).
Proof.
  intros Hk. unfold columns_from. rewrite (range_cons (max_len - k)) by lia.
  replace (max_len - k - 1) with (max_len - (k + 1)) by lia.
  unfold flat at 1. cbn [fmap list_fmap concat]. rewrite Z.add_0_r. f_equal.
  unfold flat at 2. f_equal. rewrite <- list_fmap_compose.
  apply list_fmap_ext. intros i x _. cbn. by rewrite Z.add_assoc.
Qed.

Lemma columns_spec (fuel : nat) : ∀ (k : Z) (trace : list InstructionIR),
  0 ≤ k ≤ max_len → max_len - k = Z.of_nat fuel →
  columns (S fuel) c cunit_offset (lens ++ rest) nb index psum_id_base type k trace =
  Ok (trace ++ columns_from k, sum_list_Z lens).
Proof.
  assert (Hst : batch_start nb = sum_list_Z lens).
  { unfold batch_start, nb. rewrite Nat2Z.id, firstn_all. done. }
  pose proof max_len_range as Hm.
  induction fuel as [|fuel IH]; intros k trace Hk Hf.
  - cbn [columns]. unfold nb at 1. rewrite visit_batches_spec by (unfold nb; lia). fold nb.
    cbn [rbind]. rewrite max_len_spec by lia. replace (k <? max_len) with false by lia.
    rewrite Hst. replace (columns_from k) with (flat (emit k) (range nb)); [done|].
    unfold columns_from. replace (max_len - k) with 0 by lia. change (range 0) with (@nil Z).
    transitivity (@nil InstructionIR); [|done].
    rewrite (flat_ext _ (fun _ => [])); [apply flat_nil|]. intros b Hb%elem_of_range.
    unfold emit. replace (k <? batch_len b) with false; [done|]. symmetry.
    apply Z.ltb_ge. destruct (Z.le_gt_cases (batch_len b) k); [done|exfalso].
    assert (existsb (fun b => k <? batch_len b) (range nb) = true) as E.
    { apply existsb_exists. exists b. split; [by apply list_elem_of_In, elem_of_range|].
      by apply Z.ltb_lt. }
    rewrite max_len_spec in E by lia. zbool. lia.
  - remember (S fuel) as f eqn:Ef. cbn [columns]. subst f.
    unfold nb at 1. rewrite visit_batches_spec by (unfold nb; lia). fold nb. cbn [rbind].
    rewrite max_len_spec by lia. replace (k <? max_len) with true by lia.
    rewrite u64_small by lia. rewrite IH by lia.
    rewrite (columns_from_step k), app_assoc by lia. done.
Qed.

Lemma write_object_trace_spec (trace : list InstructionIR) :
  write_object_trace c cunit_offset (lens ++ rest) nb index psum_id_base type trace =
  Ok (trace ++ columns_from 0, sum_list_Z lens).
Proof.
  pose proof max_len_range. unfold write_object_trace, columns_fuel.
  unfold nb at 1. rewrite Nat2Z.id, take_app_length. fold max_len.
  apply columns_spec; lia.
Qed.

(** The instructions of batch [b], in the order of its lookups. *)
Definition batch_ir (b : Z) : list InstructionIR := emitted_ir b <$> range (batch_len b).

Lemma batch_len_max (b : Z) : 0 ≤ b < nb → batch_len b ≤ max_len.
Proof.
  intros Hb. destruct (Z.le_gt_cases (batch_len b) max_len); [done|].
  pose proof max_len_range.
  assert (existsb (fun b => max_len <? batch_len b) (range nb) = true) as E.
  { apply existsb_exists. exists b. split; [by apply list_elem_of_In, elem_of_range|].
    by apply Z.ltb_lt. }
  rewrite max_len_spec in E by lia. zbool. lia.
Qed.

Lemma flat_prefix {A} (f : Z → A) (n : nat) (m : Z) :
  0 ≤ m ≤ Z.of_nat n →
  flat (fun j => if j <? m then [f j] else []) (range (Z.of_nat n)) = f <$> range m.
Proof.
  revert m. induction n as [|n IH]; intros m Hm; [by replace m with 0 by lia|].
  replace (Z.of_nat (S n)) with (Z.of_nat n + 1) by lia.
  rewrite range_succ, flat_app by lia. unfold flat at 2; cbn. rewrite app_nil_r.
  destruct (decide (m = Z.of_nat n + 1)) as [->|].
  - rewrite range_succ, fmap_app by lia. cbn.
    replace (Z.of_nat n <? Z.of_nat n + 1) with true by lia. f_equal.
    rewrite <- (IH (Z.of_nat n)) by lia. apply flat_ext. intros j Hj%elem_of_range.
    by replace (j <? Z.of_nat n + 1) with (j <? Z.of_nat n) by lia.
  - replace (Z.of_nat n <? m) with false by lia. rewrite app_nil_r. apply IH. lia.
Qed.

Lemma columns_permutation : columns_from 0 ≡ₚ flat batch_ir (range nb).
Proof.
  unfold columns_from. rewrite Z.sub_0_r.
  rewrite (flat_swap (fun j b => emit (0 + j) b)).
  pose proof max_len_range.
  rewrite (flat_ext _ batch_ir); [done|]. intros b Hb%elem_of_range.
  rewrite (flat_ext _ (fun j => if j <? batch_len b then [emitted_ir b j] else [])) by done.
  pose proof (batch_len_max b Hb). pose proof (batch_len_range b Hb).
  replace max_len with (Z.of_nat (Z.to_nat max_len)) by lia.
  apply flat_prefix. lia.
Qed.
End object_trace.

(** ** The trace of an execution *)
Section execution_trace.
Import TraceGeneratorCore.
Context (c : TraceGeneratorCore.t) (tds : list Execution.TableData).
Context (lengths indices : list (list Z)) (type compute_unit : Z) (objects : list MemoryObject.t).

Definition chunk_of (td : Execution.TableData) : Z := Execution.table_batches_chunk_ td.

(** The rank offset of a table, its chunk's lengths and the indices behind it. *)
Definition table_offset (td : Execution.TableData) : Z :=
  match find (fun o => MemoryObject.id o =? Execution.table_id_ td) objects with
  | Some o => match MemoryObject.offset o compute_unit with Ok off => off | Err _ => 0 end
  | None => 0
  end.

Definition table_lens (i : nat) (td : Execution.TableData) : list Z :=
  take (Z.to_nat (chunk_of td)) (default [] (lengths !! i)).

Definition table_index (i : nat) : list Z := default [] (indices !! i).

(** Position of table [i]'s first vector in the psum buffer. *)
Definition table_start (i : nat) : Z := sum_list_Z (chunk_of <$> take i tds).

Record table_ok (i : nat) (td : Execution.TableData) : Prop := {
  to_object : ∃ o off,
    find (fun o => MemoryObject.id o =? Execution.table_id_ td) objects = Some o ∧
    MemoryObject.offset o compute_unit = Ok off;
  to_chunk : 0 ≤ chunk_of td;
  to_lens : is_Some (lengths !! i) ∧ length (table_lens i td) = Z.to_nat (chunk_of td);
  to_index : is_Some (indices !! i);
  to_inputs : chunk_ok c (table_lens i td) (table_index i)
}.

Context (Htables : ∀ i td, tds !! i = Some td → table_ok i td).
Context (Htotal : sum_list_Z (chunk_of <$> tds) < 2 ^ 32).

Definition table_trace (i : nat) : list InstructionIR :=
  match tds !! i with
  | Some td => columns_from c (table_offset td) (table_start i) type (table_lens i td)
                 (table_index i) 0
  | None => []
  end.

Lemma table_start_succ (i : nat) (td : Execution.TableData) :
  tds !! i = Some td → table_start (S i) = table_start i + chunk_of td.
Proof.
  intros H. unfold table_start. rewrite (take_S_r _ _ _ H), fmap_app, sum_list_Z_app.
  unfold sum_list_Z. cbn. lia.
Qed.

Lemma chunks_nonneg : Forall (Z.le 0) (chunk_of <$> tds).
Proof.
  apply Forall_fmap, Forall_lookup. intros i td H. exact (to_chunk _ _ (Htables _ _ H)).
Qed.

Lemma table_start_range (i : nat) : 0 ≤ table_start i ≤ sum_list_Z (chunk_of <$> tds).
Proof.
  unfold table_start. pose proof chunks_nonneg as H.
  rewrite <- (take_drop i tds), fmap_app in H. apply Forall_app in H as [H1 H2].
  apply sum_list_Z_nonneg in H1, H2.
  rewrite <- (take_drop i tds) at 3. rewrite fmap_app, sum_list_Z_app. lia.
Qed.

Lemma write_table_spec (trace : list InstructionIR) (i : nat) (td : Execution.TableData) :
  tds !! i = Some td →
  write_table c tds lengths indices type compute_unit objects (trace, table_start i) (Z.of_nat i) =
  Ok (trace ++ table_trace i, table_start (S i)).
Proof.
  intros Htd. destruct (Htables _ _ Htd) as [(o & off & Ho & Hoff) Hc [[L HL] Hlen] [I HI] Hin].
  unfold write_table.
  rewrite (proj2 (vec_at_Ok tds (Z.of_nat i) td)) by (rewrite Nat2Z.id; split; [lia|done]).
  cbn [rbind]. rewrite Ho. cbn [of_option rbind]. rewrite Hoff. cbn [rbind].
  rewrite (proj2 (vec_at_Ok lengths (Z.of_nat i) L)) by (rewrite Nat2Z.id; split; [lia|done]).
  rewrite (proj2 (vec_at_Ok indices (Z.of_nat i) I)) by (rewrite Nat2Z.id; split; [lia|done]).
  cbn [rbind]. unfold table_trace. rewrite Htd.
  assert (Hl : table_lens i td = take (Z.to_nat (chunk_of td)) L)
    by (unfold table_lens; by rewrite HL).
  assert (Hx : table_index i = I) by (unfold table_index; by rewrite HI).
  assert (Ho' : table_offset td = off) by (unfold table_offset; by rewrite Ho, Hoff).
  rewrite Hl, Hx in *. rewrite Ho'.
  rewrite <- (take_drop (Z.to_nat (chunk_of td)) L) at 1.
  replace (Execution.table_batches_chunk_ td) with (nb (take (Z.to_nat (chunk_of td)) L)) at 1.
  2: { unfold nb. rewrite Hlen. unfold chunk_of in *. lia. }
  rewrite write_object_trace_spec by done. cbn [rbind].
  rewrite (table_start_succ i td Htd). f_equal. f_equal.
  pose proof (table_start_range (S i)). pose proof (table_start_range i).
  rewrite (table_start_succ i td Htd) in *. unfold u32. rewrite Z.mod_small; [done|].
  unfold chunk_of in *. lia.
Qed.

Lemma generate_instructions_spec (exec : Execution.t) :
  Execution.tables_data_ exec = tds →
  TraceGeneratorCore.generate_instructions c exec lengths indices type compute_unit objects [] =
  Ok (flat table_trace (seq 0 (length tds))).
Proof.
  intros He. unfold TraceGeneratorCore.generate_instructions, Execution.get_tables_data.
  rewrite He.
  assert (H : ∀ n, (n ≤ length tds)%nat →
    rfold (write_table c tds lengths indices type compute_unit objects) ([], 0)
      (range (Z.of_nat n)) = Ok (flat table_trace (seq 0 n), table_start n)).
  { induction n as [|n IH]; intros Hn; [done|].
    replace (Z.of_nat (S n)) with (Z.of_nat n + 1) by lia.
    rewrite range_succ, rfold_app, IH by lia. cbn [rbind rfold].
    destruct (lookup_lt_is_Some_2 tds n) as [td Htd]; [lia|].
    rewrite (write_table_spec _ _ _ Htd). cbn [rbind].
    rewrite seq_S, flat_app. unfold flat at 3; cbn. by rewrite app_nil_r. }
  rewrite H by done. done.
Qed.

(** The same instructions, batch by batch. *)
Definition table_emitted (i : nat) : list InstructionIR :=
  match tds !! i with
  | Some td => flat (batch_ir c (table_offset td) (table_start i) type (table_lens i td)
                       (table_index i)) (range (chunk_of td))
  | None => []
  end.

Lemma table_trace_permutation (i : nat) : table_trace i ≡ₚ table_emitted i.
Proof.
  unfold table_trace, table_emitted. destruct (tds !! i) as [td|] eqn:Htd; [|done].
  destruct (Htables _ _ Htd) as [_ Hc [_ Hlen] _ Hin].
  rewrite columns_permutation by done. unfold nb. rewrite Hlen, Z2Nat.id by done. done.
Qed.

Lemma flat_permutation {A B} (f g : A → list B) (l : list A) :
  (∀ x, f x ≡ₚ g x) → flat f l ≡ₚ flat g l.
Proof. intros H. induction l as [|x l IH]; [done|]. unfold flat in *. cbn. by rewrite H, IH. Qed.
End execution_trace.

(** ** Compilation *)
Section compilation.
Context {G : InstructionGenerator} {HG : InstructionGeneratorLaws G}.

(** What the device reads back from an instruction. *)
Definition ir_of_inst (i : DecodedInst) : InstructionIR :=
  mkIR (opcode i) (output_idx i) (encode_address_from_instruction i).

Record ir_encodable (i : InstructionIR) : Prop := {
  en_opcode : 0 ≤ ir_opcode i < 2 ^ 2;
  en_output : 0 ≤ output_index i < 2 ^ 12;
  en_address : addressable (address i)
}.

(** [w] decodes to [i], without or with the end mark. *)
Definition word_of (i : InstructionIR) (w : Z) : Prop :=
  0 ≤ w < 2 ^ 64 ∧ ir_of_inst (decode_instruction w) = i ∧ trace_end (decode_instruction w) = 0 ∧
  let w' := Z.lor w (Z.shiftl 1 INSTR_TRACE_END_OFFSET) in
  ir_of_inst (decode_instruction w') = i ∧ trace_end (decode_instruction w') = 1.

Lemma compile_func_spec (i : InstructionIR) :
  ir_encodable i → ∃ w, TraceGenerator.compile_func i = Ok w ∧ word_of i w.
Proof.
  intros [Ho Hx Ha]. unfold TraceGenerator.compile_func. rewrite ig_empty.
  set (e := mkInst (ir_opcode i) 0 (output_index i) 0 0 0 0 0).
  assert (He : inst_wf e) by (split; cbn; lia).
  destruct (ig_address (address i) e Ha He) as (i' & Hd & Hwf & (E1 & E2 & E3 & E4) & Hea & Hes).
  rewrite Hd. cbn [rbind]. destruct (ig_word i' Hwf) as (w & Hw & Hr & Hdw).
  exists w. split; [done|]. cbn in E1, E2, E3, E4. unfold word_of. split; [done|].
  rewrite (ig_trace_end i' w Hwf (eq_sym E4) Hw), Hdw. unfold ir_of_inst.
  rewrite Hea, Hes, <- E1, <- E3. cbn. rewrite <- E1, <- E3, <- E4. by destruct i.
Qed.

Lemma compile_spec (l : list InstructionIR) :
  Forall ir_encodable l → ∃ ws, TraceGenerator.compile l = Ok ws ∧ Forall2 word_of l ws.
Proof.
  intros Hl. unfold TraceGenerator.compile.
  assert (H : ∀ acc, ∃ ws,
    rfold (fun acc i => let! w := TraceGenerator.compile_func i in Ok (acc ++ [w])) acc l =
    Ok (acc ++ ws) ∧ Forall2 word_of l ws).
  { induction Hl as [|i l Hi _ IH]; intros acc; cbn [rfold].
    - exists []. by rewrite app_nil_r.
    - destruct (compile_func_spec i Hi) as (w & -> & Hw). cbn [rbind].
      destruct (IH (acc ++ [w])) as (ws & Hr & HF). exists (w :: ws).
      rewrite Hr, <- app_assoc. by split; [|constructor]. }
  exact (H []).
Qed.

Lemma set_trace_end_cons (h : Z) (ws : list Z) :
  ws ≠ [] → TraceGenerator.set_trace_end (h :: ws) = h :: TraceGenerator.set_trace_end ws.
Proof. by destruct ws. Qed.

(** The end mark changes the last word only, and no instruction's content. *)
Lemma set_trace_end_spec (l : list InstructionIR) (ws : list Z) :
  Forall2 word_of l ws → ws ≠ [] →
  (fun w => ir_of_inst (decode_instruction w)) <$> TraceGenerator.set_trace_end ws = l ∧
  (fun w => trace_end (decode_instruction w)) <$> TraceGenerator.set_trace_end ws =
    replicate (length l - 1) 0 ++ [1].
Proof.
  induction 1 as [|i w l ws Hw HF IH]; [done|]. intros _.
  destruct HF as [|i' w' l ws Hw' HF].
  - destruct Hw as (_ & _ & _ & Hi & He). cbn. by rewrite Hi, He.
  - rewrite set_trace_end_cons by done. destruct IH as [IH1 IH2]; [done|].
    destruct Hw as (_ & Hi & He & _). cbn [fmap list_fmap length]. rewrite IH1, IH2, Hi, He.
    split; [done|]. cbn. by rewrite Nat.sub_0_r.
Qed.

Lemma set_trace_end_range (ws : list Z) :
  Forall (fun w => 0 ≤ w < 2 ^ 64) ws →
  Forall (fun w => 0 ≤ w < 2 ^ 64) (TraceGenerator.set_trace_end ws).
Proof.
  induction 1 as [|w ws Hw Hws IH]; [constructor|]. destruct ws as [|w' ws].
  - cbn [TraceGenerator.set_trace_end]. constructor; [|constructor].
    rewrite shiftl_mul, Z.mul_1_l by (unfold INSTR_TRACE_END_OFFSET; lia).
    split; [apply Z.lor_nonneg; unfold INSTR_TRACE_END_OFFSET; lia|].
    destruct (Z.eq_dec (Z.lor w (2 ^ INSTR_TRACE_END_OFFSET)) 0) as [->|Hne]; [lia|].
    apply Z.log2_lt_pow2; [pose proof (proj2 (Z.lor_nonneg w (2 ^ INSTR_TRACE_END_OFFSET))
      ltac:(unfold INSTR_TRACE_END_OFFSET; lia)); lia|].
    rewrite Z.log2_lor, Z.log2_pow2 by (unfold INSTR_TRACE_END_OFFSET; lia).
    apply Z.max_lub_lt; [|unfold INSTR_TRACE_END_OFFSET; lia].
    destruct (Z.eq_dec w 0) as [->|]; [cbn; lia|]. apply Z.log2_lt_pow2; lia.
  - rewrite set_trace_end_cons by done. by constructor.
Qed.

Lemma Forall2_word_range (l : list InstructionIR) (ws : list Z) :
  Forall2 word_of l ws → Forall (fun w => 0 ≤ w < 2 ^ 64) ws.
Proof. induction 1 as [|i w l ws [Hw _] _ IH]; by constructor. Qed.
End compilation.

Lemma generated_trace_spec (G : InstructionGenerator) (HG : InstructionGeneratorLaws G)
    (g : TraceGenerator.t) (exec : Execution.t) (lengths indices : list (list Z))
    (type compute_unit : Z) (objects : list MemoryObject.t) (is_tagged : bool) :
  let tds := Execution.get_tables_data exec in
  let lookups := flat (table_emitted (TraceGenerator.core_ g) tds lengths indices type
                         compute_unit objects) (seq 0 (length tds)) in
  (∀ i td, tds !! i = Some td →
     table_ok (TraceGenerator.core_ g) lengths indices compute_unit objects i td) →
  sum_list_Z (chunk_of <$> tds) < 2 ^ 32 →
  Forall ir_encodable lookups → lookups ≠ [] →
  ∃ g' code ir,
    TraceGenerator.generate_instructions g exec lengths indices type compute_unit objects
      is_tagged = Ok g' ∧
    TraceGenerator.trace_ g' =
      TraceGenerator.write_header (TraceGenerator.bytes_per_row_ g) is_tagged :: code ∧
    (fun w => ir_of_inst (decode_instruction w)) <$> code = ir ∧ ir ≡ₚ lookups ∧
    (fun w => trace_end (decode_instruction w)) <$> code = replicate (length ir - 1) 0 ++ [1].
Proof.
  intros tds lookups Htab Htot Henc Hne. unfold TraceGenerator.generate_instructions.
  rewrite (generate_instructions_spec _ tds) by done. cbn [rbind].
  set (ir := flat _ _). assert (Hp : ir ≡ₚ lookups).
  { apply flat_permutation. intros i. by apply table_trace_permutation. }
  assert (Hir : Forall ir_encodable ir) by (by rewrite Hp).
  destruct (compile_spec ir Hir) as (ws & Hc & HF). rewrite Hc. cbn [rbind].
  assert (Hws : ws ≠ []).
  { intros ->. inversion HF as [E|]. apply Hne. rewrite <- E in Hp. by apply Permutation_nil. }
  destruct (set_trace_end_spec ir ws HF Hws) as [Hi He].
  eexists _, _, ir. split; [reflexivity|]. cbn [TraceGenerator.trace_].
  rewrite set_trace_end_cons by done. auto.
Qed.

(** The words of a trace fit 64 bits. *)
Lemma generated_trace_range (G : InstructionGenerator) (HG : InstructionGeneratorLaws G)
    (g g' : TraceGenerator.t) (exec : Execution.t) (lengths indices : list (list Z))
    (type compute_unit : Z) (objects : list MemoryObject.t) (is_tagged : bool) :
  let tds := Execution.get_tables_data exec in
  let lookups := flat (table_emitted (TraceGenerator.core_ g) tds lengths indices type
                         compute_unit objects) (seq 0 (length tds)) in
  (∀ i td, tds !! i = Some td →
     table_ok (TraceGenerator.core_ g) lengths indices compute_unit objects i td) →
  sum_list_Z (chunk_of <$> tds) < 2 ^ 32 → Forall ir_encodable lookups →
  0 ≤ TraceGenerator.write_header (TraceGenerator.bytes_per_row_ g) is_tagged < 2 ^ 64 →
  TraceGenerator.generate_instructions g exec lengths indices type compute_unit objects
    is_tagged = Ok g' →
  Forall (fun w => 0 ≤ w < 2 ^ 64) (TraceGenerator.trace_ g').
Proof.
  intros tds lookups Htab Htot Henc Hh. unfold TraceGenerator.generate_instructions.
  rewrite (generate_instructions_spec _ tds) by done. cbn [rbind].
  set (ir := flat _ _). assert (Hp : ir ≡ₚ lookups).
  { apply flat_permutation. intros i. by apply table_trace_permutation. }
  assert (Hir : Forall ir_encodable ir) by (by rewrite Hp).
  destruct (compile_spec ir Hir) as (ws & -> & HF). cbn [rbind]. intros E.
  assert (Et : TraceGenerator.trace_ g' = TraceGenerator.set_trace_end
    (TraceGenerator.write_header (TraceGenerator.bytes_per_row_ g) is_tagged :: ws))
    by (injection E as <-; reflexivity).
  rewrite Et. apply set_trace_end_range. constructor; [done|]. by eapply Forall2_word_range.
Qed.

(** ** What the lookups name

    Lookup [k] of batch [b] names the psum row of its batch and the address of its row,
    without any wrap-around. *)
Section lookups.
Import TraceGeneratorCore.
Context (c : TraceGeneratorCore.t) (tds : list Execution.TableData).
Context (lengths indices : list (list Z)) (type compute_unit : Z) (objects : list MemoryObject.t).

Definition lookup_ir (i : nat) (td : Execution.TableData) (b k : Z) : InstructionIR :=
  mkIR type (table_start tds i + b)
    (table_offset compute_unit objects td +
     row_of (table_lens lengths i td) (table_index indices i) b k * bytes_per_row_full_ c).

Definition table_lookups (i : nat) : list InstructionIR :=
  match tds !! i with
  | Some td => flat (fun b => lookup_ir i td b <$> range (batch_len (table_lens lengths i td) b)) (range (chunk_of td))
  | None => []
  end.

(** Every row that is looked up starts within 4 GiB of its table. *)
Definition rows_within_4GiB : Prop := ∀ i td b k, tds !! i = Some td →
  0 ≤ b < chunk_of td → 0 ≤ k < batch_len (table_lens lengths i td) b →
  0 ≤ table_offset compute_unit objects td < 2 ^ 63 ∧
  0 ≤ row_of (table_lens lengths i td) (table_index indices i) b k * bytes_per_row_full_ c < 2 ^ 32.

Lemma emitted_lookups :
  (∀ i td, tds !! i = Some td → table_ok c lengths indices compute_unit objects i td) →
  sum_list_Z (chunk_of <$> tds) < 2 ^ 32 → rows_within_4GiB →
  flat (table_emitted c tds lengths indices type compute_unit objects) (seq 0 (length tds)) =
  flat table_lookups (seq 0 (length tds)).
Proof.
  intros Htab Htot Hrows. apply flat_ext. intros i _. unfold table_emitted, table_lookups.
  destruct (tds !! i) as [td|] eqn:Htd; [|done]. apply flat_ext. intros b Hb%elem_of_range.
  unfold batch_ir. apply list_fmap_ext. intros j k Hk. apply list_elem_of_lookup_2, elem_of_range in Hk.
  destruct (Hrows i td b k Htd Hb Hk) as [Ho Hr]. unfold emitted_ir, lookup_ir, u32.
  pose proof (table_start_range c tds lengths indices compute_unit objects Htab i) as Hs0.
  pose proof (table_start_range c tds lengths indices compute_unit objects Htab (S i)) as Hs.
  rewrite (table_start_succ tds i td Htd) in Hs.
  rewrite (Z.mod_small (row_of _ _ _ _ * _)), u64_small, (Z.mod_small (table_start _ _ + b)) by lia. done.
Qed.
End lookups.

(** ** Theorems *)

(**  [write_object_trace] terminates, appends one instruction for
    every lookup of every batch of the chunk, column by column (lookup 0 of all
    batches, then lookup 1, ...) whatever the batches' lengths, each naming its
    batch's psum slot and its row's address, and returns the number of indices it
    consumed. *)
Theorem write_object_trace_column_major (c : TraceGeneratorCore.t)
    (cunit_offset psum_id_base type : Z) (lens rest index : list Z) (trace : list InstructionIR) :
  chunk_ok c lens index →
  ∃ out,
    TraceGeneratorCore.write_object_trace c cunit_offset (lens ++ rest) (nb lens) index
      psum_id_base type trace = Ok (trace ++ out, sum_list_Z lens) ∧
    out = flat (fun k => flat (emit c cunit_offset psum_id_base type lens index k) (range (nb lens)))
               (range (max_len lens)) ∧
    out ≡ₚ flat (fun b => emitted_ir c cunit_offset psum_id_base type lens index b <$>
                          range (batch_len lens b)) (range (nb lens)).
Proof.
  intros Hok. eexists. split; [by apply write_object_trace_spec|]. split.
  - unfold columns_from. by rewrite Z.sub_0_r.
  - by apply columns_permutation.
Qed.

(** Property C38.  [get_phys_address] is the row's address exactly when the row
    starts within 4 GiB of its table: the product of the row index and the row
    size is computed in 32 bits. *)
Theorem phys_address_exact_iff_below_4GiB (c : TraceGeneratorCore.t) (r off : Z) :
  0 ≤ r < TraceGeneratorCore.max_tables_rows_num_ c →
  TraceGeneratorCore.max_tables_rows_num_ c < 2 ^ 32 →
  0 ≤ TraceGeneratorCore.bytes_per_row_full_ c < 2 ^ 32 → 0 ≤ off < 2 ^ 34 →
  TraceGeneratorCore.get_phys_address c r off =
    Ok (off + r * TraceGeneratorCore.bytes_per_row_full_ c) ↔
  r * TraceGeneratorCore.bytes_per_row_full_ c < 2 ^ 32.
Proof.
  intros Hr Hm Hb Hoff. unfold TraceGeneratorCore.get_phys_address.
  replace (r <? _) with true by lia. cbn [assert rbind].
  set (p := r * _). assert (Hp : 0 ≤ p < 2 ^ 64) by nia.
  assert (Hu : 0 ≤ u32 p < 2 ^ 32) by (apply Z.mod_pos_bound; lia).
  rewrite u64_small by lia. split.
  - intros [= E]. lia.
  - intros Hlt. unfold u32. by rewrite Z.mod_small by lia.
Qed.

Lemma phys_address_witness :
  TraceGeneratorCore.get_phys_address (TraceGeneratorCore.mk 64 (2 ^ 27)) (2 ^ 26) 4096 =
    Ok (4096 + 2 ^ 26 * 64) ↔ 2 ^ 26 * 64 < 2 ^ 32.
Proof.
  apply (phys_address_exact_iff_below_4GiB (TraceGeneratorCore.mk 64 (2 ^ 27)) (2 ^ 26) 4096);
    cbn [TraceGeneratorCore.max_tables_rows_num_ TraceGeneratorCore.bytes_per_row_full_]; lia.
Defined.

(** Property C11.  For every lawful instruction generator, [generate_instructions]
    succeeds and its trace is the header followed by words that decode to the
    intermediate instructions: one per lookup of the execution, with the
    execution-wide psum slot of its batch and the address of its row, when every row
    that is looked up starts within 4 GiB of its table; the end mark is on the last
    word only. *)
Theorem generated_trace_decodes (G : InstructionGenerator) (HG : InstructionGeneratorLaws G)
    (g : TraceGenerator.t) (exec : Execution.t) (lengths indices : list (list Z))
    (type compute_unit : Z) (objects : list MemoryObject.t) (is_tagged : bool) :
  let tds := Execution.get_tables_data exec in
  let lookups := flat (table_lookups (TraceGenerator.core_ g) tds lengths indices type
                         compute_unit objects) (seq 0 (length tds)) in
  (∀ i td, tds !! i = Some td →
     table_ok (TraceGenerator.core_ g) lengths indices compute_unit objects i td) →
  sum_list_Z (chunk_of <$> tds) < 2 ^ 32 →
  rows_within_4GiB (TraceGenerator.core_ g) tds lengths indices compute_unit objects →
  Forall ir_encodable lookups → lookups ≠ [] →
  ∃ g' code ir,
    TraceGenerator.generate_instructions g exec lengths indices type compute_unit objects
      is_tagged = Ok g' ∧
    TraceGenerator.trace_ g' =
      TraceGenerator.write_header (TraceGenerator.bytes_per_row_ g) is_tagged :: code ∧
    (fun w => ir_of_inst (decode_instruction w)) <$> code = ir ∧ ir ≡ₚ lookups ∧
    (fun w => trace_end (decode_instruction w)) <$> code = replicate (length ir - 1) 0 ++ [1].
Proof.
  intros tds lookups Htab Htot Hrows Henc Hne. unfold lookups in *.
  rewrite <- (emitted_lookups _ _ _ _ _ _ _ Htab Htot Hrows) in *. by apply generated_trace_spec.
Qed.

Definition sample_exec : Execution.t :=
  Execution.mk [Execution.mkTableData 1 1 (Some 0); Execution.mkTableData 0 2 (Some 0)] 5 3 192.

Definition sample_objects : list MemoryObject.t :=
  [MemoryObject.mk 0 640 [(true, 0); (false, 0)]; MemoryObject.mk 1 640 [(true, 4096); (false, 0)]].

Definition sample_generator : TraceGenerator.t :=
  TraceGenerator.mk 64 (TraceGeneratorCore.mk 64 10) [] [].

Lemma sample_row_bound (l : list Z) (n : nat) (m : Z) :
  0 < m → forallb (fun r => r <? m) l = true → default 0 (l !! n) < m.
Proof.
  intros Hm H. destruct (l !! n) as [x|] eqn:Hx; [|done]. cbn.
  apply list_elem_of_lookup_2, list_elem_of_In in Hx.
  apply (proj1 (forallb_forall _ _) H) in Hx. by apply Z.ltb_lt.
Qed.

Lemma sample_tables_ok (i : nat) (td : Execution.TableData) :
  Execution.get_tables_data sample_exec !! i = Some td →
  table_ok (TraceGenerator.core_ sample_generator) [[2]; [1; 2]] [[3; 4]; [0; 1; 2]] 0
    sample_objects i td.
Proof.
  revert i. intros [|[|i]] Htd; [..|destruct i; discriminate]; injection Htd as <-.
  - split; [eexists _, _; split; reflexivity | vm_compute; congruence
           | split; [eexists; reflexivity | reflexivity] | eexists; reflexivity | split].
    + repeat constructor; lia.
    + vm_compute. congruence.
    + intros b k _ _. by apply sample_row_bound.
  - split; [eexists _, _; split; reflexivity | vm_compute; congruence
           | split; [eexists; reflexivity | reflexivity] | eexists; reflexivity | split].
    + repeat constructor; lia.
    + vm_compute. congruence.
    + intros b k _ _. by apply sample_row_bound.
Qed.

Lemma sample_rows :
  rows_within_4GiB (TraceGenerator.core_ sample_generator) (Execution.get_tables_data sample_exec)
    [[2]; [1; 2]] [[3; 4]; [0; 1; 2]] 0 sample_objects.
Proof.
  assert (Hpos : ∀ (l : list Z) n, Forall (Z.le 0) l → 0 ≤ default 0 (l !! n)).
  { intros l n Hl. destruct (l !! n) as [x|] eqn:Hx; [|done]. exact (proj1 (Forall_lookup _ _) Hl n x Hx). }
  intros [|[|i]] td b k Htd _ _; [..|destruct i; discriminate]; injection Htd as <-; (split; [vm_compute; split; congruence|]);
    unfold row_of, table_index; cbn [default from_option id lookup list_lookup];
    match goal with |- 0 ≤ default 0 (?l !! ?n) * _ < _ =>
      pose proof (sample_row_bound l n 10 ltac:(lia) ltac:(reflexivity));
      pose proof (Hpos l n ltac:(repeat constructor; lia)) end; cbn; lia.
Qed.

Lemma generated_trace_decodes_witness : ∃ g' code ir,
  @TraceGenerator.generate_instructions (Ranked true) sample_generator sample_exec
    [[2]; [1; 2]] [[3; 4]; [0; 1; 2]] SPARSE_FT_SUM_U32 0 sample_objects false = Ok g' ∧
  TraceGenerator.trace_ g' = 0 :: code ∧
  (fun w => ir_of_inst (G := Ranked true) (RankedInstGenerator.decode_instruction w)) <$> code = ir.
Proof.
  destruct (generated_trace_decodes (Ranked true) _ sample_generator sample_exec
    [[2]; [1; 2]] [[3; 4]; [0; 1; 2]] SPARSE_FT_SUM_U32 0 sample_objects false)
    as (g' & code & ir & Hg & Ht & Hi & _).
  - intros i td. apply sample_tables_ok.
  - vm_compute. reflexivity.
  - exact sample_rows.
  - set (l := flat _ _). vm_compute in l. subst l.
    repeat constructor; cbn; try lia; reflexivity.
  - vm_compute. congruence.
  - exists g', code, ir. split; [exact Hg|]. split; [exact Ht|exact Hi].
Defined.
