(* ===== verification/SparseReduction.v ===== *)
(** * The SLS operation on the host

    include/pnmlib/sls/operation.h, sls/operation/api/sls.cpp,
    sls/operation/param_checks.cpp ([SlsOperation] and its checks),
    sls/operation/packs_data.{h,cpp} ([ExecutionPacksData]) and
    sls/operation/internal.h ([SparseReduction]).

    The user's lengths and indices are lists and a pointer into them is an
    offset; the psum buffer is a range of the host memory of RankAddress. *)
From S2P Require Import Prelude Topology RankAddress InstGenerator RankMemory ExecutionGenerator TraceGenerator.

Module SlsOperation.

Inductive Type_ := Float | Uint32 | Uint32Tagged.

(** The enumerators' values are the opcodes. *)
Definition type_value (ty : Type_) : Z :=
  match ty with Float => 0 | Uint32 => 2 | Uint32Tagged => 3 end.

Record t := mk {
  sparse_feature_size_ : Z;
  tables_sizes_ : list Z;
  minibatch_size_ : Z;
  lengths_ : list Z;
  indices_ : list Z;
  psum_ : Z;
  psum_bytes_ : Z;
  layout_ : RankMemory.packs_to_objects;
  op_type_ : Type_
}.

Definition is_tagged (op : t) : bool :=
  match op_type_ op with Uint32Tagged => true | _ => false end.

(** ** param_checks.cpp *)
Definition check_sparse_feature_size (sparse_feature_size : Z) : result unit :=
  if existsb (Z.eqb sparse_feature_size) [16; 32; 64] then Ok tt else Err InvalidArguments.

(** [check_indices], compiled in debug builds only.  Arithmetic on [uint32_t]. *)
Definition check_lookup (op : t) (size offset : Z) (_ : unit) (lookup_id : Z) : result unit :=
  let! sparse_vector_idx := vec_at (indices_ op) (u32 (offset + lookup_id)) in
  if size <=? sparse_vector_idx then Err InvalidArguments else Ok tt.

Definition check_batch (op : t) (size table_data_offset : Z) (_ : unit) (batch_id : Z)
  : result unit :=
  let table_batch_data_offset := u32 (table_data_offset + batch_id) in
  let! data_lookup_length := vec_at (lengths_ op) table_batch_data_offset in
  rfold (check_lookup op size table_batch_data_offset) tt (range data_lookup_length).

Definition check_table (op : t) (_ : unit) (table_id : Z) : result unit :=
  let! tables_size := vec_at (tables_sizes_ op) table_id in
  let table_data_offset := u32 (table_id * minibatch_size_ op) in
  rfold (check_batch op tables_size table_data_offset) tt (range (minibatch_size_ op)).

Definition check_indices (op : t) : result unit :=
  rfold (check_table op) tt (range (Z.of_nat (length (tables_sizes_ op)))).

Definition check_run_params (DEBUG : bool) (op : t) : result unit :=
  if minibatch_size_ op =? 0 then Err InvalidArguments
  else match lengths_ op with
  | [] => Err InvalidArguments
  | _ =>
      match indices_ op with
      | [] => Err InvalidArguments
      | _ =>
          if psum_bytes_ op =? 0 then Err InvalidArguments
          else if DEBUG then check_indices op else Ok tt
      end
  end.

(** [SlsOperation::SlsOperation]; [tables] is [None] for a null pointer. *)
Definition make (sparse_feature_size : Z) (tables_sizes : list Z)
    (tables : option RankMemory.packs_to_objects) (op_type : Type_) : result t :=
  match tables with
  | None => Err InvalidArguments
  | Some layout =>
      let! _ := check_sparse_feature_size sparse_feature_size in
      Ok (mk sparse_feature_size tables_sizes 0 [] [] 0 0 layout op_type)
  end.

(** The members are assigned before the checks throw. *)
Definition set_run_params (DEBUG : bool) (op : t) (minibatch_size : Z)
    (lengths indices : list Z) (psum psum_bytes : Z) : t * result unit :=
  let op := mk (sparse_feature_size_ op) (tables_sizes_ op) minibatch_size lengths indices
              psum psum_bytes (layout_ op) (op_type_ op) in
  (op, check_run_params DEBUG op).

End SlsOperation.

(** [std::accumulate(first, last, 0)] over [uint32_t]: the sum is kept in an
    [int], each addition is done in [uint32_t]. *)
Definition s32 (x : Z) : Z := (x + 2 ^ 31) mod 2 ^ 32 - 2 ^ 31.
Definition accumulate_int (l : list Z) : Z := fold_left (fun acc x => s32 (acc + x)) l 0.

Module ExecutionPacksData.
Import SlsOperation.

(** Offsets of a table chunk's lengths and indices, and the addresses of its psum
    and tags. *)
Record chunk_addr := mkAddr {
  a_index : Z;
  a_length : Z;
  a_psum : Z;
  a_tags : option Z
}.

(** [length_exec_], [index_exec_], [psum_addr_] and [tags_addr_] of a pack, which
    are filled together, cell by cell. *)
Record t := mk {
  addr_ : RankMemory.packs_array (list (list chunk_addr));
  indices_offsets_ : list Z;
  lengths_offsets_ : list Z
}.

(** One iteration of [init_tables_indexing_data]: [index_offset], [batch_offset]
    and the offsets gathered so far. *)
Definition index_table (op : SlsOperation.t) (s : Z * Z * list Z * list Z) (table_idx : Z)
  : Z * Z * list Z * list Z :=
  let '(index_offset, batch_offset, ixs, lns) := s in
  (u64 (index_offset + accumulate_int (take (Z.to_nat (minibatch_size_ op))
                                            (drop (Z.to_nat batch_offset) (lengths_ op)))),
   u64 (batch_offset + minibatch_size_ op), ixs ++ [index_offset], lns ++ [batch_offset]).

Definition init_tables_indexing_data (op : SlsOperation.t) : list Z * list Z :=
  let '(_, _, ixs, lns) :=
    fold_left (index_table op) (range (Z.of_nat (length (tables_sizes_ op)))) (0, 0, [], []) in
  (ixs, lns).

Definition TAG_SIZE : Z := 16.

(** The data initializers, run in order by [fill_table_data]. *)
Definition fill_table_data (tp : Constants) (op : SlsOperation.t) (ixs lns : list Z)
    (td : Execution.TableData) : result chunk_addr :=
  let table_id := Execution.table_id_ td in
  let! batch_offset := of_option UndefinedBehaviour (Execution.batch_offset_ td) in
  let! index_base := vec_at ixs table_id in
  let! length_base := vec_at lns table_id in
  let sp_feature_size := u64 (sparse_feature_size_ op * DataSize tp) in
  let data_size := u64 (minibatch_size_ op * sp_feature_size) in
  let tags_per_table_size := u64 (minibatch_size_ op * TAG_SIZE) in
  let tags := u64 (psum_ op + Z.of_nat (length (lengths_ op)) * sp_feature_size) in
  Ok (mkAddr
        (u64 (index_base + accumulate_int (take (Z.to_nat batch_offset)
                                             (drop (Z.to_nat length_base) (lengths_ op)))))
        (u64 (length_base + batch_offset))
        (u64 (psum_ op + u64 (table_id * data_size) + u64 (batch_offset * sp_feature_size)))
        (if is_tagged op
         then Some (u64 (tags + u64 (table_id * tags_per_table_size) +
                         u64 (batch_offset * TAG_SIZE)))
         else None)).

Definition fill_pack (tp : Constants) (op : SlsOperation.t) (exec_gen : ExecutionGenerator.t)
    (ixs lns : list Z) (packs : list (list (list chunk_addr))) (pack : Z)
  : result (list (list (list chunk_addr))) :=
  let! execs := ExecutionGenerator.get_pack_execs exec_gen pack in
  match execs with
  | [] => Ok packs
  | _ =>
      let! cells := rmap (fun e => rmap (fill_table_data tp op ixs lns)
                                        (Execution.get_tables_data e)) execs in
      vec_set packs pack cells
  end.

(** [init] on a new object; the offset vectors are cleared at the end. *)
Definition init (tp : Constants) (op : SlsOperation.t) (exec_gen : ExecutionGenerator.t)
  : result t :=
  let '(ixs, lns) := init_tables_indexing_data op in
  let! packs := rfold (fill_pack tp op exec_gen ixs lns)
                  (RankMemory.make_packs_array tp []) (RankMemory.pack_identifiers tp) in
  Ok (mk packs [] []).

Definition exec_addr (d : t) (pack exec_no : Z) : result (list chunk_addr) :=
  let! execs := vec_at (addr_ d) pack in vec_at execs exec_no.

End ExecutionPacksData.

Module SparseReduction.
Import SlsOperation ExecutionPacksData.

Record t {G : InstructionGenerator} := mk {
  sls_op_ : SlsOperation.t;
  exec_gen_ : ExecutionGenerator.t;
  packs_data_ : ExecutionPacksData.t;
  trace_gen_ : RankMemory.packs_array TraceGenerator.t
}.
Arguments t : clear implicits.

Definition get_sparse_ft_tag_nb (op : SlsOperation.t) : Z := if is_tagged op then TAG_SIZE else 0.

Definition get_sparse_ft_data_nb (tp : Constants) (op : SlsOperation.t) : Z :=
  u32 (u64 (sparse_feature_size_ op * DataSize tp)).

(** [choose_optimal_buf_divider]: every branch is a whole number. *)
Definition choose_optimal_buf_divider (op : SlsOperation.t) : Z :=
  let inst_count := accumulate_int (lengths_ op) in
  if inst_count <? 1500 then 65
  else if inst_count <? 5000 then 38
  else if inst_count <? 10000 then 32
  else if inst_count <? 50000 then 16
  else if inst_count <? 140000 then 8
  else if inst_count <? 600000 then 4
  else 2.

(** [SLS_BUF_DIVIDER] after [strtod], as the fraction [num / den]. *)
Definition set_instr_buffer_size (op : SlsOperation.t) (SLS_BUF_DIVIDER : option (Z * positive))
    (max_inst_in_buf : Z) : result Z :=
  let! (num, den) :=
    (match SLS_BUF_DIVIDER with
     | None => Ok (choose_optimal_buf_divider op, 1%positive)
     | Some (num, den) => if num <? Zpos den then Err LogicError else Ok (num, den)
     end) in
  let max_inst_in_buf := max_inst_in_buf * Zpos den / num in
  match lengths_ op with
  | [] => Err UndefinedBehaviour
  | x :: l => Ok (Z.max (fold_left Z.max l x) max_inst_in_buf)
  end.

Definition init_exec_gen (tp : Constants) (op : SlsOperation.t)
    (SLS_BUF_DIVIDER : option (Z * positive)) : result ExecutionGenerator.t :=
  let! _ := (if get_sparse_ft_data_nb tp op =? 0 then Err UndefinedBehaviour else Ok tt) in
  let max_features_in_buf := psum_single_buf_size tp / get_sparse_ft_data_nb tp op in
  let! max_inst_in_buf :=
    set_instr_buffer_size op SLS_BUF_DIVIDER (inst_per_single_buf_no_header tp) in
  let! layout := RankMemory.of_vector tp (layout_ op) in
  let g := ExecutionGenerator.init (ExecutionGenerator.empty tp) layout
             max_inst_in_buf max_features_in_buf (get_sparse_ft_data_nb tp op) in
  ExecutionGenerator.generate tp g (minibatch_size_ op)
    (Z.of_nat (length (tables_sizes_ op))) (lengths_ op).

Section with_generator.
Context {G : InstructionGenerator}.

(** The largest table of a pack decides the row bound of its trace generator. *)
Definition init_trace_pack (tp : Constants) (op : SlsOperation.t)
    (gens : list TraceGenerator.t) (pack : Z) : result (list TraceGenerator.t) :=
  let! objs := vec_at (layout_ op) pack in
  match objs with
  | [] => Ok gens
  | o :: os =>
      let! s := vec_at (tables_sizes_ op) (MemoryObject.id o) in
      let! max_rows :=
        rfold (fun m x => let! s := vec_at (tables_sizes_ op) (MemoryObject.id x) in
                          Ok (Z.max m s)) s os in
      let! g := vec_at gens pack in
      vec_set gens pack
        (TraceGenerator.init tp g (get_sparse_ft_data_nb tp op) max_rows (is_tagged op))
  end.

Definition init_trace_gen (tp : Constants) (op : SlsOperation.t) : result (list TraceGenerator.t) :=
  rfold (init_trace_pack tp op)
    (RankMemory.make_packs_array tp (TraceGenerator.mk 0 TraceGeneratorCore.empty [] []))
    (RankMemory.pack_identifiers tp).

Definition make (tp : Constants) (op : SlsOperation.t) (SLS_BUF_DIVIDER : option (Z * positive))
  : result (t G) :=
  let! exec_gen := init_exec_gen tp op SLS_BUF_DIVIDER in
  let! trace_gen := init_trace_gen tp op in
  let! packs_data := ExecutionPacksData.init tp op exec_gen in
  Ok (mk _ op exec_gen packs_data trace_gen).

Definition get_num_exec_iterations (r : t G) (pack : Z) : result Z :=
  let! execs := ExecutionGenerator.get_pack_execs (exec_gen_ r) pack in
  Ok (u32 (Z.of_nat (length execs))).

Definition get_num_outputs (r : t G) : Z := if is_tagged (sls_op_ r) then 2 else 1.

Definition get_exec (r : t G) (pack exec_no : Z) : result Execution.t :=
  let! execs := ExecutionGenerator.get_pack_execs (exec_gen_ r) pack in vec_at execs exec_no.

(** The size of the view [get_tmp_buffer] returns. *)
Definition get_tmp_buffer (r : t G) (pack exec_no : Z) : result Z :=
  let! exec := get_exec r pack exec_no in Ok (Execution.get_psum_read_size exec).

(** The copy loop of the private [write_result]: memory and [buff_table_offset]. *)
Definition write_table (size src : Z) (s : memory * Z) (cell : Execution.TableData * Z)
  : memory * Z :=
  let '(m, buff_table_offset) := s in
  let '(td, dst) := cell in
  let current_table_data_size := u32 (Execution.table_batches_chunk_ td * size) in
  (copy_n m (u64 (src + buff_table_offset)) (Z.to_nat current_table_data_size) dst,
   u64 (buff_table_offset + current_table_data_size)).

Definition write_exec (exec : Execution.t) (dst : list Z) (src size : Z) (m : memory) : memory :=
  (fold_left (write_table size src) (zip (Execution.get_tables_data exec) dst) (m, 0)).1.

Definition write_result (tp : Constants) (r : t G) (output_no pack exec_no src : Z) (m : memory)
  : result memory :=
  let! exec := get_exec r pack exec_no in
  match output_no with
  | 0 =>
      let! cells := exec_addr (packs_data_ r) pack exec_no in
      let! _ := assert (negb (src =? 0)) in
      Ok (write_exec exec (a_psum <$> cells) src (get_sparse_ft_data_nb tp (sls_op_ r)) m)
  | 1 =>
      if is_tagged (sls_op_ r) then
        let! cells := exec_addr (packs_data_ r) pack exec_no in
        let! _ := assert (negb (src =? 0)) in
        Ok (write_exec exec (omap a_tags cells) src (get_sparse_ft_tag_nb (sls_op_ r)) m)
      else Err UndefinedBehaviour
  | _ => Err NotSupported
  end.

Definition generate_instructions (r : t G) (pack compute_unit exec_no : Z)
  : result TraceGenerator.t :=
  let! exec := get_exec r pack exec_no in
  let! cells := exec_addr (packs_data_ r) pack exec_no in
  let! g := vec_at (trace_gen_ r) pack in
  let! objs := vec_at (layout_ (sls_op_ r)) pack in
  TraceGenerator.generate_instructions g exec
    ((fun c => drop (Z.to_nat (a_length c)) (lengths_ (sls_op_ r))) <$> cells)
    ((fun c => drop (Z.to_nat (a_index c)) (indices_ (sls_op_ r))) <$> cells)
    (type_value (op_type_ (sls_op_ r))) compute_unit objs (is_tagged (sls_op_ r)).

End with_generator.
End SparseReduction.

(** ** Sums of lengths *)
Lemma accumulate_int_from (l : list Z) : ∀ a,
  Forall (Z.le 0) l → 0 ≤ a → a + sum_list_Z l < 2 ^ 31 →
  fold_left (fun acc x => s32 (acc + x)) l a = a + sum_list_Z l.
Proof.
  induction l as [|x l IH]; intros a Hl Ha Hs; cbn [fold_left].
  - unfold sum_list_Z. cbn. lia.
  - inversion_clear Hl as [|? ? Hx Hl']. pose proof (sum_list_Z_nonneg l Hl').
    change (sum_list_Z (x :: l)) with (x + sum_list_Z l) in *.
    assert (Es : s32 (a + x) = a + x) by (unfold s32; rewrite Z.mod_small; lia).
    rewrite Es, IH; [lia|done|lia|lia].
Qed.

Lemma accumulate_int_sum (l : list Z) :
  Forall (Z.le 0) l → sum_list_Z l < 2 ^ 31 → accumulate_int l = sum_list_Z l.
Proof. intros Hl Hs. unfold accumulate_int. rewrite accumulate_int_from; done || lia. Qed.

Lemma sum_take_le (l : list Z) (k : nat) : Forall (Z.le 0) l → 0 ≤ sum_list_Z (take k l) ≤ sum_list_Z l.
Proof.
  intros H. rewrite <- (take_drop k l) at 3. rewrite sum_list_Z_app.
  pose proof (sum_list_Z_nonneg _ (Forall_take _ k _ H)).
  pose proof (sum_list_Z_nonneg _ (Forall_drop _ k _ H)). lia.
Qed.

Lemma sum_list_Z_elem (l : list Z) (x : Z) : Forall (Z.le 0) l → x ∈ l → x ≤ sum_list_Z l.
Proof.
  intros Hl (l1 & l2 & ->)%list_elem_of_split. apply Forall_app in Hl as [H1 H2].
  inversion_clear H2 as [|? ? _ H3]. apply sum_list_Z_nonneg in H1, H3. rewrite sum_list_Z_app.
  change (sum_list_Z (x :: l2)) with (x + sum_list_Z l2). lia.
Qed.

(** A window of the lengths sums to a difference of prefix sums. *)
Lemma sum_window (l : list Z) (i k : nat) :
  sum_list_Z (take k (drop i l)) = sum_list_Z (take (i + k) l) - sum_list_Z (take i l).
Proof.
  rewrite <- (take_take_drop l i k), sum_list_Z_app. lia.
Qed.

Lemma accumulate_window (l : list Z) (i k : nat) :
  Forall (Z.le 0) l → sum_list_Z l < 2 ^ 31 →
  accumulate_int (take k (drop i l)) = sum_list_Z (take (i + k) l) - sum_list_Z (take i l).
Proof.
  intros Hl Hs. rewrite <- sum_window. apply accumulate_int_sum.
  - by apply Forall_take, Forall_drop.
  - pose proof (sum_take_le (drop i l) k (Forall_drop _ i _ Hl)).
    pose proof (sum_take_le l i Hl). rewrite <- (take_drop i l), sum_list_Z_app in Hs. lia.
Qed.

(** ** Where the data of a (table, batch) pair is *)
Section operation.
Import SlsOperation ExecutionPacksData SparseReduction.
Context (tp : Constants) (op : SlsOperation.t).

Definition n_tables : Z := Z.of_nat (length (tables_sizes_ op)).
Definition fbytes : Z := sparse_feature_size_ op * DataSize tp.

(** The number of the batch [b] of table [t] among all batches. *)
Definition flat_batch (p : Z * Z) : Z := p.1 * minibatch_size_ op + p.2.

(** Lookups before a batch. *)
Definition lookups_before (k : Z) : Z := sum_list_Z (take (Z.to_nat k) (lengths_ op)).

(** The psum slot and the tag slot of a batch. *)
Definition psum_slot (p : Z * Z) : Z := psum_ op + flat_batch p * fbytes.
Definition tag_slot (p : Z * Z) : Z :=
  psum_ op + n_tables * minibatch_size_ op * fbytes + flat_batch p * TAG_SIZE.

(** The operation's arguments are consistent and its buffers are in memory. *)
Record op_ok : Prop := {
  oo_fbytes : 0 < fbytes < 2 ^ 32;
  oo_mb : 0 < minibatch_size_ op < 2 ^ 32;
  oo_tables : 0 < n_tables < 2 ^ 32;
  oo_length : Z.of_nat (length (lengths_ op)) = n_tables * minibatch_size_ op;
  oo_lengths : Forall (fun x => 0 < x) (lengths_ op);
  oo_sum : sum_list_Z (lengths_ op) < 2 ^ 31;
  oo_psum : 0 ≤ psum_ op;
  oo_psum_end : psum_ op + n_tables * minibatch_size_ op * (fbytes + TAG_SIZE) ≤ 2 ^ 64
}.
Context (Hop : op_ok).

Lemma fbytes_data_nb : get_sparse_ft_data_nb tp op = fbytes.
Proof.
  pose proof (oo_fbytes Hop). unfold get_sparse_ft_data_nb. fold fbytes.
  rewrite u64_small by lia. unfold u32. by rewrite Z.mod_small by lia.
Qed.

Lemma lengths_nonneg : Forall (Z.le 0) (lengths_ op).
Proof. eapply Forall_impl; [apply (oo_lengths Hop)|]. cbn. lia. Qed.

Lemma lookups_before_range (k : Z) : 0 ≤ lookups_before k < 2 ^ 31.
Proof.
  pose proof (sum_take_le (lengths_ op) (Z.to_nat k) lengths_nonneg).
  pose proof (oo_sum Hop). unfold lookups_before. lia.
Qed.

Lemma total_bytes : n_tables * minibatch_size_ op ≤ 2 ^ 60 ∧
  n_tables * minibatch_size_ op * fbytes ≤ 2 ^ 64 - psum_ op - n_tables * minibatch_size_ op * 16.
Proof. destruct Hop. unfold TAG_SIZE in *. nia. Qed.

Lemma indexing_spec :
  init_tables_indexing_data op =
  ((fun t => lookups_before (t * minibatch_size_ op)) <$> range n_tables,
   (fun t => t * minibatch_size_ op) <$> range n_tables).
Proof.
  pose proof (oo_mb Hop) as Hmb. pose proof (oo_tables Hop) as HN. pose proof total_bytes as [Ht _].
  assert (H : ∀ n, Z.of_nat n ≤ n_tables →
    fold_left (index_table op) (range (Z.of_nat n)) (0, 0, [], []) =
    (lookups_before (Z.of_nat n * minibatch_size_ op), Z.of_nat n * minibatch_size_ op,
     (fun t => lookups_before (t * minibatch_size_ op)) <$> range (Z.of_nat n),
     (fun t => t * minibatch_size_ op) <$> range (Z.of_nat n))).
  { induction n as [|n IH]; intros Hn; [done|].
    replace (Z.of_nat (S n)) with (Z.of_nat n + 1) by lia.
    rewrite range_succ, fold_left_app, IH by lia. cbn [fold_left index_table].
    rewrite !fmap_app. cbn [fmap list_fmap].
    assert (Hle : (Z.of_nat n + 1) * minibatch_size_ op ≤ 2 ^ 60) by nia.
    rewrite accumulate_window by (apply lengths_nonneg || apply Hop).
    pose proof (lookups_before_range ((Z.of_nat n + 1) * minibatch_size_ op)).
    assert (E : (Z.to_nat (Z.of_nat n * minibatch_size_ op) + Z.to_nat (minibatch_size_ op))%nat =
      Z.to_nat ((Z.of_nat n + 1) * minibatch_size_ op)) by nia.
    rewrite E. unfold lookups_before in *. rewrite !u64_small by nia.
    repeat f_equal; lia. }
  unfold init_tables_indexing_data. fold n_tables.
  unfold n_tables at 1. rewrite H by (unfold n_tables; lia). done.
Qed.

Definition pair_ok (p : Z * Z) : Prop := 0 ≤ p.1 < n_tables ∧ 0 ≤ p.2 < minibatch_size_ op.

Lemma flat_batch_range (p : Z * Z) :
  pair_ok p → 0 ≤ flat_batch p ∧ flat_batch p + 1 ≤ n_tables * minibatch_size_ op.
Proof. destruct p as [t b]. unfold pair_ok, flat_batch. cbn. intros [H1 H2]. nia. Qed.

Lemma flat_batch_inj (p q : Z * Z) : pair_ok p → pair_ok q → flat_batch p = flat_batch q → p = q.
Proof.
  destruct p as [t b], q as [t' b']. unfold pair_ok, flat_batch. cbn.
  intros [H1 H2] [H3 H4] E. assert (t = t') as -> by nia. f_equal. nia.
Qed.

(** The first pair of a chunk. *)
Definition chunk_head (td : Execution.TableData) : Z * Z :=
  (Execution.table_id_ td, default 0 (Execution.batch_offset_ td)).

Definition chunk_cell (td : Execution.TableData) : chunk_addr :=
  let p := chunk_head td in
  mkAddr (lookups_before (flat_batch p)) (flat_batch p) (psum_slot p)
         (if is_tagged op then Some (tag_slot p) else None).

Lemma range_fmap_at {A} (f : Z → A) (n t : Z) :
  0 ≤ t < n → vec_at (f <$> range n) t = Ok (f t).
Proof.
  intros Ht. apply vec_at_Ok. split; [lia|]. rewrite list_lookup_fmap, range_lookup by lia.
  cbn. by rewrite Z2Nat.id by lia.
Qed.

Lemma fill_table_data_spec (td : Execution.TableData) :
  is_Some (Execution.batch_offset_ td) → pair_ok (chunk_head td) →
  fill_table_data tp op
    ((fun t => lookups_before (t * minibatch_size_ op)) <$> range n_tables)
    ((fun t => t * minibatch_size_ op) <$> range n_tables) td = Ok (chunk_cell td).
Proof.
  intros [off Hoff] Hp. unfold fill_table_data, chunk_cell, psum_slot, tag_slot.
  unfold chunk_head in *. rewrite Hoff in *. cbn [from_option id of_option rbind] in *.
  set (t := Execution.table_id_ td) in *. pose proof (flat_batch_range _ Hp) as Hfb.
  destruct Hp as [Ht Hb]. cbn in Ht, Hb.
  rewrite !range_fmap_at by done. cbn [rbind]. fold fbytes.
  destruct Hop as [Hf Hmb HN Hlen Hls Hsum Hps Hend]. unfold TAG_SIZE in *.
  unfold flat_batch in *. cbn [fst snd] in *. set (mb := minibatch_size_ op) in *.
  set (N := n_tables) in *. set (F := fbytes) in *.
  assert (HF : 0 ≤ N * mb * F) by nia.
  assert (Hbound : N * mb ≤ 2 ^ 60) by nia.
  assert (B0 : 0 ≤ t * mb) by nia.
  assert (B1 : (t * mb + off + 1) * F ≤ N * mb * F) by (apply Z.mul_le_mono_nonneg_r; lia).
  assert (B2 : t * (mb * F) + off * F = (t * mb + off) * F) by ring.
  assert (B3 : 0 ≤ t * (mb * F) ∧ 0 ≤ off * F ∧ 0 ≤ mb * F) by (split_and!; nia).
  assert (B4 : 1 * mb * F ≤ N * mb * F).
  { apply Z.mul_le_mono_nonneg_r; [lia|]. apply Z.mul_le_mono_nonneg_r; lia. }
  rewrite Z.mul_add_distr_l in Hend. rewrite (u64_small F) by lia.
  rewrite (u64_small (mb * F)) by lia.
  rewrite (u64_small (mb * 16)) by lia.
  rewrite accumulate_window by (apply lengths_nonneg || done).
  assert (E : (Z.to_nat (t * mb) + Z.to_nat off)%nat = Z.to_nat (t * mb + off)) by lia.
  rewrite E. pose proof (lookups_before_range (t * mb + off)). unfold lookups_before in *.
  f_equal. f_equal.
  - rewrite u64_small; lia.
  - rewrite u64_small; lia.
  - rewrite (u64_small (t * (mb * F))), (u64_small (off * F)), u64_small by lia. lia.
  - destruct (is_tagged op); [|done]. f_equal. rewrite Hlen.
    rewrite (u64_small (t * (mb * 16))), (u64_small (off * 16)) by lia.
    rewrite (u64_small (psum_ op + N * mb * F)) by lia. rewrite u64_small by lia. lia.
Qed.

(** ** Filling the packs *)
Section packs.
Context (g : ExecutionGenerator.t) (execs : Z → list Execution.t).

(** Every chunk of every execution is committed and stays inside its table. *)
Definition execs_ok (E : list Execution.t) : Prop :=
  ∀ e td, e ∈ E → td ∈ Execution.tables_data_ e →
    chunk_set td ∧ Forall pair_ok (table_pairs td).

Context (Hexecs : ∀ p, p ∈ RankMemory.pack_identifiers tp →
  ExecutionGenerator.get_pack_execs g p = Ok (execs p) ∧ execs_ok (execs p)).

Lemma chunk_head_ok (td : Execution.TableData) :
  chunk_set td → Forall pair_ok (table_pairs td) → pair_ok (chunk_head td).
Proof.
  intros [[off Ho] Hc] HF. unfold chunk_head, table_pairs in *. rewrite Ho in *. cbn.
  rewrite <- (Z.add_0_r off). apply (proj1 (Forall_forall _ _) HF).
  apply list_elem_of_fmap. exists 0. split; [done|]. by apply elem_of_range.
Qed.

Definition pack_cells (p : Z) : list (list chunk_addr) :=
  (fun e => chunk_cell <$> Execution.tables_data_ e) <$> execs p.

Lemma fill_pack_spec (packs : list (list (list chunk_addr))) (p : Z) :
  p ∈ RankMemory.pack_identifiers tp → packs !! Z.to_nat p = Some [] →
  fill_pack tp op g
    ((fun t => lookups_before (t * minibatch_size_ op)) <$> range n_tables)
    ((fun t => t * minibatch_size_ op) <$> range n_tables) packs p =
  Ok (<[Z.to_nat p := pack_cells p]> packs).
Proof.
  intros Hp Hnil. destruct (Hexecs p Hp) as [Hg HE]. unfold fill_pack. rewrite Hg. cbn [rbind].
  apply elem_of_pack_identifiers in Hp. pose proof (lookup_lt_Some _ _ _ Hnil).
  assert (Hr : rmap (fun e => rmap (fill_table_data tp op
      ((fun t => lookups_before (t * minibatch_size_ op)) <$> range n_tables)
      ((fun t => t * minibatch_size_ op) <$> range n_tables)) (Execution.get_tables_data e))
      (execs p) = Ok (pack_cells p)).
  { apply rmap_spec. intros e He. apply rmap_spec. intros td Htd.
    destruct (HE e td He Htd) as [Hset HF].
    apply fill_table_data_spec; [apply Hset|by apply chunk_head_ok]. }
  destruct (execs p) as [|e E] eqn:Ex.
  - unfold pack_cells. rewrite Ex. cbn. by rewrite list_insert_id.
  - rewrite Hr. cbn [rbind]. by rewrite vec_set_Ok by lia.
Qed.

Lemma fill_packs_spec (L : list Z) : ∀ packs,
  NoDup L → (∀ p, p ∈ L → p ∈ RankMemory.pack_identifiers tp ∧ packs !! Z.to_nat p = Some []) →
  ∃ packs',
    rfold (fill_pack tp op g
      ((fun t => lookups_before (t * minibatch_size_ op)) <$> range n_tables)
      ((fun t => t * minibatch_size_ op) <$> range n_tables)) packs L = Ok packs' ∧
    (∀ p, p ∈ L → packs' !! Z.to_nat p = Some (pack_cells p)) ∧
    (∀ p, 0 ≤ p → p ∉ L → packs' !! Z.to_nat p = packs !! Z.to_nat p).
Proof.
  induction L as [|p L IH]; intros packs Hnd HL; cbn [rfold].
  - exists packs. split; [done|]. split; [|done]. intros p Hp. by apply elem_of_nil in Hp.
  - apply NoDup_cons in Hnd as [Hno Hnd]. destruct (HL p) as [Hp Hnil]; [by left|].
    rewrite fill_pack_spec by done. cbn [rbind].
    pose proof (proj1 (elem_of_pack_identifiers _ _) Hp).
    destruct (IH (<[Z.to_nat p := pack_cells p]> packs)) as (packs' & Hr & Hin & Hout); [done| |].
    { intros q Hq. destruct (HL q) as [Hq1 Hq2]; [by right|]. split; [done|].
      apply elem_of_pack_identifiers in Hq1. rewrite list_lookup_insert_ne; [done|].
      intros E. apply Hno. by replace p with q by lia. }
    exists packs'. split; [done|]. split.
    + intros q [->|Hq]%elem_of_cons; [|by apply Hin]. rewrite Hout by (done || lia).
      apply list_lookup_insert_eq. by apply lookup_lt_Some in Hnil.
    + intros q Hq0 [Hne Hq]%not_elem_of_cons. rewrite Hout by done.
      apply list_lookup_insert_ne. lia.
Qed.

Lemma packs_data_spec :
  ∃ d, ExecutionPacksData.init tp op g = Ok d ∧
    ∀ p i e, p ∈ RankMemory.pack_identifiers tp → 0 ≤ i → execs p !! Z.to_nat i = Some e →
      exec_addr d p i = Ok (chunk_cell <$> Execution.tables_data_ e).
Proof.
  unfold ExecutionPacksData.init. rewrite indexing_spec.
  destruct (fill_packs_spec (RankMemory.pack_identifiers tp)
    (RankMemory.make_packs_array tp [])) as (packs & Hr & Hin & _).
  - apply NoDup_pack_identifiers.
  - intros p Hp. split; [done|]. apply elem_of_pack_identifiers in Hp.
    apply lookup_replicate_2. lia.
  - rewrite Hr. cbn [rbind]. eexists. split; [done|].
    intros p i e Hp Hi He. unfold exec_addr. cbn [addr_].
    pose proof (proj1 (elem_of_pack_identifiers _ _) Hp).
    rewrite (proj2 (vec_at_Ok packs p (pack_cells p))) by (split; [lia|by apply Hin]).
    cbn [rbind]. apply vec_at_Ok. split; [done|]. unfold pack_cells.
    by rewrite list_lookup_fmap, He.
Qed.
End packs.
End operation.

(** ** Copies between disjoint ranges *)
Lemma copy_n_linear (n : nat) : ∀ (m : memory) (s d x : Z),
  0 ≤ s → s + Z.of_nat n ≤ 2 ^ 64 → 0 ≤ d → d + Z.of_nat n ≤ 2 ^ 64 →
  (s + Z.of_nat n ≤ d ∨ d + Z.of_nat n ≤ s) →
  copy_n m s n d x =
  if (d <=? x) && (x <? d + Z.of_nat n) then m (s + (x - d)) else m x.
Proof.
  induction n as [|n IH]; intros m s d x Hs Hs' Hd Hd' Hdis; cbn [copy_n].
  - destruct (d <=? x) eqn:E1, (x <? d + Z.of_nat 0) eqn:E2; zbool; try done. cbn in *. lia.
  - destruct n as [|n].
    + cbn [copy_n]. unfold upd.
      destruct (x =? d) eqn:E0, (d <=? x) eqn:E1, (x <? d + Z.of_nat 1) eqn:E2; cbn; zbool;
        try lia; try done. f_equal. lia.
    + rewrite !u64_small by lia. rewrite IH by lia. unfold upd.
      destruct (d + 1 <=? x) eqn:E1, (x <? d + 1 + Z.of_nat (S n)) eqn:E2,
        (d <=? x) eqn:E3, (x <? d + Z.of_nat (S (S n))) eqn:E4; cbn; zbool; try lia.
      * replace (s + 1 + (x - (d + 1)) =? d) with false by lia. f_equal. lia.
      * by replace (x =? d) with false by lia.
      * replace (x =? d) with true by lia. f_equal. lia.
      * by replace (x =? d) with false by lia.
Qed.

(** The copies of [write_result]: consecutive parts of the source buffer, each to
    its own destination. *)
Section cells.
Import SparseReduction.
Context (src S : Z) (Hsrc : 0 ≤ src) (Hsrc' : src + S < 2 ^ 64).

Definition in_cell (size : Z) (c : Execution.TableData * Z) (x : Z) : Prop :=
  c.2 ≤ x < c.2 + Execution.table_batches_chunk_ c.1 * size.

Definition cell_ok (size : Z) (c : Execution.TableData * Z) : Prop :=
  0 ≤ Execution.table_batches_chunk_ c.1 * size < 2 ^ 32 ∧
  0 ≤ c.2 ∧ c.2 + Execution.table_batches_chunk_ c.1 * size ≤ 2 ^ 64 ∧
  (src + S ≤ c.2 ∨ c.2 + Execution.table_batches_chunk_ c.1 * size ≤ src).

Definition cells_bytes (size : Z) (l : list (Execution.TableData * Z)) : Z :=
  sum_list_Z ((fun c => Execution.table_batches_chunk_ c.1 * size) <$> l).

Lemma cells_bytes_nonneg (size : Z) (l : list (Execution.TableData * Z)) :
  Forall (cell_ok size) l → 0 ≤ cells_bytes size l.
Proof.
  intros Hl. apply sum_list_Z_nonneg, Forall_fmap. eapply Forall_impl; [exact Hl|].
  intros c [H _]. apply H.
Qed.

Lemma cells_bytes_cons (size : Z) (c : Execution.TableData * Z)
    (l : list (Execution.TableData * Z)) :
  cells_bytes size (c :: l) = Execution.table_batches_chunk_ c.1 * size + cells_bytes size l.
Proof. reflexivity. Qed.

Lemma cells_bytes_app (size : Z) (l k : list (Execution.TableData * Z)) :
  cells_bytes size (l ++ k) = cells_bytes size l + cells_bytes size k.
Proof. unfold cells_bytes. by rewrite fmap_app, sum_list_Z_app. Qed.

Lemma gather_table_spec (size o : Z) (m : memory) (c : Execution.TableData * Z) (x : Z) :
  cell_ok size c → 0 ≤ o → o + Execution.table_batches_chunk_ c.1 * size ≤ S →
  S < 2 ^ 64 →
  (write_table size src (m, o) c).2 = o + Execution.table_batches_chunk_ c.1 * size ∧
  (¬ in_cell size c x → (write_table size src (m, o) c).1 x = m x) ∧
  (in_cell size c x → (write_table size src (m, o) c).1 x = m (src + o + (x - c.2))).
Proof.
  destruct c as [td d]. intros (Hn & Hd & Hd' & Hdis) Ho HS HS64. unfold write_table, in_cell.
  cbn [fst snd] in *. set (n := Execution.table_batches_chunk_ td * size) in *.
  assert (Hu : u32 n = n) by (unfold u32; rewrite Z.mod_small; lia). rewrite Hu.
  split; [apply u64_small; lia|]. rewrite u64_small by lia. rewrite copy_n_linear by lia.
  rewrite Z2Nat.id by lia.
  split; intros Hx.
  - destruct (d <=? x) eqn:E1, (x <? d + n) eqn:E2; zbool; try done. cbn. lia.
  - replace (d <=? x) with true by lia. by replace (x <? d + n) with true by lia.
Qed.

(** The bytes outside the cells are not written. *)
Lemma write_tables_frame (size : Z) (l : list (Execution.TableData * Z)) : ∀ m o x,
  Forall (cell_ok size) l → 0 ≤ o → o + cells_bytes size l ≤ S → S < 2 ^ 64 →
  (∀ c, c ∈ l → ¬ in_cell size c x) →
  (fold_left (write_table size src) l (m, o)).1 x = m x.
Proof.
  induction l as [|c l IH]; intros m o x Hl Ho HS HS64 Hx; [done|].
  inversion_clear Hl as [|? ? Hc Hl']. cbn [fold_left]. rewrite cells_bytes_cons in HS.
  pose proof (cells_bytes_nonneg size l Hl'). pose proof (proj1 Hc).
  destruct (gather_table_spec size o m c x) as (E & Hf & _); [done|lia|lia|lia|].
  destruct (write_table size src (m, o) c) as [m1 o1]. cbn [fst snd] in *. subst o1.
  rewrite IH; [apply Hf, Hx; by left|done|lia|lia|lia|]. intros c' Hc'. apply Hx. by right.
Qed.

(** A byte of a cell that no later cell covers comes from the cell's part of the
    source buffer. *)
Lemma write_tables_hit (size : Z) (l1 l2 : list (Execution.TableData * Z))
    (c : Execution.TableData * Z) : ∀ m o x,
  Forall (cell_ok size) (l1 ++ c :: l2) → 0 ≤ o → o + cells_bytes size (l1 ++ c :: l2) ≤ S →
  S < 2 ^ 64 → in_cell size c x → (∀ c', c' ∈ l2 → ¬ in_cell size c' x) →
  (fold_left (write_table size src) (l1 ++ c :: l2) (m, o)).1 x =
  m (src + o + cells_bytes size l1 + (x - c.2)).
Proof.
  induction l1 as [|c1 l1 IH]; intros m o x Hl Ho HS HS64 Hin Hout; cbn [app fold_left] in *;
    inversion_clear Hl as [|? ? Hc Hl']; rewrite cells_bytes_cons in *;
    pose proof (cells_bytes_nonneg size _ Hl'); pose proof (proj1 Hc).
  - destruct (gather_table_spec size o m c x) as (E & _ & Hh); [done|lia|lia|lia|].
    destruct (write_table size src (m, o) c) as [m1 o1]. cbn [fst snd] in *. subst o1.
    rewrite write_tables_frame by (done || lia). rewrite Hh by done. f_equal.
    unfold cells_bytes, sum_list_Z. cbn. lia.
  - pose proof Hl' as Hsplit. apply Forall_app in Hsplit as [Hl1 Hl2].
    inversion_clear Hl2 as [|? ? Hcc Hl2'].
    pose proof (cells_bytes_nonneg size l1 Hl1). pose proof (cells_bytes_nonneg size l2 Hl2').
    rewrite cells_bytes_app, cells_bytes_cons in *.
    destruct (gather_table_spec size o m c1 (src + (o + Execution.table_batches_chunk_ c1.1 * size) +
      cells_bytes size l1 + (x - c.2))) as (E & Hf & _); [done|lia|lia|lia|].
    destruct (write_table size src (m, o) c1) as [m1 o1]. cbn [fst snd] in *. subst o1.
    rewrite IH by (done || lia).
    rewrite Hf; [f_equal; lia|].
    destruct Hc as (_ & _ & _ & Hdis). unfold in_cell in *. lia.
Qed.
End cells.

(** ** Positions in a concatenation *)
Lemma elem_of_concat {A} (ll : list (list A)) (x : A) : x ∈ concat ll ↔ ∃ l, l ∈ ll ∧ x ∈ l.
Proof.
  induction ll as [|l ll IH]; cbn.
  - split; [by intros ?%elem_of_nil|]. by intros (? & ?%elem_of_nil & _).
  - rewrite elem_of_app, IH. split.
    + intros [H|(k & Hk & H)]; [exists l|exists k]; rewrite elem_of_cons; auto.
    + intros (k & [->|Hk]%elem_of_cons & H); [by left|right; eauto].
Qed.

Lemma lookup_concat_fmap {A B} (f : A → list B) (l : list A) : ∀ (k : nat) (y : B),
  concat (f <$> l) !! k = Some y →
  ∃ l1 x l2 j, l = l1 ++ x :: l2 ∧ k = (length (concat (f <$> l1)) + j)%nat ∧ f x !! j = Some y.
Proof.
  induction l as [|x l IH]; intros k y; cbn; [done|]. rewrite lookup_app_Some.
  intros [H|[Hle H]].
  - by exists [], x, l, k.
  - destruct (IH _ _ H) as (l1 & x' & l2 & j & -> & Ek & Hj).
    exists (x :: l1), x', l2, j. split; [done|]. split; [|done]. cbn. rewrite length_app. lia.
Qed.

(** ** Results of one execution *)
Section write_exec.
Import SlsOperation ExecutionPacksData SparseReduction.
Context (tp : Constants) (op : SlsOperation.t) (Hop : op_ok tp op).

Definition psum_cell (td : Execution.TableData) : Execution.TableData * Z :=
  (td, psum_slot tp op (chunk_head td)).

Lemma zip_cells (tds : list Execution.TableData) :
  zip tds (a_psum <$> (chunk_cell tp op <$> tds)) = psum_cell <$> tds.
Proof. induction tds as [|td tds IH]; [done|]. cbn in *. by rewrite IH. Qed.

Lemma length_table_pairs (td : Execution.TableData) :
  chunk_set td → Z.of_nat (length (table_pairs td)) = Execution.table_batches_chunk_ td.
Proof.
  intros [[off Ho] Hc]. unfold table_pairs. rewrite Ho. unfold chunk_pairs.
  rewrite length_fmap, length_range. lia.
Qed.

Lemma cells_bytes_pairs (tds : list Execution.TableData) :
  Forall chunk_set tds →
  cells_bytes (fbytes tp op) (psum_cell <$> tds) =
  Z.of_nat (length (concat (table_pairs <$> tds))) * fbytes tp op.
Proof.
  induction 1 as [|td tds Htd _ IH]; [done|]. cbn [fmap list_fmap concat] in *.
  rewrite cells_bytes_cons, IH, length_app. cbn [fst psum_cell].
  rewrite <- (length_table_pairs td Htd). lia.
Qed.

Lemma table_pairs_lookup (td : Execution.TableData) (j : nat) (p : Z * Z) :
  table_pairs td !! j = Some p →
  p = (Execution.table_id_ td, default 0 (Execution.batch_offset_ td) + Z.of_nat j) ∧
  Z.of_nat j < Execution.table_batches_chunk_ td.
Proof.
  unfold table_pairs. destruct (Execution.batch_offset_ td) as [off|]; [|done].
  unfold chunk_pairs. rewrite list_lookup_fmap. cbn. intros Hj.
  destruct (decide (j < Z.to_nat (Execution.table_batches_chunk_ td))%nat) as [Hlt|].
  - rewrite range_lookup in Hj by done. injection Hj as <-. split; [done|lia].
  - rewrite lookup_ge_None_2 in Hj by (rewrite length_range; lia). done.
Qed.

(** The cell of a chunk is the union of its pairs' slots. *)
Lemma psum_slot_in_chunk (td : Execution.TableData) (j : nat) (p : Z * Z) :
  table_pairs td !! j = Some p →
  psum_slot tp op p = psum_slot tp op (chunk_head td) + Z.of_nat j * fbytes tp op.
Proof.
  intros [-> _]%table_pairs_lookup. unfold psum_slot, flat_batch, chunk_head. cbn [fst snd]. lia.
Qed.

Lemma in_cell_slot (td : Execution.TableData) (x : Z) :
  chunk_set td → in_cell (fbytes tp op) (psum_cell td) x →
  ∃ p i, p ∈ table_pairs td ∧ 0 ≤ i < fbytes tp op ∧ x = psum_slot tp op p + i.
Proof.
  intros Hset [H1 H2]. cbn [fst snd psum_cell] in *. pose proof (oo_fbytes _ _ Hop) as HF.
  set (F := fbytes tp op) in *. set (h := psum_slot tp op (chunk_head td)) in *.
  set (j := (x - h) / F).
  assert (Hj : 0 ≤ j < Execution.table_batches_chunk_ td).
  { split; [apply Z.div_pos; lia|]. apply Z.div_lt_upper_bound; lia. }
  destruct (lookup_lt_is_Some_2 (table_pairs td) (Z.to_nat j)) as [p Hp].
  { pose proof (length_table_pairs td Hset). lia. }
  exists p, ((x - h) mod F). split; [by eapply list_elem_of_lookup_2|].
  split; [apply Z.mod_pos_bound; lia|].
  rewrite (psum_slot_in_chunk td (Z.to_nat j) p Hp). fold F h.
  pose proof (Z.div_mod (x - h) F ltac:(lia)). fold j in H. lia.
Qed.

Lemma psum_slot_inj (p q : Z * Z) (i j : Z) :
  pair_ok op p → pair_ok op q → 0 ≤ i < fbytes tp op → 0 ≤ j < fbytes tp op →
  psum_slot tp op p + i = psum_slot tp op q + j → p = q ∧ i = j.
Proof.
  intros Hp Hq Hi Hj E. unfold psum_slot in E.
  assert (flat_batch op p = flat_batch op q) as E' by nia.
  split; [|rewrite E' in E; lia]. by apply (flat_batch_inj op).
Qed.

Lemma psum_slot_range (p : Z * Z) :
  pair_ok op p → psum_ op ≤ psum_slot tp op p ∧
  psum_slot tp op p + fbytes tp op ≤ psum_ op + n_tables op * minibatch_size_ op * fbytes tp op.
Proof.
  intros Hp. pose proof (flat_batch_range op p Hp) as [H1 H2].
  pose proof (oo_fbytes _ _ Hop). unfold psum_slot. nia.
Qed.

Section exec.
Context (e : Execution.t) (src : Z) (m : memory).
Let P : list (Z * Z) := exec_pairs e.
Let S : Z := Z.of_nat (length P) * fbytes tp op.
Context (Htds : Forall (fun td => chunk_set td ∧ Forall (pair_ok op) (table_pairs td))
                  (Execution.tables_data_ e)).
Context (Hnd : NoDup P) (HS : S < 2 ^ 32) (Hsrc : 0 ≤ src) (Hsrc' : src + S < 2 ^ 64).
Context (Hdis : src + S ≤ psum_ op ∨
                psum_ op + n_tables op * minibatch_size_ op * fbytes tp op ≤ src).

Lemma chunk_bytes_le (td : Execution.TableData) :
  td ∈ Execution.tables_data_ e →
  0 ≤ Execution.table_batches_chunk_ td * fbytes tp op ≤ S.
Proof.
  intros Hin. pose proof (proj1 (Forall_forall _ _) Htds td Hin) as [Hset _].
  apply list_elem_of_split in Hin as (l1 & l2 & E). pose proof (oo_fbytes _ _ Hop).
  unfold S, P, exec_pairs. rewrite E, fmap_app, concat_app. cbn [fmap list_fmap concat].
  rewrite !length_app. pose proof (length_table_pairs td Hset). nia.
Qed.

Lemma exec_cells_ok : Forall (cell_ok src S (fbytes tp op)) (psum_cell <$> Execution.tables_data_ e).
Proof.
  apply Forall_fmap, Forall_forall. intros td Hin.
  pose proof (proj1 (Forall_forall _ _) Htds td Hin) as [Hset HF].
  pose proof (chunk_bytes_le td Hin) as Hb. pose proof (oo_fbytes _ _ Hop) as HFb.
  assert (Hh : pair_ok op (chunk_head td)) by (by apply chunk_head_ok).
  destruct (psum_slot_range _ Hh) as [Hlo _].
  (* the last pair of the chunk *)
  pose proof (length_table_pairs td Hset) as Hlen. pose proof (proj2 Hset) as Hpos.
  set (n := Z.to_nat (Execution.table_batches_chunk_ td - 1)).
  destruct (lookup_lt_is_Some_2 (table_pairs td) n) as [q Hq]; [lia|].
  pose proof (proj1 (Forall_lookup _ _) HF n q Hq) as Hqok.
  destruct (psum_slot_range _ Hqok) as [_ Hhi].
  rewrite (psum_slot_in_chunk td n q Hq) in Hhi.
  assert (Hend : psum_slot tp op (chunk_head td) + Execution.table_batches_chunk_ td * fbytes tp op ≤
    psum_ op + n_tables op * minibatch_size_ op * fbytes tp op) by nia.
  pose proof (oo_psum_end _ _ Hop). pose proof (oo_psum _ _ Hop).
  pose proof (oo_tables _ _ Hop). pose proof (oo_mb _ _ Hop).
  assert (0 ≤ n_tables op * minibatch_size_ op) by nia. unfold TAG_SIZE in *.
  split; cbn [fst snd psum_cell]; [lia|]. split; [lia|]. split; [lia|]. lia.
Qed.

Lemma write_exec_frame (x : Z) :
  (∀ p i, p ∈ P → 0 ≤ i < fbytes tp op → x ≠ psum_slot tp op p + i) →
  write_exec e (a_psum <$> (chunk_cell tp op <$> Execution.tables_data_ e)) src (fbytes tp op) m x
  = m x.
Proof.
  intros Hx. unfold write_exec, Execution.get_tables_data. rewrite zip_cells.
  apply (write_tables_frame src S); [done|done|apply exec_cells_ok|lia| |lia|].
  - rewrite cells_bytes_pairs by (eapply Forall_impl; [exact Htds|]; by intros ? []). done.
  - intros c (td & -> & Hin)%list_elem_of_fmap Hc.
    pose proof (proj1 (Forall_forall _ _) Htds td Hin) as [Hset _].
    destruct (in_cell_slot td x Hset Hc) as (p & i & Hp & Hi & ->).
    apply (Hx p i); [|done|done]. unfold P, exec_pairs. apply elem_of_concat.
    exists (table_pairs td). split; [by apply list_elem_of_fmap_2|done].
Qed.

Lemma write_exec_hit (k : nat) (p : Z * Z) (i : Z) :
  P !! k = Some p → 0 ≤ i < fbytes tp op →
  write_exec e (a_psum <$> (chunk_cell tp op <$> Execution.tables_data_ e)) src (fbytes tp op) m
    (psum_slot tp op p + i) = m (src + Z.of_nat k * fbytes tp op + i).
Proof.
  intros Hk Hi. unfold write_exec, Execution.get_tables_data. rewrite zip_cells.
  assert (Hall : Forall chunk_set (Execution.tables_data_ e))
    by (eapply Forall_impl; [exact Htds|]; by intros ? []).
  pose proof (cells_bytes_pairs _ Hall) as Hbytes. fold (exec_pairs e) P S in Hbytes.
  pose proof exec_cells_ok as Hok.
  pose proof Hk as Hk'. unfold P, exec_pairs in Hk'.
  apply lookup_concat_fmap in Hk' as (l1 & td & l2 & j & E & -> & Hj).
  assert (Hin : td ∈ Execution.tables_data_ e) by (rewrite E; apply elem_of_app; right; by left).
  pose proof (proj1 (Forall_forall _ _) Htds td Hin) as [Hset HF].
  rewrite E, fmap_app in *. cbn [fmap list_fmap] in *.
  rewrite (write_tables_hit src S Hsrc Hsrc' _ (psum_cell <$> l1)); [|done|lia|lia|lia| |].
  - f_equal. apply Forall_app in Hall as [Hl1 _]. rewrite cells_bytes_pairs by done.
    cbn [snd psum_cell]. rewrite (psum_slot_in_chunk td j p Hj). lia.
  - unfold in_cell. cbn [fst snd psum_cell]. rewrite (psum_slot_in_chunk td j p Hj).
    apply table_pairs_lookup in Hj as [_ Hj]. nia.
  - intros c (td2 & -> & Hin2)%list_elem_of_fmap Hc.
    assert (Hin2' : td2 ∈ l1 ++ td :: l2) by (apply elem_of_app; right; by right).
    pose proof (proj1 (Forall_forall _ _) Htds td2 Hin2') as [Hset2 HF2].
    destruct (in_cell_slot td2 _ Hset2 Hc) as (q & i2 & Hq & Hi2 & Eq).
    apply psum_slot_inj in Eq as [<- _]; [..|done|done].
    + unfold P, exec_pairs in Hnd. rewrite E, fmap_app, concat_app in Hnd.
      apply NoDup_app in Hnd as (_ & _ & Hnd'). cbn [fmap list_fmap concat] in Hnd'.
      apply NoDup_app in Hnd' as (_ & Hd & _). apply (Hd p).
      * by eapply list_elem_of_lookup_2.
      * apply elem_of_concat. exists (table_pairs td2). split; [by apply list_elem_of_fmap_2|done].
    + by apply (proj1 (Forall_lookup _ _) HF j).
    + by apply (proj1 (Forall_forall _ _) HF2).
Qed.
End exec.
End write_exec.

(** ** The whole operation *)
Section whole.
Import SlsOperation ExecutionPacksData SparseReduction.
Context {G : InstructionGenerator}.
Context (tp : Constants) (op : SlsOperation.t) (env : option (Z * positive)).

(** The device's buffers, as the sizes of their types allow. *)
Record device_ok : Prop := {
  do_inst : 0 ≤ inst_per_single_buf_no_header tp < 2 ^ 32;
  do_psum : fbytes tp op ≤ psum_single_buf_size tp < 2 ^ 32
}.

Definition env_ok : Prop :=
  match env with None => True | Some (num, den) => Zpos den ≤ num end.

Lemma divider_ge_1 : 1 ≤ choose_optimal_buf_divider op.
Proof. unfold choose_optimal_buf_divider. repeat case_match; lia. Qed.

Lemma fold_max_spec (l : list Z) : ∀ x,
  x ≤ fold_left Z.max l x ∧ Forall (fun y => y ≤ fold_left Z.max l x) l ∧
  (fold_left Z.max l x = x ∨ fold_left Z.max l x ∈ l).
Proof.
  induction l as [|y l IH]; intros x; cbn [fold_left]; [by repeat split; [lia|constructor|left]|].
  destruct (IH (Z.max x y)) as (H1 & H2 & H3). split; [lia|]. split.
  - constructor; [lia|done].
  - destruct H3 as [H3|H3]; [|right; by right].
    destruct (Z.max_spec x y) as [[_ Em]|[_ Em]]; rewrite Em in H3 at 2;
      [right; rewrite H3; by left | left; lia].
Qed.

Lemma instr_buffer_size_spec (cap : Z) :
  env_ok → 0 ≤ cap → lengths_ op ≠ [] →
  ∃ maxi, set_instr_buffer_size op env cap = Ok maxi ∧
    Forall (fun x => x ≤ maxi) (lengths_ op) ∧
    (maxi ≤ cap ∨ maxi ∈ lengths_ op).
Proof.
  intros Henv Hcap Hne. unfold set_instr_buffer_size.
  assert (Hd : ∃ num den, (match env with
     | None => Ok (choose_optimal_buf_divider op, 1%positive)
     | Some (num, den) => if num <? Zpos den then Err LogicError else Ok (num, den)
     end) = Ok (num, den) ∧ Zpos den ≤ num).
  { unfold env_ok in Henv. destruct env as [[num den]|].
    - exists num, den. replace (num <? Zpos den) with false by lia. done.
    - eexists _, _. split; [done|]. apply divider_ge_1. }
  destruct Hd as (num & den & -> & Hle). cbn [rbind].
  destruct (lengths_ op) as [|x l] eqn:El; [done|].
  destruct (fold_max_spec l x) as (H1 & H2 & H3).
  eexists. split; [done|].
  assert (Hq : cap * Zpos den / num ≤ cap) by (apply Z.div_le_upper_bound; nia). split.
  - constructor; [lia|]. eapply Forall_impl; [exact H2|]. cbn. lia.
  - destruct (Z.max_spec (fold_left Z.max l x) (cap * Zpos den / num)) as [[_ ->]|[_ ->]]; [by left|].
    right. destruct H3 as [->|H3]; [by left|by right].
Qed.

Context (Hop : op_ok tp op) (Hdev : device_ok) (Henv : env_ok).
Context (Hlay : layout_ok tp (layout_ op) (n_tables op)).
Let mb : Z := minibatch_size_ op.
Let N : Z := n_tables op.
Let maxf : Z := psum_single_buf_size tp / fbytes tp op.

Lemma lengths_nonempty : lengths_ op ≠ [].
Proof.
  intros E. pose proof (oo_length _ _ Hop) as H. rewrite E in H. cbn in H.
  pose proof (oo_mb _ _ Hop). pose proof (oo_tables _ _ Hop). nia.
Qed.

Lemma exec_gen_spec :
  ∃ maxi g, init_exec_gen tp op env = Ok g ∧
    params_ok maxi maxf (fbytes tp op) mb N (lengths_ op) ∧
    (maxi ≤ inst_per_single_buf_no_header tp ∨ maxi ∈ lengths_ op) ∧
    ∀ p, p ∈ RankMemory.pack_identifiers tp → ∃ E,
      ExecutionGenerator.get_pack_execs g p = Ok E ∧
      pack_result maxi maxf (fbytes tp op) mb (lengths_ op) (pack_objs (layout_ op) p) E.
Proof.
  destruct (instr_buffer_size_spec (inst_per_single_buf_no_header tp)) as (maxi & Hmi & HF & Hb);
    [done|apply Hdev|apply lengths_nonempty|].
  pose proof (oo_fbytes _ _ Hop) as HFb. pose proof (do_psum Hdev) as Hps.
  assert (Hpar : params_ok maxi maxf (fbytes tp op) mb N (lengths_ op)).
  { pose proof lengths_nonempty as Hne. pose proof (oo_lengths _ _ Hop) as Hpos.
    destruct (lengths_ op) as [|x l] eqn:El; [done|]. rewrite <- El in *.
    assert (Hx : 0 < maxi).
    { rewrite El in HF, Hpos. inversion_clear HF. inversion_clear Hpos. lia. }
    split; try apply Hop; try lia.
    - split; [done|]. destruct Hb as [Hb|Hb]; [pose proof (do_inst Hdev); lia|].
      pose proof (sum_list_Z_elem (lengths_ op) maxi (lengths_nonneg tp op Hop) Hb).
      pose proof (oo_sum _ _ Hop). lia.
    - unfold maxf. split; [apply Z.div_str_pos; lia|].
      apply Z.div_lt_upper_bound; nia.
    - apply Forall_lookup. intros i y Hy. split.
      + exact (proj1 (Forall_lookup _ _) Hpos _ _ Hy).
      + exact (proj1 (Forall_lookup _ _) HF _ _ Hy). }
  unfold init_exec_gen. rewrite (fbytes_data_nb tp op Hop).
  replace (fbytes tp op =? 0) with false by lia. cbn [rbind]. rewrite Hmi. cbn [rbind].
  unfold RankMemory.of_vector. pose proof (lo_length _ _ _ Hlay) as Hlen. rewrite Hlen, Z.eqb_refl.
  cbn [assert rbind].
  destruct (generate_spec tp (layout_ op) maxi maxf (fbytes tp op) mb N (lengths_ op) Hpar
    (RankMemory.make_packs_array tp [])) as (tb & ps & Hg & Hp).
  - done.
  - unfold RankMemory.make_packs_array. rewrite length_replicate. lia.
  - exists maxi. eexists. split; [exact Hg|]. split; [done|]. split; [done|].
    intros p Hpi. destruct (Hp p Hpi) as (E & HE & HR). exists E. split; [|done].
    apply elem_of_pack_identifiers in Hpi. pose proof (lo_packs _ _ _ Hlay).
    unfold ExecutionGenerator.get_pack_execs. cbn [ExecutionGenerator.exec_packs_ gst].
    replace (u8 p) with p by (unfold u8; rewrite Z.mod_small; lia).
    apply vec_at_Ok. split; [lia|done].
Qed.

Lemma stored_ids (p : Z) (o : MemoryObject.t) :
  p ∈ RankMemory.pack_identifiers tp → o ∈ pack_objs (layout_ op) p →
  0 ≤ MemoryObject.id o < N.
Proof.
  intros Hp Ho. apply (lo_ids _ _ _ Hlay). apply elem_of_concat.
  exists (pack_objs (layout_ op) p). split; [by apply list_elem_of_fmap_2|done].
Qed.

Lemma NoDup_pack_ids (p : Z) :
  p ∈ RankMemory.pack_identifiers tp → NoDup (MemoryObject.id <$> pack_objs (layout_ op) p).
Proof.
  intros Hp. pose proof (lo_nodup _ _ _ Hlay) as H.
  apply list_elem_of_split in Hp as (l1 & l2 & E). rewrite E, fmap_app, concat_app in H.
  cbn in H. rewrite !fmap_app in H. apply NoDup_app in H as (_ & _ & H).
  by apply NoDup_app in H as (H & _ & _).
Qed.

Lemma tables_pairs_elem (objs : list MemoryObject.t) (q : Z * Z) :
  q ∈ tables_pairs mb objs ↔ ∃ o, o ∈ objs ∧ q.1 = MemoryObject.id o ∧ 0 ≤ q.2 < mb.
Proof.
  unfold tables_pairs. rewrite elem_of_concat. split.
  - intros (l & (o & -> & Ho)%list_elem_of_fmap & Hq). unfold chunk_pairs in Hq.
    apply list_elem_of_fmap in Hq as (i & -> & Hi%elem_of_range). exists o. cbn. auto with lia.
  - intros (o & Ho & E & Hb). eexists. split; [by apply list_elem_of_fmap_2|].
    apply list_elem_of_fmap. exists q.2. split; [|by apply elem_of_range].
    destruct q. cbn in *. by rewrite E.
Qed.

Lemma NoDup_tables_pairs (objs : list MemoryObject.t) :
  NoDup (MemoryObject.id <$> objs) → NoDup (tables_pairs mb objs).
Proof.
  induction objs as [|o objs IH]; intros Hnd; [constructor|].
  cbn in Hnd. apply NoDup_cons in Hnd as [Hno Hnd]. unfold tables_pairs in *.
  cbn [fmap list_fmap concat]. apply NoDup_app. split; [|split; [|by apply IH]].
  - unfold chunk_pairs. apply NoDup_fmap_2; [intros ?? [= ?]; lia | apply NoDup_range].
  - intros q Hq Hq'. unfold chunk_pairs in Hq. apply list_elem_of_fmap in Hq as (i & -> & _).
    apply (tables_pairs_elem objs) in Hq' as (o' & Ho' & E & _). cbn in E. rewrite E in Hno.
    apply Hno. by apply list_elem_of_fmap_2.
Qed.

(** What is known of the executions of a pack. *)
Lemma pack_execs_ok (maxi p : Z) (E : list Execution.t) :
  p ∈ RankMemory.pack_identifiers tp →
  pack_result maxi maxf (fbytes tp op) mb (lengths_ op) (pack_objs (layout_ op) p) E →
  ∀ e, e ∈ E →
    Forall (fun td => chunk_set td ∧ Forall (pair_ok op) (table_pairs td)) (Execution.tables_data_ e) ∧
    NoDup (exec_pairs e) ∧ Z.of_nat (length (exec_pairs e)) * fbytes tp op ≤ psum_single_buf_size tp.
Proof.
  intros Hp [HF Hc] e He. pose proof (proj1 (Forall_forall _ _) HF e He) as Hg.
  assert (Hin : ∀ q, q ∈ exec_pairs e → q ∈ tables_pairs mb (pack_objs (layout_ op) p)).
  { intros q Hq. rewrite <- Hc. apply elem_of_concat. exists (exec_pairs e).
    split; [by apply list_elem_of_fmap_2|done]. }
  split; [|split].
  - apply Forall_forall. intros td Htd. split.
    + exact (proj1 (Forall_forall _ _) (ge_offsets _ _ _ _ _ _ Hg) td Htd).
    + apply Forall_forall. intros q Hq.
      destruct (proj1 (tables_pairs_elem _ q) (Hin q ltac:(apply elem_of_concat; exists (table_pairs td);
        split; [by apply list_elem_of_fmap_2|done]))) as (o & Ho & Eo & Hb).
      split; [rewrite Eo; by apply (stored_ids p)|done].
  - pose proof (NoDup_tables_pairs _ (NoDup_pack_ids p Hp)) as Hnd. rewrite <- Hc in Hnd.
    apply list_elem_of_split in He as (l1 & l2 & ->).
    rewrite fmap_app, concat_app in Hnd. apply NoDup_app in Hnd as (_ & _ & Hnd).
    by apply NoDup_app in Hnd as (Hnd & _ & _).
  - rewrite <- (ge_batches _ _ _ _ _ _ Hg). pose proof (ge_fit_psum _ _ _ _ _ _ Hg) as Hf.
    pose proof (oo_fbytes _ _ Hop). unfold maxf in Hf.
    pose proof (Z.mul_div_le (psum_single_buf_size tp) (fbytes tp op)). nia.
Qed.

(** The trace generator of a pack: the row size is that of the operation, and the
    row bound covers every table of the pack. *)
Definition generator_ok (objs : list MemoryObject.t) (g : TraceGenerator.t) : Prop :=
  TraceGenerator.bytes_per_row_ g = fbytes tp op ∧
  TraceGeneratorCore.bytes_per_row_full_ (TraceGenerator.core_ g) =
    u32 (u64 (fbytes tp op + (if is_tagged op then AlignedTagSize tp else 0))) ∧
  ∀ o, o ∈ objs → ∃ s, vec_at (tables_sizes_ op) (MemoryObject.id o) = Ok s ∧
    s ≤ TraceGeneratorCore.max_tables_rows_num_ (TraceGenerator.core_ g).

Lemma stored_size (p : Z) (o : MemoryObject.t) :
  p ∈ RankMemory.pack_identifiers tp → o ∈ pack_objs (layout_ op) p →
  ∃ s, vec_at (tables_sizes_ op) (MemoryObject.id o) = Ok s.
Proof.
  intros Hp Ho. pose proof (stored_ids p o Hp Ho) as Hid. unfold N, n_tables in Hid.
  destruct (lookup_lt_is_Some_2 (tables_sizes_ op) (Z.to_nat (MemoryObject.id o))) as [s Hs]; [lia|].
  exists s. apply vec_at_Ok. split; [lia|done].
Qed.

Lemma max_rows_spec (l : list MemoryObject.t) : ∀ m,
  (∀ o, o ∈ l → ∃ s, vec_at (tables_sizes_ op) (MemoryObject.id o) = Ok s) →
  ∃ m', rfold (fun m x => let! s := vec_at (tables_sizes_ op) (MemoryObject.id x) in Ok (Z.max m s)) m l
        = Ok m' ∧ m ≤ m' ∧
    ∀ o s, o ∈ l → vec_at (tables_sizes_ op) (MemoryObject.id o) = Ok s → s ≤ m'.
Proof.
  induction l as [|x l IH]; intros m Hl; cbn [rfold].
  - exists m. split; [done|]. split; [lia|]. intros o s Ho. by apply elem_of_nil in Ho.
  - destruct (Hl x) as [s Hs]; [by left|]. rewrite Hs. cbn [rbind].
    destruct (IH (Z.max m s)) as (m' & Hr & Hle & Hb); [intros; apply Hl; by right|].
    exists m'. split; [done|]. split; [lia|]. intros o s' [->|Ho]%elem_of_cons Hs'; [|by eapply Hb].
    rewrite Hs in Hs'. injection Hs' as <-. lia.
Qed.

Lemma init_trace_pack_spec (gens : list TraceGenerator.t) (p : Z) :
  p ∈ RankMemory.pack_identifiers tp → length gens = Z.to_nat (RankMemory.num_of_pack tp) →
  ∃ gens', init_trace_pack tp op gens p = Ok gens' ∧ length gens' = length gens ∧
    (∀ q, 0 ≤ q → q ≠ p → gens' !! Z.to_nat q = gens !! Z.to_nat q) ∧
    (pack_objs (layout_ op) p ≠ [] →
     ∃ g, gens' !! Z.to_nat p = Some g ∧ generator_ok (pack_objs (layout_ op) p) g).
Proof.
  intros Hp Hl. pose proof (lo_length _ _ _ Hlay) as Hlen.
  pose proof (proj1 (elem_of_pack_identifiers _ _) Hp) as Hpr. unfold init_trace_pack.
  destruct (lookup_lt_is_Some_2 (layout_ op) (Z.to_nat p)) as [objs Hobjs]; [lia|].
  rewrite (proj2 (vec_at_Ok _ p objs)) by (split; [lia|done]). cbn [rbind].
  assert (Ep : pack_objs (layout_ op) p = objs) by (unfold pack_objs; by rewrite Hobjs).
  assert (Hsz : ∀ o, o ∈ objs → ∃ s, vec_at (tables_sizes_ op) (MemoryObject.id o) = Ok s)
    by (intros o Ho; apply (stored_size p); [done|by rewrite Ep]).
  rewrite Ep. destruct objs as [|o os]; [by exists gens|].
  destruct (Hsz o) as [s Hs]; [by left|]. rewrite Hs. cbn [rbind].
  destruct (max_rows_spec os s) as (m' & -> & Hle & Hb); [intros; apply Hsz; by right|]. cbn [rbind].
  destruct (lookup_lt_is_Some_2 gens (Z.to_nat p)) as [g Hg]; [lia|].
  rewrite (proj2 (vec_at_Ok _ p g)) by (split; [lia|done]). cbn [rbind].
  rewrite vec_set_Ok by lia. eexists. split; [done|]. split; [by rewrite length_insert|]. split.
  - intros q Hq Hne. apply list_lookup_insert_ne. lia.
  - intros _. eexists. split; [apply list_lookup_insert_eq; by apply lookup_lt_Some in Hg|].
    unfold TraceGenerator.init, TraceGeneratorCore.init, TraceGeneratorCore.init_mapping.
    rewrite (fbytes_data_nb tp op Hop). split; [done|]. split; [done|]. cbn.
    intros x Hx. destruct (Hsz x Hx) as [s' Hs']. exists s'. split; [done|].
    apply elem_of_cons in Hx as [->|Hx]; [|by eapply Hb]. rewrite Hs in Hs'. by injection Hs' as <-.
Qed.

Lemma trace_gen_spec : ∃ gens, init_trace_gen tp op = Ok gens ∧
  ∀ p, p ∈ RankMemory.pack_identifiers tp → pack_objs (layout_ op) p ≠ [] →
    ∃ g, vec_at gens p = Ok g ∧ generator_ok (pack_objs (layout_ op) p) g.
Proof.
  destruct (rfold_invariant (init_trace_pack tp op)
    (fun dn gens => length gens = Z.to_nat (RankMemory.num_of_pack tp) ∧
       ∀ p, p ∈ dn → pack_objs (layout_ op) p ≠ [] →
         ∃ g, gens !! Z.to_nat p = Some g ∧ generator_ok (pack_objs (layout_ op) p) g)
    (RankMemory.pack_identifiers tp)
    (RankMemory.make_packs_array tp (TraceGenerator.mk 0 TraceGeneratorCore.empty [] [])))
    as (gens & Hr & _ & Hgens).
  - split; [apply length_replicate|]. intros p Hp. by apply elem_of_nil in Hp.
  - intros dn p td gens Ep [Hl Hdn].
    assert (Hp : p ∈ RankMemory.pack_identifiers tp) by (rewrite Ep; apply elem_of_app; right; by left).
    destruct (init_trace_pack_spec gens p Hp Hl) as (gens' & Hi & Hl' & Hoth & Hnew).
    exists gens'. split; [done|]. split; [by rewrite Hl'|]. intros q Hq Hne.
    destruct (decide (q = p)) as [->|Hqp]; [by apply Hnew|].
    apply elem_of_app in Hq as [Hq|Hq]; [|by apply list_elem_of_singleton in Hq].
    assert (Hq0 : q ∈ RankMemory.pack_identifiers tp) by (rewrite Ep; apply elem_of_app; by left).
    apply elem_of_pack_identifiers in Hq0. rewrite Hoth by lia. by apply Hdn.
  - exists gens. split; [done|]. intros p Hp Hne. destruct (Hgens p Hp Hne) as (g & Hg & Hok).
    exists g. split; [|done]. apply vec_at_Ok. split; [|done].
    apply elem_of_pack_identifiers in Hp. lia.
Qed.

Lemma reduction_make_spec : ∃ maxi (r : SparseReduction.t G) (execs : Z → list Execution.t),
  SparseReduction.make tp op env = Ok r ∧ sls_op_ r = op ∧
  (maxi ≤ inst_per_single_buf_no_header tp ∨ maxi ∈ lengths_ op) ∧
  ∀ p, p ∈ RankMemory.pack_identifiers tp →
    ExecutionGenerator.get_pack_execs (exec_gen_ r) p = Ok (execs p) ∧
    (pack_objs (layout_ op) p ≠ [] →
     ∃ g, vec_at (trace_gen_ r) p = Ok g ∧ generator_ok (pack_objs (layout_ op) p) g) ∧
    pack_result maxi maxf (fbytes tp op) mb (lengths_ op) (pack_objs (layout_ op) p) (execs p) ∧
    (∀ i, get_exec r p i = vec_at (execs p) i) ∧
    (∀ i e, execs p !! Z.to_nat i = Some e → 0 ≤ i →
       exec_addr (packs_data_ r) p i = Ok (chunk_cell tp op <$> Execution.tables_data_ e)).
Proof.
  destruct exec_gen_spec as (maxi & g & Hg & _ & Hmaxi & HE).
  set (execs := fun p => match ExecutionGenerator.get_pack_execs g p with Ok E => E | Err _ => [] end).
  assert (HE' : ∀ p, p ∈ RankMemory.pack_identifiers tp →
    ExecutionGenerator.get_pack_execs g p = Ok (execs p) ∧
    pack_result maxi maxf (fbytes tp op) mb (lengths_ op) (pack_objs (layout_ op) p) (execs p)).
  { intros p Hp. destruct (HE p Hp) as (E & HgE & HR). unfold execs. by rewrite HgE. }
  destruct (packs_data_spec tp op Hop g execs) as (d & Hd & Haddr).
  { intros p Hp. destruct (HE' p Hp) as [HgE HR]. split; [done|]. intros e td He Htd.
    destruct (pack_execs_ok maxi p (execs p) Hp HR e He) as [HF _].
    exact (proj1 (Forall_forall _ _) HF td Htd). }
  destruct trace_gen_spec as (gens & Hgens & Hgok).
  unfold make. rewrite Hg. cbn [rbind]. rewrite Hgens. cbn [rbind]. rewrite Hd. cbn [rbind].
  exists maxi. eexists _, execs. split; [reflexivity|]. split; [done|]. split; [done|].
  intros p Hp. destruct (HE' p Hp) as [HgE HR]. split; [done|]. split; [by apply Hgok|].
  split; [done|]. split.
  - intros i. unfold get_exec. cbn [exec_gen_]. by rewrite HgE.
  - intros i e He Hi. by apply Haddr.
Qed.

(** ** Delivering the results *)

(** The device has put the vectors of an execution's batches at [src], one after
    the other: byte [j] of the vector of batch [q] is [vec q j]. *)
Definition exec_output (vec : Z * Z → Z → Z) (e : Execution.t) (src : Z) (m : memory) : memory :=
  fun x =>
    if (src <=? x) && (x <? src + Z.of_nat (length (exec_pairs e)) * fbytes tp op)
    then match exec_pairs e !! Z.to_nat ((x - src) / fbytes tp op) with
         | Some q => vec q ((x - src) mod fbytes tp op)
         | None => m x
         end
    else m x.

Definition deliver (r : SparseReduction.t G) (vec : Z * Z → Z → Z) (src : Z) (m : memory)
    (pk : Z * Z) : result memory :=
  let! e := get_exec r pk.1 pk.2 in
  write_result tp r 0 pk.1 pk.2 src (exec_output vec e src m).

Lemma exec_output_hit (vec : Z * Z → Z → Z) (e : Execution.t) (src : Z) (m : memory) (k : nat)
    (q : Z * Z) (j : Z) :
  exec_pairs e !! k = Some q → 0 ≤ j < fbytes tp op →
  exec_output vec e src m (src + Z.of_nat k * fbytes tp op + j) = vec q j.
Proof.
  intros Hk Hj. pose proof (lookup_lt_Some _ _ _ Hk). unfold exec_output.
  set (F := fbytes tp op) in *.
  assert (Hb : Z.of_nat k * F + j < Z.of_nat (length (exec_pairs e)) * F) by nia.
  assert (0 ≤ Z.of_nat k * F) by nia.
  replace (src <=? _) with true by lia. replace (_ <? _) with true by lia. cbn [andb].
  replace (src + Z.of_nat k * F + j - src) with (j + Z.of_nat k * F) by lia.
  rewrite Z.div_add, Z_mod_plus_full by lia.
  rewrite Z.div_small, Z.mod_small, Z.add_0_l, Nat2Z.id by lia. by rewrite Hk.
Qed.

Context (src : Z) (Hsrc : 0 < src) (Hsrc' : src + psum_single_buf_size tp < 2 ^ 64).
Context (Hdis : src + psum_single_buf_size tp ≤ psum_ op ∨ psum_ op + N * mb * fbytes tp op ≤ src).

(** A byte that neither the temporary buffer nor the psum buffer holds. *)
Definition outside (x : Z) : Prop :=
  ¬ (src ≤ x < src + psum_single_buf_size tp) ∧
  ¬ (psum_ op ≤ x < psum_ op + N * mb * fbytes tp op).

Lemma deliver_spec (r : SparseReduction.t G) (vec : Z * Z → Z → Z) (m : memory) (p i : Z)
    (e : Execution.t) :
  sls_op_ r = op → get_exec r p i = Ok e →
  exec_addr (packs_data_ r) p i = Ok (chunk_cell tp op <$> Execution.tables_data_ e) →
  Forall (fun td => chunk_set td ∧ Forall (pair_ok op) (table_pairs td)) (Execution.tables_data_ e) →
  NoDup (exec_pairs e) →
  Z.of_nat (length (exec_pairs e)) * fbytes tp op ≤ psum_single_buf_size tp →
  ∃ m', deliver r vec src m (p, i) = Ok m' ∧
    (∀ q j, q ∈ exec_pairs e → 0 ≤ j < fbytes tp op → m' (psum_slot tp op q + j) = vec q j) ∧
    (∀ q j, pair_ok op q → q ∉ exec_pairs e → 0 ≤ j < fbytes tp op →
       m' (psum_slot tp op q + j) = m (psum_slot tp op q + j)) ∧
    (∀ x, outside x → m' x = m x).
Proof.
  intros Hr He Ha HF Hnd Hlen. unfold deliver. cbn [fst snd]. rewrite He. cbn [rbind].
  unfold write_result. rewrite He. cbn [rbind]. rewrite Ha. cbn [rbind].
  replace (negb (src =? 0)) with true by lia. cbn [assert rbind].
  rewrite Hr, (fbytes_data_nb tp op Hop). eexists. split; [reflexivity|].
  pose proof (do_psum Hdev) as Hps. pose proof (oo_fbytes _ _ Hop) as HFb.
  assert (Hout : ∀ x, outside x ∨ (psum_ op ≤ x < psum_ op + N * mb * fbytes tp op) →
    exec_output vec e src m x = m x).
  { intros x Hx. unfold exec_output. destruct (_ && _) eqn:Ex; [|done]. zbool.
    unfold outside in Hx. lia. }
  split; [|split].
  - intros q j Hq Hj. apply list_elem_of_lookup_1 in Hq as [k Hk].
    rewrite (write_exec_hit tp op Hop e src _ HF Hnd ltac:(lia) ltac:(lia) ltac:(lia)
      ltac:(lia) k q j Hk Hj).
    by apply exec_output_hit.
  - intros q j Hq Hno Hj.
    pose proof (psum_slot_range tp op Hop q Hq).
    rewrite (write_exec_frame tp op Hop e src _ HF ltac:(lia) ltac:(lia) ltac:(lia) ltac:(lia)).
    + apply Hout. right. unfold N, mb. lia.
    + intros q' j' Hq' Hj' E. apply psum_slot_inj in E as [<- _]; try done.
      apply elem_of_concat in Hq' as (l & (td & -> & Htd)%list_elem_of_fmap & Hl).
      pose proof (proj1 (Forall_forall _ _) HF td Htd) as [_ HFp].
      exact (proj1 (Forall_forall _ _) HFp q' Hl).
  - intros x Hx.
    rewrite (write_exec_frame tp op Hop e src _ HF ltac:(lia) ltac:(lia) ltac:(lia) ltac:(lia));
      [by apply Hout; left|].
    intros q j Hq Hj ->. apply elem_of_concat in Hq as (l & (td & -> & Htd)%list_elem_of_fmap & Hl).
    pose proof (proj1 (Forall_forall _ _) HF td Htd) as [_ HFp].
    pose proof (proj1 (Forall_forall _ _) HFp q Hl) as Hq.
    pose proof (psum_slot_range tp op Hop q Hq). unfold outside, N, mb in Hx. lia.
Qed.

(** The executions of an operation, as (pack, number) pairs. *)
Definition is_exec (r : SparseReduction.t G) (pk : Z * Z) : Prop :=
  pk.1 ∈ RankMemory.pack_identifiers tp ∧ is_ok (get_exec r pk.1 pk.2) = true.

Lemma deliver_all_spec (vec : Z * Z → Z → Z) (m : memory) :
  ∃ r, SparseReduction.make tp op env = Ok r ∧
    ∀ order, (∀ pk, pk ∈ order ↔ is_exec r pk) →
      ∃ m', rfold (deliver r vec src) m order = Ok m' ∧
        (∀ p o b j, p ∈ RankMemory.pack_identifiers tp → o ∈ pack_objs (layout_ op) p →
           0 ≤ b < mb → 0 ≤ j < fbytes tp op →
           m' (psum_slot tp op (MemoryObject.id o, b) + j) = vec (MemoryObject.id o, b) j) ∧
        (∀ x, outside x → m' x = m x).
Proof.
  destruct reduction_make_spec as (maxi & r & execs & Hmake & Hr & _ & Hpacks).
  exists r. split; [done|]. intros order Horder.
  assert (Hexec : ∀ p i, is_exec r (p, i) → ∃ e, p ∈ RankMemory.pack_identifiers tp ∧
    get_exec r p i = Ok e ∧ 0 ≤ i ∧ execs p !! Z.to_nat i = Some e).
  { intros p i [Hp Hok]. cbn in *. destruct (Hpacks p Hp) as (_ & _ & _ & Hge & _). rewrite Hge in *.
    destruct (vec_at (execs p) i) as [e|] eqn:Ee; [|done]. exists e.
    apply vec_at_Ok in Ee as [Hi Ee]. auto. }
  destruct (rfold_invariant (deliver r vec src)
    (fun dn m' => (∀ p i e q j, (p, i) ∈ dn → get_exec r p i = Ok e → q ∈ exec_pairs e →
        pair_ok op q → 0 ≤ j < fbytes tp op → m' (psum_slot tp op q + j) = vec q j) ∧
      (∀ x, outside x → m' x = m x)) order m) as (m' & Hf & Hhit & Hfr).
  - split; [|done]. intros p i e q j Hin. by apply elem_of_nil in Hin.
  - intros dn [p i] todo m1 E [IH1 IH2].
    destruct (Hexec p i) as (e & Hp & He & Hi & Hei).
    { apply Horder. rewrite E. apply elem_of_app. right. by left. }
    destruct (Hpacks p Hp) as (_ & _ & HR & _ & Haddr).
    destruct (pack_execs_ok maxi p (execs p) Hp HR e) as (HF & Hnd & Hlen);
      [by eapply list_elem_of_lookup_2|].
    destruct (deliver_spec r vec m1 p i e) as (m2 & Hd & H1 & H2 & H3); try done.
    { by apply Haddr. }
    exists m2. split; [done|]. split.
    + intros p' i' e' q j Hin He' Hq Hqok Hj.
      destruct (decide (q ∈ exec_pairs e)) as [Hqe|Hqe]; [by apply H1|].
      rewrite H2 by done. apply elem_of_app in Hin as [Hin|Hin]; [by eapply IH1|].
      apply list_elem_of_singleton in Hin as [= -> ->]. rewrite He in He'. by injection He' as <-.
    + intros x Hx. rewrite H3 by done. by apply IH2.
  - exists m'. split; [done|]. split; [|done]. intros p o b j Hp Ho Hb Hj.
    destruct (Hpacks p Hp) as (_ & _ & [_ Hc] & Hge & _).
    assert (Hq : (MemoryObject.id o, b) ∈ concat (exec_pairs <$> execs p)).
    { rewrite Hc. apply tables_pairs_elem. by exists o. }
    apply elem_of_concat in Hq as (l & (e & -> & He)%list_elem_of_fmap & Hq).
    apply list_elem_of_lookup_1 in He as [k Hk].
    assert (Hg : get_exec r p (Z.of_nat k) = Ok e).
    { rewrite Hge. apply vec_at_Ok. rewrite Nat2Z.id. split; [lia|done]. }
    eapply (Hhit p (Z.of_nat k) e); [|exact Hg|exact Hq| |done].
    + apply Horder. split; [done|]. cbn. by rewrite Hg.
    + split; [by apply (stored_ids p)|done].
Qed.
End whole.

(** ** Theorems *)

(** Property C8.  End to end on the host: an SLS operation with consistent
    arguments is accepted, and when the device's output of each execution is
    written back with [write_result], in any order, every batch of every table
    ends up at its place in the user's psum buffer, and no byte outside the psum
    and the temporary buffer changes. *)
Theorem psum_results_are_gathered (G : InstructionGenerator) (tp : Constants)
    (op : SlsOperation.t) (env : option (Z * positive)) (src : Z) (vec : Z * Z → Z → Z)
    (m : memory) :
  op_ok tp op → device_ok tp op → env_ok env → layout_ok tp (SlsOperation.layout_ op) (n_tables op) →
  0 < src → src + psum_single_buf_size tp < 2 ^ 64 →
  (src + psum_single_buf_size tp ≤ SlsOperation.psum_ op ∨
   SlsOperation.psum_ op + n_tables op * SlsOperation.minibatch_size_ op * fbytes tp op ≤ src) →
  ∃ r : SparseReduction.t G, SparseReduction.make tp op env = Ok r ∧
    ∀ order, (∀ pk, pk ∈ order ↔ is_exec tp r pk) →
      ∃ m', rfold (deliver tp op r vec src) m order = Ok m' ∧
        (∀ p o b j, 1 ≤ p < RankMemory.num_of_pack tp → o ∈ pack_objs (SlsOperation.layout_ op) p →
           0 ≤ b < SlsOperation.minibatch_size_ op → 0 ≤ j < fbytes tp op →
           m' (psum_slot tp op (MemoryObject.id o, b) + j) = vec (MemoryObject.id o, b) j) ∧
        (∀ x, outside tp op src x → m' x = m x).
Proof.
  intros Hop Hdev Henv Hlay Hs Hs' Hdis.
  destruct (deliver_all_spec (G := G) tp op env Hop Hdev Henv Hlay src Hs Hs' Hdis vec m)
    as (r & Hr & H).
  exists r. split; [done|]. intros order Horder. destruct (H order Horder) as (m' & Hm & H1 & H2).
  exists m'. split; [done|]. split; [|done]. intros p o b j Hp. apply H1.
  by apply elem_of_pack_identifiers.
Qed.

(** Two tables (stored in the order 1, 0 in pack 1), three batches, 64-byte rows. *)
Definition sample_op : SlsOperation.t :=
  SlsOperation.mk 16 [10; 10] 3 sample_lengths [0; 1; 2; 3; 4; 5; 6; 7; 8; 9; 0; 1]
    (2 ^ 20) 384 sample_layout SlsOperation.Uint32.

Lemma sample_op_ok : op_ok (sample_cunits 2) sample_op.
Proof.
  split; try (vm_compute; split; congruence); try (vm_compute; congruence).
  repeat constructor.
Qed.

Lemma sample_device_ok : device_ok (sample_cunits 2) sample_op.
Proof. split; vm_compute; split; congruence. Qed.

Lemma psum_results_are_gathered_witness : ∃ r : SparseReduction.t (Ranked true),
  SparseReduction.make (sample_cunits 2) sample_op None = Ok r ∧
  ∀ order, (∀ pk, pk ∈ order ↔ is_exec (sample_cunits 2) r pk) →
    ∃ m', rfold (deliver (sample_cunits 2) sample_op r (fun q j => q.1 + q.2 + j) 1)
            (fun _ => 0) order = Ok m' ∧
      m' (2 ^ 20 + (1 * 3 + 2) * 64 + 7) = 10.
Proof.
  destruct (psum_results_are_gathered (Ranked true) (sample_cunits 2) sample_op None 1
    (fun q j => q.1 + q.2 + j) (fun _ => 0)) as (r & Hr & H).
  - exact sample_op_ok.
  - exact sample_device_ok.
  - exact I.
  - by apply sample_layout_ok.
  - lia.
  - vm_compute. reflexivity.
  - left. vm_compute. congruence.
  - exists r. split; [exact Hr|]. intros order Ho. destruct (H order Ho) as (m' & Hm & H1 & _).
    exists m'. split; [exact Hm|].
    apply (H1 1 (MemoryObject.make 1 640 2) 2 7); try (vm_compute; split; congruence).
    left.
Defined.

(**  The addresses [ExecutionPacksData] gives to a chunk are those of
    its first batch: the lengths of the batches before it are skipped exactly in
    the indices, and its psum and tag slots follow those of the preceding batches
    of all tables. *)
Theorem packs_data_addresses (tp : Constants) (op : SlsOperation.t)
    (td : Execution.TableData) (t b : Z) :
  op_ok tp op → Execution.table_id_ td = t → Execution.batch_offset_ td = Some b →
  0 ≤ t < n_tables op → 0 ≤ b < SlsOperation.minibatch_size_ op →
  let k := t * SlsOperation.minibatch_size_ op + b in
  let n := n_tables op * SlsOperation.minibatch_size_ op in
  (let '(ixs, lns) := ExecutionPacksData.init_tables_indexing_data op in
   ExecutionPacksData.fill_table_data tp op ixs lns td) =
  Ok (ExecutionPacksData.mkAddr
        (sum_list_Z (take (Z.to_nat k) (SlsOperation.lengths_ op))) k
        (SlsOperation.psum_ op + k * fbytes tp op)
        (if SlsOperation.is_tagged op
         then Some (SlsOperation.psum_ op + n * fbytes tp op + k * 16) else None)).
Proof.
  intros Hop Ht Hb Htr Hbr k n. rewrite (indexing_spec tp op Hop).
  rewrite (fill_table_data_spec tp op Hop).
  - unfold chunk_cell, chunk_head, psum_slot, tag_slot, flat_batch, lookups_before.
    rewrite Ht, Hb. done.
  - rewrite Hb. eauto.
  - unfold pair_ok, chunk_head. rewrite Ht, Hb. done.
Qed.

(**  Whatever divider is chosen (by the table of thresholds or by a
    valid [SLS_BUF_DIVIDER]), every batch fits the instruction limit, and the
    limit exceeds the device's instruction buffer only if a batch does. *)
Theorem instr_buffer_size_bound (op : SlsOperation.t) (env : option (Z * positive)) (cap : Z) :
  env_ok env → 0 ≤ cap → SlsOperation.lengths_ op ≠ [] →
  ∃ maxi, SparseReduction.set_instr_buffer_size op env cap = Ok maxi ∧
    Forall (fun x => x ≤ maxi) (SlsOperation.lengths_ op) ∧
    (Forall (fun x => x ≤ cap) (SlsOperation.lengths_ op) → maxi ≤ cap).
Proof.
  intros He Hc Hne. destruct (instr_buffer_size_spec op env cap He Hc Hne) as (maxi & Hm & HF & Hb).
  exists maxi. split; [done|]. split; [done|]. intros Hcap. destruct Hb as [Hb|Hb]; [done|].
  exact (proj1 (Forall_forall _ _) Hcap maxi Hb).
Qed.

(** The debug check of the indices reads them at the number of the batch instead of
    at the number of the lookups before it.  Here table 1 has 3 rows, its batch
    looks up row 9, and the check succeeds; with the two tables' indices exchanged
    it rejects a valid operation. *)
Definition misread_op : SlsOperation.t :=
  SlsOperation.mk 16 [10; 3] 1 [2; 1] [0; 1; 9] (2 ^ 20) 128 sample_layout SlsOperation.Uint32.

Definition rejected_op : SlsOperation.t :=
  SlsOperation.mk 16 [10; 3] 1 [2; 1] [0; 9; 1] (2 ^ 20) 128 sample_layout SlsOperation.Uint32.

(**  [check_indices] does not check the lookups of the batch it is at:
    it accepts an operation whose second table is read out of range, and rejects
    one in which every lookup is in range. *)
Theorem check_indices_misreads_lookups :
  (SlsOperation.check_indices misread_op = Ok tt ∧
   ¬ (SlsOperation.indices_ misread_op !!! Z.to_nat (lookups_before misread_op 1) <
      SlsOperation.tables_sizes_ misread_op !!! 1%nat)) ∧
  (SlsOperation.check_indices rejected_op = Err InvalidArguments ∧
   Forall (fun i => i < 10) (take 2 (SlsOperation.indices_ rejected_op)) ∧
   Forall (fun i => i < 3) (drop 2 (SlsOperation.indices_ rejected_op))).
Proof.
  split; split; [vm_compute; reflexivity | vm_compute; congruence | vm_compute; reflexivity |].
  split; repeat constructor.
Qed.
