(* ===== verification/WordMemory.v ===== *)
(** * Words in host memory

    Little-endian loads and stores of [uint32_t], [uint64_t] and [uint128_t]
    objects in the byte memory of RankAddress, and the addition of [float]
    objects.  These are the language's operations the simulators use. *)
From Stdlib Require Import SpecFloat.
From S2P Require Import Prelude RankAddress.

(** [n] bytes starting at [a]. *)
Fixpoint load (m : memory) (a : Z) (n : nat) : Z :=
  match n with
  | O => 0
  | S n' => u8 (m a) + 2 ^ 8 * load m (a + 1) n'
  end.

Fixpoint store (m : memory) (a : Z) (n : nat) (v : Z) : memory :=
  match n with
  | O => m
  | S n' => store (upd m a (v mod 2 ^ 8)) (a + 1) n' (v / 2 ^ 8)
  end.

Definition load32 (m : memory) (a : Z) : Z := load m a 4.
Definition store32 (m : memory) (a v : Z) : memory := store m a 4 v.
Definition load64 (m : memory) (a : Z) : Z := load m a 8.
Definition load128 (m : memory) (a : Z) : Z := load m a 16.
Definition store128 (m : memory) (a v : Z) : memory := store m a 16 v.

(** ** IEEE-754 single precision, on bit patterns *)
Definition f32_of_bits (x : Z) : spec_float :=
  let s := Z.testbit x 31 in
  let ex := (x / 2 ^ 23) mod 2 ^ 8 in
  let mx := x mod 2 ^ 23 in
  if ex =? 255 then (if mx =? 0 then S754_infinity s else S754_nan)
  else if ex =? 0 then
    match mx with Zpos p => S754_finite s p (-149) | _ => S754_zero s end
  else match mx + 2 ^ 23 with Zpos p => S754_finite s p (ex - 150) | _ => S754_nan end.

Definition bits_of_f32 (f : spec_float) : Z :=
  match f with
  | S754_zero s => Z.b2z s * 2 ^ 31
  | S754_infinity s => Z.b2z s * 2 ^ 31 + 255 * 2 ^ 23
  | S754_nan => 255 * 2 ^ 23 + 2 ^ 22
  | S754_finite s p e =>
      if Zpos p <? 2 ^ 23 then Z.b2z s * 2 ^ 31 + Zpos p
      else Z.b2z s * 2 ^ 31 + (e + 150) * 2 ^ 23 + (Zpos p - 2 ^ 23)
  end.

Definition f32_add (x y : Z) : Z :=
  bits_of_f32 (SFadd 24 128 (f32_of_bits x) (f32_of_bits y)).

(** 1.5 + 2.25 = 3.75 and 0.1 + 0.2 rounded to nearest even. *)
Example f32_add_exact : f32_add 0x3fc00000 0x40100000 = 0x40700000.
Proof. vm_compute. reflexivity. Qed.

Example f32_add_rounded : f32_add 0x3dcccccd 0x3e4ccccd = 0x3e99999a.
Proof. vm_compute. reflexivity. Qed.

(** ** Lemmas *)
Lemma load_range (m : memory) (n : nat) : ∀ a, 0 ≤ load m a n < 2 ^ (8 * Z.of_nat n).
Proof.
  induction n as [|n IH]; intros a; cbn [load]; [cbn; lia|].
  specialize (IH (a + 1)). assert (0 ≤ u8 (m a) < 2 ^ 8) by (apply Z.mod_pos_bound; lia).
  replace (8 * Z.of_nat (S n)) with (8 + 8 * Z.of_nat n) by lia.
  rewrite Z.pow_add_r by lia. nia.
Qed.

Lemma load_ext (m m' : memory) (n : nat) : ∀ a,
  (∀ x, a ≤ x < a + Z.of_nat n → m x = m' x) → load m a n = load m' a n.
Proof.
  induction n as [|n IH]; intros a H; [done|]. cbn [load].
  rewrite (H a), (IH (a + 1)); [done| |lia]. intros x Hx. apply H. lia.
Qed.

Lemma store_frame (n : nat) : ∀ (m : memory) (a v x : Z),
  ¬ (a ≤ x < a + Z.of_nat n) → store m a n v x = m x.
Proof.
  induction n as [|n IH]; intros m a v x Hx; [done|]. cbn [store].
  rewrite IH by lia. apply upd_other. lia.
Qed.

Lemma load_store_same (n : nat) : ∀ (m : memory) (a v : Z),
  load (store m a n v) a n = v mod 2 ^ (8 * Z.of_nat n).
Proof.
  induction n as [|n IH]; intros m a v; cbn [load store].
  - by rewrite Z.mod_1_r.
  - rewrite IH, store_frame, upd_same by lia.
    replace (8 * Z.of_nat (S n)) with (8 + 8 * Z.of_nat n) by lia.
    rewrite Z.pow_add_r, Z.rem_mul_r by (try apply pow2_pos; lia).
    unfold u8. by rewrite Z.mod_mod by lia.
Qed.

Lemma load_store_other (m : memory) (a b v : Z) (n k : nat) :
  a + Z.of_nat n ≤ b ∨ b + Z.of_nat k ≤ a → load (store m b k v) a n = load m a n.
Proof. intros H. apply load_ext. intros x Hx. apply store_frame. lia. Qed.

Lemma load_shift (m m' : memory) (n : nat) : ∀ a a',
  (∀ i, 0 ≤ i < Z.of_nat n → m' (a' + i) = m (a + i)) → load m' a' n = load m a n.
Proof.
  induction n as [|n IH]; intros a a' H; [done|]. cbn [load].
  pose proof (H 0 ltac:(lia)) as H0. rewrite !Z.add_0_r in H0. rewrite H0, (IH (a + 1) (a' + 1)); [done|].
  intros i Hi. pose proof (H (i + 1) ltac:(lia)) as Hs.
  by replace (a' + 1 + i) with (a' + (i + 1)) by lia; replace (a + 1 + i) with (a + (i + 1)) by lia.
Qed.

(** A load from bytes that are bytes. *)
Lemma load32_range (m : memory) (a : Z) : 0 ≤ load32 m a < 2 ^ 32.
Proof. apply (load_range m 4). Qed.
