(* ===== verification/SlsSimulator.v ===== *)
(** * The SLS device simulators

    core/device/sls/simulator_core/axdimm_core_sim.{h,cpp} and
    cxl_core_sim.{h,cpp}: execution of an instruction trace on the device
    memory, the dirty ranges of the double-buffered psum and tags blocks, and
    their clearing. *)
From S2P Require Import Prelude Topology RankAddress WordMemory DeviceMemory InstGenerator TraceGenerator.

(** ** Helpers both simulators define *)
Definition get_bytes_per_idx (mode : Z) : result Z :=
  let! _ := assert (mode <=? 2) in Ok (Z.shiftl 64 mode).

(** On [uint32_t]. *)
Definition align_up (value alignment : Z) : Z :=
  if value mod alignment =? 0 then value
  else u32 (value + alignment - value mod alignment).

Definition align_down (value alignment : Z) : Z := value - value mod alignment.

(** The element types [sparse_ft_sum] is instantiated with. *)
Definition u32_add (x y : Z) : Z := u32 (x + y).

Definition HEADER_MODE_MASK : Z := 0x03.

Definition header_tagged (raw_instr : Z) : bool :=
  negb (Z.land raw_instr (Z.shiftl 1 INSTR_HEADER_TAGBIT_POS) =? 0).

(** Offset tables indexed by buffer and compute unit. *)
Definition cell_get (t : list (list Z)) (buf cunit : Z) : result Z :=
  let! row := vec_at t buf in vec_at row cunit.

Definition cell_set (t : list (list Z)) (buf cunit v : Z) : result (list (list Z)) :=
  let! row := vec_at t buf in
  let! row' := vec_set row cunit v in
  vec_set t buf row'.

Module CxlSimulatorCore.

(** [sparse_ft_sum<T>]: element-wise sum into the psum row, through
    [std::transform]. *)
Fixpoint transform_plus (add : Z → Z → Z) (m : memory) (table psum : Z) (n : nat) : memory :=
  match n with
  | O => m
  | S n' =>
      transform_plus add (store32 m psum (add (load32 m table) (load32 m psum)))
        (u64 (table + 4)) (u64 (psum + 4)) n'
  end.

Definition sparse_ft_sum (add : Z → Z → Z) (m : memory)
    (channel_base channel_addr output_idx psum_buf bytes_per_idx : Z) : memory :=
  let table := u64 (channel_base + channel_addr) in
  let psum := u64 (psum_buf + u64 (output_idx * bytes_per_idx)) in
  let elements_per_idx := bytes_per_idx / 4 in
  transform_plus add m table psum (Z.to_nat elements_per_idx).

Definition sparse_ft_sum_tagged (tp : Constants) (m : memory)
    (channel_base channel_addr output_idx psum_buf tags_buf bytes_per_idx : Z) : memory :=
  let m := sparse_ft_sum u32_add m channel_base channel_addr output_idx psum_buf bytes_per_idx in
  let tag_table := u64 (channel_base + channel_addr + bytes_per_idx) in
  let tag_psum := u64 (tags_buf + u64 (output_idx * AlignedTagSize tp)) in
  store128 m tag_psum (u128 (load128 m tag_psum + load128 m tag_table)).

Definition write_reg (m : memory) (reg_addr val : Z) : memory := store32 m reg_addr val.

Record state := mkState {
  mem : memory;
  received_header : bool;
  bytes_per_idx : Z;
  is_tagged : bool
}.

(** The blocks of a channel. *)
Record blocks := mkBlocks {
  instr_buf : Z;
  channel_base : Z;
  cfgr : Z;
  psum_buf : Z;
  tags_buf : Z
}.

Definition get_blocks (mm : MemMap.t) (channel : Z) : result blocks :=
  let! i := MemMap.block_addr mm channel SLS_BLOCK_INST in
  let! b := MemMap.block_addr mm channel SLS_BLOCK_BASE in
  let! c := MemMap.block_addr mm channel SLS_BLOCK_CFGR in
  let! p := MemMap.block_addr mm channel SLS_BLOCK_PSUM in
  let! t := MemMap.block_addr mm channel SLS_BLOCK_TAGS in
  Ok (mkBlocks i b c p t).

Definition exec_instr (tp : Constants) (b : blocks) (s : state) (instr : DecodedInst)
  : result state :=
  let addr := ChannelInstGenerator.encode_address_from_instruction instr in
  let! m :=
    (if opcode instr =? SPARSE_FT_SUM_F32 then
       Ok (sparse_ft_sum f32_add (mem s) (channel_base b) addr (output_idx instr) (psum_buf b)
             (bytes_per_idx s))
     else if (opcode instr =? SPARSE_FT_SUM_U32) || (opcode instr =? SPARSE_FT_SUM_U32_TAGGED) then
       if negb (is_tagged s) then
         Ok (sparse_ft_sum u32_add (mem s) (channel_base b) addr (output_idx instr) (psum_buf b)
               (bytes_per_idx s))
       else
         Ok (sparse_ft_sum_tagged tp (mem s) (channel_base b) addr (output_idx instr) (psum_buf b)
               (tags_buf b) (bytes_per_idx s))
     else Err InvalidArguments) in
  Ok (mkState m (received_header s) (bytes_per_idx s) (is_tagged s)).

(** Iterations [i], [i + 1], ... of the trace loop; [n] are left. *)
Fixpoint run (n : nat) (tp : Constants) (b : blocks) (s : state) (i : Z) : result state :=
  match n with
  | O => Ok s
  | S n' =>
      let raw_instr := load64 (mem s) (u64 (instr_buf b + 8 * i)) in
      if negb (received_header s) then
        let! bytes := get_bytes_per_idx (Z.land raw_instr HEADER_MODE_MASK) in
        run n' tp b (mkState (mem s) true bytes (header_tagged raw_instr)) (i + 1)
      else
        let instr := ChannelInstGenerator.decode_instruction raw_instr in
        let! s := exec_instr tp b s instr in
        if negb (trace_end instr =? 0) then
          let reg := u64 (cfgr b + RegPolling tp + POLL_INST_NUM_OFFSET) in
          Ok (mkState (write_reg (mem s) reg (u32 (i + 1))) (received_header s)
                (bytes_per_idx s) (is_tagged s))
        else
          let! _ := assert (i <? inst_per_single_buf tp - 1) in
          run n' tp b s (i + 1)
  end.

Definition exec_trace (tp : Constants) (mm : MemMap.t) (m : memory) (channel : Z)
  : result memory :=
  let! b := get_blocks mm channel in
  let! s := run (Z.to_nat (inst_per_single_buf tp)) tp b (mkState m false 0 false) 0 in
  Ok (mem s).

(** [clear_buffers] has an empty body. *)
Definition clear_buffers (m : memory) (channel : Z) : memory := m.

End CxlSimulatorCore.

Module AxdimmSimulatorCore.
Import InterleavedPointer.

Record t := mk {
  psum_memory : NBufferedMemory.t;
  tags_memory : NBufferedMemory.t;
  min_psum_offsets_ : list (list Z);
  max_psum_offsets_ : list (list Z);
  min_tags_offsets_ : list (list Z);
  max_tags_offsets_ : list (list Z);
  mem_map_ : MemMap.t
}.

Definition table_of (bufs cunits v : Z) : list (list Z) :=
  replicate (Z.to_nat bufs) (replicate (Z.to_nat cunits) v).

Definition make (tp : Constants) (mem_map : MemMap.t) : result t :=
  let! p := NBufferedMemory.make tp mem_map (psum_single_buf_size tp) (NumOfPSumBuf tp)
              SLS_BLOCK_PSUM in
  let! g := NBufferedMemory.make tp mem_map (tags_single_buf_size tp) (NumOfTagsBuf tp)
              SLS_BLOCK_TAGS in
  Ok (mk p g (table_of (NumOfPSumBuf tp) (NumOfCUnits tp) 0)
             (table_of (NumOfPSumBuf tp) (NumOfCUnits tp) (psum_single_buf_size tp))
             (table_of (NumOfTagsBuf tp) (NumOfCUnits tp) 0)
             (table_of (NumOfTagsBuf tp) (NumOfCUnits tp) (tags_single_buf_size tp))
             mem_map).

Definition current_psum_buf (tp : Constants) (c : t) (compute_unit offset : Z)
  : result InterleavedPointer.t :=
  let! p := NBufferedMemory.get_buffer tp (psum_memory c) compute_unit NBufferedMemory.READ in
  Ok (plus p offset).

Definition current_tags_buf (tp : Constants) (c : t) (compute_unit offset : Z)
  : result InterleavedPointer.t :=
  let! p := NBufferedMemory.get_buffer tp (tags_memory c) compute_unit NBufferedMemory.READ in
  Ok (plus p offset).

Definition write_reg (m : memory) (reg_addr val : Z) : memory := store32 m reg_addr val.

(** [sparse_ft_sum<T>] *)
Fixpoint sparse_ft_sum_loop (add : Z → Z → Z) (m : memory) (ft_table psum : InterleavedPointer.t)
    (n : nat) : memory :=
  match n with
  | O => m
  | S n' =>
      sparse_ft_sum_loop add
        (store32 m (get psum) (add (load32 m (get psum)) (load32 m (get ft_table))))
        (add_assign ft_table 4) (add_assign psum 4) n'
  end.

Definition sparse_ft_sum (add : Z → Z → Z) (m : memory) (ft_table psum : InterleavedPointer.t)
    (bytes_per_idx : Z) : memory :=
  let elements_per_idx := bytes_per_idx / 4 in
  sparse_ft_sum_loop add m ft_table psum (Z.to_nat elements_per_idx).

Definition sparse_ft_sum_tagged (m : memory) (ft_table psum tags : InterleavedPointer.t)
    (bytes_per_idx : Z) : memory :=
  let m := sparse_ft_sum u32_add m ft_table psum bytes_per_idx in
  store128 m (get tags) (u128 (load128 m (get tags) + load128 m (get (plus ft_table bytes_per_idx)))).

(** A dirty range [start, start + size) is merged into the tables. *)
Definition touch (mins maxs : list (list Z)) (buf cunit start size : Z)
  : result (list (list Z) * list (list Z)) :=
  let! lo := cell_get mins buf cunit in
  let! mins := cell_set mins buf cunit (Z.min lo start) in
  let! hi := cell_get maxs buf cunit in
  let! maxs := cell_set maxs buf cunit (Z.max hi (u64 (start + size))) in
  Ok (mins, maxs).

Definition set_psum_offsets (c : t) (mins maxs : list (list Z)) : t :=
  mk (psum_memory c) (tags_memory c) mins maxs (min_tags_offsets_ c) (max_tags_offsets_ c)
     (mem_map_ c).

Definition set_tags_offsets (c : t) (mins maxs : list (list Z)) : t :=
  mk (psum_memory c) (tags_memory c) (min_psum_offsets_ c) (max_psum_offsets_ c) mins maxs
     (mem_map_ c).

(** The pointers [exec_trace] sets up before its loop. *)
Record env := mkEnv {
  processed_instr_num_reg : Z;
  psum_buf_idx : Z;
  tags_buf_idx : Z;
  tables : InterleavedPointer.t;
  psum : InterleavedPointer.t;
  tags : InterleavedPointer.t
}.

Record state := mkState {
  mem : memory;
  core : t;
  instr_rs : InterleavedPointer.t;
  received_header : bool;
  bytes_per_idx : Z;
  is_tagged : bool
}.

Definition exec_instr (tp : Constants) (e : env) (compute_unit : Z) (s : state)
    (instr : DecodedInst) : result state :=
  let cunit_addr := RankedInstGenerator.encode_address_from_instruction instr in
  let bytes := bytes_per_idx s in
  let out := u64 (output_idx instr * bytes) in
  let! m :=
    (if opcode instr =? SPARSE_FT_SUM_F32 then
       Ok (sparse_ft_sum f32_add (mem s) (plus (tables e) cunit_addr) (plus (psum e) out) bytes)
     else if (opcode instr =? SPARSE_FT_SUM_U32) || (opcode instr =? SPARSE_FT_SUM_U32_TAGGED) then
       if negb (is_tagged s) then
         Ok (sparse_ft_sum u32_add (mem s) (plus (tables e) cunit_addr) (plus (psum e) out) bytes)
       else
         Ok (sparse_ft_sum_tagged (mem s) (plus (tables e) cunit_addr) (plus (psum e) out)
               (plus (tags e) (u64 (output_idx instr * AlignedTagSize tp))) bytes)
     else Err Aborted) in
  let! (mins, maxs) := touch (min_psum_offsets_ (core s)) (max_psum_offsets_ (core s))
                         (psum_buf_idx e) compute_unit out bytes in
  let c := set_psum_offsets (core s) mins maxs in
  let! c :=
    (if is_tagged s then
       let! (mins, maxs) := touch (min_tags_offsets_ c) (max_tags_offsets_ c) (tags_buf_idx e)
                              compute_unit (u64 (output_idx instr * AlignedTagSize tp))
                              (AlignedTagSize tp) in
       Ok (set_tags_offsets c mins maxs)
     else Ok c) in
  Ok (mkState m c (instr_rs s) (received_header s) bytes (is_tagged s)).

Fixpoint run (n : nat) (tp : Constants) (e : env) (compute_unit : Z) (s : state) (i : Z)
  : result state :=
  match n with
  | O => Ok s
  | S n' =>
      let raw_instr := load64 (mem s) (get (instr_rs s)) in
      let rs := add_assign (instr_rs s) 8 in
      if negb (received_header s) then
        let! bytes := get_bytes_per_idx (Z.land raw_instr HEADER_MODE_MASK) in
        run n' tp e compute_unit
          (mkState (mem s) (core s) rs true bytes (header_tagged raw_instr)) (i + 1)
      else
        let instr := RankedInstGenerator.decode_instruction raw_instr in
        let! s := exec_instr tp e compute_unit
                    (mkState (mem s) (core s) rs true (bytes_per_idx s) (is_tagged s)) instr in
        if negb (trace_end instr =? 0) then
          Ok (mkState (write_reg (mem s) (processed_instr_num_reg e) (u32 (i + 1))) (core s)
                (instr_rs s) true (bytes_per_idx s) (is_tagged s))
        else
          let! _ := assert (i <? inst_per_single_buf tp - 1) in
          run n' tp e compute_unit s (i + 1)
  end.

Definition exec_trace (tp : Constants) (c : t) (m : memory) (compute_unit : Z)
  : result (t * memory) :=
  let! instr_buf := MemMap.block_addr (mem_map_ c) compute_unit SLS_BLOCK_INST in
  let! cunit_base := MemMap.block_addr (mem_map_ c) compute_unit SLS_BLOCK_BASE in
  let! cfgr := MemMap.block_addr (mem_map_ c) compute_unit SLS_BLOCK_CFGR in
  let HA := cunit_to_ha compute_unit in
  let reg := get (plus (plus (InterleavedPointer.make cfgr HA) (RegPolling tp)) POLL_INST_NUM_OFFSET) in
  let! pi := NBufferedMemory.get_index tp (psum_memory c) compute_unit NBufferedMemory.WRITE in
  let! ti := NBufferedMemory.get_index tp (tags_memory c) compute_unit NBufferedMemory.WRITE in
  let! ps := NBufferedMemory.get_buffer tp (psum_memory c) compute_unit NBufferedMemory.WRITE in
  let! tg := NBufferedMemory.get_buffer tp (tags_memory c) compute_unit NBufferedMemory.WRITE in
  let e := mkEnv reg pi ti (InterleavedPointer.make cunit_base HA) ps tg in
  let! s := run (Z.to_nat (inst_per_single_buf tp)) tp e compute_unit
              (mkState m c (InterleavedPointer.make instr_buf HA) false 0 false) 0 in
  Ok (core s, mem s).

Definition shift_buffers (tp : Constants) (c : t) (compute_unit : Z) : result t :=
  let! p := NBufferedMemory.shift_buffers tp (psum_memory c) compute_unit in
  let! g := NBufferedMemory.shift_buffers tp (tags_memory c) compute_unit in
  Ok (mk p g (min_psum_offsets_ c) (max_psum_offsets_ c) (min_tags_offsets_ c)
         (max_tags_offsets_ c) (mem_map_ c)).

(** [memset(p, 0, n)] *)
Fixpoint memset0 (m : memory) (p : Z) (n : nat) : memory :=
  match n with
  | O => m
  | S n' => memset0 (upd m p 0) (u64 (p + 1)) n'
  end.

(** The loop of [clear_memory], one interleaving block at a time. *)
Fixpoint clear_blocks (tp : Constants) (m : memory) (ptr : InterleavedPointer.t) (n : nat) : memory :=
  match n with
  | O => m
  | S n' =>
      clear_blocks tp (memset0 m (get ptr) (Z.to_nat (RankInterleavingSize tp)))
        (add_assign ptr (RankInterleavingSize tp)) n'
  end.

Definition clear_memory (tp : Constants) (m : memory) (ptr : InterleavedPointer.t) (size : Z)
  : result memory :=
  let! _ := assert (size mod RankInterleavingSize tp =? 0) in
  Ok (clear_blocks tp m ptr (Z.to_nat (size / RankInterleavingSize tp))).

(** The tables come back with the cell reset. *)
Definition clear_buf_common (tp : Constants) (m : memory) (min_offsets max_offsets : list (list Z))
    (nbm : NBufferedMemory.t) (buffer_size compute_unit buf_idx offset : Z)
  : result (memory * list (list Z) * list (list Z)) :=
  let! _ := assert (compute_unit <? NumOfCUnits tp) in
  let! _ := assert (buf_idx <? NumOfPSumBuf tp) in
  let! max_offset := cell_get max_offsets buf_idx compute_unit in
  let! min_offset := cell_get min_offsets buf_idx compute_unit in
  if max_offset <=? min_offset then Ok (m, min_offsets, max_offsets)
  else
    let clear_start := align_down (u32 min_offset) (RankInterleavingSize tp) in
    let clear_end := align_up (u32 max_offset) (RankInterleavingSize tp) in
    let clear_size := u32 (clear_end - clear_start) in
    let! _ := assert (clear_size mod RankInterleavingSize tp =? 0) in
    let! _ := assert (clear_end <=? buffer_size) in
    let! ptr := NBufferedMemory.get_buffer_by_index nbm compute_unit buf_idx in
    let! m := clear_memory tp m (plus ptr offset) clear_size in
    let! maxs := cell_set max_offsets buf_idx compute_unit 0 in
    let! mins := cell_set min_offsets buf_idx compute_unit buffer_size in
    Ok (m, mins, maxs).

Definition clear_psum_buf (tp : Constants) (c : t) (m : memory) (compute_unit buf_idx offset : Z)
  : result (t * memory) :=
  let! (m, mins, maxs) :=
    clear_buf_common tp m (min_psum_offsets_ c) (max_psum_offsets_ c) (psum_memory c)
      (psum_single_buf_size tp) compute_unit buf_idx offset in
  Ok (set_psum_offsets c mins maxs, m).

Definition clear_tags_buf (tp : Constants) (c : t) (m : memory) (compute_unit buf_idx offset : Z)
  : result (t * memory) :=
  let! (m, mins, maxs) :=
    clear_buf_common tp m (min_tags_offsets_ c) (max_tags_offsets_ c) (tags_memory c)
      (tags_single_buf_size tp) compute_unit buf_idx offset in
  Ok (set_tags_offsets c mins maxs, m).

Definition handle_psum_buf_read (tp : Constants) (c : t) (m : memory) (compute_unit offset : Z)
  : result (t * memory) :=
  let! i := NBufferedMemory.get_index tp (psum_memory c) compute_unit NBufferedMemory.READ in
  clear_psum_buf tp c m compute_unit i offset.

Definition handle_tags_buf_read (tp : Constants) (c : t) (m : memory) (compute_unit offset : Z)
  : result (t * memory) :=
  let! i := NBufferedMemory.get_index tp (tags_memory c) compute_unit NBufferedMemory.READ in
  clear_tags_buf tp c m compute_unit i offset.

Definition clear_buffers (tp : Constants) (c : t) (m : memory) (compute_unit : Z)
  : result (t * memory) :=
  let! s := rfold (fun s buf_idx => clear_psum_buf tp s.1 s.2 compute_unit buf_idx 0) (c, m)
              (range (NumOfPSumBuf tp)) in
  rfold (fun s buf_idx => clear_tags_buf tp s.1 s.2 compute_unit buf_idx 0) s
    (range (NumOfTagsBuf tp)).

End AxdimmSimulatorCore.

(** ** The CXL simulator computes the sums *)
Module CxlProofs.
Import CxlSimulatorCore.

Lemma transform_plus_spec (n : nat) : ∀ (m : memory) (t p : Z),
  0 ≤ t → t + 4 * Z.of_nat n < 2 ^ 64 → 0 ≤ p → p + 4 * Z.of_nat n < 2 ^ 64 →
  (t + 4 * Z.of_nat n ≤ p ∨ p + 4 * Z.of_nat n ≤ t) →
  (∀ k, 0 ≤ k < Z.of_nat n →
     load32 (transform_plus u32_add m t p n) (p + 4 * k) =
     u32 (load32 m (t + 4 * k) + load32 m (p + 4 * k))) ∧
  (∀ x, ¬ (p ≤ x < p + 4 * Z.of_nat n) → transform_plus u32_add m t p n x = m x).
Proof.
  induction n as [|n IH]; intros m t p Ht Ht' Hp Hp' Hd; cbn [transform_plus].
  - split; [lia|done].
  - rewrite !u64_small by lia.
    set (m1 := store32 m p (u32_add (load32 m t) (load32 m p))).
    destruct (IH m1 (t + 4) (p + 4)) as [IH1 IH2]; [lia..|].
    assert (Hfr : ∀ x, ¬ (p ≤ x < p + 4) → m1 x = m x) by (intros; apply store_frame; lia).
    split.
    + intros k Hk. destruct (decide (k = 0)) as [->|].
      * rewrite !Z.mul_0_r, !Z.add_0_r.
        assert (E : load32 (transform_plus u32_add m1 (t + 4) (p + 4) n) p = load32 m1 p).
        { apply load_ext. intros x Hx. apply IH2. lia. }
        rewrite E. unfold m1, store32, load32. rewrite load_store_same.
        unfold u32_add, u32. by rewrite Z.mod_mod by lia.
      * replace (p + 4 * k) with (p + 4 + 4 * (k - 1)) by lia. rewrite IH1 by lia.
        replace (p + 4 + 4 * (k - 1)) with (p + 4 * k) by lia.
        replace (t + 4 + 4 * (k - 1)) with (t + 4 * k) by lia.
        f_equal. f_equal; apply load_ext; intros x Hx; apply Hfr; lia.
    + intros x Hx. rewrite IH2 by lia. apply Hfr. lia.
Qed.

Section run.
Context (tp : Constants) (b : blocks) (m0 : memory) (B PS : Z).

(** The blocks used by a trace are inside the address space, and neither the
    tables nor the instructions share bytes with the psum block. *)
Record blocks_ok : Prop := {
  bo_B : B = 64 ∨ B = 128 ∨ B = 256;
  bo_base : 0 ≤ channel_base b ∧ channel_base b + 2 ^ 35 < 2 ^ 64;
  bo_instr : 0 ≤ instr_buf b ∧ instr_buf b + 8 * inst_per_single_buf tp < 2 ^ 64;
  bo_psum : 0 ≤ psum_buf b ∧ psum_buf b + PS < 2 ^ 64;
  bo_base_psum : channel_base b + 2 ^ 35 ≤ psum_buf b ∨ psum_buf b + PS ≤ channel_base b;
  bo_instr_psum : instr_buf b + 8 * inst_per_single_buf tp ≤ psum_buf b ∨
                  psum_buf b + PS ≤ instr_buf b;
  bo_reg : let r := cfgr b + RegPolling tp + POLL_INST_NUM_OFFSET in
           0 ≤ r < 2 ^ 64 ∧ (r + 4 ≤ psum_buf b ∨ psum_buf b + PS ≤ r)
}.
Context (Hb : blocks_ok).

(** An instruction that adds a row inside the channel to a psum row. *)
Record ir_ok (i : InstructionIR) : Prop := {
  io_opcode : ir_opcode i = SPARSE_FT_SUM_U32 ∨ ir_opcode i = SPARSE_FT_SUM_U32_TAGGED;
  io_addr : 0 ≤ address i < 2 ^ 34;
  io_out : 0 ≤ output_index i ∧ (output_index i + 1) * B ≤ PS
}.

(** What element [k] of output [o] receives from the instructions. *)
Definition contribution (o k : Z) (i : InstructionIR) : Z :=
  if output_index i =? o then load32 m0 (channel_base b + address i + 4 * k) else 0.

Definition contributions (o k : Z) (l : list InstructionIR) : Z :=
  sum_list_Z (contribution o k <$> l).

(** The bytes a trace may write, its counter register apart. *)
Definition psum_byte (x : Z) : Prop := psum_buf b ≤ x < psum_buf b + PS.

Definition reads_intact (m : memory) : Prop := ∀ x,
  (channel_base b ≤ x < channel_base b + 2 ^ 35 ∨
   instr_buf b ≤ x < instr_buf b + 8 * inst_per_single_buf tp) → m x = m0 x.

Definition slot (o k : Z) : Z := psum_buf b + o * B + 4 * k.

Lemma exec_instr_spec (s : state) (i : DecodedInst) (ir : InstructionIR) :
  is_tagged s = false → bytes_per_idx s = B → reads_intact (mem s) →
  opcode i = ir_opcode ir → output_idx i = output_index ir →
  ChannelInstGenerator.encode_address_from_instruction i = address ir → ir_ok ir →
  ∃ m', exec_instr tp b s i = Ok (mkState m' (received_header s) B false) ∧ reads_intact m' ∧
    (∀ o k, 0 ≤ o → (o + 1) * B ≤ PS → 0 ≤ k < B / 4 →
       load32 m' (slot o k) = u32 (load32 (mem s) (slot o k) + contribution o k ir)) ∧
    (∀ x, ¬ psum_byte x → m' x = mem s x).
Proof.
  intros Htag HB Hint Ho Hx Ha [Hopc Haddr Hout].
  destruct Hb as [HBv Hbase Hin Hps Hbp Hip _].
  assert (HBq : B = 4 * (B / 4) ∧ 0 < B / 4) by dlia.
  unfold exec_instr. rewrite Htag, HB, Ho, Hx, Ha. cbn [negb].
  set (a := address ir) in *. set (out := output_index ir) in *.
  assert (Hne : (ir_opcode ir =? SPARSE_FT_SUM_F32) = false)
    by (destruct Hopc as [->| ->]; done).
  assert (Heq : ((ir_opcode ir =? SPARSE_FT_SUM_U32) ||
                 (ir_opcode ir =? SPARSE_FT_SUM_U32_TAGGED)) = true)
    by (destruct Hopc as [->| ->]; done).
  rewrite Hne, Heq. cbn [rbind]. eexists. split; [reflexivity|].
  unfold sparse_ft_sum. rewrite (u64_small (channel_base b + a)) by lia.
  assert (Hob : 0 ≤ out * B) by nia.
  rewrite (u64_small (out * B)), (u64_small (psum_buf b + _)) by lia.
  set (n := Z.to_nat (B / 4)). assert (Hn : Z.of_nat n = B / 4) by lia.
  destruct (transform_plus_spec n (mem s) (channel_base b + a) (psum_buf b + out * B))
    as [H1 H2]; [lia..|].
  split; [|split].
  - intros x Hx'. rewrite H2 by lia. by apply Hint.
  - intros o k Ho' Hop Hk. unfold slot, contribution. fold a out.
    destruct (out =? o) eqn:E; zbool.
    + subst o. rewrite H1 by lia.
      assert (Et : load32 (mem s) (channel_base b + a + 4 * k) =
                   load32 m0 (channel_base b + a + 4 * k)).
      { apply load_ext. intros x Hx'. apply Hint. left. lia. }
      rewrite Et, Z.add_comm. reflexivity.
    + rewrite Z.add_0_r. assert (El : ∀ v, 0 ≤ v < 2 ^ 32 → u32 v = v)
        by (intros; by apply Z.mod_small).
      rewrite El by apply load32_range. unfold load32. apply load_ext. intros x Hx'.
      rewrite H2; [done|].
      assert ((o + 1) * B ≤ out * B ∨ (out + 1) * B ≤ o * B).
      { destruct (Z.lt_ge_cases o (out)); [left|right]; apply Z.mul_le_mono_nonneg_r; lia. }
      lia.
  - intros x Hx'. rewrite H2; [done|]. unfold psum_byte in Hx'. lia.
Qed.

Lemma load64_intact (m : memory) (i : Z) :
  reads_intact m → 0 ≤ i < inst_per_single_buf tp →
  load64 m (u64 (instr_buf b + 8 * i)) = load64 m0 (instr_buf b + 8 * i).
Proof.
  intros Hm Hi. pose proof (bo_instr Hb). rewrite u64_small by lia.
  apply load_ext. intros x Hx. apply Hm. right. lia.
Qed.

Lemma u32_add_add (x y z : Z) : u32 (u32 (x + y) + z) = u32 (x + (y + z)).
Proof. unfold u32. rewrite Zplus_mod_idemp_l. f_equal. lia. Qed.

(** The instruction words in memory at positions [i], [i + 1], ... and what they
    decode to. *)
Record code_at (i : Z) (ws : list Z) (irs : list InstructionIR) : Prop := {
  ca_words : ∀ j w, ws !! j = Some w → load64 m0 (instr_buf b + 8 * (i + Z.of_nat j)) = w;
  ca_decode : Forall2 (fun w ir =>
    let d := ChannelInstGenerator.decode_instruction w in
    opcode d = ir_opcode ir ∧ output_idx d = output_index ir ∧
    ChannelInstGenerator.encode_address_from_instruction d = address ir ∧ ir_ok ir) ws irs;
  ca_end : (fun w => trace_end (ChannelInstGenerator.decode_instruction w)) <$> ws =
           replicate (length ws - 1) 0 ++ [1]
}.

Lemma code_at_tail (i : Z) (w w' : Z) (ws : list Z) (ir : InstructionIR) (irs : list InstructionIR) :
  code_at i (w :: w' :: ws) (ir :: irs) →
  trace_end (ChannelInstGenerator.decode_instruction w) = 0 ∧ code_at (i + 1) (w' :: ws) irs.
Proof.
  intros [Hw Hd He]. cbn in He. injection He as He0 He'. split; [done|]. split.
  - intros j x Hj. replace (i + 1 + Z.of_nat j) with (i + Z.of_nat (S j)) by lia. by apply Hw.
  - by inversion_clear Hd.
  - cbn. rewrite He'. f_equal. by rewrite Nat.sub_0_r.
Qed.

Definition counter_reg : Z := u64 (cfgr b + RegPolling tp + POLL_INST_NUM_OFFSET).

Lemma run_spec (irs : list InstructionIR) : ∀ (ws : list Z) (n : nat) (s : state) (i : Z),
  code_at i ws irs → ws ≠ [] → (length ws ≤ n)%nat → 0 ≤ i →
  i + Z.of_nat (length ws) ≤ inst_per_single_buf tp → inst_per_single_buf tp < 2 ^ 32 →
  received_header s = true → is_tagged s = false → bytes_per_idx s = B → reads_intact (mem s) →
  ∃ s', run n tp b s i = Ok s' ∧
    (∀ o k, 0 ≤ o → (o + 1) * B ≤ PS → 0 ≤ k < B / 4 →
       load32 (mem s') (slot o k) = u32 (load32 (mem s) (slot o k) + contributions o k irs)) ∧
    load32 (mem s') counter_reg = i + Z.of_nat (length ws) ∧
    (∀ x, ¬ psum_byte x → ¬ (counter_reg ≤ x < counter_reg + 4) → mem s' x = mem s x).
Proof.
  induction irs as [|ir irs IH]; intros ws n s i Hcode Hne Hn Hi Hle H32 Hrh Htg HB Hint;
    [pose proof (ca_decode _ _ _ Hcode) as HF; inversion HF; by subst|].
  destruct ws as [|w ws]; [done|]. destruct n as [|n]; [cbn in Hn; lia|].
  cbn [length] in *. cbn [run]. rewrite Hrh. cbn [negb].
  rewrite load64_intact by (done || lia).
  pose proof (ca_words _ _ _ Hcode 0%nat w eq_refl) as Hw0.
  change (Z.of_nat 0) with 0 in Hw0. rewrite Z.add_0_r in Hw0. rewrite Hw0.
  pose proof (ca_decode _ _ _ Hcode) as HF.
  apply Forall2_cons_1 in HF as [(Eo & Ex & Ea & Hok) _].
  destruct (exec_instr_spec s (ChannelInstGenerator.decode_instruction w) ir)
    as (m1 & He & Hint1 & Hsum & Hfr); [done..|].
  rewrite He. cbn [rbind]. destruct ws as [|w' ws].
  - pose proof (ca_end _ _ _ Hcode) as Hend.
    cbn [fmap list_fmap length replicate app Nat.sub] in Hend.
    assert (trace_end (ChannelInstGenerator.decode_instruction w) = 1) as Hend1
      by (by injection Hend).
    rewrite Hend1. cbn [Z.eqb negb]. eexists. split; [reflexivity|]. cbn [mem].
    assert (Hirs : irs = []).
    { pose proof (Forall2_length _ _ _ (ca_decode _ _ _ Hcode)) as Hl. by destruct irs. }
    subst irs. fold counter_reg. unfold write_reg.
    pose proof (bo_reg Hb) as Hreg. cbv zeta in Hreg.
    assert (Hcr : counter_reg = cfgr b + RegPolling tp + POLL_INST_NUM_OFFSET)
      by (apply u64_small; lia).
    split; [|split].
    + intros o k Ho Hop Hk. rewrite Hcr.
      assert (El : load32 (store32 m1 (cfgr b + RegPolling tp + POLL_INST_NUM_OFFSET) (u32 (i + 1)))
        (slot o k) = load32 m1 (slot o k)).
      { apply load_store_other. unfold slot. pose proof (bo_B Hb).
        assert (0 ≤ o * B) by nia. assert (4 * k + 4 ≤ B) by dlia. lia. }
      rewrite El, Hsum by done. unfold contributions, sum_list_Z. cbn [fmap list_fmap foldr].
      by rewrite Z.add_0_r.
    + unfold load32, store32. rewrite load_store_same.
      change (2 ^ (8 * Z.of_nat 4)) with (2 ^ 32). unfold u32.
      rewrite Z.mod_mod, Z.mod_small by lia. done.
    + intros x Hx Hx'. unfold store32. rewrite store_frame by lia. by apply Hfr.
  - destruct (code_at_tail _ _ _ _ _ _ Hcode) as [Hend Hcode']. rewrite Hend.
    cbn [Z.eqb negb length] in *. replace (i <? inst_per_single_buf tp - 1) with true by lia.
    cbn [assert rbind].
    destruct (IH (w' :: ws) n (mkState m1 (received_header s) B false) (i + 1))
      as (s' & Hrun & H1 & H2 & H3); cbn [length] in *; try done; try lia.
    exists s'. split; [done|]. cbn [mem] in *. split; [|split].
    + intros o k Ho Hop Hk. rewrite H1, Hsum by done. by rewrite u32_add_add.
    + rewrite H2. lia.
    + intros x Hx Hx'. rewrite H3, Hfr by done. done.
Qed.
End run.
End CxlProofs.

(** ** From a trace in memory to the sums *)
Section cxl_trace.
Import CxlSimulatorCore CxlProofs.
Context (tp : Constants) (mm : MemMap.t) (channel : Z) (b : blocks) (m : memory) (B PS : Z).
Context (Hb : blocks_ok tp b B PS) (Hblocks : get_blocks mm channel = Ok b).
Context (Hbuf : inst_per_single_buf tp < 2 ^ 32).

(** The channel's instruction block starts with the words of [trace]. *)
Definition trace_in_memory (trace : list Z) : Prop :=
  ∀ j w, trace !! j = Some w → load64 m (instr_buf b + 8 * Z.of_nat j) = w.

Lemma header_mode : get_bytes_per_idx (Z.land (TraceGenerator.write_header B false) HEADER_MODE_MASK)
  = Ok B ∧ header_tagged (TraceGenerator.write_header B false) = false.
Proof. destruct (bo_B _ _ _ _ Hb) as [->|[->| ->]]; split; reflexivity. Qed.

Lemma contributions_perm (o k : Z) (l l' : list InstructionIR) :
  l ≡ₚ l' → contributions b m o k l = contributions b m o k l'.
Proof.
  intros H. unfold contributions. induction H; unfold sum_list_Z in *; cbn in *; lia.
Qed.

Lemma channel_ir (dbg : bool) (d : DecodedInst) :
  ir_of_inst (G := Channel dbg) d =
  mkIR (opcode d) (output_idx d) (ChannelInstGenerator.encode_address_from_instruction d).
Proof. reflexivity. Qed.

Lemma decoded_pairs (dbg : bool) (code : list Z) : ∀ irs : list InstructionIR,
  (fun w => ir_of_inst (G := Channel dbg) (ChannelInstGenerator.decode_instruction w)) <$> code = irs →
  Forall (ir_ok B PS) irs →
  Forall2 (fun w ir =>
    let d := ChannelInstGenerator.decode_instruction w in
    opcode d = ir_opcode ir ∧ output_idx d = output_index ir ∧
    ChannelInstGenerator.encode_address_from_instruction d = address ir ∧ ir_ok B PS ir) code irs.
Proof.
  induction code as [|w code IH]; intros irs E Hok; cbn [fmap list_fmap] in E; subst irs;
    constructor.
  - apply Forall_inv in Hok. cbv zeta. revert Hok.
    generalize (ChannelInstGenerator.decode_instruction w) as d. intros d Hok.
    rewrite channel_ir in *. cbn [ir_opcode output_index address]. done.
  - apply IH; [reflexivity|]. by apply Forall_inv_tail in Hok.
Qed.

Lemma exec_trace_spec (dbg : bool) (code : list Z) (irs : list InstructionIR) :
  trace_in_memory (TraceGenerator.write_header B false :: code) →
  (fun w => ir_of_inst (G := Channel dbg) (ChannelInstGenerator.decode_instruction w)) <$> code = irs →
  (fun w => trace_end (ChannelInstGenerator.decode_instruction w)) <$> code =
    replicate (length irs - 1) 0 ++ [1] →
  Forall (ir_ok B PS) irs → Z.of_nat (length code) + 1 ≤ inst_per_single_buf tp →
  ∃ m', exec_trace tp mm m channel = Ok m' ∧
    (∀ o k, 0 ≤ o → (o + 1) * B ≤ PS → 0 ≤ k < B / 4 →
       load32 m' (slot b B o k) = u32 (load32 m (slot b B o k) + contributions b m o k irs)) ∧
    load32 m' (counter_reg tp b) = Z.of_nat (length code) + 1 ∧
    (∀ x, ¬ psum_byte b PS x → ¬ (counter_reg tp b ≤ x < counter_reg tp b + 4) → m' x = m x).
Proof.
  intros Hmem Hirs Hend Hok Hlen. unfold exec_trace. rewrite Hblocks. cbn [rbind].
  assert (Hcne : code ≠ []) by (intros ->; cbn in Hend; destruct (length irs - 1)%nat; done).
  destruct (Z.to_nat (inst_per_single_buf tp)) as [|n] eqn:En; [lia|].
  cbn [run]. cbn [mem received_header negb].
  pose proof (Hmem 0%nat _ eq_refl) as Hh. change (8 * Z.of_nat 0) with (8 * 0) in Hh.
  pose proof (bo_instr _ _ _ _ Hb). rewrite u64_small by lia. rewrite Hh.
  destruct header_mode as [-> ->]. cbn [rbind].
  assert (Hcode : code_at b m B PS 1 code irs).
  { split.
    - intros j w Hj. replace (1 + Z.of_nat j) with (Z.of_nat (S j)) by lia. by apply Hmem.
    - by apply (decoded_pairs dbg).
    - assert (El : length irs = length code) by (rewrite <- Hirs; apply length_fmap).
      rewrite Hend, El. reflexivity. }
  destruct (run_spec tp b m B PS Hb irs code n (mkState m true B false) 1 Hcode Hcne)
    as (s' & Hrun & H1 & H2 & H3); cbn [received_header is_tagged bytes_per_idx mem]; try done; try lia.
  exists (mem s'). change (0 + 1) with 1. rewrite Hrun. cbn [rbind mem] in *. split; [done|]. split; [done|].
  split; [rewrite H2; lia|done].
Qed.
End cxl_trace.

(** ** Theorems *)

(** Property C9.  A trace that [TraceGenerator] builds for an execution on the CXL
    device, executed by the simulator from the instruction block, adds to every
    element of every psum row exactly the elements of the rows the execution's
    lookups name (modulo [2 ^ 32]), when these rows start within 4 GiB of their table;
    it reports the number of processed instructions, and changes nothing else. *)
Theorem cxl_trace_computes_sums (tp : Constants) (mm : MemMap.t) (channel : Z)
    (b : CxlSimulatorCore.blocks) (m : memory) (B PS : Z) (dbg : bool)
    (g : TraceGenerator.t) (exec : ExecutionGenerator.Execution.t) (lengths indices : list (list Z))
    (type compute_unit : Z) (objects : list RankMemory.MemoryObject.t) :
  let tds := ExecutionGenerator.Execution.get_tables_data exec in
  let lookups := flat (table_lookups (TraceGenerator.core_ g) tds lengths indices type
                         compute_unit objects) (seq 0 (length tds)) in
  CxlProofs.blocks_ok tp b B PS → CxlSimulatorCore.get_blocks mm channel = Ok b →
  inst_per_single_buf tp < 2 ^ 32 → TraceGenerator.bytes_per_row_ g = B →
  (∀ i td, tds !! i = Some td →
     table_ok (TraceGenerator.core_ g) lengths indices compute_unit objects i td) →
  sum_list_Z (chunk_of <$> tds) < 2 ^ 32 →
  rows_within_4GiB (TraceGenerator.core_ g) tds lengths indices compute_unit objects →
  Forall ir_encodable lookups → Forall (CxlProofs.ir_ok B PS) lookups → lookups ≠ [] →
  Z.of_nat (length lookups) + 1 ≤ inst_per_single_buf tp →
  ∃ g', TraceGenerator.generate_instructions (G := Channel dbg) g exec lengths indices type
          compute_unit objects false = Ok g' ∧
    (trace_in_memory b m (TraceGenerator.trace_ g') →
     ∃ m', CxlSimulatorCore.exec_trace tp mm m channel = Ok m' ∧
       (∀ o k, 0 ≤ o → (o + 1) * B ≤ PS → 0 ≤ k < B / 4 →
          load32 m' (CxlProofs.slot b B o k) =
          u32 (load32 m (CxlProofs.slot b B o k) + CxlProofs.contributions b m o k lookups)) ∧
       load32 m' (CxlProofs.counter_reg tp b) = Z.of_nat (length lookups) + 1 ∧
       (∀ x, ¬ CxlProofs.psum_byte b PS x →
             ¬ (CxlProofs.counter_reg tp b ≤ x < CxlProofs.counter_reg tp b + 4) → m' x = m x)).
Proof.
  intros tds lookups Hb Hbl Hbuf HB Htab Htot Hrows Henc Hok Hne Hlen. subst lookups.
  rewrite <- (emitted_lookups _ _ _ _ _ _ _ Htab Htot Hrows) in *. set (lookups := flat _ _) in *.
  destruct (generated_trace_spec (Channel dbg) _ g exec lengths indices type compute_unit objects
    false Htab Htot Henc Hne) as (g' & code & ir & Hg & Ht & Hir & Hp & He).
  exists g'. split; [done|]. rewrite Ht, HB. intros Hmem.
  assert (Hl : length code = length lookups).
  { rewrite <- Hir in Hp. apply Permutation_length in Hp. rewrite length_fmap in Hp. done. }
  destruct (exec_trace_spec tp mm channel b m B PS Hb Hbl Hbuf dbg code ir Hmem Hir He)
    as (m' & Hx & H1 & H2 & H3); [by rewrite Hp|lia|].
  exists m'. split; [done|]. rewrite <- Hl. split; [|done].
  intros o k Ho Hop Hk. rewrite H1 by done. by rewrite (contributions_perm b m o k _ _ Hp).
Qed.

(** A CXL topology and memory map, with the sample trace in the instruction block. *)
Definition sample_cxl : Constants :=
  mkConstants CXL 2 0x8000 1 0x8000 1 0x40000 1 8 256 64 0x40 0x80 0xc0 4.

Definition sample_cxl_blocks : CxlSimulatorCore.blocks :=
  CxlSimulatorCore.mkBlocks (2 ^ 36) 0 (2 ^ 36 + 0x100000) (2 ^ 37) (2 ^ 38).

Definition sample_cxl_map : MemMap.t :=
  let info := MemMap.mkMemAddr [0; 2 ^ 36; 2 ^ 36 + 0x100000; 2 ^ 38; 2 ^ 37] [1; 1; 1; 1; 1] in
  MemMap.init [info; info].

Definition sample_cxl_trace : list Z :=
  match TraceGenerator.generate_instructions (G := Channel true) sample_generator sample_exec
          [[2]; [1; 2]] [[3; 4]; [0; 1; 2]] SPARSE_FT_SUM_U32 0 sample_objects false with
  | Ok g => TraceGenerator.trace_ g
  | Err _ => []
  end.

Definition sample_cxl_memory : memory := fun x =>
  if 2 ^ 36 <=? x then
    default 0 (sample_cxl_trace !! Z.to_nat ((x - 2 ^ 36) / 8)) / 2 ^ (8 * (x mod 8)) mod 2 ^ 8
  else x mod 251.

Lemma cxl_trace_computes_sums_witness :
  ∃ m', CxlSimulatorCore.exec_trace sample_cxl sample_cxl_map sample_cxl_memory 0 = Ok m' ∧
    load32 m' (2 ^ 36 + 0x100048) = 6.
Proof.
  destruct (cxl_trace_computes_sums sample_cxl sample_cxl_map 0 sample_cxl_blocks
    sample_cxl_memory 64 0x8000 true sample_generator sample_exec [[2]; [1; 2]]
    [[3; 4]; [0; 1; 2]] SPARSE_FT_SUM_U32 0 sample_objects) as (g' & Hg & Hx).
  - split; try (vm_compute; intuition congruence).
  - reflexivity.
  - reflexivity.
  - reflexivity.
  - intros i td. apply sample_tables_ok.
  - reflexivity.
  - exact sample_rows.
  - set (l := flat _ _). vm_compute in l. subst l.
    repeat constructor; cbn; try lia; reflexivity.
  - set (l := flat _ _). vm_compute in l. subst l.
    repeat constructor; cbn; try lia; auto.
  - vm_compute. congruence.
  - vm_compute. congruence.
  - destruct Hx as (m' & Hm & _ & Hc & _).
    + assert (Et : TraceGenerator.trace_ g' = sample_cxl_trace)
        by (unfold sample_cxl_trace; by rewrite Hg).
      rewrite Et. intros j w Hj. do 6 (destruct j as [|j]; [revert Hj; vm_compute; congruence|]).
      exfalso. revert Hj. clear. destruct j; vm_compute; congruence.
    + exists m'. split; [exact Hm|]. exact Hc.
Defined.
