(* ===== verification/AxdimmProofs.v ===== *)
(** * The dirty ranges of the AXDIMM simulator

    [AxdimmSimulatorCore] keeps, for every psum and tags buffer, the range of
    bytes its instructions wrote ([touch]) and clears that range when the buffer
    has been read ([clear_buf_common]).  This file shows which bytes clearing
    resets, and that execution stays inside the recorded ranges. *)
From S2P Require Import Prelude Topology RankAddress WordMemory DeviceMemory InstGenerator SlsSimulator.
Import InterleavedPointer AxdimmSimulatorCore.

(** ** Clearing *)
Lemma memset0_keep (n : nat) : ∀ (m : memory) (p x : Z), m x = 0 → memset0 m p n x = 0.
Proof.
  induction n as [|n IH]; intros m p x H; cbn [memset0]; [done|].
  apply IH. unfold upd. by destruct (x =? p).
Qed.

Lemma memset0_in (n : nat) : ∀ (m : memory) (p i : Z),
  0 ≤ p < 2 ^ 64 → 0 ≤ i < Z.of_nat n → memset0 m p n (u64 (p + i)) = 0.
Proof.
  induction n as [|n IH]; intros m p i Hp Hi; [lia|]. cbn [memset0].
  destruct (decide (i = 0)) as [->|].
  - rewrite Z.add_0_r, (u64_small p) by done. apply memset0_keep, upd_same.
  - replace (u64 (p + i)) with (u64 (u64 (p + 1) + (i - 1))).
    + apply IH; [apply u64_range|lia].
    + autorewrite with u64. f_equal. lia.
Qed.

Lemma memset0_frame (n : nat) : ∀ (m : memory) (p x : Z),
  0 ≤ p < 2 ^ 64 → (∀ i, 0 ≤ i < Z.of_nat n → x ≠ u64 (p + i)) → memset0 m p n x = m x.
Proof.
  induction n as [|n IH]; intros m p x Hp Hx; cbn [memset0]; [done|].
  rewrite IH; [|apply u64_range|].
  - apply upd_other. intros ->. apply (Hx 0); [lia|]. by rewrite Z.add_0_r, u64_small.
  - intros i Hi. replace (u64 (u64 (p + 1) + i)) with (u64 (p + (i + 1))); [apply Hx; lia|].
    autorewrite with u64. f_equal. lia.
Qed.

(** Inside a block, rank bytes and host bytes move together. *)
Lemma host_address_block (p : InterleavedPointer.t) (ra j : Z) :
  0 ≤ HA_ p < 2 → 0 ≤ j → ra mod 2 ^ 8 + j < 2 ^ 8 →
  host_address p (ra + j) = u64 (host_address p ra + j).
Proof.
  intros Hh Hj Hb. rewrite !host_address_arith by done.
  assert (E : u64 (ra + j) = u64 ra + j) by (unfold u64; dlia).
  rewrite E, system_offset_block by (unfold u64; dlia).
  autorewrite with u64. f_equal. lia.
Qed.

Section clearing.
Context (tp : Constants) (Hsz : RankInterleavingSize tp = 2 ^ 8).

Lemma clear_blocks_keep (n : nat) : ∀ (m : memory) (p : InterleavedPointer.t) (x : Z),
  m x = 0 → clear_blocks tp m p n x = 0.
Proof.
  induction n as [|n IH]; intros m p x H; cbn [clear_blocks]; [done|].
  by apply IH, memset0_keep.
Qed.

Lemma clear_blocks_in (n : nat) : ∀ (m : memory) (p : InterleavedPointer.t) (r : Z),
  pointer_wf p → ranked_addr_ p mod 2 ^ 8 = 0 → 0 ≤ r < 2 ^ 8 * Z.of_nat n →
  clear_blocks tp m p n (host_address p (ranked_addr_ p + r)) = 0.
Proof.
  induction n as [|n IH]; intros m p r Hp Ha Hr; [lia|]. cbn [clear_blocks]. rewrite Hsz.
  destruct (decide (r < 2 ^ 8)).
  - apply clear_blocks_keep. rewrite host_address_block by (destruct Hp; lia).
    unfold get. rewrite (pw_sync p Hp). apply memset0_in; [apply u64_range|lia].
  - replace (host_address p (ranked_addr_ p + r))
      with (host_address (add_assign p (2 ^ 8)) (ranked_addr_ (add_assign p (2 ^ 8)) + (r - 2 ^ 8))).
    + apply IH; [by apply add_assign_wf| |lia].
      rewrite add_assign_ranked. unfold u64. dlia.
    + unfold host_address. rewrite add_assign_ranked. cbn [base_ HA_ add_assign update set_ranked_addr].
      autorewrite with u64. do 4 f_equal. lia.
Qed.

Lemma clear_blocks_frame (n : nat) : ∀ (m : memory) (p : InterleavedPointer.t) (x : Z),
  pointer_wf p → ranked_addr_ p mod 2 ^ 8 = 0 →
  (∀ r, 0 ≤ r < 2 ^ 8 * Z.of_nat n → x ≠ host_address p (ranked_addr_ p + r)) →
  clear_blocks tp m p n x = m x.
Proof.
  induction n as [|n IH]; intros m p x Hp Ha Hx; cbn [clear_blocks]; [done|]. rewrite Hsz.
  rewrite IH; [|by apply add_assign_wf| |].
  - apply memset0_frame; [unfold get; rewrite (pw_sync p Hp); apply u64_range|].
    intros i Hi. unfold get. rewrite (pw_sync p Hp), <- host_address_block; [|destruct Hp; lia..].
    apply Hx. lia.
  - rewrite add_assign_ranked. unfold u64. dlia.
  - intros r Hr. unfold host_address. rewrite add_assign_ranked.
    cbn [base_ HA_ add_assign update set_ranked_addr]. autorewrite with u64.
    rewrite <- Z.add_assoc. apply (Hx (2 ^ 8 + r)). lia.
Qed.
End clearing.

(** ** The tables of offsets *)
Lemma cell_set_get (t : list (list Z)) (buf cunit v w : Z) :
  cell_get t buf cunit = Ok w →
  ∃ t', cell_set t buf cunit v = Ok t' ∧ cell_get t' buf cunit = Ok v.
Proof.
  unfold cell_get, cell_set. intros H. inv_result.
  apply vec_at_Ok in E as [Hb Hr], H as [Hc Hv].
  pose proof (lookup_lt_Some _ _ _ Hr). pose proof (lookup_lt_Some _ _ _ Hv).
  cbn [rbind]. rewrite vec_set_Ok by lia. cbn [rbind]. rewrite vec_set_Ok by lia.
  eexists. split; [reflexivity|].
  rewrite (proj2 (vec_at_Ok _ buf (<[Z.to_nat cunit:=v]> a))); cbn [rbind].
  - apply vec_at_Ok. split; [done|]. apply list_lookup_insert_eq. lia.
  - split; [done|]. apply list_lookup_insert_eq. lia.
Qed.

(** A pointer to the start of a block. *)
Definition make_ptr (base cunit : Z) : InterleavedPointer.t :=
  InterleavedPointer.make base (cunit_to_ha cunit).

Lemma buffer_pointer_wf (nbm : NBufferedMemory.t) (p : InterleavedPointer.t) (cunit buf : Z) :
  NBufferedMemory.get_buffer_by_index nbm cunit buf = Ok p → pointer_wf p.
Proof.
  intros Hp. unfold NBufferedMemory.get_buffer_by_index in Hp. inv_result.
  apply add_assign_wf. split; [apply cunit_to_ha_range | cbn; lia | reflexivity].
Qed.

Section clear_common.
Context (tp : Constants) (Hsz : RankInterleavingSize tp = 2 ^ 8).
Context (nbm : NBufferedMemory.t) (p : InterleavedPointer.t) (cunit buf : Z).
Context (Hp : NBufferedMemory.get_buffer_by_index nbm cunit buf = Ok p).
Context (Hal : NBufferedMemory.single_buffer_size_ nbm mod 2 ^ 8 = 0).
Context (Hc : cunit < NumOfCUnits tp) (Hb : buf < NumOfPSumBuf tp).

(** The aligned dirty range that [clear_buf_common] computes. *)
Definition clear_length (lo hi : Z) : Z := (hi + 255) / 256 * 256 - lo / 256 * 256.

Lemma buffer_pointer : pointer_wf p ∧ ranked_addr_ p mod 2 ^ 8 = 0.
Proof.
  split; [by apply buffer_pointer_wf in Hp|].
  unfold NBufferedMemory.get_buffer_by_index in Hp. inv_result.
  unfold plus. rewrite add_assign_ranked. cbn [ranked_addr_ InterleavedPointer.make update].
  unfold u64. dlia.
Qed.

Lemma aligned_bounds (lo hi : Z) :
  0 ≤ lo → lo < hi → hi ≤ 2 ^ 31 →
  align_down (u32 lo) (RankInterleavingSize tp) = lo / 256 * 256 ∧
  align_up (u32 hi) (RankInterleavingSize tp) = (hi + 255) / 256 * 256 ∧
  0 ≤ clear_length lo hi < 2 ^ 32 ∧ clear_length lo hi mod 256 = 0.
Proof.
  intros H1 H2 H3. rewrite Hsz. unfold align_down, align_up, u32, clear_length.
  rewrite !(Z.mod_small lo), !(Z.mod_small hi) by lia. change (2 ^ 8) with 256.
  destruct (Z.eqb_spec (hi mod 256) 0); repeat split; dlia.
Qed.

Lemma clear_buf_common_spec (m : memory) (mins maxs : list (list Z)) (sz off lo hi : Z) :
  cell_get mins buf cunit = Ok lo → cell_get maxs buf cunit = Ok hi →
  0 ≤ lo → lo < hi → hi ≤ sz → sz ≤ 2 ^ 31 → sz mod 256 = 0 → off mod 256 = 0 →
  ∃ m' mins' maxs',
    clear_buf_common tp m mins maxs nbm sz cunit buf off = Ok (m', mins', maxs') ∧
    cell_get mins' buf cunit = Ok sz ∧ cell_get maxs' buf cunit = Ok 0 ∧
    (∀ r, off ≤ r < off + clear_length lo hi → m' (host_address p (ranked_addr_ p + r)) = 0) ∧
    (∀ x, (∀ r, off ≤ r < off + clear_length lo hi → x ≠ host_address p (ranked_addr_ p + r)) →
       m' x = m x).
Proof.
  intros Hlo Hhi H0 Hlt Hle Hsz' Hszm Hoff. unfold clear_buf_common.
  destruct buffer_pointer as [Hwf Hra].
  destruct (aligned_bounds lo hi) as (Ed & Eu & Hr & Hm); [lia..|].
  replace (cunit <? NumOfCUnits tp) with true by lia.
  replace (buf <? NumOfPSumBuf tp) with true by lia. cbn [assert rbind].
  rewrite Hhi, Hlo. cbn [rbind]. replace (hi <=? lo) with false by lia.
  rewrite Ed, Eu. change ((hi + 255) / 256 * 256 - lo / 256 * 256) with (clear_length lo hi).
  unfold u32. rewrite (Z.mod_small (clear_length lo hi)) by done.
  rewrite Hsz. change (2 ^ 8) with 256. rewrite Hm. cbn [Z.eqb assert rbind].
  replace (_ <=? sz) with true by dlia. cbn [assert rbind]. rewrite Hp. cbn [rbind].
  unfold clear_memory. rewrite Hsz. change (2 ^ 8) with 256. rewrite Hm. cbn [Z.eqb assert rbind].
  destruct (cell_set_get maxs buf cunit 0 hi Hhi) as (maxs' & -> & Hx).
  destruct (cell_set_get mins buf cunit sz lo Hlo) as (mins' & -> & Hn). cbn [rbind].
  eexists _, mins', maxs'. split; [reflexivity|]. split; [done|]. split; [done|].
  assert (Hwf' : pointer_wf (plus p off)) by (by apply add_assign_wf).
  assert (Hra' : ranked_addr_ (plus p off) mod 2 ^ 8 = 0).
  { unfold plus. rewrite add_assign_ranked. unfold u64. dlia. }
  assert (Eh : ∀ r, host_address (plus p off) (ranked_addr_ (plus p off) + r)
    = host_address p (ranked_addr_ p + (off + r))).
  { intros r. unfold host_address, plus. rewrite add_assign_ranked.
    cbn [base_ HA_ add_assign update set_ranked_addr]. autorewrite with u64.
    by rewrite Z.add_assoc. }
  assert (En : 2 ^ 8 * Z.of_nat (Z.to_nat (clear_length lo hi / 256)) = clear_length lo hi) by dlia.
  split.
  - intros r Hrr. replace r with (off + (r - off)) by lia. rewrite <- Eh.
    apply clear_blocks_in; try done. lia.
  - intros x Hxx. apply clear_blocks_frame; try done. intros r Hrr. rewrite Eh.
    apply Hxx. lia.
Qed.
End clear_common.

(** ** Execution stays inside the dirty ranges *)
Lemma store_changed (m : memory) (a v x : Z) (n : nat) :
  store m a n v x ≠ m x → a ≤ x < a + Z.of_nat n.
Proof.
  intros H. destruct (decide (a ≤ x < a + Z.of_nat n)); [done|].
  exfalso. apply H, store_frame. lia.
Qed.

Lemma sparse_loop_changed (add : Z → Z → Z) (n : nat) :
  ∀ (m : memory) (ft p : InterleavedPointer.t) (x : Z),
  pointer_wf p → sparse_ft_sum_loop add m ft p n x ≠ m x →
  ∃ k j, 0 ≤ k < Z.of_nat n ∧ 0 ≤ j < 4 ∧ x = get (plus p (4 * k)) + j.
Proof.
  induction n as [|n IH]; intros m ft p x Hp Hx; cbn [sparse_ft_sum_loop] in Hx; [done|].
  set (m1 := store32 _ _ _) in Hx. destruct (decide (m1 x = m x)) as [E|E].
  - rewrite <- E in Hx. apply IH in Hx as (k & j & Hk & Hj & ->); [|by apply add_assign_wf].
    exists (k + 1), j. split; [lia|]. split; [lia|]. unfold plus.
    rewrite add_assign_add. do 3 f_equal. lia.
  - apply store_changed in E. exists 0, (x - get p). split; [lia|]. split; [lia|].
    unfold plus. rewrite Z.mul_0_r, add_assign_0 by done. lia.
Qed.

(** A byte of the 4-byte (16-byte) element at rank offset [r] of the buffer. *)
Definition dirty (p : InterleavedPointer.t) (width lo hi x : Z) : Prop :=
  ∃ r j, lo ≤ r ∧ r + width ≤ hi ∧ 0 ≤ j < width ∧ x = get (plus p r) + j.

Lemma dirty_mono (p : InterleavedPointer.t) (w lo hi lo' hi' x : Z) :
  dirty p w lo hi x → lo' ≤ lo → hi ≤ hi' → dirty p w lo' hi' x.
Proof. intros (r & j & ? & ? & ? & ->) ? ?. exists r, j. repeat split; lia. Qed.

Lemma touch_spec (mins maxs mins' maxs' : list (list Z)) (buf cunit start size lo hi : Z) :
  0 ≤ start → 0 ≤ size → start + size < 2 ^ 64 →
  cell_get mins buf cunit = Ok lo → cell_get maxs buf cunit = Ok hi →
  touch mins maxs buf cunit start size = Ok (mins', maxs') →
  cell_get mins' buf cunit = Ok (Z.min lo start) ∧
  cell_get maxs' buf cunit = Ok (Z.max hi (start + size)).
Proof.
  intros H1 H2 H3 Hlo Hhi. unfold touch. rewrite Hlo. cbn [rbind].
  destruct (cell_set_get mins buf cunit (Z.min lo start) lo Hlo) as (m1 & -> & Hm). cbn [rbind].
  rewrite Hhi. cbn [rbind].
  destruct (cell_set_get maxs buf cunit (Z.max hi (u64 (start + size))) hi Hhi) as (m2 & -> & Hm2).
  cbn [rbind]. rewrite u64_small in Hm2 by lia. intros [= <- <-]. done.
Qed.

Section dirty_ranges.
Context (tp : Constants) (e : env) (cunit : Z).
Context (Hpw : pointer_wf (psum e)) (Htag : AlignedTagSize tp = 16).

(** The cells of the buffers a trace writes. *)
Definition ranges (c : t) (lo hi lo' hi' : Z) : Prop :=
  cell_get (min_psum_offsets_ c) (psum_buf_idx e) cunit = Ok lo ∧
  cell_get (max_psum_offsets_ c) (psum_buf_idx e) cunit = Ok hi ∧
  cell_get (min_tags_offsets_ c) (tags_buf_idx e) cunit = Ok lo' ∧
  cell_get (max_tags_offsets_ c) (tags_buf_idx e) cunit = Ok hi'.

(** [m] differs from [m0] only in recorded bytes. *)
Definition recorded (m0 m : memory) (c : t) : Prop :=
  ∃ lo hi lo' hi', ranges c lo hi lo' hi' ∧
    ∀ x, m x ≠ m0 x → dirty (psum e) 4 lo hi x ∨ dirty (tags e) 16 lo' hi' x.

Lemma sparse_ft_sum_dirty (add : Z → Z → Z) (m : memory) (ft : InterleavedPointer.t)
    (out B x : Z) :
  0 ≤ B → B mod 4 = 0 →
  sparse_ft_sum add m ft (plus (psum e) out) B x ≠ m x → dirty (psum e) 4 out (out + B) x.
Proof.
  intros HB HB4 Hx. unfold sparse_ft_sum in Hx.
  apply sparse_loop_changed in Hx as (k & j & Hk & Hj & ->); [|by apply add_assign_wf].
  exists (out + 4 * k), j. split; [lia|]. split; [dlia|]. split; [lia|].
  unfold plus. by rewrite add_assign_add.
Qed.

Lemma sparse_ft_sum_tagged_dirty (m : memory) (ft : InterleavedPointer.t) (out tout B x : Z) :
  0 ≤ B → B mod 4 = 0 →
  sparse_ft_sum_tagged m ft (plus (psum e) out) (plus (tags e) tout) B x ≠ m x →
  dirty (psum e) 4 out (out + B) x ∨ dirty (tags e) 16 tout (tout + 16) x.
Proof.
  intros HB HB4 Hx. unfold sparse_ft_sum_tagged in Hx. set (m1 := sparse_ft_sum _ _ _ _ _) in Hx.
  destruct (decide (m1 x = m x)) as [E|E].
  - right. rewrite <- E in Hx. apply store_changed in Hx.
    exists tout, (x - get (plus (tags e) tout)). repeat split; lia.
  - left. by apply sparse_ft_sum_dirty in E.
Qed.

Lemma exec_instr_recorded (m0 : memory) (s s' : state) (i : DecodedInst) :
  0 ≤ output_idx i < 2 ^ 12 → 0 ≤ bytes_per_idx s ≤ 256 → bytes_per_idx s mod 4 = 0 →
  recorded m0 (mem s) (core s) → exec_instr tp e cunit s i = Ok s' →
  recorded m0 (mem s') (core s') ∧ bytes_per_idx s' = bytes_per_idx s.
Proof.
  intros Hi HB HB4 (lo & hi & lo' & hi' & (R1 & R2 & R3 & R4) & Hrec) H.
  unfold exec_instr in H. set (out := u64 (output_idx i * bytes_per_idx s)) in *.
  assert (Hout : out = output_idx i * bytes_per_idx s) by (apply u64_small; nia).
  set (tout := u64 (output_idx i * AlignedTagSize tp)) in *.
  assert (Htout : tout = output_idx i * 16) by (unfold tout; rewrite Htag; apply u64_small; lia).
  assert (Ho : 0 ≤ out ∧ out + bytes_per_idx s < 2 ^ 64) by (rewrite Hout; nia).
  destruct (if opcode i =? _ then _ else _) as [m|] eqn:Em; cbn [rbind] in H; [|done].
  assert (Hm : ∀ x, m x ≠ mem s x → dirty (psum e) 4 out (out + bytes_per_idx s) x ∨
    (is_tagged s = true ∧ dirty (tags e) 16 tout (tout + 16) x)).
  { intros x Hx. destruct (opcode i =? SPARSE_FT_SUM_F32).
    - injection Em as <-. left. apply sparse_ft_sum_dirty in Hx; [done|lia|lia].
    - destruct (_ || _); [|done]. destruct (is_tagged s); cbn [negb] in Em; injection Em as <-.
      + apply sparse_ft_sum_tagged_dirty in Hx as [?|?]; auto; lia.
      + left. apply sparse_ft_sum_dirty in Hx; [done|lia|lia]. }
  destruct (touch _ _ _ _ out _) as [[mins maxs]|] eqn:Et; cbn [rbind] in H; [|done].
  destruct (touch_spec _ _ _ _ _ _ _ _ lo hi (proj1 Ho) (proj1 HB) (proj2 Ho) R1 R2 Et) as [T1 T2].
  destruct (is_tagged s) eqn:Etag; cbn [rbind] in H.
  - cbn [min_tags_offsets_ max_tags_offsets_ set_psum_offsets] in H.
    destruct (touch _ _ _ _ tout _) as [[mins' maxs']|] eqn:Et'; cbn [rbind] in H; [|done].
    rewrite Htag in Et'.
    assert (Ht : 0 ≤ tout ∧ tout + 16 < 2 ^ 64) by lia. assert (Ht16 : 0 ≤ 16) by lia.
    destruct (touch_spec _ _ _ _ _ _ _ _ lo' hi' (proj1 Ht) Ht16 (proj2 Ht) R3 R4 Et')
      as [T3 T4].
    injection H as <-. split; [|done]. cbn [mem core].
    exists (Z.min lo out), (Z.max hi (out + bytes_per_idx s)), (Z.min lo' tout), (Z.max hi' (tout + 16)).
    split; [done|]. intros x Hx. destruct (decide (m x = mem s x)) as [E|E].
    + rewrite E in Hx. destruct (Hrec x Hx); [left|right]; (eapply dirty_mono; [done|lia|lia]).
    + destruct (Hm x E) as [Hd|[_ Hd]]; [left|right]; (eapply dirty_mono; [done|lia|lia]).
  - injection H as <-. split; [|done]. cbn [mem core].
    exists (Z.min lo out), (Z.max hi (out + bytes_per_idx s)), lo', hi'.
    split; [done|]. intros x Hx. destruct (decide (m x = mem s x)) as [E|E].
    + rewrite E in Hx. destruct (Hrec x Hx); [left|right]; [|done].
      eapply dirty_mono; [done|lia|lia].
    + destruct (Hm x E) as [Hd|[? _]]; [left|done]. eapply dirty_mono; [done|lia|lia].
Qed.

Lemma get_bytes_per_idx_range (w B : Z) :
  get_bytes_per_idx (Z.land w HEADER_MODE_MASK) = Ok B → 0 ≤ B ≤ 256 ∧ B mod 4 = 0.
Proof.
  unfold get_bytes_per_idx. intros H. inv_result. zbool.
  rewrite (land_ones_mod _ 2) in * by done.
  assert (w mod 2 ^ 2 = 0 ∨ w mod 2 ^ 2 = 1 ∨ w mod 2 ^ 2 = 2) as [->|[->| ->]] by dlia;
    vm_compute; intuition congruence.
Qed.

Lemma decoded_output (m : memory) (a : Z) :
  0 ≤ output_idx (RankedInstGenerator.decode_instruction (load64 m a)) < 2 ^ 12.
Proof.
  apply (wf_output_idx (RankedInstGenerator.decode_instruction (load64 m a))).
  apply decode_instruction_wf, (load_range m 8).
Qed.

(** Bytes outside the counter register are recorded. *)
Definition recorded_or_counter (m0 m : memory) (c : t) : Prop :=
  ∃ lo hi lo' hi', ranges c lo hi lo' hi' ∧
    ∀ x, m x ≠ m0 x →
      dirty (psum e) 4 lo hi x ∨ dirty (tags e) 16 lo' hi' x ∨
      processed_instr_num_reg e ≤ x < processed_instr_num_reg e + 4.

Lemma recorded_weaken (m0 m : memory) (c : t) : recorded m0 m c → recorded_or_counter m0 m c.
Proof.
  intros (lo & hi & lo' & hi' & R & H). exists lo, hi, lo', hi'. split; [done|].
  intros x Hx. destruct (H x Hx); auto.
Qed.

Lemma run_recorded (m0 : memory) (n : nat) : ∀ (s s' : state) (i : Z),
  0 ≤ bytes_per_idx s ≤ 256 → bytes_per_idx s mod 4 = 0 → recorded m0 (mem s) (core s) →
  run n tp e cunit s i = Ok s' → recorded_or_counter m0 (mem s') (core s').
Proof.
  induction n as [|n IH]; intros s s' i HB HB4 Hrec H; cbn [run] in H.
  { injection H as <-. by apply recorded_weaken. }
  destruct (received_header s) eqn:Eh; cbn [negb] in H.
  - destruct (exec_instr _ _ _ _ _) as [s1|] eqn:Ex; cbn [rbind] in H; [|done].
    apply (exec_instr_recorded m0) in Ex as [Hrec1 HB1];
      [|apply decoded_output|done..]. cbn [bytes_per_idx] in HB1.
    destruct (negb _).
    + injection H as <-. cbn [mem core]. destruct Hrec1 as (lo & hi & lo' & hi' & R & Hx1).
      exists lo, hi, lo', hi'. split; [done|]. intros x Hx. unfold write_reg in Hx.
      destruct (decide (store32 (mem s1) (processed_instr_num_reg e) (u32 (i + 1)) x = mem s1 x))
        as [E|E].
      * rewrite E in Hx. destruct (Hx1 x Hx); auto.
      * apply store_changed in E. right; right. lia.
    + destruct (assert _); cbn [rbind] in H; [|done]. by apply IH in H; rewrite ?HB1.
  - destruct (get_bytes_per_idx _) as [B|] eqn:Eb; cbn [rbind] in H; [|done].
    apply get_bytes_per_idx_range in Eb as [? ?]. by apply IH in H.
Qed.
End dirty_ranges.

(** The host address of byte [r] of the buffer behind [p]. *)
Definition rank_byte (p : InterleavedPointer.t) (r : Z) : Z := host_address p (ranked_addr_ p + r).

(** ** Theorems *)

(** Property C17.  Whatever trace the AXDIMM simulator executes, every byte of
    memory that changes is an element of the psum or tags buffer being written
    whose whole extent lies in the dirty range recorded for that buffer, or part
    of the processed-instructions register: clearing by dirty range can miss no
    byte a trace wrote. *)
Theorem axdimm_writes_are_recorded (tp : Constants) (c c' : t) (m m' : memory)
    (cunit pi ti reg : Z) (ps tg : InterleavedPointer.t) (cfgr lo hi lo' hi' : Z) :
  AlignedTagSize tp = 16 →
  NBufferedMemory.get_index tp (psum_memory c) cunit NBufferedMemory.WRITE = Ok pi →
  NBufferedMemory.get_index tp (tags_memory c) cunit NBufferedMemory.WRITE = Ok ti →
  NBufferedMemory.get_buffer tp (psum_memory c) cunit NBufferedMemory.WRITE = Ok ps →
  NBufferedMemory.get_buffer tp (tags_memory c) cunit NBufferedMemory.WRITE = Ok tg →
  MemMap.block_addr (mem_map_ c) cunit SLS_BLOCK_CFGR = Ok cfgr →
  reg = get (plus (plus (make_ptr cfgr cunit) (RegPolling tp)) POLL_INST_NUM_OFFSET) →
  cell_get (min_psum_offsets_ c) pi cunit = Ok lo → cell_get (max_psum_offsets_ c) pi cunit = Ok hi →
  cell_get (min_tags_offsets_ c) ti cunit = Ok lo' → cell_get (max_tags_offsets_ c) ti cunit = Ok hi' →
  exec_trace tp c m cunit = Ok (c', m') →
  ∃ lo1 hi1 lo1' hi1',
    cell_get (min_psum_offsets_ c') pi cunit = Ok lo1 ∧
    cell_get (max_psum_offsets_ c') pi cunit = Ok hi1 ∧
    cell_get (min_tags_offsets_ c') ti cunit = Ok lo1' ∧
    cell_get (max_tags_offsets_ c') ti cunit = Ok hi1' ∧
    ∀ x, m' x ≠ m x →
      dirty ps 4 lo1 hi1 x ∨ dirty tg 16 lo1' hi1' x ∨ reg ≤ x < reg + 4.
Proof.
  intros Htag Hpi Hti Hps Htg Hcf -> R1 R2 R3 R4 H. unfold exec_trace in H.
  destruct (MemMap.block_addr _ _ SLS_BLOCK_INST) as [ib|]; cbn [rbind] in H; [|done].
  destruct (MemMap.block_addr _ _ SLS_BLOCK_BASE) as [cb|]; cbn [rbind] in H; [|done].
  rewrite Hcf, Hpi, Hti, Hps, Htg in H. cbn [rbind] in H.
  set (e := mkEnv _ _ _ _ _ _) in H.
  destruct (AxdimmSimulatorCore.run _ _ _ _ _ _) as [s|] eqn:Er; cbn [rbind] in H; [|done].
  injection H as <- <-.
  assert (Hpw : pointer_wf (psum e)).
  { unfold NBufferedMemory.get_buffer in Hps. rewrite Hpi in Hps. cbn [rbind] in Hps.
    by apply buffer_pointer_wf in Hps. }
  apply (run_recorded tp e cunit Hpw Htag m) in Er as (lo1 & hi1 & lo2 & hi2 & (? & ? & ? & ?) & Hx);
    [|cbn; lia|done|].
  - exists lo1, hi1, lo2, hi2. done.
  - exists lo, hi, lo', hi'. split; [done|]. cbn [mem]. done.
Qed.

(** Two compute units, every block far from the others; the instruction block
    of compute unit 0 holds a header for 64-byte rows and one instruction that
    adds row 0 to output 4. *)
Definition sample_axdimm_map : MemMap.t :=
  let info := MemMap.mkMemAddr [0; 2 ^ 40; 2 ^ 41; 2 ^ 42; 2 ^ 43] [1; 1; 1; 1; 1] in
  MemMap.init [info; info].

Definition sample_core : t :=
  match AxdimmSimulatorCore.make sample_topology sample_axdimm_map with
  | Ok c => c
  | Err _ => mk (NBufferedMemory.mk sample_axdimm_map 0 0 [] 0)
               (NBufferedMemory.mk sample_axdimm_map 0 0 [] 0) [] [] [] [] sample_axdimm_map
  end.

Definition sample_axdimm_memory : memory :=
  store (store (fun x => x mod 251) (2 ^ 40) 8 0) (2 ^ 40 + 8) 8
    (2 ^ 62 * SPARSE_FT_SUM_U32 + 2 ^ 49 * 4 + 2 ^ 48).

Lemma axdimm_writes_are_recorded_witness : ∃ c' m',
  exec_trace sample_topology sample_core sample_axdimm_memory 0 = Ok (c', m') ∧
  ∃ lo hi, cell_get (min_psum_offsets_ c') 0 0 = Ok lo ∧ cell_get (max_psum_offsets_ c') 0 0 = Ok hi.
Proof.
  assert (Hok : is_ok (exec_trace sample_topology sample_core sample_axdimm_memory 0) = true)
    by (vm_compute; reflexivity).
  destruct (exec_trace sample_topology sample_core sample_axdimm_memory 0) as [[c' m']|] eqn:E;
    [|discriminate].
  exists c', m'. split; [reflexivity|].
  destruct (axdimm_writes_are_recorded sample_topology sample_core c' sample_axdimm_memory m' 0 0 0
    _ (plus (make_ptr (2 ^ 43) 0) 0) (plus (make_ptr (2 ^ 42) 0) 0) (2 ^ 41)
    0 0x20000 0 0x20000 eq_refl eq_refl eq_refl eq_refl eq_refl eq_refl eq_refl eq_refl eq_refl
    eq_refl eq_refl E) as (lo & hi & _ & _ & H1 & H2 & _).
  exists lo, hi. split; [exact H1|exact H2].
Defined.

(** After a psum buffer has been read from its beginning,
    [clear_psum_buf] zeroes every dirty byte of the buffer (when the dirty range
    starts in its first interleaving block, as it does when output 0 was
    written), touches no byte outside the buffer's aligned prefix, and leaves
    the buffer marked clean. *)
Theorem clear_psum_zeroes_dirty_prefix (tp : Constants) (c : t) (m : memory)
    (cunit buf lo hi : Z) (p : InterleavedPointer.t) :
  RankInterleavingSize tp = 2 ^ 8 → cunit < NumOfCUnits tp → buf < NumOfPSumBuf tp →
  NBufferedMemory.get_buffer_by_index (psum_memory c) cunit buf = Ok p →
  NBufferedMemory.single_buffer_size_ (psum_memory c) mod 2 ^ 8 = 0 →
  psum_single_buf_size tp ≤ 2 ^ 31 → psum_single_buf_size tp mod 256 = 0 →
  cell_get (min_psum_offsets_ c) buf cunit = Ok lo →
  cell_get (max_psum_offsets_ c) buf cunit = Ok hi →
  0 ≤ lo < 256 → lo < hi → hi ≤ psum_single_buf_size tp →
  ∃ c' m', clear_psum_buf tp c m cunit buf 0 = Ok (c', m') ∧
    (∀ r, lo ≤ r < hi → m' (rank_byte p r) = 0) ∧
    (∀ x, (∀ r, 0 ≤ r < psum_single_buf_size tp → x ≠ rank_byte p r) →
       m' x = m x) ∧
    clear_psum_buf tp c' m' cunit buf 0 = Ok (c', m').
Proof.
  intros Hsz Hc Hb Hp Hal Hps Hpsm Hlo Hhi H0 Hlt Hle.
  destruct (clear_buf_common_spec tp Hsz (psum_memory c) p cunit buf Hp Hal Hc Hb m
    (min_psum_offsets_ c) (max_psum_offsets_ c) (psum_single_buf_size tp) 0 lo hi Hlo Hhi)
    as (m' & mins & maxs & Hcl & Hn & Hx & Hz & Hf); [lia|lia|lia|lia|done|done|].
  exists (set_psum_offsets c mins maxs), m'. unfold clear_psum_buf at 1. rewrite Hcl.
  cbn [rbind]. split; [done|]. unfold clear_length in *. split; [|split].
  - intros r Hr. apply Hz. dlia.
  - intros x Hx'. apply Hf. intros r Hr. apply Hx'. dlia.
  - unfold clear_psum_buf, clear_buf_common.
    cbn [min_psum_offsets_ max_psum_offsets_ psum_memory set_psum_offsets].
    replace (cunit <? NumOfCUnits tp) with true by lia.
    replace (buf <? NumOfPSumBuf tp) with true by lia. cbn [assert rbind].
    rewrite Hx, Hn. cbn [rbind]. replace (0 <=? _) with true by dlia. done.
Qed.

(** [clear_buf_common] clears from [offset], not from the start of
    the dirty range: when the range begins past its own aligned length, no dirty
    byte is reset, although the buffer is marked clean. *)
Theorem clear_psum_misses_distant_range (tp : Constants) (c : t) (m : memory)
    (cunit buf lo hi : Z) (p : InterleavedPointer.t) :
  RankInterleavingSize tp = 2 ^ 8 → cunit < NumOfCUnits tp → buf < NumOfPSumBuf tp →
  NBufferedMemory.get_buffer_by_index (psum_memory c) cunit buf = Ok p →
  NBufferedMemory.single_buffer_size_ (psum_memory c) mod 2 ^ 8 = 0 → ranked_addr_ p ≤ 2 ^ 62 →
  psum_single_buf_size tp ≤ 2 ^ 31 → psum_single_buf_size tp mod 256 = 0 →
  cell_get (min_psum_offsets_ c) buf cunit = Ok lo →
  cell_get (max_psum_offsets_ c) buf cunit = Ok hi →
  clear_length lo hi ≤ lo → lo < hi → hi ≤ psum_single_buf_size tp →
  ∃ c' m', clear_psum_buf tp c m cunit buf 0 = Ok (c', m') ∧
    (∀ r, lo ≤ r < hi → m' (rank_byte p r) =
                         m (rank_byte p r)) ∧
    cell_get (min_psum_offsets_ c') buf cunit = Ok (psum_single_buf_size tp) ∧
    cell_get (max_psum_offsets_ c') buf cunit = Ok 0.
Proof.
  intros Hsz Hc Hb Hp Hal Hra Hps Hpsm Hlo Hhi Hcl Hlt Hle.
  destruct (buffer_pointer (psum_memory c) p cunit buf Hp Hal) as [[Hh Hr _] _].
  assert (H0 : 0 ≤ lo) by (unfold clear_length in Hcl; dlia).
  destruct (clear_buf_common_spec tp Hsz (psum_memory c) p cunit buf Hp Hal Hc Hb m
    (min_psum_offsets_ c) (max_psum_offsets_ c) (psum_single_buf_size tp) 0 lo hi Hlo Hhi)
    as (m' & mins & maxs & Hcb & Hn & Hx & Hz & Hf); [lia|lia|lia|lia|done|done|].
  exists (set_psum_offsets c mins maxs), m'. unfold clear_psum_buf. rewrite Hcb.
  cbn [rbind]. split; [done|]. split; [|done].
  intros r Hrr. apply Hf. intros r' Hr' E. apply host_address_inj in E; lia.
Qed.

