(* ===== verification/Allocators.v ===== *)
(** * Device memory allocation

    core/memory/ranked_allocator.{h,cpp}, core/memory/sequential_allocator.{h,cpp},
    include/pnmlib/core/allocator.h, memory.h, shared_region.h with
    core/memory/api/shared_region.cpp, and include/pnmlib/common/properties.h.

    The kernel driver behind [ioctl] is not part of the library: it is a
    parameter, with what the allocators rely on as the laws of the class
    [DriverLaws]. *)
From S2P Require Import Prelude.

(** ** include/pnmlib/core/memory.h *)
Record SequentialRegion := mkRegion {
  start : Z;
  size : Z;
  location : option Z;
  is_global : Z
}.

Definition empty_region : SequentialRegion := mkRegion 0 0 None 0.

#[export] Instance SequentialRegion_eq_dec : EqDecision SequentialRegion.
Proof. solve_decision. Defined.

(** [operator==] *)
Definition region_eqb (lhs rhs : SequentialRegion) : bool :=
  (start lhs =? start rhs) && (size lhs =? size rhs) &&
  bool_decide (location lhs = location rhs) && (is_global lhs =? is_global rhs).

Inductive DeviceRegion :=
  | Sequential (region : SequentialRegion)
  | RankedRegion (regions : list SequentialRegion).

(** [std::get] *)
Definition get_sequential (r : DeviceRegion) : result SequentialRegion :=
  match r with Sequential s => Ok s | RankedRegion _ => Err StdException end.
Definition get_ranked (r : DeviceRegion) : result (list SequentialRegion) :=
  match r with RankedRegion l => Ok l | Sequential _ => Err StdException end.

(** ** include/pnmlib/common/properties.h *)
Inductive PropertiesTypes := MEM_ALLOCATION_POLICY | MEM_LOCATION.

#[export] Instance PropertiesTypes_eq_dec : EqDecision PropertiesTypes.
Proof. solve_decision. Defined.

Inductive property :=
  | AllocPolicy (policy : Z)
  | CURegion (cunit : Z).

Module PropertiesList.

(** The unordered map from types to values, as an association list. *)
Definition t : Type := list (PropertiesTypes * property).

Definition type_of (p : property) : PropertiesTypes :=
  match p with AllocPolicy _ => MEM_ALLOCATION_POLICY | CURegion _ => MEM_LOCATION end.

Definition empty : t := [].

Definition add_property (l : t) (p : property) : t :=
  (type_of p, p) :: filter (fun e => e.1 ≠ type_of p) l.

Definition find_property (l : t) (ty : PropertiesTypes) : option property :=
  snd <$> find (fun e => bool_decide (e.1 = ty)) l.

Definition has_property (l : t) (ty : PropertiesTypes) : bool :=
  bool_decide (is_Some (find_property l ty)).

(** [value_props_.at(...)] throws [std::out_of_range]. *)
Definition get_property (l : t) (ty : PropertiesTypes) : result property :=
  of_option LogicError (find_property l ty).

(** [props.get_property<CURegion>().cunit()] and [<AllocPolicy>().policy()]. *)
Definition value (p : property) : Z := match p with AllocPolicy v | CURegion v => v end.

(** [operator|] *)
Definition pipe (l : t) (p : property) : t := add_property l p.

End PropertiesList.

(** ** The driver *)

(** [struct pnm_allocation] *)
Record pnm_allocation := mkRequest {
  addr : Z;
  req_size : Z;
  memory_pool : Z;
  req_is_global : Z
}.

#[export] Instance pnm_allocation_eq_dec : EqDecision pnm_allocation.
Proof. solve_decision. Defined.

Inductive command :=
  | ALLOCATE_MEMORY
  | DEALLOCATE_MEMORY
  | MAKE_SHARED_ALLOC
  | GET_SHARED_ALLOC
  | IMDB_IOCTL_ALLOCATE
  | IMDB_IOCTL_DEALLOCATE
  | IMDB_IOCTL_MAKE_SHARED_ALLOC
  | IMDB_IOCTL_GET_SHARED_ALLOC.

Definition SLS_ALLOC_AUTO : Z := 0.
Definition SLS_ALLOC_REPLICATE_ALL : Z := 1.
Definition SLS_ALLOC_DISTRIBUTE_ALL : Z := 2.
Definition SLS_ALLOC_SINGLE : Z := 3.
Definition SLS_ALLOC_ANY_CUNIT : Z := 255.

Definition EIO : Z := 5.
Definition ENOMEM : Z := 12.
Definition EINVAL : Z := 22.

(** common/make_error.h *)
Definition throw_from_errno (err : Z) : error :=
  if err =? EINVAL then InvalidArguments
  else if err =? ENOMEM then OutOfMemory
  else if err =? EIO then IO
  else Failure.

(** An operation on the driver's state that can throw. *)
Definition M (K A : Type) : Type := K → K * result A.

Definition mret {K A} (a : A) : M K A := fun k => (k, Ok a).
Definition mthrow {K A} (e : error) : M K A := fun k => (k, Err e).
Definition mlift {K A} (r : result A) : M K A := fun k => (k, r).
Definition mbind {K A B} (m : M K A) (f : A → M K B) : M K B := fun k =>
  match m k with (k', Ok a) => f a k' | (k', Err e) => (k', Err e) end.

(** [try { m } catch (...) { h; throw; }]: an assertion, an abort or undefined
    behaviour is no exception. *)
Definition is_exception (e : error) : bool :=
  match e with
  | Aborted | AssertionFailed | UndefinedBehaviour | OutOfFuel => false
  | _ => true
  end.

Definition on_exception {K A} (m : M K A) (h : M K unit) : M K A := fun k =>
  match m k with
  | (k', Ok a) => (k', Ok a)
  | (k', Err e) =>
      if is_exception e then
        match h k' with (k'', Ok _) => (k'', Err e) | (k'', Err e') => (k'', Err e') end
      else (k', Err e)
  end.

Notation "'do!' x := m 'in' k" := (mbind m (fun x => k))
  (at level 10, x pattern, m at level 200, k at level 200,
   format "'do!'  x  :=  m  'in' '//' k") : pnm_scope.

(** The rule for a step that succeeds. *)
Lemma mbind_ok {K A B} (m : M K A) (f : A → M K B) (k k' : K) (a : A) : m k = (k', Ok a) → mbind m f k = f a k'.
Proof. intros E. unfold mbind. by rewrite E. Qed.

(** [ioctl] on the resource descriptor: [inl] is a failure with its errno, [inr]
    the request structure the driver has written to. *)
Class Driver (K : Type) := ioctl : K → command → pnm_allocation → K * (Z + pnm_allocation).

Definition call {K} `{Driver K} (cmd : command) (req : pnm_allocation) (fail : Z → error)
  : M K pnm_allocation := fun k =>
  match ioctl k cmd req with
  | (k', inl err) => (k', Err (fail err))
  | (k', inr req') => (k', Ok req')
  end.

Definition region_of (req : pnm_allocation) : SequentialRegion :=
  mkRegion (addr req) (req_size req) (Some (memory_pool req)) (req_is_global req).

(** ** core/memory/ranked_allocator.cpp *)
Module RankedAllocator.
Section ranked.
Context {K : Type} `{Driver K}.
Context (regions_count_ : Z).

Definition allocate_ioctl (sz : Z) (cunit : option Z) : M K SequentialRegion :=
  do! req := call ALLOCATE_MEMORY (mkRequest 0 sz (default SLS_ALLOC_ANY_CUNIT cunit) 0)
               throw_from_errno in
  mret (mkRegion (addr req) sz (Some (memory_pool req)) (req_is_global req)).

Definition deallocate_ioctl (r : SequentialRegion) : M K unit :=
  do! loc := mlift (of_option StdException (location r)) in
  do! _ := call DEALLOCATE_MEMORY (mkRequest (start r) (size r) loc (is_global r))
             throw_from_errno in
  mret tt.

Fixpoint deallocate_all (l : list SequentialRegion) : M K unit :=
  match l with
  | [] => mret tt
  | r :: l' =>
      do! _ := (if 0 <? size r then deallocate_ioctl r else mret tt) in
      deallocate_all l'
  end.

Definition deallocate_impl (region : DeviceRegion) : M K unit :=
  do! l := mlift (get_ranked region) in deallocate_all l.

(** [region.regions[*seq_region.location] = seq_region] *)
Definition place (region : list SequentialRegion) (r : SequentialRegion)
  : M K (list SequentialRegion) :=
  do! loc := mlift (of_option UndefinedBehaviour (location r)) in
  mlift (vec_set region loc r).

(** A [CURegion] holds a [uint32_t], the argument of [allocate_ioctl] a
    [uint8_t]. *)
Definition allocate_single (sz : Z) (props : PropertiesList.t) (region : list SequentialRegion)
  : M K (list SequentialRegion) :=
  let cunit := (fun p => u8 (PropertiesList.value p)) <$>
                 PropertiesList.find_property props MEM_LOCATION in
  do! seq_region := allocate_ioctl sz cunit in
  place region seq_region.

(** The counter is a [uint8_t]: [regions_count_] is at most 255. *)
Fixpoint replicate_loop (sz : Z) (ranks : list Z) (region : list SequentialRegion)
  : M K (list SequentialRegion) :=
  match ranks with
  | [] => mret region
  | rank :: ranks' =>
      do! region :=
        on_exception (do! seq_region := allocate_ioctl sz (Some rank) in place region seq_region)
                     (deallocate_impl (RankedRegion region)) in
      replicate_loop sz ranks' region
  end.

Definition allocate_replicate_all (sz : Z) (props : PropertiesList.t)
    (region : list SequentialRegion) : M K (list SequentialRegion) :=
  if PropertiesList.has_property props MEM_LOCATION then mthrow InvalidArguments
  else replicate_loop sz (range regions_count_) region.

Definition allocate_impl (sz : Z) (props : PropertiesList.t) : M K DeviceRegion :=
  let region := replicate (Z.to_nat regions_count_) empty_region in
  let policy := default SLS_ALLOC_AUTO
                  (PropertiesList.value <$>
                     PropertiesList.find_property props MEM_ALLOCATION_POLICY) in
  if (policy =? SLS_ALLOC_AUTO) || (policy =? SLS_ALLOC_SINGLE) then
    do! r := allocate_single sz props region in mret (RankedRegion r)
  else if policy =? SLS_ALLOC_REPLICATE_ALL then
    do! r := allocate_replicate_all sz props region in mret (RankedRegion r)
  else if policy =? SLS_ALLOC_DISTRIBUTE_ALL then mthrow NotSupported
  else mthrow InvalidArguments.

Fixpoint share_all (cmd : command) (l : list SequentialRegion) : M K (list SequentialRegion) :=
  match l with
  | [] => mret []
  | r :: l' =>
      do! r' :=
        (match location r with
         | None => mret empty_region
         | Some loc =>
             do! req := call cmd (mkRequest (start r) (size r) loc (is_global r)) throw_from_errno in
             mret (region_of req)
         end) in
      do! rest := share_all cmd l' in
      mret (r' :: rest)
  end.

Definition sharing_ioctl (cmd : command) (region : DeviceRegion) : M K DeviceRegion :=
  do! l := mlift (get_ranked region) in
  do! l' := share_all cmd l in
  mret (RankedRegion l').

Definition share_region_impl (region : DeviceRegion) : M K DeviceRegion :=
  sharing_ioctl MAKE_SHARED_ALLOC region.

Definition get_shared_alloc_impl (region : DeviceRegion) : M K DeviceRegion :=
  sharing_ioctl GET_SHARED_ALLOC region.

End ranked.
End RankedAllocator.

(** ** core/memory/sequential_allocator.cpp *)
Module SequentialAllocator.
Section sequential.
Context {K : Type} `{Driver K}.
Context (NumOfRanks : Z).

Definition get_alloc_preference (props : PropertiesList.t) : result Z :=
  let! _ := assert (negb (PropertiesList.has_property props MEM_ALLOCATION_POLICY)) in
  match PropertiesList.find_property props MEM_LOCATION with
  | Some p => Ok (u8 (PropertiesList.value p))
  | None => Ok (u8 NumOfRanks)
  end.

Definition allocate_impl (sz : Z) (props : PropertiesList.t) : M K DeviceRegion :=
  do! pool := mlift (get_alloc_preference props) in
  do! req := call IMDB_IOCTL_ALLOCATE (mkRequest 0 sz pool 0) (fun _ => OutOfMemory) in
  mret (Sequential (region_of req)).

Definition deallocate_impl (region : DeviceRegion) : M K unit :=
  do! r := mlift (get_sequential region) in
  do! loc := mlift (of_option StdException (location r)) in
  do! _ := call IMDB_IOCTL_DEALLOCATE (mkRequest (start r) (size r) loc (is_global r))
             (fun _ => Failure) in
  mret tt.

Definition sharing_ioctl (cmd : command) (region : DeviceRegion) : M K DeviceRegion :=
  do! r := mlift (get_sequential region) in
  match location r with
  | None => mthrow Failure
  | Some loc =>
      do! req := call cmd (mkRequest (start r) (size r) loc (is_global r)) (fun _ => Failure) in
      mret (Sequential (region_of req))
  end.

Definition share_region_impl (region : DeviceRegion) : M K DeviceRegion :=
  sharing_ioctl IMDB_IOCTL_MAKE_SHARED_ALLOC region.

Definition get_shared_alloc_impl (region : DeviceRegion) : M K DeviceRegion :=
  sharing_ioctl IMDB_IOCTL_GET_SHARED_ALLOC region.

End sequential.
End SequentialAllocator.

(** ** core/memory/api/shared_region.cpp *)
Module SharedRegion.

Definition cunit_pos_in_serialized_ : Z := 56.
Definition max_amount_of_regions_ : Z := 256.
Definition max_index_of_region_ : Z := 255.

Record t := mk {
  region_ : DeviceRegion;
  serialized_region_ : list Z
}.

Definition serialize_sequential (r : SequentialRegion) : Z :=
  Z.lor (start r)
        (u64 (Z.shiftl (default max_index_of_region_ (location r)) cunit_pos_in_serialized_)).

(** The assignment to the [std::optional<uint8_t>] truncates. *)
Definition deserialize_sequential (serialized_region amount_of_regions : Z) : SequentialRegion :=
  let tmp_location := Z.shiftr serialized_region cunit_pos_in_serialized_ in
  let loc :=
    if (tmp_location <? max_index_of_region_) ||
       ((tmp_location =? max_index_of_region_) && (amount_of_regions =? max_amount_of_regions_))
    then Some (u8 tmp_location) else None in
  let rest := Z.land serialized_region
                (u64 (Z.lnot (u64 (Z.shiftl tmp_location cunit_pos_in_serialized_)))) in
  mkRegion rest 0 loc 0.

Definition serialize (r : DeviceRegion) : list Z :=
  match r with
  | Sequential s => [serialize_sequential s]
  | RankedRegion l => serialize_sequential <$> l
  end.

Definition deserialize (l : list Z) : result DeviceRegion :=
  let n := Z.of_nat (length l) in
  if 1 <? n then Ok (RankedRegion ((fun b => deserialize_sequential b n) <$> l))
  else
    let! b := vec_at l 0 in
    Ok (Sequential (deserialize_sequential b n)).

Definition of_region (r : DeviceRegion) : t := mk r (serialize r).

Definition of_serialized (l : list Z) : result t :=
  match l with
  | [] => Err InvalidArguments
  | _ => let! r := deserialize l in Ok (mk r l)
  end.

Definition get_serialized (s : t) : list Z := serialized_region_ s.
Definition get_region (s : t) : DeviceRegion := region_ s.

End SharedRegion.

(** ** What the allocators rely on

    [live k] lists the allocations the driver has handed out.  A successful
    allocation adds the request it returns, on the requested pool if one was
    named and on one of the [pools] pools otherwise; a failed one changes
    nothing; the release of a live allocation succeeds and removes it. *)
Class DriverLaws (K : Type) `{Driver K} (alloc dealloc : command) (any pools : Z) := {
  live : K → list pnm_allocation;
  driver_alloc_ok : ∀ k k' req req', ioctl k alloc req = (k', inr req') →
    live k' ≡ₚ req' :: live k ∧ req_size req' = req_size req ∧ 0 ≤ memory_pool req' < pools ∧
    (memory_pool req ≠ any → memory_pool req' = memory_pool req);
  driver_alloc_err : ∀ k k' req err, ioctl k alloc req = (k', inl err) → live k' ≡ₚ live k;
  driver_dealloc : ∀ k req, req ∈ live k →
    ∃ k' req', ioctl k dealloc req = (k', inr req') ∧ live k ≡ₚ req :: live k'
}.
Arguments live {K _ alloc dealloc any pools _} k.

(** The requests that release a region. *)
Definition request_of (r : SequentialRegion) : option pnm_allocation :=
  (fun loc => mkRequest (start r) (size r) loc (is_global r)) <$> location r.

Definition owned_list (l : list SequentialRegion) : list pnm_allocation :=
  omap (fun r => if 0 <? size r then request_of r else None) l.

Definition owned (r : DeviceRegion) : list pnm_allocation :=
  match r with
  | Sequential s => option_list (request_of s)
  | RankedRegion l => owned_list l
  end.

(** ** The allocator as an interface *)
Class Allocator (K : Type) := {
  allocate : Z → PropertiesList.t → M K DeviceRegion;
  deallocate : DeviceRegion → M K unit;
  share_region : DeviceRegion → M K DeviceRegion;
  get_shared_alloc : DeviceRegion → M K DeviceRegion
}.

(** [allocate] hands out exactly the allocations of the region it returns and
    nothing when it throws; [deallocate] returns the allocations of a region. *)
Class AllocatorLaws (K : Type) (A : Allocator K) := {
  alive : K → list pnm_allocation;
  allocate_ok : ∀ k k' sz props r, 0 < sz → allocate sz props k = (k', Ok r) →
    alive k' ≡ₚ owned r ++ alive k;
  allocate_throws : ∀ k k' sz props e, 0 < sz → allocate sz props k = (k', Err e) →
    alive k' ≡ₚ alive k;
  deallocate_owned : ∀ k k0 sz props r l, 0 < sz → (∃ k1, allocate sz props k0 = (k1, Ok r)) →
    alive k ≡ₚ owned r ++ l → ∃ k', deallocate r k = (k', Ok tt) ∧ alive k' ≡ₚ l
}.

#[export] Instance ranked_allocator {K} `{Driver K} (regions_count : Z) : Allocator K := {
  allocate := RankedAllocator.allocate_impl regions_count;
  deallocate := RankedAllocator.deallocate_impl;
  share_region := RankedAllocator.share_region_impl;
  get_shared_alloc := RankedAllocator.get_shared_alloc_impl
}.

Definition sequential_allocator {K} `{Driver K} (NumOfRanks : Z) : Allocator K := {|
  allocate := SequentialAllocator.allocate_impl NumOfRanks;
  deallocate := SequentialAllocator.deallocate_impl;
  share_region := SequentialAllocator.share_region_impl;
  get_shared_alloc := SequentialAllocator.get_shared_alloc_impl
|}.

(** ** The ranked allocator *)
Section ranked_laws.
Context {K : Type} `{!Driver K} (n : Z).
Context `{!DriverLaws K ALLOCATE_MEMORY DEALLOCATE_MEMORY SLS_ALLOC_ANY_CUNIT n}.
Context (Hn : 0 ≤ n ≤ 255).
Import RankedAllocator.

Lemma allocate_ioctl_spec (k k' : K) (sz : Z) (cunit : option Z) (r : result SequentialRegion) :
  allocate_ioctl sz cunit k = (k', r) →
  match r with
  | Ok s => ∃ loc, location s = Some loc ∧ 0 ≤ loc < n ∧ size s = sz ∧
      (∀ c, cunit = Some c → c ≠ SLS_ALLOC_ANY_CUNIT → loc = c) ∧
      live k' ≡ₚ mkRequest (start s) sz loc (is_global s) :: live k
  | Err e => is_exception e = true ∧ live k' ≡ₚ live k
  end.
Proof.
  unfold allocate_ioctl, mbind, call.
  destruct (ioctl k ALLOCATE_MEMORY _) as [k1 [err|req]] eqn:E; intros [= <- <-].
  - split; [|by apply driver_alloc_err in E]. unfold throw_from_errno.
    by repeat case_match.
  - apply driver_alloc_ok in E as (Hl & Hs & Hp & Hc). cbn in *.
    exists (memory_pool req). split; [done|]. split; [done|]. split; [done|]. split.
    + intros c -> Hne. by apply Hc.
    + rewrite Hl. destruct req as [a s p g]. cbn in *. by subst.
Qed.

Lemma deallocate_all_spec (l : list SequentialRegion) : ∀ (k : K) (rest : list pnm_allocation),
  Forall (fun r => 0 < size r → is_Some (location r)) l →
  live k ≡ₚ owned_list l ++ rest → ∃ k', deallocate_all l k = (k', Ok tt) ∧ live k' ≡ₚ rest.
Proof.
  induction l as [|r l IH]; intros k rest Hl Hk; cbn [deallocate_all]; [by exists k|].
  apply Forall_cons in Hl as [Hr Hl]. unfold mbind. cbn in Hk.
  destruct (Z.ltb_spec 0 (size r)) as [Hs|Hs].
  - destruct (Hr Hs) as [loc Hloc]. unfold request_of in Hk. rewrite Hloc in Hk. cbn in Hk.
    unfold deallocate_ioctl, mbind, mlift, call. rewrite Hloc. cbn [of_option].
    destruct (driver_dealloc k (mkRequest (start r) (size r) loc (is_global r)))
      as (k1 & req' & E & Hk1).
    { rewrite Hk. constructor. }
    rewrite E. cbn [mret]. apply (IH k1 rest Hl).
    rewrite Hk1 in Hk. by apply Permutation_cons_inv in Hk.
  - cbn [mret]. by apply IH.
Qed.

(** Ranks [0 .. i - 1] are allocated. *)
Record replicated (sz i : Z) (region : list SequentialRegion) : Prop := {
  rep_length : Z.of_nat (length region) = n;
  rep_done : ∀ j, 0 ≤ j < i → ∃ r, region !! Z.to_nat j = Some r ∧ location r = Some j ∧ size r = sz;
  rep_rest : ∀ j r, i ≤ j → region !! Z.to_nat j = Some r → r = empty_region
}.

Lemma replicated_located (sz i : Z) (region : list SequentialRegion) :
  0 ≤ i → replicated sz i region → Forall (fun r => 0 < size r → is_Some (location r)) region.
Proof.
  intros Hi [Hl Hd Hr]. apply Forall_lookup. intros j r Hj Hs.
  destruct (decide (Z.of_nat j < i)).
  - destruct (Hd (Z.of_nat j)) as (r' & Hj' & Hloc & _); [lia|].
    rewrite Nat2Z.id in Hj'. rewrite Hj in Hj'. injection Hj' as ->. by rewrite Hloc.
  - rewrite (Hr (Z.of_nat j) r) in Hs by (rewrite ?Nat2Z.id; done || lia). done.
Qed.

Lemma owned_list_insert (l : list SequentialRegion) (i : nat) (r : SequentialRegion) :
  l !! i = Some empty_region → 0 < size r →
  owned_list (<[i := r]> l) ≡ₚ option_list (request_of r) ++ owned_list l.
Proof.
  intros Hi Hs. revert i Hi. induction l as [|x l IH]; intros [|i] Hi; try done; cbn in *.
  - injection Hi as ->. cbn. replace (0 <? size r) with true by lia.
    by destruct (request_of r).
  - rewrite Permutation_app_comm.
    destruct (if 0 <? size x then request_of x else None) as [q|]; cbn.
    + rewrite IH by done. apply Permutation_cons, Permutation_app_comm. done.
    + rewrite IH by done. apply Permutation_app_comm.
Qed.

Lemma replicated_step (sz i : Z) (region : list SequentialRegion) (r : SequentialRegion) :
  0 ≤ i < n → replicated sz i region → location r = Some i → size r = sz →
  replicated sz (i + 1) (<[Z.to_nat i := r]> region).
Proof.
  intros Hi [Hl Hd Hr] Hloc Hs. split.
  - by rewrite length_insert.
  - intros j Hj. destruct (decide (j = i)) as [->|].
    + exists r. rewrite list_lookup_insert_eq by lia. done.
    + rewrite list_lookup_insert_ne by lia. apply Hd. lia.
  - intros j r' Hj. rewrite list_lookup_insert_ne by lia. apply Hr. lia.
Qed.

Lemma place_spec (k : K) (region : list SequentialRegion) (r : SequentialRegion) (loc : Z) :
  location r = Some loc → 0 ≤ loc < Z.of_nat (length region) →
  place region r k = (k, Ok (<[Z.to_nat loc := r]> region)).
Proof.
  intros Hloc Hr. unfold place, mbind, mlift. rewrite Hloc. cbn [of_option].
  by rewrite vec_set_Ok.
Qed.

Lemma replicate_loop_spec (sz : Z) (m : nat) :
  ∀ (i : Z) (region : list SequentialRegion) (k k' : K) (r : result (list SequentialRegion)) (rest : list pnm_allocation),
  0 < sz → 0 ≤ i → i + Z.of_nat m = n → replicated sz i region →
  live k ≡ₚ owned_list region ++ rest →
  replicate_loop sz (Z.of_nat <$> seq (Z.to_nat i) m) region k = (k', r) →
  match r with
  | Ok region' => replicated sz n region' ∧ live k' ≡ₚ owned_list region' ++ rest
  | Err e => live k' ≡ₚ rest
  end.
Proof.
  induction m as [|m IH]; intros i region k k' r rest Hs Hi Him Hrep Hk Hr.
  { cbn in Hr. injection Hr as <- <-. assert (i = n) as -> by lia. done. }
  cbn [seq fmap list_fmap replicate_loop] in Hr.
  fold (Z.of_nat <$> seq (S (Z.to_nat i)) m) in Hr. rewrite Z2Nat.id in Hr by done.
  unfold mbind at 1, on_exception, mbind at 1 in Hr.
  destruct (allocate_ioctl sz (Some i) k) as [k1 [s|e]] eqn:E; cbv beta iota in Hr;
    apply allocate_ioctl_spec in E; try done.
  - destruct E as (loc & Hloc & Hl & Hsz & Hc & Hk1).
    assert (loc = i) as -> by (apply Hc; [done|unfold SLS_ALLOC_ANY_CUNIT; lia]).
    rewrite (place_spec k1 region s i) in Hr by (done || (destruct Hrep; lia)).
    replace (S (Z.to_nat i)) with (Z.to_nat (i + 1)) in Hr by lia.
    apply (IH (i + 1) _ k1 k' r rest) in Hr; try done; try lia.
    + apply replicated_step; done || lia.
    + rewrite owned_list_insert by
        (lia || (destruct Hrep as [Hlen _ Hrest];
          destruct (lookup_lt_is_Some_2 region (Z.to_nat i)) as [x Hx]; [lia|];
          rewrite Hx; f_equal; by apply (Hrest i))).
      unfold request_of. rewrite Hloc. cbn. rewrite Hk1, Hk, Hsz. done.
  - destruct E as [He Hk1]. rewrite He in Hr. unfold deallocate_impl, mbind, mlift in Hr. cbn [get_ranked] in Hr.
    destruct (deallocate_all_spec region k1 rest) as (k2 & Hd & Hk2).
    + by apply (replicated_located sz i).
    + by rewrite Hk1.
    + rewrite Hd in Hr. injection Hr as <- <-. done.
Qed.

Lemma replicated_start (sz : Z) : replicated sz 0 (replicate (Z.to_nat n) empty_region).
Proof.
  split.
  - rewrite length_replicate. lia.
  - lia.
  - intros j r _ Hj. by apply lookup_replicate in Hj as [-> _].
Qed.

Lemma owned_list_empty (m : nat) : owned_list (replicate m empty_region) = [].
Proof. induction m; [done|]. by cbn. Qed.

Lemma allocate_replicate_all_spec (sz : Z) (props : PropertiesList.t) (k k' : K)
    (r : result (list SequentialRegion)) :
  0 < sz →
  allocate_replicate_all n sz props (replicate (Z.to_nat n) empty_region) k = (k', r) →
  match r with
  | Ok region => replicated sz n region ∧ live k' ≡ₚ owned_list region ++ live k
  | Err e => live k' ≡ₚ live k
  end.
Proof.
  intros Hs. unfold allocate_replicate_all. destruct (PropertiesList.has_property _ _).
  { intros [= <- <-]. done. }
  unfold range. intros Hr.
  apply (replicate_loop_spec sz _ 0 _ _ _ _ (live k)) in Hr; try done; try lia.
  - apply replicated_start.
  - by rewrite owned_list_empty.
Qed.

Lemma allocate_single_spec (sz : Z) (props : PropertiesList.t) (k k' : K)
    (r : result (list SequentialRegion)) :
  0 < sz →
  allocate_single sz props (replicate (Z.to_nat n) empty_region) k = (k', r) →
  match r with
  | Ok region => ∃ loc s, 0 ≤ loc < n ∧ location s = Some loc ∧ size s = sz ∧
      region = <[Z.to_nat loc := s]> (replicate (Z.to_nat n) empty_region) ∧
      live k' ≡ₚ owned_list region ++ live k
  | Err e => live k' ≡ₚ live k
  end.
Proof.
  intros Hs. unfold allocate_single, mbind at 1.
  destruct (allocate_ioctl sz _ k) as [k1 [s|e]] eqn:E; apply allocate_ioctl_spec in E; try done.
  - destruct E as (loc & Hloc & Hl & Hsz & _ & Hk1).
    rewrite (place_spec k1 _ s loc) by (done || rewrite length_replicate; lia).
    intros [= <- <-]. exists loc, s. do 4 (split; [done|]).
    rewrite owned_list_insert by (lia || apply lookup_replicate_2; lia).
    unfold request_of. rewrite Hloc, owned_list_empty. cbn. by rewrite Hk1, Hsz.
  - intros [= <- <-]. apply E.
Qed.
End ranked_laws.

(** ** Both allocators implement the interface *)
Section instances.
Context {K : Type} `{!Driver K}.

Lemma ranked_allocate_inv (n : Z)
    `{!DriverLaws K ALLOCATE_MEMORY DEALLOCATE_MEMORY SLS_ALLOC_ANY_CUNIT n}
    (sz : Z) (props : PropertiesList.t) (k k' : K) (r : result DeviceRegion) :
  0 ≤ n ≤ 255 → 0 < sz → RankedAllocator.allocate_impl n sz props k = (k', r) →
  match r with
  | Ok reg => ∃ l, reg = RankedRegion l ∧ live k' ≡ₚ owned_list l ++ live k ∧
      Forall (fun s => 0 < size s → is_Some (location s)) l
  | Err e => live k' ≡ₚ live k
  end.
Proof.
  intros Hn Hs. unfold RankedAllocator.allocate_impl. destruct (_ || _); [|destruct (_ =? _)].
  - unfold mbind. destruct (RankedAllocator.allocate_single _ _ _ k) as [k1 [l|e]] eqn:E;
      apply (allocate_single_spec n) in E; try done; intros [= <- <-]; [|done].
    destruct E as (loc & s & Hl & Hloc & Hsz & -> & Hk). eexists. split; [done|]. split; [done|].
    apply Forall_insert; [|by rewrite Hloc].
    apply Forall_lookup. intros j x Hx. by apply lookup_replicate in Hx as [-> _].
  - unfold mbind. destruct (RankedAllocator.allocate_replicate_all _ _ _ _ k) as [k1 [l|e]] eqn:E;
      apply (allocate_replicate_all_spec n Hn) in E; try done; intros [= <- <-]; [|done].
    destruct E as [Hrep Hk]. eexists. split; [done|]. split; [done|].
    apply (replicated_located n sz n); [lia|done].
  - destruct (_ =? _); intros [= <- <-]; done.
Qed.

#[export] Instance ranked_allocator_laws (n : Z) (Hn : 0 ≤ n ≤ 255)
    `{!DriverLaws K ALLOCATE_MEMORY DEALLOCATE_MEMORY SLS_ALLOC_ANY_CUNIT n} :
  AllocatorLaws K (ranked_allocator n).
Proof.
  refine {| alive := live |}.
  - intros k k' sz props r Hs H. apply (ranked_allocate_inv n) in H as (l & -> & Hl & _); done.
  - intros k k' sz props e Hs H. apply (ranked_allocate_inv n) in H; done.
  - intros k k0 sz props r l Hs [k1 H] Hl.
    apply (ranked_allocate_inv n) in H as (l' & -> & _ & Hloc); try done.
    cbn [deallocate ranked_allocator]. unfold RankedAllocator.deallocate_impl, mbind, mlift.
    cbn [get_ranked]. by apply (deallocate_all_spec n).
Defined.

#[export] Instance sequential_allocator_laws (n : Z)
    `{!DriverLaws K IMDB_IOCTL_ALLOCATE IMDB_IOCTL_DEALLOCATE n n} :
  AllocatorLaws K (sequential_allocator n).
Proof.
  refine {| alive := live |}.
  - intros k k' sz props r Hs. cbn [allocate sequential_allocator].
    unfold SequentialAllocator.allocate_impl, mbind, mlift, call.
    destruct (SequentialAllocator.get_alloc_preference _ _) as [pool|]; [|done].
    destruct (ioctl k _ _) as [k1 [err|req]] eqn:E; [done|]. intros [= <- <-].
    apply driver_alloc_ok in E as (Hl & _). cbn. rewrite Hl. by destruct req.
  - intros k k' sz props e Hs. cbn [allocate sequential_allocator].
    unfold SequentialAllocator.allocate_impl, mbind, mlift, call.
    destruct (SequentialAllocator.get_alloc_preference _ _) as [pool|]; [|by intros [= <- _]].
    destruct (ioctl k _ _) as [k1 [err|req]] eqn:E; [|done]. intros [= <- _].
    by apply driver_alloc_err in E.
  - intros k k0 sz props r l Hs [k1 H] Hl. revert H. cbn [allocate sequential_allocator].
    unfold SequentialAllocator.allocate_impl, mbind at 1, mlift at 1, mbind, call at 1.
    destruct (SequentialAllocator.get_alloc_preference _ _) as [pool|]; [|done].
    destruct (ioctl k0 _ _) as [k2 [err|req]] eqn:E; [done|]. intros [= <- <-].
    cbn in Hl. cbn [deallocate sequential_allocator].
    unfold SequentialAllocator.deallocate_impl, mbind, mlift, call, mret.
    cbn [get_sequential region_of location of_option start size is_global].
    destruct (driver_dealloc k (mkRequest (addr req) (req_size req) (memory_pool req)
      (req_is_global req))) as (k' & req' & -> & Hk').
    { rewrite Hl. constructor. }
    exists k'. split; [done|]. rewrite Hk' in Hl. by apply Permutation_cons_inv in Hl.
Defined.
End instances.

(** ** Serialized regions *)

(** A serialized region keeps the address and the location only. *)
Definition strip (r : SequentialRegion) : SequentialRegion := mkRegion (start r) 0 (location r) 0.

Record serializable (r : SequentialRegion) : Prop := {
  se_start : 0 ≤ start r < 2 ^ 56;
  se_location : ∀ loc, location r = Some loc → 0 ≤ loc < 255
}.

Lemma serialize_arith (r : SequentialRegion) :
  serializable r →
  SharedRegion.serialize_sequential r = start r + default 255 (location r) * 2 ^ 56 ∧
  0 ≤ default 255 (location r) < 256.
Proof.
  intros [Hs Hl]. unfold SharedRegion.serialize_sequential.
  assert (Hd : 0 ≤ default 255 (location r) < 256).
  { destruct (location r) as [l|]; cbn; [specialize (Hl l eq_refl)|]; lia. }
  split; [|done]. change SharedRegion.max_index_of_region_ with 255.
  set (d := default 255 (location r)) in *. clearbody d.
  rewrite shiftl_mul by done. rewrite u64_small by (change SharedRegion.cunit_pos_in_serialized_
    with 56; lia). by apply lor_low_high.
Qed.

Lemma deserialize_serialize (r : SequentialRegion) (amount : Z) :
  serializable r → amount ≠ 256 →
  SharedRegion.deserialize_sequential (SharedRegion.serialize_sequential r) amount = strip r.
Proof.
  intros Hr Ha. destruct (serialize_arith r Hr) as [-> Hd]. destruct Hr as [Hs Hl].
  unfold SharedRegion.deserialize_sequential, strip.
  change SharedRegion.cunit_pos_in_serialized_ with 56.
  change SharedRegion.max_index_of_region_ with 255.
  change SharedRegion.max_amount_of_regions_ with 256.
  replace (amount =? 256) with false by lia. rewrite andb_false_r, orb_false_r.
  rewrite shiftr_div by done.
  assert (E : (start r + default 255 (location r) * 2 ^ 56) / 2 ^ 56 = default 255 (location r)).
  { set (d := default 255 (location r)) in *. clearbody d. dlia. }
  rewrite E. f_equal.
  - set (d := default 255 (location r)) in *. clearbody d.
    rewrite shiftl_mul by done. rewrite (u64_small (d * 2 ^ 56)) by lia.
    rewrite land_u64_lnot by lia. rewrite <- lor_low_high by lia.
    apply Z.bits_inj'. intros i Hi. rewrite Z.ldiff_spec, Z.lor_spec.
    destruct (Z.testbit (d * 2 ^ 56) i) eqn:Eb; cbn; [|by rewrite orb_false_r, andb_true_r].
    rewrite andb_false_r. symmetry.
    destruct (Z.lt_ge_cases i 56); [by rewrite Z.mul_pow2_bits_low in Eb by lia|].
    apply (testbit_above _ 56); lia.
  - destruct (location r) as [l|]; cbn in *; [|done]. specialize (Hl l eq_refl).
    replace (l <? 255) with true by lia. unfold u8. by rewrite Z.mod_small by lia.
Qed.

Lemma serialized_singleton (s : SequentialRegion) :
  serializable s →
  SharedRegion.of_serialized [SharedRegion.serialize_sequential s] =
  Ok (SharedRegion.mk (Sequential (strip s)) [SharedRegion.serialize_sequential s]).
Proof.
  intros Hs. pose proof (deserialize_serialize s 1 Hs ltac:(lia)) as E.
  generalize dependent (SharedRegion.serialize_sequential s). intros w E.
  rewrite <- E. reflexivity.
Qed.

(** ** Theorems *)

(** Property C12.  Allocation with the replicate-all policy is a transaction: it
    returns a region with one allocation of the requested size on every rank, in
    rank order, all of them and nothing else being new; or it throws, and then
    every allocation already made has been released. *)
Theorem replicate_all_is_transactional {K : Type} `{!Driver K} (n : Z)
    `{!DriverLaws K ALLOCATE_MEMORY DEALLOCATE_MEMORY SLS_ALLOC_ANY_CUNIT n}
    (sz : Z) (props : PropertiesList.t) (k k' : K) (r : result DeviceRegion) :
  0 ≤ n ≤ 255 → 0 < sz →
  PropertiesList.find_property props MEM_ALLOCATION_POLICY = Some (AllocPolicy SLS_ALLOC_REPLICATE_ALL) →
  RankedAllocator.allocate_impl n sz props k = (k', r) →
  match r with
  | Ok region => ∃ l, region = RankedRegion l ∧ Z.of_nat (length l) = n ∧
      (∀ j, 0 ≤ j < n → ∃ s, l !! Z.to_nat j = Some s ∧ location s = Some j ∧ size s = sz) ∧
      live k' ≡ₚ owned region ++ live k
  | Err e => live k' ≡ₚ live k
  end.
Proof.
  intros Hn Hs Hp. unfold RankedAllocator.allocate_impl. rewrite Hp.
  cbn [fmap option_fmap option_map default PropertiesList.value]. cbn. unfold mbind.
  destruct (RankedAllocator.allocate_replicate_all _ _ _ _ k) as [k1 [l|e]] eqn:E;
    apply (allocate_replicate_all_spec n) in E; try done; intros [= <- <-]; [|done].
  destruct E as [[Hl Hd _] Hk]. by exists l.
Qed.

(** A driver with [capacity] allocations of any size on [pools] pools. *)
Section sample_driver.
Context (pools capacity : Z).

Fixpoint remove_one (x : pnm_allocation) (l : list pnm_allocation) : list pnm_allocation :=
  match l with
  | [] => []
  | y :: l' => if decide (x = y) then l' else y :: remove_one x l'
  end.

Lemma remove_one_spec (x : pnm_allocation) (l : list pnm_allocation) :
  x ∈ l → l ≡ₚ x :: remove_one x l.
Proof.
  induction l as [|y l IH]; intros Hx; [by apply not_elem_of_nil in Hx|]. cbn.
  destruct (decide (x = y)) as [->|Hne]; [done|].
  apply elem_of_cons in Hx as [|Hx]; [done|]. rewrite (IH Hx) at 1. constructor.
Qed.

#[local] Instance sample_driver : Driver (list pnm_allocation) := fun k cmd req =>
  match cmd with
  | ALLOCATE_MEMORY =>
      let pool := if memory_pool req =? SLS_ALLOC_ANY_CUNIT then 0 else memory_pool req in
      if (0 <=? pool) && (pool <? pools) && (Z.of_nat (length k) <? capacity) then
        let a := mkRequest (4096 * Z.of_nat (length k)) (req_size req) pool 0 in (a :: k, inr a)
      else (k, inl ENOMEM)
  | DEALLOCATE_MEMORY =>
      if decide (req ∈ k) then (remove_one req k, inr req) else (k, inl EINVAL)
  | _ => (k, inl EINVAL)
  end.

#[local] Instance sample_driver_laws :
  DriverLaws (list pnm_allocation) ALLOCATE_MEMORY DEALLOCATE_MEMORY SLS_ALLOC_ANY_CUNIT pools.
Proof.
  refine {| live := fun k => k |}; unfold ioctl, sample_driver; cbv beta iota zeta.
  - intros k k' req req'. destruct (_ && _) eqn:E; [|done]. intros [= <- <-]. cbn. zbool.
    split; [done|]. split; [done|]. split; [done|].
    destruct (Z.eqb_spec (memory_pool req) SLS_ALLOC_ANY_CUNIT); done.
  - intros k k' req err. destruct (_ && _) eqn:E; [done|]. by intros [= <- _].
  - intros k req Hin. rewrite decide_True by done. eexists _, _. split; [done|].
    by apply remove_one_spec.
Defined.
End sample_driver.

Definition replicate_props : PropertiesList.t :=
  PropertiesList.add_property PropertiesList.empty (AllocPolicy SLS_ALLOC_REPLICATE_ALL).

Lemma replicate_all_is_transactional_witness :
  (let (k', r) := @RankedAllocator.allocate_impl _ (sample_driver 2 3) 2 640 replicate_props [] in
   length k' = 2%nat ∧ is_ok r = true) ∧
  (let (k', r) := @RankedAllocator.allocate_impl _ (sample_driver 4 3) 4 640 replicate_props [] in
   k' ≡ₚ [] ∧ r = Err OutOfMemory).
Proof.
  split.
  - pose proof (@replicate_all_is_transactional _ (sample_driver 2 3) 2 (sample_driver_laws 2 3)
      640 replicate_props [] _ _ ltac:(lia) ltac:(lia) eq_refl (surjective_pairing _)) as H.
    vm_compute in H. vm_compute. done.
  - pose proof (@replicate_all_is_transactional _ (sample_driver 4 3) 4 (sample_driver_laws 4 3)
      640 replicate_props [] _ _ ltac:(lia) ltac:(lia) eq_refl (surjective_pairing _)) as H.
    vm_compute in H. vm_compute. split; [exact H|done].
Defined.

(** A shared region survives serialization: address and location
    of every sub-region come back, in order (sizes and the global flag are not
    part of the format and come back as zero), for a sequential region and for a
    ranked region of two to 255 sub-regions. *)
Theorem shared_region_roundtrip (r : DeviceRegion) :
  match r with
  | Sequential s => serializable s
  | RankedRegion l => Forall serializable l ∧ 1 < Z.of_nat (length l) < 256
  end →
  let s := SharedRegion.of_region r in
  SharedRegion.of_serialized (SharedRegion.get_serialized s) =
  Ok (SharedRegion.mk
        (match r with
         | Sequential s => Sequential (strip s)
         | RankedRegion l => RankedRegion (strip <$> l)
         end) (SharedRegion.get_serialized s)).
Proof.
  destruct r as [s|l].
  - intros Hs s'. change (SharedRegion.get_serialized s') with [SharedRegion.serialize_sequential s].
    by rewrite serialized_singleton.
  - intros [Hl Hn]. cbn [SharedRegion.of_region SharedRegion.get_serialized
      SharedRegion.serialized_region_ SharedRegion.serialize].
    unfold SharedRegion.of_serialized, SharedRegion.deserialize.
    rewrite length_fmap. replace (1 <? Z.of_nat (length l)) with true by lia.
    assert (E : (fun b => SharedRegion.deserialize_sequential b (Z.of_nat (length l))) <$>
      (SharedRegion.serialize_sequential <$> l) = strip <$> l).
    { rewrite <- list_fmap_compose. apply list_fmap_ext. intros i x Hx.
      apply deserialize_serialize; [|lia]. by apply (Forall_lookup_1 _ _ _ _ Hl Hx). }
    rewrite E. destruct l; [cbn in Hn; lia|]. done.
Qed.

(** A ranked region with a single sub-region does not survive: it
    comes back as a sequential region, which the ranked allocator refuses to
    release. *)
Theorem single_rank_region_changes_kind {K : Type} `{!Driver K} (s : SequentialRegion) (k : K) :
  serializable s →
  let shared := SharedRegion.of_region (RankedRegion [s]) in
  SharedRegion.of_serialized (SharedRegion.get_serialized shared) =
    Ok (SharedRegion.mk (Sequential (strip s)) (SharedRegion.get_serialized shared)) ∧
  RankedAllocator.deallocate_impl (Sequential (strip s)) k = (k, Err StdException).
Proof.
  intros Hs shared. split; [|done].
  change (SharedRegion.get_serialized shared) with [SharedRegion.serialize_sequential s].
  by rewrite serialized_singleton.
Qed.

