(* ===== verification/Buffers.v ===== *)
(** * Device buffers and embedding tables

    include/pnmlib/core/buffer.h ([Buffer<T>]) and
    sls/operation/api/embedding_tables.cpp ([EmbeddingTables]).  A buffer is a
    client of the allocator interface of Allocators; the transfer manager of its
    context is a parameter. *)
From S2P Require Import Prelude Topology RankMemory Allocators.

(** A range of host memory, [pnm::views::common<T>]: first element and count. *)
Record view := mkView { view_begin : Z; view_size : Z }.
Definition empty_view : view := mkView 0 0.

(** [DeviceRegionWrapper] *)
Record DeviceRegionWrapper := mkWrapper {
  value : DeviceRegion;
  owner_process_id : Z;
  owned_ : bool;
  wrapper_global : bool
}.

(** [DeviceRegionSizeVisitor] *)
Definition region_size (r : DeviceRegion) : Z :=
  match r with
  | Sequential s => size s
  | RankedRegion [] => 0
  | RankedRegion (s :: _) => size s
  end.

Module Buffer.

(** [context_] is [false] for a null pointer; [pid] below is [getpid()], [T] is
    [sizeof(T)]. *)
Record t := mk {
  context_ : bool;
  user_range_ : view;
  offloaded_ : bool;
  props_ : PropertiesList.t;
  size_ : Z;
  dev_region_ : DeviceRegionWrapper
}.

Section buffer.
Context {K : Type} {A : Allocator K}.
Context (tm_to_device : view → DeviceRegion → M K Z) (tm_from_device : DeviceRegion → view → M K Z).
Context (T pid : Z).

(** [DeviceRegion{}] holds a default [SequentialRegion]. *)
Definition default_wrapper : DeviceRegionWrapper :=
  mkWrapper (Sequential empty_region) pid true false.

(** The allocation in the initializer list goes through the context before the
    body can test it. *)
Definition init_region (context : bool) (sz : Z) (props : PropertiesList.t)
  : M K DeviceRegionWrapper :=
  if context then
    do! r := allocate (u64 (sz * T)) props in mret (mkWrapper r pid true false)
  else mthrow UndefinedBehaviour.

Definition make (sz : Z) (context : bool) (props : PropertiesList.t) : M K t :=
  do! w := init_region context sz props in
  let b := mk context empty_view false props sz w in
  if negb context then mthrow InvalidArguments else mret b.

Definition copy_to_device (b : t) : M K (t * Z) :=
  if view_size (user_range_ b) =? 0 then mthrow InvalidArguments
  else if negb (context_ b) then mthrow UndefinedBehaviour
  else
    do! count := tm_to_device (user_range_ b) (value (dev_region_ b)) in
    mret (mk (context_ b) (user_range_ b) true (props_ b) (size_ b) (dev_region_ b), count).

Definition copy_from_device (b : t) : M K Z :=
  if view_size (user_range_ b) =? 0 then mthrow InvalidArguments
  else if negb (context_ b) then mthrow UndefinedBehaviour
  else tm_from_device (value (dev_region_ b)) (user_range_ b).

(** The constructor from a mutable user range. *)
Definition of_range (range : view) (context : bool) (props : PropertiesList.t) : M K t :=
  let sz := u64 (view_size range) in
  do! w := init_region context sz props in
  let b := mk context range false props sz w in
  if negb context then mthrow InvalidArguments
  else do! (b, _) := copy_to_device b in mret b.

(** The constructor from a constant user range, which is copied but not kept. *)
Definition of_const_range (range : view) (context : bool) (props : PropertiesList.t) : M K t :=
  let sz := u64 (view_size range) in
  do! w := init_region context sz props in
  let b := mk context empty_view false props sz w in
  if negb context then mthrow InvalidArguments
  else do! _ := tm_to_device range (value w) in mret b.

Definition of_region (r : DeviceRegion) (context : bool) (props : PropertiesList.t) : t :=
  mk context empty_view false props (region_size r / T) (mkWrapper r (-1) false false).

Definition of_shared (s : SharedRegion.t) (context : bool) (props : PropertiesList.t) : M K t :=
  if negb context then mthrow UndefinedBehaviour
  else
    do! r := get_shared_alloc (SharedRegion.get_region s) in
    mret (mk context empty_view false props (region_size r / T) (mkWrapper r (-1) false true)).

Definition bind_user_region (b : t) (range : view) : result t :=
  if negb (u64 (view_size range) =? size_ b) then Err InvalidArguments
  else Ok (mk (context_ b) range false (props_ b) (size_ b) (dev_region_ b)).

(** What is left of a buffer that was moved from. *)
Definition moved_from (b : t) : t :=
  mk false empty_view (offloaded_ b) PropertiesList.empty (size_ b) default_wrapper.

(** [Buffer(Buffer &&other)]: the new buffer and what [other] becomes. *)
Definition move (other : t) : t * t := (other, moved_from other).

(** Only exceptions of the library are swallowed. *)
Definition is_library_error (e : error) : bool :=
  match e with
  | OutOfMemory | BadAccess | InvalidArguments | IO | NotSupported | Failure => true
  | _ => false
  end.

(** [release() noexcept]: an exception it does not catch terminates. *)
Definition release (b : t) : M K unit := fun k =>
  if negb (context_ b) then (k, Ok tt)
  else
    match deallocate (value (dev_region_ b)) k with
    | (k', Ok _) => (k', Ok tt)
    | (k', Err e) =>
        if is_library_error e then (k', Ok tt)
        else if is_exception e then (k', Err Aborted) else (k', Err e)
    end.

(** [operator=(Buffer &&other)] for distinct objects: the assigned buffer and
    what [other] becomes. *)
Definition move_assign (b other : t) : M K (t * t) :=
  do! _ := release b in mret (move other).

(** [operator=(Buffer &&other)] for [other] the buffer itself: after [release], every
    [std::exchange] gives back what the assignment overwrites. *)
Definition self_move_assign (b : t) : M K t :=
  do! _ := release b in mret b.

Definition make_shared (b : t) : M K (t * SharedRegion.t) :=
  if wrapper_global (dev_region_ b) then mret (b, SharedRegion.of_region (value (dev_region_ b)))
  else if negb (context_ b) then mthrow UndefinedBehaviour
  else
    do! r := share_region (value (dev_region_ b)) in
    let shared := SharedRegion.of_region r in
    let w := mkWrapper (SharedRegion.get_region shared) (owner_process_id (dev_region_ b))
               (owned_ (dev_region_ b)) true in
    mret (mk (context_ b) (user_range_ b) (offloaded_ b) (props_ b) (size_ b) w, shared).

(** [~Buffer()] *)
Definition destroy (b : t) : M K unit :=
  let w := dev_region_ b in
  if (owned_ w && (owner_process_id w =? pid)) || wrapper_global w then release b else mret tt.

Definition size (b : t) : Z := size_ b.
Definition device_region (b : t) : DeviceRegion := value (dev_region_ b).
Definition is_offloaded (b : t) : bool := offloaded_ b.
Definition is_device_region_owned (b : t) : bool := owned_ (dev_region_ b).

End buffer.
End Buffer.

(** ** sls/operation/api/embedding_tables.cpp *)
Module EmbeddingTables.

Record t := mk {
  buffers_ : list Buffer.t;
  layout_ : list (list MemoryObject.t)
}.

Definition policy_props (option : Z) : result PropertiesList.t :=
  if (option =? SLS_ALLOC_REPLICATE_ALL) || (option =? SLS_ALLOC_AUTO) then
    Ok (PropertiesList.add_property PropertiesList.empty (AllocPolicy SLS_ALLOC_REPLICATE_ALL))
  else if negb (option =? SLS_ALLOC_DISTRIBUTE_ALL) then Err InvalidArguments
  else Ok PropertiesList.empty.

(** One sub-region of the loop over [address.regions]. *)
Definition add_subaddr (s : Z * MemoryObject.t) (subaddr : SequentialRegion)
  : result (Z * MemoryObject.t) :=
  match location subaddr with
  | None => Ok s
  | Some loc =>
      let! _ := (if loc <? 32 then Ok tt else Err UndefinedBehaviour) in
      let! obj := MemoryObject.set_offset s.2 loc (start subaddr) in
      Ok (Z.lor s.1 (u32 (Z.shiftl 1 loc)), obj)
  end.

Definition add_buffer (tp : Constants) (layout : list (list MemoryObject.t)) (table_id : Z)
    (region : DeviceRegion) : result (list (list MemoryObject.t)) :=
  let! regions := get_ranked region in
  match find (fun e => bool_decide (is_Some (location e))) regions with
  | None => Err AssertionFailed
  | Some valid_region =>
      let! (mask, obj) :=
        rfold add_subaddr
          (0, MemoryObject.make table_id (size valid_region) (NumOfCUnits tp)) regions in
      let! objs := vec_at layout mask in
      vec_set layout mask (objs ++ [obj])
  end.

Fixpoint layout_loop (tp : Constants) (layout : list (list MemoryObject.t)) (table_id : Z)
    (regions : list DeviceRegion) : result (list (list MemoryObject.t)) :=
  match regions with
  | [] => Ok layout
  | r :: regions' =>
      let! layout := add_buffer tp layout table_id r in
      layout_loop tp layout (table_id + 1) regions'
  end.

Definition construct_layout (tp : Constants) (regions : list DeviceRegion)
  : result (list (list MemoryObject.t)) :=
  layout_loop tp (replicate (Z.to_nat (Z.shiftl 1 (NumOfCUnits tp))) []) 0 regions.

Section init.
Context {K : Type} {A : Allocator K} (tp : Constants) (pid : Z).

(** The destructor of the vector of buffers. *)
Fixpoint destroy_all (l : list Buffer.t) : M K unit :=
  match l with
  | [] => mret tt
  | b :: l' => do! _ := Buffer.destroy pid b in destroy_all l'
  end.

(** The loop of [init_buffers]. *)
Fixpoint make_buffers (table_sizes : list Z) (row_bytes : Z) (props : PropertiesList.t)
    (built : list Buffer.t) : M K (list Buffer.t) :=
  match table_sizes with
  | [] => mret built
  | sz :: rest =>
      do! b := on_exception (Buffer.make 1 pid (u64 (sz * row_bytes)) true props)
                 (destroy_all built) in
      make_buffers rest row_bytes props (built ++ [b])
  end.

Definition init_buffers (table_sizes : list Z) (row_bytes option : Z) : M K t :=
  do! props := mlift (policy_props option) in
  do! bs := make_buffers table_sizes row_bytes props [] in
  do! layout := on_exception (mlift (construct_layout tp (Buffer.device_region <$> bs)))
                  (destroy_all bs) in
  mret (mk bs layout).

(** [transfer_data]: every buffer is bound to the next part of the host data. *)
Fixpoint transfer_data (tm_to_device : view → DeviceRegion → M K Z) (bs : list Buffer.t)
    (begin : Z) : M K (list Buffer.t) :=
  match bs with
  | [] => mret []
  | b :: bs' =>
      let host_data := mkView begin (Buffer.size b) in
      do! b := mlift (Buffer.bind_user_region b host_data) in
      do! (b, _) := Buffer.copy_to_device tm_to_device b in
      do! rest := transfer_data tm_to_device bs' (u64 (begin + view_size host_data)) in
      mret (b :: rest)
  end.
End init.
End EmbeddingTables.

(** ** Ownership

    A process works with a list of buffer variables.  Every step creates a
    buffer, moves one into a new variable, assigns one by move, or ends the life
    of one (its variable is dropped). *)
Section ownership.
Context {K : Type} {A : Allocator K} {L : AllocatorLaws K A} (pid T : Z).

Inductive op :=
  | Create (sz : Z) (props : PropertiesList.t)
  | Move (i : nat)
  | MoveAssign (i j : nat)
  | Destroy (i : nat).

Definition step (o : op) (vars : list Buffer.t) : M K (list Buffer.t) :=
  match o with
  | Create sz props => do! b := Buffer.make T pid sz true props in mret (vars ++ [b])
  | Move i =>
      match vars !! i with
      | Some b => let (b', rest) := Buffer.move pid b in mret (<[i := rest]> vars ++ [b'])
      | None => mret vars
      end
  | MoveAssign i j =>
      match vars !! i, vars !! j with
      | Some b, Some other =>
          if decide (i = j) then do! b' := Buffer.self_move_assign b in mret (<[i := b']> vars)
          else do! (b', rest) := Buffer.move_assign pid b other in
               mret (<[j := rest]> (<[i := b']> vars))
      | _, _ => mret vars
      end
  | Destroy i =>
      match vars !! i with
      | Some b => do! _ := Buffer.destroy pid b in mret (delete i vars)
      | None => mret vars
      end
  end.

(** A step that throws leaves the variables as they were. *)
Fixpoint steps (ops : list op) (vars : list Buffer.t) (k : K) : K * list Buffer.t :=
  match ops with
  | [] => (k, vars)
  | o :: ops' =>
      match step o vars k with
      | (k', Ok vars') => steps ops' vars' k'
      | (k', Err _) => steps ops' vars k'
      end
  end.

Definition holds (b : Buffer.t) : list pnm_allocation :=
  if Buffer.context_ b then owned (Buffer.device_region b) else [].

Definition holdings (vars : list Buffer.t) : list pnm_allocation := vars ≫= holds.

(** A buffer that owns a region its allocator returned, or that was moved from. *)
Definition owning (b : Buffer.t) : Prop :=
  Buffer.context_ b = true →
  owned_ (Buffer.dev_region_ b) = true ∧ owner_process_id (Buffer.dev_region_ b) = pid ∧
  ∃ k k' sz props, 0 < sz ∧ allocate sz props k = (k', Ok (Buffer.device_region b)).

Lemma holdings_app (l l' : list Buffer.t) : holdings (l ++ l') = holdings l ++ holdings l'.
Proof. apply bind_app. Qed.

Lemma holdings_lookup (vars : list Buffer.t) (i : nat) (b : Buffer.t) :
  vars !! i = Some b → holdings vars ≡ₚ holds b ++ holdings (delete i vars).
Proof.
  revert i. induction vars as [|x vars IH]; intros [|i] H; try done; cbn in *.
  - by injection H as ->.
  - rewrite (IH i H). solve_Permutation.
Qed.

Lemma holdings_insert (vars : list Buffer.t) (i : nat) (b b' : Buffer.t) :
  vars !! i = Some b → holdings (<[i := b']> vars) ++ holds b ≡ₚ holdings vars ++ holds b'.
Proof.
  revert i. induction vars as [|x vars IH]; intros [|i] H; try done; cbn in *.
  - injection H as ->. solve_Permutation.
  - rewrite <- !app_assoc, (IH i H). done.
Qed.

Lemma buffer_make_spec (sz : Z) (props : PropertiesList.t) (k k' : K) (r : result Buffer.t) :
  0 < u64 (sz * T) → Buffer.make T pid sz true props k = (k', r) →
  match r with
  | Ok b => owning b ∧ alive k' ≡ₚ holds b ++ alive k
  | Err _ => alive k' ≡ₚ alive k
  end.
Proof.
  intros Hs. unfold Buffer.make, Buffer.init_region, mbind.
  destruct (allocate (u64 (sz * T)) props k) as [k1 [reg|e]] eqn:E; intros [= <- <-].
  - split; [|by apply allocate_ok in E]. intros _. split; [done|]. split; [done|].
    by exists k, k1, (u64 (sz * T)), props.
  - by apply allocate_throws in E.
Qed.

Lemma release_spec (b : Buffer.t) (k : K) (l : list pnm_allocation) :
  owning b → alive k ≡ₚ holds b ++ l → ∃ k', Buffer.release b k = (k', Ok tt) ∧ alive k' ≡ₚ l.
Proof.
  intros Ho Hk. unfold Buffer.release. unfold holds in Hk.
  destruct (Buffer.context_ b) eqn:Ec; cbn [negb]; [|by exists k].
  destruct (Ho Ec) as (_ & _ & k0 & k1 & sz & props & Hs & Ha).
  destruct (deallocate_owned k k0 sz props (Buffer.device_region b) l Hs) as (k' & Hd & Hk');
    [by exists k1|done|].
  exists k'. unfold Buffer.device_region in Hd. by rewrite Hd.
Qed.

Lemma destroy_spec (b : Buffer.t) (k : K) (l : list pnm_allocation) :
  owning b → alive k ≡ₚ holds b ++ l →
  ∃ k', Buffer.destroy pid b k = (k', Ok tt) ∧ alive k' ≡ₚ l.
Proof.
  intros Ho Hk. unfold Buffer.destroy. destruct (Buffer.context_ b) eqn:Ec.
  - destruct (Ho Ec) as (-> & -> & _). rewrite Z.eqb_refl. by apply release_spec.
  - destruct (_ || _); [by apply release_spec|]. exists k. split; [done|].
    unfold holds in Hk. by rewrite Ec in Hk.
Qed.

(** A move hands the region over. *)
Lemma owning_moved (b : Buffer.t) : owning (Buffer.moved_from pid b) ∧ holds (Buffer.moved_from pid b) = [].
Proof. split; [|done]. intros [=]. Qed.

Definition op_ok (o : op) : Prop :=
  match o with Create sz _ => 0 < u64 (sz * T) | MoveAssign i j => i ≠ j | _ => True end.

Lemma step_spec (o : op) (vars : list Buffer.t) (k k' : K) (r : result (list Buffer.t))
    (base : list pnm_allocation) :
  op_ok o → Forall owning vars → alive k ≡ₚ holdings vars ++ base → step o vars k = (k', r) →
  match r with
  | Ok vars' => Forall owning vars' ∧ alive k' ≡ₚ holdings vars' ++ base
  | Err _ => alive k' ≡ₚ holdings vars ++ base
  end.
Proof.
  intros Ho Hv Hk. destruct o as [sz props|i|i j|i]; cbn [step].
  - unfold mbind. destruct (Buffer.make T pid sz true props k) as [k1 [b|e]] eqn:E;
      apply buffer_make_spec in E; try done; intros [= <- <-]; [|by rewrite E].
    destruct E as [Hb Ek]. split; [by apply Forall_app_2; [|apply Forall_singleton]|].
    rewrite holdings_app, Ek, Hk. unfold holdings at 3. cbn. rewrite app_nil_r. solve_Permutation.
  - destruct (vars !! i) as [b|] eqn:Eb; [|by intros [= <- <-]]. intros [= <- <-].
    destruct (owning_moved b) as [Hm Hm'].
    split.
    + apply Forall_app_2; [by apply Forall_insert|].
      apply Forall_singleton, (Forall_lookup_1 _ _ _ _ Hv Eb).
    + rewrite holdings_app. unfold holdings at 2. cbn [mbind list_bind base.mbind].
      rewrite app_nil_r, (holdings_insert _ _ b) by done. by rewrite Hm', app_nil_r.
  - destruct (vars !! i) as [b|] eqn:Eb; [|by intros [= <- <-]].
    destruct (vars !! j) as [other|] eqn:Eo; [|by intros [= <- <-]].
    rewrite decide_False by done.
    
    unfold Buffer.move_assign, mbind. rewrite (holdings_lookup _ _ _ Eb), <- app_assoc in Hk.
    destruct (release_spec b k _ (Forall_lookup_1 _ _ _ _ Hv Eb) Hk) as (k1 & -> & Hk1).
    intros [= <- <-]. destruct (owning_moved other) as [Hm Hm'].
    split; [by repeat apply Forall_insert; try done; apply (Forall_lookup_1 _ _ _ _ Hv Eo)|].
    rewrite Hk1. apply Permutation_app_tail.
    pose proof (holdings_insert (<[i := other]> vars) j other (Buffer.moved_from pid other)) as H1.
    rewrite list_lookup_insert_ne in H1 by exact Ho. specialize (H1 Eo). rewrite Hm', app_nil_r in H1.
    pose proof (holdings_insert vars i b other Eb) as H2.
    rewrite (holdings_lookup _ _ _ Eb) in H2.
    apply (Permutation_app_inv_r (holds b)), (Permutation_app_inv_r (holds other)).
    transitivity (holdings (<[i:=other]> vars) ++ holds b); [rewrite H2; solve_Permutation|].
    rewrite <- H1. solve_Permutation.
  - destruct (vars !! i) as [b|] eqn:Eb; [|by intros [= <- <-]]. unfold mbind.
    rewrite (holdings_lookup _ _ _ Eb), <- app_assoc in Hk.
    destruct (destroy_spec b k _ (Forall_lookup_1 _ _ _ _ Hv Eb) Hk) as (k1 & -> & Hk1).
    intros [= <- <-]. split; [by apply Forall_delete|done].
Qed.

Lemma steps_spec (ops : list op) (base : list pnm_allocation) : ∀ (vars : list Buffer.t) (k : K),
  Forall op_ok ops → Forall owning vars → alive k ≡ₚ holdings vars ++ base →
  let (k', vars') := steps ops vars k in
  Forall owning vars' ∧ alive k' ≡ₚ holdings vars' ++ base.
Proof.
  induction ops as [|o ops IH]; intros vars k Ho Hv Hk; cbn [steps]; [done|].
  apply Forall_cons in Ho as [Ho Hos].
  destruct (step o vars k) as [k' [vars'|e]] eqn:E; eapply step_spec in E; try done.
  - destruct E as [Hv' Hk']. by apply IH.
  - by apply IH.
Qed.

Lemma destroy_all_spec (vars : list Buffer.t) (base : list pnm_allocation) : ∀ (k : K),
  Forall owning vars → alive k ≡ₚ holdings vars ++ base →
  ∃ k', EmbeddingTables.destroy_all pid vars k = (k', Ok tt) ∧ alive k' ≡ₚ base.
Proof.
  induction vars as [|b vars IH]; intros k Hv Hk; cbn [EmbeddingTables.destroy_all]; [by exists k|].
  apply Forall_cons in Hv as [Hb Hv]. cbn in Hk. rewrite <- app_assoc in Hk. unfold mbind.
  destruct (destroy_spec b k _ Hb Hk) as (k1 & -> & Hk1). by apply IH.
Qed.
End ownership.

(** ** The layout of replicated tables *)
Lemma set_offset_shape (o o' : MemoryObject.t) (r off : Z) :
  MemoryObject.set_offset o r off = Ok o' →
  MemoryObject.id o' = MemoryObject.id o ∧ MemoryObject.bytes o' = MemoryObject.bytes o ∧
  length (MemoryObject.offsets_ o') = length (MemoryObject.offsets_ o).
Proof.
  unfold MemoryObject.set_offset. intros H. inv_result. unfold vec_set in E0.
  destruct (_ && _); [|done]. inv_result. cbn. by rewrite length_insert.
Qed.

Section layout.
Context (tp : Constants) (Hn : 0 < NumOfCUnits tp ≤ 31).
Abbreviation n := (NumOfCUnits tp).

(** A region as the replicate-all policy returns it. *)
Record full_region (sz : Z) (l : list SequentialRegion) : Prop := {
  fr_length : Z.of_nat (length l) = n;
  fr_located : ∀ j, 0 ≤ j < n →
    ∃ s, l !! Z.to_nat j = Some s ∧ location s = Some j ∧ Allocators.size s = sz
}.

(** The object of a table: its offsets are the addresses of the sub-regions. *)
Record object_of (id sz : Z) (l : list SequentialRegion) (o : MemoryObject.t) : Prop := {
  oo_id : MemoryObject.id o = id;
  oo_bytes : MemoryObject.bytes o = sz;
  oo_offset : ∀ j s, 0 ≤ j < n → l !! Z.to_nat j = Some s → MemoryObject.offset o j = Ok (start s)
}.

Lemma mask_step (i : Z) : 0 ≤ i ≤ 31 → Z.lor (2 ^ i - 1) (u32 (Z.shiftl 1 i)) = 2 ^ (i + 1) - 1.
Proof.
  intros Hi. rewrite shiftl_mul by lia.
  assert (H2 : 1 ≤ 2 ^ i ≤ 2 ^ 31)
    by (split; [pose proof (pow2_pos i); lia|apply Z.pow_le_mono_r; lia]).
  unfold u32. rewrite Z.mod_small by lia. rewrite lor_low_high by lia.
  rewrite Z.pow_add_r by lia. lia.
Qed.

Lemma add_subaddrs_spec (sz : Z) (l : list SequentialRegion) (m : nat) : ∀ (i : Z) (o : MemoryObject.t),
  full_region sz l → 0 ≤ i → i + Z.of_nat m = n →
  Z.of_nat (length (MemoryObject.offsets_ o)) = n →
  (∀ j s, 0 ≤ j < i → l !! Z.to_nat j = Some s → MemoryObject.offset o j = Ok (start s)) →
  ∃ o', rfold EmbeddingTables.add_subaddr (2 ^ i - 1, o) (drop (Z.to_nat i) l) = Ok (2 ^ n - 1, o') ∧
    object_of (MemoryObject.id o) (MemoryObject.bytes o) l o'.
Proof.
  induction m as [|m IH]; intros i o Hl Hi Him Hlen Hoff.
  - assert (i = n) as -> by lia. rewrite drop_ge by (destruct Hl; lia). exists o. by split.
  - destruct (fr_located _ _ Hl i) as (s & Hs & Hloc & Hsz); [lia|].
    rewrite (drop_S _ _ _ Hs). cbn [rfold]. unfold EmbeddingTables.add_subaddr at 1.
    rewrite Hloc. replace (i <? 32) with true by lia. cbn [rbind fst snd].
    destruct (MemoryObject.set_offset o i (start s)) as [o1|] eqn:E.
    2: { exfalso. unfold MemoryObject.set_offset in E.
         replace (i <? _) with true in E by lia. cbn [assert rbind] in E.
         by rewrite vec_set_Ok in E by lia. }
    cbn [rbind]. rewrite mask_step by lia.
    replace (S (Z.to_nat i)) with (Z.to_nat (i + 1)) by lia.
    destruct (IH (i + 1) o1 Hl) as (o' & Ho' & [H1 H2 H3]); try lia.
    + apply set_offset_shape in E as (_ & _ & ->). done.
    + intros j s' Hj Hs'. destruct (decide (j = i)) as [->|].
      * rewrite Hs in Hs'. injection Hs' as <-. by apply MemoryObject.offset_set_same in E.
      * rewrite (MemoryObject.offset_set_other o o1 i j (start s)) by (done || lia).
        apply Hoff; [lia|done].
    + exists o'. split; [done|]. apply set_offset_shape in E as (Ei & Eb & _).
      split; [congruence|congruence|exact H3].
Qed.

Abbreviation full_mask := (2 ^ n - 1).

Lemma add_buffer_spec (layout : list (list MemoryObject.t)) (objs : list MemoryObject.t)
    (id sz : Z) (l : list SequentialRegion) :
  full_region sz l → vec_at layout full_mask = Ok objs →
  ∃ o, EmbeddingTables.add_buffer tp layout id (RankedRegion l) =
         Ok (<[Z.to_nat full_mask := objs ++ [o]]> layout) ∧ object_of id sz l o.
Proof.
  intros Hl Hobjs. unfold EmbeddingTables.add_buffer. cbn [get_ranked rbind].
  destruct (fr_located _ _ Hl 0) as (s & Hs & Hloc & Hsz); [lia|].
  destruct l as [|s0 l]; [done|]. injection Hs as ->. cbn [find].
  rewrite Hloc. rewrite bool_decide_true by done.
  destruct (add_subaddrs_spec sz (s :: l) (Z.to_nat n) 0
    (MemoryObject.make id (Allocators.size s) n) Hl) as (o & Ho & Hobj); try lia.
  { cbn. rewrite length_replicate. lia. }
  change (2 ^ 0 - 1) with 0 in Ho. change (drop (Z.to_nat 0) (s :: l)) with (s :: l) in Ho.
  rewrite Ho. cbn [rbind]. rewrite Hobjs. cbn [rbind].
  apply vec_at_Ok in Hobjs as [Hm Hobjs]. apply lookup_lt_Some in Hobjs.
  rewrite vec_set_Ok by lia. exists o. split; [done|].
  change (MemoryObject.bytes (MemoryObject.make id (Allocators.size s) n)) with (Allocators.size s) in Hobj.
  by rewrite Hsz in Hobj.
Qed.

Lemma layout_loop_spec (rs : list (Z * list SequentialRegion)) :
  ∀ (layout : list (list MemoryObject.t)) (objs : list MemoryObject.t) (id : Z),
  Forall (fun r => full_region r.1 r.2) rs → vec_at layout full_mask = Ok objs →
  ∃ new, EmbeddingTables.layout_loop tp layout id ((fun r => RankedRegion r.2) <$> rs) =
           Ok (<[Z.to_nat full_mask := objs ++ new]> layout) ∧
    length new = length rs ∧
    ∀ i r, rs !! i = Some r → ∃ o, new !! i = Some o ∧ object_of (id + Z.of_nat i) r.1 r.2 o.
Proof.
  induction rs as [|r rs IH]; intros layout objs id Hrs Hobjs; cbn [fmap list_fmap EmbeddingTables.layout_loop].
  - exists []. rewrite app_nil_r. split; [|done]. f_equal. symmetry. apply list_insert_id.
    by apply vec_at_Ok in Hobjs as [_ ?].
  - apply Forall_cons in Hrs as [Hr Hrs].
    destruct (add_buffer_spec layout objs id r.1 r.2 Hr Hobjs) as (o & -> & Ho). cbn [rbind].
    destruct (IH (<[Z.to_nat full_mask := objs ++ [o]]> layout) (objs ++ [o]) (id + 1) Hrs)
      as (new & Hnew & Hlen & Hspec).
    + apply vec_at_Ok in Hobjs as [? Hobjs]. apply vec_at_Ok. split; [done|].
      apply list_lookup_insert_eq. by apply lookup_lt_Some in Hobjs.
    + exists (o :: new). rewrite Hnew, list_insert_insert_eq, <- app_assoc. split; [done|].
      split; [cbn; by rewrite Hlen|]. intros [|i] r' Hi; cbn in *.
      * injection Hi as <-. exists o. rewrite Z.add_0_r. done.
      * destruct (Hspec i r' Hi) as (o' & Ho' & Hs'). exists o'. split; [done|].
        by replace (id + Z.of_nat (S i)) with (id + 1 + Z.of_nat i) by lia.
Qed.
End layout.

Definition sample_two_ranks : Constants :=
  mkConstants AXDIMM 2 0x40000 2 0x40000 2 0x40000 2 8 256 16 0x2040 0x2080 0x20c0 4.

(** A region of 640 bytes on rank 1 only: the buffer over it has no elements,
    since its size is taken from the sub-region of rank 0. *)
Lemma single_rank_buffer_has_size_zero :
  ∃ k region, @RankedAllocator.allocate_impl _ (sample_driver 2 5) 2 640
    (PropertiesList.add_property PropertiesList.empty (CURegion 1)) [] = (k, Ok region) ∧
  length k = 1%nat ∧ Buffer.size (Buffer.of_region 4 region true PropertiesList.empty) = 0.
Proof. eexists _, _. split; [vm_compute; reflexivity|]. done. Qed.

(** ** Theorems *)

(** Property C13.  Whatever a process does with its buffers (creating and moving them,
    assigning them by move to other buffers and destroying them, including creations
    that throw, but not assigning a buffer to itself), the device memory in use is
    exactly what its live buffers hold, and destroying the remaining buffers gives
    everything back: no leak, no double release.  Proved against the allocator
    interface, so it holds of both allocators. *)
Theorem buffers_never_leak {K : Type} {A : Allocator K} {L : AllocatorLaws K A} (pid T : Z)
    (ops : list op) (k : K) :
  Forall (op_ok T) ops →
  let (k', vars) := steps pid T ops [] k in
  alive k' ≡ₚ holdings vars ++ alive k ∧
  ∃ k'', EmbeddingTables.destroy_all pid vars k' = (k'', Ok tt) ∧ alive k'' ≡ₚ alive k.
Proof.
  intros Ho. pose proof (steps_spec pid T ops (alive k) [] k Ho (Forall_nil_2 _) (reflexivity _)) as H.
  destruct (steps pid T ops [] k) as [k' vars]. destruct H as [Hv Hk]. split; [done|].
  by apply destroy_all_spec.
Qed.

Lemma buffers_never_leak_witness :
  let A := @ranked_allocator _ (sample_driver 2 5) 2 in
  let (k', vars) := @steps _ A 7 4 [Create 10 replicate_props; Create 20 replicate_props;
                                    Create 30 replicate_props; MoveAssign 0 1; Move 0; Destroy 1]
                      [] [] in
  length vars = 2%nat ∧ length k' = 2%nat ∧
  ∃ k'', @EmbeddingTables.destroy_all _ A 7 vars k' = (k'', Ok tt) ∧ k'' ≡ₚ [].
Proof.
  intros A.
  pose proof (@buffers_never_leak _ A (@ranked_allocator_laws _ (sample_driver 2 5) 2
    ltac:(lia) (sample_driver_laws 2 5)) 7 4 [Create 10 replicate_props; Create 20 replicate_props;
    Create 30 replicate_props; MoveAssign 0 1; Move 0; Destroy 1] []) as H.
  assert (Ho : Forall (op_ok 4) [Create 10 replicate_props; Create 20 replicate_props;
    Create 30 replicate_props; MoveAssign 0 1; Move 0; Destroy 1]).
  { repeat apply Forall_cons_2; try apply Forall_nil_2; vm_compute; done. }
  specialize (H Ho). vm_compute in H. vm_compute. split; [done|]. split; [done|]. apply H.
Defined.

(** A buffer that is assigned to itself releases its region and keeps it: the region
    is not in use any more, and the destructor releases it again. *)
Lemma self_move_assign_dangles {K : Type} {A : Allocator K} {L : AllocatorLaws K A} (pid : Z) (b : Buffer.t) (k : K)
    (l : list pnm_allocation) :
  owning pid b → Buffer.context_ b = true → alive k ≡ₚ holds b ++ l →
  ∃ k', Buffer.self_move_assign b k = (k', Ok b) ∧ alive k' ≡ₚ l ∧ Buffer.destroy pid b k' = Buffer.release b k'.
Proof.
  intros Ho Hc Hk. destruct (release_spec pid b k l Ho Hk) as (k' & Hr & Hk'). exists k'.
  split; [|split; [done|]].
  - unfold Buffer.self_move_assign, mbind. by rewrite Hr.
  - destruct (Ho Hc) as (Hw & Hp & _). unfold Buffer.destroy. by rewrite Hw, Hp, Z.eqb_refl.
Qed.

(** A buffer over a region it does not own leaves the region alone
    when it is destroyed, but releases it when another buffer is assigned to it:
    [operator=] calls [release] without the test of the destructor. *)
Theorem move_assign_releases_unowned {K : Type} {A : Allocator K} {L : AllocatorLaws K A}
    (pid T sz : Z) (props : PropertiesList.t) (k k0 k1 : K) (r : DeviceRegion) (other : Buffer.t)
    (l : list pnm_allocation) :
  0 < sz → allocate sz props k0 = (k1, Ok r) → alive k ≡ₚ owned r ++ l →
  let b := Buffer.of_region T r true props in
  Buffer.is_device_region_owned b = false ∧
  Buffer.destroy pid b k = (k, Ok tt) ∧
  ∃ k', Buffer.move_assign pid b other k = (k', Ok (other, Buffer.moved_from pid other)) ∧
    alive k' ≡ₚ l.
Proof.
  intros Hs Ha Hk b. split; [done|]. split; [done|].
  destruct (deallocate_owned k k0 sz props r l Hs) as (k' & Hd & Hk'); [by exists k1|done|].
  exists k'. unfold Buffer.move_assign, mbind, Buffer.release. cbn [b Buffer.of_region
    Buffer.context_ Buffer.dev_region_ value negb]. by rewrite Hd.
Qed.

(** [construct_layout] puts every table that was replicated on all
    ranks into the pack of all ranks, in table order and under its table number,
    with the address of its sub-region on every rank: this is the layout the
    execution generator partitions. *)
Theorem replicated_layout (tp : Constants) (rs : list (Z * list SequentialRegion)) :
  0 < NumOfCUnits tp ≤ 31 → Forall (fun r => full_region tp r.1 r.2) rs →
  ∃ objs,
    EmbeddingTables.construct_layout tp ((fun r => RankedRegion r.2) <$> rs) =
      Ok (<[Z.to_nat (2 ^ NumOfCUnits tp - 1) := objs]> (RankMemory.make_packs_array tp [])) ∧
    length objs = length rs ∧
    ∀ i r, rs !! i = Some r → ∃ o, objs !! i = Some o ∧
      MemoryObject.id o = Z.of_nat i ∧ MemoryObject.bytes o = r.1 ∧
      ∀ j s, 0 ≤ j < NumOfCUnits tp → r.2 !! Z.to_nat j = Some s →
        MemoryObject.offset o j = Ok (start s).
Proof.
  intros Hn Hrs. pose proof (pow2_pos (NumOfCUnits tp) ltac:(lia)) as Hp.
  destruct (layout_loop_spec tp Hn rs (RankMemory.make_packs_array tp []) [] 0 Hrs)
    as (objs & Hl & Hlen & Hspec).
  { apply vec_at_Ok. split; [lia|]. unfold RankMemory.make_packs_array, RankMemory.num_of_pack.
    rewrite shiftl_mul by lia. apply lookup_replicate_2. lia. }
  exists objs. split; [exact Hl|]. split; [done|]. intros i r Hi.
  destruct (Hspec i r Hi) as (o & Ho & [H1 H2 H3]). exists o. done.
Qed.

