(* ===== verification/BitViews.v ===== *)
(** * Bit-packed storage of the IMDB library

    include/pnmlib/imdb/bit_common.h, bit_views.h, bit_iterator.h and
    bit_containers.h: columns of [value_bits]-bit values and bit vectors, stored
    in words of [W] bits ([sizeof(T) * 8], 32 or 64 in the library).  A word
    outside of the storage is undefined behaviour. *)
From Stdlib Require Import Sorted.
From S2P Require Import Prelude.

(** Values below [B] whose successor a type of [V] bits has. *)
Abbreviation below V B := (Forall (fun v : Z => 0 ≤ v < B ∧ v + 1 < 2 ^ V)).

(** ** bit_common.h *)
Definition BIT_IN_BYTE : Z := 8.

Definition align_size (sz align : Z) : result Z :=
  let! _ := assert (Z.land align (u64 (align - 1)) =? 0) in
  Ok (Z.land (u64 (sz + align - 1)) (u64 (Z.lnot (align - 1)))).

(** [bytes_T] is [sizeof(T)]. *)
Definition aligned_storage_size (bytes_T bits_count bit_align : Z) : result Z :=
  let! _ := assert (bit_align mod 8 =? 0) in
  let bytes := if bits_count mod BIT_IN_BYTE =? 0 then bits_count / BIT_IN_BYTE
               else bits_count / BIT_IN_BYTE + 1 in
  let! bytes := align_size bytes bytes_T in
  let! bytes := align_size bytes (bit_align / BIT_IN_BYTE) in
  Ok (bytes / bytes_T).

Definition in_storage_bit_position (W index : Z) : Z * Z :=
  (index / W, Z.land index (W - 1)).

Definition in_storage_bit_position_masked (W index : Z) : Z * Z :=
  let position := in_storage_bit_position W index in
  (position.1, Z.shiftl 1 position.2).

Section storage.
Context (W : Z).

(** Values of [T]. *)
Definition wrap (x : Z) : Z := x mod 2 ^ W.

(** [data_[i] |= x] *)
Definition or_word (data : list Z) (i x : Z) : result (list Z) :=
  let! w := vec_at data i in vec_set data i (Z.lor w x).

(** ** [bit_compressed<T>] *)
Record bit_compressed := mkCompressed {
  value_bits_ : Z;
  value_counts_ : Z;
  value_mask_ : Z;
  data_ : list Z
}.

(** The shift in the initializer of [value_mask_] needs [value_bits < W]. *)
Definition make_compressed (value_bits n : Z) (data : list Z) : result bit_compressed :=
  if value_bits <? W then
    Ok (mkCompressed value_bits n (wrap (wrap (Z.shiftl 1 value_bits) - 1)) data)
  else Err UndefinedBehaviour.

Definition bytes (data : list Z) : Z := Z.of_nat (length data) * (W / 8).

Definition compressed_capacity (c : bit_compressed) : Z :=
  bytes (data_ c) * BIT_IN_BYTE / value_bits_ c.

Definition get_value (c : bit_compressed) (i : Z) : result Z :=
  let (index, shift) := in_storage_bit_position W (u64 (i * value_bits_ c)) in
  if value_bits_ c + shift <? W then
    let! w := vec_at (data_ c) index in
    Ok (Z.land (Z.shiftr w shift) (value_mask_ c))
  else
    let part1_size := W - shift in
    let part2_mask := Z.shiftr (value_mask_ c) part1_size in
    let! w1 := vec_at (data_ c) (index + 1) in
    let! w0 := vec_at (data_ c) index in
    Ok (Z.lor (wrap (Z.shiftl (Z.land w1 part2_mask) part1_size)) (Z.shiftr w0 shift)).

Definition set_data (c : bit_compressed) (d : list Z) : bit_compressed :=
  mkCompressed (value_bits_ c) (value_counts_ c) (value_mask_ c) d.

Definition set_value (c : bit_compressed) (i value : Z) : result bit_compressed :=
  let (index, shift) := in_storage_bit_position W (u64 (i * value_bits_ c)) in
  let value := Z.land value (value_mask_ c) in
  if value_bits_ c + shift <? W then
    let! d := or_word (data_ c) index (wrap (Z.shiftl value shift)) in
    Ok (set_data c d)
  else
    let part1_size := W - shift in
    let low := Z.land value (Z.shiftr (value_mask_ c) (value_bits_ c - part1_size)) in
    let! d := or_word (data_ c) index (wrap (Z.shiftl low shift)) in
    let! d := or_word d (index + 1) (Z.shiftr value part1_size) in
    Ok (set_data c d).

(** ** [bit_vector_view<C>] *)
Record bit_vector_view := mkBits {
  max_value_ : Z;
  bits_data : list Z
}.

Definition contains (b : bit_vector_view) (value : Z) : result bool :=
  if max_value_ b <=? value then Ok false
  else
    let (index, mask) := in_storage_bit_position_masked W value in
    let! w := vec_at (bits_data b) index in
    Ok (negb (Z.land w mask =? 0)).

Definition insert (b : bit_vector_view) (value : Z) : result bit_vector_view :=
  let (index, mask) := in_storage_bit_position_masked W value in
  let! d := or_word (bits_data b) index mask in
  Ok (mkBits (max_value_ b) d).

Definition erase (b : bit_vector_view) (value : Z) : result bit_vector_view :=
  let (index, mask) := in_storage_bit_position_masked W value in
  let! w := vec_at (bits_data b) index in
  let! d := vec_set (bits_data b) index (Z.land w (Z.lnot mask)) in
  Ok (mkBits (max_value_ b) d).

Definition clear (b : bit_vector_view) : bit_vector_view :=
  mkBits (max_value_ b) ((fun _ => 0) <$> bits_data b).

(** [while (i < size() && !contains(i)) ++i], at most [n] times. *)
Fixpoint skip (n : nat) (b : bit_vector_view) (i : Z) : result Z :=
  match n with
  | O => Ok i
  | S n' =>
      let! c := contains b i in
      if c then Ok i else skip n' b (i + 1)
  end.

(** The index of [begin()] and of the iterator after [index]. *)
Definition begin_index (b : bit_vector_view) : result Z := skip (Z.to_nat (max_value_ b)) b 0.

Definition it_helper_next (b : bit_vector_view) (index : Z) : result Z :=
  skip (Z.to_nat (max_value_ b - (index + 1))) b (index + 1).

Definition end_index (b : bit_vector_view) : Z := max_value_ b.

(** [for (auto v : b)]: the values an iteration visits. *)
Fixpoint iterate (n : nat) (b : bit_vector_view) (it : Z) : result (list Z) :=
  if it =? end_index b then Ok []
  else
    match n with
    | O => Err OutOfFuel
    | S n' =>
        let! next := it_helper_next b it in
        let! rest := iterate n' b next in
        Ok (it :: rest)
    end.

Definition values (b : bit_vector_view) : result (list Z) :=
  let! first := begin_index b in iterate (Z.to_nat (max_value_ b)) b first.

(** [operator==]: [std::equal(lhs.begin(), lhs.end(), rhs.begin())]. *)
Fixpoint equal_loop (n : nat) (lhs rhs : bit_vector_view) (l r : Z) : result bool :=
  if l =? end_index lhs then Ok true
  else
    match n with
    | O => Err OutOfFuel
    | S n' =>
        if negb (l =? r) then Ok false
        else
          let! l' := it_helper_next lhs l in
          let! r' := it_helper_next rhs r in
          equal_loop n' lhs rhs l' r'
    end.

Definition bit_vector_eqb (lhs rhs : bit_vector_view) : result bool :=
  let! l := begin_index lhs in
  let! r := begin_index rhs in
  equal_loop (Z.to_nat (max_value_ lhs)) lhs rhs l r.

(** ** bit_containers.h *)
Definition align_bits : Z := 512.
Definition EXTRA_BITS : Z := 512.

Definition compressed_vector_storage_size (value_bit_size N : Z) : result Z :=
  aligned_storage_size (W / 8) (u64 (value_bit_size * N + EXTRA_BITS)) align_bits.

Definition bit_vector_storage_size (max_value : Z) : result Z :=
  aligned_storage_size (W / 8) max_value align_bits.

Definition compressed_vector (value_bit_size N : Z) : result bit_compressed :=
  let! n := compressed_vector_storage_size value_bit_size N in
  make_compressed value_bit_size N (replicate (Z.to_nat n) 0).

Fixpoint set_values (c : bit_compressed) (i : Z) (l : list Z) : result bit_compressed :=
  match l with
  | [] => Ok c
  | v :: l' => let! c := set_value c i v in set_values c (i + 1) l'
  end.

Definition compressed_vector_of (value_bits : Z) (l : list Z) : result bit_compressed :=
  let! c := compressed_vector value_bits (Z.of_nat (length l)) in set_values c 0 l.

Definition compressed_view_from_raw (value_bits : Z) (region : list Z) (value_counts : Z)
  : result bit_compressed :=
  let! n := compressed_vector_storage_size value_bits value_counts in
  make_compressed value_bits value_counts (take (Z.to_nat n) region).

Definition bit_vector (N : Z) : result bit_vector_view :=
  let! n := bit_vector_storage_size N in
  Ok (mkBits N (replicate (Z.to_nat n) 0)).

(** The values come from an iterator over unsigned [V]-bit values, and the limit is
    computed in their type: it wraps to 0 if the greatest value is there. *)
Definition range_upper_limit (V : Z) (l : list Z) : Z :=
  match l with [] => 0 | x :: l' => (foldr Z.max x l' + 1) mod 2 ^ V end.

Definition bit_vector_of (V : Z) (l : list Z) : result bit_vector_view :=
  let! b := bit_vector (range_upper_limit V l) in rfold insert b l.

Definition bit_view_from_raw (region : list Z) (max_value : Z) : result bit_vector_view :=
  let! n := bit_vector_storage_size max_value in
  Ok (mkBits max_value (take (Z.to_nat n) region)).

End storage.

(** ** Storage as a sequence of bits *)
Section bits.
Context (W : Z) (HW : W = 32 ∨ W = 64).

(** Bit [p] of the storage. *)
Definition bit (d : list Z) (p : Z) : bool :=
  Z.testbit (default 0 (d !! Z.to_nat (p / W))) (p mod W).

Definition words_wf (d : list Z) : Prop := Forall (fun w => 0 ≤ w < 2 ^ W) d.

(** The storage has [n] bits. *)
Definition bits_of (d : list Z) : Z := W * Z.of_nat (length d).

Lemma position (p : Z) :
  0 ≤ p → in_storage_bit_position W p = (p / W, p mod W) ∧ 0 ≤ p / W ∧ 0 ≤ p mod W < W ∧
          p = W * (p / W) + p mod W.
Proof.
  intros Hp. unfold in_storage_bit_position. destruct HW as [->| ->].
  - rewrite (land_ones_mod p 5) by done. split; [done|]. dlia.
  - rewrite (land_ones_mod p 6) by done. split; [done|]. dlia.
Qed.

(** A field of at most a word lies in the word it starts in and the next. *)
Lemma field_word (p q s n : Z) :
  0 ≤ s < W → n ≤ W → W * q + s ≤ p < W * q + s + n →
  p / W = q ∧ p < W * q + W ∨ p / W = q + 1 ∧ W < s + n.
Proof. destruct HW as [->| ->]; dlia. Qed.

Lemma bit_at (d : list Z) (q s j : Z) (w : Z) :
  0 ≤ q → 0 ≤ s + j < W → d !! Z.to_nat q = Some w →
  bit d (W * q + s + j) = Z.testbit w (s + j).
Proof.
  intros Hq Hs Hw. unfold bit.
  assert (E : (W * q + s + j) / W = q ∧ (W * q + s + j) mod W = s + j)
    by (destruct HW as [->| ->]; dlia).
  destruct E as [-> ->]. by rewrite Hw.
Qed.

Lemma testbit_wf (d : list Z) (i : nat) (w n : Z) :
  words_wf d → d !! i = Some w → W ≤ n → Z.testbit w n = false.
Proof.
  intros Hd Hi Hn. pose proof (Forall_lookup_1 _ _ _ _ Hd Hi) as Hw. cbn in Hw.
  apply (testbit_above w W n); [done|]. destruct HW; lia.
Qed.

Lemma mask_ones (vb : Z) : 0 ≤ vb < W → wrap W (wrap W (Z.shiftl 1 vb) - 1) = Z.ones vb.
Proof.
  intros Hvb. unfold wrap. rewrite shiftl_mul, Z.mul_1_l by lia.
  assert (1 ≤ 2 ^ vb < 2 ^ W)
    by (split; [pose proof (pow2_pos vb); lia|apply Z.pow_lt_mono_r; lia]).
  rewrite !Z.mod_small by (rewrite ?Z.mod_small; lia). rewrite Z.ones_equiv. lia.
Qed.

Lemma mask_bits (vb j : Z) : 0 ≤ vb < W → 0 ≤ j →
  Z.testbit (wrap W (wrap W (Z.shiftl 1 vb) - 1)) j = (j <? vb).
Proof.
  intros Hvb Hj. rewrite mask_ones by done.
  destruct (Z.ltb_spec j vb); [apply Z.ones_spec_low|apply Z.ones_spec_high]; lia.
Qed.

Lemma wrap_bits (x j : Z) : 0 ≤ j → Z.testbit (wrap W x) j = (j <? W) && Z.testbit x j.
Proof.
  intros Hj. unfold wrap. destruct (Z.ltb_spec j W).
  - by rewrite Z.mod_pow2_bits_low.
  - apply Z.mod_pow2_bits_high. destruct HW; lia.
Qed.

Lemma below_bits (x : Z) : (∀ n, W ≤ n → Z.testbit x n = false) → x < 2 ^ W.
Proof.
  intros Hx. assert (HW0 : 0 ≤ W) by (destruct HW; lia).
  assert (E : x = x mod 2 ^ W).
  { apply Z.bits_inj'. intros n Hn. destruct (Z.lt_ge_cases n W).
    - by rewrite Z.mod_pow2_bits_low.
    - rewrite Z.mod_pow2_bits_high by lia. by apply Hx. }
  rewrite E. apply Z.mod_pos_bound. by apply pow2_pos.
Qed.

Lemma lor_below (x y : Z) : 0 ≤ x < 2 ^ W → 0 ≤ y < 2 ^ W → Z.lor x y < 2 ^ W.
Proof.
  intros Hx Hy. apply below_bits. intros n Hn.
  rewrite Z.lor_spec, !(testbit_above _ W n) by (done || destruct HW; lia). done.
Qed.

Lemma ldiff_below (x y : Z) : 0 ≤ x < 2 ^ W → Z.ldiff x y < 2 ^ W.
Proof.
  intros Hx. apply below_bits. intros n Hn.
  rewrite Z.ldiff_spec, (testbit_above x W n) by (done || destruct HW; lia). done.
Qed.

Lemma wrap_range (x : Z) : 0 ≤ wrap W x < 2 ^ W.
Proof. apply Z.mod_pos_bound, pow2_pos. destruct HW; lia. Qed.

Lemma masked_range (v vb k : Z) : 1 ≤ vb < W → 0 ≤ k →
  0 ≤ Z.shiftr (Z.land v (wrap W (wrap W (Z.shiftl 1 vb) - 1))) k < 2 ^ W.
Proof.
  intros Hvb Hk. rewrite (land_ones_mod _ vb) by (lia || by apply mask_ones; lia).
  pose proof (Z.mod_pos_bound v (2 ^ vb) (pow2_pos vb ltac:(lia))) as Hv.
  assert (2 ^ vb < 2 ^ W) by (apply Z.pow_lt_mono_r; lia).
  rewrite shiftr_div by done. pose proof (pow2_pos k Hk).
  split; [apply Z.div_pos; lia|].
  apply Z.le_lt_trans with (v mod 2 ^ vb); [|lia]. apply Z.div_le_upper_bound; nia.
Qed.

Lemma or_word_bits (d : list Z) (q x w : Z) :
  words_wf d → 0 ≤ q → d !! Z.to_nat q = Some w → 0 ≤ x < 2 ^ W →
  ∃ d', or_word d q x = Ok d' ∧ words_wf d' ∧ length d' = length d ∧
    ∀ p, 0 ≤ p → bit d' p = bit d p || ((p / W =? q) && Z.testbit x (p mod W)).
Proof.
  intros Hd Hq Hw Hx. unfold or_word. rewrite (proj2 (vec_at_Ok _ q w)) by done. cbn [rbind].
  pose proof (lookup_lt_Some _ _ _ Hw). rewrite vec_set_Ok by lia.
  eexists. split; [reflexivity|]. split; [|split].
  - apply Forall_insert; [done|]. pose proof (Forall_lookup_1 _ _ _ _ Hd Hw) as Hw'. cbn in Hw'.
    split; [apply Z.lor_nonneg; lia|]. by apply lor_below.
  - apply length_insert.
  - intros p Hp. unfold bit. destruct (position p Hp) as (_ & Hp1 & _).
    destruct (Z.eqb_spec (p / W) q) as [->|Hne]; cbn [andb].
    + rewrite list_lookup_insert_eq by lia. rewrite Hw. cbn [from_option id]. by rewrite Z.lor_spec.
    + rewrite list_lookup_insert_ne by lia. by rewrite orb_false_r.
Qed.

(** A well-formed column: the mask fits the width, and the word after the last
    value is inside the storage. *)
Record column_wf (c : bit_compressed) : Prop := {
  cw_bits : 1 ≤ value_bits_ c < W;
  cw_mask : value_mask_ c = wrap W (wrap W (Z.shiftl 1 (value_bits_ c)) - 1);
  cw_words : words_wf (data_ c);
  cw_size : value_bits_ c * value_counts_ c + W ≤ bits_of (data_ c) < 2 ^ 64
}.

Section column.
Context (c : bit_compressed) (Hc : column_wf c) (i : Z) (Hi : 0 ≤ i < value_counts_ c).
Abbreviation vb := (value_bits_ c).
Abbreviation pos := (i * value_bits_ c).

Lemma column_position :
  ∃ q s w0 w1, in_storage_bit_position W (u64 pos) = (q, s) ∧ 0 ≤ q ∧ 0 ≤ s < W ∧
    pos = W * q + s ∧ data_ c !! Z.to_nat q = Some w0 ∧ data_ c !! Z.to_nat (q + 1) = Some w1 ∧
    q + 1 < Z.of_nat (length (data_ c)).
Proof.
  destruct Hc as [Hb _ _ Hs]. unfold bits_of in Hs.
  assert (Hp : 0 ≤ pos ∧ pos + vb ≤ vb * value_counts_ c) by nia.
  rewrite u64_small by lia. destruct (position pos) as (E & Hq & Hm & Hpos); [lia|].
  assert (Hlt : pos / W + 1 < Z.of_nat (length (data_ c))) by (destruct HW; subst; lia).
  destruct (lookup_lt_is_Some_2 (data_ c) (Z.to_nat (pos / W))) as [w0 H0]; [lia|].
  destruct (lookup_lt_is_Some_2 (data_ c) (Z.to_nat (pos / W + 1))) as [w1 H1]; [lia|].
  by exists (pos / W), (pos mod W), w0, w1.
Qed.

(** [get_value] reads the bits of field [i]. *)
Lemma get_value_bits :
  ∃ v, get_value W c i = Ok v ∧
    ∀ j, 0 ≤ j → Z.testbit v j = (j <? vb) && bit (data_ c) (pos + j).
Proof.
  destruct column_position as (q & s & w0 & w1 & E & Hq & Hs & Hpos & H0 & H1 & Hlt).
  destruct Hc as [Hb Hm Hw _]. unfold get_value. rewrite E. cbn [fst snd].
  destruct (Z.ltb_spec (vb + s) W) as [Hlow|Hhigh].
  - rewrite (proj2 (vec_at_Ok _ q w0)) by done. cbn [rbind]. eexists. split; [reflexivity|].
    intros j Hj. rewrite Z.land_spec, Z.shiftr_spec, Hm, mask_bits by lia.
    destruct (Z.ltb_spec j vb); [|by rewrite andb_false_r].
    rewrite Hpos, (bit_at _ q s j w0) by (done || lia). rewrite andb_true_r, Z.add_comm. done.
  - rewrite (proj2 (vec_at_Ok _ (q + 1) w1)) by (split; [lia|done]).
    rewrite (proj2 (vec_at_Ok _ q w0)) by done. cbn [rbind]. eexists. split; [reflexivity|].
    intros j Hj. rewrite Z.lor_spec, wrap_bits, Z.shiftr_spec by lia.
    destruct (Z.ltb_spec (s + j) W) as [Hj1|Hj1].
    + rewrite Z.shiftl_spec_low, andb_false_r, orb_false_l by lia.
      replace (j <? vb) with true by lia.
      rewrite Hpos, (bit_at _ q s j w0) by (done || lia). by rewrite Z.add_comm.
    + rewrite (testbit_wf _ _ w0 (j + s) Hw H0) by lia. rewrite orb_false_r.
      rewrite Z.shiftl_spec_high, Z.land_spec, Z.shiftr_spec, Hm, mask_bits by lia.
      replace (j - (W - s) + (W - s)) with j by lia.
      destruct (Z.ltb_spec j vb); [|by rewrite !andb_false_r].
      replace (j <? W) with true by lia. rewrite andb_true_r. cbn [andb].
      rewrite Hpos. replace (W * q + s + j) with (W * (q + 1) + 0 + (j - (W - s))) by lia.
      rewrite (bit_at _ (q + 1) 0 (j - (W - s)) w1) by (done || lia). done.
Qed.

Definition field_bit (v p : Z) : bool :=
  (pos <=? p) && (p <? pos + vb) && Z.testbit v (p - pos).

(** [set_value] ors the value into field [i]. *)
Lemma set_value_bits (v : Z) :
  ∃ c', set_value W c i v = Ok c' ∧ column_wf c' ∧ value_bits_ c' = vb ∧
    value_counts_ c' = value_counts_ c ∧
    ∀ p, 0 ≤ p → bit (data_ c') p = bit (data_ c) p || field_bit v p.
Proof.
  destruct column_position as (q & s & w0 & w1 & E & Hq & Hs & Hpos & H0 & H1 & Hlt).
  pose proof Hc as [Hb Hm Hw Hsz]. unfold set_value. rewrite E. unfold field_bit.
  destruct (Z.ltb_spec (vb + s) W) as [Hlow|Hhigh].
  - destruct (or_word_bits (data_ c) q (wrap W (Z.shiftl (Z.land v (value_mask_ c)) s)) w0)
      as (d' & -> & Hw' & Hl & Hbit); [done..|by apply wrap_range|]. cbn [rbind].
    eexists. split; [reflexivity|]. split; [split; cbn; rewrite ?Hl; try done; by unfold bits_of; rewrite Hl|].
    split; [done|]. split; [done|]. cbn [data_ set_data]. intros p Hp. rewrite Hbit by done. f_equal.
    destruct (position p Hp) as (_ & _ & Hpm & Hp'). rewrite wrap_bits by lia.
    replace (p mod W <? W) with true by lia. cbn [andb].
    destruct (Z.eqb_spec (p / W) q) as [Eq|Hne]; cbn [andb].
    + rewrite Eq in Hp'. destruct (Z.ltb_spec (p mod W) s).
      * rewrite Z.shiftl_spec_low by lia. replace (pos <=? p) with false by lia. done.
      * rewrite Z.shiftl_spec_high, Z.land_spec, Hm, mask_bits by lia.
        replace (p mod W - s) with (p - pos) by lia. replace (pos <=? p) with true by lia.
        replace (p <? pos + vb) with (p - pos <? vb) by lia. cbn [andb]. apply andb_comm.
    + destruct ((pos <=? p) && (p <? pos + vb)) eqn:Ef; [|done]. zbool.
      pose proof (field_word p q s vb). lia.
  - set (low := Z.land _ (Z.shiftr _ _)).
    destruct (or_word_bits (data_ c) q (wrap W (Z.shiftl low s)) w0)
      as (d1 & -> & Hw1 & Hl1 & Hbit1); [done..|by apply wrap_range|]. cbn [rbind].
    destruct (lookup_lt_is_Some_2 d1 (Z.to_nat (q + 1))) as [w1' H1']; [lia|].
    destruct (or_word_bits d1 (q + 1) (Z.shiftr (Z.land v (value_mask_ c)) (W - s)) w1')
      as (d' & -> & Hw' & Hl & Hbit); [done|lia|done|rewrite Hm; apply masked_range; [done|lia]|]. cbn [rbind].
    eexists. split; [reflexivity|].
    split; [split; cbn; rewrite ?Hl; try done; by unfold bits_of; rewrite Hl, Hl1|].
    split; [done|]. split; [done|]. cbn [data_ set_data]. intros p Hp.
    rewrite Hbit, Hbit1, <- orb_assoc by done. f_equal.
    destruct (position p Hp) as (_ & _ & Hpm & Hp'). rewrite wrap_bits, Z.shiftr_spec by lia.
    replace (p mod W <? W) with true by lia. cbn [andb]. rewrite Z.land_spec, Hm.
    destruct (Z.eqb_spec (p / W) q) as [Eq|Hne]; cbn [andb].
    + rewrite Eq in Hp'. replace (p / W =? q + 1) with false by lia. cbn [andb]. rewrite orb_false_r.
      destruct (Z.ltb_spec (p mod W) s).
      * rewrite Z.shiftl_spec_low by lia. replace (pos <=? p) with false by lia. done.
      * rewrite Z.shiftl_spec_high by lia. unfold low.
        rewrite !Z.land_spec, Z.shiftr_spec, Hm, !mask_bits by lia.
        replace (p mod W - s) with (p - pos) by lia. replace (pos <=? p) with true by lia.
        replace (p <? pos + vb) with true by lia.
        replace (p - pos <? vb) with true by lia.
        replace (_ <? vb) with true by lia. cbn [andb]. by rewrite !andb_true_r.
    + rewrite orb_false_l. destruct (Z.eqb_spec (p / W) (q + 1)) as [Eq|Hne']; cbn [andb].
      * rewrite Eq in Hp'. rewrite mask_bits by lia. replace (p mod W + (W - s)) with (p - pos) by lia.
        replace (pos <=? p) with true by lia.
        replace (p <? pos + vb) with (p - pos <? vb) by lia. cbn [andb]. apply andb_comm.
      * destruct ((pos <=? p) && (p <? pos + vb)) eqn:Ef; [|done]. zbool.
        pose proof (field_word p q s vb). lia.
Qed.
End column.

(** ** Sizes *)
Lemma align_size_spec (sz k : Z) :
  0 ≤ k < 63 → 0 ≤ sz → sz + 2 ^ k ≤ 2 ^ 64 →
  align_size sz (2 ^ k) = Ok ((sz + 2 ^ k - 1) / 2 ^ k * 2 ^ k).
Proof.
  intros Hk Hs Hov. pose proof (pow2_pos k (proj1 Hk)) as Hp.
  assert (Hp64 : 2 ^ k < 2 ^ 64) by (apply Z.pow_lt_mono_r; lia).
  unfold align_size. rewrite u64_small by lia.
  replace (2 ^ k - 1) with (Z.ones k) by (rewrite Z.ones_equiv; lia).
  rewrite Z.land_ones, Z.mod_same by lia. cbn [Z.eqb assert rbind].
  replace (Z.ones k) with (2 ^ k - 1) by (rewrite Z.ones_equiv; lia).
  rewrite u64_small by lia. rewrite land_u64_lnot by lia.
  rewrite Z.ldiff_land, land_lnot_ones by lia. done.
Qed.

Lemma storage_size_spec (n : Z) :
  0 ≤ n → n + 1024 < 2 ^ 64 →
  ∃ k, aligned_storage_size (W / 8) n align_bits = Ok k ∧ n ≤ W * k < n + 1024 ∧ 0 ≤ k.
Proof.
  intros Hn Hov. unfold aligned_storage_size, align_bits, BIT_IN_BYTE.
  change (512 mod 8 =? 0) with true. change (512 / 8) with (2 ^ 6). cbn [assert rbind].
  set (b := if n mod 8 =? 0 then n / 8 else n / 8 + 1).
  assert (Hb : n ≤ 8 * b < n + 8 ∧ 0 ≤ b) by (unfold b; destruct (Z.eqb_spec (n mod 8) 0); dlia).
  clearbody b. destruct HW as [->| ->].
  - change (32 / 8) with (2 ^ 2). rewrite align_size_spec by lia. cbn [rbind].
    rewrite align_size_spec by dlia. cbn [rbind]. eexists. split; [reflexivity|]. dlia.
  - change (64 / 8) with (2 ^ 3). rewrite align_size_spec by lia. cbn [rbind].
    rewrite align_size_spec by dlia. cbn [rbind]. eexists. split; [reflexivity|]. dlia.
Qed.

(** The bits of fresh storage. *)
Lemma bit_zeros (n : nat) (p : Z) : bit (replicate n 0) p = false.
Proof.
  unfold bit. destruct (replicate n 0 !! _) as [w|] eqn:E; cbn; [|apply Z.bits_0].
  apply lookup_replicate in E as [-> _]. apply Z.bits_0.
Qed.

Lemma zeros_wf (n : nat) : words_wf (replicate n 0).
Proof. apply Forall_replicate. pose proof (pow2_pos W). destruct HW; lia. Qed.

Lemma compressed_vector_spec (vb N : Z) :
  1 ≤ vb < W → 0 ≤ N → vb * N < 2 ^ 63 →
  ∃ c, compressed_vector W vb N = Ok c ∧ column_wf c ∧ value_bits_ c = vb ∧ value_counts_ c = N ∧
    ∀ p, bit (data_ c) p = false.
Proof.
  intros Hvb HN Hov. unfold compressed_vector, compressed_vector_storage_size, EXTRA_BITS.
  assert (0 ≤ vb * N) by nia. rewrite u64_small by lia.
  destruct (storage_size_spec (vb * N + 512)) as (k & -> & Hk & Hk0); [lia..|]. cbn [rbind].
  unfold make_compressed. replace (vb <? W) with true by lia.
  eexists. split; [reflexivity|]. split; [split; cbn|].
  - lia.
  - done.
  - apply zeros_wf.
  - unfold bits_of. rewrite length_replicate, Z2Nat.id by lia. destruct HW; lia.
  - split; [done|]. split; [done|]. intros p. apply bit_zeros.
Qed.

(** The first [i] fields hold the values of [l], the rest is clear. *)
Definition holds_prefix (l : list Z) (i : Z) (c : bit_compressed) : Prop :=
  ∀ p, 0 ≤ p → bit (data_ c) p =
    (p <? i * value_bits_ c) &&
    Z.testbit (default 0 (l !! Z.to_nat (p / value_bits_ c))) (p mod value_bits_ c).

Lemma set_values_spec (l rest : list Z) : ∀ (c : bit_compressed) (done : list Z),
  l = done ++ rest → column_wf c → value_counts_ c = Z.of_nat (length l) →
  holds_prefix l (Z.of_nat (length done)) c →
  ∃ c', set_values W c (Z.of_nat (length done)) rest = Ok c' ∧ column_wf c' ∧
    value_bits_ c' = value_bits_ c ∧ value_counts_ c' = value_counts_ c ∧
    holds_prefix l (Z.of_nat (length l)) c'.
Proof.
  induction rest as [|v rest IH]; intros c dn Hl Hc Hn Hp; cbn [set_values].
  { rewrite app_nil_r in Hl. subst dn. by exists c. }
  set (i := Z.of_nat (length dn)) in *.
  assert (Hi : 0 ≤ i < value_counts_ c) by (rewrite Hn, Hl, length_app; cbn; lia).
  destruct (set_value_bits c Hc i Hi v) as (c1 & -> & Hc1 & Hb1 & Hn1 & Hbit). cbn [rbind].
  destruct (IH c1 (dn ++ [v])) as (c' & Hs & Hc' & Hb' & Hn' & Hp').
  - by rewrite <- app_assoc.
  - done.
  - congruence.
  - intros p Hp0. rewrite Hbit, Hp by done. rewrite Hb1, length_app. cbn [length].
    replace (Z.of_nat (length dn + 1)) with (i + 1) by lia. unfold field_bit.
    pose proof (cw_bits c Hc) as Hvb. set (vb := value_bits_ c) in *.
    destruct (Z.ltb_spec p (i * vb)) as [Hlt|Hge]; cbn [andb].
    + replace (i * vb <=? p) with false by lia. cbn [andb]. rewrite orb_false_r.
      replace (p <? (i + 1) * vb) with true by nia. done.
    + replace (i * vb <=? p) with true by lia. cbn [andb orb].
      replace (p <? i * vb + vb) with (p <? (i + 1) * vb) by (f_equal; lia).
      destruct (Z.ltb_spec p ((i + 1) * vb)) as [Hin|]; [|done]. cbn [andb].
      assert (E : p / vb = i) by (symmetry; apply (Z.div_unique_pos p vb i (p - i * vb)); lia).
      assert (Em : p mod vb = p - i * vb) by (rewrite Z.mod_eq, E by lia; lia).
      rewrite E, Em, Hl. unfold i at 2. rewrite Nat2Z.id, list_lookup_middle by done. done.
  - rewrite length_app in Hs. cbn [length] in Hs.
    replace (Z.of_nat (length dn + 1)) with (i + 1) in Hs by lia.
    exists c'. split; [done|]. split; [done|]. split; [congruence|]. split; [congruence|done].
Qed.

Lemma field_value (v x vb : Z) :
  0 ≤ vb →
  (∀ j, 0 ≤ j → Z.testbit v j = (j <? vb) && Z.testbit x j) → v = x mod 2 ^ vb.
Proof.
  intros Hvb H. apply Z.bits_inj'. intros j Hj. rewrite H by done.
  destruct (Z.ltb_spec j vb); [by rewrite Z.mod_pow2_bits_low|].
  by rewrite Z.mod_pow2_bits_high by lia.
Qed.

(** ** Bit vectors as sets *)
Record bits_wf (b : bit_vector_view) : Prop := {
  bw_words : words_wf (bits_data b);
  bw_size : 0 ≤ max_value_ b ≤ bits_of (bits_data b)
}.

Lemma land_bit (w s : Z) : 0 ≤ s → negb (Z.land w (Z.shiftl 1 s) =? 0) = Z.testbit w s.
Proof.
  intros Hs. rewrite shiftl_mul, Z.mul_1_l by done. destruct (Z.testbit w s) eqn:E.
  - apply negb_true_iff, Z.eqb_neq. intros H0.
    assert (Ht : Z.testbit (Z.land w (2 ^ s)) s = true)
      by (rewrite Z.land_spec, E, Z.pow2_bits_true by done; done).
    rewrite H0, Z.bits_0 in Ht. done.
  - apply negb_false_iff, Z.eqb_eq. apply Z.bits_inj'. intros n Hn.
    rewrite Z.land_spec, Z.bits_0, Z.pow2_bits_eqb by done.
    destruct (Z.eqb_spec s n) as [<-|]; [by rewrite E|apply andb_false_r].
Qed.

Lemma storage_word (d : list Z) (v : Z) :
  0 ≤ v < bits_of d → ∃ w, d !! Z.to_nat (v / W) = Some w ∧ v / W < Z.of_nat (length d).
Proof.
  intros Hv. unfold bits_of in Hv. destruct (position v) as (_ & Hq & Hm & Hp); [lia|].
  assert (v / W < Z.of_nat (length d)) by (destruct HW; subst; nia).
  destruct (lookup_lt_is_Some_2 d (Z.to_nat (v / W))) as [w Hw]; [lia|]. by exists w.
Qed.

Lemma contains_spec (b : bit_vector_view) (v : Z) :
  bits_wf b → 0 ≤ v → contains W b v = Ok ((v <? max_value_ b) && bit (bits_data b) v).
Proof.
  intros [Hw Hs] Hv. unfold contains. destruct (Z.leb_spec (max_value_ b) v).
  { by replace (v <? max_value_ b) with false by lia. }
  replace (v <? max_value_ b) with true by lia.
  destruct (storage_word (bits_data b) v) as (w & Hlw & _); [lia|].
  destruct (position v Hv) as (E & Hq & Hm & _).
  unfold in_storage_bit_position_masked. rewrite E. cbn [fst snd].
  rewrite (proj2 (vec_at_Ok _ (v / W) w)) by done. cbn [rbind andb].
  rewrite land_bit by lia. unfold bit. by rewrite Hlw.
Qed.

Lemma bit_mask_range (s : Z) : 0 ≤ s < W → 0 ≤ Z.shiftl 1 s < 2 ^ W.
Proof.
  intros Hs. rewrite shiftl_mul, Z.mul_1_l by lia.
  pose proof (pow2_pos s). assert (2 ^ s < 2 ^ W) by (apply Z.pow_lt_mono_r; lia). lia.
Qed.

Lemma same_bit (p v : Z) : 0 ≤ p → 0 ≤ v →
  (p / W =? v / W) && Z.testbit (Z.shiftl 1 (v mod W)) (p mod W) = (p =? v).
Proof.
  intros Hp Hv. destruct (position p Hp) as (_ & _ & Hpm & Hp'), (position v Hv) as (_ & _ & Hvm & Hv').
  rewrite shiftl_mul, Z.mul_1_l, Z.pow2_bits_eqb by lia.
  destruct (Z.eqb_spec (p / W) (v / W)) as [E|Hne]; cbn [andb].
  - rewrite E in Hp'. destruct (Z.eqb_spec (v mod W) (p mod W)), (Z.eqb_spec p v); lia || congruence.
  - destruct (Z.eqb_spec p v) as [->|]; done.
Qed.

Lemma insert_spec (b : bit_vector_view) (v : Z) :
  bits_wf b → 0 ≤ v < max_value_ b →
  ∃ b', insert W b v = Ok b' ∧ bits_wf b' ∧ max_value_ b' = max_value_ b ∧
    ∀ p, 0 ≤ p → bit (bits_data b') p = bit (bits_data b) p || (p =? v).
Proof.
  intros [Hw Hs] Hv. destruct (storage_word (bits_data b) v) as (w & Hlw & _); [lia|].
  destruct (position v) as (E & Hq & Hm & _); [lia|].
  unfold insert, in_storage_bit_position_masked. rewrite E. cbn [fst snd].
  destruct (or_word_bits (bits_data b) (v / W) (Z.shiftl 1 (v mod W)) w)
    as (d' & -> & Hw' & Hl & Hbit); [done..|by apply bit_mask_range|]. cbn [rbind].
  eexists. split; [reflexivity|]. split; [split; cbn; [done|unfold bits_of in *; by rewrite Hl]|].
  split; [done|]. intros p Hp. cbn [bits_data]. rewrite Hbit by done. f_equal.
  apply same_bit; [done|lia].
Qed.

Lemma erase_spec (b : bit_vector_view) (v : Z) :
  bits_wf b → 0 ≤ v < max_value_ b →
  ∃ b', erase W b v = Ok b' ∧ bits_wf b' ∧ max_value_ b' = max_value_ b ∧
    ∀ p, 0 ≤ p → bit (bits_data b') p = bit (bits_data b) p && negb (p =? v).
Proof.
  intros [Hw Hs] Hv. destruct (storage_word (bits_data b) v) as (w & Hlw & Hlt); [lia|].
  destruct (position v) as (E & Hq & Hm & _); [lia|].
  unfold erase, in_storage_bit_position_masked. rewrite E. cbn [fst snd].
  rewrite (proj2 (vec_at_Ok _ (v / W) w)) by done. cbn [rbind].
  rewrite vec_set_Ok by lia. cbn [rbind].
  eexists. split; [reflexivity|]. pose proof (Forall_lookup_1 _ _ _ _ Hw Hlw) as Hww. cbn in Hww.
  split; [split; cbn|split; [done|]].
  - apply Forall_insert; [done|]. rewrite <- Z.ldiff_land.
    assert (Hn : 0 ≤ Z.ldiff w (Z.shiftl 1 (v mod W))) by (apply Z.ldiff_nonneg; lia).
    split; [done|]. by apply ldiff_below.
  - unfold bits_of in *. by rewrite length_insert.
  - intros p Hp. cbn [bits_data]. rewrite <- (same_bit p v) by lia. unfold bit.
    destruct (position p Hp) as (_ & Hpq & Hpm & _).
    destruct (Z.eqb_spec (p / W) (v / W)) as [->|Hne]; cbn [andb].
    + rewrite list_lookup_insert_eq, Hlw by lia. cbn [from_option id].
      rewrite Z.land_spec, Z.lnot_spec by lia. done.
    + rewrite list_lookup_insert_ne by lia. by rewrite andb_true_r.
Qed.

(** The set bits in [i .. i + n - 1], in order. *)
Fixpoint members_from (d : list Z) (i : Z) (n : nat) : list Z :=
  match n with
  | O => []
  | S n' => (if bit d i then [i] else []) ++ members_from d (i + 1) n'
  end.

Lemma members_from_In (d : list Z) (n : nat) : ∀ (i x : Z),
  x ∈ members_from d i n ↔ i ≤ x < i + Z.of_nat n ∧ bit d x = true.
Proof.
  induction n as [|n IH]; intros i x; cbn [members_from].
  - split; [by intros ?%not_elem_of_nil|lia].
  - rewrite elem_of_app, IH. destruct (bit d i) eqn:E.
    + rewrite list_elem_of_singleton. split; [intros [->|[? ?]]; split; done || lia|].
      intros [? ?]. destruct (decide (x = i)); [by left|right; split; [lia|done]].
    + split; [intros [?%not_elem_of_nil|[? ?]]; [done|split; done || lia]|].
      intros [? Hx]. right. split; [|done]. assert (x ≠ i) by congruence. lia.
Qed.

Lemma members_from_sorted (d : list Z) (n : nat) : ∀ i, StronglySorted Z.lt (members_from d i n).
Proof.
  induction n as [|n IH]; intros i; cbn [members_from]; [constructor|].
  destruct (bit d i); cbn [app]; [|done]. constructor; [done|].
  apply Forall_forall. intros x Hx%members_from_In. lia.
Qed.

Lemma skip_spec (b : bit_vector_view) (n : nat) : ∀ i,
  bits_wf b → 0 ≤ i → i + Z.of_nat n = max_value_ b →
  ∃ r, skip W n b i = Ok r ∧ i ≤ r ≤ max_value_ b ∧
    (r < max_value_ b → bit (bits_data b) r = true) ∧
    members_from (bits_data b) i n =
    members_from (bits_data b) r (Z.to_nat (max_value_ b - r)).
Proof.
  induction n as [|n IH]; intros i Hb Hi Hn; cbn [skip].
  - exists i. split; [done|]. split; [lia|]. split; [lia|].
    by replace (Z.to_nat (max_value_ b - i)) with 0%nat by lia.
  - rewrite contains_spec by done. replace (i <? max_value_ b) with true by lia. cbn [rbind andb].
    destruct (bit (bits_data b) i) eqn:E.
    + exists i. split; [done|]. split; [lia|]. split; [done|].
      by replace (Z.to_nat (max_value_ b - i)) with (S n) by lia.
    + destruct (IH (i + 1) Hb) as (r & Hr & Hle & Ht & Hm); [lia|lia|].
      exists r. split; [done|]. split; [lia|]. split; [done|].
      cbn [members_from]. by rewrite E.
Qed.

Lemma iterate_spec (b : bit_vector_view) (n : nat) : ∀ it,
  bits_wf b → 0 ≤ it ≤ max_value_ b → (it < max_value_ b → bit (bits_data b) it = true) →
  max_value_ b - it ≤ Z.of_nat n →
  iterate W n b it = Ok (members_from (bits_data b) it (Z.to_nat (max_value_ b - it))).
Proof.
  induction n as [|n IH]; intros it Hb Hit Ht Hn; cbn [iterate]; unfold end_index.
  - assert (it = max_value_ b) as -> by lia. rewrite Z.eqb_refl, Z.sub_diag. done.
  - destruct (Z.eqb_spec it (max_value_ b)) as [->|Hne]; [by rewrite Z.sub_diag|].
    unfold it_helper_next.
    destruct (skip_spec b (Z.to_nat (max_value_ b - (it + 1))) (it + 1) Hb)
      as (r & -> & Hr & Hrt & Hm); [lia|lia|]. cbn [rbind].
    rewrite IH by (done || lia). cbn [rbind].
    replace (Z.to_nat (max_value_ b - it)) with (S (Z.to_nat (max_value_ b - (it + 1)))) by lia.
    cbn [members_from]. rewrite (Ht ltac:(lia)), Hm. done.
Qed.

Lemma values_spec (b : bit_vector_view) :
  bits_wf b → values W b = Ok (members_from (bits_data b) 0 (Z.to_nat (max_value_ b))).
Proof.
  intros Hb. pose proof (bw_size b Hb). unfold values, begin_index.
  destruct (skip_spec b (Z.to_nat (max_value_ b)) 0 Hb) as (r & -> & Hr & Ht & ->); [lia|lia|].
  cbn [rbind]. apply iterate_spec; done || lia.
Qed.

Lemma bit_vector_spec (N : Z) :
  0 ≤ N → N + 1024 < 2 ^ 64 →
  ∃ b, bit_vector W N = Ok b ∧ bits_wf b ∧ max_value_ b = N ∧ ∀ p, bit (bits_data b) p = false.
Proof.
  intros HN Hov. unfold bit_vector, bit_vector_storage_size.
  destruct (storage_size_spec N) as (k & -> & Hk & Hk0); [lia..|]. cbn [rbind].
  eexists. split; [reflexivity|]. split; [split; cbn|].
  - apply zeros_wf.
  - unfold bits_of. rewrite length_replicate, Z2Nat.id by lia. lia.
  - split; [done|]. intros p. apply bit_zeros.
Qed.

Lemma upper_limit_spec (V B : Z) (l : list Z) :
  0 ≤ B → below V B l →
  0 ≤ range_upper_limit V l ≤ B ∧ Forall (fun v => v < range_upper_limit V l) l.
Proof.
  destruct l as [|x l]; [done|]. intros HB Hl. apply Forall_cons in Hl as [Hx Hl].
  cbn [range_upper_limit].
  assert (H : (x ≤ foldr Z.max x l < B ∧ foldr Z.max x l + 1 < 2 ^ V) ∧
    Forall (fun v => v ≤ foldr Z.max x l) l).
  { induction Hl as [|y l Hy Hl IH]; cbn [foldr]; [split; [lia|constructor]|].
    destruct IH as [IH1 IH2]. split; [lia|]. constructor; [lia|].
    eapply Forall_impl; [exact IH2|]. cbn. intros. lia. }
  destruct H as [[H1 Hs] H2]. rewrite Z.mod_small by lia. split; [lia|]. constructor; [lia|].
  eapply Forall_impl; [exact H2|]. cbn. intros. lia.
Qed.

Lemma inserts_spec (l : list Z) : ∀ b,
  bits_wf b → Forall (fun v => 0 ≤ v < max_value_ b) l →
  ∃ b', rfold (insert W) b l = Ok b' ∧ bits_wf b' ∧ max_value_ b' = max_value_ b ∧
    ∀ p, 0 ≤ p → bit (bits_data b') p = bit (bits_data b) p || bool_decide (p ∈ l).
Proof.
  induction l as [|v l IH]; intros b Hb Hl; cbn [rfold].
  - exists b. split; [done|]. split; [done|]. split; [done|]. intros p _.
    rewrite bool_decide_false by apply not_elem_of_nil. by rewrite orb_false_r.
  - apply Forall_cons in Hl as [Hv Hl].
    destruct (insert_spec b v Hb Hv) as (b1 & -> & Hb1 & Hm1 & Hbit1). cbn [rbind].
    destruct (IH b1 Hb1) as (b' & Hr & Hb' & Hm' & Hbit'); [by rewrite Hm1|].
    exists b'. split; [done|]. split; [done|]. split; [congruence|]. intros p Hp.
    rewrite Hbit', Hbit1, <- orb_assoc by done. f_equal.
    destruct (Z.eqb_spec p v) as [->|Hne]; cbn [orb].
    + symmetry. apply bool_decide_true. constructor.
    + apply bool_decide_ext. rewrite elem_of_cons.
      split; [intros ?; by right|by intros [?|?]].
Qed.
End bits.

Lemma packed_values (W : Z) (HW : W = 32 ∨ W = 64) (vb : Z) (l : list Z) :
  1 ≤ vb < W → vb * Z.of_nat (length l) < 2 ^ 63 →
  ∃ c, compressed_vector_of W vb l = Ok c ∧ column_wf W c ∧ value_counts_ c = Z.of_nat (length l) ∧
    ∀ i v, l !! i = Some v → get_value W c (Z.of_nat i) = Ok (v mod 2 ^ vb).
Proof.
  intros Hvb Hov. unfold compressed_vector_of.
  destruct (compressed_vector_spec W HW vb (Z.of_nat (length l))) as (c0 & -> & Hc0 & Hb0 & Hn0 & Hz);
    [lia..|]. cbn [rbind].
  destruct (set_values_spec W HW l l c0 [] eq_refl Hc0 Hn0) as (c & Hs & Hc & Hb & Hn & Hp).
  { intros p Hp. rewrite Hz. cbn [length]. change (Z.of_nat 0) with 0. rewrite Z.mul_0_l.
    by replace (p <? 0) with false by lia. }
  exists c. split; [done|]. split; [done|]. split; [congruence|]. intros i v Hi.
  pose proof (lookup_lt_Some _ _ _ Hi) as Hlt.
  destruct (get_value_bits W HW c Hc (Z.of_nat i)) as (x & -> & Hx); [lia|].
  f_equal. apply field_value; [lia|]. intros j Hj. rewrite Hx by done.
  rewrite Hb, Hb0. destruct (Z.ltb_spec j vb); [|done]. cbn [andb].
  rewrite Hp, Hb, Hb0 by nia. replace (_ <? _) with true by nia. cbn [andb].
  assert (E : (Z.of_nat i * vb + j) / vb = Z.of_nat i ∧ (Z.of_nat i * vb + j) mod vb = j).
  { rewrite Z.add_comm, Z.div_add, Z.mod_add, Z.div_small, Z.mod_small by lia. lia. }
  destruct E as [-> ->]. rewrite Nat2Z.id, Hi. done.
Qed.

(** A bit vector built from a list has exactly the bits of the list. *)
Lemma bit_vector_of_spec (W : Z) (HW : W = 32 ∨ W = 64) (V B : Z) (l : list Z) :
  0 ≤ B ≤ 2 ^ 62 → below V B l →
  ∃ b, bit_vector_of W V l = Ok b ∧ bits_wf W b ∧ 0 ≤ max_value_ b ≤ B ∧
    (∀ v, 0 ≤ v → bit W (bits_data b) v = bool_decide (v ∈ l)) ∧
    (∀ v, v ∈ l → 0 ≤ v < max_value_ b).
Proof.
  intros HB Hl. unfold bit_vector_of. destruct (upper_limit_spec V B l) as [Hr Hlt]; [lia|done|].
  destruct (bit_vector_spec W HW (range_upper_limit V l)) as (b0 & -> & Hb0 & Hm0 & Hz); [lia..|].
  cbn [rbind].
  assert (Hin : ∀ v, v ∈ l → 0 ≤ v < range_upper_limit V l).
  { intros v Hv. pose proof (proj1 (Forall_forall _ _) Hl v Hv).
    pose proof (proj1 (Forall_forall _ _) Hlt v Hv). cbn in *. lia. }
  destruct (inserts_spec W HW l b0 Hb0) as (b & Hi & Hb & Hm & Hbit).
  { rewrite Hm0. by apply Forall_forall. }
  exists b. split; [done|]. split; [done|]. rewrite Hm, Hm0. split; [done|]. split; [|done].
  intros v Hv. by rewrite Hbit, Hz by done.
Qed.

Lemma set_of_list (W : Z) (HW : W = 32 ∨ W = 64) (V : Z) (l : list Z) :
  below V (2 ^ 62) l →
  ∃ b, bit_vector_of W V l = Ok b ∧
    values W b = Ok (members_from W (bits_data b) 0 (Z.to_nat (max_value_ b))) ∧
    (∀ v, 0 ≤ v → contains W b v = Ok (bool_decide (v ∈ l))) ∧
    (∀ v, v ∈ members_from W (bits_data b) 0 (Z.to_nat (max_value_ b)) ↔ v ∈ l) ∧
    StronglySorted Z.lt (members_from W (bits_data b) 0 (Z.to_nat (max_value_ b))).
Proof.
  intros Hl. destruct (bit_vector_of_spec W HW V (2 ^ 62) l ltac:(lia) Hl) as (b & -> & Hb & _ & Hin & Hmax).
  exists b. split; [done|]. split; [by apply values_spec|]. split; [|split].
  - intros v Hv. rewrite contains_spec, Hin by done. f_equal.
    destruct (Z.ltb_spec v (max_value_ b)) as [|Hge]; [done|]. cbn [andb]. symmetry.
    apply bool_decide_false. intros Hv'. specialize (Hmax v Hv'). lia.
  - intros v. rewrite members_from_In. split.
    + intros [Hv Ht]. rewrite Hin in Ht by lia. by apply bool_decide_eq_true in Ht.
    + intros Hv. specialize (Hmax v Hv). split; [lia|]. rewrite Hin by lia.
      by apply bool_decide_true.
  - apply members_from_sorted.
Qed.

(** ** Theorems *)

(** Property C18.  Packing a list of values into a compressed vector and reading
    every field back returns the values, truncated to [value_bits] bits: fields
    that straddle two words included, and without touching a word outside of the
    storage the constructor allocates. *)
Theorem compressed_vector_roundtrip (W vb : Z) (l : list Z) :
  W = 32 ∨ W = 64 → 1 ≤ vb < W → vb * Z.of_nat (length l) < 2 ^ 63 →
  ∃ c, compressed_vector_of W vb l = Ok c ∧ value_counts_ c = Z.of_nat (length l) ∧
    ∀ i v, l !! i = Some v → get_value W c (Z.of_nat i) = Ok (v mod 2 ^ vb).
Proof.
  intros HW Hvb Hov. destruct (packed_values W HW vb l Hvb Hov) as (c & Hc & _ & Hn & Hg).
  by exists c.
Qed.

Lemma compressed_vector_roundtrip_witness : ∃ c,
  compressed_vector_of 32 7 [5; 100; 127; 3; 200] = Ok c ∧ get_value 32 c 4 = Ok 72.
Proof.
  destruct (compressed_vector_roundtrip 32 7 [5; 100; 127; 3; 200]) as (c & Hc & _ & Hg);
    [by left|lia|cbn; lia|].
  exists c. split; [exact Hc|]. exact (Hg 4%nat 200 eq_refl).
Defined.

(** [set_value] does not replace a value: the field holds the
    bitwise or of what it held and of the new value, and every other field keeps
    its value. *)
Theorem set_value_accumulates (W : Z) (c : bit_compressed) (i v : Z) :
  W = 32 ∨ W = 64 → column_wf W c → 0 ≤ i < value_counts_ c →
  ∃ c' old, get_value W c i = Ok old ∧ set_value W c i v = Ok c' ∧
    get_value W c' i = Ok (Z.lor old (v mod 2 ^ value_bits_ c)) ∧
    (∀ k, 0 ≤ k < value_counts_ c → k ≠ i → get_value W c' k = get_value W c k).
Proof.
  intros HW Hc Hi. pose proof (cw_bits W c Hc) as Hvb.
  destruct (set_value_bits W HW c Hc i Hi v) as (c' & Hs & Hc' & Hb & Hn & Hbit).
  destruct (get_value_bits W HW c Hc i Hi) as (old & Hold & Ho).
  destruct (get_value_bits W HW c' Hc' i) as (x & Hx & Hxb); [lia|].
  exists c', old. split; [done|]. split; [done|]. unfold field_bit in Hbit. split.
  - rewrite Hx. f_equal. apply Z.bits_inj'. intros j Hj.
    rewrite Hxb, Z.lor_spec, Ho, Hb, Hbit by (done || nia).
    replace (i * value_bits_ c <=? i * value_bits_ c + j) with true by lia.
    replace (i * value_bits_ c + j <? i * value_bits_ c + value_bits_ c)
      with (j <? value_bits_ c) by lia.
    replace (i * value_bits_ c + j - i * value_bits_ c) with j by lia.
    destruct (Z.ltb_spec j (value_bits_ c)); cbn [andb].
    + by rewrite Z.mod_pow2_bits_low.
    + by rewrite Z.mod_pow2_bits_high by lia.
  - intros k Hk Hne. destruct (get_value_bits W HW c Hc k Hk) as (y & -> & Hy).
    destruct (get_value_bits W HW c' Hc' k) as (z & -> & Hz); [lia|].
    f_equal. apply Z.bits_inj'. intros j Hj. rewrite Hz, Hy, Hb, Hbit by (done || nia).
    destruct (Z.ltb_spec j (value_bits_ c)); [|done]. cbn [andb].
    destruct ((_ <=? _) && _) eqn:Ef; [|by rewrite orb_false_r]. zbool. nia.
Qed.

(**  A bit vector built from a list is the set of its values: a
    value is contained exactly if it is in the list, and iteration visits every
    element once, in increasing order. *)
Theorem bit_vector_is_set (W V : Z) (l : list Z) :
  W = 32 ∨ W = 64 → below V (2 ^ 62) l →
  ∃ b vs, bit_vector_of W V l = Ok b ∧ values W b = Ok vs ∧
    (∀ v, 0 ≤ v → contains W b v = Ok (bool_decide (v ∈ l))) ∧
    (∀ v, v ∈ vs ↔ v ∈ l) ∧ StronglySorted Z.lt vs.
Proof.
  intros HW Hl. destruct (set_of_list W HW V l Hl) as (b & Hb & Hv & Hc & Hin & Hs).
  eexists b, _. done.
Qed.

(** [operator==] of bit vectors is not equality of sets: comparing
    with [std::equal] on a single end iterator, [{1}] and [{1, 2}] compare equal
    both ways round, since the end index of the shorter vector reads as the next
    element of the longer. *)
Theorem bit_vector_equality_is_unsound :
  ∃ a b, bit_vector_of 64 64 [1] = Ok a ∧ bit_vector_of 64 64 [1; 2] = Ok b ∧
    values 64 a = Ok [1] ∧ values 64 b = Ok [1; 2] ∧
    bit_vector_eqb 64 a b = Ok true ∧ bit_vector_eqb 64 b a = Ok true.
Proof.
  eexists _, _. split; [vm_compute; reflexivity|]. split; [vm_compute; reflexivity|].
  vm_compute. done.
Qed.
