(* ===== verification/Scan.v ===== *)
(** * Column scans in software

    include/pnmlib/imdb/scan_types.h and imdb/software_scan/nosimd/cpu_scan.h:
    the reference scan of a compressed column with an in-range or in-list
    predicate, into a bit vector or into an index vector.  Elements and indices
    are [uint32_t]. *)
From Stdlib Require Import Sorted.
From S2P Require Import Prelude BitViews.

Inductive OperationType := InRange | InList.
Inductive OutputType := BitVector | IndexVector.

Record RangeOperation := mkRange { range_start : Z; range_end : Z }.

(** [sizeof(compressed_element_type) * 8 = sizeof(index_type) * 8] *)
Definition element_bits : Z := 32.

Definition in_range (r : RangeOperation) (element : Z) : bool :=
  (range_start r <=? element) && (element <=? range_end r).

(** [result = bit_vector(column.size()); for (i ...) if (p(column[i])) result.insert(i);] *)
Definition scan_to_bv (p : Z → result bool) (column : bit_compressed) : result bit_vector_view :=
  let! result := bit_vector element_bits (value_counts_ column) in
  rfold (fun result i =>
           let! element := get_value element_bits column i in
           let! found := p element in
           if found then insert element_bits result i else Ok result)
        result (range (value_counts_ column)).

(** [result.clear(); for (i ...) if (p(column[i])) result.push_back(i);] *)
Definition scan_to_iv (p : Z → result bool) (column : bit_compressed) : result (list Z) :=
  rfold (fun result i =>
           let! element := get_value element_bits column i in
           let! found := p element in
           if found then Ok (result ++ [i]) else Ok result)
        [] (range (value_counts_ column)).

Definition in_range_to_bv (column : bit_compressed) (range : RangeOperation) :=
  scan_to_bv (fun e => Ok (in_range range e)) column.

Definition in_range_to_iv (column : bit_compressed) (range : RangeOperation) :=
  scan_to_iv (fun e => Ok (in_range range e)) column.

Definition in_list_to_bv (column : bit_compressed) (predictor : bit_vector_view) :=
  scan_to_bv (contains element_bits predictor) column.

Definition in_list_to_iv (column : bit_compressed) (predictor : bit_vector_view) :=
  scan_to_iv (contains element_bits predictor) column.

(** ** Scans are filters *)
Section scan.
Context (column : bit_compressed) (Hc : column_wf element_bits column).
Context (Hcount : 0 ≤ value_counts_ column < 2 ^ 32).
Context (p : Z → result bool) (q : Z → bool).
Context (Hp : ∀ e, 0 ≤ e < 2 ^ element_bits → p e = Ok (q e)).

(** The value of field [i]. *)
Definition element (i : Z) : Z := match get_value element_bits column i with Ok v => v | Err _ => 0 end.

Lemma element_ok (i : Z) :
  0 ≤ i < value_counts_ column →
  get_value element_bits column i = Ok (element i) ∧ 0 ≤ element i < 2 ^ element_bits.
Proof.
  intros Hi. unfold element.
  destruct (get_value_bits element_bits (or_introl eq_refl) column Hc i Hi) as (v & -> & Hv).
  split; [done|].
  assert (E : v = v mod 2 ^ element_bits).
  { apply Z.bits_inj'. intros j Hj. destruct (Z.lt_ge_cases j element_bits).
    - by rewrite Z.mod_pow2_bits_low.
    - rewrite Z.mod_pow2_bits_high by (unfold element_bits in *; lia). rewrite Hv by done.
      destruct Hc as [Hb _ _ _]. by replace (j <? value_bits_ column) with false by lia. }
  rewrite E. by apply Z.mod_pos_bound.
Qed.

Lemma scan_to_iv_spec :
  scan_to_iv p column =
  Ok (filter (fun i => q (element i) = true) (range (value_counts_ column))).
Proof.
  unfold scan_to_iv. set (f := fun (result : list Z) (i : Z) => _).
  assert (H : ∀ l acc, Forall (fun i => 0 ≤ i < value_counts_ column) l →
    rfold f acc l = Ok (acc ++ filter (fun i => q (element i) = true) l)).
  { induction l as [|i l IH]; intros acc Hl; cbn [rfold]; [by rewrite app_nil_r|].
    apply Forall_cons in Hl as [Hi Hl]. unfold f at 1.
    destruct (element_ok i Hi) as [-> He]. cbn [rbind]. rewrite (Hp _ He). cbn [rbind].
    rewrite filter_cons. destruct (q (element i)) eqn:Eq; cbn [rbind].
    - rewrite IH by done. rewrite decide_True by done. by rewrite <- app_assoc.
    - rewrite IH by done. by rewrite decide_False. }
  rewrite H; [done|]. by apply Forall_range.
Qed.

Lemma scan_to_bv_spec :
  ∃ b, scan_to_bv p column = Ok b ∧ bits_wf element_bits b ∧ max_value_ b = value_counts_ column ∧
    ∀ i, 0 ≤ i → bit element_bits (bits_data b) i = (i <? value_counts_ column) && q (element i).
Proof.
  unfold scan_to_bv.
  destruct (bit_vector_spec element_bits (or_introl eq_refl) (value_counts_ column))
    as (b0 & -> & Hb0 & Hm0 & Hz); [lia..|]. cbn [rbind].
  set (f := fun (result : bit_vector_view) (i : Z) => _).
  assert (H : ∀ l b, bits_wf element_bits b → max_value_ b = value_counts_ column →
    Forall (fun i => 0 ≤ i < value_counts_ column) l →
    ∃ b', rfold f b l = Ok b' ∧ bits_wf element_bits b' ∧ max_value_ b' = value_counts_ column ∧
      ∀ i, 0 ≤ i → bit element_bits (bits_data b') i =
        bit element_bits (bits_data b) i || (bool_decide (i ∈ l) && q (element i))).
  { induction l as [|i l IH]; intros b Hb Hm Hl; cbn [rfold].
    - exists b. do 3 (split; [done|]). intros i _.
      rewrite bool_decide_false by apply not_elem_of_nil. by rewrite orb_false_r.
    - apply Forall_cons in Hl as [Hi Hl]. unfold f at 1.
      destruct (element_ok i Hi) as [-> He]. cbn [rbind]. rewrite (Hp _ He). cbn [rbind].
      destruct (q (element i)) eqn:Eq.
      + destruct (insert_spec element_bits (or_introl eq_refl) b i Hb) as (b1 & -> & Hb1 & Hm1 & Hbit1);
          [lia|]. cbn [rbind].
        destruct (IH b1 Hb1) as (b' & -> & Hb' & Hm' & Hbit'); [congruence|done|].
        exists b'. do 3 (split; [done|]). intros j Hj.
        rewrite Hbit', Hbit1, <- orb_assoc by done. f_equal.
        destruct (Z.eqb_spec j i) as [->|Hne]; cbn [orb].
        * rewrite Eq, bool_decide_true by constructor. done.
        * f_equal. apply bool_decide_ext. rewrite elem_of_cons.
          split; [intros ?; by right|by intros [?|?]].
      + cbn [rbind]. destruct (IH b Hb Hm Hl) as (b' & -> & Hb' & Hm' & Hbit').
        exists b'. do 3 (split; [done|]). intros j Hj. rewrite Hbit' by done. f_equal.
        destruct (decide (j = i)) as [->|Hne]; [by rewrite Eq, !andb_false_r|].
        f_equal. apply bool_decide_ext. rewrite elem_of_cons.
        split; [intros ?; by right|by intros [?|?]]. }
  destruct (H (range (value_counts_ column)) b0 Hb0 Hm0) as (b & -> & Hb & Hm & Hbit).
  { by apply Forall_range. }
  exists b. do 3 (split; [done|]). intros i Hi. rewrite Hbit, Hz by done. cbn [orb]. f_equal.
  destruct (Z.ltb_spec i (value_counts_ column)).
  - apply bool_decide_true, elem_of_range. lia.
  - apply bool_decide_false. rewrite elem_of_range. lia.
Qed.
End scan.

(** A filtered range lists the set bits in order. *)
Lemma members_filter (d : list Z) (q : Z → bool) (n m : nat) :
  (∀ i, Z.of_nat m ≤ i < Z.of_nat (m + n) → bit element_bits d i = q i) →
  members_from element_bits d (Z.of_nat m) n = filter (fun i => q i = true) (Z.of_nat <$> seq m n).
Proof.
  revert m. induction n as [|n IH]; intros m H; cbn [members_from seq fmap list_fmap]; [done|].
  rewrite filter_cons, H by lia.
  replace (Z.of_nat m + 1) with (Z.of_nat (S m)) by lia.
  change (list_fmap _ _ Z.of_nat (seq (S m) n)) with (Z.of_nat <$> seq (S m) n).
  rewrite IH by (intros i Hi; apply H; lia).
  destruct (q (Z.of_nat m)); [by rewrite decide_True|by rewrite decide_False].
Qed.

Lemma list_filter_iff' (P Q : Z → Prop) `{!∀ x, Decision (P x), !∀ x, Decision (Q x)} (l : list Z) :
  (∀ x, x ∈ l → P x ↔ Q x) → filter P l = filter Q l.
Proof.
  induction l as [|x l IH]; intros HPQ; [done|]. rewrite !filter_cons.
  rewrite IH by (intros y Hy; apply HPQ; by right).
  apply decide_ext, HPQ. by left.
Qed.

Lemma bv_rows (b : bit_vector_view) (c : bit_compressed) (q : Z → bool) :
  bits_wf element_bits b → max_value_ b = value_counts_ c →
  (∀ i, 0 ≤ i → bit element_bits (bits_data b) i = (i <? value_counts_ c) && q (element c i)) →
  values element_bits b = Ok (filter (fun i => q (element c i) = true) (range (value_counts_ c))).
Proof.
  intros Hb Hm Hbit. rewrite (values_spec element_bits (or_introl eq_refl)) by done. f_equal.
  unfold range. rewrite Hm. change 0 with (Z.of_nat 0).
  apply (members_filter _ (fun i => q (element c i))). intros i Hi. rewrite Hbit by lia.
  by replace (i <? value_counts_ c) with true by lia.
Qed.

Lemma packed_column (vb : Z) (l : list Z) :
  1 ≤ vb < 32 → Z.of_nat (length l) < 2 ^ 32 → Forall (fun v => 0 ≤ v < 2 ^ vb) l →
  ∃ c, compressed_vector_of element_bits vb l = Ok c ∧ column_wf element_bits c ∧
    value_counts_ c = Z.of_nat (length l) ∧
    ∀ i, 0 ≤ i < Z.of_nat (length l) → element c i = default 0 (l !! Z.to_nat i).
Proof.
  intros Hvb Hlen Hl.
  destruct (packed_values element_bits (or_introl eq_refl) vb l) as (c & Hc & Hcw & Hn & Hg);
    [done|nia|].
  exists c. do 3 (split; [done|]). intros i Hi.
  destruct (lookup_lt_is_Some_2 l (Z.to_nat i)) as [v Hv]; [lia|].
  pose proof (Forall_lookup_1 _ _ _ _ Hl Hv) as Hr. cbn in Hr.
  unfold element. specialize (Hg _ _ Hv). rewrite Z2Nat.id in Hg by lia.
  rewrite Hg, Hv, Z.mod_small by done. done.
Qed.

Lemma predictor_set (V : Z) (pred : list Z) :
  below V (2 ^ 32) pred →
  ∃ b, bit_vector_of element_bits V pred = Ok b ∧
    ∀ v, 0 ≤ v → contains element_bits b v = Ok (bool_decide (v ∈ pred)).
Proof.
  intros Hp. destruct (set_of_list element_bits (or_introl eq_refl) V pred) as (b & Hb & _ & Hc & _).
  - eapply Forall_impl; [exact Hp|]. cbn. lia.
  - by exists b.
Qed.

(** ** Theorems *)

(** Property C19.  The software scans select exactly the positions whose value,
    as packed in the column, satisfies the predicate: the index vector lists
    them in increasing order, and the bit vector, read back through its
    iterator, gives the same list.  The list of a predictor has values of [V] bits,
    and the type has room for the successor of each, which the constructor of the
    predictor computes. *)
Theorem scans_select_matching_rows (vb V : Z) (l pred : list Z) (r : RangeOperation) :
  1 ≤ vb < 32 → Z.of_nat (length l) < 2 ^ 32 → Forall (fun v => 0 ≤ v < 2 ^ vb) l →
  Forall (fun v => 0 ≤ v < 2 ^ 32 ∧ v + 1 < 2 ^ V) pred →
  let rows (q : Z → bool) :=
    filter (fun i => q (default 0 (l !! Z.to_nat i)) = true) (range (Z.of_nat (length l))) in
  ∃ column predictor b1 b2,
    compressed_vector_of element_bits vb l = Ok column ∧
    bit_vector_of element_bits V pred = Ok predictor ∧
    in_range_to_iv column r = Ok (rows (in_range r)) ∧
    in_range_to_bv column r = Ok b1 ∧ values element_bits b1 = Ok (rows (in_range r)) ∧
    in_list_to_iv column predictor = Ok (rows (fun v => bool_decide (v ∈ pred))) ∧
    in_list_to_bv column predictor = Ok b2 ∧
    values element_bits b2 = Ok (rows (fun v => bool_decide (v ∈ pred))).
Proof.
  intros Hvb Hlen Hl Hpred rows.
  destruct (packed_column vb l Hvb Hlen Hl) as (c & Hcol & Hcw & Hn & Hel).
  destruct (predictor_set V pred Hpred) as (pv & Hpv & Hcont).
  assert (Hcnt : 0 ≤ value_counts_ c < 2 ^ 32) by lia.
  pose (inlist := fun v : Z => bool_decide (v ∈ pred)).
  assert (Hrows : ∀ q, filter (fun i => q (element c i) = true) (range (value_counts_ c)) = rows q).
  { intros q. unfold rows. rewrite Hn. apply list_filter_iff'. intros i Hi%elem_of_range.
    by rewrite Hel. }
  destruct (scan_to_bv_spec c Hcw Hcnt (fun e => Ok (in_range r e)) (in_range r))
    as (b1 & Hb1 & Hw1 & Hm1 & Hbit1); [done|].
  destruct (scan_to_bv_spec c Hcw Hcnt (contains element_bits pv) (fun v => bool_decide (v ∈ pred)))
    as (b2 & Hb2 & Hw2 & Hm2 & Hbit2); [intros e He; apply Hcont; lia|].
  exists c, pv, b1, b2. split; [done|]. split; [done|].
  split; [unfold in_range_to_iv; by rewrite (scan_to_iv_spec c Hcw _ (in_range r)), Hrows|].
  split; [done|]. split; [by rewrite (bv_rows b1 c _ Hw1 Hm1 Hbit1), Hrows|].
  split; [unfold in_list_to_iv; rewrite (scan_to_iv_spec c Hcw _ (fun v => bool_decide (v ∈ pred)));
          [f_equal; apply (Hrows inlist)|intros e He; apply Hcont; lia]|].
  split; [done|]. rewrite (bv_rows b2 c inlist Hw2 Hm2 Hbit2). f_equal. apply (Hrows inlist).
Qed.

Lemma scans_select_matching_rows_witness : ∃ column predictor,
  compressed_vector_of element_bits 5 [7; 30; 12; 0; 12] = Ok column ∧
  bit_vector_of element_bits 32 [12; 30] = Ok predictor ∧
  in_range_to_iv column (mkRange 7 12) = Ok [0; 2; 4] ∧
  in_list_to_iv column predictor = Ok [1; 2; 4].
Proof.
  destruct (scans_select_matching_rows 5 32 [7; 30; 12; 0; 12] [12; 30] (mkRange 7 12))
    as (c & pv & b1 & b2 & Hc & Hp & H1 & _ & _ & H2 & _).
  - lia.
  - cbn. lia.
  - repeat (apply Forall_cons; split; [lia|]). by apply Forall_nil.
  - repeat (apply Forall_cons; split; [lia|]). by apply Forall_nil.
  - exists c, pv. split; [exact Hc|]. split; [exact Hp|]. split; [exact H1|exact H2].
Defined.
