(* ===== verification/Avx2.v ===== *)
(** * The AVX2 scan

    imdb/software_scan/avx2/load.h, predicate.h, store.h and scan.cpp.  A 128- or
    256-bit register is the list of its bytes or of its 32-bit lanes, lowest
    first; the intrinsics are functions on these lists.  Memory is the list of
    the 32-bit words of a container, and its bytes are little endian. *)
From S2P Require Import Prelude BitViews Scan.

(** ** Intrinsics *)
Definition _mm_shuffle_epi8 (a control : list Z) : list Z :=
  (fun c => if 128 <=? c then 0 else default 0 (a !! Z.to_nat (Z.land c 15))) <$> control.

Definition and_bytes (a b : list Z) : list Z := zip_with Z.land a b.
Definition or_bytes (a b : list Z) : list Z := zip_with Z.lor a b.
Definition not_byte (x : Z) : Z := Z.lxor x 255.

(** [_mm256_castsi256_si128] and [_mm256_extracti128_si256(value, 1)] *)
Definition low_lane (v : list Z) : list Z := take 16 v.
Definition high_lane (v : list Z) : list Z := drop 16 v.

(** The 32-bit lanes of a register given by its bytes. *)
Fixpoint dwords (n : nat) (v : list Z) : list Z :=
  match n with
  | O => []
  | S n' =>
      (default 0 (v !! 0%nat) + 2 ^ 8 * default 0 (v !! 1%nat) + 2 ^ 16 * default 0 (v !! 2%nat) +
       2 ^ 24 * default 0 (v !! 3%nat)) :: dwords n' (drop 4 v)
  end.

Definition _mm256_srlv_epi32 (a count : list Z) : list Z :=
  zip_with (fun x c => if c <? 32 then Z.shiftr x c else 0) a count.

Definition s32 (x : Z) : Z := if x <? 2 ^ 31 then x else x - 2 ^ 32.

Definition _mm256_cmpgt_epi32 (a b : list Z) : list bool :=
  zip_with (fun x y => s32 y <? s32 x) a b.

Fixpoint movemask (l : list bool) : Z :=
  match l with [] => 0 | b :: l' => Z.b2z b + 2 * movemask l' end.

Fixpoint popcnt (n : nat) (x : Z) : Z :=
  match n with O => 0 | S n' => Z.b2z (Z.odd x) + popcnt n' (x / 2) end.

(** [_pdep_u64] and [_pext_u64]; [i] is the bit of the mask, [k] the bit of the
    packed operand. *)
Fixpoint pdep (n : nat) (i k src mask : Z) : Z :=
  match n with
  | O => 0
  | S n' =>
      if Z.testbit mask i then
        Z.lor (Z.shiftl (Z.b2z (Z.testbit src k)) i) (pdep n' (i + 1) (k + 1) src mask)
      else pdep n' (i + 1) k src mask
  end.

Fixpoint pext (n : nat) (i k src mask : Z) : Z :=
  match n with
  | O => 0
  | S n' =>
      if Z.testbit mask i then
        Z.lor (Z.shiftl (Z.b2z (Z.testbit src i)) k) (pext n' (i + 1) (k + 1) src mask)
      else pext n' (i + 1) k src mask
  end.

(** Byte [k] of a container, and 32 of them from [base]. *)
Definition load_byte (d : list Z) (k : Z) : result Z :=
  let! w := vec_at d (k / 4) in Ok (Z.land (Z.shiftr w (8 * (k mod 4))) 255).

Fixpoint load_bytes (n : nat) (d : list Z) (base : Z) : result (list Z) :=
  match n with
  | O => Ok []
  | S n' =>
      let! b := load_byte d base in
      let! rest := load_bytes n' d (base + 1) in
      Ok (b :: rest)
  end.

Definition store_byte (d : list Z) (k v : Z) : result (list Z) :=
  let! w := vec_at d (k / 4) in
  vec_set d (k / 4) (Z.lor (Z.land w (Z.lxor (Z.shiftl 255 (8 * (k mod 4))) (2 ^ 32 - 1)))
                           (Z.shiftl v (8 * (k mod 4)))).

Fixpoint store_words (d : list Z) (i : Z) (l : list Z) : result (list Z) :=
  match l with
  | [] => Ok d
  | w :: l' => let! d := vec_set d i w in store_words d (i + 1) l'
  end.

(** ** load.h *)
Record DecompressionConstants := mkConsts {
  entry_size : Z;
  shuffle_control_l : list Z;
  shuffle_control_h : list Z;
  align_shift : list Z;
  value_mask : Z;
  crop_mask : list Z;
  inverse_crop_mask : list Z
}.

Definition single_simd_lane_size : Z := 16.

Definition value_shuffle_bytes (entry value_index : Z) : result (list Z) :=
  let byte_min := value_index * entry / BIT_IN_BYTE in
  let byte_max := (entry * (value_index + 1) - 1) / BIT_IN_BYTE in
  rfold (fun m k => vec_set m k ((byte_min + k) mod single_simd_lane_size)) [0; 0; 0; 0]
        (range (byte_max + 1 - byte_min)).

Definition init_shuffle_control_fields (entry : Z) : result (list Z) :=
  rfold (fun m i => let! b := value_shuffle_bytes entry i in Ok (m ++ b)) [] (range 8).

Definition init_align_shift_field (entry : Z) : list Z :=
  (fun i => i * entry mod BIT_IN_BYTE) <$> range 8.

(** [_mm_set_epi32] takes the highest lane first. *)
Definition init_crop_masks (entry : Z) : result (list Z) :=
  if entry <? 17 then Ok (replicate 16 255)
  else if entry <=? 18 then
    Ok (replicate 12 255 ++ (if entry =? 17 then [255; 255; 0; 0] else [255; 0; 0; 0]))
  else Err InvalidArguments.

Definition make_constants (bits : Z) : result DecompressionConstants :=
  let! _ := assert (bits <=? 18) in
  let! shuffle_mask := init_shuffle_control_fields bits in
  let! crop := init_crop_masks bits in
  Ok (mkConsts bits (take 16 shuffle_mask) (drop 16 shuffle_mask) (init_align_shift_field bits)
        (u32 (Z.shiftl 1 bits - 1)) crop (not_byte <$> crop)).

Definition singlelane_shuffle (value shuffle_control_h shuffle_control_l : list Z) : list Z :=
  let low := low_lane value in
  _mm_shuffle_epi8 low shuffle_control_l ++ _mm_shuffle_epi8 low shuffle_control_h.

Definition crosslane_shuffle (value shuffle_control_h shuffle_control_l crop_mask
    inverse_crop_mask : list Z) : list Z :=
  let low := low_lane value in
  let shuffled_l := _mm_shuffle_epi8 low shuffle_control_l in
  let shuffled_h := _mm_shuffle_epi8 low shuffle_control_h in
  let hi := high_lane value in
  let shuffled_h_extra := _mm_shuffle_epi8 hi shuffle_control_h in
  let shuffled_h_extra := and_bytes shuffled_h_extra inverse_crop_mask in
  let shuffled_h := and_bytes shuffled_h crop_mask in
  shuffled_l ++ or_bytes shuffled_h shuffled_h_extra.

Definition load_with_decompression (d : list Z) (base : Z) (c : DecompressionConstants)
  : result (list Z) :=
  let! data := load_bytes 32 d base in
  let decompressed :=
    if entry_size c <=? 16 then
      singlelane_shuffle data (shuffle_control_h c) (shuffle_control_l c)
    else
      crosslane_shuffle data (shuffle_control_h c) (shuffle_control_l c) (crop_mask c)
        (inverse_crop_mask c) in
  let lanes := _mm256_srlv_epi32 (dwords 8 decompressed) (align_shift c) in
  Ok ((fun x => Z.land x (value_mask c)) <$> lanes).

(** ** predicate.h *)
Inductive predicate :=
  | AVXInRange (min max : Z)
  | AVXInList (max_index : Z) (list : bit_vector_view).

Definition in_list_lane (max_index : Z) (list : bit_vector_view) (x : Z) : result bool :=
  let in_value_shift := Z.land x 31 in
  let value_index := Z.shiftr x 5 in
  let detection_mask := Z.shiftl 1 in_value_shift in
  let! container :=
    (if s32 value_index <? s32 max_index then vec_at (bits_data list) value_index else Ok 0) in
  Ok (Z.land container detection_mask =? detection_mask).

Definition apply_predicate (data : list Z) (p : predicate) : result Z :=
  match p with
  | AVXInRange min max =>
      let ge := _mm256_cmpgt_epi32 (replicate 8 min) data in
      let le := _mm256_cmpgt_epi32 data (replicate 8 max) in
      Ok (Z.lxor (movemask (zip_with orb ge le)) 255)
  | AVXInList max_index list =>
      let! lanes := rfold (fun acc x => let! b := in_list_lane max_index list x in Ok (acc ++ [b]))
                      [] data in
      Ok (movemask lanes)
  end.

(** ** store.h *)
Definition permutation (mask : Z) : list Z :=
  let extended_mask := u64 (pdep 64 0 0 mask 0x0101010101010101 * 255) in
  let permute_mask := pext 64 0 0 0x0706050403020100 extended_mask in
  (fun k => Z.land (Z.shiftr permute_mask (8 * k)) 255) <$> range 8.

Definition store_indices (base mask : Z) (result : list Z) (out_index : Z)
  : Prelude.result (list Z * Z) :=
  let indices := (fun k => u32 (base + k)) <$> range 8 in
  let permuted := (fun p => default 0 (indices !! Z.to_nat (Z.land p 7))) <$> permutation mask in
  let! result := store_words result out_index permuted in
  Ok (result, popcnt 32 mask).

Definition store_bits (base mask : Z) (result : list Z) (out_index : Z)
  : Prelude.result (list Z * Z) :=
  let! result := store_byte result out_index mask in
  Ok (result, 1).

(** ** scan.cpp *)
Definition CONSTANTS_COUNT : Z := 19.

(** [ConstantsSet()[value_bits]]; entry 0 of the table is never initialised. *)
Definition ConstantsSet (value_bits : Z) : result DecompressionConstants :=
  if (1 <=? value_bits) && (value_bits <? CONSTANTS_COUNT) then make_constants value_bits
  else Err UndefinedBehaviour.

Definition block_size : Z := 8.

Section impl.
Context (store : Z → Z → list Z → Z → result (list Z * Z)).

(** Blocks [i], [i + 8], ...; [n] are left. *)
Fixpoint scan_blocks (n : nat) (column : bit_compressed) (p : predicate)
    (c : DecompressionConstants) (i base count : Z) (result : list Z)
  : Prelude.result (list Z * Z) :=
  match n with
  | O => Ok (result, count)
  | S n' =>
      let! data := load_with_decompression (data_ column) base c in
      let! mask := apply_predicate data p in
      let! (result, stored) := store i mask result count in
      scan_blocks n' column p c (i + block_size) (base + value_bits_ column) (count + stored) result
  end.

Definition scan_avx2_impl (column : bit_compressed) (p : predicate) (result : list Z)
    (c : DecompressionConstants) : Prelude.result (list Z * Z) :=
  scan_blocks (Z.to_nat ((value_counts_ column + block_size - 1) / block_size)) column p c 0 0 0
    result.

Definition in_range_list_impl (column : bit_compressed) (predicate : bit_vector_view)
    (result : list Z) : Prelude.result (list Z * Z) :=
  let max_value := u32 (u64 (Z.shiftr (u64 (max_value_ predicate - 1)) 5 + 1)) in
  let! c := ConstantsSet (value_bits_ column) in
  scan_avx2_impl column (AVXInList max_value predicate) result c.

Definition in_range_scan_impl (column : bit_compressed) (range : RangeOperation)
    (result : list Z) : Prelude.result (list Z * Z) :=
  let! c := ConstantsSet (value_bits_ column) in
  scan_avx2_impl column (AVXInRange (range_start range) (range_end range)) result c.
End impl.

(** The four overloads of [scan]. *)
Definition scan_range_iv := in_range_scan_impl store_indices.
Definition scan_range_bv := in_range_scan_impl store_bits.
Definition scan_list_iv := in_range_list_impl store_indices.
Definition scan_list_bv := in_range_list_impl store_bits.

(** ** imdb/utils/runner/avx2_scan.h

    [AVX2Runner::scan_impl] on one predicate: the output is allocated with the
    size of the column, and an index vector is then shrunk to the returned
    number of rows. *)
Definition AVX2Runner_range_iv (column : bit_compressed) (range : RangeOperation)
  : result (list Z) :=
  let! (out, size) :=
    scan_range_iv column range (replicate (Z.to_nat (value_counts_ column)) 0) in
  Ok (take (Z.to_nat size) out).

Definition AVX2Runner_list_iv (column : bit_compressed) (predicate : bit_vector_view)
  : result (list Z) :=
  let! (out, size) :=
    scan_list_iv column predicate (replicate (Z.to_nat (value_counts_ column)) 0) in
  Ok (take (Z.to_nat size) out).

Definition AVX2Runner_range_bv (column : bit_compressed) (range : RangeOperation)
  : result bit_vector_view :=
  let! out := bit_vector element_bits (value_counts_ column) in
  let! (d, _) := scan_range_bv column range (bits_data out) in
  Ok (mkBits (max_value_ out) d).

Definition AVX2Runner_list_bv (column : bit_compressed) (predicate : bit_vector_view)
  : result bit_vector_view :=
  let! out := bit_vector element_bits (value_counts_ column) in
  let! (d, _) := scan_list_bv column predicate (bits_data out) in
  Ok (mkBits (max_value_ out) d).

(** ** The decompressed lanes *)
Lemma load_byte_spec (d : list Z) (k : Z) :
  words_wf 32 d → 0 ≤ k → 8 * k + 8 ≤ bits_of 32 d →
  ∃ b, load_byte d k = Ok b ∧ 0 ≤ b < 2 ^ 8 ∧
    ∀ j, 0 ≤ j < 8 → Z.testbit b j = bit 32 d (8 * k + j).
Proof.
  intros Hd Hk Hsz. unfold bits_of in Hsz. unfold load_byte.
  destruct (lookup_lt_is_Some_2 d (Z.to_nat (k / 4))) as [w Hw]; [dlia|].
  rewrite (proj2 (vec_at_Ok _ (k / 4) w)) by (split; [dlia|done]). cbn [rbind].
  eexists. split; [reflexivity|]. rewrite (land_ones_mod _ 8) by done.
  split; [by apply Z.mod_pos_bound|]. intros j Hj.
  rewrite Z.mod_pow2_bits_low, Z.shiftr_spec by lia. unfold bit.
  assert (E : (8 * k + j) / 32 = k / 4 ∧ (8 * k + j) mod 32 = j + 8 * (k mod 4)) by dlia.
  destruct E as [-> ->]. by rewrite Hw.
Qed.

(** The bytes of a register hold the bits of [d] from byte [base]. *)
Definition holds_bytes (d : list Z) (base : Z) (l : list Z) : Prop :=
  ∀ k b, l !! k = Some b →
    0 ≤ b < 2 ^ 8 ∧ ∀ j, 0 ≤ j < 8 → Z.testbit b j = bit 32 d (8 * (base + Z.of_nat k) + j).

Lemma load_bytes_spec (d : list Z) (n : nat) : ∀ base,
  words_wf 32 d → 0 ≤ base → 8 * (base + Z.of_nat n) ≤ bits_of 32 d →
  ∃ l, load_bytes n d base = Ok l ∧ length l = n ∧ holds_bytes d base l.
Proof.
  induction n as [|n IH]; intros base Hd Hb Hsz; cbn [load_bytes].
  - exists []. split; [done|]. split; [done|]. by intros k b.
  - destruct (load_byte_spec d base Hd Hb) as (b & -> & Hr & Hbit); [lia|]. cbn [rbind].
    destruct (IH (base + 1) Hd) as (l & -> & Hl & Hh); [lia|lia|]. cbn [rbind].
    exists (b :: l). split; [done|]. split; [cbn; lia|].
    intros [|k] x Hx; cbn in Hx.
    + injection Hx as <-. split; [done|]. intros j Hj. rewrite Hbit by done. f_equal. lia.
    + destruct (Hh k x Hx) as [Hxr Hxb]. split; [done|]. intros j Hj.
      rewrite Hxb by done. f_equal. lia.
Qed.

Lemma length_shuffle (a control : list Z) : length (_mm_shuffle_epi8 a control) = length control.
Proof. apply length_fmap. Qed.

Lemma shuffle_lookup (a control : list Z) (k : nat) (s : Z) :
  control !! k = Some s → 0 ≤ s < 16 →
  _mm_shuffle_epi8 a control !! k = Some (default 0 (a !! Z.to_nat s)).
Proof.
  intros Hk Hs. unfold _mm_shuffle_epi8. rewrite list_lookup_fmap, Hk. cbn.
  replace (128 <=? s) with false by lia. rewrite (land_ones_mod s 4) by done.
  by rewrite Z.mod_small by lia.
Qed.

(** Byte [q] of lane [i] comes from byte [i * vb / 8 + q] of the register. *)
Definition source (vb i q : Z) : Z := i * vb / 8 + q.

Definition source_ok (c : DecompressionConstants) (i q : Z) : bool :=
  let src := source (entry_size c) i q in
  let k := Z.to_nat (4 * i + q) in
  if i <? 4 then bool_decide (shuffle_control_l c !! k = Some src) && (src <? 16)
  else if entry_size c <=? 16 then
    bool_decide (shuffle_control_h c !! (k - 16)%nat = Some src) && (src <? 16)
  else
    bool_decide (shuffle_control_h c !! (k - 16)%nat = Some (src mod 16)) && (src <? 32) &&
    bool_decide (crop_mask c !! (k - 16)%nat = Some (if src <? 16 then 255 else 0)) &&
    bool_decide (inverse_crop_mask c !! (k - 16)%nat = Some (if src <? 16 then 0 else 255)).

Definition constants_ok (vb : Z) : bool :=
  match make_constants vb with
  | Err _ => false
  | Ok c =>
      (entry_size c =? vb) && (value_mask c =? Z.ones vb) &&
      bool_decide (length (shuffle_control_l c) = 16%nat) &&
      bool_decide (length (shuffle_control_h c) = 16%nat) &&
      bool_decide (align_shift c = (fun i => i * vb mod 8) <$> range 8) &&
      forallb (fun i => forallb (fun q =>
        negb (source vb i q <=? ((i + 1) * vb - 1) / 8) || source_ok c i q) (range 4)) (range 8)
  end.

Lemma constants_checked : forallb (fun n => constants_ok (n + 1)) (range 18) = true.
Proof. vm_compute. reflexivity. Qed.

Lemma constants_spec (vb : Z) :
  1 ≤ vb ≤ 18 →
  ∃ c, ConstantsSet vb = Ok c ∧ entry_size c = vb ∧ value_mask c = Z.ones vb ∧
    length (shuffle_control_l c) = 16%nat ∧ length (shuffle_control_h c) = 16%nat ∧
    align_shift c = (fun i => i * vb mod 8) <$> range 8 ∧
    ∀ i q, 0 ≤ i < 8 → 0 ≤ q < 4 → source vb i q ≤ ((i + 1) * vb - 1) / 8 →
      source_ok c i q = true.
Proof.
  intros Hvb. pose proof constants_checked as H. rewrite forallb_forall in H.
  specialize (H (vb - 1)). cbv beta in H. replace (vb - 1 + 1) with vb in H by lia.
  unfold ConstantsSet, CONSTANTS_COUNT. replace (_ && _) with true by lia.
  assert (Hin : In (vb - 1) (range 18)) by (apply list_elem_of_In, elem_of_range; lia).
  specialize (H Hin). unfold constants_ok in H. destruct (make_constants vb) as [c|e]; [|done].
  rewrite !andb_true_iff, !bool_decide_eq_true, !Z.eqb_eq in H.
  destruct H as [[[[[He Hm] Hl] Hh] Ha] Hs].
  exists c. do 6 (split; [done|]). intros i q Hi Hq Hsrc.
  rewrite forallb_forall in Hs. specialize (Hs i). cbv beta in Hs. rewrite forallb_forall in Hs.
  assert (Hii : In i (range 8)) by (apply list_elem_of_In, elem_of_range; lia).
  assert (Hqi : In q (range 4)) by (apply list_elem_of_In, elem_of_range; lia).
  specialize (Hs Hii q Hqi). cbv beta in Hs.
  replace (source vb i q <=? _) with true in Hs by lia. done.
Qed.

(** The register after the shuffles. *)
Definition shuffled (c : DecompressionConstants) (data : list Z) : list Z :=
  if entry_size c <=? 16 then singlelane_shuffle data (shuffle_control_h c) (shuffle_control_l c)
  else crosslane_shuffle data (shuffle_control_h c) (shuffle_control_l c) (crop_mask c)
         (inverse_crop_mask c).

Lemma shuffled_low (c : DecompressionConstants) (data : list Z) (k : nat) :
  length (shuffle_control_l c) = 16%nat → (k < 16)%nat →
  shuffled c data !! k = _mm_shuffle_epi8 (low_lane data) (shuffle_control_l c) !! k.
Proof.
  intros Hl Hk. unfold shuffled, singlelane_shuffle, crosslane_shuffle.
  destruct (_ <=? 16); apply lookup_app_l; rewrite length_shuffle; lia.
Qed.

Lemma land_byte (x : Z) : 0 ≤ x < 2 ^ 8 → Z.land x 255 = x.
Proof. intros Hx. rewrite (land_ones_mod x 8) by done. by apply Z.mod_small. Qed.

Lemma shuffled_lookup (c : DecompressionConstants) (data : list Z) (i q : Z) :
  length (shuffle_control_l c) = 16%nat → length data = 32%nat →
  Forall (fun b => 0 ≤ b < 2 ^ 8) data → 0 ≤ i < 8 → 0 ≤ q < 4 → 0 ≤ source (entry_size c) i q →
  source_ok c i q = true →
  ∃ b, shuffled c data !! Z.to_nat (4 * i + q) = Some b ∧
    data !! Z.to_nat (source (entry_size c) i q) = Some b.
Proof.
  intros Hl Hdata Hb Hi Hq Hs Hok. unfold source_ok in Hok. set (src := source _ i q) in *.
  destruct (Z.ltb_spec i 4) as [Hi4|Hi4].
  { rewrite andb_true_iff, bool_decide_eq_true in Hok. destruct Hok as [Hk Hs16].
    destruct (lookup_lt_is_Some_2 data (Z.to_nat src)) as [b Hbs]; [lia|].
    exists b. split; [|done]. rewrite shuffled_low by (done || lia).
    rewrite (shuffle_lookup _ _ _ src) by (done || lia). unfold low_lane.
    rewrite lookup_take_lt, Hbs by lia. done. }
  set (k := (Z.to_nat (4 * i + q) - 16)%nat) in *. unfold shuffled.
  destruct (entry_size c <=? 16).
  - rewrite andb_true_iff, bool_decide_eq_true in Hok. destruct Hok as [Hk Hs16].
    destruct (lookup_lt_is_Some_2 data (Z.to_nat src)) as [b Hbs]; [lia|].
    exists b. split; [|done]. unfold singlelane_shuffle.
    rewrite lookup_app_r by (rewrite length_shuffle; lia).
    rewrite length_shuffle, Hl. fold k.
    rewrite (shuffle_lookup _ _ _ src) by (done || lia). unfold low_lane.
    rewrite lookup_take_lt, Hbs by lia. done.
  - rewrite !andb_true_iff, !bool_decide_eq_true in Hok. destruct Hok as [[[Hk Hs32] Hcrop] Hinv].
    destruct (lookup_lt_is_Some_2 data (Z.to_nat src)) as [b Hbs]; [lia|].
    exists b. split; [|done]. unfold crosslane_shuffle.
    rewrite lookup_app_r by (rewrite length_shuffle; lia).
    rewrite length_shuffle, Hl. fold k.
    unfold or_bytes, and_bytes. rewrite !lookup_zip_with, Hcrop, Hinv.
    assert (Hmod : 0 ≤ src mod 16 < 16) by (by apply Z.mod_pos_bound).
    rewrite !(shuffle_lookup _ _ _ (src mod 16)) by done. cbn.
    pose proof (Forall_lookup_1 _ _ _ _ Hb Hbs) as Hbr. cbn in Hbr. f_equal.
    unfold low_lane, high_lane. destruct (Z.ltb_spec src 16).
    + rewrite Z.land_0_r, Z.lor_0_r. rewrite Z.mod_small by lia.
      rewrite lookup_take_lt, Hbs by lia. by apply land_byte.
    + rewrite Z.land_0_r, Z.lor_0_l, lookup_drop.
      replace (16 + Z.to_nat (src mod 16))%nat with (Z.to_nat src) by dlia.
      rewrite Hbs. by apply land_byte.
Qed.

(** ** Lanes as fields *)
Lemma dwords_lookup (n : nat) : ∀ (v : list Z) (i : nat), (i < n)%nat →
  dwords n v !! i =
  Some (default 0 (v !! (4 * i)%nat) + 2 ^ 8 * default 0 (v !! (4 * i + 1)%nat) +
        2 ^ 16 * default 0 (v !! (4 * i + 2)%nat) + 2 ^ 24 * default 0 (v !! (4 * i + 3)%nat)).
Proof.
  induction n as [|n IH]; intros v i Hi; [lia|]. cbn [dwords]. destruct i as [|i].
  - done.
  - cbn [lookup list_lookup]. change (list_lookup i (dwords n (drop 4 v))) with (dwords n (drop 4 v) !! i).
    rewrite IH by lia. rewrite !lookup_drop.
    by replace (4 + 4 * i)%nat with (4 * S i)%nat by lia;
      replace (4 + (4 * i + 1))%nat with (4 * S i + 1)%nat by lia;
      replace (4 + (4 * i + 2))%nat with (4 * S i + 2)%nat by lia;
      replace (4 + (4 * i + 3))%nat with (4 * S i + 3)%nat by lia.
Qed.

Definition byte_of (v : list Z) (k : Z) : Z := default 0 (v !! Z.to_nat k).

Lemma dword_bit (b0 b1 b2 b3 q r : Z) :
  0 ≤ b0 < 2 ^ 8 → 0 ≤ b1 < 2 ^ 8 → 0 ≤ b2 < 2 ^ 8 → 0 ≤ b3 < 2 ^ 8 → 0 ≤ q < 4 → 0 ≤ r < 8 →
  Z.testbit (b0 + 2 ^ 8 * b1 + 2 ^ 16 * b2 + 2 ^ 24 * b3) (r + 8 * q) =
  Z.testbit (if q =? 0 then b0 else if q =? 1 then b1 else if q =? 2 then b2 else b3) r.
Proof.
  intros H0 H1 H2 H3 Hq Hr. rewrite <- Z.div_pow2_bits by lia.
  rewrite <- (Z.mod_pow2_bits_low _ 8) by lia. f_equal.
  assert (q = 0 ∨ q = 1 ∨ q = 2 ∨ q = 3) as [-> | [-> | [-> | ->]]] by lia; cbn [Z.eqb Pos.eqb];
    [change (2 ^ (8 * 0)) with 1|change (2 ^ (8 * 1)) with 256
    |change (2 ^ (8 * 2)) with 65536|change (2 ^ (8 * 3)) with 16777216]; dlia.
Qed.

Definition is_byte (b : Z) : Prop := 0 ≤ b < 2 ^ 8.

Lemma masked_byte (x : Z) : is_byte (Z.land x 255).
Proof. unfold is_byte. rewrite (land_ones_mod x 8) by done. by apply Z.mod_pos_bound. Qed.

Lemma land_is_byte (x y : Z) : is_byte x → is_byte (Z.land x y).
Proof.
  intros Hx. rewrite <- (land_byte x Hx), <- Z.land_assoc, (Z.land_comm 255), Z.land_assoc.
  apply masked_byte.
Qed.

Lemma lor_is_byte (x y : Z) : is_byte x → is_byte y → is_byte (Z.lor x y).
Proof.
  intros Hx Hy. rewrite <- (land_byte x Hx), <- (land_byte y Hy), <- Z.land_lor_distr_l.
  apply masked_byte.
Qed.

Lemma default_byte (l : list Z) (k : nat) : Forall is_byte l → is_byte (default 0 (l !! k)).
Proof.
  intros Hl. destruct (l !! k) as [b|] eqn:E; cbn; [|unfold is_byte; lia].
  by apply (Forall_lookup_1 _ _ _ _ Hl E).
Qed.

Lemma shuffle_bytes (a control : list Z) :
  Forall is_byte a → Forall is_byte (_mm_shuffle_epi8 a control).
Proof.
  intros Ha. apply Forall_fmap, Forall_forall. intros c _. cbn.
  destruct (128 <=? c); [unfold is_byte; lia|]. by apply default_byte.
Qed.

Lemma zip_bytes (f : Z → Z → Z) (a b : list Z) :
  (∀ x y, is_byte x → is_byte y → is_byte (f x y)) →
  Forall is_byte a → Forall is_byte b → Forall is_byte (zip_with f a b).
Proof.
  intros Hf Ha Hb. apply Forall_lookup. intros k z Hz.
  apply lookup_zip_with_Some in Hz as (x & y & -> & Hx & Hy).
  apply Hf; [by apply (Forall_lookup_1 _ _ _ _ Ha Hx)|by apply (Forall_lookup_1 _ _ _ _ Hb Hy)].
Qed.

Lemma and_is_bytes (a b : list Z) : Forall is_byte a → Forall is_byte (and_bytes a b).
Proof.
  intros Ha. apply Forall_lookup. intros k z Hz.
  apply lookup_zip_with_Some in Hz as (x & y & -> & Hx & _).
  apply land_is_byte. by apply (Forall_lookup_1 _ _ _ _ Ha Hx).
Qed.

Lemma shuffled_bytes (c : DecompressionConstants) (data : list Z) :
  Forall is_byte data → Forall is_byte (shuffled c data).
Proof.
  intros Hd. unfold shuffled, singlelane_shuffle, crosslane_shuffle, low_lane, high_lane.
  destruct (_ <=? 16); apply Forall_app; split.
  - by apply shuffle_bytes, Forall_take.
  - by apply shuffle_bytes, Forall_take.
  - by apply shuffle_bytes, Forall_take.
  - apply zip_bytes; [exact lor_is_byte| |].
    + by apply and_is_bytes, shuffle_bytes, Forall_take.
    + by apply and_is_bytes, shuffle_bytes, Forall_drop.
Qed.

(** Bit [r] of byte [q] of a lane, with [default 0] for what is outside. *)
Lemma lane_bit (v : list Z) (i : nat) (q r : Z) (x : Z) :
  Forall is_byte v → (i < 8)%nat → dwords 8 v !! i = Some x → 0 ≤ q < 4 → 0 ≤ r < 8 →
  Z.testbit x (r + 8 * q) = Z.testbit (byte_of v (4 * Z.of_nat i + q)) r.
Proof.
  intros Hv Hi Hx Hq Hr. rewrite dwords_lookup in Hx by done. injection Hx as <-.
  rewrite dword_bit by (done || by apply default_byte). unfold byte_of. f_equal.
  assert (q = 0 ∨ q = 1 ∨ q = 2 ∨ q = 3) as [-> | [-> | [-> | ->]]] by lia;
    cbn [Z.eqb Pos.eqb]; repeat f_equal; lia.
Qed.

Lemma load_lanes (d : list Z) (base vb : Z) (c : DecompressionConstants) :
  words_wf 32 d → 0 ≤ base → 8 * (base + 32) ≤ bits_of 32 d → 1 ≤ vb ≤ 18 →
  ConstantsSet vb = Ok c →
  ∃ lanes, load_with_decompression d base c = Ok lanes ∧ length lanes = 8%nat ∧
    ∀ i x, lanes !! i = Some x → ∀ j, 0 ≤ j →
      Z.testbit x j = (j <? vb) && bit 32 d (8 * base + Z.of_nat i * vb + j).
Proof.
  intros Hd Hbase Hsz Hvb Hc.
  destruct (constants_spec vb Hvb) as (c' & Hc' & He & Hm & Hl & Hh & Ha & Hsrc).
  rewrite Hc in Hc'. injection Hc' as <-.
  unfold load_with_decompression.
  destruct (load_bytes_spec d 32 base Hd Hbase) as (data & -> & Hlen & Hb); [lia|]. cbn [rbind].
  fold (shuffled c data). rewrite Hm, Ha.
  assert (Hbytes : Forall is_byte data).
  { apply Forall_lookup. intros k b Hk. by apply (Hb k b Hk). }
  eexists. split; [reflexivity|]. split.
  { unfold _mm256_srlv_epi32. by rewrite length_fmap, length_zip_with, length_fmap, length_range. }
  intros i x Hx j Hj. rewrite list_lookup_fmap in Hx.
  apply fmap_Some in Hx as (y & Hy & ->). unfold _mm256_srlv_epi32 in Hy.
  apply lookup_zip_with_Some in Hy as (w & s & -> & Hw & Hs).
  rewrite list_lookup_fmap in Hs. apply fmap_Some in Hs as (i' & Hi' & ->).
  pose proof (lookup_lt_Some _ _ _ Hi') as Hi8. rewrite length_range in Hi8.
  rewrite range_lookup in Hi' by done. injection Hi' as <-.
  set (P := Z.of_nat i * vb). assert (Hsh : 0 ≤ P mod 8 < 8) by (by apply Z.mod_pos_bound).
  replace (P mod 8 <? 32) with true by lia.
  rewrite Z.land_spec, Z.shiftr_spec by lia.
  destruct (Z.ltb_spec j vb) as [Hjv|Hjv].
  2: { rewrite Z.ones_spec_high by lia. by rewrite andb_false_r. }
  rewrite Z.ones_spec_low, andb_true_r by lia. cbn [andb].
  assert (HP : 0 ≤ P) by (unfold P; lia).
  set (q := (j + P mod 8) / 8). set (r := (j + P mod 8) mod 8).
  assert (Hqr : 0 ≤ q < 4 ∧ 0 ≤ r < 8 ∧ j + P mod 8 = r + 8 * q ∧ P / 8 + q = (P + j) / 8 ∧
    r = (P + j) mod 8) by (unfold q, r; dlia).
  destruct Hqr as (Hq & Hr & -> & HPq & HPr).
  rewrite (lane_bit (shuffled c data) i q r w) by (done || lia || by apply shuffled_bytes).
  assert (Hle : source vb (Z.of_nat i) q ≤ ((Z.of_nat i + 1) * vb - 1) / 8).
  { unfold source. fold P. rewrite HPq. apply Z.div_le_mono; [done|]. unfold P. lia. }
  destruct (shuffled_lookup c data (Z.of_nat i) q) as (b & Hsb & Hdb);
    [done|done|done|lia|lia|rewrite He; unfold source; fold P; dlia|apply Hsrc; done || lia|].
  unfold byte_of. rewrite Hsb. cbn [from_option id]. rewrite He in Hdb.
  destruct (Hb _ _ Hdb) as [_ ->]; [|done]. f_equal.
  unfold source. fold P. rewrite HPq. dlia.
Qed.

(** ** Masks *)
Ltac eight_bools l :=
  do 8 (destruct l as [|[] l]; [discriminate|..]); (destruct l as [|? ?]; [|discriminate]).

Lemma movemask_negb (l : list bool) :
  length l = 8%nat → Z.lxor (movemask l) 255 = movemask (negb <$> l).
Proof. intros H. eight_bools l; vm_compute; reflexivity. Qed.

Lemma movemask_bits (l : list bool) (j : nat) :
  Z.testbit (movemask l) (Z.of_nat j) = default false (l !! j).
Proof.
  revert j. induction l as [|b l IH]; intros j; cbn [movemask].
  - by rewrite Z.bits_0.
  - destruct j as [|j].
    + change (Z.of_nat 0) with 0. apply Z.add_b2z_double_bit0.
    + replace (Z.of_nat (S j)) with (Z.succ (Z.of_nat j)) by lia. cbn [lookup list_lookup].
      rewrite <- IH, Z.add_comm. apply Z.testbit_succ_r. lia.
Qed.

Lemma movemask_range (l : list bool) : 0 ≤ movemask l < 2 ^ Z.of_nat (length l).
Proof.
  induction l as [|b l IH]; cbn [movemask length]; [done|].
  replace (Z.of_nat (S (length l))) with (Z.succ (Z.of_nat (length l))) by lia.
  rewrite Z.pow_succ_r by lia. destruct b; cbn [Z.b2z]; lia.
Qed.

(** The positions of the set lanes. *)
Definition positions (l : list bool) : list Z :=
  filter (fun k => default false (l !! Z.to_nat k) = true) (range 8).

(** [permutation] puts the set lanes first, in order. *)
Lemma permutation_spec (l : list bool) :
  length l = 8%nat →
  length (permutation (movemask l)) = 8%nat ∧
  popcnt 32 (movemask l) = Z.of_nat (length (positions l)) ∧
  take (length (positions l)) (permutation (movemask l)) = positions l.
Proof. intros H. eight_bools l; vm_compute; repeat split; reflexivity. Qed.

(** ** Predicates *)
Lemma zip_with_replicate_l' (f : Z → Z → bool) (x : Z) (l : list Z) :
  zip_with f (replicate (length l) x) l = (fun y => f x y) <$> l.
Proof. induction l as [|y l IH]; cbn; [done|]. by rewrite IH. Qed.

Lemma zip_with_replicate_r' (f : Z → Z → bool) (x : Z) (l : list Z) :
  zip_with f l (replicate (length l) x) = (fun y => f y x) <$> l.
Proof. induction l as [|y l IH]; cbn; [done|]. by rewrite IH. Qed.

Lemma zip_with_fmap_same {A} (f g : A → bool) (l : list A) :
  zip_with orb (f <$> l) (g <$> l) = (fun x => f x || g x) <$> l.
Proof. induction l as [|y l IH]; cbn; [done|]. by rewrite IH. Qed.

Lemma s32_small (x : Z) : x < 2 ^ 31 → s32 x = x.
Proof. intros Hx. unfold s32. by replace (x <? 2 ^ 31) with true by lia. Qed.

Lemma range_predicate (data : list Z) (r : RangeOperation) :
  length data = 8%nat → Forall (fun x => x < 2 ^ 31) data →
  range_start r < 2 ^ 31 → range_end r < 2 ^ 31 →
  apply_predicate data (AVXInRange (range_start r) (range_end r)) =
  Ok (movemask (in_range r <$> data)).
Proof.
  intros Hl Hd Hs He. cbn [apply_predicate]. unfold _mm256_cmpgt_epi32. rewrite <- Hl.
  rewrite zip_with_replicate_l', zip_with_replicate_r', zip_with_fmap_same.
  rewrite movemask_negb by (by rewrite length_fmap). rewrite <- list_fmap_compose. do 2 f_equal.
  apply list_fmap_ext. intros k x Hx. pose proof (Forall_lookup_1 _ _ _ _ Hd Hx) as Hx'. cbn in Hx'.
  cbn. rewrite !s32_small by done. unfold in_range.
  rewrite negb_orb, <- !Z.leb_antisym. done.
Qed.

Lemma list_lanes (lane : Z → result bool) (q : Z → bool) (data : list Z) : ∀ acc,
  Forall (fun x => lane x = Ok (q x)) data →
  rfold (fun acc x => let! b := lane x in Ok (acc ++ [b])) acc data = Ok (acc ++ (q <$> data)).
Proof.
  induction data as [|x data IH]; intros acc H; cbn [rfold]; [by rewrite app_nil_r|].
  apply Forall_cons in H as [Hx H]. rewrite Hx. cbn [rbind]. rewrite IH by done.
  by rewrite <- app_assoc.
Qed.

Lemma list_predicate (data : list Z) (max_index : Z) (list : bit_vector_view) (q : Z → bool) :
  Forall (fun x => in_list_lane max_index list x = Ok (q x)) data →
  apply_predicate data (AVXInList max_index list) = Ok (movemask (q <$> data)).
Proof. intros H. cbn [apply_predicate]. by rewrite (list_lanes _ q) by done. Qed.

(** ** Stores *)
Lemma store_words_spec (l : list Z) : ∀ (d : list Z) (i : nat),
  (i + length l ≤ length d)%nat →
  store_words d (Z.of_nat i) l = Ok (take i d ++ l ++ drop (i + length l) d).
Proof.
  induction l as [|w l IH]; intros d i Hi; cbn [store_words length].
  - by rewrite Nat.add_0_r, app_nil_l, take_drop.
  - cbn in Hi. rewrite vec_set_Ok by lia. cbn [rbind]. rewrite Nat2Z.id.
    replace (Z.of_nat i + 1) with (Z.of_nat (S i)) by lia.
    rewrite IH by (rewrite length_insert; lia). f_equal.
    rewrite (take_S_r _ i w) by (apply list_lookup_insert_eq; lia).
    rewrite take_insert_ge, drop_insert_lt by lia. rewrite <- app_assoc. cbn [app].
    by replace (S i + length l)%nat with (i + S (length l))%nat by lia.
Qed.

Lemma store_byte_spec (d : list Z) (k v : Z) :
  words_wf 32 d → 0 ≤ k → 8 * k + 8 ≤ bits_of 32 d → is_byte v →
  ∃ d', store_byte d k v = Ok d' ∧ words_wf 32 d' ∧ length d' = length d ∧
    ∀ p, 0 ≤ p → bit 32 d' p = if p / 8 =? k then Z.testbit v (p mod 8) else bit 32 d p.
Proof.
  intros Hd Hk Hsz Hv. unfold bits_of in Hsz. unfold store_byte.
  destruct (lookup_lt_is_Some_2 d (Z.to_nat (k / 4))) as [w Hw]; [dlia|].
  rewrite (proj2 (vec_at_Ok _ (k / 4) w)) by (split; [dlia|done]). cbn [rbind].
  rewrite vec_set_Ok by dlia. eexists. split; [reflexivity|].
  assert (Hs : 0 ≤ 8 * (k mod 4) ≤ 24) by dlia. set (s := 8 * (k mod 4)) in *.
  pose proof (Forall_lookup_1 _ _ _ _ Hd Hw) as Hwr. cbn in Hwr.
  assert (Hvs : 0 ≤ Z.shiftl v s < 2 ^ 32).
  { rewrite shiftl_mul by lia. pose proof (pow2_pos s ltac:(lia)).
    assert (2 ^ s ≤ 2 ^ 24) by (apply Z.pow_le_mono_r; lia). unfold is_byte in Hv. nia. }
  assert (Hm0 : 0 ≤ Z.lxor (Z.shiftl 255 s) (2 ^ 32 - 1)).
  { apply Z.lxor_nonneg. rewrite Z.shiftl_nonneg. done. }
  assert (Hl : 0 ≤ Z.land w (Z.lxor (Z.shiftl 255 s) (2 ^ 32 - 1)) < 2 ^ 32).
  { split; [apply Z.land_nonneg; lia|]. apply (below_bits 32 (or_introl eq_refl)). intros n Hn.
    by rewrite Z.land_spec, (testbit_above w 32 n) by (done || lia). }
  split; [apply Forall_insert; [done|]; split; [apply Z.lor_nonneg; lia|];
          apply (lor_below 32 (or_introl eq_refl)); done|].
  split; [apply length_insert|]. intros p Hp. unfold bit.
  destruct (Z.eqb_spec (p / 32) (k / 4)) as [E|Hne].
  2: { rewrite list_lookup_insert_ne by dlia. by replace (p / 8 =? k) with false by dlia. }
  rewrite E, list_lookup_insert_eq, Hw by dlia. cbn [from_option id].
  assert (Hpm : 0 ≤ p mod 32 < 32) by dlia.
  rewrite Z.lor_spec, Z.land_spec, Z.lxor_spec, !Z.shiftl_spec by lia.
  change (2 ^ 32 - 1) with (Z.ones 32). rewrite (Z.ones_spec_low 32) by lia.
  change 255 with (Z.ones 8). destruct (Z.eqb_spec (p / 8) k) as [E8|Hne8].
  - assert (Eb : p mod 32 - s = p mod 8) by (unfold s; dlia). rewrite Eb.
    rewrite Z.ones_spec_low by dlia. cbn. by rewrite andb_false_r.
  - assert (Hout : p mod 32 - s < 0 ∨ 8 ≤ p mod 32 - s) by (unfold s; dlia).
    destruct Hout as [Hout|Hout].
    + rewrite !(Z.testbit_neg_r _ (p mod 32 - s)) by lia. cbn. by rewrite andb_true_r, orb_false_r.
    + rewrite Z.ones_spec_high by lia. rewrite (testbit_above v 8) by (done || lia). cbn.
      by rewrite andb_true_r, orb_false_r.
Qed.

(** The rows selected among the first [n]. *)
Definition selected (sel : Z → bool) (n : Z) : list Z := filter (fun i => sel i = true) (range n).

Definition block_lanes (sel : Z → bool) (b : Z) : list bool := (fun k => sel (8 * b + k)) <$> range 8.

Lemma range_app (n m : Z) : 0 ≤ n → 0 ≤ m → range (n + m) = range n ++ ((fun k => n + k) <$> range m).
Proof.
  intros Hn Hm. unfold range. rewrite Z2Nat.inj_add, seq_app, fmap_app by done. f_equal.
  rewrite Nat.add_0_l, <- (Nat.add_0_r (Z.to_nat n)), <- fmap_add_seq. 
  rewrite <- !list_fmap_compose. apply list_fmap_ext. intros k x _. cbn. lia.
Qed.

Lemma filter_map_Z (f : Z → Z) (P : Z → bool) (l : list Z) :
  filter (fun x => P x = true) (f <$> l) = f <$> filter (fun x => P (f x) = true) l.
Proof.
  induction l as [|x l IH]; [done|]. rewrite fmap_cons, !filter_cons, IH.
  destruct (P (f x)); [by rewrite !decide_True|by rewrite !decide_False].
Qed.

Lemma selected_block (sel : Z → bool) (b : Z) :
  0 ≤ b → selected sel (8 * (b + 1)) =
          selected sel (8 * b) ++ ((fun k => 8 * b + k) <$> positions (block_lanes sel b)).
Proof.
  intros Hb. unfold selected. replace (8 * (b + 1)) with (8 * b + 8) by lia.
  rewrite range_app, filter_app by lia. f_equal. unfold positions.
  rewrite filter_map_Z. reflexivity.
Qed.

Lemma selected_length (sel : Z → bool) (n : Z) : Z.of_nat (length (selected sel n)) ≤ Z.max 0 n.
Proof.
  unfold selected. pose proof (length_filter (fun i => sel i = true) (range n)).
  rewrite length_range in *. lia.
Qed.

Lemma permuted_indices (base : Z) (l : list bool) :
  0 ≤ base → base + 8 ≤ 2 ^ 32 →
  (fun p => default 0 (((fun k => u32 (base + k)) <$> range 8) !! Z.to_nat (Z.land p 7)))
    <$> positions l = (fun k => base + k) <$> positions l.
Proof.
  intros Hb Hov. apply list_fmap_ext. intros j p Hp.
  apply list_elem_of_lookup_2, list_elem_of_filter in Hp as [_ Hp%elem_of_range].
  rewrite (land_ones_mod p 3) by done. rewrite Z.mod_small by lia.
  rewrite list_lookup_fmap, range_lookup by lia. cbn [fmap option_fmap option_map from_option id].
  rewrite Z2Nat.id by lia. unfold u32. rewrite Z.mod_small; lia.
Qed.

Lemma store_indices_spec (base : Z) (l : list bool) (result : list Z) (out : nat) :
  length l = 8%nat → 0 ≤ base → base + 8 ≤ 2 ^ 32 → (out + 8 ≤ length result)%nat →
  ∃ result', store_indices base (movemask l) result (Z.of_nat out) =
               Ok (result', Z.of_nat (length (positions l))) ∧
    length result' = length result ∧
    take (out + length (positions l)) result' =
      take out result ++ ((fun k => base + k) <$> positions l).
Proof.
  intros Hl Hb Hov Hout. unfold store_indices.
  destruct (permutation_spec l Hl) as (Hpl & -> & Hpt).
  set (f := fun p => default 0 _). rewrite store_words_spec by (rewrite length_fmap, Hpl; done).
  cbn [rbind]. eexists. split; [reflexivity|]. rewrite length_fmap, Hpl. split.
  - rewrite !length_app, length_take, length_fmap, length_drop, Hpl. lia.
  - rewrite take_app_add' by (rewrite length_take; lia). f_equal.
    assert (Hle : (length (positions l) ≤ 8)%nat).
    { pose proof (f_equal length Hpt) as H. rewrite length_take in H. lia. }
    rewrite take_app_le by (rewrite length_fmap, Hpl; done).
    rewrite <- fmap_take, Hpt. by apply permuted_indices.
Qed.

Section blocks.
Context (column : bit_compressed) (p : predicate) (c : DecompressionConstants).
Context (sel : Z → bool) (N : Z).
Context (HN : 0 ≤ N) (HN32 : 8 * N ≤ 2 ^ 32).
(** The mask of block [b] has the selected rows of the block. *)
Context (Hblock : ∀ b, 0 ≤ b < N →
  ∃ data, load_with_decompression (data_ column) (value_bits_ column * b) c = Ok data ∧
    apply_predicate data p = Ok (movemask (block_lanes sel b))).

Lemma length_block_lanes (b : Z) : length (block_lanes sel b) = 8%nat.
Proof. by unfold block_lanes; rewrite length_fmap, length_range. Qed.

Lemma scan_blocks_iv (n : nat) : ∀ (b : Z) (result : list Z),
  0 ≤ b → b + Z.of_nat n = N → 8 * N ≤ Z.of_nat (length result) →
  take (length (selected sel (8 * b))) result = selected sel (8 * b) →
  ∃ result',
    scan_blocks store_indices n column p c (8 * b) (value_bits_ column * b)
      (Z.of_nat (length (selected sel (8 * b)))) result =
    Ok (result', Z.of_nat (length (selected sel (8 * N)))) ∧ length result' = length result ∧
    take (length (selected sel (8 * N))) result' = selected sel (8 * N).
Proof.
  induction n as [|n IH]; intros b result Hb Hn Hlen Ht; cbn [scan_blocks].
  { replace N with b by lia. by exists result. }
  destruct (Hblock b) as (data & -> & Hmask); [lia|]. cbn [rbind]. rewrite Hmask. cbn [rbind].
  pose proof (selected_length sel (8 * b)) as Hcount.
  destruct (store_indices_spec (8 * b) (block_lanes sel b) result (length (selected sel (8 * b))))
    as (r1 & -> & Hl1 & Ht1); [apply length_block_lanes|lia|lia|lia|]. cbn [rbind].
  pose proof (selected_block sel b Hb) as Hsel.
  assert (Hs : length (selected sel (8 * (b + 1))) =
    (length (selected sel (8 * b)) + length (positions (block_lanes sel b)))%nat)
    by (rewrite Hsel, length_app, length_fmap; done).
  destruct (IH (b + 1) r1) as (r' & Hr' & Hl' & Ht'); [lia|lia|lia| |].
  { rewrite Hs, Ht1, Ht, Hsel. done. }
  exists r'. split; [|split; [congruence|done]]. rewrite <- Hr', Hs. unfold block_size. f_equal; lia.
Qed.

Lemma scan_blocks_bv (n : nat) : ∀ (b : Z) (d : list Z),
  0 ≤ b → b + Z.of_nat n = N → words_wf 32 d → 8 * N ≤ bits_of 32 d →
  (∀ i, 0 ≤ i < 8 * b → bit 32 d i = sel i) →
  ∃ d', scan_blocks store_bits n column p c (8 * b) (value_bits_ column * b) b d = Ok (d', N) ∧
    words_wf 32 d' ∧ length d' = length d ∧ ∀ i, 0 ≤ i < 8 * N → bit 32 d' i = sel i.
Proof.
  induction n as [|n IH]; intros b d Hb Hn Hd Hlen Hbits; cbn [scan_blocks].
  { replace N with b by lia. by exists d. }
  destruct (Hblock b) as (data & -> & Hmask); [lia|]. cbn [rbind]. rewrite Hmask. cbn [rbind].
  unfold store_bits at 1.
  destruct (store_byte_spec d b (movemask (block_lanes sel b)) Hd Hb)
    as (d1 & -> & Hd1 & Hl1 & Hbit1); [lia| |].
  { pose proof (movemask_range (block_lanes sel b)) as Hr. by rewrite length_block_lanes in Hr. }
  cbn [rbind]. destruct (IH (b + 1) d1) as (d' & Hd' & Hw & Hl' & Hbit');
    [lia|lia|done|unfold bits_of in *; by rewrite Hl1| |].
  - intros i Hi. rewrite Hbit1 by lia. destruct (Z.eqb_spec (i / 8) b) as [E|Hne].
    + assert (Hm : 0 ≤ i mod 8 < 8) by dlia.
      rewrite <- (Z2Nat.id (i mod 8)) by lia. rewrite movemask_bits. unfold block_lanes.
      rewrite list_lookup_fmap, range_lookup by lia. cbn [fmap option_fmap option_map from_option id].
      f_equal. dlia.
    + apply Hbits. dlia.
  - exists d'. split; [|split; [done|split; [congruence|done]]].
    rewrite <- Hd'. unfold block_size. f_equal; lia.
Qed.
End blocks.

(** ** Columns *)
Lemma set_value_shape (c c' : bit_compressed) (i v : Z) :
  set_value 32 c i v = Ok c' →
  value_bits_ c' = value_bits_ c ∧ length (data_ c') = length (data_ c).
Proof.
  assert (H : ∀ d k x d', or_word d k x = Ok d' → length d' = length d).
  { intros d k x d' Hd. unfold or_word in Hd. inv_result. unfold vec_set in Hd.
    destruct (_ && _); [|done]. injection Hd as <-. apply length_insert. }
  unfold set_value. destruct (in_storage_bit_position _ _) as [q s].
  destruct (_ <? _); intros Hs; inv_result; cbn [data_ set_data value_bits_]; (split; [done|]).
  - by apply (H _ _ _ _ E).
  - by rewrite (H _ _ _ _ E0), (H _ _ _ _ E).
Qed.

Lemma set_values_shape (l : list Z) : ∀ (c c' : bit_compressed) (i : Z),
  set_values 32 c i l = Ok c' →
  value_bits_ c' = value_bits_ c ∧ length (data_ c') = length (data_ c).
Proof.
  induction l as [|v l IH]; intros c c' i H; cbn [set_values] in H; inv_result; [done|].
  destruct (IH _ _ _ H) as [-> ->]. by apply (set_value_shape _ _ _ _ E).
Qed.

(** A packed column has [EXTRA_BITS] bits behind its last value. *)
Lemma packed_bits (vb : Z) (l : list Z) (c : bit_compressed) :
  1 ≤ vb < 32 → vb * Z.of_nat (length l) < 2 ^ 63 → compressed_vector_of 32 vb l = Ok c →
  value_bits_ c = vb ∧ vb * Z.of_nat (length l) + EXTRA_BITS ≤ bits_of 32 (data_ c).
Proof.
  intros Hvb Hov Hc. unfold compressed_vector_of in Hc. inv_result.
  unfold bits_of. destruct (set_values_shape _ _ _ _ Hc) as [-> ->].
  unfold compressed_vector, compressed_vector_storage_size, make_compressed, EXTRA_BITS in *.
  replace (vb <? 32) with true in E by lia.
  assert (0 ≤ vb * Z.of_nat (length l)) by lia.
  rewrite u64_small in E by lia.
  destruct (storage_size_spec 32 (or_introl eq_refl) (vb * Z.of_nat (length l) + 512))
    as (k & Hk & Hkr & Hk0); [lia..|].
  rewrite Hk in E. cbn [rbind] in E. injection E as <-. cbn [value_bits_ data_].
  rewrite length_replicate. lia.
Qed.

Section column.
Context (column : bit_compressed) (Hc : column_wf element_bits column).
Context (Hvb : value_bits_ column ≤ 18).
Context (Hn : 0 ≤ value_counts_ column ≤ 2 ^ 32 - 8).
Context (Hextra : value_bits_ column * value_counts_ column + EXTRA_BITS ≤ bits_of 32 (data_ column)).

Definition blocks : Z := (value_counts_ column + 7) / 8.

Lemma blocks_bound : 8 * blocks - 7 ≤ value_counts_ column ≤ 8 * blocks ∧ 0 ≤ blocks.
Proof. unfold blocks. dlia. Qed.

(** The fields of the last block are all inside the storage. *)
Lemma field_bits (i : Z) :
  0 ≤ i < 8 * blocks →
  ∀ j, 0 ≤ j → Z.testbit (element column i) j =
    (j <? value_bits_ column) && bit 32 (data_ column) (i * value_bits_ column + j).
Proof.
  intros Hi. destruct Hc as [Hb Hm Hw Hs]. pose proof blocks_bound as [Hbl Hbl0].
  set (wide := mkCompressed (value_bits_ column) (8 * blocks) (value_mask_ column) (data_ column)).
  assert (Hwide : column_wf 32 wide).
  { split; cbn; [done..|]. unfold EXTRA_BITS in Hextra. unfold element_bits in *. split; [nia|lia]. }
  destruct (get_value_bits 32 (or_introl eq_refl) wide Hwide i Hi) as (v & Hv & Hbits).
  unfold element. change (get_value element_bits column i) with (get_value 32 wide i).
  by rewrite Hv.
Qed.

Lemma field_range (i : Z) :
  0 ≤ i < 8 * blocks → 0 ≤ element column i < 2 ^ value_bits_ column.
Proof.
  intros Hi. pose proof (cw_bits _ _ Hc) as Hb.
  rewrite (field_value (element column i) (element column i) (value_bits_ column)); [|lia|].
  - apply Z.mod_pos_bound, pow2_pos. lia.
  - intros j Hj. rewrite field_bits by done. by destruct (j <? _).
Qed.

Context (p : predicate) (q : Z → bool).
Context (Hp : ∀ data, length data = 8%nat →
  Forall (fun x => 0 ≤ x < 2 ^ value_bits_ column) data →
  apply_predicate data p = Ok (movemask (q <$> data))).

Lemma block_mask (c : DecompressionConstants) (b : Z) :
  ConstantsSet (value_bits_ column) = Ok c → 0 ≤ b < blocks →
  ∃ data, load_with_decompression (data_ column) (value_bits_ column * b) c = Ok data ∧
    apply_predicate data p = Ok (movemask (block_lanes (fun i => q (element column i)) b)).
Proof.
  intros Hcs Hb. pose proof (cw_bits _ _ Hc) as Hvb1. pose proof blocks_bound as [Hbl Hbl0].
  destruct (load_lanes (data_ column) (value_bits_ column * b) (value_bits_ column) c)
    as (lanes & Hl & Hlen & Hlane);
    [apply (cw_words _ _ Hc)|nia|unfold EXTRA_BITS in *; nia|lia|done|].
  exists lanes. split; [done|].
  assert (E : lanes = (fun k => element column (8 * b + k)) <$> range 8).
  { apply list_eq. intros k. rewrite list_lookup_fmap. destruct (decide (k < 8)%nat) as [Hk|Hk].
    - rewrite range_lookup by lia. cbn [fmap option_fmap option_map].
      destruct (lookup_lt_is_Some_2 lanes k) as [x Hx]; [lia|]. rewrite Hx. f_equal.
      apply Z.bits_inj'. intros j Hj. rewrite (Hlane k x Hx j Hj), field_bits by lia.
      f_equal. f_equal. lia.
    - rewrite !lookup_ge_None_2 by (rewrite ?length_range; lia). done. }
  rewrite Hp; [|done|].
  - rewrite E, <- list_fmap_compose. done.
  - rewrite E. apply Forall_fmap, Forall_range. intros k Hk. cbn. apply field_range. lia.
Qed.

Lemma avx2_iv (c : DecompressionConstants) (out : list Z) :
  ConstantsSet (value_bits_ column) = Ok c → 8 * blocks ≤ Z.of_nat (length out) →
  let rows := selected (fun i => q (element column i)) (8 * blocks) in
  ∃ out', scan_avx2_impl store_indices column p out c = Ok (out', Z.of_nat (length rows)) ∧
    length out' = length out ∧ take (length rows) out' = rows.
Proof.
  intros Hcs Hout rows. pose proof blocks_bound as [Hbl Hbl0].
  destruct (scan_blocks_iv column p c (fun i => q (element column i)) blocks ltac:(lia)
              (fun b => block_mask c b Hcs) (Z.to_nat blocks) 0 out) as (out' & Hs & Hl & Ht);
    [lia|lia|lia|done|].
  exists out'. split; [|done]. unfold scan_avx2_impl, block_size.
  replace ((value_counts_ column + 8 - 1) / 8) with blocks by (unfold blocks; f_equal; lia).
  rewrite !Z.mul_0_r in Hs. exact Hs.
Qed.

Lemma avx2_bv (c : DecompressionConstants) (d : list Z) :
  ConstantsSet (value_bits_ column) = Ok c → words_wf 32 d → 8 * blocks ≤ bits_of 32 d →
  ∃ d', scan_avx2_impl store_bits column p d c = Ok (d', blocks) ∧ words_wf 32 d' ∧
    length d' = length d ∧ ∀ i, 0 ≤ i < 8 * blocks → bit 32 d' i = q (element column i).
Proof.
  intros Hcs Hd Hsz. pose proof blocks_bound as [Hbl Hbl0].
  destruct (scan_blocks_bv column p c (fun i => q (element column i)) blocks
              (fun b => block_mask c b Hcs) (Z.to_nat blocks) 0 d) as (d' & Hs & Hw & Hl & Hbits);
    [lia|lia|done|done|lia|].
  exists d'. split; [|done]. unfold scan_avx2_impl, block_size.
  replace ((value_counts_ column + 8 - 1) / 8) with blocks by (unfold blocks; f_equal; lia).
  rewrite !Z.mul_0_r in Hs. exact Hs.
Qed.
End column.

(** ** The in-list predicate *)
Definition list_max_index (predicate : bit_vector_view) : Z :=
  u32 (u64 (Z.shiftr (u64 (max_value_ predicate - 1)) 5 + 1)).

Lemma list_max_index_spec (M : bit_vector_view) :
  0 ≤ max_value_ M ≤ 2 ^ 32 → list_max_index M = (max_value_ M + 31) / 32.
Proof.
  intros HM. unfold list_max_index. destruct (decide (max_value_ M = 0)) as [->|Hne]; [done|].
  rewrite (u64_small (_ - 1)), shiftr_div by lia.
  rewrite (u64_small (_ + 1)) by dlia. unfold u32. rewrite Z.mod_small by dlia. dlia.
Qed.

Lemma land_single_bit (w s : Z) :
  0 ≤ s → (Z.land w (Z.shiftl 1 s) =? Z.shiftl 1 s) = Z.testbit w s.
Proof.
  intros Hs. rewrite shiftl_mul, Z.mul_1_l by done.
  assert (E : Z.land w (2 ^ s) = if Z.testbit w s then 2 ^ s else 0).
  { apply Z.bits_inj'. intros n Hn. rewrite Z.land_spec, Z.pow2_bits_eqb by done.
    destruct (Z.eqb_spec s n) as [<-|Hne].
    - destruct (Z.testbit w s); [by rewrite Z.pow2_bits_eqb, Z.eqb_refl|by rewrite Z.bits_0].
    - rewrite andb_false_r. destruct (Z.testbit w s); [|by rewrite Z.bits_0].
      rewrite Z.pow2_bits_eqb by done. symmetry. by apply Z.eqb_neq. }
  rewrite E. pose proof (pow2_pos s Hs). destruct (Z.testbit w s); lia.
Qed.

Lemma in_list_lane_spec (pred : list Z) (pv : bit_vector_view) (x : Z) :
  bits_wf 32 pv → max_value_ pv ≤ 2 ^ 32 →
  (∀ v, 0 ≤ v → bit 32 (bits_data pv) v = bool_decide (v ∈ pred)) →
  (∀ v, v ∈ pred → 0 ≤ v < max_value_ pv) → 0 ≤ x < 2 ^ 31 →
  in_list_lane (list_max_index pv) pv x = Ok (bool_decide (x ∈ pred)).
Proof.
  intros [_ Hsz] HM Hbit Hmax Hx. unfold bits_of in Hsz. unfold in_list_lane.
  rewrite list_max_index_spec by lia. rewrite (land_ones_mod x 5) by done.
  rewrite shiftr_div by done. change (2 ^ 5) with 32. rewrite !s32_small by dlia.
  destruct (Z.ltb_spec (x / 32) ((max_value_ pv + 31) / 32)) as [Hlt|Hge].
  - destruct (lookup_lt_is_Some_2 (bits_data pv) (Z.to_nat (x / 32))) as [w Hw]; [dlia|].
    rewrite (proj2 (vec_at_Ok _ (x / 32) w)) by (split; [dlia|done]). cbn [rbind].
    rewrite land_single_bit by dlia. rewrite <- Hbit by lia. unfold bit. by rewrite Hw.
  - cbn [rbind]. rewrite land_single_bit, Z.bits_0 by dlia.
    f_equal. symmetry. apply bool_decide_false. intros Hin%Hmax. dlia.
Qed.

(** ** The runner against the reference scans *)
Section runner.
Context (column : bit_compressed) (Hc : column_wf element_bits column).
Context (Hvb : value_bits_ column ≤ 18).
Context (Hn : 0 ≤ value_counts_ column ≤ 2 ^ 32 - 8).
Context (Hextra : value_bits_ column * value_counts_ column + EXTRA_BITS ≤ bits_of 32 (data_ column)).

Lemma small_fields (data : list Z) :
  Forall (fun x => 0 ≤ x < 2 ^ value_bits_ column) data → Forall (fun x => 0 ≤ x < 2 ^ 31) data.
Proof.
  intros H. eapply Forall_impl; [exact H|]. cbn. intros x Hx. pose proof (cw_bits _ _ Hc).
  assert (2 ^ value_bits_ column ≤ 2 ^ 31) by (apply Z.pow_le_mono_r; lia). lia.
Qed.

(** A predicate of the vector code and the predicate of the reference scan. *)
Definition agree (p : predicate) (q : Z → bool) : Prop :=
  ∀ data, length data = 8%nat → Forall (fun x => 0 ≤ x < 2 ^ 31) data →
    apply_predicate data p = Ok (movemask (q <$> data)).

Lemma agree_range (r : RangeOperation) :
  range_start r < 2 ^ 31 → range_end r < 2 ^ 31 →
  agree (AVXInRange (range_start r) (range_end r)) (in_range r).
Proof.
  intros Hs He data Hl Hd. apply range_predicate; [done| |done|done].
  eapply Forall_impl; [exact Hd|]. cbn. lia.
Qed.

Lemma agree_list (pred : list Z) (pv : bit_vector_view) :
  bits_wf 32 pv → max_value_ pv ≤ 2 ^ 32 →
  (∀ v, 0 ≤ v → bit 32 (bits_data pv) v = bool_decide (v ∈ pred)) →
  (∀ v, v ∈ pred → 0 ≤ v < max_value_ pv) →
  agree (AVXInList (list_max_index pv) pv) (fun v => bool_decide (v ∈ pred)).
Proof.
  intros Hw HM Hbit Hmax data Hl Hd. apply list_predicate.
  eapply Forall_impl; [exact Hd|]. cbn. intros x Hx. by apply in_list_lane_spec.
Qed.

Context (p : predicate) (q : Z → bool) (Hp : agree p q).

(** The index vector of the runner. *)
Lemma runner_iv :
  value_counts_ column mod 8 = 0 →
  ∃ c out, ConstantsSet (value_bits_ column) = Ok c ∧
    scan_avx2_impl store_indices column p (replicate (Z.to_nat (value_counts_ column)) 0) c =
      Ok (out, Z.of_nat (length (selected (fun i => q (element column i)) (value_counts_ column)))) ∧
    take (length (selected (fun i => q (element column i)) (value_counts_ column))) out =
      selected (fun i => q (element column i)) (value_counts_ column).
Proof.
  intros Hmod. pose proof (cw_bits _ _ Hc) as Hb.
  destruct (constants_spec (value_bits_ column)) as (c & Hcs & _); [lia|].
  assert (E : 8 * blocks column = value_counts_ column) by (unfold blocks; dlia).
  destruct (avx2_iv column Hc Hvb Hn Hextra p q
              (fun data Hl Hd => Hp data Hl (small_fields data Hd)) c
              (replicate (Z.to_nat (value_counts_ column)) 0) Hcs) as (out & Ho & _ & Ht).
  { rewrite length_replicate. lia. }
  rewrite E in Ho, Ht. by exists c, out.
Qed.

(** The bit vector of the runner, for every number of values. *)
Lemma runner_bv (b0 : bit_vector_view) :
  bits_wf 32 b0 → max_value_ b0 = value_counts_ column →
  ∃ c d n, ConstantsSet (value_bits_ column) = Ok c ∧
    scan_avx2_impl store_bits column p (bits_data b0) c = Ok (d, n) ∧
    values 32 (mkBits (max_value_ b0) d) =
      Ok (selected (fun i => q (element column i)) (value_counts_ column)).
Proof.
  intros [Hbw Hbs] Hm. pose proof (cw_bits _ _ Hc) as Hb.
  destruct (constants_spec (value_bits_ column)) as (c & Hcs & _); [lia|].
  pose proof (blocks_bound column Hn) as [Hbl _]. unfold bits_of in Hbs.
  destruct (avx2_bv column Hc Hvb Hn Hextra p q
              (fun data Hl Hd => Hp data Hl (small_fields data Hd)) c (bits_data b0) Hcs Hbw)
    as (d & Hs & Hw & Hl & Hbit).
  { unfold bits_of. unfold blocks. dlia. }
  exists c, d, (blocks column). split; [done|]. split; [done|].
  rewrite (values_spec 32 (or_introl eq_refl)).
  2: { split; [done|]. cbn. unfold bits_of. by rewrite Hl. }
  cbn [max_value_ bits_data]. rewrite Hm. f_equal. unfold selected, range.
  change 0 with (Z.of_nat 0). apply (members_filter d (fun i => q (element column i))).
  intros i Hi. apply Hbit. lia.
Qed.
End runner.

(** What packing gives the AVX2 scan: a column and the set of a predictor. *)
Lemma scan_inputs (vb V : Z) (l pred : list Z) :
  1 ≤ vb ≤ 18 → Z.of_nat (length l) ≤ 2 ^ 32 - 8 → below V (2 ^ 32) pred →
  ∃ column predictor,
    compressed_vector_of element_bits vb l = Ok column ∧
    bit_vector_of element_bits V pred = Ok predictor ∧
    column_wf element_bits column ∧ value_bits_ column = vb ∧
    value_counts_ column = Z.of_nat (length l) ∧
    vb * Z.of_nat (length l) + EXTRA_BITS ≤ bits_of 32 (data_ column) ∧
    agree (AVXInList (list_max_index predictor) predictor) (fun v => bool_decide (v ∈ pred)) ∧
    (∀ e, 0 ≤ e < 2 ^ element_bits →
      contains element_bits predictor e = Ok (bool_decide (e ∈ pred))).
Proof.
  intros Hvb Hl Hpred.
  destruct (packed_values element_bits (or_introl eq_refl) vb l) as (c & Hcol & Hcw & Hn & _);
    [unfold element_bits; lia|nia|].
  destruct (packed_bits vb l c) as [Hb Hx]; [lia|nia|done|].
  destruct (bit_vector_of_spec element_bits (or_introl eq_refl) V (2 ^ 32) pred ltac:(lia) Hpred)
    as (pv & Hpv & Hpw & Hpm & Hpb & Hpi).
  exists c, pv. do 6 (split; [done|]). split.
  - apply agree_list; [done|lia|done|done].
  - intros e He. rewrite (contains_spec element_bits (or_introl eq_refl)) by (done || lia).
    rewrite Hpb by lia. f_equal. destruct (Z.ltb_spec e (max_value_ pv)) as [|Hge]; [done|].
    cbn [andb]. symmetry. apply bool_decide_false. intros Hin%Hpi. lia.
Qed.

(** ** Theorems *)

(** Property C20.  The vectorised scan into an index vector returns exactly what
    the reference scan returns, for every entry size of the decompression table,
    for range and list predicates: on a column whose length is a multiple of the
    block size and a range with bounds below [2^31], and without touching memory
    outside of the column, the predictor and the output vector. *)
Theorem avx2_index_scan_matches_reference (vb V : Z) (l pred : list Z) (r : RangeOperation) :
  1 ≤ vb ≤ 18 → Z.of_nat (length l) ≤ 2 ^ 32 - 8 → Z.of_nat (length l) mod block_size = 0 →
  Forall (fun v => 0 ≤ v < 2 ^ 32 ∧ v + 1 < 2 ^ V) pred → range_start r < 2 ^ 31 → range_end r < 2 ^ 31 →
  ∃ column predictor rows1 rows2,
    compressed_vector_of element_bits vb l = Ok column ∧
    bit_vector_of element_bits V pred = Ok predictor ∧
    AVX2Runner_range_iv column r = Ok rows1 ∧ in_range_to_iv column r = Ok rows1 ∧
    AVX2Runner_list_iv column predictor = Ok rows2 ∧ in_list_to_iv column predictor = Ok rows2.
Proof.
  intros Hvb Hl Hmod Hpred Hs He.
  destruct (scan_inputs vb V l pred Hvb Hl Hpred)
    as (c & pv & Hcol & Hpv & Hcw & Hb & Hn & Hx & Hag & Hcont).
  rewrite <- Hb in Hvb. rewrite <- Hn in Hl, Hmod, Hx. rewrite <- Hb in Hx at 1.
  assert (Hn' : 0 ≤ value_counts_ c ≤ 2 ^ 32 - 8) by lia.
  destruct (runner_iv c Hcw (proj2 Hvb) Hn' Hx _ _ (agree_range r Hs He) Hmod)
    as (k & out & Hk & H1 & T1).
  destruct (runner_iv c Hcw (proj2 Hvb) Hn' Hx _ _ Hag Hmod) as (k' & out' & Hk' & H2 & T2).
  eexists c, pv, _, _. split; [done|]. split; [done|].
  split; [|split; [exact (scan_to_iv_spec c Hcw _ (in_range r) (fun _ _ => eq_refl))|split]].
  - unfold AVX2Runner_range_iv, scan_range_iv, in_range_scan_impl. rewrite Hk. cbn [rbind].
    rewrite H1. cbn [rbind]. by rewrite Nat2Z.id, T1.
  - unfold AVX2Runner_list_iv, scan_list_iv, in_range_list_impl. rewrite Hk'. cbn [rbind].
    fold (list_max_index pv). rewrite H2. cbn [rbind]. by rewrite Nat2Z.id, T2.
  - exact (scan_to_iv_spec c Hcw _ (fun v => bool_decide (v ∈ pred)) Hcont).
Qed.

Lemma avx2_index_scan_matches_reference_witness : ∃ column rows,
  compressed_vector_of element_bits 17 [7; 30; 12; 0; 12; 99999; 5; 31] = Ok column ∧
  AVX2Runner_range_iv column (mkRange 7 30) = Ok rows ∧ in_range_to_iv column (mkRange 7 30) = Ok rows.
Proof.
  destruct (avx2_index_scan_matches_reference 17 32 [7; 30; 12; 0; 12; 99999; 5; 31] [12; 99999]
              (mkRange 7 30)) as (c & pv & r1 & r2 & Hc & _ & H1 & H1' & _).
  - lia.
  - cbn. lia.
  - reflexivity.
  - repeat (apply Forall_cons; split; [lia|]). by apply Forall_nil.
  - cbn. lia.
  - cbn. lia.
  - exists c, r1. split; [exact Hc|]. split; [exact H1|exact H1'].
Defined.

(** Property C21.  The vectorised scan into a bit vector sets the bits the
    reference scan sets, for a column of any length: the lanes past the end of
    the column fall behind the size of the vector and are never visited. *)
Theorem avx2_bit_scan_matches_reference (vb V : Z) (l pred : list Z) (r : RangeOperation) :
  1 ≤ vb ≤ 18 → Z.of_nat (length l) ≤ 2 ^ 32 - 8 →
  Forall (fun v => 0 ≤ v < 2 ^ 32 ∧ v + 1 < 2 ^ V) pred → range_start r < 2 ^ 31 → range_end r < 2 ^ 31 →
  ∃ column predictor a1 b1 a2 b2 rows1 rows2,
    compressed_vector_of element_bits vb l = Ok column ∧
    bit_vector_of element_bits V pred = Ok predictor ∧
    AVX2Runner_range_bv column r = Ok a1 ∧ in_range_to_bv column r = Ok b1 ∧
    values element_bits a1 = Ok rows1 ∧ values element_bits b1 = Ok rows1 ∧
    AVX2Runner_list_bv column predictor = Ok a2 ∧ in_list_to_bv column predictor = Ok b2 ∧
    values element_bits a2 = Ok rows2 ∧ values element_bits b2 = Ok rows2.
Proof.
  intros Hvb Hl Hpred Hs He.
  destruct (scan_inputs vb V l pred Hvb Hl Hpred)
    as (c & pv & Hcol & Hpv & Hcw & Hb & Hn & Hx & Hag & Hcont).
  rewrite <- Hb in Hvb. rewrite <- Hn in Hl, Hx. rewrite <- Hb in Hx at 1.
  assert (Hn' : 0 ≤ value_counts_ c ≤ 2 ^ 32 - 8) by lia.
  assert (Hcnt : 0 ≤ value_counts_ c < 2 ^ 32) by lia.
  destruct (bit_vector_spec element_bits (or_introl eq_refl) (value_counts_ c))
    as (b0 & Hb0 & Hw0 & Hm0 & _); [lia..|].
  destruct (runner_bv c Hcw (proj2 Hvb) Hn' Hx _ _ (agree_range r Hs He) b0 Hw0 Hm0)
    as (k & d1 & n1 & Hk & H1 & V1).
  destruct (runner_bv c Hcw (proj2 Hvb) Hn' Hx _ _ Hag b0 Hw0 Hm0) as (k' & d2 & n2 & Hk' & H2 & V2).
  destruct (scan_to_bv_spec c Hcw Hcnt (fun e => Ok (in_range r e)) (in_range r))
    as (b1 & Hb1 & Hw1 & Hm1 & Hbit1); [done|].
  destruct (scan_to_bv_spec c Hcw Hcnt (contains element_bits pv) _ Hcont)
    as (b2 & Hb2 & Hw2 & Hm2 & Hbit2).
  eexists c, pv, _, b1, _, b2, _, _. split; [done|]. split; [done|].
  split; [|split; [exact Hb1|split; [exact V1|split; [exact (bv_rows b1 c _ Hw1 Hm1 Hbit1)|]]]].
  - unfold AVX2Runner_range_bv, scan_range_bv, in_range_scan_impl. rewrite Hb0. cbn [rbind].
    rewrite Hk. cbn [rbind]. by rewrite H1.
  - split; [|split; [exact Hb2|split; [exact V2|
      exact (bv_rows b2 c (fun v => bool_decide (v ∈ pred)) Hw2 Hm2 Hbit2)]]].
    unfold AVX2Runner_list_bv, scan_list_bv, in_range_list_impl. rewrite Hb0. cbn [rbind].
    rewrite Hk'. cbn [rbind]. fold (list_max_index pv). by rewrite H2.
Qed.

Lemma avx2_bit_scan_matches_reference_witness : ∃ column a b rows,
  compressed_vector_of element_bits 5 [7; 30; 12; 0; 12; 9; 5; 31; 8; 1; 10] = Ok column ∧
  AVX2Runner_range_bv column (mkRange 0 12) = Ok a ∧ in_range_to_bv column (mkRange 0 12) = Ok b ∧
  values element_bits a = Ok rows ∧ values element_bits b = Ok rows.
Proof.
  destruct (avx2_bit_scan_matches_reference 5 32 [7; 30; 12; 0; 12; 9; 5; 31; 8; 1; 10] [12]
              (mkRange 0 12)) as (c & pv & a1 & b1 & a2 & b2 & r1 & r2 & Hc & _ & H1 & H1' & V1 & V1' & _).
  - lia.
  - cbn. lia.
  - repeat (apply Forall_cons; split; [lia|]). by apply Forall_nil.
  - cbn. lia.
  - cbn. lia.
  - exists c, a1, b1, r1. split; [exact Hc|]. split; [exact H1|]. split; [exact H1'|].
    split; [exact V1|exact V1'].
Defined.

(** The tail of a column is not masked: on eleven values the index
    scan reports the rows 11 to 15, which do not exist, when zero is in range, and
    the runner, whose output has eleven words, stores past its end. *)
Theorem avx2_tail_is_not_masked :
  let values := [7; 30; 12; 0; 12; 9; 5; 31; 8; 1; 10] in
  ∃ column out, compressed_vector_of element_bits 5 values = Ok column ∧
    in_range_to_iv column (mkRange 0 31) = Ok (range 11) ∧
    scan_range_iv column (mkRange 0 31) (replicate 16 0) = Ok (out, 16) ∧ out = range 16 ∧
    AVX2Runner_range_iv column (mkRange 0 31) = Err UndefinedBehaviour.
Proof.
  eexists _, _. split; [vm_compute; reflexivity|]. split; [vm_compute; reflexivity|].
  split; [vm_compute; reflexivity|]. split; vm_compute; reflexivity.
Qed.

(** Range bounds are compared as signed numbers: with the largest
    [uint32_t] as the end of the range the vectorised scan selects nothing, where
    the reference scan selects every row. *)
Theorem avx2_range_is_signed :
  ∃ column, compressed_vector_of element_bits 5 [7; 30; 12; 0; 12; 9; 5; 31] = Ok column ∧
    in_range_to_iv column (mkRange 0 (2 ^ 32 - 1)) = Ok (range 8) ∧
    AVX2Runner_range_iv column (mkRange 0 (2 ^ 32 - 1)) = Ok [].
Proof.
  eexists. split; [vm_compute; reflexivity|]. split; vm_compute; reflexivity.
Qed.
