(* ===== verification/Imdb.v ===== *)
(** * IMDB scan operations and the engine's scan

    include/pnmlib/imdb/libimdb.h and scan.h, imdb/operation/scan.{h,cpp} and the
    part of core/device/imdb/simulator_core.cpp that collects the parameters of a
    scan from the registers of a thread and runs it on the device memory.  The
    protocol between the runner and the engine is in ImdbRunner.

    The device memory is the list of its 32-bit words.  A scan reads its column and
    its predictor from the memory before it writes to the result.  The code reads
    them block by block between its writes, which is the same as long as the result
    overlaps neither; a scan where it does gives [NotModelled]. *)
From S2P Require Import Prelude Allocators Buffers BitViews Scan Avx2.

(** ** libimdb.h *)
Definition THREAD_CTRL_STATUS_MASK : Z := 1.
Definition THREAD_CTRL_OUTPUT_TYPE_MASK : Z := 2.
Definition THREAD_CTRL_START : Z := 1.
Definition THREAD_CTRL_BV : Z := 0.
Definition THREAD_CTRL_IV : Z := 2.
Definition THREAD_STATUS_BUSY : Z := 2.
Definition THREAD_COMP_MODE_ENTRY_BIT_SIZE_MASK : Z := Z.shiftl 1 5 - 1.
Definition THREAD_COMP_MODE_OPERATION_TYPE_MASK : Z := Z.shiftl 1 8.
Definition THREAD_COMP_MODE_IN_RANGE : Z := 0.
Definition THREAD_COMP_MODE_IN_LIST : Z := Z.shiftl 1 8.
Definition THREAD_MIN_OPCODE_VALUE : Z := 4.
Definition THREAD_MAX_OPCODE_VALUE : Z := 2.

(** The members of [struct ThreadCSR], less the padding. *)
Inductive reg :=
  | THREAD_CTRL | THREAD_STATUS | THREAD_ERROR | THREAD_COMP_MODE
  | THREAD_START_ADDR | THREAD_SIZE_SB
  | THREAD_MIN_VALUE | THREAD_MAX_VALUE | THREAD_MIN_OPCODE | THREAD_MAX_OPCODE
  | THREAD_RES_ADDR | THREAD_RES_INDEX_OFFSET | THREAD_RES_SIZE_SB
  | THREAD_START_TIME | THREAD_DONE_TIME
  | THREAD_INLIST_ADDR | THREAD_INLIST_SIZE | THREAD_COLUMN_OFFSET | THREAD_RSLT_LMT.

#[export] Instance reg_eq_dec : EqDecision reg.
Proof. solve_decision. Defined.

Definition ThreadCSR := reg → Z.

(** The width of a register in bits. *)
Definition reg_bits (r : reg) : Z :=
  match r with
  | THREAD_START_ADDR | THREAD_SIZE_SB | THREAD_RES_ADDR | THREAD_RES_INDEX_OFFSET
  | THREAD_RES_SIZE_SB | THREAD_INLIST_ADDR => 64
  | _ => 32
  end.

(** [ptr->r = v] *)
Definition store_reg (csr : ThreadCSR) (r : reg) (v : Z) : ThreadCSR :=
  fun r' => if decide (r = r') then v mod 2 ^ reg_bits r else csr r'.

(** ** scan.h *)
Record Column := mkColumn {
  bit_compression : Z;
  count : Z;
  column_data : Buffer.t
}.

Inductive Predicate :=
  | Range (range : RangeOperation)
  | InListPredicate (max_value : Z) (data : Buffer.t).

Record Scan := mkScan {
  column_ : Column;
  predicate_ : Predicate;
  result_ : Buffer.t;
  out_type_ : OutputType
}.

Definition valid_bit_counts : list Z := [1; 2; 3; 4; 5; 6; 7; 9; 10; 12; 16; 17; 18].

Definition validate_compression_bits (column : Column) : result unit :=
  if bool_decide (bit_compression column ∈ valid_bit_counts) then Ok ()
  else Err InvalidArguments.

Definition make_scan (column : Column) (predicate : Predicate) (result : Buffer.t)
    (out_type : OutputType) : Prelude.result Scan :=
  let! _ := validate_compression_bits column in
  Ok (mkScan column predicate result out_type).

(** ** imdb/operation/scan.cpp

    The stores of [write_registers], in program order; a store may depend on the
    registers at its time ([|=]). *)
Definition write : Type := reg * (ThreadCSR → Z).

Definition address (buf : Buffer.t) : result Z :=
  let! r := get_sequential (Buffer.device_region buf) in Ok (start r).

Definition set_predicate_info (op : Scan) : result (list write) :=
  match predicate_ op with
  | Range predicate =>
      Ok [ (THREAD_COMP_MODE, fun csr => Z.lor (csr THREAD_COMP_MODE) THREAD_COMP_MODE_IN_RANGE);
           (THREAD_MIN_VALUE, fun _ => range_start predicate);
           (THREAD_MAX_VALUE, fun _ => range_end predicate);
           (THREAD_MIN_OPCODE, fun _ => THREAD_MIN_OPCODE_VALUE);
           (THREAD_MAX_OPCODE, fun _ => THREAD_MAX_OPCODE_VALUE);
           (THREAD_INLIST_ADDR, fun _ => 0);
           (THREAD_INLIST_SIZE, fun _ => 0) ]
  | InListPredicate max_value data =>
      let! a := address data in
      Ok [ (THREAD_COMP_MODE, fun csr => Z.lor (csr THREAD_COMP_MODE) THREAD_COMP_MODE_IN_LIST);
           (THREAD_MIN_VALUE, fun _ => 0);
           (THREAD_MAX_VALUE, fun _ => 0);
           (THREAD_MIN_OPCODE, fun _ => THREAD_MIN_OPCODE_VALUE);
           (THREAD_MAX_OPCODE, fun _ => THREAD_MAX_OPCODE_VALUE);
           (THREAD_INLIST_ADDR, fun _ => a);
           (THREAD_INLIST_SIZE, fun _ => max_value) ]
  end.

Definition set_output_type (op : Scan) : result (list write) :=
  let output_flag :=
    match out_type_ op with BitVector => THREAD_CTRL_BV | IndexVector => THREAD_CTRL_IV end in
  let! a := address (result_ op) in
  Ok [ (THREAD_CTRL, fun _ => output_flag);
       (THREAD_RES_ADDR, fun _ => a);
       (THREAD_RSLT_LMT, fun _ =>
          match out_type_ op with BitVector => 0 | IndexVector => Buffer.size (result_ op) end) ].

Definition write_registers (op : Scan) : result (list write) :=
  let! a := address (column_data (column_ op)) in
  let! predicate := set_predicate_info op in
  let! output := set_output_type op in
  Ok ([ (THREAD_COMP_MODE, fun _ =>
           Z.land (bit_compression (column_ op)) THREAD_COMP_MODE_ENTRY_BIT_SIZE_MASK);
        (THREAD_START_ADDR, fun _ => a);
        (THREAD_SIZE_SB, fun _ => count (column_ op));
        (THREAD_RES_INDEX_OFFSET, fun _ => 0);
        (THREAD_COLUMN_OFFSET, fun _ => 0) ] ++ predicate ++ output).

Definition apply_write (csr : ThreadCSR) (w : write) : ThreadCSR := store_reg csr w.1 (w.2 csr).
Definition apply_writes (csr : ThreadCSR) (ws : list write) : ThreadCSR :=
  fold_left apply_write ws csr.

(** [read_registers]: the size of the result and the execution time; the
    difference of two [uint32_t]. *)
Definition read_registers (csr : ThreadCSR) : Z * Z :=
  (csr THREAD_RES_SIZE_SB, u32 (csr THREAD_DONE_TIME - csr THREAD_START_TIME)).

(** ** The scan of an engine *)

(** [virtual_address]: the words of the device memory from a byte offset. *)
Definition virtual_address (memory : list Z) (offset : Z) : result (list Z) :=
  if (0 <=? offset) && (offset mod 4 =? 0) && (offset / 4 <=? Z.of_nat (length memory))
  then Ok (drop (Z.to_nat (offset / 4)) memory)
  else Err UndefinedBehaviour.

(** The memory after a view at [offset] was overwritten. *)
Definition write_back (memory : list Z) (offset : Z) (d : list Z) : list Z :=
  let k := Z.to_nat (offset / 4) in
  take k memory ++ d ++ drop (k + length d) memory.

Inductive engine_predicate :=
  | RangePredicate (range : RangeOperation)
  | ListPredicate (addr size : Z).

Record params := mkParams {
  p_output : OutputType;
  p_predicate : engine_predicate;
  p_bit_size : Z;
  p_column_addr : Z;
  p_column_size : Z;
  p_result_addr : Z;
  p_result_limit : Z
}.

(** What [worker_job] and [dispatch_scan_operation] read from the registers. *)
Definition collect_params (csr : ThreadCSR) : params :=
  let is_index_vec :=
    Z.land (csr THREAD_CTRL) THREAD_CTRL_OUTPUT_TYPE_MASK =? THREAD_CTRL_IV in
  let is_in_list :=
    Z.land (csr THREAD_COMP_MODE) THREAD_COMP_MODE_OPERATION_TYPE_MASK =? THREAD_COMP_MODE_IN_LIST in
  mkParams
    (if is_index_vec then IndexVector else BitVector)
    (if is_in_list then ListPredicate (csr THREAD_INLIST_ADDR) (csr THREAD_INLIST_SIZE)
     else RangePredicate (mkRange (csr THREAD_MIN_VALUE) (csr THREAD_MAX_VALUE)))
    (Z.land (csr THREAD_COMP_MODE) THREAD_COMP_MODE_ENTRY_BIT_SIZE_MASK)
    (csr THREAD_START_ADDR) (csr THREAD_SIZE_SB)
    (if is_index_vec then u64 (csr THREAD_RES_ADDR + csr THREAD_RES_INDEX_OFFSET)
     else csr THREAD_RES_ADDR)
    (if is_index_vec then csr THREAD_RSLT_LMT else 0).

(** [n] words at byte address [a] and [m] words at [b] have no word in common. *)
Definition views_apart (a n b m : Z) : bool := (a / 4 + n <=? b / 4) || (b / 4 + m <=? a / 4).

Definition require_apart (a : Z) (out : list Z) (b : Z) (input : list Z) : result () :=
  if views_apart a (Z.of_nat (length out)) b (Z.of_nat (length input)) then Ok ()
  else Err NotModelled.

(** [invoke_scan] on each of the four combinations, with the result size that is
    reported: of a bit vector, the size of the column. *)
Definition run_scan (p : params) (memory : list Z) : result (list Z * Z) :=
  let! column_elems := virtual_address memory (p_column_addr p) in
  let! column := compressed_view_from_raw element_bits (p_bit_size p) column_elems (p_column_size p) in
  let! out := virtual_address memory (p_result_addr p) in
  match p_output p with
  | BitVector =>
      let! view := bit_view_from_raw element_bits out (p_column_size p) in
      let! _ := require_apart (p_result_addr p) (bits_data view) (p_column_addr p) (data_ column) in
      let! (d, _) :=
        match p_predicate p with
        | RangePredicate range => scan_range_bv column range (bits_data view)
        | ListPredicate a sz =>
            let! list_addr := virtual_address memory a in
            let! predicate := bit_view_from_raw element_bits list_addr sz in
            let! _ := require_apart (p_result_addr p) (bits_data view) a (bits_data predicate) in
            scan_list_bv column predicate (bits_data view)
        end in
      Ok (write_back memory (p_result_addr p) d, p_column_size p)
  | IndexVector =>
      let view := take (Z.to_nat (p_result_limit p)) out in
      let! _ := require_apart (p_result_addr p) view (p_column_addr p) (data_ column) in
      let! (d, size) :=
        match p_predicate p with
        | RangePredicate range => scan_range_iv column range view
        | ListPredicate a sz =>
            let! list_addr := virtual_address memory a in
            let! predicate := bit_view_from_raw element_bits list_addr sz in
            let! _ := require_apart (p_result_addr p) view a (bits_data predicate) in
            scan_list_iv column predicate view
        end in
      Ok (write_back memory (p_result_addr p) d, u64 size)
  end.

(** One scan of an engine: [assert(THREAD_COLUMN_OFFSET == 0)], then the scan of
    the collected parameters. *)
Definition dispatch_scan_operation (csr : ThreadCSR) (memory : list Z) : result (list Z * Z) :=
  let! _ := assert (csr THREAD_COLUMN_OFFSET =? 0) in
  run_scan (collect_params csr) memory.

(** ** The operation itself

    The parameters of an operation, without registers in between. *)
Definition operation_params (op : Scan) : result params :=
  let! a := address (column_data (column_ op)) in
  let! res := address (result_ op) in
  let! p :=
    match predicate_ op with
    | Range r => Ok (RangePredicate r)
    | InListPredicate max_value data => let! l := address data in Ok (ListPredicate l max_value)
    end in
  Ok (mkParams (out_type_ op) p (bit_compression (column_ op)) a (count (column_ op)) res
        match out_type_ op with BitVector => 0 | IndexVector => Buffer.size (result_ op) end).

Definition execute (op : Scan) (memory : list Z) : result (list Z * Z) :=
  let! p := operation_params op in run_scan p memory.

(** The accesses to the registers of one operation that runs alone: the stores of
    [write_registers], the two of [run_and_wait], the scan that the engine starts on
    what it reads from them, the store of the result size, and [read_registers].
    ImdbRunner has the same accesses as separate steps. *)
Definition run_through_registers (op : Scan) (csr : ThreadCSR) (memory : list Z) : result (list Z * Z) :=
  let! ws := write_registers op in
  let csr := apply_writes csr ws in
  let csr := store_reg csr THREAD_STATUS THREAD_STATUS_BUSY in
  let csr := store_reg csr THREAD_CTRL (Z.lor (csr THREAD_CTRL) THREAD_CTRL_START) in
  let! (memory, size) := dispatch_scan_operation csr memory in
  let csr := store_reg csr THREAD_RES_SIZE_SB size in
  Ok (memory, (read_registers csr).1).

(** An operation the registers can hold. *)
Definition fits (n x : Z) : Prop := 0 ≤ x < 2 ^ n.

Record op_wf (op : Scan) : Prop := {
  ow_bits : bit_compression (column_ op) ∈ valid_bit_counts;
  ow_count : fits 64 (count (column_ op));
  ow_column : ∃ a, address (column_data (column_ op)) = Ok a ∧ fits 64 a;
  ow_result : ∃ a, address (result_ op) = Ok a ∧ fits 64 a;
  ow_limit : fits 32 (Buffer.size (result_ op));
  ow_predicate :
    match predicate_ op with
    | Range r => fits 32 (range_start r) ∧ fits 32 (range_end r)
    | InListPredicate max_value data =>
        fits 32 max_value ∧ ∃ a, address data = Ok a ∧ fits 64 a
    end
}.

(** Registers that are ready for an operation: the engine, started on them, reads
    the parameters of the operation. *)
Definition ready (op : Scan) (csr : ThreadCSR) : Prop :=
  operation_params op = Ok (collect_params csr) ∧ csr THREAD_COLUMN_OFFSET = 0.

(** ** Registers *)
Lemma store_reg_same (csr : ThreadCSR) (r : reg) (v : Z) :
  store_reg csr r v r = v mod 2 ^ reg_bits r.
Proof. unfold store_reg. by rewrite decide_True. Qed.

Lemma store_reg_other (csr : ThreadCSR) (r r' : reg) (v : Z) :
  r ≠ r' → store_reg csr r v r' = csr r'.
Proof. intros H. unfold store_reg. by rewrite decide_False. Qed.

(** Evaluate a register after a sequence of stores. *)
Ltac read_regs :=
  unfold apply_writes, apply_write; cbn [fold_left fst snd app];
  repeat first [ rewrite store_reg_same | rewrite store_reg_other by discriminate ].

(** The start flag. *)
Definition started (csr : ThreadCSR) : bool :=
  negb (Z.land (csr THREAD_CTRL) THREAD_CTRL_STATUS_MASK =? 0).

(** No store of the list raises the start flag. *)
Definition never_starts (ws : list write) : Prop :=
  Forall (fun w => w.1 = THREAD_CTRL → ∀ csr, Z.land (w.2 csr mod 2 ^ 32) THREAD_CTRL_STATUS_MASK = 0) ws.

Lemma valid_bits_range (n : Z) : n ∈ valid_bit_counts → 1 ≤ n ≤ 18.
Proof. unfold valid_bit_counts. rewrite !elem_of_cons, elem_of_nil. lia. Qed.

Lemma entry_bits_spec (n : Z) : 1 ≤ n ≤ 18 → Z.land n THREAD_COMP_MODE_ENTRY_BIT_SIZE_MASK = n.
Proof.
  intros Hn. change THREAD_COMP_MODE_ENTRY_BIT_SIZE_MASK with 31.
  rewrite (land_ones_mod n 5) by done. apply Z.mod_small. lia.
Qed.

(** The compression mode register: entry size and operation type do not mix. *)
Lemma comp_mode_spec (n flag : Z) :
  1 ≤ n ≤ 18 → flag = 0 ∨ flag = 256 →
  Z.land (Z.lor n flag) 31 = n ∧ Z.land (Z.lor n flag) 256 = flag ∧ 0 ≤ Z.lor n flag < 2 ^ 32.
Proof.
  intros Hn Hf.
  assert (H : forallb (fun n => forallb (fun flag =>
    (Z.land (Z.lor n flag) 31 =? n) && (Z.land (Z.lor n flag) 256 =? flag) &&
    (0 <=? Z.lor n flag) && (Z.lor n flag <? 2 ^ 32)) [0; 256]) (range 19) = true) by done.
  rewrite forallb_forall in H.
  assert (Hin : In n (range 19)) by (apply list_elem_of_In, elem_of_range; lia).
  specialize (H n Hin). cbv beta in H. rewrite forallb_forall in H.
  specialize (H flag ltac:(destruct Hf as [->| ->]; cbn; auto)). zbool. lia.
Qed.

(** The parameters behind a compression mode [n | flag]. *)
Lemma ready_intro (op : Scan) (csr : ThreadCSR) (p : engine_predicate) (a res flag : Z) :
  1 ≤ bit_compression (column_ op) ≤ 18 →
  address (column_data (column_ op)) = Ok a → address (result_ op) = Ok res →
  match predicate_ op with
  | Range r => p = RangePredicate r ∧ flag = THREAD_COMP_MODE_IN_RANGE ∧
      csr THREAD_MIN_VALUE = range_start r ∧ csr THREAD_MAX_VALUE = range_end r
  | InListPredicate mx data => flag = THREAD_COMP_MODE_IN_LIST ∧
      address data = Ok (csr THREAD_INLIST_ADDR) ∧ csr THREAD_INLIST_SIZE = mx
  end →
  csr THREAD_COMP_MODE = Z.lor (bit_compression (column_ op)) flag →
  Z.land (csr THREAD_CTRL) THREAD_CTRL_OUTPUT_TYPE_MASK =
    match out_type_ op with BitVector => THREAD_CTRL_BV | IndexVector => THREAD_CTRL_IV end →
  csr THREAD_START_ADDR = a → csr THREAD_SIZE_SB = count (column_ op) →
  csr THREAD_RES_ADDR = res → fits 64 res → csr THREAD_RES_INDEX_OFFSET = 0 →
  csr THREAD_RSLT_LMT =
    match out_type_ op with BitVector => 0 | IndexVector => Buffer.size (result_ op) end →
  csr THREAD_COLUMN_OFFSET = 0 → ready op csr.
Proof.
  intros Hb Ha Hres Hp Hmode Hctrl Hcol Hcount Hr Hfr Hoff Hlim Hco. split; [|done].
  unfold operation_params, collect_params. rewrite Ha, Hres, Hmode, Hctrl, Hcol, Hcount, Hr, Hoff, Hlim.
  cbn [rbind]. rewrite Z.add_0_r, u64_small by done.
  change THREAD_COMP_MODE_ENTRY_BIT_SIZE_MASK with 31.
  change THREAD_COMP_MODE_OPERATION_TYPE_MASK with 256.
  destruct (predicate_ op) as [r|mx data].
  - destruct Hp as (-> & -> & Hmin & Hmax). change THREAD_COMP_MODE_IN_RANGE with 0.
    destruct (comp_mode_spec (bit_compression (column_ op)) 0) as (-> & -> & _); [done|by left|].
    rewrite Hmin, Hmax. cbn [rbind]. destruct r. by destruct (out_type_ op).
  - destruct Hp as (-> & Hd & Hs). change THREAD_COMP_MODE_IN_LIST with 256.
    destruct (comp_mode_spec (bit_compression (column_ op)) 256) as (-> & -> & _); [done|by right|].
    rewrite Hd, Hs. cbn [rbind]. by destruct (out_type_ op).
Qed.

(** [write_registers] is decoded by the engine into the parameters of the
    operation, whatever the registers held before. *)
Lemma write_registers_ready (op : Scan) :
  op_wf op →
  ∃ ws, write_registers op = Ok ws ∧ never_starts ws ∧ ∀ csr, ready op (apply_writes csr ws).
Proof.
  intros [Hb Hc (a & Ha & Hfa) (res & Hr & Hfr) Hlim Hp]. apply valid_bits_range in Hb.
  unfold write_registers, set_predicate_info, set_output_type. rewrite Ha, Hr. cbn [rbind].
  destruct (predicate_ op) as [r|mx data] eqn:Ep; [|destruct Hp as (Hmx & l & Hl & Hfl); rewrite Hl];
    cbn [rbind]; (eexists; split; [reflexivity|]; split;
      [unfold never_starts; cbn [app];
       repeat (apply Forall_cons; split; [try done|]); [|by apply Forall_nil];
       intros _ csr; by destruct (out_type_ op)|]).
  - intros csr. apply (ready_intro _ _ (RangePredicate r) a res 0); try done; rewrite ?Ep; read_regs;
      cbn [reg_bits]; rewrite ?entry_bits_spec, ?Z.lor_0_r by done; unfold fits in *.
    all: try (apply Z.mod_small; lia).
    + do 2 (split; [done|]). split; apply Z.mod_small; lia.
    + rewrite !Z.mod_small; rewrite ?Z.mod_small; lia.
    + by destruct (out_type_ op).
    + destruct (out_type_ op); apply Z.mod_small; lia.
  - intros csr. apply (ready_intro _ _ (ListPredicate l mx) a res 256); try done; rewrite ?Ep; read_regs;
      cbn [reg_bits]; rewrite ?entry_bits_spec by done; unfold fits in *.
    all: try (apply Z.mod_small; lia).
    + split; [done|]. split; [by rewrite Z.mod_small|apply Z.mod_small; lia].
    + destruct (comp_mode_spec (bit_compression (column_ op)) 256) as (_ & _ & Hm); [done|by right|].
      change THREAD_COMP_MODE_IN_LIST with 256. rewrite (Z.mod_small (bit_compression _)) by lia.
      by apply Z.mod_small.
    + by destruct (out_type_ op).
    + destruct (out_type_ op); apply Z.mod_small; lia.
Qed.

(** Stores to registers that are no parameters of a scan keep it ready. *)
Definition no_parameter (r : reg) : Prop :=
  match r with
  | THREAD_STATUS | THREAD_ERROR | THREAD_START_TIME | THREAD_DONE_TIME | THREAD_RES_SIZE_SB => True
  | _ => False
  end.

Lemma ready_store (op : Scan) (c : ThreadCSR) (r : reg) (v : Z) :
  no_parameter r → ready op c → ready op (store_reg c r v).
Proof.
  intros Hr [Hp Hc]. split; [|destruct r; try done; by rewrite store_reg_other].
  rewrite Hp. unfold collect_params. by destruct r; try done; rewrite !store_reg_other by discriminate.
Qed.

Lemma started_store (c : ThreadCSR) (r : reg) (v : Z) :
  r ≠ THREAD_CTRL → started (store_reg c r v) = started c.
Proof. intros Hr. unfold started. by rewrite store_reg_other. Qed.

Lemma land_mod32 (x m : Z) : Z.land (Z.ones 32) m = m → Z.land (x mod 2 ^ 32) m = Z.land x m.
Proof. intros Hm. by rewrite <- Z.land_ones, <- Z.land_assoc, Hm by done. Qed.

(** Raising the start flag. *)
Lemma start_registers (op : Scan) (c : ThreadCSR) :
  ready op c →
  let c' := store_reg c THREAD_CTRL (Z.lor (c THREAD_CTRL) THREAD_CTRL_START) in
  started c' = true ∧ ready op c'.
Proof.
  intros [Hp Hc] c'. unfold c'. split.
  - unfold started. rewrite store_reg_same. cbn [reg_bits].
    rewrite land_mod32 by done. change THREAD_CTRL_STATUS_MASK with 1.
    change THREAD_CTRL_START with 1. rewrite Z.land_lor_distr_l. change (Z.land 1 1) with 1.
    apply negb_true_iff, Z.eqb_neq. intros H0.
    assert (Ht : Z.testbit (Z.lor (Z.land (c THREAD_CTRL) 1) 1) 0 = true)
      by (rewrite Z.lor_spec; apply orb_true_r).
    rewrite H0 in Ht. done.
  - split; [|by rewrite store_reg_other]. rewrite Hp. unfold collect_params.
    rewrite store_reg_same, !store_reg_other by discriminate. cbn [reg_bits].
    rewrite land_mod32 by done. change THREAD_CTRL_OUTPUT_TYPE_MASK with 2.
    change THREAD_CTRL_START with 1. rewrite Z.land_lor_distr_l. change (Z.land 1 2) with 0.
    by rewrite Z.lor_0_r.
Qed.

(** What the engine computes from ready registers is the operation. *)
Lemma dispatch_ready (op : Scan) (c : ThreadCSR) (m : list Z) :
  ready op c → dispatch_scan_operation c m = execute op m.
Proof.
  intros [Hp Hc]. unfold dispatch_scan_operation, execute. rewrite Hc, Hp. done.
Qed.

Lemma execute_size (op : Scan) (m m' : list Z) (n : Z) :
  op_wf op → execute op m = Ok (m', n) → fits 64 n.
Proof.
  intros Hop He. unfold execute in He. inv_result. unfold operation_params in E. inv_result.
  unfold run_scan in He. cbn [p_column_addr p_bit_size p_column_size p_result_addr p_output
    p_predicate p_result_limit] in He. inv_result. destruct (out_type_ op); inv_result.
  - destruct a7 as [d k]. inv_result. apply Hop.
  - destruct a6 as [d k]. inv_result. apply u64_range.
Qed.

(** An operation run through the registers is the operation itself. *)
Lemma registers_execute (op : Scan) (csr : ThreadCSR) (memory memory' : list Z) (size : Z) :
  op_wf op → execute op memory = Ok (memory', size) →
  run_through_registers op csr memory = Ok (memory', size).
Proof.
  intros Hop He. destruct (write_registers_ready op Hop) as (ws & Hws & _ & Hr).
  unfold run_through_registers. rewrite Hws. cbn [rbind].
  destruct (start_registers op (store_reg (apply_writes csr ws) THREAD_STATUS THREAD_STATUS_BUSY))
    as [_ Hready]; [by apply ready_store|].
  rewrite (dispatch_ready _ _ _ Hready), He. cbn [rbind read_registers fst].
  rewrite store_reg_same. cbn [reg_bits].
  by rewrite Z.mod_small by (by apply (execute_size op memory memory')).
Qed.

(** ** Scans of device memory *)

(** The device memory has the words [d] at byte address [a]. *)
Definition holds (memory : list Z) (a : Z) (d : list Z) : Prop :=
  0 ≤ a ∧ a mod 4 = 0 ∧ a / 4 ≤ Z.of_nat (length memory) ∧
  ∃ rest, drop (Z.to_nat (a / 4)) memory = d ++ rest.

Lemma virtual_address_holds (memory : list Z) (a : Z) (d : list Z) :
  holds memory a d → ∃ rest, virtual_address memory a = Ok (d ++ rest).
Proof.
  intros (Ha & Hm & Hl & rest & Hd). exists rest. unfold virtual_address.
  rewrite Hm. replace (_ && _) with true by lia. by rewrite Hd.
Qed.

(** The view of a column and of a bit vector in memory is the container whose
    storage was copied there. *)
Lemma view_of_column (vb : Z) (l : list Z) (c : bit_compressed) (rest : list Z) :
  1 ≤ vb < 32 → vb * Z.of_nat (length l) < 2 ^ 63 → compressed_vector_of 32 vb l = Ok c →
  compressed_view_from_raw 32 vb (data_ c ++ rest) (Z.of_nat (length l)) = Ok c.
Proof.
  intros Hvb Hov Hc.
  destruct (packed_values 32 (or_introl eq_refl) vb l Hvb Hov) as (c' & Hc' & Hw & Hn & _).
  assert (c' = c) as -> by congruence. destruct (packed_bits vb l c Hvb Hov Hc) as [Hb _].
  unfold compressed_vector_of, compressed_vector in Hc. unfold compressed_view_from_raw.
  inv_result. destruct (set_values_shape _ _ _ _ Hc) as [_ Hlen].
  unfold make_compressed in *. replace (vb <? 32) with true in * by lia.
  cbn iota in E. injection E as <-. cbn [data_] in Hlen. rewrite length_replicate in Hlen.
  cbn [rbind]. rewrite <- Hlen, take_app_length. f_equal.
  destruct Hw as [_ Hm _ _]. rewrite Hb in Hm. rewrite <- Hm, <- Hn, <- Hb. by destruct c.
Qed.

Lemma view_of_bits (V : Z) (l : list Z) (b : bit_vector_view) (rest : list Z) :
  bit_vector_of 32 V l = Ok b →
  bit_view_from_raw 32 (bits_data b ++ rest) (max_value_ b) = Ok b ∧
  ∃ n, bit_vector_storage_size 32 (max_value_ b) = Ok n ∧ length (bits_data b) = Z.to_nat n.
Proof.
  assert (H : ∀ l b b', rfold (insert 32) b l = Ok b' →
    max_value_ b' = max_value_ b ∧ length (bits_data b') = length (bits_data b)).
  { intros k. induction k as [|v k IH]; intros b1 b2 Hr; cbn [rfold] in Hr; inv_result; [done|].
    destruct (IH _ _ Hr) as [-> ->]. unfold insert, or_word in E.
    destruct (in_storage_bit_position_masked 32 v). inv_result. unfold vec_set in E0.
    destruct (_ && _); [|done]. injection E0 as <-. cbn. by rewrite length_insert. }
  intros Hb. unfold bit_vector_of, bit_vector in Hb. inv_result.
  destruct (H _ _ _ Hb) as [Hm Hl]. cbn [max_value_ bits_data] in *.
  unfold bit_view_from_raw. rewrite Hm, E0. cbn [rbind]. rewrite length_replicate in Hl.
  split; [|by eexists].
  rewrite <- Hl, take_app_length. f_equal. rewrite <- Hm. by destruct b.
Qed.

(** ** What an operation asks for *)

(** The column buffer holds the packed values [l]. *)
Record column_stored (op : Scan) (memory : list Z) (l : list Z) : Prop := {
  cs_count : count (column_ op) = Z.of_nat (length l);
  cs_size : Z.of_nat (length l) ≤ 2 ^ 32 - 8;
  cs_values : Forall (fun v => 0 ≤ v < 2 ^ bit_compression (column_ op)) l;
  cs_data : ∃ c a, compressed_vector_of element_bits (bit_compression (column_ op)) l = Ok c ∧
    address (column_data (column_ op)) = Ok a ∧ holds memory a (data_ c)
}.

(** The predicate selects the values with [q]. *)
Definition predicate_selects (op : Scan) (memory : list Z) (q : Z → bool) : Prop :=
  match predicate_ op with
  | Range r => range_start r < 2 ^ 31 ∧ range_end r < 2 ^ 31 ∧ q = in_range r
  | InListPredicate mx data =>
      ∃ V pred b a, Forall (fun v => 0 ≤ v < 2 ^ 32 ∧ v + 1 < 2 ^ V) pred ∧
        bit_vector_of element_bits V pred = Ok b ∧
        mx = max_value_ b ∧ address data = Ok a ∧ holds memory a (bits_data b) ∧
        q = fun v => bool_decide (v ∈ pred)
  end.

(** The result buffer: for an index vector, of whole blocks of eight. *)
Definition result_room (op : Scan) (memory : list Z) (room : Z) : Prop :=
  (∃ a d, address (result_ op) = Ok a ∧ holds memory a d ∧ Z.of_nat (length d) = room ∧
     words_wf 32 d) ∧
  match out_type_ op with
  | BitVector => bit_vector_storage_size 32 (count (column_ op)) = Ok room
  | IndexVector => room = Buffer.size (result_ op) ∧ count (column_ op) ≤ room ∧
      count (column_ op) mod block_size = 0
  end.

(** The result buffer, of [room] words, overlaps neither the storage of the column
    nor that of the predictor. *)
Record inputs_apart (op : Scan) (l : list Z) (room : Z) : Prop := {
  ia_column : ∀ c a res,
    compressed_vector_of element_bits (bit_compression (column_ op)) l = Ok c →
    address (column_data (column_ op)) = Ok a → address (result_ op) = Ok res →
    views_apart res room a (Z.of_nat (length (data_ c))) = true;
  ia_predicate : ∀ mx data n a res,
    predicate_ op = InListPredicate mx data → bit_vector_storage_size element_bits mx = Ok n →
    address data = Ok a → address (result_ op) = Ok res → views_apart res room a n = true
}.

(** The rows read back from the result buffer. *)
Definition result_rows (op : Scan) (memory : list Z) (size : Z) : result (list Z) :=
  let! a := address (result_ op) in
  let! region := virtual_address memory a in
  match out_type_ op with
  | IndexVector => Ok (take (Z.to_nat size) region)
  | BitVector =>
      let! b := bit_view_from_raw element_bits region (count (column_ op)) in values element_bits b
  end.

Lemma write_back_holds (memory : list Z) (a : Z) (d d' : list Z) :
  holds memory a d → length d' = length d →
  holds (write_back memory a d') a d' ∧ length (write_back memory a d') = length memory ∧
  ∀ k : nat, (k < Z.to_nat (a / 4))%nat ∨ (Z.to_nat (a / 4) + length d ≤ k)%nat →
    write_back memory a d' !! k = memory !! k.
Proof.
  intros (Ha & Hm & Hl & rest & Hd) Hlen. unfold write_back.
  set (n := Z.to_nat (a / 4)) in *. assert (Hn : (n ≤ length memory)%nat) by lia.
  assert (Hlm : length memory = (n + length d + length rest)%nat).
  { rewrite <- (take_drop n memory), Hd, !length_app, length_take. lia. }
  assert (Hlb : length (take n memory ++ d' ++ drop (n + length d') memory) = length memory)
    by (rewrite !length_app, length_take, length_drop; lia).
  split; [|split; [done|]].
  - split; [done|]. split; [done|]. split; [by rewrite Hlb|]. eexists.
    fold n. rewrite drop_app_length' by (rewrite length_take; lia). reflexivity.
  - intros k [Hk|Hk].
    + rewrite lookup_app_l by (rewrite length_take; lia). by apply lookup_take_lt.
    + rewrite lookup_app_r by (rewrite length_take; lia). rewrite length_take, Nat.min_l by done.
      rewrite lookup_app_r by lia. rewrite lookup_drop. f_equal. lia.
Qed.

Section device.
Context (op : Scan) (memory l : list Z) (q : Z → bool) (room : Z).
Context (Hop : op_wf op) (Hcol : column_stored op memory l) (Hq : predicate_selects op memory q).
Context (Hroom : result_room op memory room) (Hapart : inputs_apart op l room).
Abbreviation vb := (bit_compression (column_ op)).

Lemma device_bits : 1 ≤ vb ≤ 18.
Proof. apply valid_bits_range, Hop. Qed.

(** The predicate in the form of the vector code: what the engine runs on the
    predictor it finds in memory is [scan_avx2_impl] with an agreeing predicate. *)
Lemma device_predicate :
  ∃ (p : engine_predicate) (v : predicate), agree v q ∧
    (match predicate_ op with
     | Range r => Ok (RangePredicate r)
     | InListPredicate max_value data => let! a := address data in Ok (ListPredicate a max_value)
     end = Ok p) ∧
    ∀ (store : Z → Z → list Z → Z → result (list Z * Z)) column c res out,
      ConstantsSet (value_bits_ column) = Ok c →
      address (result_ op) = Ok res → Z.of_nat (length out) = room →
      match p with
      | RangePredicate range => in_range_scan_impl store column range out
      | ListPredicate a sz =>
          let! list_addr := virtual_address memory a in
          let! predicate := bit_view_from_raw element_bits list_addr sz in
          let! _ := require_apart res out a (bits_data predicate) in
          in_range_list_impl store column predicate out
      end = scan_avx2_impl store column v out c.
Proof.
  unfold predicate_selects in Hq. destruct Hapart as [_ Hap].
  destruct (predicate_ op) as [r|mx data].
  - destruct Hq as (Hs & He & ->). eexists _, _. split; [by apply agree_range|]. split; [done|].
    intros store column c res out Hc _ _. unfold in_range_scan_impl. by rewrite Hc.
  - destruct Hq as (V & pred & b & a & Hp & Hb & -> & Ha & Hh & ->). rewrite Ha. cbn [rbind].
    destruct (bit_vector_of_spec element_bits (or_introl eq_refl) V (2 ^ 32) pred ltac:(lia) Hp)
      as (b' & Hb' & Hw & Hm & Hbit & Hin). assert (b' = b) as -> by congruence.
    eexists _, (AVXInList (list_max_index b) b). split; [apply agree_list; done || lia|].
    split; [reflexivity|]. intros store column c res out Hc Hres Hout.
    destruct (virtual_address_holds _ _ _ Hh) as (rest & ->). cbn [rbind].
    destruct (view_of_bits _ _ _ rest Hb) as [Hview (n & Hn & Hl)].
    change element_bits with 32. rewrite Hview. cbn [rbind].
    destruct (storage_size_spec 32 (or_introl eq_refl) (max_value_ b)) as (n' & Hn' & Hpos & _); [lia|lia|].
    change (bit_vector_storage_size 32 (max_value_ b) = Ok n') in Hn'.
    rewrite Hn in Hn'. injection Hn' as <-.
    unfold require_apart. rewrite Hout, Hl, Z2Nat.id by lia.
    rewrite (Hap _ _ n a res eq_refl Hn Ha Hres). cbn [rbind].
    unfold in_range_list_impl. rewrite Hc. done.
Qed.

(** The rows of the column that satisfy the predicate. *)
Definition matching_rows : list Z :=
  filter (fun i => q (default 0 (l !! Z.to_nat i)) = true) (range (Z.of_nat (length l))).

Lemma device_column :
  ∃ c a rest k, compressed_vector_of element_bits vb l = Ok c ∧
    address (column_data (column_ op)) = Ok a ∧
    virtual_address memory a = Ok (data_ c ++ rest) ∧
    compressed_view_from_raw element_bits vb (data_ c ++ rest) (count (column_ op)) = Ok c ∧
    column_wf element_bits c ∧ value_bits_ c = vb ∧ value_counts_ c = count (column_ op) ∧
    value_bits_ c * value_counts_ c + EXTRA_BITS ≤ bits_of 32 (data_ c) ∧
    ConstantsSet (value_bits_ c) = Ok k ∧
    selected (fun i => q (element c i)) (value_counts_ c) = matching_rows.
Proof.
  destruct Hcol as [Hc Hs Hv (c & a & Hcv & Ha & Hh)]. pose proof device_bits as Hb.
  destruct (packed_column vb l) as (c' & Hc' & Hw & Hn & Hel); [lia|lia|done|].
  assert (c' = c) as -> by congruence.
  destruct (packed_bits vb l c) as [Hbits Hx]; [lia|nia|done|].
  destruct (virtual_address_holds _ _ _ Hh) as (rest & Hva).
  destruct (constants_spec vb Hb) as (k & Hk & _).
  exists c, a, rest, k. do 3 (split; [done|]). rewrite Hc.
  split; [apply view_of_column; [lia|nia|done]|]. do 3 (split; [done|]).
  rewrite Hbits, Hn. do 2 (split; [done|]). unfold selected, matching_rows.
  apply list_filter_iff'. intros i Hi%elem_of_range. by rewrite Hel.
Qed.

(** The scan of a bit vector and of an index vector, given the column and the
    words [d] of the result buffer. *)
Lemma device_bv (c : bit_compressed) (k : DecompressionConstants) (v : predicate) (d : list Z) :
  column_wf element_bits c → value_bits_ c ≤ 18 → 0 ≤ value_counts_ c ≤ 2 ^ 32 - 8 →
  value_bits_ c * value_counts_ c + EXTRA_BITS ≤ bits_of 32 (data_ c) →
  ConstantsSet (value_bits_ c) = Ok k → agree v q → words_wf 32 d →
  bit_vector_storage_size 32 (value_counts_ c) = Ok (Z.of_nat (length d)) →
  ∃ d' n, scan_avx2_impl store_bits c v d k = Ok (d', n) ∧ length d' = length d ∧
    values 32 (mkBits (value_counts_ c) d') =
      Ok (selected (fun i => q (element c i)) (value_counts_ c)).
Proof.
  intros Hw Hvb' Hn' Hx Hk Hag Hdw Hout.
  assert (Hdsz : value_counts_ c ≤ bits_of 32 d).
  { destruct (storage_size_spec 32 (or_introl eq_refl) (value_counts_ c)) as (k' & Hk' & Hk'' & _);
      [lia|lia|].
    unfold bit_vector_storage_size in Hout. rewrite Hk' in Hout. injection Hout as ->.
    unfold bits_of. lia. }
  assert (Hbw : bits_wf 32 (mkBits (value_counts_ c) d)) by (split; cbn; [done|lia]).
  destruct (runner_bv c Hw Hvb' Hn' Hx v q Hag (mkBits (value_counts_ c) d) Hbw eq_refl)
    as (k1 & d' & n & Hk1 & Hsc & Hval). assert (k1 = k) as -> by congruence.
  exists d', n. split; [done|]. split; [|done].
  destruct (avx2_bv c Hw Hvb' Hn' Hx v q
              (fun data Hl Hf => Hag data Hl (small_fields c Hw Hvb' data Hf)) k d Hk Hdw)
    as (d2 & Hd2 & _ & Hl2 & _).
  - unfold bits_of in Hdsz |- *. unfold blocks. dlia.
  - cbn [bits_data] in Hsc. rewrite Hsc in Hd2. by injection Hd2 as <- _.
Qed.

Lemma device_iv (c : bit_compressed) (k : DecompressionConstants) (v : predicate) (d : list Z) :
  column_wf element_bits c → value_bits_ c ≤ 18 → 0 ≤ value_counts_ c ≤ 2 ^ 32 - 8 →
  value_bits_ c * value_counts_ c + EXTRA_BITS ≤ bits_of 32 (data_ c) →
  ConstantsSet (value_bits_ c) = Ok k → agree v q →
  value_counts_ c mod 8 = 0 → value_counts_ c ≤ Z.of_nat (length d) →
  let rows := selected (fun i => q (element c i)) (value_counts_ c) in
  ∃ d', scan_avx2_impl store_indices c v d k = Ok (d', Z.of_nat (length rows)) ∧
    length d' = length d ∧ (length rows ≤ length d)%nat ∧ take (length rows) d' = rows.
Proof.
  intros Hw Hvb' Hn' Hx Hk Hag Hmod Hle rows.
  assert (Hbl : 8 * blocks c = value_counts_ c) by (unfold blocks; dlia).
  destruct (avx2_iv c Hw Hvb' Hn' Hx v q
              (fun data Hl Hf => Hag data Hl (small_fields c Hw Hvb' data Hf)) k d Hk)
    as (d' & Hsc & Hl' & Ht); [lia|].
  rewrite Hbl in Hsc, Ht. exists d'. do 2 (split; [done|]). split; [|done].
  pose proof (selected_length (fun i => q (element c i)) (value_counts_ c)). unfold rows. lia.
Qed.

(** The operation's result, for both kinds of output: [d'] replaces the words of
    the result buffer. *)
Lemma device_scan :
  ∃ a d d' size, address (result_ op) = Ok a ∧ holds memory a d ∧ Z.of_nat (length d) = room ∧
    length d' = length d ∧ execute op memory = Ok (write_back memory a d', size) ∧
    result_rows op (write_back memory a d') size = Ok matching_rows.
Proof.
  destruct device_column as (c & ca & rest & k & Hcv & Hca & Hva & Hview & Hw & Hb & Hn & Hx & Hk & Hrows).
  destruct device_predicate as (p & v & Hag & Hp & Hscan).
  pose proof device_bits as Hbits. destruct Hcol as [Hcount Hsize _ _].
  destruct Hroom as [(a & d & Ha & Hh & Hd & Hdw) Hout]. destruct Hop as [_ _ _ _ Hlim _].
  assert (Hn' : 0 ≤ value_counts_ c ≤ 2 ^ 32 - 8) by lia.
  assert (Hvb' : value_bits_ c ≤ 18) by lia.
  destruct (virtual_address_holds _ _ _ Hh) as (orest & Hva').
  exists a, d.
  assert (Hra : require_apart a d ca (data_ c) = Ok ()).
  { unfold require_apart. destruct Hapart as [Hac _]. by rewrite Hd, (Hac c ca a Hcv Hca Ha). }
  unfold execute, operation_params, result_rows. rewrite Hca, Ha. cbn [rbind]. rewrite Hp. cbn [rbind].
  unfold run_scan. cbn [p_column_addr p_bit_size p_column_size p_result_addr p_output
    p_predicate p_result_limit].
  rewrite Hva. cbn [rbind]. rewrite Hview. cbn [rbind]. rewrite Hva'. cbn [rbind].
  unfold bit_view_from_raw at 1. destruct (out_type_ op).
  - rewrite <- Hn, <- Hd in Hout.
    destruct (device_bv c k v d Hw Hvb' Hn' Hx Hk Hag Hdw Hout) as (d' & n & Hsc & Hl' & Hval).
    destruct (write_back_holds memory a d d' Hh Hl') as (Hh' & _).
    destruct (virtual_address_holds _ _ _ Hh') as (r' & Hr').
    exists d', (count (column_ op)). do 4 (split; [done|]). rewrite <- Hn.
    pose proof (Hscan store_bits c k a d Hk Ha Hd) as Hs.
    unfold bit_view_from_raw in Hs |- *. change element_bits with 32 in Hs |- *. rewrite Hr', Hout. cbn [rbind bits_data].
    rewrite Nat2Z.id, take_app_length, Hra. cbn [rbind]. unfold scan_range_bv, scan_list_bv.
    rewrite Hs, Hsc. split; [done|].
    by rewrite <- Hl', take_app_length, <- Hrows.
  - destruct Hout as (Hrm & Hle & Hmod). rewrite <- Hn in Hle, Hmod. rewrite <- Hd in Hle.
    destruct (device_iv c k v d Hw Hvb' Hn' Hx Hk Hag Hmod Hle) as (d' & Hsc & Hl' & Hlr & Ht).
    destruct (write_back_holds memory a d d' Hh Hl') as (Hh' & _).
    destruct (virtual_address_holds _ _ _ Hh') as (r' & Hr').
    rewrite Hrows in Hsc, Hlr, Ht.
    exists d', (Z.of_nat (length matching_rows)). do 4 (split; [done|]). rewrite Hr'.
    rewrite <- Hrm, <- Hd, Nat2Z.id, take_app_length, Hra. cbn [rbind].
    unfold scan_range_iv, scan_list_iv.
    rewrite (Hscan store_indices c k a d Hk Ha Hd), Hsc. cbn [rbind].
    rewrite u64_small by (unfold fits in *; lia). split; [done|].
    by rewrite Nat2Z.id, take_app_le, Ht by lia.
Qed.
End device.

(** ** Theorems *)

(** Property C28.  A scan operation that goes through the registers of its thread,
    whatever they held before, succeeds on the device memory: the rows read back from
    the result buffer with the size that the host reads are exactly the rows of the
    column whose value satisfies the predicate, in increasing order, as an index
    vector or as a bit vector, and no word outside of the result buffer changes.
    The column is packed in the column buffer, with at most [2^32 - 8] rows; the
    predicate is a range with bounds below [2^31] or a list stored as a bit vector;
    the result buffer overlaps neither of them; and for an index vector the number
    of rows is a multiple of eight and the buffer has room for every row. *)
Theorem device_scan_selects_rows (op : Scan) (memory l : list Z) (q : Z → bool) (room : Z) :
  op_wf op → column_stored op memory l → predicate_selects op memory q →
  result_room op memory room → inputs_apart op l room →
  ∀ csr : ThreadCSR, ∃ memory' size a,
    run_through_registers op csr memory = Ok (memory', size) ∧
    result_rows op memory' size = Ok (matching_rows l q) ∧
    address (result_ op) = Ok a ∧ length memory' = length memory ∧
    ∀ k : nat, (k < Z.to_nat (a / 4))%nat ∨ (Z.to_nat (a / 4) + Z.to_nat room ≤ k)%nat →
      memory' !! k = memory !! k.
Proof.
  intros Hop Hcol Hq Hroom Hap csr.
  destruct (device_scan op memory l q room Hop Hcol Hq Hroom Hap)
    as (a & d & d' & size & Ha & Hh & Hr & Hl & He & Hres).
  destruct (write_back_holds memory a d d' Hh Hl) as (_ & Hlen & Hframe).
  eexists _, size, a. split; [by apply registers_execute|]. do 3 (split; [done|]).
  intros k Hk. apply Hframe. lia.
Qed.

(** A column of eight five-bit values at address 0 and a result buffer behind it. *)
Definition sample_buffer (start size : Z) : Buffer.t :=
  Buffer.of_region 4 (Sequential (mkRegion start size None 0)) true PropertiesList.empty.

Definition sample_values : list Z := [7; 30; 12; 0; 12; 9; 5; 31].

Definition sample_scan : Scan :=
  mkScan (mkColumn 5 8 (sample_buffer 0 128)) (Range (mkRange 7 12)) (sample_buffer 128 32)
    IndexVector.

Definition sample_memory : list Z :=
  match compressed_vector_of element_bits 5 sample_values with
  | Ok c => data_ c ++ replicate 8 0
  | Err _ => []
  end.

Lemma sample_scan_wf : op_wf sample_scan.
Proof.
  split; cbn.
  - unfold valid_bit_counts. rewrite !elem_of_cons. lia.
  - unfold fits. lia.
  - exists 0. split; [reflexivity|]. unfold fits. lia.
  - exists 128. split; [reflexivity|]. unfold fits. lia.
  - vm_compute. split; congruence.
  - unfold fits. lia.
Qed.

Lemma device_scan_selects_rows_witness : ∃ memory' size,
  run_through_registers sample_scan (fun _ => 3) sample_memory = Ok (memory', size) ∧
  result_rows sample_scan memory' size = Ok (matching_rows sample_values (in_range (mkRange 7 12))).
Proof.
  destruct (device_scan_selects_rows sample_scan sample_memory sample_values
              (in_range (mkRange 7 12)) 8) with (csr := fun _ : reg => 3)
    as (m & n & a & He & Hr & _).
  - exact sample_scan_wf.
  - split; cbn; [reflexivity|lia| |].
    + repeat (apply Forall_cons; split; [lia|]). by apply Forall_nil.
    + eexists _, 0. split; [vm_compute; reflexivity|]. split; [reflexivity|].
      split; [lia|]. split; [reflexivity|]. split; [vm_compute; congruence|].
      exists (replicate 8 0). vm_compute. reflexivity.
  - cbn. split; [lia|]. split; [lia|reflexivity].
  - split.
    + exists 128, (replicate 8 0). split; [reflexivity|]. split; [|split].
      * split; [lia|]. split; [reflexivity|]. split; [vm_compute; congruence|].
        exists []. vm_compute. reflexivity.
      * reflexivity.
      * apply Forall_replicate. lia.
    + split; [reflexivity|]. split; vm_compute; congruence.
  - split; [|intros mx data n a res Hp; discriminate Hp].
    intros c a res Hc [= <-] [= <-]. revert Hc. vm_compute. intros [= <-]. reflexivity.
  - exists m, n. split; [exact He|exact Hr].
Defined.
