(* ===== verification/ImdbRunner.v ===== *)
(** * The runner and the engines of the IMDB device

    core/operation_runner/imdb/runner.cpp against the worker threads of
    core/device/imdb/simulator_core.cpp and core/device/simulator/base_simulator.cpp,
    with the locking of core/device/imdb/{base,simulator}.cpp.  For every hardware
    thread there is a host thread, which runs [Runner::run_operator], and an engine,
    which runs [SimulatorCore::worker_job].  They share the registers of the thread;
    all threads share the status register and the device memory.

    A step is one access to shared state: a load or store of a register or of a
    flag.  Two groups of accesses are one step each: the loads of [read_registers],
    and the scan with the loads of its parameters; the documentation of the
    simulator forbids to modify registers meanwhile, and the invariant below shows
    that the runner does not.  Steps of different threads interleave in any order. *)
From S2P Require Import Prelude Allocators Buffers BitViews Scan Avx2 Imdb.

(** ** State *)

(** The point [Runner::run_operator] has reached. *)
Inductive host_pc :=
  | H_enable                             (* sim_->enable_thread(thread_id) *)
  | H_registers                          (* device_->get_csr(thread_id) *)
  | H_write (ws : list write)            (* operation.write_registers(CSR) *)
  | H_status                             (* status->store(THREAD_STATUS_BUSY) *)
  | H_load                               (* control->load() *)
  | H_start (control : Z)                (* hw_atomic_store(..., control | START) *)
  | H_wait                               (* while (status->load() == BUSY) *)
  | H_read                               (* operation.read_registers(CSR) *)
  | H_disable (size time : Z)            (* stop_flag.store(true) *)
  | H_join (size time : Z)               (* finished.get() *)
  | H_release (size time : Z).           (* ioctl(IMDB_IOCTL_RELEASE_THREAD) *)

(** A free thread keeps the last operation with the size and the time that were
    read. *)
Inductive host :=
  | Idle (last : option (Scan * Z * Z))
  | Run (op : Scan) (pc : host_pc).

(** The point [SimulatorCore::worker_job] has reached. *)
Inductive engine :=
  | E_off
  | E_check                              (* while (!should_stop(thread_id)) *)
  | E_poll                               (* THREAD_CTRL.load() *)
  | E_working                            (* set_imdb_com_status(Working) *)
  | E_busy                               (* THREAD_STATUS.store(BUSY) *)
  | E_start_time
  | E_scan
  | E_done_time (size : Z)
  | E_size (size : Z)
  | E_error                              (* THREAD_ERROR = 0 *)
  | E_ctrl                               (* THREAD_CTRL = 0 *)
  | E_idle                               (* set_imdb_com_status(Idle) *)
  | E_status.                            (* THREAD_STATUS.store(0) *)

(** [stop_flag] and the validity of [finished] are the thread's [ThreadControls].
    The last three fields are not part of the program: the number of starts the
    host requested, the number of scans the engine ran, and the device memory
    before and after the last of them. *)
Record thread := mkThread {
  csr : ThreadCSR;
  stop_flag : bool;
  enabled : bool;
  thread_host : host;
  thread_engine : engine;
  starts : nat;
  scans : nat;
  last_scan : option (list Z * list Z)
}.

Record shared := mkShared {
  IMDB_COM_STATUS : Z;
  memory_ : list Z
}.

Inductive ThreadStatus := Working | IdleStatus.

Definition set_imdb_com_status (com thread_id : Z) (status : ThreadStatus) : Z :=
  let mask := Z.shiftl 1 thread_id in
  match status with
  | IdleStatus => Z.lor com mask
  | Working => Z.land com (Z.lxor mask (2 ^ 32 - 1))
  end.

(** [SimulatorCore::SimulatorCore]: every thread idle. *)
Definition initial_com_status (threads : Z) : Z := Z.shiftl 1 threads - 1.

(** ** The host *)
Definition set_csr (t : thread) (c : ThreadCSR) (h : host) : thread :=
  mkThread c (stop_flag t) (enabled t) h (thread_engine t) (starts t) (scans t) (last_scan t).

Definition goto (t : thread) (h : host) : thread := set_csr t (csr t) h.

(** [BaseAsyncSimulator::enable_thread]: the job is queued for the pool, here it
    starts at once. *)
Definition enable_thread (t : thread) (h : host) : result thread :=
  if enabled t then Err InvalidArguments
  else Ok (mkThread (csr t) false true h E_check (starts t) (scans t) (last_scan t)).

(** [disable_thread]: the flag, then the wait for the worker to return. *)
Definition request_stop (t : thread) (h : host) : result thread :=
  if negb (enabled t) then Err InvalidArguments
  else Ok (mkThread (csr t) true (enabled t) h (thread_engine t) (starts t) (scans t) (last_scan t)).

Definition join_thread (t : thread) (h : host) : thread :=
  match thread_engine t with
  | E_off => mkThread (csr t) (stop_flag t) false h E_off (starts t) (scans t) (last_scan t)
  | _ => t
  end.

Definition start_thread (t : thread) (control : Z) (h : host) : thread :=
  mkThread (store_reg (csr t) THREAD_CTRL (Z.lor control THREAD_CTRL_START)) (stop_flag t)
    (enabled t) h (thread_engine t) (S (starts t)) (scans t) (last_scan t).

Definition host_step (t : thread) : result thread :=
  match thread_host t with
  | Idle _ => Ok t
  | Run op pc =>
      match pc with
      | H_enable => enable_thread t (Run op H_registers)
      | H_registers => let! ws := write_registers op in Ok (goto t (Run op (H_write ws)))
      | H_write [] => Ok (goto t (Run op H_status))
      | H_write (w :: ws) => Ok (set_csr t (apply_write (csr t) w) (Run op (H_write ws)))
      | H_status =>
          Ok (set_csr t (store_reg (csr t) THREAD_STATUS THREAD_STATUS_BUSY) (Run op H_load))
      | H_load => Ok (goto t (Run op (H_start (csr t THREAD_CTRL))))
      | H_start control => Ok (start_thread t control (Run op H_wait))
      | H_wait =>
          if csr t THREAD_STATUS =? THREAD_STATUS_BUSY then Ok t else Ok (goto t (Run op H_read))
      | H_read =>
          let (size, time) := read_registers (csr t) in Ok (goto t (Run op (H_disable size time)))
      | H_disable size time => request_stop t (Run op (H_join size time))
      | H_join size time => Ok (join_thread t (Run op (H_release size time)))
      | H_release size time => Ok (goto t (Idle (Some (op, size, time))))
      end
  end.

(** ** The engine *)
Definition set_engine (t : thread) (c : ThreadCSR) (e : engine) : thread :=
  mkThread c (stop_flag t) (enabled t) (thread_host t) e (starts t) (scans t) (last_scan t).

Definition finish_scan (t : thread) (before after : list Z) (size : Z) : thread :=
  mkThread (csr t) (stop_flag t) (enabled t) (thread_host t) (E_done_time size)
    (starts t) (S (scans t)) (Some (before, after)).

Definition set_com (s : shared) (com : Z) : shared := mkShared com (memory_ s).

(** [clock] is the time the step reads. *)
Definition engine_step (id clock : Z) (s : shared) (t : thread) : result (shared * thread) :=
  match thread_engine t with
  | E_off => Ok (s, t)
  | E_check => Ok (s, set_engine t (csr t) (if stop_flag t then E_off else E_poll))
  | E_poll =>
      let should_start_scan := negb (Z.land (csr t THREAD_CTRL) THREAD_CTRL_STATUS_MASK =? 0) in
      Ok (s, set_engine t (csr t) (if should_start_scan then E_working else E_check))
  | E_working =>
      Ok (set_com s (set_imdb_com_status (IMDB_COM_STATUS s) id Working),
          set_engine t (csr t) E_busy)
  | E_busy => Ok (s, set_engine t (store_reg (csr t) THREAD_STATUS THREAD_STATUS_BUSY) E_start_time)
  | E_start_time => Ok (s, set_engine t (store_reg (csr t) THREAD_START_TIME clock) E_scan)
  | E_scan =>
      let! (m, size) := dispatch_scan_operation (csr t) (memory_ s) in
      Ok (mkShared (IMDB_COM_STATUS s) m, finish_scan t (memory_ s) m size)
  | E_done_time size =>
      Ok (s, set_engine t (store_reg (csr t) THREAD_DONE_TIME clock) (E_size size))
  | E_size size => Ok (s, set_engine t (store_reg (csr t) THREAD_RES_SIZE_SB size) E_error)
  | E_error => Ok (s, set_engine t (store_reg (csr t) THREAD_ERROR 0) E_ctrl)
  | E_ctrl => Ok (s, set_engine t (store_reg (csr t) THREAD_CTRL 0) E_idle)
  | E_idle =>
      Ok (set_com s (set_imdb_com_status (IMDB_COM_STATUS s) id IdleStatus),
          set_engine t (csr t) E_status)
  | E_status => Ok (s, set_engine t (store_reg (csr t) THREAD_STATUS 0) E_check)
  end.

(** ** The device with its threads *)
Record device := mkDevice {
  common : shared;
  threads : list thread
}.

Definition initial_thread (c : ThreadCSR) : thread :=
  mkThread c false false (Idle None) E_off 0 0 None.

(** The device after construction: the registers of the threads are whatever the
    mapped file holds, with no start requested. *)
Definition initial (d : device) : Prop :=
  IMDB_COM_STATUS (common d) = initial_com_status (Z.of_nat (length (threads d))) ∧
  Forall (fun t => ∃ c, t = initial_thread c ∧ started c = false) (threads d).

(** [lock_thread]: the resource manager hands out a thread no one holds. *)
Inductive step : device → device → Prop :=
  | step_lock s ts (i : nat) t last op :
      ts !! i = Some t → thread_host t = Idle last → op_wf op →
      step (mkDevice s ts) (mkDevice s (<[i := goto t (Run op H_enable)]> ts))
  | step_host s ts (i : nat) t t' :
      ts !! i = Some t → host_step t = Ok t' →
      step (mkDevice s ts) (mkDevice s (<[i := t']> ts))
  | step_engine s ts (i : nat) t clock s' t' :
      ts !! i = Some t → engine_step (Z.of_nat i) clock s t = Ok (s', t') →
      step (mkDevice s ts) (mkDevice s' (<[i := t']> ts)).

Inductive reachable : device → Prop :=
  | reachable_initial d : initial d → reachable d
  | reachable_step d d' : reachable d → step d d' → reachable d'.

(** ** The status register *)
Lemma com_status_bit (com id j : Z) (st : ThreadStatus) :
  0 ≤ id < 32 → 0 ≤ j < 32 →
  Z.testbit (set_imdb_com_status com id st) j =
  if j =? id then match st with IdleStatus => true | Working => false end else Z.testbit com j.
Proof.
  intros Hid Hj. unfold set_imdb_com_status. rewrite shiftl_mul, Z.mul_1_l by lia.
  destruct st.
  - rewrite Z.land_spec, Z.lxor_spec, Z.pow2_bits_eqb by lia.
    change (2 ^ 32 - 1) with (Z.ones 32). rewrite Z.ones_spec_low by lia.
    rewrite Z.eqb_sym. destruct (j =? id); [by rewrite andb_false_r|by rewrite andb_true_r].
  - rewrite Z.lor_spec, Z.pow2_bits_eqb by lia. rewrite Z.eqb_sym.
    destruct (j =? id); [by rewrite orb_true_r|by rewrite orb_false_r].
Qed.

Lemma initial_com_bit (n j : Z) : 0 ≤ n → 0 ≤ j → Z.testbit (initial_com_status n) j = (j <? n).
Proof.
  intros Hn Hj. unfold initial_com_status. rewrite shiftl_mul, Z.mul_1_l by done.
  replace (2 ^ n - 1) with (Z.ones n) by (rewrite Z.ones_equiv; lia).
  destruct (Z.ltb_spec j n); [apply Z.ones_spec_low|apply Z.ones_spec_high]; lia.
Qed.

(** ** Registers of a run *)

Lemma write_keeps_stopped (c : ThreadCSR) (w : write) (ws : list write) :
  never_starts (w :: ws) → started c = false → started (apply_write c w) = false ∧ never_starts ws.
Proof.
  intros Hw Hs. apply Forall_cons in Hw as [Hw Hws]. split; [|done].
  destruct (decide (w.1 = THREAD_CTRL)) as [E|Hne].
  - unfold started, apply_write. rewrite E, store_reg_same. cbn [reg_bits].
    by rewrite (Hw E c).
  - unfold apply_write. by rewrite started_store.
Qed.

(** ** The invariant of a thread *)

(** The last scan of the engine was that of [op], with result size [n]. *)
Definition has_run (op : Scan) (t : thread) (n : Z) : Prop :=
  ∃ m m', last_scan t = Some (m, m') ∧ execute op m = Ok (m', n).

(** No start is outstanding. *)
Definition quiet (t : thread) : Prop := started (csr t) = false ∧ starts t = scans t.

(** The engine waits for a start; [idle] is its bit of the status register. *)
Definition polling (idle : bool) (t : thread) : Prop :=
  quiet t ∧ idle = true ∧ enabled t = true ∧ stop_flag t = false ∧
  (thread_engine t = E_check ∨ thread_engine t = E_poll).

Definition off (idle : bool) (t : thread) : Prop :=
  quiet t ∧ idle = true ∧ enabled t = false ∧ thread_engine t = E_off.

Definition busy (t : thread) : Prop := csr t THREAD_STATUS = THREAD_STATUS_BUSY.

(** A start was requested and not yet served. *)
Definition pending (op : Scan) (t : thread) : Prop :=
  busy t ∧ started (csr t) = true ∧ ready op (csr t) ∧ starts t = S (scans t).

(** The scan was run, and its completion not yet signalled. *)
Definition ran (op : Scan) (t : thread) (n : Z) : Prop :=
  busy t ∧ starts t = scans t ∧ has_run op t n.

(** The host waits in [run_and_wait]. *)
Definition waiting (op : Scan) (idle : bool) (t : thread) : Prop :=
  match thread_engine t with
  | E_off => False
  | E_check | E_poll =>
      idle = true ∧
      (pending op t ∨
       csr t THREAD_STATUS = 0 ∧ quiet t ∧ has_run op t (csr t THREAD_RES_SIZE_SB))
  | E_working => idle = true ∧ pending op t
  | E_busy | E_start_time | E_scan => idle = false ∧ pending op t
  | E_done_time n | E_size n => idle = false ∧ ran op t n ∧ fits 64 n
  | E_error | E_ctrl => idle = false ∧ ran op t (csr t THREAD_RES_SIZE_SB)
  | E_idle =>
      idle = false ∧ ran op t (csr t THREAD_RES_SIZE_SB) ∧ started (csr t) = false
  | E_status =>
      idle = true ∧ ran op t (csr t THREAD_RES_SIZE_SB) ∧ started (csr t) = false
  end.

Definition host_inv (op : Scan) (pc : host_pc) (idle : bool) (t : thread) : Prop :=
  match pc with
  | H_enable => off idle t
  | H_registers => polling idle t
  | H_write ws => polling idle t ∧ never_starts ws ∧ ready op (apply_writes (csr t) ws)
  | H_status => polling idle t ∧ ready op (csr t)
  | H_load => polling idle t ∧ ready op (csr t) ∧ busy t
  | H_start control =>
      polling idle t ∧ ready op (csr t) ∧ busy t ∧ control = csr t THREAD_CTRL
  | H_wait => enabled t = true ∧ stop_flag t = false ∧ waiting op idle t
  | H_read => polling idle t ∧ has_run op t (csr t THREAD_RES_SIZE_SB)
  | H_disable size _ => polling idle t ∧ has_run op t size
  | H_join size _ =>
      quiet t ∧ idle = true ∧ enabled t = true ∧ stop_flag t = true ∧
      thread_engine t ∈ [E_off; E_check; E_poll] ∧ has_run op t size
  | H_release size _ => off idle t ∧ has_run op t size
  end.

Definition thread_inv (idle : bool) (t : thread) : Prop :=
  match thread_host t with
  | Idle last =>
      off idle t ∧ match last with Some (op, size, _) => has_run op t size | None => True end
  | Run op pc => op_wf op ∧ host_inv op pc idle t
  end.

(** ** Preservation *)
Lemma host_step_inv (idle : bool) (t t' : thread) :
  thread_inv idle t → host_step t = Ok t' → thread_inv idle t'.
Proof.
  unfold thread_inv, host_step. destruct t as [c stop en [last|op pc] e st sc ls];
    cbn [thread_host]; [by intros Hi [= <-]|].
  intros [Hop Hi] Hs. destruct pc as [| |ws| | |v| | |sz tm|sz tm|sz tm]; cbn [host_inv] in Hi.
  - (* enable *) destruct Hi as (Hq & Hid & Hen & He). cbn in *. subst.
    injection Hs as <-. cbn. split; [done|]. split; [done|]. by eauto 10.
  - (* registers *)
    destruct (write_registers_ready op Hop) as (ws & Hws & Hn & Hr).
    rewrite Hws in Hs. cbn in Hs. injection Hs as <-. cbn. split; [done|]. by split.
  - (* write *)
    destruct Hi as (Hp & Hn & Hr). destruct ws as [|w ws]; injection Hs as <-; cbn; (split; [done|]).
    + by split.
    + destruct Hp as ((Hst & Hc) & Hp). cbn in Hst, Hp.
      destruct (write_keeps_stopped _ _ _ Hn Hst) as [Hst' Hn'].
      split; [|done]. split; [|done]. by split.
  - (* status *)
    destruct Hi as (((Hst & Hc) & Hp) & Hr). injection Hs as <-. cbn. split; [done|].
    split; [|split].
    + split; [|done]. split; [|done]. cbn. by rewrite started_store.
    + by apply ready_store.
    + unfold busy. cbn. by rewrite store_reg_same.
  - (* load *) destruct Hi as (Hp & Hr & Hb). injection Hs as <-. cbn. split; [done|]. by eauto.
  - (* start *)
    destruct Hi as (((Hst & Hc) & Hid & Hen & Hsf & He) & Hr & Hb & Hv). cbn in *. subst v.
    injection Hs as <-. cbn. split; [done|]. split; [done|]. split; [done|].
    destruct (start_registers op c Hr) as [Hst' Hr'].
    assert (Hpend : pending op (start_thread (mkThread c stop en (Run op (H_start (c THREAD_CTRL))) e st sc ls)
                       (c THREAD_CTRL) (Run op H_wait))).
    { unfold pending, busy. cbn. split; [by rewrite store_reg_other|]. split; [done|].
      split; [done|]. cbn in Hc. by rewrite Hc. }
    unfold waiting. cbn. destruct He as [-> | ->]; (split; [done|by left]).
  - (* wait *)
    destruct Hi as (Hen & Hsf & Hw). cbn in *. destruct (Z.eqb_spec (c THREAD_STATUS) THREAD_STATUS_BUSY) as [Eb|Hnb];
      injection Hs as <-; cbn; (split; [done|]); [done|].
    unfold waiting, ran, pending, busy in Hw. cbn in Hw.
    destruct e; try (by destruct Hw); try (exfalso; tauto);
      destruct Hw as (Hid & [Hpend|(Hs0 & Hq & Hrun)]); [exfalso; tauto| |exfalso; tauto|];
      (split; [|done]); unfold polling; cbn; by eauto 10.
  - (* read *) destruct Hi as (Hp & Hr). injection Hs as <-. cbn. split; [done|]. by split.
  - (* disable *)
    destruct Hi as ((Hq & Hid & Hen & Hsf & He) & Hr). cbn in *. rewrite Hen in Hs. injection Hs as <-.
    cbn. split; [done|]. do 4 (split; [done|]). split; [|done].
    rewrite !elem_of_cons. destruct He as [->| ->]; auto.
  - (* join *)
    destruct Hi as (Hq & Hid & Hen & Hsf & He & Hr). cbn in *. injection Hs as <-.
    unfold join_thread. cbn. destruct e; cbn; (split; [done|]); try (by eauto 10).
    all: split; [by eauto 10|done].
  - (* release *) destruct Hi as (Ho & Hr). injection Hs as <-. cbn. by split.
Qed.

#[local] Arguments set_imdb_com_status : simpl never.

(** An engine changes only its own bit of the status register. *)
Lemma engine_step_com (id clock : Z) (s s' : shared) (t t' : thread) :
  0 ≤ id < 32 → engine_step id clock s t = Ok (s', t') →
  ∀ j, 0 ≤ j < 32 → j ≠ id →
    Z.testbit (IMDB_COM_STATUS s') j = Z.testbit (IMDB_COM_STATUS s) j.
Proof.
  intros Hid Hs j Hj Hne. unfold engine_step in Hs.
  destruct (thread_engine t); try (by injection Hs as <- _);
    try (injection Hs as <- _; cbn; rewrite com_status_bit by done; by replace (j =? id) with false by lia).
  destruct (dispatch_scan_operation _ _) as [[m n]|]; [|done]. by injection Hs as <- _.
Qed.

Lemma engine_host (id clock : Z) (s s' : shared) (t t' : thread) :
  engine_step id clock s t = Ok (s', t') → thread_host t' = thread_host t.
Proof.
  intros Hs. unfold engine_step in Hs. destruct (thread_engine t); try (by injection Hs as _ <-).
  destruct (dispatch_scan_operation _ _) as [[m n]|]; [|done]. by injection Hs as _ <-.
Qed.

(** With the host in the wait loop. *)
Lemma engine_step_waiting (id clock : Z) (s s' : shared) (op : Scan) (t t' : thread) :
  0 ≤ id < 32 → op_wf op → stop_flag t = false →
  waiting op (Z.testbit (IMDB_COM_STATUS s) id) t → engine_step id clock s t = Ok (s', t') →
  waiting op (Z.testbit (IMDB_COM_STATUS s') id) t' ∧ stop_flag t' = false ∧ enabled t' = enabled t.
Proof.
  intros Hid Hop Hsf Hw Hs. destruct t as [c stop en h e st sc ls]. cbn in Hsf. subst stop.
  unfold waiting in Hw. unfold engine_step in Hs.
  destruct e as [| | | | | | |n|n| | | |]; cbn [thread_engine] in *; try done.
  all: try (injection Hs as <- <-; cbn; (split; [|done]); cbn).
  all: rewrite ?com_status_bit, ?Z.eqb_refl by done.
  - (* check *) done.
  - (* poll *) destruct Hw as (Hi & [(Hb & Hst & Hr)|(Hs0 & (Hst & Hc) & Hr)]); cbn in Hst;
      unfold started in Hst; rewrite Hst; cbn.
    + split; [done|]. split; [done|]. split; [|done]. by unfold started; cbn; rewrite Hst.
    + split; [done|]. right. split; [done|]. split; [|done]. split; [|done].
      by unfold started; cbn; rewrite Hst.
  - (* working *) destruct Hw as (_ & Hp). by split.
  - (* busy *) destruct Hw as (Hi & Hb & Hst & Hr & Hc). split; [done|]. unfold pending, busy. cbn in *.
    rewrite store_reg_same, started_store by done. split; [done|]. split; [done|].
    split; [by apply ready_store|done].
  - (* start time *) destruct Hw as (Hi & Hb & Hst & Hr & Hc). split; [done|]. unfold pending, busy in *. cbn in *.
    rewrite store_reg_other, started_store by done. split; [done|]. split; [done|].
    split; [by apply ready_store|done].
  - (* scan *) destruct Hw as (Hi & Hb & Hst & Hr & Hc). cbn [csr] in *.
    rewrite (dispatch_ready op c (memory_ s) Hr) in Hs.
    destruct (execute op (memory_ s)) as [[m n]|] eqn:Ex; [|done]. injection Hs as <- <-. cbn.
    split; [|done]. split; [done|]. split; [|by apply (execute_size op (memory_ s) m)].
    split; [done|]. cbn in *. split; [done|]. by exists (memory_ s), m.
  - (* done time *) destruct Hw as (Hi & (Hb & Hc & Hr) & Hf). split; [done|]. split; [|done].
    unfold ran, busy in *. cbn in *. by rewrite store_reg_other.
  - (* size *) destruct Hw as (Hi & (Hb & Hc & Hr) & Hf). split; [done|].
    unfold ran, busy, fits in *. cbn in *. rewrite store_reg_other, store_reg_same by done.
    cbn [reg_bits]. by rewrite Z.mod_small.
  - (* error *) destruct Hw as (Hi & Hb & Hc & Hr). split; [done|].
    unfold ran, busy in *. cbn in *. by rewrite !store_reg_other.
  - (* ctrl *) destruct Hw as (Hi & Hb & Hc & Hr). split; [done|].
    unfold ran, busy, started in *. cbn in *. by rewrite store_reg_same, !store_reg_other.
  - (* idle *) destruct Hw as (Hi & Hr). by split.
  - (* status *) destruct Hw as (Hi & (Hb & Hc & Hr) & Hst). split; [done|]. right.
    unfold quiet, has_run in *. cbn in *. rewrite store_reg_same, !store_reg_other, started_store by done.
    done.
Qed.

(** With the host elsewhere the engine polls, or has stopped. *)
Lemma engine_step_polling (id clock : Z) (s s' : shared) (t t' : thread) :
  started (csr t) = false → thread_engine t ∈ [E_off; E_check; E_poll] →
  engine_step id clock s t = Ok (s', t') →
  s' = s ∧ csr t' = csr t ∧ starts t' = starts t ∧ scans t' = scans t ∧
  last_scan t' = last_scan t ∧ stop_flag t' = stop_flag t ∧ enabled t' = enabled t ∧
  thread_engine t' ∈ [E_off; E_check; E_poll] ∧
  (stop_flag t = false → thread_engine t ≠ E_off → thread_engine t' ≠ E_off) ∧
  (thread_engine t = E_off → thread_engine t' = E_off).
Proof.
  destruct t as [c stop en h e st sc ls]. cbn. intros Hst He Hs. unfold engine_step in Hs. cbn in Hs.
  unfold started in Hst.
  rewrite !elem_of_cons, elem_of_nil in He. destruct He as [->|[->|[->|[]]]]; cbn in Hs.
  - injection Hs as <- <-. cbn. rewrite !elem_of_cons. naive_solver.
  - injection Hs as <- <-. cbn. destruct stop; rewrite !elem_of_cons; naive_solver.
  - rewrite Hst in Hs. injection Hs as <- <-. cbn. rewrite !elem_of_cons. naive_solver.
Qed.

Lemma has_run_ext (op : Scan) (t t' : thread) (n : Z) :
  last_scan t' = last_scan t → has_run op t n → has_run op t' n.
Proof. unfold has_run. by intros ->. Qed.

Lemma polling_in (idle : bool) (t : thread) :
  polling idle t → started (csr t) = false ∧ thread_engine t ∈ [E_off; E_check; E_poll].
Proof.
  intros ((Hst & _) & _ & _ & _ & He). split; [done|]. rewrite !elem_of_cons.
  destruct He as [->| ->]; auto.
Qed.

Lemma engine_step_keeps_polling (id clock : Z) (s s' : shared) (t t' : thread) (idle : bool) :
  polling idle t → engine_step id clock s t = Ok (s', t') →
  polling idle t' ∧ s' = s ∧ csr t' = csr t ∧ last_scan t' = last_scan t.
Proof.
  intros Hp Hs. destruct (polling_in _ _ Hp) as [Hst He]. destruct Hp as ((_ & Hc) & Hi & Hen & Hsf & Hpe).
  destruct (engine_step_polling id clock s s' t t' Hst He Hs)
    as (-> & Ecsr & Est & Esc & El & Esf & Een & Hin & Hno & _).
  split; [|done]. unfold polling, quiet. rewrite Ecsr, Est, Esc, Esf, Een.
  do 4 (split; [done|]). assert (Hne : thread_engine t' ≠ E_off).
  { apply Hno; [done|]. by destruct Hpe as [->| ->]. }
  rewrite !elem_of_cons, elem_of_nil in Hin. destruct Hin as [?|[?|[?|[]]]]; [done|by left|by right].
Qed.

Lemma engine_step_keeps_off (id clock : Z) (s s' : shared) (t t' : thread) (idle : bool) :
  off idle t → engine_step id clock s t = Ok (s', t') → s' = s ∧ t' = t.
Proof.
  intros (_ & _ & _ & He) Hs. unfold engine_step in Hs. rewrite He in Hs. by injection Hs as <- <-.
Qed.

Lemma engine_step_inv (id clock : Z) (s s' : shared) (t t' : thread) :
  0 ≤ id < 32 → thread_inv (Z.testbit (IMDB_COM_STATUS s) id) t →
  engine_step id clock s t = Ok (s', t') →
  thread_inv (Z.testbit (IMDB_COM_STATUS s') id) t'.
Proof.
  intros Hid Hi Hs. pose proof (engine_host _ _ _ _ _ _ Hs) as Hh. unfold thread_inv in *.
  rewrite Hh. destruct (thread_host t) as [last|op pc].
  { destruct (engine_step_keeps_off _ _ _ _ _ _ _ (proj1 Hi) Hs) as [-> ->]. done. }
  destruct Hi as [Hop Hi]. split; [done|].
  assert (Hpoll : polling (Z.testbit (IMDB_COM_STATUS s) id) t →
    polling (Z.testbit (IMDB_COM_STATUS s') id) t' ∧ csr t' = csr t ∧ last_scan t' = last_scan t).
  { intros Hp. destruct (engine_step_keeps_polling _ _ _ _ _ _ _ Hp Hs) as (Hp' & -> & Hc & Hl). done. }
  unfold host_inv, busy in *. destruct pc as [| |ws| | |v| | |sz tm|sz tm|sz tm].
  - destruct (engine_step_keeps_off _ _ _ _ _ _ _ Hi Hs) as [-> ->]. done.
  - by destruct (Hpoll Hi).
  - destruct Hi as [Hp Hr]. destruct (Hpoll Hp) as (Hp' & -> & _). done.
  - destruct Hi as [Hp Hr]. destruct (Hpoll Hp) as (Hp' & -> & _). done.
  - destruct Hi as [Hp Hr]. destruct (Hpoll Hp) as (Hp' & -> & _). done.
  - destruct Hi as [Hp Hr]. destruct (Hpoll Hp) as (Hp' & -> & _). done.
  - destruct Hi as (Hen & Hsf & Hw).
    destruct (engine_step_waiting id clock s s' op t t' Hid Hop Hsf Hw Hs) as (Hw' & Hsf' & Hen').
    split; [congruence|]. by split.
  - destruct Hi as [Hp Hr]. destruct (Hpoll Hp) as (Hp' & -> & Hl). split; [done|].
    by apply (has_run_ext op t).
  - destruct Hi as [Hp Hr]. destruct (Hpoll Hp) as (Hp' & Hc & Hl). split; [done|].
    by apply (has_run_ext op t).
  - destruct Hi as ((Hst & Hc) & Hid' & Hen & Hsf & He & Hr).
    destruct (engine_step_polling id clock s s' t t' Hst He Hs)
      as (-> & Ecsr & Est & Esc & El & Esf & Een & Hin & _).
    unfold quiet. rewrite Ecsr, Est, Esc, Esf, Een. do 5 (split; [done|]).
    by apply (has_run_ext op t).
  - destruct Hi as [Ho Hr]. destruct (engine_step_keeps_off _ _ _ _ _ _ _ Ho Hs) as [-> ->]. done.
Qed.

(** ** Reachable devices *)
Definition device_inv (d : device) : Prop :=
  ∀ (i : nat) t, threads d !! i = Some t →
    thread_inv (Z.testbit (IMDB_COM_STATUS (common d)) (Z.of_nat i)) t.

Lemma initial_inv (d : device) : initial d → device_inv d.
Proof.
  intros [Hcom Hts] i t Hi. rewrite Hcom, initial_com_bit by lia.
  pose proof (lookup_lt_Some _ _ _ Hi). replace (_ <? _) with true by lia.
  destruct (Forall_lookup_1 _ _ _ _ Hts Hi) as (c & -> & Hc). cbn. split; [|done].
  by repeat split.
Qed.

Lemma step_inv (d d' : device) :
  Z.of_nat (length (threads d)) ≤ 32 → device_inv d → step d d' →
  device_inv d' ∧ length (threads d') = length (threads d).
Proof.
  intros Hn Hd Hs. destruct Hs as [s ts i t last op Hi Hh Hop|s ts i t t' Hi Hs|s ts i t clock s' t' Hi Hs];
    cbn [threads] in Hn; (split; [|cbn [threads]; by rewrite length_insert]); intros j tj Hj; cbn [threads common] in *;
    pose proof (lookup_lt_Some _ _ _ Hi) as Hlt; pose proof (Hd i t Hi) as Hti; cbn in Hti.
  - destruct (decide (i = j)) as [->|Hne].
    + rewrite list_lookup_insert_eq in Hj by done. injection Hj as <-.
      unfold thread_inv in *. rewrite Hh in Hti. cbn. destruct Hti as [Ho _]. by split.
    + rewrite list_lookup_insert_ne in Hj by done. by apply (Hd j).
  - destruct (decide (i = j)) as [->|Hne].
    + rewrite list_lookup_insert_eq in Hj by done. injection Hj as <-. by apply (host_step_inv _ t).
    + rewrite list_lookup_insert_ne in Hj by done. by apply (Hd j).
  - destruct (decide (i = j)) as [->|Hne].
    + rewrite list_lookup_insert_eq in Hj by done. injection Hj as <-.
      apply (engine_step_inv _ clock s s' t); [lia|done|done].
    + rewrite list_lookup_insert_ne in Hj by done. pose proof (lookup_lt_Some _ _ _ Hj).
      rewrite (engine_step_com (Z.of_nat i) clock s s' t t') by (done || lia). by apply (Hd j).
Qed.

(** The number of hardware threads of a device. *)
Lemma reachable_inv (d : device) :
  reachable d → Z.of_nat (length (threads d)) ≤ 32 → device_inv d.
Proof.
  induction 1 as [d Hd|d d' Hr IH Hs]; intros Hn; [by apply initial_inv|].
  assert (Hl : length (threads d') = length (threads d))
    by (destruct Hs; cbn; by rewrite length_insert).
  apply (step_inv d d'); [by rewrite <- Hl|apply IH; by rewrite <- Hl|done].
Qed.

(** ** Progress *)

(** The host never fails. *)
Lemma host_step_ok (idle : bool) (t : thread) : thread_inv idle t → ∃ t', host_step t = Ok t'.
Proof.
  intros Hi. unfold thread_inv, host_step in *. destruct (thread_host t) as [last|op pc]; [by eauto|].
  destruct Hi as [Hop Hi]. destruct pc as [| |[|w ws]| | |v| | |sz tm|sz tm|sz tm]; try by eauto.
  - destruct Hi as (_ & _ & Hen & _). unfold enable_thread. rewrite Hen. by eauto.
  - destruct (write_registers_ready op Hop) as (ws & -> & _). by eauto.
  - destruct (_ =? _); by eauto.
  - destruct Hi as ((_ & _ & Hen & _) & _). unfold request_stop. rewrite Hen. by eauto.
Qed.

(** The number of steps of the engine until the wait loop is left. *)
Definition distance (t : thread) : nat :=
  match thread_engine t with
  | E_check => if csr t THREAD_STATUS =? THREAD_STATUS_BUSY then 12 else 0
  | E_poll => if csr t THREAD_STATUS =? THREAD_STATUS_BUSY then 11 else 0
  | E_working => 10
  | E_busy => 9
  | E_start_time => 8
  | E_scan => 7
  | E_done_time _ => 6
  | E_size _ => 5
  | E_error => 4
  | E_ctrl => 3
  | E_idle => 2
  | E_status => 1
  | E_off => 0
  end.

(** An engine step fails only if the scan does. *)
Lemma engine_step_ok (id clock : Z) (s : shared) (op : Scan) (t : thread) (idle : bool) :
  waiting op idle t → is_ok (execute op (memory_ s)) = true →
  is_ok (engine_step id clock s t) = true.
Proof.
  intros Hw Hex. unfold waiting in Hw. unfold engine_step. destruct (thread_engine t); try done.
  destruct Hw as (_ & _ & _ & Hr & _). rewrite (dispatch_ready op (csr t) (memory_ s) Hr).
  by destruct (execute op (memory_ s)) as [[m n]|].
Qed.

(** A step of the engine brings the host closer to the end of the loop, and does
    not take it away from there. *)
Lemma engine_step_closer (id clock : Z) (s s' : shared) (op : Scan) (t t' : thread) (idle : bool) :
  stop_flag t = false → waiting op idle t → engine_step id clock s t = Ok (s', t') →
  (distance t' ≤ pred (distance t))%nat.
Proof.
  intros Hsf Hw Hs. destruct t as [c stop en h e st sc ls]. cbn in Hsf. subst stop.
  unfold waiting in Hw. unfold engine_step in Hs.
  destruct e as [| | | | | | |n|n| | | |]; cbn [thread_engine csr] in *;
    try (injection Hs as _ <-; cbn; lia).
  - injection Hs as _ <-. unfold distance. cbn. destruct (_ =? _); lia.
  - destruct Hw as (_ & [(Hb & Hst & _)|(Hz & (Hst & _) & _)]); unfold started in Hst; cbn in Hst, Hz || cbn in Hst;
      rewrite Hst in Hs; injection Hs as _ <-; unfold distance; cbn.
    + unfold busy in Hb. cbn in Hb. rewrite Hb. cbn. lia.
    + rewrite Hz. cbn. lia.
  - destruct (dispatch_scan_operation _ _) as [[m n]|]; [|done]. injection Hs as _ <-. cbn. lia.
  - injection Hs as _ <-. unfold distance. cbn [set_engine thread_engine csr].
    rewrite store_reg_same. vm_compute. lia.
Qed.

(** ** Schedules

    An interleaving as a list of steps of any threads. *)
Inductive action :=
  | Lock (i : nat) (op : Scan)
  | Host (i : nat)
  | Engine (i : nat) (clock : Z).

Definition act (d : device) (a : action) : result device :=
  match a with
  | Lock i op =>
      let! t := of_option BadAccess (threads d !! i) in
      match thread_host t with
      | Idle _ => Ok (mkDevice (common d) (<[i := goto t (Run op H_enable)]> (threads d)))
      | Run _ _ => Err BadAccess
      end
  | Host i =>
      let! t := of_option BadAccess (threads d !! i) in
      let! t' := host_step t in
      Ok (mkDevice (common d) (<[i := t']> (threads d)))
  | Engine i clock =>
      let! t := of_option BadAccess (threads d !! i) in
      let! (s', t') := engine_step (Z.of_nat i) clock (common d) t in
      Ok (mkDevice s' (<[i := t']> (threads d)))
  end.

Definition run_schedule (l : list action) (d : device) : device :=
  match rfold act d l with Ok d' => d' | Err _ => d end.

Lemma schedule_reachable (l : list action) : ∀ d,
  reachable d → Forall (fun a => match a with Lock _ op => op_wf op | _ => True end) l →
  reachable (run_schedule l d).
Proof.
  intros d Hd Hl. unfold run_schedule. destruct (rfold act d l) as [d'|] eqn:E; [|done].
  revert d Hd E. induction l as [|a l IH]; intros d Hd E; cbn [rfold] in E.
  { by injection E as <-. }
  apply Forall_cons in Hl as [Ha Hl]. destruct (act d a) as [d1|] eqn:E1; [|done]. cbn [rbind] in E.
  apply (IH Hl d1); [|done]. apply reachable_step with d; [done|]. destruct d as [s ts].
  unfold act in E1. destruct a as [i op|i|i clock]; cbn [threads common] in E1; inv_result.
  - destruct (thread_host a) eqn:Eh; [|done]. injection E1 as <-. by eapply step_lock.
  - by eapply step_host.
  - destruct a0 as [s' t']. injection E1 as <-. by eapply step_engine.
Qed.

(** The number of steps of the engine of thread [i]. *)
Definition engine_steps (i : nat) (l : list action) : nat :=
  length (filter (fun a => match a with Engine j _ => (j =? i)%nat | _ => false end = true) l).

Lemma engine_steps_one (i : nat) (a : action) :
  engine_steps i [a] =
  match a with Engine j _ => if (j =? i)%nat then 1%nat else 0%nat | _ => 0%nat end.
Proof. destruct a as [| |j clock]; [done|done|]. unfold engine_steps, filter. cbn. by destruct (j =? i)%nat. Qed.

(** Somewhere on the schedule the host of thread [i] leaves its wait loop. *)
Definition leaves_loop (i : nat) (op : Scan) (d : device) (l : list action) : Prop :=
  ∃ l1 l2 d1 t1, l = l1 ++ l2 ∧ rfold act d l1 = Ok d1 ∧ threads d1 !! i = Some t1 ∧
    thread_host t1 = Run op H_read.

Definition host_waits (i : nat) (op : Scan) (d : device) (t : thread) : Prop :=
  threads d !! i = Some t ∧ thread_host t = Run op H_wait ∧
  Z.of_nat (length (threads d)) ≤ 32 ∧
  thread_inv (Z.testbit (IMDB_COM_STATUS (common d)) (Z.of_nat i)) t.

Lemma host_waits_waiting (i : nat) (op : Scan) (d : device) (t : thread) :
  host_waits i op d t →
  stop_flag t = false ∧ waiting op (Z.testbit (IMDB_COM_STATUS (common d)) (Z.of_nat i)) t.
Proof. intros (_ & Hh & _ & Hi). unfold thread_inv in Hi. rewrite Hh in Hi. apply Hi. Qed.

(** The host leaves the loop with its next step. *)
Lemma host_leaves (i : nat) (op : Scan) (d d' : device) (t : thread) :
  host_waits i op d t → distance t = 0%nat → act d (Host i) = Ok d' →
  leaves_loop i op d [Host i].
Proof.
  intros Hw Hz Ha. destruct (host_waits_waiting _ _ _ _ Hw) as [_ Hwait]. destruct Hw as (Hi & Hh & _).
  exists [Host i], [], d'. cbn [rfold app]. rewrite Ha. cbn [rbind].
  unfold act in Ha. rewrite Hi in Ha. cbn [of_option rbind] in Ha.
  assert (Hb : (csr t THREAD_STATUS =? THREAD_STATUS_BUSY) = false).
  { unfold distance in Hz. unfold waiting in Hwait. destruct (thread_engine t); try done; by destruct (_ =? _). }
  unfold host_step in Ha. rewrite Hh, Hb in Ha. cbn [rbind] in Ha. injection Ha as <-.
  eexists. do 2 (split; [done|]). split; [apply list_lookup_insert_eq; by eapply lookup_lt_Some|done].
Qed.

Lemma act_inv (d d' : device) (a : action) :
  act d a = Ok d' →
  ∃ j t s' t', threads d !! j = Some t ∧ d' = mkDevice s' (<[j := t']> (threads d)) ∧
    match a with
    | Lock k op => k = j ∧ s' = common d ∧ ∃ last, thread_host t = Idle last
    | Host k => k = j ∧ s' = common d ∧ host_step t = Ok t'
    | Engine k clock => k = j ∧ engine_step (Z.of_nat j) clock (common d) t = Ok (s', t')
    end.
Proof.
  unfold act. destruct a as [k op|k|k clock]; intros Ha;
    destruct (threads d !! k) as [t|] eqn:Ek; [|done| |done| |done]; cbn [of_option rbind] in Ha.
  - destruct (thread_host t) eqn:Eh; [|done]. injection Ha as <-. eexists k, t, _, _. by eauto 10.
  - destruct (host_step t) as [t'|] eqn:Es; [|done]. injection Ha as <-. eexists k, t, _, _. by eauto.
  - destruct (engine_step _ _ _ t) as [[s' t']|] eqn:Es; [|done]. injection Ha as <-.
    eexists k, t, _, _. by eauto.
Qed.

(** A step of any thread leaves the host waiting, no farther from the end and
    closer if the engine made it, or takes it out of the loop. *)
Lemma act_waits (i : nat) (op : Scan) (d d' : device) (t : thread) (a : action) :
  host_waits i op d t → act d a = Ok d' →
  leaves_loop i op d [a] ∨
  ∃ t', host_waits i op d' t' ∧ (distance t' ≤ distance t - engine_steps i [a])%nat.
Proof.
  intros Hw Ha. rewrite engine_steps_one. destruct (host_waits_waiting _ _ _ _ Hw) as [Hsf Hwait].
  pose proof Hw as (Hi & Hh & H32 & Hinv). pose proof (lookup_lt_Some _ _ _ Hi) as Hlt.
  destruct (act_inv d d' a Ha) as (j & tj & s' & t' & Hj & -> & Hcase).
  pose proof (lookup_lt_Some _ _ _ Hj) as Hltj. destruct (decide (j = i)) as [->|Hne].
  - assert (tj = t) as -> by congruence. destruct a as [k op'|k|k clock].
    + destruct Hcase as (_ & _ & last & Hl). by rewrite Hl in Hh.
    + destruct Hcase as (-> & -> & Hs). unfold host_step in Hs. rewrite Hh in Hs.
      destruct (csr t THREAD_STATUS =? THREAD_STATUS_BUSY); injection Hs as <-.
      * right. exists t. split; [|lia]. unfold host_waits. cbn [threads common].
        by rewrite list_lookup_insert_eq, length_insert.
      * left. eexists [Host i], [], _, (goto t (Run op H_read)). cbn [rfold app]. rewrite Ha.
        do 2 (split; [done|]). cbn [threads]. by rewrite list_lookup_insert_eq.
    + destruct Hcase as (-> & Hs). right. exists t'.
      pose proof (engine_step_closer _ _ _ _ op t t' _ Hsf Hwait Hs) as Hd.
      split; [|rewrite Nat.eqb_refl; lia].
      unfold host_waits. cbn [threads common]. rewrite list_lookup_insert_eq, length_insert by done.
      split; [done|]. split; [by rewrite (engine_host _ _ _ _ _ _ Hs)|]. split; [done|].
      apply (engine_step_inv _ clock (common d) s' t); [lia|done|done].
  - right. exists t. unfold host_waits. cbn [threads common].
    rewrite list_lookup_insert_ne, length_insert by done.
    destruct a as [k op'|k|k clock]; [destruct Hcase as (_ & -> & _)..|destruct Hcase as (-> & Hs)];
      (split; [|try lia]); try done.
    + do 3 (split; [done|]).
      by rewrite (engine_step_com (Z.of_nat j) clock (common d) s' tj t') by (done || lia).
    + rewrite (proj2 (Nat.eqb_neq j i)) by done. lia.
Qed.

Lemma engine_steps_cons (i : nat) (a : action) (l : list action) :
  engine_steps i (a :: l) = (engine_steps i [a] + engine_steps i l)%nat.
Proof. unfold engine_steps. rewrite (filter_app _ [a] l), length_app. done. Qed.

Lemma leaves_loop_app (i : nat) (op : Scan) (d d' : device) (l l' : list action) :
  rfold act d l = Ok d' → leaves_loop i op d' l' → leaves_loop i op d (l ++ l').
Proof.
  intros Hl (l1 & l2 & d1 & t1 & -> & Hr & Ht & Hh). exists (l ++ l1), l2, d1, t1.
  split; [by rewrite (assoc (++))|]. split; [|done]. by rewrite rfold_app, Hl.
Qed.

Lemma leaves_loop_prefix (i : nat) (op : Scan) (d : device) (l l' : list action) :
  leaves_loop i op d l → leaves_loop i op d (l ++ l').
Proof.
  intros (l1 & l2 & d1 & t1 & -> & Hr & Ht & Hh). exists l1, (l2 ++ l'), d1, t1.
  by rewrite (assoc (++)).
Qed.

Lemma schedule_leaves (i : nat) (op : Scan) (l : list action) : ∀ d d1 d2 t,
  host_waits i op d t → (distance t ≤ engine_steps i l)%nat →
  rfold act d l = Ok d1 → act d1 (Host i) = Ok d2 → leaves_loop i op d (l ++ [Host i]).
Proof.
  induction l as [|a l IH]; intros d d1 d2 t Hw Hk Hl Hh; cbn [rfold] in Hl.
  - injection Hl as <-. apply (host_leaves i op d d2 t Hw); [cbn in Hk; lia|done].
  - inv_result. change (a :: l) with ([a] ++ l). rewrite <- (assoc (++)).
    destruct (act_waits i op d a0 t a Hw E) as [Hleft|(t' & Hw' & Hd)]; [by apply leaves_loop_prefix|].
    apply (leaves_loop_app i op d a0 [a]); [cbn [rfold]; by rewrite E|].
    apply (IH a0 d1 d2 t' Hw'); [|done|done]. rewrite engine_steps_cons in Hk. lia.
Qed.

(** One operation on a device with two threads. *)
Definition sample_device : device :=
  mkDevice (mkShared (initial_com_status 2) sample_memory)
    (replicate 2 (initial_thread (fun _ => 0))).

Definition sample_start : list action := Lock 1 sample_scan :: replicate 21 (Host 1).

Definition sample_schedule : list action :=
  sample_start ++ replicate 12 (Engine 1 5) ++ replicate 3 (Host 1) ++ [Engine 1 6] ++
  replicate 2 (Host 1).

Lemma sample_device_reachable : reachable sample_device.
Proof.
  apply reachable_initial. split; [done|]. apply Forall_replicate. by exists (fun _ => 0).
Qed.

Lemma sample_start_wf :
  Forall (fun a => match a with Lock _ op => op_wf op | _ => True end) sample_start.
Proof. apply Forall_cons. split; [exact sample_scan_wf|]. by apply Forall_replicate. Qed.

Lemma sample_schedule_wf :
  Forall (fun a => match a with Lock _ op => op_wf op | _ => True end) sample_schedule.
Proof.
  apply Forall_app. split; [exact sample_start_wf|].
  repeat (apply Forall_app; split; [by apply Forall_replicate || by repeat constructor|]).
  by apply Forall_replicate.
Qed.

(** ** Theorems *)

(** Property C25.  Whatever the interleaving of hosts and engines, a host never fails,
    and when [run_operator] has returned, the engine of its thread has run the
    requested scan once per start request: the memory after the scan is what the
    operation computes from the memory before it, the size that was read is its
    result size, the engine has stopped with its status bit idle, and no start
    request is left in the control register. *)
Theorem runner_serves_operations (d : device) (i : nat) (t : thread) :
  reachable d → Z.of_nat (length (threads d)) ≤ 32 → threads d !! i = Some t →
  is_ok (host_step t) = true ∧
  ∀ op size time, thread_host t = Idle (Some (op, size, time)) →
    (∃ m m', last_scan t = Some (m, m') ∧ execute op m = Ok (m', size)) ∧
    starts t = scans t ∧ thread_engine t = E_off ∧ started (csr t) = false ∧
    Z.testbit (IMDB_COM_STATUS (common d)) (Z.of_nat i) = true.
Proof.
  intros Hr Hn Hi. pose proof (reachable_inv d Hr Hn i t Hi) as Hinv. split.
  - by destruct (host_step_ok _ _ Hinv) as (t' & ->).
  - intros op size time Hh. unfold thread_inv in Hinv. rewrite Hh in Hinv.
    destruct Hinv as (((Hst & Hc) & Hid & _ & He) & Hrun). by split.
Qed.

Lemma runner_serves_operations_witness : ∃ t m m',
  threads (run_schedule sample_schedule sample_device) !! 1%nat = Some t ∧
  last_scan t = Some (m, m') ∧ execute sample_scan m = Ok (m', 4).
Proof.
  destruct (threads (run_schedule sample_schedule sample_device) !! 1%nat) as [t|] eqn:Et;
    [|exfalso; revert Et; vm_compute; discriminate].
  destruct (runner_serves_operations (run_schedule sample_schedule sample_device) 1 t) as [_ H].
  - apply schedule_reachable; [exact sample_device_reachable|exact sample_schedule_wf].
  - vm_compute. congruence.
  - exact Et.
  - destruct (H sample_scan 4 0) as [(m & m' & Hm & He) _].
    + revert Et. vm_compute. intros [= <-]. reflexivity.
    + exists t, m, m'. split; [reflexivity|]. split; [exact Hm|exact He].
Defined.

(** Property C26.  No start request is lost: on every schedule of steps of all
    threads, a host in its wait loop has left the loop by its first step after the
    engine of its thread made twelve steps, however these are interleaved.  Neither
    of the two can get stuck before that: in every such state a step of the host
    succeeds, and so does a step of the engine if the requested scan succeeds on the
    memory it finds. *)
Theorem wait_loop_terminates (d : device) (i : nat) (t : thread) (op : Scan) :
  reachable d → Z.of_nat (length (threads d)) ≤ 32 → threads d !! i = Some t →
  thread_host t = Run op H_wait →
  (∀ l d1 d2, rfold act d l = Ok d1 → (12 ≤ engine_steps i l)%nat → act d1 (Host i) = Ok d2 →
     leaves_loop i op d (l ++ [Host i])) ∧
  is_ok (act d (Host i)) = true ∧
  (is_ok (execute op (memory_ (common d))) = true →
     ∀ clock, is_ok (act d (Engine i clock)) = true).
Proof.
  intros Hr Hn Hi Hh. pose proof (reachable_inv d Hr Hn i t Hi) as Hinv.
  assert (Hw : host_waits i op d t) by done.
  destruct (host_waits_waiting _ _ _ _ Hw) as [_ Hwait]. split; [|split].
  - intros l d1 d2 Hl Hk Ha. apply (schedule_leaves i op l d d1 d2 t Hw); [|done|done].
    etrans; [|exact Hk]. unfold distance. destruct (thread_engine t); try lia; destruct (_ =? _); lia.
  - unfold act. rewrite Hi. cbn [of_option rbind]. by destruct (host_step_ok _ _ Hinv) as (t' & ->).
  - intros Hex clock. unfold act. rewrite Hi. cbn [of_option rbind].
    pose proof (engine_step_ok (Z.of_nat i) clock (common d) op t _ Hwait Hex) as Hs.
    by destruct (engine_step _ _ _ _) as [[s' t']|].
Qed.

(** Twelve steps of the engine between polls of the host and steps of the other
    thread. *)
Definition sample_waiting : list action :=
  Lock 0 sample_scan :: concat (replicate 12 [Host 1; Engine 1 5; Host 0; Engine 0 5]).

Lemma wait_loop_terminates_witness : ∃ t d1 d2,
  let d := run_schedule sample_start sample_device in
  threads d !! 1%nat = Some t ∧ thread_host t = Run sample_scan H_wait ∧
  rfold act d sample_waiting = Ok d1 ∧ act d1 (Host 1) = Ok d2 ∧
  leaves_loop 1 sample_scan d (sample_waiting ++ [Host 1]) ∧
  is_ok (act d (Host 1)) = true ∧ is_ok (act d (Engine 1 5)) = true.
Proof.
  destruct (threads (run_schedule sample_start sample_device) !! 1%nat) as [t|] eqn:Et;
    [|exfalso; revert Et; vm_compute; discriminate].
  assert (Hh : thread_host t = Run sample_scan H_wait).
  { revert Et. vm_compute. intros [= <-]. reflexivity. }
  assert (Hok : is_ok (let! d1 := rfold act (run_schedule sample_start sample_device) sample_waiting in
                       act d1 (Host 1)) = true) by (vm_compute; reflexivity).
  destruct (rfold act (run_schedule sample_start sample_device) sample_waiting) as [d1|] eqn:E1;
    [cbn [rbind] in Hok|discriminate Hok].
  destruct (act d1 (Host 1)) as [d2|] eqn:E2; [|discriminate Hok].
  destruct (wait_loop_terminates (run_schedule sample_start sample_device) 1 t sample_scan)
    as (Hl & Hho & Hen).
  - apply schedule_reachable; [exact sample_device_reachable|exact sample_start_wf].
  - vm_compute. congruence.
  - exact Et.
  - exact Hh.
  - exists t, d1, d2. split; [exact Et|]. split; [exact Hh|]. split; [exact E1|].
    split; [exact E2|]. split; [|split; [exact Hho|]].
    + apply (Hl sample_waiting d1 d2 E1); [vm_compute; lia|exact E2].
    + apply Hen. vm_compute. reflexivity.
Defined.
