(* ===== verification/Views.v ===== *)
(** * Row views of contiguous memory

    include/pnmlib/common/rowwise_view.h and variable_row_view.h: a buffer seen as
    a sequence of rows, of one size with gaps or of the sizes of a second view.  A
    pointer is an index into its buffer, and a row is the pair of its begin and its
    size.  Iteration goes on while the base pointer of the iterator differs from
    the end, as in the comparison operators of the iterators. *)
From S2P Require Import Prelude.

(** A view of [size] elements from [begin]. *)
Record span := mkSpan { span_begin : Z; span_size : Z }.

(** The elements of a view; a view that leaves its buffer is undefined. *)
Definition read_span {A} (buffer : list A) (s : span) : result (list A) :=
  if (0 <=? span_begin s) && (0 <=? span_size s) &&
     (span_begin s + span_size s <=? Z.of_nat (length buffer))
  then Ok (take (Z.to_nat (span_size s)) (drop (Z.to_nat (span_begin s)) buffer))
  else Err UndefinedBehaviour.

(** [std::copy(d.begin(), d.end(), s.begin())] *)
Definition write_span {A} (buffer : list A) (s : span) (d : list A) : result (list A) :=
  if (0 <=? span_begin s) && (span_begin s + Z.of_nat (length d) <=? Z.of_nat (length buffer))
  then
    let k := Z.to_nat (span_begin s) in
    Ok (take k buffer ++ d ++ drop (k + length d) buffer)
  else Err UndefinedBehaviour.

(** ** [rowwise<T>] *)
Record rowwise := mkRowwise {
  rw_begin : Z;
  rw_end : Z;
  row_physical_size : Z;
  row_logical_size : Z;
  front_gap : Z
}.

Definition make_rowwise_view (first last row_size front back : Z) : rowwise :=
  mkRowwise first last row_size (row_size - back - front) front.

Definition rowwise_size (v : rowwise) : Z := (rw_end v - rw_begin v) / row_physical_size v.

(** [*(begin() + n)] *)
Definition row_at (v : rowwise) (n : Z) : span :=
  mkSpan (rw_begin v + row_physical_size v * n + front_gap v) (row_logical_size v).

(** [for (auto row : view)] *)
Fixpoint rowwise_rows (fuel : nat) (v : rowwise) (base : Z) : result (list span) :=
  if base =? rw_end v then Ok []
  else
    match fuel with
    | O => Err OutOfFuel
    | S fuel' =>
        let! rest := rowwise_rows fuel' v (base + row_physical_size v) in
        Ok (mkSpan (base + front_gap v) (row_logical_size v) :: rest)
    end.

Definition rows_of (v : rowwise) : result (list span) :=
  rowwise_rows (Z.to_nat (rw_end v - rw_begin v)) v (rw_begin v).

(** ** [variable_row<T, I>] *)
Record variable_row := mkVariable {
  vr_begin : Z;
  vr_end : Z;
  row_sizes : list Z
}.

Definition variable_row_size (v : variable_row) : Z := Z.of_nat (length (row_sizes v)).

(** At the end of the sizes the current row is empty, and advancing the iterator
    reads past them. *)
Fixpoint variable_rows (last base : Z) (sizes : list Z) : result (list span) :=
  if base =? last then Ok []
  else
    match sizes with
    | [] => Err UndefinedBehaviour
    | s :: sizes' =>
        let! rest := variable_rows last (base + s) sizes' in
        Ok (mkSpan base s :: rest)
    end.

Definition rows_of_variable (v : variable_row) : result (list span) :=
  variable_rows (vr_end v) (vr_begin v) (row_sizes v).

(** ** Lemmas *)
Lemma read_span_ok {A} (buffer : list A) (b n : Z) :
  0 ≤ b → 0 ≤ n → b + n ≤ Z.of_nat (length buffer) →
  read_span buffer (mkSpan b n) = Ok (take (Z.to_nat n) (drop (Z.to_nat b) buffer)).
Proof. intros Hb Hn Hl. unfold read_span. cbn. by replace (_ && _) with true by lia. Qed.

(** A view between a prefix and a rest. *)
Lemma read_span_app {A} (pre d rest : list A) :
  read_span (pre ++ d ++ rest) (mkSpan (Z.of_nat (length pre)) (Z.of_nat (length d))) = Ok d.
Proof.
  rewrite read_span_ok by (rewrite ?length_app; lia).
  by rewrite !Nat2Z.id, drop_app_length, take_app_length.
Qed.

Lemma write_span_app {A} (pre d d' rest : list A) (n : Z) :
  length d' = length d →
  write_span (pre ++ d ++ rest) (mkSpan (Z.of_nat (length pre)) n) d' = Ok (pre ++ d' ++ rest).
Proof.
  intros Hl. unfold write_span. cbn [span_begin].
  rewrite !length_app, Hl, !(proj2 (Z.leb_le _ _)) by lia. cbn [andb].
  rewrite Nat2Z.id, take_app_length. do 3 f_equal.
  rewrite drop_app_add. by rewrite drop_app_length.
Qed.

Lemma rowwise_rows_spec (v : rowwise) (n : nat) : ∀ fuel base,
  0 < row_physical_size v → rw_end v = base + row_physical_size v * Z.of_nat n → (n ≤ fuel)%nat →
  rowwise_rows fuel v base =
  Ok ((fun k => mkSpan (base + row_physical_size v * Z.of_nat k + front_gap v) (row_logical_size v))
        <$> seq 0 n).
Proof.
  induction n as [|n IH]; intros fuel base Hs He Hf.
  - destruct fuel; cbn [rowwise_rows]; by replace (base =? rw_end v) with true by lia.
  - destruct fuel as [|fuel]; [lia|]. cbn [rowwise_rows].
    replace (base =? rw_end v) with false by nia. rewrite IH by nia. cbn [rbind]. f_equal.
    cbn [seq fmap list_fmap]. f_equal; [f_equal; lia|].
    rewrite <- fmap_S_seq, <- list_fmap_compose. apply list_fmap_ext. intros i k _. cbn. f_equal. lia.
Qed.

(** A view of whole rows is iterated row by row. *)
Lemma rows_of_spec (first row front back : Z) (n : nat) :
  0 < row →
  rows_of (make_rowwise_view first (first + row * Z.of_nat n) row front back) =
  Ok ((fun k => row_at (make_rowwise_view first (first + row * Z.of_nat n) row front back) (Z.of_nat k))
        <$> seq 0 n).
Proof.
  intros Hr. unfold rows_of. rewrite (rowwise_rows_spec _ n) by (cbn; nia).
  f_equal.
Qed.

(** The rows of a variable view up to the last that is not empty. *)
Fixpoint drop_empty_tail (l : list Z) : list Z :=
  match l with
  | [] => []
  | x :: l' => match drop_empty_tail l' with [] => if x =? 0 then [] else [x] | r => x :: r end
  end.

Fixpoint layout (base : Z) (sizes : list Z) : list span :=
  match sizes with [] => [] | s :: sizes' => mkSpan base s :: layout (base + s) sizes' end.

Lemma drop_empty_tail_sum (l : list Z) :
  Forall (Z.le 0) l → sum_list_Z l = sum_list_Z (drop_empty_tail l) ∧
  (drop_empty_tail l = [] ↔ sum_list_Z l = 0).
Proof.
  induction 1 as [|x l Hx Hl IH]; cbn; [done|]. destruct IH as [Hs He].
  pose proof (sum_list_Z_nonneg l Hl). unfold sum_list_Z in *.
  destruct (drop_empty_tail l) as [|y r] eqn:E.
  - cbn in Hs. destruct (Z.eqb_spec x 0); cbn; (split; [lia|]); split; done || lia.
  - cbn in *. split; [lia|]. split; [done|]. intros H0.
    assert (Hz : foldr Z.add 0 l = 0) by lia. by apply He in Hz.
Qed.

(** Iteration stops at the first position that equals the end, so trailing empty
    rows are not visited. *)
Lemma variable_rows_spec (sizes : list Z) : ∀ base,
  Forall (Z.le 0) sizes →
  variable_rows (base + sum_list_Z sizes) base sizes = Ok (layout base (drop_empty_tail sizes)).
Proof.
  induction sizes as [|s sizes IH]; intros base H.
  - cbn. by replace (base =? base + 0) with true by lia.
  - pose proof H as Hall. apply Forall_cons in H as [Hs H].
    destruct (drop_empty_tail_sum _ Hall) as [_ He]. cbn [variable_rows].
    destruct (Z.eqb_spec base (base + sum_list_Z (s :: sizes))) as [E|Hne].
    + assert (E0 : drop_empty_tail (s :: sizes) = []) by (apply He; lia). by rewrite E0.
    + replace (base + sum_list_Z (s :: sizes)) with (base + s + sum_list_Z sizes)
        by (cbn; unfold sum_list_Z; lia).
      rewrite IH by done. cbn [rbind]. f_equal. cbn [drop_empty_tail].
      destruct (drop_empty_tail sizes) as [|y r] eqn:E; [|done].
      destruct (Z.eqb_spec s 0) as [->|]; [|done]. exfalso. apply Hne.
      destruct (drop_empty_tail_sum _ H) as [Hz _]. rewrite E in Hz. cbn in *. unfold sum_list_Z in *. lia.
Qed.
