(* ===== verification/Aes.v ===== *)
(** * One-time pads of the secure library

    secure/encryption/AES: the AES-NI backend and the generation of one-time pads
    from (version, address, prefix).  The AES instructions of the processor are
    parameters; what the engines rely on of a backend is the class
    [EncryptionBackend] with [EncryptionBackendLaws], and the AES-NI backend is an
    instance.  A byte is a [Z] below 256, a block the list of its bytes. *)
From S2P Require Import Prelude.

(** ** Little-endian values *)
Fixpoint le_bytes (n : nat) (x : Z) : list Z :=
  match n with O => [] | S n' => x mod 2 ^ 8 :: le_bytes n' (x / 2 ^ 8) end.

Fixpoint le_value (l : list Z) : Z :=
  match l with [] => 0 | b :: l' => b + 2 ^ 8 * le_value l' end.

Definition byte (b : Z) : Prop := 0 ≤ b < 2 ^ 8.

(** [reinterpret_cast<uint32_t *>] of a byte array. *)
Definition words_of_bytes (l : list Z) : list Z :=
  (fun i => le_value (take 4 (drop (4 * i) l))) <$> seq 0 (length l / 4).

Definition bytes_of_words (l : list Z) : list Z := l ≫= le_bytes 4.

(** ** common.h and ni_backend.cpp *)
Inductive AES_KEY_SIZE := AES_128 | AES_192 | AES_256.

Definition aes_rounds_count (key : AES_KEY_SIZE) : Z :=
  match key with AES_128 => 10 | AES_192 => 12 | AES_256 => 14 end.

Definition AES_BLOCK_SIZE : nat := 16.
Definition PIPELINE_SIZE : nat := 4.

(** The key expansions of key_exp128.h, key_exp192.h and key_exp256.h throw. *)
Definition AES_128_Key_Expansion (userkey : list Z) : result (list (list Z)) := Err NotSupported.
Definition AES_192_Key_Expansion (userkey : list Z) : result (list (list Z)) := Err NotSupported.
Definition AES_256_Key_Expansion (userkey : list Z) : result (list (list Z)) := Err NotSupported.

Record AES_NI_Backend := mkBackend {
  encryption_rounds_ : Z;
  key_schedule_ : list (list Z)
}.

Definition make_AES_NI_Backend (key_size : AES_KEY_SIZE) (key : list Z) : result AES_NI_Backend :=
  let rounds := aes_rounds_count key_size in
  let! schedule :=
    match key_size with
    | AES_128 => AES_128_Key_Expansion key
    | AES_192 => AES_192_Key_Expansion key
    | AES_256 => AES_256_Key_Expansion key
    end in
  Ok (mkBackend rounds schedule).

Definition _mm_xor_si128 (a b : list Z) : list Z := zip_with Z.lxor a b.

Section ni.
(** [_mm_aesenc_si128] and [_mm_aesenclast_si128] *)
Context (aesenc aesenclast : list Z → list Z → list Z).

Definition round_key (key : list (list Z)) (j : Z) : list Z := default [] (key !! Z.to_nat j).

(** [for (j = 1; j < number_of_rounds; j++)] *)
Definition middle_rounds (number_of_rounds : Z) : list Z :=
  (fun j => j + 1) <$> range (number_of_rounds - 1).

Definition aes_simple_rounds (key : list (list Z)) (number_of_rounds : Z) (data : list Z) : list Z :=
  let data := _mm_xor_si128 data (round_key key 0) in
  let data := fold_left (fun d j => aesenc d (round_key key j)) (middle_rounds number_of_rounds) data in
  aesenclast data (round_key key number_of_rounds).

(** The four blocks of a pipeline step go through every round together. *)
Definition pipeline_rounds (key : list (list Z)) (number_of_rounds : Z) (tmp : list (list Z))
  : list (list Z) :=
  let tmp := (fun v => _mm_xor_si128 v (round_key key 0)) <$> tmp in
  let tmp := fold_left (fun tmp j => (fun v => aesenc v (round_key key j)) <$> tmp)
               (middle_rounds number_of_rounds) tmp in
  (fun v => aesenclast v (round_key key number_of_rounds)) <$> tmp.

Definition block_at (input : list Z) (i : nat) : list Z :=
  take AES_BLOCK_SIZE (drop (AES_BLOCK_SIZE * i) input).

(** The bytes that are stored, and the number returned.  Every block is loaded
    before it is stored, so the output may be the input. *)
Definition AES_ECB_encrypt (input : list Z) (key : list (list Z)) (number_of_rounds : Z)
  : list Z * Z :=
  let cipher_blocks := (length input / AES_BLOCK_SIZE)%nat in
  let pipeline_main_blocks := (cipher_blocks / PIPELINE_SIZE)%nat in
  let main := seq 0 pipeline_main_blocks ≫= (fun i =>
    concat (pipeline_rounds key number_of_rounds
      ((fun k => block_at input (i * PIPELINE_SIZE + k)) <$> seq 0 PIPELINE_SIZE))) in
  let first := (pipeline_main_blocks * PIPELINE_SIZE)%nat in
  let tail := seq first (cipher_blocks - first) ≫= (fun i =>
    aes_simple_rounds key number_of_rounds (block_at input i)) in
  if (length input mod AES_BLOCK_SIZE =? 0)%nat then (main ++ tail, Z.of_nat (length input))
  else
    let rest := drop (cipher_blocks * AES_BLOCK_SIZE) input in
    let augmented_block := rest ++ replicate (AES_BLOCK_SIZE - length rest) 0 in
    (main ++ tail ++ aes_simple_rounds key number_of_rounds augmented_block,
     Z.of_nat ((length input / AES_BLOCK_SIZE + 1) * AES_BLOCK_SIZE)).
End ni.

(** ** What an engine needs of its backend *)
Class EncryptionBackend (B : Type) := {
  construct : AES_KEY_SIZE → list Z → result B;
  encrypt_bytes : B → list Z → list Z
}.

Definition is_block (x : list Z) : Prop := length x = AES_BLOCK_SIZE ∧ Forall byte x.

(** A constructed backend maps blocks to blocks, one by one. *)
Class EncryptionBackendLaws (B : Type) {E : EncryptionBackend B} := {
  backend_ok : B → Prop;
  construct_ok : ∀ size key b, construct size key = Ok b → backend_ok b;
  encrypt_block : ∀ b x, backend_ok b → is_block x → is_block (encrypt_bytes b x);
  encrypt_blocks : ∀ b xs, backend_ok b → Forall is_block xs →
    encrypt_bytes b (concat xs) = concat (encrypt_bytes b <$> xs)
}.

(** ** sls_extra.h *)

(** The seed of a pad of [size] bytes. *)
Definition prepare_otp (prefix version address : Z) (size : nat) : list Z :=
  le_bytes 4 version ++ le_bytes 8 address ++ le_bytes 4 prefix ++ replicate (size - 16) 0.

Section otp.
Context {B : Type} {E : EncryptionBackend B}.

Definition generate_otp (engine : B) (prefix version address : Z) (size : nat) : list Z :=
  encrypt_bytes engine (prepare_otp prefix version address size).

(** [otp_size * sizeof(T)] is [otp_bytes]; the pads of one address are
    consecutive. *)
Definition generate_otp_vec (engine : B) (prefix version : Z) (addresses : list Z)
    (otp_bytes otps_count : nat) : list Z :=
  encrypt_bytes engine
    (addresses ≫= (fun address => seq 0 otps_count ≫= (fun k =>
       prepare_otp prefix version (u64 (address + Z.of_nat k * Z.of_nat otp_bytes)) otp_bytes))).
End otp.

(** ** Lemmas on bytes *)
Lemma length_le_bytes (n : nat) : ∀ x, length (le_bytes n x) = n.
Proof. induction n as [|n IH]; intros x; cbn; [done|]. by rewrite IH. Qed.

Lemma le_bytes_range (n : nat) : ∀ x, Forall byte (le_bytes n x).
Proof.
  induction n as [|n IH]; intros x; cbn [le_bytes]; constructor; [|done]. by apply Z.mod_pos_bound.
Qed.

Lemma le_value_range (l : list Z) : Forall byte l → 0 ≤ le_value l < 2 ^ (8 * Z.of_nat (length l)).
Proof.
  induction 1 as [|b l Hb Hl IH]; cbn [le_value length]; [done|].
  replace (8 * Z.of_nat (S (length l))) with (8 + 8 * Z.of_nat (length l)) by lia.
  rewrite Z.pow_add_r by lia. unfold byte in Hb. nia.
Qed.

Lemma le_value_bytes (n : nat) : ∀ x, le_value (le_bytes n x) = x mod 2 ^ (8 * Z.of_nat n).
Proof.
  induction n as [|n IH]; intros x; cbn [le_bytes le_value].
  - by rewrite Z.mul_0_r, Z.mod_1_r.
  - rewrite IH. replace (8 * Z.of_nat (S n)) with (8 + 8 * Z.of_nat n) by lia.
    rewrite Z.pow_add_r by lia. rewrite Z.rem_mul_r by (pose proof (pow2_pos (8 * Z.of_nat n)); lia).
    done.
Qed.

Lemma prepare_otp_block (prefix version address : Z) :
  is_block (prepare_otp prefix version address 16).
Proof.
  unfold prepare_otp, is_block. split; [by rewrite !length_app, !length_le_bytes|].
  repeat (apply Forall_app; split; [apply le_bytes_range|]). by apply Forall_nil.
Qed.

(** ** The pipelined encryption is block by block *)
Lemma fold_left_fmap {A J} (f : J → A → A) (js : list J) : ∀ tmp : list A,
  fold_left (fun tmp j => f j <$> tmp) js tmp = (fun v => fold_left (fun v j => f j v) js v) <$> tmp.
Proof.
  induction js as [|j js IH]; intros tmp; cbn; [by rewrite list_fmap_id|].
  by rewrite IH, <- list_fmap_compose.
Qed.

Lemma bind_map {A B C} (f : A → B) (g : B → list C) (l : list A) :
  (f <$> l) ≫= g = l ≫= (fun x => g (f x)).
Proof. induction l as [|x l IH]; cbn; [done|]. f_equal. exact IH. Qed.

Lemma bind_seq_blocks {A} (g : nat → list A) (k m : nat) :
  seq 0 m ≫= (fun i => (seq 0 k ≫= (fun j => g (i * k + j)%nat))) = seq 0 (m * k) ≫= g.
Proof.
  induction m as [|m IH]; [done|]. rewrite seq_S, bind_app, IH. cbn [Nat.add].
  replace (S m * k)%nat with (m * k + k)%nat by lia. rewrite seq_app, bind_app. f_equal.
  rewrite Nat.add_0_l. cbn [mbind list_bind]. rewrite app_nil_r.
  replace (seq (m * k) k) with (Nat.add (m * k) <$> seq 0 k); [by rewrite bind_map|].
  by rewrite fmap_add_seq, Nat.add_0_r.
Qed.

Lemma concat_fmap_bind {A B} (f : A → list B) (l : list A) : concat (f <$> l) = l ≫= f.
Proof. induction l as [|x l IH]; cbn; [done|]. by rewrite IH. Qed.

Section ecb.
Context (aesenc aesenclast : list Z → list Z → list Z).
Context (key : list (list Z)) (rounds : Z).
Abbreviation simple := (aes_simple_rounds aesenc aesenclast key rounds).

Lemma pipeline_rounds_simple (tmp : list (list Z)) :
  pipeline_rounds aesenc aesenclast key rounds tmp = simple <$> tmp.
Proof.
  unfold pipeline_rounds, aes_simple_rounds.
  rewrite (fold_left_fmap (fun j v => aesenc v (round_key key j))), <- !list_fmap_compose. done.
Qed.

(** All complete blocks, in order. *)
Lemma ecb_complete (input : list Z) :
  (seq 0 (length input / 16 / 4) ≫= (fun i =>
    concat (pipeline_rounds aesenc aesenclast key rounds
      ((fun k => block_at input (i * 4 + k)) <$> seq 0 4)))) ++
  (seq (length input / 16 / 4 * 4) (length input / 16 - length input / 16 / 4 * 4) ≫=
    (fun i => simple (block_at input i))) =
  seq 0 (length input / 16) ≫= (fun i => simple (block_at input i)).
Proof.
  set (n := (length input / 16)%nat).
  assert (E : ∀ l, l ≫= (fun i => concat (pipeline_rounds aesenc aesenclast key rounds
      ((fun k => block_at input (i * 4 + k)) <$> seq 0 4))) =
    l ≫= (fun i => seq 0 4 ≫= (fun k => simple (block_at input (i * 4 + k))))).
  { induction l as [|i l IH]; cbn [mbind list_bind]; [done|]. f_equal; [|exact IH].
    rewrite pipeline_rounds_simple, concat_fmap_bind. by rewrite bind_map. }
  rewrite E, (bind_seq_blocks (fun i => simple (block_at input i))), <- bind_app.
  f_equal. rewrite <- (Nat.add_0_l (n / 4 * 4)) at 2. rewrite <- seq_app. f_equal.
  pose proof (Nat.div_mod_eq n 4). lia.
Qed.

Lemma block_at_concat (xs : list (list Z)) : ∀ i x,
  Forall (fun x => length x = 16%nat) xs → xs !! i = Some x → block_at (concat xs) i = x.
Proof.
  induction xs as [|y xs IH]; intros i x Hl Hx; [done|]. apply Forall_cons in Hl as [Hy Hl].
  unfold block_at, AES_BLOCK_SIZE in *. cbn [concat]. destruct i as [|i].
  - injection Hx as <-. cbn [Nat.mul drop]. by apply take_app_length'.
  - replace (16 * S i)%nat with (16 + 16 * i)%nat by lia.
    rewrite <- drop_drop, (drop_app_length' y) by done. by apply IH.
Qed.

Lemma ecb_blocks (xs : list (list Z)) :
  Forall (fun x => length x = 16%nat) xs →
  AES_ECB_encrypt aesenc aesenclast (concat xs) key rounds =
  (concat (simple <$> xs), Z.of_nat (length (concat xs))).
Proof.
  intros Hl.
  assert (Hlen : length (concat xs) = (length xs * 16)%nat).
  { induction Hl as [|x xs Hx Hl IH]; cbn; [done|]. rewrite length_app, IH, Hx. lia. }
  unfold AES_ECB_encrypt. change PIPELINE_SIZE with 4%nat. change AES_BLOCK_SIZE with 16%nat.
  cbv zeta. rewrite ecb_complete, Hlen, Nat.Div0.mod_mul, Nat.div_mul by lia. cbn [Nat.eqb].
  f_equal. rewrite concat_fmap_bind.
  assert (E : ∀ (k : nat) ys, (∀ i y, ys !! i = Some y → xs !! (k + i)%nat = Some y) →
    seq k (length ys) ≫= (fun i => simple (block_at (concat xs) i)) = ys ≫= simple).
  { intros k ys. revert k. induction ys as [|y ys IH]; intros k H; [done|].
    cbn [length seq mbind list_bind]. f_equal.
    - f_equal. apply block_at_concat; [done|]. rewrite <- (Nat.add_0_r k). by apply (H 0%nat).
    - apply IH. intros i z Hz. replace (S k + i)%nat with (k + S i)%nat by lia. by apply H. }
  by apply E.
Qed.
End ecb.

(** ** The AES-NI backend is a lawful backend *)
Section instance.
Context (aesenc aesenclast : list Z → list Z → list Z).
Context (Henc : ∀ d k, is_block d → is_block k → is_block (aesenc d k)).
Context (Hlast : ∀ d k, is_block d → is_block k → is_block (aesenclast d k)).

(** [AES_NI_Backend::encrypt] *)
Definition ni_encrypt (b : AES_NI_Backend) (data : list Z) : list Z :=
  (AES_ECB_encrypt aesenc aesenclast data (key_schedule_ b) (encryption_rounds_ b)).1.

Definition AES_NI : EncryptionBackend AES_NI_Backend := {|
  construct := make_AES_NI_Backend;
  encrypt_bytes := ni_encrypt
|}.

Definition schedule_ok (b : AES_NI_Backend) : Prop :=
  1 ≤ encryption_rounds_ b ∧
  Z.of_nat (length (key_schedule_ b)) = encryption_rounds_ b + 1 ∧ Forall is_block (key_schedule_ b).

Lemma xor_block (a b : list Z) : is_block a → is_block b → is_block (_mm_xor_si128 a b).
Proof.
  intros [Hla Ha] [Hlb Hb]. unfold _mm_xor_si128. split.
  - rewrite length_zip_with, Hla, Hlb. done.
  - apply Forall_lookup. intros i z Hz. apply lookup_zip_with_Some in Hz as (x & y & -> & Hx & Hy).
    pose proof (Forall_lookup_1 _ _ _ _ Ha Hx) as Hx'. pose proof (Forall_lookup_1 _ _ _ _ Hb Hy) as Hy'.
    unfold byte in *. assert (E : Z.lxor x y = Z.lxor x y mod 2 ^ 8).
    { apply Z.bits_inj'. intros n Hn. destruct (Z.lt_ge_cases n 8).
      - by rewrite Z.mod_pow2_bits_low.
      - rewrite Z.mod_pow2_bits_high, Z.lxor_spec, !(testbit_above _ 8) by (done || lia). done. }
    rewrite E. by apply Z.mod_pos_bound.
Qed.

Lemma round_key_block (b : AES_NI_Backend) (j : Z) :
  schedule_ok b → 0 ≤ j ≤ encryption_rounds_ b → is_block (round_key (key_schedule_ b) j).
Proof.
  intros (_ & Hl & Hb) Hj. unfold round_key.
  destruct (lookup_lt_is_Some_2 (key_schedule_ b) (Z.to_nat j)) as [k Hk]; [lia|].
  rewrite Hk. cbn. by apply (Forall_lookup_1 _ _ _ _ Hb Hk).
Qed.

Lemma simple_rounds_block (b : AES_NI_Backend) (x : list Z) :
  schedule_ok b → is_block x →
  is_block (aes_simple_rounds aesenc aesenclast (key_schedule_ b) (encryption_rounds_ b) x).
Proof.
  intros Hs Hx. pose proof (proj1 Hs). unfold aes_simple_rounds. apply Hlast; [|apply round_key_block; done || lia].
  assert (H0 : is_block (_mm_xor_si128 x (round_key (key_schedule_ b) 0)))
    by (apply xor_block; [done|]; apply round_key_block; done || lia).
  assert (Hj : Forall (fun j => 0 ≤ j ≤ encryption_rounds_ b) (middle_rounds (encryption_rounds_ b)))
    by (apply Forall_fmap, Forall_range; cbn; lia).
  revert H0. generalize (_mm_xor_si128 x (round_key (key_schedule_ b) 0)).
  induction Hj as [|j js Hj Hjs IH]; intros d Hd; cbn [fold_left]; [done|].
  apply IH, Henc; [done|]. by apply round_key_block.
Qed.

Lemma ni_encrypt_block (b : AES_NI_Backend) (x : list Z) :
  is_block x →
  ni_encrypt b x = aes_simple_rounds aesenc aesenclast (key_schedule_ b) (encryption_rounds_ b) x.
Proof.
  intros [Hl _]. unfold ni_encrypt. replace x with (concat [x]) at 1 by (cbn; apply app_nil_r).
  rewrite ecb_blocks by (by constructor). cbn. apply app_nil_r.
Qed.

Lemma AES_NI_laws : @EncryptionBackendLaws AES_NI_Backend AES_NI.
Proof.
  split with schedule_ok.
  - intros size key b H. by destruct size.
  - intros b x Hb Hx. cbn. rewrite ni_encrypt_block by done. by apply simple_rounds_block.
  - intros b xs Hb Hxs. cbn. unfold ni_encrypt at 1. rewrite ecb_blocks.
    2: { eapply Forall_impl; [exact Hxs|]. by intros x []. }
    cbn [fst]. f_equal. apply list_fmap_ext. intros i x Hx. symmetry. apply ni_encrypt_block.
    by apply (Forall_lookup_1 _ _ _ _ Hxs Hx).
Qed.
End instance.

(** ** Pads *)
Section pads.
Context {B : Type} {E : EncryptionBackend B} {L : EncryptionBackendLaws B}.
Context (b : B) (Hb : backend_ok b).

Lemma generate_otp_block (prefix version address : Z) :
  is_block (generate_otp b prefix version address 16).
Proof. apply encrypt_block; [done|]. apply prepare_otp_block. Qed.

(** The pads generated together are those generated one by one. *)
Lemma generate_otp_vec_spec (prefix version : Z) (addresses : list Z) (n : nat) :
  generate_otp_vec b prefix version addresses 16 n =
  addresses ≫= (fun a => seq 0 n ≫= (fun k =>
    generate_otp b prefix version (u64 (a + Z.of_nat k * 16)) 16)).
Proof.
  unfold generate_otp_vec. change (Z.of_nat 16) with 16.
  set (pads := addresses ≫= (fun a => (fun k => prepare_otp prefix version
                 (u64 (a + Z.of_nat k * 16)) 16) <$> seq 0 n)).
  assert (E1 : ∀ f : list Z → list Z, pads ≫= f = addresses ≫= (fun a => seq 0 n ≫= (fun k =>
    f (prepare_otp prefix version (u64 (a + Z.of_nat k * 16)) 16)))).
  { intros f. unfold pads. induction addresses as [|a l IH]; cbn [mbind list_bind]; [done|].
    rewrite bind_app. f_equal; [apply bind_map|exact IH]. }
  pose proof (E1 id) as E0. unfold id in E0. rewrite <- E0.
  replace (pads ≫= (fun x => x)) with (concat pads)
    by (rewrite <- concat_fmap_bind; by rewrite list_fmap_id).
  rewrite encrypt_blocks; [|done|].
  - rewrite concat_fmap_bind. apply (E1 (encrypt_bytes b)).
  - unfold pads. apply Forall_bind, Forall_forall. intros a _. apply Forall_fmap, Forall_forall.
    intros k _. apply prepare_otp_block.
Qed.
End pads.

(** ** Words *)
Lemma words_of_bytes_app (x y : list Z) :
  length x = 16%nat → words_of_bytes (x ++ y) = words_of_bytes x ++ words_of_bytes y.
Proof.
  intros Hx. unfold words_of_bytes. rewrite length_app, Hx.
  replace ((16 + length y) / 4)%nat with (4 + length y / 4)%nat
    by (change 16%nat with (4 * 4)%nat; rewrite Nat.div_add_l by lia; lia).
  change (16 / 4)%nat with 4%nat. rewrite seq_app, fmap_app. f_equal.
  - apply list_fmap_ext. intros i k Hk. apply lookup_seq in Hk as [-> Hk]. f_equal.
    rewrite drop_app_le, take_app_le by (rewrite ?length_drop; lia). done.
  - rewrite <- (Nat.add_0_r (0 + 4)), <- fmap_add_seq, <- list_fmap_compose.
    apply list_fmap_ext. intros i k _. cbn [compose]. do 2 f_equal.
    replace (4 * (0 + 4 + k))%nat with (length x + 4 * k)%nat by lia. apply drop_app_add.
Qed.

Lemma length_words (x : list Z) : length (words_of_bytes x) = (length x / 4)%nat.
Proof. unfold words_of_bytes. by rewrite length_fmap, length_seq. Qed.

Lemma words_range (x : list Z) :
  Forall byte x → Forall (fun w => 0 ≤ w < 2 ^ 32) (words_of_bytes x).
Proof.
  intros Hx. apply Forall_fmap, Forall_forall. intros i Hi. cbv beta.
  assert (Hl : (length (take 4 (drop (4 * i) x)) ≤ 4)%nat) by (rewrite length_take; lia).
  pose proof (le_value_range (take 4 (drop (4 * i) x)) ltac:(by apply Forall_take, Forall_drop)) as Hr.
  split; [lia|]. eapply Z.lt_le_trans; [apply Hr|]. apply Z.pow_le_mono_r; lia.
Qed.

Lemma words_of_blocks (xs : list (list Z)) :
  Forall is_block xs → words_of_bytes (concat xs) = xs ≫= words_of_bytes.
Proof.
  induction 1 as [|x xs [Hx _] Hxs IH]; cbn [concat mbind list_bind]; [done|].
  rewrite words_of_bytes_app by done. f_equal. exact IH.
Qed.
