(* ===== verification/Secure.v ===== *)
(** * Encryption and verification engines

    secure/encryption/sls_engine.h and sls_mac.h with table entries of type
    [uint32_t] and pads of 16 bytes.  A table row is the list of its entries; a
    tag is a [uint128_t].  The engines are proved against the interface of the
    backend in Aes. *)
From S2P Require Import Prelude Aes.

(** Element-wise [uint32_t] arithmetic of [std::transform]. *)
Definition add_row (x y : list Z) : list Z := zip_with (fun a b => u32 (a + b)) x y.
Definition sub_row (x y : list Z) : list Z := zip_with (fun a b => u32 (a - b)) x y.

Definition OTPBytes : nat := 16.
Definition OTP_SIZE : nat := 4.
Definition TAG_BYTES : nat := 16.

Section engines.
Context {B : Type} {E : EncryptionBackend B}.

(** [CommonCryptoEngine] *)
Record engine := mkEngine {
  version_ : Z;
  aes_engine_ : B
}.

Definition make_engine (version : Z) (key : list Z) : result engine :=
  let! b := construct AES_128 key in Ok (mkEngine version b).

(** ** [EncryptionEngine] *)
Definition otp_words (e : engine) (address : Z) : list Z :=
  words_of_bytes (generate_otp (aes_engine_ e) 0x0 (version_ e) address OTPBytes).

(** [for (auto it = begin; it != end; std::advance(it, data_slice.size()))] *)
Fixpoint encrypt_loop (n : nat) (e : engine) (data : list Z) (col_offset : Z) : list Z * Z :=
  match n with
  | O => ([], col_offset)
  | S n' =>
      let data_slice := take OTP_SIZE data in
      let rest := encrypt_loop n' e (drop OTP_SIZE data) (u64 (col_offset + Z.of_nat OTPBytes)) in
      (sub_row data_slice (otp_words e col_offset) ++ rest.1, rest.2)
  end.

Definition encrypt (e : engine) (data : list Z) (offset : Z) : result (list Z * Z) :=
  if negb (length data mod OTP_SIZE =? 0)%nat then Err InvalidArguments
  else
    let (enc, col_offset) := encrypt_loop (length data / OTP_SIZE) e data offset in
    Ok (enc, u64 (col_offset - offset)).

(** The pads of every offset, a row of [size] entries each. *)
Definition otp_buffer (e : engine) (offsets : list Z) (size : nat) : list Z :=
  words_of_bytes (generate_otp_vec (aes_engine_ e) 0x00 (version_ e) offsets
                    (OTP_SIZE * 4) (size / OTP_SIZE)).

Definition row_of (buffer : list Z) (size i : nat) : list Z := take size (drop (i * size) buffer).

(** A row that is no multiple of a pad makes the views of [generate_otp_vec] run
    past their end. *)
Definition offset_transform_reduce_vec (e : engine) (offsets : list Z) (init : list Z)
    (op : list Z → list Z → list Z) : result (list Z) :=
  if negb (length init mod OTP_SIZE =? 0)%nat then Err UndefinedBehaviour
  else
    let buffer := otp_buffer e offsets (length init) in
    Ok (fold_left (fun acc i => op acc (row_of buffer (length init) i))
          (seq 0 (length offsets)) init).

(** The deprecated version: column by column, one pad at a time. *)
Fixpoint offset_transform_reduce_loop (n : nat) (e : engine) (offsets init : list Z)
    (op : list Z → list Z → list Z) (col_offset : Z) : list Z :=
  match n with
  | O => []
  | S n' =>
      let output := take OTP_SIZE init in
      let data_slice :=
        fold_left (fun sum offset => op sum (otp_words e (u64 (offset + col_offset)))) offsets output in
      add_row data_slice output ++
      offset_transform_reduce_loop n' e offsets (drop OTP_SIZE init) op
        (u64 (col_offset + Z.of_nat OTPBytes))
  end.

Definition offset_transform_reduce (e : engine) (offsets init : list Z)
    (op : list Z → list Z → list Z) : result (list Z) :=
  if negb (length init mod OTP_SIZE =? 0)%nat then Err UndefinedBehaviour
  else Ok (offset_transform_reduce_loop (length init / OTP_SIZE) e offsets init op 0).

(** The second overload of [decrypt_psum]. *)
Definition decrypt_shares (psum otp_sum : list Z) : list Z := add_row psum otp_sum.

Definition decrypt_psum (e : engine) (psum offsets : list Z) (op : list Z → list Z → list Z)
  : result (list Z) :=
  if negb (length psum mod OTP_SIZE =? 0)%nat then Err InvalidArguments
  else
    let! op_result := offset_transform_reduce_vec e offsets (replicate (length psum) 0) op in
    Ok (decrypt_shares psum op_result).

(** ** [VerificationEngine] *)
Definition Q : Z := 2 ^ 127 - 1.

Record verifier := mkVerifier {
  v_engine : engine;
  base_address_ : Z
}.

Definition tag_otp (v : verifier) (prefix address : Z) : Z :=
  le_value (generate_otp (aes_engine_ (v_engine v)) prefix (version_ (v_engine v)) address TAG_BYTES).

(** [sum = sum + s * e; s = (s * s) % Q;] *)
Definition checksum_step (acc : Z * Z) (e : Z) : Z * Z :=
  let (sum, s) := acc in (u128 (sum + u128 (s * e)), u128 (s * s) mod Q).

Definition linear_checksum (v : verifier) (data : list Z) : Z :=
  (fold_left checksum_step data (0, tag_otp v 0x01 (base_address_ v))).1.

Definition generate_mac (v : verifier) (data : list Z) (address : Z) : Z :=
  u128 (linear_checksum v data - tag_otp v 0x10 address).

Definition validate_shares (v : verifier) (data : list Z) (computed_tag_sum generated_tag_sum : Z)
  : bool :=
  linear_checksum v data =? u128 (computed_tag_sum + generated_tag_sum).

Definition tag_transform_reduce (v : verifier) (offsets : list Z) (init : Z) (op : Z → Z → Z) : Z :=
  fold_left (fun sum address => op sum (tag_otp v 0x10 address)) offsets init.

Definition tag_transform_reduce_vec (v : verifier) (offsets : list Z) (init : Z) (op : Z → Z → Z) : Z :=
  let buffer := generate_otp_vec (aes_engine_ (v_engine v)) 0x10 (version_ (v_engine v)) offsets
                  TAG_BYTES 1 in
  fold_left op
    ((fun i => le_value (take TAG_BYTES (drop (i * TAG_BYTES) buffer))) <$> seq 0 (length offsets)) init.

Definition validate_psum (v : verifier) (data offsets : list Z) (C : Z) (op : Z → Z → Z) : bool :=
  validate_shares v data C (tag_transform_reduce_vec v offsets 0 op).
End engines.

Arguments engine : clear implicits.
Arguments verifier : clear implicits.

(** ** Rows as vectors modulo 2^32 *)
Definition row_ok (n : nat) (r : list Z) : Prop := length r = n ∧ Forall (fun x => 0 ≤ x < 2 ^ 32) r.

Definition entry (r : list Z) (j : nat) : Z := default 0 (r !! j).

(** The sum of a column. *)
Definition column_sum (rows : list (list Z)) (j : nat) : Z := sum_list_Z ((fun r => entry r j) <$> rows).

Definition sum_rows (n : nat) (rows : list (list Z)) : list Z :=
  fold_left add_row rows (replicate n 0).

Lemma u32_range (x : Z) : 0 ≤ u32 x < 2 ^ 32.
Proof. by apply Z.mod_pos_bound. Qed.

Lemma u32_small (x : Z) : 0 ≤ x < 2 ^ 32 → u32 x = x.
Proof. apply Z.mod_small. Qed.

Lemma u32_add_l (x y : Z) : u32 (u32 x + y) = u32 (x + y).
Proof. apply Zplus_mod_idemp_l. Qed.

Lemma u32_add_r (x y : Z) : u32 (x + u32 y) = u32 (x + y).
Proof. apply Zplus_mod_idemp_r. Qed.

Lemma add_row_ok (n : nat) (x y : list Z) : length x = n → length y = n → row_ok n (add_row x y).
Proof.
  intros Hx Hy. unfold add_row. split; [rewrite length_zip_with; lia|].
  apply Forall_lookup. intros i z Hz. apply lookup_zip_with_Some in Hz as (a & b & -> & _).
  apply u32_range.
Qed.

Lemma sub_row_ok (n : nat) (x y : list Z) : length x = n → length y = n → row_ok n (sub_row x y).
Proof.
  intros Hx Hy. unfold sub_row. split; [rewrite length_zip_with; lia|].
  apply Forall_lookup. intros i z Hz. apply lookup_zip_with_Some in Hz as (a & b & -> & _).
  apply u32_range.
Qed.

Lemma entry_zip (f : Z → Z → Z) (n j : nat) (x y : list Z) :
  length x = n → length y = n → (j < n)%nat →
  entry (zip_with f x y) j = f (entry x j) (entry y j).
Proof.
  intros Hx Hy Hj. unfold entry. rewrite lookup_zip_with.
  destruct (lookup_lt_is_Some_2 x j) as [a Ha]; [lia|].
  destruct (lookup_lt_is_Some_2 y j) as [b Hb]; [lia|]. by rewrite Ha, Hb.
Qed.

Lemma entry_range (n j : nat) (r : list Z) : row_ok n r → 0 ≤ entry r j < 2 ^ 32.
Proof.
  intros [_ Hr]. unfold entry. destruct (r !! j) as [x|] eqn:E; cbn; [|lia].
  by apply (Forall_lookup_1 _ _ _ _ Hr E).
Qed.

(** Rows of one length with the same entries are equal. *)
Lemma row_eq (n : nat) (x y : list Z) :
  length x = n → length y = n → (∀ j, (j < n)%nat → entry x j = entry y j) → x = y.
Proof.
  intros Hx Hy H. apply list_eq. intros j. destruct (decide (j < n)%nat) as [Hj|Hj].
  - specialize (H j Hj). unfold entry in H.
    destruct (lookup_lt_is_Some_2 x j) as [a Ha]; [lia|].
    destruct (lookup_lt_is_Some_2 y j) as [b Hb]; [lia|]. rewrite Ha, Hb in *. by cbn in H; subst.
  - rewrite !lookup_ge_None_2 by lia. done.
Qed.

Lemma sum_rows_from (n : nat) (rows : list (list Z)) : ∀ init,
  row_ok n init → Forall (fun r => length r = n) rows →
  row_ok n (fold_left add_row rows init) ∧
  ∀ j, (j < n)%nat →
    entry (fold_left add_row rows init) j = u32 (entry init j + column_sum rows j).
Proof.
  induction rows as [|r rows IH]; intros init Hi Hl; cbn [fold_left].
  - split; [done|]. intros j _. unfold column_sum. cbn. rewrite Z.add_0_r.
    symmetry. apply u32_small. by apply (entry_range n).
  - apply Forall_cons in Hl as [Hr Hl]. destruct Hi as [Hil Hi].
    destruct (IH (add_row init r) (add_row_ok n _ _ Hil Hr) Hl) as [Hok He].
    split; [done|]. intros j Hj. rewrite He by done. unfold add_row.
    rewrite (entry_zip _ n) by done. rewrite u32_add_l. f_equal.
    unfold column_sum, sum_list_Z. cbn. lia.
Qed.

Lemma zeros_ok (n : nat) : row_ok n (replicate n 0).
Proof. split; [apply length_replicate|]. apply Forall_replicate. lia. Qed.

Lemma entry_zeros (n j : nat) : entry (replicate n 0) j = 0.
Proof.
  unfold entry. destruct (replicate n 0 !! j) as [x|] eqn:E; [|done].
  apply lookup_replicate in E as [-> _]. done.
Qed.

Lemma sum_rows_spec (n : nat) (rows : list (list Z)) :
  Forall (fun r => length r = n) rows →
  row_ok n (sum_rows n rows) ∧
  ∀ j, (j < n)%nat → entry (sum_rows n rows) j = u32 (column_sum rows j).
Proof.
  intros Hl. destruct (sum_rows_from n rows (replicate n 0) (zeros_ok n) Hl) as [Hok He].
  split; [done|]. intros j Hj. unfold sum_rows. rewrite He, entry_zeros by done. done.
Qed.

(** ** Pads of a row *)
Section pads.
Context {B : Type} {E : EncryptionBackend B} {L : EncryptionBackendLaws B}.
Context (e : engine B) (He : backend_ok (aes_engine_ e)).

(** The pads of the [4 * n] entries at [offset]. *)
Definition otp_row (offset : Z) (n : nat) : list Z :=
  seq 0 n ≫= (fun k => otp_words e (u64 (offset + Z.of_nat k * 16))).

Lemma otp_words_ok (address : Z) : row_ok 4 (otp_words e address).
Proof.
  destruct (generate_otp_block (aes_engine_ e) He 0 (version_ e) address) as [Hl Hb].
  unfold otp_words, OTPBytes. split.
  - by rewrite length_words, Hl.
  - by apply words_range.
Qed.

Lemma otp_row_S (offset : Z) (n : nat) :
  otp_row offset (S n) = otp_words e (u64 offset) ++ otp_row (u64 (offset + 16)) n.
Proof.
  unfold otp_row. cbn [seq mbind list_bind]. f_equal; [by rewrite Z.add_0_r|].
  rewrite <- fmap_S_seq, bind_map.
  assert (H : ∀ l, (l ≫= fun k => otp_words e (u64 (offset + Z.of_nat (S k) * 16))) =
                   (l ≫= fun k => otp_words e (u64 (u64 (offset + 16) + Z.of_nat k * 16)))).
  { induction l as [|k l IH]; cbn [mbind list_bind]; [done|]. f_equal; [|exact IH]. f_equal.
    rewrite u64_add_l. f_equal. lia. }
  apply H.
Qed.

Lemma otp_row_ok (n : nat) : ∀ offset, row_ok (4 * n) (otp_row offset n).
Proof.
  induction n as [|n IH]; intros offset; [split; [done|by apply Forall_nil]|].
  rewrite otp_row_S. destruct (otp_words_ok (u64 offset)) as [Hl Hr].
  destruct (IH (u64 (offset + 16))) as [Hl' Hr']. split.
  - rewrite length_app. lia.
  - by apply Forall_app.
Qed.

Lemma length_otp_row (offset : Z) (n : nat) : length (otp_row offset n) = (4 * n)%nat.
Proof. exact (proj1 (otp_row_ok n offset)). Qed.

Lemma encrypt_loop_spec (n : nat) : ∀ data offset,
  length data = (4 * n)%nat → 0 ≤ offset < 2 ^ 64 →
  encrypt_loop n e data offset = (sub_row data (otp_row offset n), u64 (offset + 16 * Z.of_nat n)).
Proof.
  induction n as [|n IH]; intros data offset Hl Ho; cbn [encrypt_loop].
  - destruct data; [|done]. f_equal. rewrite Z.add_0_r. symmetry. by apply u64_small.
  - rewrite otp_row_S, (u64_small offset) by done. unfold OTP_SIZE, OTPBytes.
    rewrite IH by (rewrite ?length_drop; first [lia|apply u64_range]). cbn [fst snd]. f_equal.
    + rewrite <- (take_drop 4 data) at 3. unfold sub_row. rewrite zip_with_app; [done|].
      rewrite length_take, (proj1 (otp_words_ok offset)). lia.
    + rewrite u64_add_l. f_equal. lia.
Qed.

Lemma encrypt_spec (n : nat) (data : list Z) (offset : Z) :
  length data = (4 * n)%nat → 0 ≤ offset < 2 ^ 64 →
  encrypt e data offset = Ok (sub_row data (otp_row offset n), u64 (16 * Z.of_nat n)).
Proof.
  intros Hl Ho. unfold encrypt. change OTP_SIZE with 4%nat. rewrite Hl, Nat.mul_comm.
  rewrite Nat.Div0.mod_mul, Nat.div_mul by lia. cbn [Nat.eqb negb].
  rewrite (encrypt_loop_spec n) by (lia || done). do 2 f_equal.
  unfold u64. rewrite Zminus_mod_idemp_l. f_equal. lia.
Qed.

(** The buffer of pads has the row of pads of every offset. *)
Lemma otp_buffer_spec (offsets : list Z) (n : nat) :
  otp_buffer e offsets (4 * n) = offsets ≫= (fun o => otp_row o n).
Proof.
  unfold otp_buffer, OTP_SIZE. change (4 * 4)%nat with 16%nat.
  rewrite Nat.mul_comm, Nat.div_mul, (generate_otp_vec_spec _ He) by lia.
  assert (H : ∀ l : list Z, words_of_bytes (l ≫= (fun a => seq 0 n ≫= (fun k =>
      generate_otp (aes_engine_ e) 0 (version_ e) (u64 (a + Z.of_nat k * 16)) 16))) =
    l ≫= (fun o => otp_row o n)); [|apply H].
  intros l. rewrite <- concat_fmap_bind. rewrite <- (concat_fmap_bind (fun o => otp_row o n)).
  set (pads := l ≫= (fun a => (fun k =>
      generate_otp (aes_engine_ e) 0 (version_ e) (u64 (a + Z.of_nat k * 16)) 16) <$> seq 0 n)).
  assert (E1 : ∀ f : list Z → list Z, pads ≫= f = l ≫= (fun a => seq 0 n ≫= (fun k =>
    f (generate_otp (aes_engine_ e) 0 (version_ e) (u64 (a + Z.of_nat k * 16)) 16)))).
  { intros f. unfold pads. induction l as [|a l IH]; cbn [mbind list_bind]; [done|].
    rewrite bind_app. f_equal; [apply bind_map|exact IH]. }
  rewrite !concat_fmap_bind. pose proof (E1 id) as E0. unfold id in E0. rewrite <- E0.
  replace (pads ≫= (fun x => x)) with (concat pads)
    by (rewrite <- concat_fmap_bind; by rewrite list_fmap_id).
  rewrite words_of_blocks; [apply (E1 words_of_bytes)|].
  unfold pads. apply Forall_bind, Forall_forall. intros a _. apply Forall_fmap, Forall_forall.
  intros k _. by apply generate_otp_block.
Qed.

Lemma row_of_bind (f : Z → list Z) (n : nat) (l : list Z) : ∀ i o,
  (∀ o, length (f o) = n) → l !! i = Some o → row_of (l ≫= f) n i = f o.
Proof.
  induction l as [|x l IH]; intros i o Hf Ho; [done|]. unfold row_of in *. cbn [mbind list_bind].
  destruct i as [|i].
  - injection Ho as <-. cbn. by apply take_app_length'.
  - replace (S i * n)%nat with (n + i * n)%nat by lia. rewrite <- drop_drop, (drop_app_length' (f x)) by done.
    by apply IH.
Qed.

(** The vectorised reduction folds the pads of the offsets. *)
Lemma reduce_vec_spec (n : nat) (offsets init : list Z) (op : list Z → list Z → list Z) :
  length init = (4 * n)%nat →
  offset_transform_reduce_vec e offsets init op =
  Ok (fold_left op ((fun o => otp_row o n) <$> offsets) init).
Proof.
  intros Hl. unfold offset_transform_reduce_vec. change OTP_SIZE with 4%nat. rewrite Hl.
  replace (4 * n mod 4)%nat with 0%nat by (symmetry; rewrite Nat.mul_comm; apply Nat.Div0.mod_mul).
  cbn [Nat.eqb negb]. f_equal.
  rewrite otp_buffer_spec. set (buf := offsets ≫= _).
  assert (H : ∀ k l init, (∀ i o, l !! i = Some o → offsets !! (k + i)%nat = Some o) →
    fold_left (fun acc i => op acc (row_of buf (4 * n) i)) (seq k (length l)) init =
    fold_left op ((fun o => otp_row o n) <$> l) init).
  { intros k l. revert k. induction l as [|o l IH]; intros k acc H; [done|].
    cbn [length seq fold_left fmap list_fmap].
    assert (Hrow : row_of buf (4 * n) k = otp_row o n).
    { apply (row_of_bind (fun o => otp_row o n)); [intros o'; apply (length_otp_row _ n)|].
      rewrite <- (Nat.add_0_r k). by apply (H 0%nat). }
    rewrite Hrow. apply IH. intros i o' Ho'. replace (S k + i)%nat with (k + S i)%nat by lia.
    by apply H. }
  by apply (H 0%nat).
Qed.

Lemma decrypt_psum_spec (n : nat) (psum offsets : list Z) :
  length psum = (4 * n)%nat →
  decrypt_psum e psum offsets add_row =
  Ok (add_row psum (sum_rows (4 * n) ((fun o => otp_row o n) <$> offsets))).
Proof.
  intros Hl. unfold decrypt_psum. change OTP_SIZE with 4%nat. rewrite Hl.
  replace (4 * n mod 4)%nat with 0%nat by (symmetry; rewrite Nat.mul_comm; apply Nat.Div0.mod_mul).
  cbn [Nat.eqb negb]. rewrite (reduce_vec_spec n) by apply length_replicate. done.
Qed.

Lemma otp_row_u64 (offset : Z) (n : nat) : otp_row (u64 offset) n = otp_row offset n.
Proof.
  unfold otp_row. generalize (seq 0 n). induction l as [|k l IH]; [done|]. cbn [mbind list_bind].
  f_equal; [|exact IH]. by rewrite u64_add_l.
Qed.

Lemma fold_left_map {A C S} (f : S → C → S) (g : A → C) (l : list A) : ∀ s,
  fold_left f (g <$> l) s = fold_left (fun s x => f s (g x)) l s.
Proof. induction l as [|x l IH]; intros s; [done|]. apply IH. Qed.

Lemma fold_add_app {A} (f g : A → list Z) (k : nat) (l : list A) : ∀ a b,
  (∀ x, length (f x) = k) → length a = k →
  fold_left add_row ((fun x => f x ++ g x) <$> l) (a ++ b) =
  fold_left add_row (f <$> l) a ++ fold_left add_row (g <$> l) b.
Proof.
  induction l as [|x l IH]; intros a b Hf Ha; [done|]. cbn [fmap list_fmap fold_left].
  unfold add_row at 2. rewrite zip_with_app by (rewrite Hf; done).
  apply IH; [done|]. exact (proj1 (add_row_ok k a (f x) Ha (Hf x))).
Qed.

(** The column-wise reduction. *)
Lemma reduce_loop_spec (n : nat) (offsets : list Z) : ∀ init col,
  length init = (4 * n)%nat →
  offset_transform_reduce_loop n e offsets init add_row col =
  add_row (fold_left add_row ((fun o => otp_row (o + col) n) <$> offsets) init) init.
Proof.
  induction n as [|n IH]; intros init col Hl; cbn [offset_transform_reduce_loop].
  - destruct init; [|done]. unfold add_row at 1. by rewrite zip_with_nil_r.
  - unfold OTP_SIZE, OTPBytes.
    rewrite IH by (rewrite length_drop; lia).
    assert (E1 : (fun o => otp_row (o + col) (S n)) <$> offsets =
      (fun o => otp_words e (u64 (o + col)) ++ otp_row (o + u64 (col + Z.of_nat 16)) n) <$> offsets).
    { apply list_fmap_ext. intros i o _. rewrite otp_row_S. f_equal.
      rewrite <- (otp_row_u64 (o + u64 (col + Z.of_nat 16))), u64_add_r. do 2 f_equal. lia. }
    rewrite E1. pose proof (take_drop 4 init) as Hab.
    assert (Ha : length (take 4 init) = 4%nat) by (rewrite length_take; lia). clear Hl IH.
    revert Hab Ha. generalize (take 4 init) (drop 4 init). intros a b <- Ha.
    rewrite (fold_add_app _ _ 4) by (done || intros o; apply otp_words_ok).
    unfold add_row at 5. rewrite zip_with_app.
    + f_equal. unfold add_row at 1. f_equal. symmetry. apply fold_left_map.
    + rewrite Ha. clear E1. revert a Ha. induction offsets as [|o l IHl]; intros a Ha; [done|].
      apply IHl. exact (proj1 (add_row_ok 4 a _ Ha (proj1 (otp_words_ok _)))).
Qed.

(** The entries of a column of encrypted rows. *)
Lemma column_sum_sub (m : nat) (rows : list (Z * list Z)) (pad : Z → list Z) (j : nat) :
  Forall (fun p => length p.2 = m) rows → (∀ o, length (pad o) = m) → (j < m)%nat →
  u32 (column_sum ((fun p => sub_row p.2 (pad p.1)) <$> rows) j + column_sum (pad <$> rows.*1) j) =
  u32 (column_sum rows.*2 j).
Proof.
  intros Hr Hp Hj. unfold column_sum. induction Hr as [|[o d] rows Hd Hr IH]; [done|].
  cbn [fmap list_fmap fst snd sum_list_Z foldr]. cbn [snd] in Hd. unfold sub_row at 1.
  rewrite (entry_zip _ m) by done.
  match goal with |- u32 (u32 ?a + ?b + (?c + ?d)) = u32 (?x + ?y) =>
    replace (u32 a + b + (c + d)) with (u32 a + (c + (b + d))) by lia;
    rewrite u32_add_l; replace (a + (c + (b + d))) with (x + (b + d)) by lia;
    rewrite <- (u32_add_r x (b + d)) end.
  setoid_rewrite IH. by rewrite u32_add_r.
Qed.

Lemma Forall_pads (n : nat) (offsets : list Z) :
  Forall (fun r => length r = (4 * n)%nat) ((fun o => otp_row o n) <$> offsets).
Proof. apply Forall_fmap, Forall_forall. intros o _. exact (length_otp_row o n). Qed.

(** The encrypted rows add up to the encryption of the sum. *)
Lemma sum_of_encrypted (n : nat) (rows : list (Z * list Z)) :
  Forall (fun p => length p.2 = (4 * n)%nat) rows →
  add_row (sum_rows (4 * n) ((fun p => sub_row p.2 (otp_row p.1 n)) <$> rows))
    (sum_rows (4 * n) ((fun o => otp_row o n) <$> rows.*1)) =
  sum_rows (4 * n) rows.*2.
Proof.
  intros Hr.
  assert (He' : Forall (fun r => length r = (4 * n)%nat)
    ((fun p : Z * list Z => sub_row p.2 (otp_row p.1 n)) <$> rows)).
  { apply Forall_fmap. eapply Forall_impl; [exact Hr|]. intros [o d] Hd.
    apply sub_row_ok; [done|]. apply (length_otp_row _ n). }
  assert (Hd : Forall (fun r => length r = (4 * n)%nat) rows.*2) by by apply Forall_fmap.
  destruct (sum_rows_spec _ _ He') as [[Hl1 _] E1].
  destruct (sum_rows_spec _ _ (Forall_pads n rows.*1)) as [[Hl2 _] E2].
  destruct (sum_rows_spec _ _ Hd) as [[Hl3 _] E3].
  apply (row_eq (4 * n)); [by apply add_row_ok|assumption|]. intros j Hj. unfold add_row.
  rewrite (entry_zip _ (4 * n)), E1, E2, E3, u32_add_l, u32_add_r by assumption.
  apply (column_sum_sub (4 * n) rows (fun o => otp_row o n)); [assumption| |assumption].
  intros o. apply (length_otp_row _ n).
Qed.
End pads.

(** ** Checksums modulo 2^128 *)

(** The weights of the entries: [s], then the square of the previous weight. *)
Fixpoint weights (n : nat) (s : Z) : list Z :=
  match n with O => [] | S n' => s :: weights n' (u128 (s * s) mod Q) end.

Definition dot (ws d : list Z) : Z := sum_list_Z (zip_with Z.mul ws d).

Lemma u128_range (x : Z) : 0 ≤ u128 x < 2 ^ 128.
Proof. by apply Z.mod_pos_bound. Qed.

Lemma u128_small (x : Z) : 0 ≤ x < 2 ^ 128 → u128 x = x.
Proof. apply Z.mod_small. Qed.

Lemma u128_add_l (x y : Z) : u128 (u128 x + y) = u128 (x + y).
Proof. apply Zplus_mod_idemp_l. Qed.

Lemma u128_add_r (x y : Z) : u128 (x + u128 y) = u128 (x + y).
Proof. apply Zplus_mod_idemp_r. Qed.

Lemma u128_sub_l (x y : Z) : u128 (u128 x - y) = u128 (x - y).
Proof. apply Zminus_mod_idemp_l. Qed.

Lemma checksum_fold (data : list Z) : ∀ sum s,
  0 ≤ sum < 2 ^ 128 →
  (fold_left checksum_step data (sum, s)).1 = u128 (sum + dot (weights (length data) s) data).
Proof.
  induction data as [|x data IH]; intros sum s Hs.
  - cbn -[Z.pow]. rewrite Z.add_0_r. symmetry. by apply u128_small.
  - cbn [fold_left length weights]. unfold checksum_step at 2. rewrite IH by apply u128_range.
    unfold dot. cbn [zip_with sum_list_Z foldr]. rewrite u128_add_l.
    replace (sum + u128 (s * x) + sum_list_Z (zip_with Z.mul (weights (length data) (u128 (s * s) mod Q)) data))
      with (u128 (s * x) + (sum + sum_list_Z (zip_with Z.mul (weights (length data) (u128 (s * s) mod Q)) data)))
      by lia.
    rewrite u128_add_l. unfold sum_list_Z. f_equal. lia.
Qed.

(** The sums of the columns, as integers. *)
Definition columns (n : nat) (rows : list (list Z)) : list Z := column_sum rows <$> seq 0 n.

Lemma columns_cons (n : nat) (r : list Z) (rows : list (list Z)) :
  length r = n → columns n (r :: rows) = zip_with Z.add r (columns n rows).
Proof.
  intros Hr. apply list_eq. intros j. unfold columns. rewrite lookup_zip_with, !list_lookup_fmap.
  destruct (decide (j < n)%nat) as [Hj|Hj].
  - rewrite lookup_seq_lt by done. destruct (lookup_lt_is_Some_2 r j) as [x Hx]; [lia|].
    rewrite Hx. cbn. unfold column_sum, sum_list_Z. cbn. unfold entry at 1. by rewrite Hx.
  - rewrite lookup_seq_ge, (lookup_ge_None_2 r) by lia. done.
Qed.

Lemma length_weights (n : nat) : ∀ s, length (weights n s) = n.
Proof. induction n as [|n IH]; intros s; cbn; [done|]. by rewrite IH. Qed.

Lemma dot_add (ws : list Z) : ∀ a b,
  length a = length ws → length b = length ws →
  dot ws (zip_with Z.add a b) = dot ws a + dot ws b.
Proof.
  unfold dot, sum_list_Z. induction ws as [|w ws IH]; intros [|x a] [|y b] Ha Hb; try done.
  cbn [zip_with foldr]. injection Ha as Ha. injection Hb as Hb. rewrite IH by done. lia.
Qed.

Lemma dot_zeros (ws : list Z) (n : nat) : dot ws (replicate n 0) = 0.
Proof.
  unfold dot, sum_list_Z. revert n. induction ws as [|w ws IH]; intros [|n]; cbn; try done.
  rewrite IH. lia.
Qed.

Lemma dot_columns (ws : list Z) (rows : list (list Z)) :
  Forall (fun r => length r = length ws) rows →
  sum_list_Z (dot ws <$> rows) = dot ws (columns (length ws) rows).
Proof.
  induction 1 as [|r rows Hr Hrs IH].
  - replace (columns (length ws) []) with (replicate (length ws) 0); [by rewrite dot_zeros|].
    apply list_eq. intros j. unfold columns. rewrite list_lookup_fmap.
    destruct (decide (j < length ws)%nat).
    + by rewrite lookup_seq_lt, (proj2 (lookup_replicate _ _ _ _)) by done.
    + rewrite lookup_seq_ge, (lookup_ge_None_2 (replicate _ _)) by (rewrite ?length_replicate; lia). done.
  - rewrite columns_cons by done. rewrite dot_add by (unfold columns; rewrite ?length_fmap, ?length_seq; done).
    rewrite <- IH. done.
Qed.

(** A sum of residues is the residue of the sum. *)
Lemma fold_add128 (l : list Z) : ∀ a, 0 ≤ a < 2 ^ 128 →
  fold_left (fun x y => u128 (x + y)) l a = u128 (a + sum_list_Z l).
Proof.
  induction l as [|x l IH]; intros a Ha; cbn [fold_left sum_list_Z foldr].
  - rewrite Z.add_0_r. symmetry. by apply u128_small.
  - rewrite IH by apply u128_range. rewrite u128_add_l. f_equal. unfold sum_list_Z. lia.
Qed.

Lemma u128_sum (l : list Z) : u128 (sum_list_Z (u128 <$> l)) = u128 (sum_list_Z l).
Proof.
  induction l as [|x l IH]; [done|]. cbn [fmap list_fmap sum_list_Z foldr]. unfold sum_list_Z in *.
  rewrite u128_add_l, <- u128_add_r, IH. apply u128_add_r.
Qed.

Definition add128 (x y : Z) : Z := u128 (x + y).

Definition address_ok (a : Z) : Prop := 0 ≤ a < 2 ^ 64.

Section tags.
Context {B : Type} {E : EncryptionBackend B} {L : EncryptionBackendLaws B}.
Context (v : verifier B) (Hv : backend_ok (aes_engine_ (v_engine v))).

Lemma tag_otp_range (prefix address : Z) : 0 ≤ tag_otp v prefix address < 2 ^ 128.
Proof.
  unfold tag_otp, TAG_BYTES.
  destruct (generate_otp_block _ Hv prefix (version_ (v_engine v)) address) as [Hl Hb].
  pose proof (le_value_range _ Hb) as Hr. rewrite Hl in Hr. exact Hr.
Qed.

(** The pads generated together are folded like those generated one by one. *)
Lemma tag_vec_spec (offsets : list Z) (init : Z) (op : Z → Z → Z) :
  Forall address_ok offsets →
  tag_transform_reduce_vec v offsets init op = tag_transform_reduce v offsets init op.
Proof.
  intros Ho. unfold tag_transform_reduce_vec, tag_transform_reduce, TAG_BYTES.
  rewrite (generate_otp_vec_spec _ Hv).
  set (pad a := generate_otp (aes_engine_ (v_engine v)) 16 (version_ (v_engine v)) a 16).
  assert (Ep : ∀ l : list Z, Forall address_ok l →
    l ≫= (fun a => seq 0 1 ≫= (fun k => pad (u64 (a + Z.of_nat k * 16)))) = concat (pad <$> l)).
  { induction 1 as [|a l Ha Hl IH]; [done|]. cbn [seq mbind list_bind fmap list_fmap concat].
    f_equal; [|exact IH]. rewrite app_nil_r, Z.add_0_r. by rewrite u64_small. }
  specialize (Ep offsets Ho). unfold pad in Ep at 1. rewrite Ep. cbv zeta. clear Ep Ho.
  replace ((fun i => le_value (take 16 (drop (i * 16) (concat (pad <$> offsets))))) <$> seq 0 (length offsets))
    with (tag_otp v 16 <$> offsets).
  - revert init. induction offsets as [|a l IH]; intros init; [done|]. cbn. apply IH.
  - apply list_eq. intros i. rewrite !list_lookup_fmap. destruct (offsets !! i) as [a|] eqn:Ea; cbn [fmap option_fmap option_map].
    + rewrite lookup_seq_lt by (by apply lookup_lt_Some in Ea). cbn [fmap option_fmap option_map]. f_equal.
      unfold tag_otp, TAG_BYTES. f_equal. rewrite Nat.mul_comm. symmetry.
      apply (block_at_concat (pad <$> offsets) i (pad a)).
      * apply Forall_fmap, Forall_forall. intros x _. apply (generate_otp_block _ Hv).
      * by rewrite list_lookup_fmap, Ea.
    + rewrite lookup_seq_ge by (by apply lookup_ge_None in Ea). done.
Qed.

Lemma linear_checksum_spec (data : list Z) :
  linear_checksum v data =
  u128 (dot (weights (length data) (tag_otp v 0x01 (base_address_ v))) data).
Proof. unfold linear_checksum. by rewrite checksum_fold. Qed.

Lemma tag_sum_spec (offsets : list Z) :
  tag_transform_reduce v offsets 0 add128 = u128 (sum_list_Z (tag_otp v 0x10 <$> offsets)).
Proof.
  unfold tag_transform_reduce, add128.
  assert (H : ∀ l a, fold_left (fun sum address => u128 (sum + tag_otp v 16 address)) l a =
    fold_left (fun x y => u128 (x + y)) (tag_otp v 16 <$> l) a).
  { induction l as [|x l IH]; intros a; [done|]. cbn. apply IH. }
  rewrite H, fold_add128 by lia. done.
Qed.

(** The tags of rows and the pads of their addresses add up to the checksum of the
    column sums. *)
Lemma mac_sum_spec (n : nat) (rows : list (Z * list Z)) :
  Forall (fun p => length p.2 = n) rows →
  u128 (sum_list_Z ((fun p => generate_mac v p.2 p.1) <$> rows) +
        sum_list_Z (tag_otp v 0x10 <$> rows.*1)) =
  u128 (dot (weights n (tag_otp v 0x01 (base_address_ v))) (columns n rows.*2)).
Proof.
  intros Hr. set (ws := weights n _).
  assert (Hw : length ws = n) by apply length_weights.
  rewrite <- Hw at 1. rewrite <- dot_columns by (rewrite Hw; by apply Forall_fmap). clear Hw.
  induction Hr as [|[o d] rows Hd Hr IH]; [done|].
  cbn [fmap list_fmap fst snd sum_list_Z foldr] in *. unfold generate_mac at 1.
  rewrite linear_checksum_spec, Hd. fold ws.
  set (S1 := foldr Z.add 0 ((fun p => generate_mac v p.2 p.1) <$> rows)) in *.
  set (S2 := foldr Z.add 0 (tag_otp v 16 <$> rows.*1)) in *.
  replace (sum_list_Z ((fun p => generate_mac v p.2 p.1) <$> rows)) with S1 in IH by done.
  rewrite u128_sub_l.
  replace (u128 (dot ws d - tag_otp v 16 o) + S1 + (tag_otp v 16 o + S2)) with
    (u128 (dot ws d - tag_otp v 16 o) + (S1 + tag_otp v 16 o + S2)) by lia.
  rewrite u128_add_l.
  replace (dot ws d - tag_otp v 16 o + (S1 + tag_otp v 16 o + S2)) with (dot ws d + (S1 + S2)) by lia.
  rewrite <- u128_add_r. change (u128 (S1 + S2)) with (u128 (S1 + sum_list_Z (tag_otp v 16 <$> rows.*1))).
  rewrite IH. apply u128_add_r.
Qed.

(** What a validation compares. *)
Lemma validate_spec (n : nat) (rows : list (Z * list Z)) (data : list Z) :
  Forall (fun p => address_ok p.1 ∧ length p.2 = n) rows → length data = n →
  validate_psum v data rows.*1 (u128 (sum_list_Z ((fun p => generate_mac v p.2 p.1) <$> rows))) add128 =
  (u128 (dot (weights n (tag_otp v 0x01 (base_address_ v))) data) =?
   u128 (dot (weights n (tag_otp v 0x01 (base_address_ v))) (columns n rows.*2))).
Proof.
  intros Hr Hd. apply Forall_and in Hr as [Ha Hl]. unfold validate_psum, validate_shares.
  rewrite tag_vec_spec, tag_sum_spec by by apply Forall_fmap.
  rewrite u128_add_l, u128_add_r, (mac_sum_spec n) by done. by rewrite linear_checksum_spec, Hd.
Qed.
End tags.

(** ** Sums over rows that no column overflows *)
Lemma sum_rows_exact (n : nat) (rows : list (list Z)) :
  Forall (fun r => length r = n) rows →
  (∀ j, (j < n)%nat → 0 ≤ column_sum rows j < 2 ^ 32) →
  sum_rows n rows = columns n rows.
Proof.
  intros Hl Hs. destruct (sum_rows_spec n rows Hl) as [[Hn _] He].
  apply (row_eq n); [assumption|unfold columns; by rewrite length_fmap, length_seq|].
  intros j Hj. rewrite (He j Hj), u32_small by by apply Hs.
  unfold entry, columns. by rewrite list_lookup_fmap, lookup_seq_lt.
Qed.

(** ** A backend to evaluate the engines with: every byte complemented *)
Definition complement : EncryptionBackend unit := {|
  construct := fun _ _ => Ok tt;
  encrypt_bytes := fun _ data => (fun b => 2 ^ 8 - 1 - b) <$> data
|}.

Lemma complement_laws : @EncryptionBackendLaws unit complement.
Proof.
  split with (fun _ => True).
  - done.
  - intros [] x _ [Hl Hb]. cbn. split; [by rewrite length_fmap|]. apply Forall_fmap.
    eapply Forall_impl; [exact Hb|]. unfold byte. cbn. lia.
  - intros [] xs _ _. cbn. induction xs as [|x xs IH]; cbn; [done|]. by rewrite fmap_app, IH.
Qed.
#[export] Existing Instance complement_laws.

(** ** Properties *)

(** The encryption of every row. *)
Fixpoint encrypt_rows {B} {E : EncryptionBackend B} (e : engine B) (rows : list (Z * list Z))
  : result (list (list Z)) :=
  match rows with
  | [] => Ok []
  | (offset, d) :: rows' =>
      let! (enc, _) := encrypt e d offset in
      let! rest := encrypt_rows e rows' in
      Ok (enc :: rest)
  end.

Lemma encrypt_rows_spec {B} {E : EncryptionBackend B} {L : EncryptionBackendLaws B}
    (e : engine B) (n : nat) (rows : list (Z * list Z)) :
  backend_ok (aes_engine_ e) →
  Forall (fun p => address_ok p.1 ∧ length p.2 = (4 * n)%nat) rows →
  encrypt_rows e rows = Ok ((fun p => sub_row p.2 (otp_row e p.1 n)) <$> rows).
Proof.
  intros He. induction 1 as [|[o d] rows [Ho Hd] Hr IH]; cbn [encrypt_rows]; [done|].
  rewrite (encrypt_spec e He n) by done. cbn [rbind]. by rewrite IH.
Qed.

Lemma make_engine_ok {B} {E : EncryptionBackend B} {L : EncryptionBackendLaws B}
    (version : Z) (key : list Z) (e : engine B) :
  make_engine version key = Ok e → backend_ok (aes_engine_ e).
Proof.
  unfold make_engine. destruct (construct AES_128 key) as [b|] eqn:Hb; [|done].
  intros [= <-]. by apply (construct_ok AES_128 key).
Qed.

(** For every backend that encrypts block by block, an engine encrypts
    rows of whole pads, and the element-wise [uint32_t] sum of encrypted rows, as a
    device computes it, is decrypted with the rows' addresses into the sum of the
    plain rows. *)
Theorem encrypted_sum_decrypts {B} {E : EncryptionBackend B} {L : EncryptionBackendLaws B}
    (version : Z) (key : list Z) (e : engine B) (n : nat) (rows : list (Z * list Z)) :
  make_engine version key = Ok e →
  Forall (fun p => address_ok p.1 ∧ length p.2 = (4 * n)%nat) rows →
  ∃ enc, encrypt_rows e rows = Ok enc ∧
    decrypt_psum e (sum_rows (4 * n) enc) rows.*1 add_row = Ok (sum_rows (4 * n) rows.*2).
Proof.
  intros He Hr. apply make_engine_ok in He.
  exists ((fun p => sub_row p.2 (otp_row e p.1 n)) <$> rows). split; [by apply encrypt_rows_spec|].
  apply Forall_and in Hr as [_ Hl].
  rewrite (decrypt_psum_spec e He n).
  - f_equal. by apply sum_of_encrypted.
  - apply sum_rows_spec, Forall_fmap. eapply Forall_impl; [exact Hl|]. intros [o d] Hd.
    apply sub_row_ok; [done|]. exact (length_otp_row e He o n).
Qed.

Definition sample_engine : engine unit := mkEngine 7 tt.

Definition sample_rows : list (Z * list Z) :=
  [(0, [1; 2; 3; 4]); (32, [2 ^ 32 - 1; 7; 0; 9]); (0, [1; 2; 3; 4])].

Lemma sample_rows_ok : Forall (fun p => address_ok p.1 ∧ length p.2 = (4 * 1)%nat) sample_rows.
Proof. repeat constructor; cbn; lia. Qed.

(** The deprecated column-wise reduction of pads adds the initial row a
    second time to what the vectorised reduction returns; the two agree for the
    zero row, the only one the library passes. *)
Theorem deprecated_reduction_adds_init {B} {E : EncryptionBackend B} {L : EncryptionBackendLaws B}
    (version : Z) (key : list Z) (e : engine B) (n : nat) (offsets init : list Z) :
  make_engine version key = Ok e → row_ok (4 * n) init →
  ∃ r, offset_transform_reduce_vec e offsets init add_row = Ok r ∧
    offset_transform_reduce e offsets init add_row = Ok (add_row r init) ∧
    (init = replicate (4 * n) 0 → add_row r init = r).
Proof.
  intros He [Hl Hi]. apply make_engine_ok in He.
  exists (fold_left add_row ((fun o => otp_row e o n) <$> offsets) init).
  destruct (sum_rows_from (4 * n) ((fun o => otp_row e o n) <$> offsets) init (conj Hl Hi)
              (Forall_pads e He n offsets)) as [Hok _].
  split; [by apply reduce_vec_spec|]. split.
  - unfold offset_transform_reduce. change OTP_SIZE with 4%nat. rewrite Hl, Nat.mul_comm.
    rewrite Nat.Div0.mod_mul, Nat.div_mul by lia. cbn [Nat.eqb negb].
    rewrite (reduce_loop_spec e He) by done. do 3 f_equal.
    apply list_fmap_ext. intros i o _. by rewrite Z.add_0_r.
  - intros Hz. apply (row_eq (4 * n)); [apply add_row_ok; [apply Hok|exact Hl]|apply Hok|].
    intros j Hj. unfold add_row at 1. rewrite (entry_zip _ (4 * n)) by (apply Hok || assumption).
    rewrite Hz at 2. rewrite entry_zeros, Z.add_0_r. apply u32_small. by apply (entry_range (4 * n)).
Qed.

(** Property C36. A result is accepted if and only if its weighted checksum agrees
    modulo 2^128 with that of the integer column sums of the rows whose tags were
    added, so the sum the device should compute is accepted whenever no column
    exceeds the range of [uint32_t]. *)
Theorem validation_compares_checksums {B} {E : EncryptionBackend B} {L : EncryptionBackendLaws B}
    (version base : Z) (key : list Z) (e : engine B) (n : nat) (rows : list (Z * list Z)) (data : list Z) :
  make_engine version key = Ok e →
  Forall (fun p => address_ok p.1 ∧ length p.2 = n) rows → length data = n →
  let v := mkVerifier e base in
  let ws := weights n (tag_otp v 0x01 base) in
  let C := fold_left add128 ((fun p => generate_mac v p.2 p.1) <$> rows) 0 in
  (validate_psum v data rows.*1 C add128 = true ↔
   dot ws data mod 2 ^ 128 = dot ws (columns n rows.*2) mod 2 ^ 128) ∧
  ((∀ j, (j < n)%nat → 0 ≤ column_sum rows.*2 j < 2 ^ 32) →
   validate_psum v (sum_rows n rows.*2) rows.*1 C add128 = true).
Proof.
  intros He Hr Hd v ws C. apply make_engine_ok in He.
  assert (HC : C = u128 (sum_list_Z ((fun p => generate_mac v p.2 p.1) <$> rows)))
    by (apply fold_add128; lia).
  assert (Hl : Forall (fun r => length r = n) rows.*2)
    by (apply Forall_fmap; eapply Forall_impl; [exact Hr|]; by intros p []).
  rewrite HC. split.
  - rewrite (validate_spec v He n) by done. apply Z.eqb_eq.
  - intros Hs. rewrite (validate_spec v He n) by (done || by apply sum_rows_spec).
    rewrite sum_rows_exact by done. by apply Z.eqb_eq.
Qed.

Definition sample_verifier : verifier unit := mkVerifier sample_engine 4096.

Definition sample_tag (rows : list (Z * list Z)) : Z :=
  fold_left add128 ((fun p => @generate_mac unit complement sample_verifier p.2 p.1) <$> rows) 0.

Definition small_rows : list (Z * list Z) := [(0, [1; 2; 3; 4]); (16, [5; 6; 7; 8])].

(** The honest sum is accepted, an altered one is not. *)
Lemma validation_compares_checksums_witness :
  @validate_psum unit complement sample_verifier [6; 8; 10; 12] [0; 16] (sample_tag small_rows) add128 = true ∧
  @validate_psum unit complement sample_verifier [6; 8; 11; 12] [0; 16] (sample_tag small_rows) add128 ≠ true.
Proof.
  assert (H : Forall (fun p => address_ok p.1 ∧ length p.2 = 4%nat) small_rows)
    by (repeat constructor; cbn; lia).
  split.
  - apply (proj2 (proj1 (@validation_compares_checksums unit complement complement_laws 7 4096 []
             sample_engine 4 small_rows [6; 8; 10; 12] eq_refl H eq_refl))).
    vm_compute. reflexivity.
  - intros Ht. apply (proj1 (proj1 (@validation_compares_checksums unit complement complement_laws 7 4096 []
             sample_engine 4 small_rows [6; 8; 11; 12] eq_refl H eq_refl))) in Ht.
    vm_compute in Ht. discriminate.
Defined.

(** An honest sum with a column that wraps is rejected. *)
Lemma wrapped_sum_is_rejected :
  @validate_psum unit complement sample_verifier (sum_rows 4 sample_rows.*2) sample_rows.*1
    (sample_tag sample_rows) add128 = false.
Proof. vm_compute. reflexivity. Qed.
