(* ===== verification/CpuSls.v ===== *)
(** * The sparse-length-sum reference on the host

    common/cpu_sls.h with entries of type [uint32_t], and the device that runs it,
    secure/plain/device/trivial_cpu.h.  Memory is a list of 32-bit words and a
    pointer an index into it; a [uint128_t] tag is four words. *)
From S2P Require Import Prelude Views Aes Secure.

Definition single_tag_size : Z := 4.

(** [*reinterpret_cast<uint128_t *>] *)
Fixpoint le_words (n : nat) (x : Z) : list Z :=
  match n with O => [] | S n' => x mod 2 ^ 32 :: le_words n' (x / 2 ^ 32) end.

Fixpoint value_of_words (l : list Z) : Z :=
  match l with [] => 0 | w :: l' => w + 2 ^ 32 * value_of_words l' end.

Definition load_tag (memory : list Z) (at_ : Z) : result Z :=
  let! ws := read_span memory (mkSpan at_ single_tag_size) in Ok (value_of_words ws).

Definition store_tag (memory : list Z) (at_ : Z) (tag : Z) : result (list Z) :=
  write_span memory (mkSpan at_ single_tag_size) (le_words 4 tag).

(** ** [Reduction<uint32_t>] *)
Module Reduction.

Definition common (memory : list Z) (table : rowwise) (indices : list Z) (psum : list Z) (row : span)
  : result (list Z) :=
  let! psum := write_span psum row (replicate (Z.to_nat (span_size row)) 0) in
  rfold (fun psum index =>
    let! r := read_span memory (row_at table index) in
    let! p := read_span psum row in
    write_span psum row (add_row p r)) psum indices.

Definition on_tag (memory : list Z) (tags : rowwise) (indices : list Z) (psum : list Z) (psum_tag : span)
  : result (list Z) :=
  let! psum := store_tag psum (span_begin psum_tag) 0 in
  rfold (fun psum index =>
    let! t := load_tag memory (span_begin (row_at tags index)) in
    let! p := load_tag psum (span_begin psum_tag) in
    store_tag psum (span_begin psum_tag) (u128 (p + t))) psum indices.

(** The pointers that advance, and the memory that is written. *)
Record cursor := mkCursor {
  table_begin : Z;
  indices_begin : Z;
  length_at : Z;
  cpsum_it : Z;
  psum_memory : list Z
}.

(** One batch of a table; [reduce] are the calls on the rows of the batch. *)
Definition batch (lengths indices : list Z) (reduce : list Z → Z → list Z → result (list Z))
    (c : cursor) (batch_id : Z) : result cursor :=
  let! len := vec_at lengths (length_at c) in
  let! indices_v := read_span indices (mkSpan (indices_begin c) len) in
  let! psum := reduce indices_v (cpsum_it c) (psum_memory c) in
  Ok (mkCursor (table_begin c) (indices_begin c + len) (length_at c + 1) (cpsum_it c + 1) psum).

Definition advance_table (c : cursor) (words : Z) : cursor :=
  mkCursor (table_begin c + words) (indices_begin c) (length_at c) (cpsum_it c) (psum_memory c).

Definition compute (memory : list Z) (rows : list Z) (indices lengths : list Z)
    (sparse_feature_size minibatch_size : Z) (psum : list Z) : result (list Z) :=
  let psum_size := minibatch_size * Z.of_nat (length rows) * sparse_feature_size in
  let psum_v := make_rowwise_view 0 psum_size sparse_feature_size 0 0 in
  let! c := rfold (fun c rows_count =>
    let table_v := make_rowwise_view (table_begin c) (table_begin c + sparse_feature_size * rows_count)
                     sparse_feature_size 0 0 in
    let! c := rfold (batch lengths indices (fun indices_v k psum =>
      common memory table_v indices_v psum (row_at psum_v k))) c (range minibatch_size) in
    Ok (advance_table c (rows_count * sparse_feature_size)))
    (mkCursor 0 0 0 0 psum) rows in
  Ok (psum_memory c).

Definition compute_with_tag (memory : list Z) (rows : list Z) (indices lengths : list Z)
    (sparse_feature_size minibatch_size : Z) (psum : list Z) : result (list Z) :=
  let psum_size := minibatch_size * Z.of_nat (length rows) * sparse_feature_size in
  let sf_psum_v := make_rowwise_view 0 psum_size sparse_feature_size 0 0 in
  let tags_meta_size := minibatch_size * Z.of_nat (length rows) * single_tag_size in
  let tag_psum_v := make_rowwise_view psum_size (psum_size + tags_meta_size) single_tag_size 0 0 in
  let augmented_row_size := sparse_feature_size + single_tag_size in
  let! c := rfold (fun c rows_count =>
    let table_end := table_begin c + augmented_row_size * rows_count in
    let table_v := make_rowwise_view (table_begin c) table_end augmented_row_size 0 single_tag_size in
    let tag_v := make_rowwise_view (table_begin c) table_end augmented_row_size sparse_feature_size 0 in
    let! c := rfold (batch lengths indices (fun indices_v k psum =>
      let! psum := common memory table_v indices_v psum (row_at sf_psum_v k) in
      on_tag memory tag_v indices_v psum (row_at tag_psum_v k))) c (range minibatch_size) in
    Ok (advance_table c (rows_count * augmented_row_size)))
    (mkCursor 0 0 0 0 psum) rows in
  Ok (psum_memory c).
End Reduction.

(** ** The device interface and [TrivialCPU<uint32_t>] *)
Class IDevice (D : Type) := {
  device_load : D → list Z → result D;
  device_run : D → Z → list Z → list Z → list Z → result (list Z)
}.

Module TrivialCPU.
Record t := mk {
  rows_ : list Z;
  sparse_feature_size_ : Z;
  with_tag_ : bool;
  data_ : list Z
}.

Definition new : t := mk [] 0 false [].

(** The rows are appended to those of an earlier initialisation. *)
Definition init_impl (d : t) (rows : list Z) (sparse_feature_size : Z) (with_tag : bool) : t :=
  mk (rows_ d ++ rows) sparse_feature_size with_tag (data_ d).

Definition load_impl (d : t) (src : list Z) : result t :=
  Ok (mk (rows_ d) (sparse_feature_size_ d) (with_tag_ d) src).

Definition run_sls (d : t) (minibatch_size : Z) (lengths indices psum : list Z) : result (list Z) :=
  Reduction.compute (data_ d) (rows_ d) indices lengths (sparse_feature_size_ d) minibatch_size psum.

Definition run_sls_with_tag (d : t) (minibatch_size : Z) (lengths indices psum : list Z)
  : result (list Z) :=
  Reduction.compute_with_tag (data_ d) (rows_ d) indices lengths (sparse_feature_size_ d)
    minibatch_size psum.

Definition run (d : t) (minibatch_size : Z) (lengths indices psum : list Z) : result (list Z) :=
  if negb (with_tag_ d) then run_sls d minibatch_size lengths indices psum
  else run_sls_with_tag d minibatch_size lengths indices psum.

#[global] Instance device : IDevice t := {| device_load := load_impl; device_run := run |}.
End TrivialCPU.

(** ** Rows in memory *)
Definition pick {A} (table : list (list A)) (i : Z) : list A := default [] (table !! Z.to_nat i).

(** What the views of a table with gaps read. *)
Lemma read_row {A} (pre post : list A) (rows : list (list A)) (last : Z) (w front back : nat) (i : Z) :
  Forall (fun r => length r = w) rows → (front + back ≤ w)%nat →
  0 ≤ i < Z.of_nat (length rows) →
  read_span (pre ++ concat rows ++ post)
    (row_at (make_rowwise_view (Z.of_nat (length pre)) last (Z.of_nat w) (Z.of_nat front) (Z.of_nat back)) i)
  = Ok (take (w - front - back) (drop front (pick rows i))).
Proof.
  intros Hr Hf Hi. unfold row_at. cbn [rw_begin row_physical_size front_gap row_logical_size make_rowwise_view].
  destruct (lookup_lt_is_Some_2 rows (Z.to_nat i)) as [r Hri]; [lia|].
  unfold pick. rewrite Hri. cbn [default from_option id].
  apply list_elem_of_split_length in Hri as (a & b & -> & Ha).
  apply Forall_app in Hr as [Hra Hrb]. apply Forall_cons in Hrb as [Hrw _].
  assert (Hla : length (concat a) = (length a * w)%nat).
  { clear -Hra. induction Hra as [|x l Hx Hl IH]; cbn; [done|]. rewrite length_app, IH, Hx. lia. }
  rewrite concat_app. cbn [concat].
  rewrite <- (take_drop front r) at 1. rewrite <- (take_drop (w - front - back) (drop front r)) at 1.
  rewrite <- !app_assoc.
  match goal with |- read_span (?x1 ++ ?x2 ++ ?x3 ++ ?x4 ++ ?x5) ?s = _ =>
    rewrite (app_assoc x1 x2), (app_assoc (x1 ++ x2) x3);
    replace s with (mkSpan (Z.of_nat (length ((x1 ++ x2) ++ x3))) (Z.of_nat (length x4)))
  end; [apply read_span_app|].
  rewrite !length_app, Hla, !length_take, length_drop, Hrw. f_equal; [|lia].
  replace i with (Z.of_nat (length a)) by lia. nia.
Qed.

(** ** Words of a tag *)
Lemma length_le_words (n : nat) : ∀ x, length (le_words n x) = n.
Proof. induction n as [|n IH]; intros x; cbn; [done|]. by rewrite IH. Qed.

Lemma value_le_words (n : nat) : ∀ x, value_of_words (le_words n x) = x mod 2 ^ (32 * Z.of_nat n).
Proof.
  induction n as [|n IH]; intros x; cbn [le_words value_of_words].
  - by rewrite Z.mul_0_r, Z.mod_1_r.
  - rewrite IH. replace (32 * Z.of_nat (S n)) with (32 + 32 * Z.of_nat n) by lia.
    rewrite Z.pow_add_r by lia. rewrite Z.rem_mul_r by (pose proof (pow2_pos (32 * Z.of_nat n)); lia).
    done.
Qed.

Lemma load_tag_app (pre post : list Z) (t : Z) :
  0 ≤ t < 2 ^ 128 → load_tag (pre ++ le_words 4 t ++ post) (Z.of_nat (length pre)) = Ok t.
Proof.
  intros Ht. unfold load_tag, single_tag_size.
  replace (mkSpan (Z.of_nat (length pre)) 4)
    with (mkSpan (Z.of_nat (length pre)) (Z.of_nat (length (le_words 4 t)))) by done.
  rewrite read_span_app. cbn [rbind]. rewrite value_le_words. f_equal. by apply Z.mod_small.
Qed.

Lemma store_tag_app (pre d post : list Z) (t : Z) :
  length d = 4%nat →
  store_tag (pre ++ d ++ post) (Z.of_nat (length pre)) t = Ok (pre ++ le_words 4 t ++ post).
Proof. intros Hd. apply write_span_app. by rewrite length_le_words. Qed.

(** ** One lookup *)
Section lookup.
Context (memory : list Z) (view : rowwise).

Lemma common_spec (n : nat) (f : Z → list Z) (indices pre r post : list Z) :
  Forall (fun i => read_span memory (row_at view i) = Ok (f i) ∧ length (f i) = n) indices →
  length r = n →
  Reduction.common memory view indices (pre ++ r ++ post) (mkSpan (Z.of_nat (length pre)) (Z.of_nat n)) =
  Ok (pre ++ sum_rows n (f <$> indices) ++ post).
Proof.
  intros Hf Hr. unfold Reduction.common. cbn [span_size]. rewrite Nat2Z.id.
  rewrite write_span_app by (rewrite length_replicate; done). cbn [rbind]. unfold sum_rows.
  assert (Hz : length (replicate n 0) = n) by apply length_replicate.
  revert Hz. generalize (replicate n 0). clear r Hr.
  induction Hf as [|i indices [Hi Hl] Hf IH]; intros r Hr; cbn [rfold fmap list_fmap fold_left]; [done|].
  rewrite Hi. cbn [rbind]. rewrite <- Hr, read_span_app. cbn [rbind]. rewrite Hr.
  assert (Ha : length (add_row r (f i)) = n) by (by apply add_row_ok).
  rewrite write_span_app by congruence. cbn [rbind]. by apply IH.
Qed.

Lemma on_tag_spec (g : Z → Z) (indices pre r post : list Z) (k : Z) :
  Forall (fun i => load_tag memory (span_begin (row_at view i)) = Ok (g i)) indices →
  length r = 4%nat →
  Reduction.on_tag memory view indices (pre ++ r ++ post) (mkSpan (Z.of_nat (length pre)) k) =
  Ok (pre ++ le_words 4 (fold_left add128 (g <$> indices) 0) ++ post).
Proof.
  intros Hg Hr. unfold Reduction.on_tag. cbn [span_begin]. rewrite store_tag_app by done. cbn [rbind].
  enough (H : ∀ t, 0 ≤ t < 2 ^ 128 → rfold (fun psum index =>
      let! t := load_tag memory (span_begin (row_at view index)) in
      let! p := load_tag psum (Z.of_nat (length pre)) in
      store_tag psum (Z.of_nat (length pre)) (u128 (p + t))) (pre ++ le_words 4 t ++ post) indices =
    Ok (pre ++ le_words 4 (fold_left add128 (g <$> indices) t) ++ post)) by (apply H; lia).
  induction Hg as [|i indices Hi Hg IH]; intros t Ht; cbn [rfold fmap list_fmap fold_left]; [done|].
  rewrite Hi. cbn [rbind]. rewrite load_tag_app by done. cbn [rbind].
  rewrite store_tag_app by apply length_le_words. cbn [rbind]. apply IH, u128_range.
Qed.
End lookup.

(** ** The batches of a table *)
Fixpoint reduce_all (reduce : list Z → Z → list Z → result (list Z)) (k : Z) (l : list (list Z))
    (psum : list Z) : result (list Z) :=
  match l with
  | [] => Ok psum
  | idx :: l' => let! p := reduce idx k psum in reduce_all reduce (k + 1) l' p
  end.

(** The lengths of lookups as the user passes them. *)
Definition lengths_of (l : list (list Z)) : list Z := (fun idx => Z.of_nat (length idx)) <$> l.

Lemma batches_spec (reduce : list Z → Z → list Z → result (list Z)) (l : list (list Z)) :
  ∀ (ids : list Z) (ipre ipost lpre lpost : list Z) tb k psum,
  length ids = length l →
  rfold (Reduction.batch (lpre ++ lengths_of l ++ lpost) (ipre ++ concat l ++ ipost) reduce)
    (Reduction.mkCursor tb (Z.of_nat (length ipre)) (Z.of_nat (length lpre)) k psum) ids =
  let! p := reduce_all reduce k l psum in
  Ok (Reduction.mkCursor tb (Z.of_nat (length (ipre ++ concat l))) (Z.of_nat (length (lpre ++ lengths_of l)))
        (k + Z.of_nat (length l)) p).
Proof.
  induction l as [|idx l IH]; intros [|i ids] ipre ipost lpre lpost tb k psum Hl; try done.
  - cbn. rewrite !app_nil_r, Z.add_0_r. done.
  - cbn [rfold reduce_all]. unfold Reduction.batch at 1.
    cbn [Reduction.table_begin Reduction.indices_begin Reduction.length_at Reduction.cpsum_it
         Reduction.psum_memory concat].
    change (lengths_of (idx :: l)) with (Z.of_nat (length idx) :: lengths_of l). cbn [app].
    rewrite <- app_assoc.
    rewrite (proj2 (vec_at_Ok _ (Z.of_nat (length lpre)) (Z.of_nat (length idx))))
      by (split; [lia|]; rewrite Nat2Z.id; by apply list_lookup_middle).
    cbn [rbind]. rewrite read_span_app. cbn [rbind].
    destruct (reduce idx k psum) as [p|]; cbn [rbind]; [|done].
    injection Hl as Hl.
    pose proof (IH ids (ipre ++ idx) ipost (lpre ++ [Z.of_nat (length idx)]) lpost tb (k + 1) p Hl) as H.
    rewrite <- !app_assoc in H. cbn [app] in H.
    replace (Z.of_nat (length (ipre ++ idx))) with (Z.of_nat (length ipre) + Z.of_nat (length idx)) in H
      by (rewrite length_app; lia).
    replace (Z.of_nat (length (lpre ++ [Z.of_nat (length idx)]))) with (Z.of_nat (length lpre) + 1) in H
      by (rewrite length_app; cbn; lia).
    rewrite H. destruct (reduce_all reduce (k + 1) l p); cbn [rbind]; [|done].
    do 2 f_equal. cbn. lia.
Qed.

Definition lookup_sums (n : nat) (f : Z → list Z) (l : list (list Z)) : list (list Z) :=
  (fun idx => sum_rows n (f <$> idx)) <$> l.

Definition lookup_tags (g : Z → Z) (l : list (list Z)) : list (list Z) :=
  (fun idx => le_words 4 (fold_left add128 (g <$> idx) 0)) <$> l.

Lemma split_at {A} (n : nat) (l : list A) : (n ≤ length l)%nat →
  ∃ a b, l = a ++ b ∧ length a = n ∧ length b = (length l - n)%nat.
Proof.
  intros H. exists (take n l), (drop n l). rewrite take_drop, length_take, length_drop. split_and!; [done|lia|done].
Qed.

Section table.
Context (memory : list Z) (table_v tag_v : rowwise) (n : nat) (f : Z → list Z) (g : Z → Z).

Definition row_readable (i : Z) : Prop :=
  read_span memory (row_at table_v i) = Ok (f i) ∧ length (f i) = n.

Definition tag_readable (i : Z) : Prop :=
  load_tag memory (span_begin (row_at tag_v i)) = Ok (g i).

Lemma sums_row (k last : Z) (d : list Z) :
  Z.of_nat (length d) = Z.of_nat n * k →
  row_at (make_rowwise_view 0 last (Z.of_nat n) 0 0) k = mkSpan (Z.of_nat (length d)) (Z.of_nat n).
Proof. intros Hd. unfold row_at. cbn. f_equal; lia. Qed.

Lemma length_sum_rows (rows : list (list Z)) :
  Forall (fun r => length r = n) rows → length (sum_rows n rows) = n.
Proof. intros H. apply (sum_rows_spec n rows H). Qed.

Lemma length_lookup_sum (idx : list Z) : Forall row_readable idx → length (sum_rows n (f <$> idx)) = n.
Proof.
  intros H. apply length_sum_rows, Forall_fmap. eapply Forall_impl; [exact H|]. by intros i [].
Qed.

Lemma reduce_rows (last : Z) (l : list (list Z)) : ∀ k d t post,
  Forall (Forall row_readable) l →
  Z.of_nat (length d) = Z.of_nat n * k → length t = (n * length l)%nat →
  reduce_all (fun idx k psum =>
      Reduction.common memory table_v idx psum (row_at (make_rowwise_view 0 last (Z.of_nat n) 0 0) k))
    k l (d ++ t ++ post) =
  Ok (d ++ concat (lookup_sums n f l) ++ post).
Proof.
  induction l as [|idx l IH]; intros k d t post Hl Hd Ht; cbn [reduce_all].
  - destruct t; [done|]. cbn in Ht. lia.
  - apply Forall_cons in Hl as [Hi Hl]. cbn [length] in Ht.
    destruct (split_at n t) as (r & t' & -> & Hr & Ht'); [lia|]. rewrite length_app in *.
    rewrite (sums_row k last d Hd). rewrite <- app_assoc, (common_spec _ _ n f) by done. cbn [rbind].
    rewrite app_assoc, IH.
    + cbn [lookup_sums fmap list_fmap concat]. by rewrite <- !app_assoc.
    + done.
    + rewrite length_app, length_lookup_sum by done. lia.
    + lia.
Qed.

Lemma reduce_rows_and_tags (last first tlast : Z) (l : list (list Z)) : ∀ k d t m tt post,
  Forall (Forall row_readable) l → Forall (Forall tag_readable) l →
  Z.of_nat (length d) = Z.of_nat n * k → length t = (n * length l)%nat →
  Z.of_nat (length (d ++ t ++ m)) = first + 4 * k → length tt = (4 * length l)%nat →
  reduce_all (fun idx k psum =>
      let! psum := Reduction.common memory table_v idx psum
                     (row_at (make_rowwise_view 0 last (Z.of_nat n) 0 0) k) in
      Reduction.on_tag memory tag_v idx psum
        (row_at (make_rowwise_view first tlast single_tag_size 0 0) k))
    k l (d ++ t ++ m ++ tt ++ post) =
  Ok (d ++ concat (lookup_sums n f l) ++ m ++ concat (lookup_tags g l) ++ post).
Proof.
  induction l as [|idx l IH]; intros k d t m tt post Hl Hg Hd Ht Hm Htt; cbn [reduce_all].
  - destruct t; [|cbn in Ht; lia]. destruct tt; [done|]. cbn in Htt. lia.
  - apply Forall_cons in Hl as [Hi Hl]. apply Forall_cons in Hg as [Hgi Hg]. cbn [length] in Ht, Htt.
    destruct (split_at n t) as (r & t' & -> & Hr & Ht'); [lia|]. rewrite !length_app in *.
    destruct (split_at 4 tt) as (w & tt' & -> & Hw & Htt'); [lia|]. rewrite !length_app in *.
    rewrite (sums_row k last d Hd). rewrite <- !app_assoc, (common_spec _ _ n f) by done. cbn [rbind].
    set (s := sum_rows n (f <$> idx)). assert (Hs : length s = n) by by apply length_lookup_sum.
    replace (d ++ s ++ t' ++ m ++ w ++ tt' ++ post) with ((d ++ s ++ t' ++ m) ++ w ++ (tt' ++ post))
      by by rewrite <- !app_assoc.
    replace (row_at (make_rowwise_view first tlast single_tag_size 0 0) k)
      with (mkSpan (Z.of_nat (length (d ++ s ++ t' ++ m))) 4)
      by (unfold row_at, single_tag_size; cbn; f_equal; rewrite !length_app; lia).
    rewrite (on_tag_spec _ _ g) by done. cbn [rbind].
    set (x := le_words 4 _). assert (Hx : length x = 4%nat) by apply length_le_words.
    replace ((d ++ s ++ t' ++ m) ++ x ++ tt' ++ post) with ((d ++ s) ++ t' ++ (m ++ x) ++ tt' ++ post)
      by by rewrite <- !app_assoc.
    rewrite IH; [|done|done|rewrite ?length_app; lia..].
    cbn [lookup_sums lookup_tags fmap list_fmap concat]. by rewrite <- !app_assoc.
Qed.
End table.

(** ** All tables

    A request is a table, as the list of its rows in memory, with its lookups. *)
Abbreviation request := (list (list Z) * list (list Z))%type.

Definition request_ok (width minibatch : nat) (q : request) : Prop :=
  Forall (fun r => length r = width) q.1 ∧ length q.2 = minibatch ∧
  Forall (Forall (fun i => 0 ≤ i < Z.of_nat (length q.1))) q.2.

Definition rows_counts (qs : list request) : list Z := (fun q => Z.of_nat (length q.1)) <$> qs.
Definition all_words (qs : list request) : list Z := concat ((fun q => concat q.1) <$> qs).
Definition all_indices (qs : list request) : list Z := concat ((fun q => concat q.2) <$> qs).
Definition all_lengths (qs : list request) : list Z := concat ((fun q => lengths_of q.2) <$> qs).

(** The result: for every table and batch the sum of the selected rows. *)
Definition all_sums (n : nat) (row : list Z → list Z) (qs : list request) : list Z :=
  concat ((fun q => concat (lookup_sums n (fun i => row (pick q.1 i)) q.2)) <$> qs).

Definition all_tags (tag : list Z → Z) (qs : list request) : list Z :=
  concat ((fun q => concat (lookup_tags (fun i => tag (pick q.1 i)) q.2)) <$> qs).

Lemma length_concat_rows {A} (w : nat) (rows : list (list A)) :
  Forall (fun r => length r = w) rows → length (concat rows) = (length rows * w)%nat.
Proof. induction 1 as [|x l Hx Hl IH]; cbn; [done|]. rewrite length_app, IH, Hx. lia. Qed.

Lemma length_pick (w : nat) (rows : list (list Z)) (i : Z) :
  Forall (fun r => length r = w) rows → 0 ≤ i < Z.of_nat (length rows) → length (pick rows i) = w.
Proof.
  intros Hr Hi. unfold pick. destruct (lookup_lt_is_Some_2 rows (Z.to_nat i)) as [r Hri]; [lia|].
  rewrite Hri. cbn. by apply (Forall_lookup_1 _ _ _ _ Hr Hri).
Qed.

Lemma compute_tables (n mb : nat) (last : Z) (qs : list request) :
  ∀ mpre mpost ipre ipost lpre lpost k d t post,
  Forall (request_ok n mb) qs →
  Z.of_nat (length d) = Z.of_nat n * k → length t = (n * (mb * length qs))%nat →
  ∃ c, rfold (fun c rows_count =>
      let table_v := make_rowwise_view (Reduction.table_begin c)
                       (Reduction.table_begin c + Z.of_nat n * rows_count) (Z.of_nat n) 0 0 in
      let! c := rfold (Reduction.batch (lpre ++ all_lengths qs ++ lpost) (ipre ++ all_indices qs ++ ipost)
        (fun indices_v k psum => Reduction.common (mpre ++ all_words qs ++ mpost) table_v indices_v psum
           (row_at (make_rowwise_view 0 last (Z.of_nat n) 0 0) k))) c (range (Z.of_nat mb)) in
      Ok (Reduction.advance_table c (rows_count * Z.of_nat n)))
    (Reduction.mkCursor (Z.of_nat (length mpre)) (Z.of_nat (length ipre)) (Z.of_nat (length lpre)) k
       (d ++ t ++ post)) (rows_counts qs) = Ok c ∧
  Reduction.psum_memory c = d ++ all_sums n id qs ++ post.
Proof.
  induction qs as [|[rows l] qs IH]; intros mpre mpost ipre ipost lpre lpost k d t post Hq Hd Ht.
  - eexists. split; [done|]. cbn. destruct t; [done|]. cbn in Ht. lia.
  - apply Forall_cons in Hq as [(Hr & Hl & Hi) Hq]. cbn [fst snd] in *. cbn [length] in Ht.
    destruct (split_at (n * mb) t) as (t1 & t2 & -> & Ht1 & Ht2); [lia|]. rewrite length_app in *.
    cbn [rows_counts fmap list_fmap rfold Reduction.table_begin].
    unfold all_lengths, all_indices, all_words. cbn [fmap list_fmap concat fst snd].
    rewrite <- !app_assoc.
    rewrite batches_spec by (rewrite length_range; lia).
    rewrite (reduce_rows _ _ n (fun i => pick rows i)); [|..|lia]; [|
      |exact Hd].
    2: { eapply Forall_impl; [exact Hi|]. intros idx Hidx. eapply Forall_impl; [exact Hidx|].
         intros i Hii. split; [|by apply length_pick].
         rewrite (read_row mpre _ rows _ n 0 0) by (done || lia).
         rewrite drop_0, take_ge by (rewrite (length_pick n) by done; lia). done. }
    cbn [rbind]. unfold Reduction.advance_table at 2.
    cbn [Reduction.table_begin Reduction.indices_begin Reduction.length_at Reduction.cpsum_it
         Reduction.psum_memory].
    assert (Hs : length (concat (lookup_sums n (fun i => pick rows i) l)) = (n * mb)%nat).
    { rewrite (length_concat_rows n).
      - unfold lookup_sums. rewrite length_fmap, Hl. lia.
      - apply Forall_fmap. eapply Forall_impl; [exact Hi|]. intros idx Hidx. cbn.
        apply length_sum_rows, Forall_fmap. eapply Forall_impl; [exact Hidx|]. intros i Hii. by apply length_pick. }
    destruct (IH (mpre ++ concat rows) mpost (ipre ++ concat l) ipost (lpre ++ lengths_of l) lpost
                (k + Z.of_nat (length l)) (d ++ concat (lookup_sums n (fun i => pick rows i) l)) t2 post)
      as (c & Hc & Hp); [done|rewrite length_app; lia|lia|].
    exists c. split.
    + rewrite <- Hc. rewrite <- !app_assoc. do 2 f_equal.
      rewrite length_app, (length_concat_rows n) by done. f_equal. lia.
    + rewrite Hp. unfold all_sums. cbn [fmap list_fmap concat fst snd id]. by rewrite <- !app_assoc.
Qed.

Lemma compute_spec (n mb : nat) (qs : list request) (psum : list Z) :
  Forall (request_ok n mb) qs → length psum = (n * (mb * length qs))%nat →
  Reduction.compute (all_words qs) (rows_counts qs) (all_indices qs) (all_lengths qs)
    (Z.of_nat n) (Z.of_nat mb) psum = Ok (all_sums n id qs).
Proof.
  intros Hq Hp. unfold Reduction.compute.
  destruct (compute_tables n mb (Z.of_nat mb * Z.of_nat (length (rows_counts qs)) * Z.of_nat n) qs
    [] [] [] [] [] [] 0 [] psum [] Hq) as (c & Hc & Hm); [cbn; lia|done|].
  rewrite !app_nil_r in *. cbn [app] in Hm. rewrite <- Hm.
  exact (f_equal (fun r => let! c := r in Ok (Reduction.psum_memory c)) Hc).
Qed.

Lemma compute_tagged_tables (n mb : nat) (last first tlast : Z) (qs : list request) :
  ∀ mpre mpost ipre ipost lpre lpost k d t m tt post,
  Forall (request_ok (n + 4) mb) qs →
  Z.of_nat (length d) = Z.of_nat n * k → length t = (n * (mb * length qs))%nat →
  Z.of_nat (length (d ++ t ++ m)) = first + 4 * k → length tt = (4 * (mb * length qs))%nat →
  ∃ c, rfold (fun c rows_count =>
      let table_end := Reduction.table_begin c + (Z.of_nat n + single_tag_size) * rows_count in
      let table_v := make_rowwise_view (Reduction.table_begin c) table_end
                       (Z.of_nat n + single_tag_size) 0 single_tag_size in
      let tag_v := make_rowwise_view (Reduction.table_begin c) table_end
                     (Z.of_nat n + single_tag_size) (Z.of_nat n) 0 in
      let! c := rfold (Reduction.batch (lpre ++ all_lengths qs ++ lpost) (ipre ++ all_indices qs ++ ipost)
        (fun indices_v k psum =>
           let! psum := Reduction.common (mpre ++ all_words qs ++ mpost) table_v indices_v psum
                          (row_at (make_rowwise_view 0 last (Z.of_nat n) 0 0) k) in
           Reduction.on_tag (mpre ++ all_words qs ++ mpost) tag_v indices_v psum
             (row_at (make_rowwise_view first tlast single_tag_size 0 0) k))) c (range (Z.of_nat mb)) in
      Ok (Reduction.advance_table c (rows_count * (Z.of_nat n + single_tag_size))))
    (Reduction.mkCursor (Z.of_nat (length mpre)) (Z.of_nat (length ipre)) (Z.of_nat (length lpre)) k
       (d ++ t ++ m ++ tt ++ post)) (rows_counts qs) = Ok c ∧
  Reduction.psum_memory c =
    d ++ all_sums n (take n) qs ++ m ++ all_tags (fun r => value_of_words (drop n r)) qs ++ post.
Proof.
  induction qs as [|[rows l] qs IH]; intros mpre mpost ipre ipost lpre lpost k d t m tt post Hq Hd Ht Hm Htt.
  - eexists. split; [done|]. destruct t; [|cbn in Ht; lia]. destruct tt; [done|cbn in Htt; lia].
  - apply Forall_cons in Hq as [(Hr & Hl & Hi) Hq]. cbn [fst snd] in *. cbn [length] in Ht, Htt.
    destruct (split_at (n * mb) t) as (t1 & t2 & -> & Ht1 & Ht2); [lia|].
    destruct (split_at (4 * mb) tt) as (w1 & w2 & -> & Hw1 & Hw2); [lia|]. rewrite !length_app in *.
    cbn [rows_counts fmap list_fmap rfold Reduction.table_begin].
    unfold all_lengths, all_indices, all_words. cbn [fmap list_fmap concat fst snd].
    rewrite <- !app_assoc.
    rewrite batches_spec by (rewrite length_range; lia).
    replace (t2 ++ m ++ w1 ++ w2 ++ post) with ((t2 ++ m) ++ w1 ++ (w2 ++ post)) by by rewrite <- !app_assoc.
    rewrite (reduce_rows_and_tags _ _ _ n (fun i => take n (pick rows i))
               (fun i => value_of_words (drop n (pick rows i))) last first tlast);
      [|..|rewrite ?length_app; lia|lia]; [| | |exact Hd|lia].
    2: { eapply Forall_impl; [exact Hi|]. intros idx Hidx. eapply Forall_impl; [exact Hidx|].
         intros i Hii. split; [|rewrite length_take, (length_pick (n + 4)) by done; lia].
         unfold single_tag_size. replace (Z.of_nat n + 4) with (Z.of_nat (n + 4)) by lia.
         rewrite (read_row mpre _ rows _ (n + 4) 0 4) by (done || lia).
         rewrite drop_0. do 2 f_equal. lia. }
    2: { eapply Forall_impl; [exact Hi|]. intros idx Hidx. eapply Forall_impl; [exact Hidx|].
         intros i Hii. unfold tag_readable, load_tag, single_tag_size.
         replace (Z.of_nat n + 4) with (Z.of_nat (n + 4)) by lia.
         match goal with |- context [mkSpan (span_begin ?r) 4] =>
           replace (mkSpan (span_begin r) 4) with r by (unfold row_at; cbn; f_equal; lia) end.
         rewrite (read_row mpre _ rows _ (n + 4) n 0) by (done || lia). cbn [rbind].
         rewrite take_ge by (rewrite length_drop, (length_pick (n + 4)) by done; lia). done. }
    cbn [rbind]. unfold Reduction.advance_table at 2.
    cbn [Reduction.table_begin Reduction.indices_begin Reduction.length_at Reduction.cpsum_it
         Reduction.psum_memory].
    set (s := concat (lookup_sums n (fun i => take n (pick rows i)) l)).
    set (g := concat (lookup_tags (fun i => value_of_words (drop n (pick rows i))) l)).
    assert (Hs : length s = (n * mb)%nat).
    { unfold s. rewrite (length_concat_rows n).
      - unfold lookup_sums. rewrite length_fmap, Hl. lia.
      - apply Forall_fmap. eapply Forall_impl; [exact Hi|]. intros idx Hidx. cbn.
        apply length_sum_rows, Forall_fmap. eapply Forall_impl; [exact Hidx|]. intros i Hii. cbn.
        rewrite length_take, (length_pick (n + 4)) by done. lia. }
    assert (Hg : length g = (4 * mb)%nat).
    { unfold g. rewrite (length_concat_rows 4).
      - unfold lookup_tags. rewrite length_fmap, Hl. lia.
      - apply Forall_fmap, Forall_forall. intros idx _. apply length_le_words. }
    destruct (IH (mpre ++ concat rows) mpost (ipre ++ concat l) ipost (lpre ++ lengths_of l) lpost
                (k + Z.of_nat (length l)) (d ++ s) t2 (m ++ g) w2 post)
      as (c & Hc & Hp); [done|rewrite ?length_app; lia..|].
    exists c. split.
    + rewrite <- Hc. rewrite <- !app_assoc. do 2 f_equal.
      rewrite length_app, (length_concat_rows (n + 4)) by done. unfold single_tag_size. f_equal. lia.
    + rewrite Hp. unfold all_sums, all_tags. cbn [fmap list_fmap concat fst snd]. by rewrite <- !app_assoc.
Qed.

Lemma compute_with_tag_spec (n mb : nat) (qs : list request) (psum : list Z) :
  Forall (request_ok (n + 4) mb) qs → length psum = ((n + 4) * (mb * length qs))%nat →
  Reduction.compute_with_tag (all_words qs) (rows_counts qs) (all_indices qs) (all_lengths qs)
    (Z.of_nat n) (Z.of_nat mb) psum =
  Ok (all_sums n (take n) qs ++ all_tags (fun r => value_of_words (drop n r)) qs).
Proof.
  intros Hq Hp. unfold Reduction.compute_with_tag.
  destruct (split_at (n * (mb * length qs)) psum) as (t & tt & -> & Ht & Htt); [lia|].
  rewrite length_app in *.
  set (size := Z.of_nat mb * Z.of_nat (length (rows_counts qs)) * Z.of_nat n).
  set (tags := Z.of_nat mb * Z.of_nat (length (rows_counts qs)) * single_tag_size).
  destruct (compute_tagged_tables n mb size size (size + tags) qs
    [] [] [] [] [] [] 0 [] t [] tt [] Hq) as (c & Hc & Hm); [cbn; lia|done| |lia|].
  { rewrite !app_nil_r. cbn [app]. unfold size, rows_counts. rewrite length_fmap. lia. }
  rewrite !app_nil_r in *. cbn [app] in Hm. rewrite <- Hm.
  exact (f_equal (fun r => let! c := r in Ok (Reduction.psum_memory c)) Hc).
Qed.
