(* ===== verification/SecureExecutor.v ===== *)
(** * The secure executor

    The embedding tables of a user are encrypted row by row before they reach an
    untrusted device (secure/encryption/sls_dlrm_preprocessor.h), the device adds
    encrypted rows, and the host adds the pads of the same rows
    (secure/encryption/sls_dlrm_postprocessor.h) and decrypts.
    secure/common/sls_executor.h composes the two sides; tasks run as SlsSync of
    secure/plain/run_strategy/sync.h runs them, the exception of a task being
    kept in its future until the device has run.  Entries are [uint32_t] and memory
    is a list of words, as in CpuSls.  The keys of the engines come from a random
    device, the hash of the tables' pointer from [std::hash], and the address of
    the staging buffer from [new]: they are arguments. *)
From S2P Require Import Prelude Views Aes Secure CpuSls.

(** ** Readers and writers: secure/common/sls_io.h, secure/encryption/io_traits.h *)

(** A pointer into memory that advances. *)
Record stream := mkStream { stream_memory : list Z; stream_ptr : Z }.

Definition stream_read (s : stream) (words : Z) : result (list Z * stream) :=
  let! d := read_span (stream_memory s) (mkSpan (stream_ptr s) words) in
  Ok (d, mkStream (stream_memory s) (stream_ptr s + words)).

Definition stream_write (s : stream) (d : list Z) : result stream :=
  let words := Z.of_nat (length d) in
  let! m := write_span (stream_memory s) (mkSpan (stream_ptr s) words) d in
  Ok (mkStream m (stream_ptr s + words)).

Inductive writer := TrivialMemoryWriter | MemoryWriter.

(** Bytes of the meta data of a row: a tag, or a tag padded as the hardware needs. *)
Definition meta_size (w : writer) : Z :=
  match w with TrivialMemoryWriter => 16 | MemoryWriter => 64 end.

Definition memory_size (w : writer) (count : Z) (with_meta : bool) : Z :=
  u64 (count * 4 + (if with_meta then meta_size w else 0)).

Definition write_meta (w : writer) (out : stream) (d : list Z) : result stream :=
  match w with
  | TrivialMemoryWriter => stream_write out d
  | MemoryWriter =>
      let! _ := assert (Z.of_nat (length d) * 4 <=? meta_size w) in
      let! out := stream_write out d in
      stream_write out (replicate (Z.to_nat (meta_size w / 4) - length d) 0)
  end.

(** [std::vector::resize] *)
Definition resize (l : list Z) (n : Z) : list Z :=
  take (Z.to_nat n) l ++ replicate (Z.to_nat n - length l) 0.

(** ** [DLRMPreprocessor] and [DLRMPostprocessor] *)
Definition create_table_version (hash : Z) : Z := Z.lxor (hash mod 2 ^ 32) (hash / 2 ^ 32 mod 2 ^ 32).

Record preprocessor := mkPreprocessor {
  pre_sparse_feature_size : Z;
  table_entries_ : list Z;
  pre_version : Z;
  reader_ : stream
}.

Definition make_preprocessor (table : stream) (hash : Z) (entries : list Z) (sparse_feature_size : Z)
  : preprocessor :=
  mkPreprocessor sparse_feature_size entries (create_table_version hash) table.

Definition BUFFER_SIZE : Z := 8192.

Definition encrypted_buffer_size (w : writer) (p : preprocessor) (include_tag : bool) : Z :=
  let single_row_size := memory_size w (pre_sparse_feature_size p) include_tag in
  u64 (single_row_size * u64 (sum_list_Z (table_entries_ p))).

Section postprocessor.
Context {B : Type} {E : EncryptionBackend B}.

Record postprocessor := mkPostprocessor {
  e_engine_ : engine B;
  v_engine_ : verifier B;
  offsets_ : list Z;
  cols_count_ : Z
}.

(** What the loops of [load_impl] change. *)
Record loader := mkLoader { ld_in : stream; ld_out : stream; slice_offset : Z }.

Definition load_row (w : writer) (e : engine B) (v : verifier B) (include_tag : bool)
    (s : loader) (row : list Z) : result loader :=
  let tag := if include_tag then generate_mac v row (slice_offset s) else 0 in
  let! (enc, size) := encrypt e row (slice_offset s) in
  let! out := stream_write (ld_out s) enc in
  let! out := if include_tag then write_meta w out (le_words 4 tag) else Ok out in
  Ok (mkLoader (ld_in s) out (u64 (slice_offset s + size))).

(** [while (row_count > 0)]: a slice of [rows_per_batch] rows at a time. *)
Fixpoint load_table (fuel : nat) (w : writer) (e : engine B) (v : verifier B) (include_tag : bool)
    (sparse_feature_size rows_per_batch row_count : Z) (s : loader) : result loader :=
  if row_count =? 0 then Ok s
  else
    match fuel with
    | O => Err OutOfFuel
    | S fuel' =>
        let rows_to_read := Z.min row_count rows_per_batch in
        let! (slice, input) := stream_read (ld_in s) (rows_to_read * sparse_feature_size) in
        let n := Z.to_nat sparse_feature_size in
        let rows := (fun k => take n (drop (k * n) slice)) <$> seq 0 (Z.to_nat rows_to_read) in
        let! s := rfold (load_row w e v include_tag) (mkLoader input (ld_out s) (slice_offset s)) rows in
        load_table fuel' w e v include_tag sparse_feature_size rows_per_batch (row_count - rows_to_read) s
    end.

(** The offsets of the tables are collected as they are loaded. *)
Fixpoint load_all (w : writer) (e : engine B) (v : verifier B) (include_tag : bool)
    (sparse_feature_size rows_per_batch : Z) (entries : list Z) (s : loader) : result (list Z * loader) :=
  match entries with
  | [] => Ok ([], s)
  | row_count :: entries' =>
      let! s' := load_table (Z.to_nat row_count) w e v include_tag sparse_feature_size rows_per_batch
                   row_count s in
      let! (offsets, s'') := load_all w e v include_tag sparse_feature_size rows_per_batch entries' s' in
      Ok (slice_offset s :: offsets, s'')
  end.

(** The tables in [buffer], which lives at [out_ptr]. *)
Definition load_impl (w : writer) (p : preprocessor) (buffer : list Z) (out_ptr : Z)
    (key_e key_v : list Z) (include_tag : bool) : result (postprocessor * list Z) :=
  if pre_sparse_feature_size p =? 0 then Err UndefinedBehaviour
  else
    let rows_per_batch := BUFFER_SIZE / (4 * pre_sparse_feature_size p) in
    let! e := make_engine (pre_version p) key_e in
    let! ve := make_engine (pre_version p) key_v in
    let v := mkVerifier ve out_ptr in
    let! (offsets, s) := load_all w e v include_tag (pre_sparse_feature_size p) rows_per_batch
      (table_entries_ p) (mkLoader (reader_ p) (mkStream buffer 0) 0) in
    Ok (mkPostprocessor e v offsets (pre_sparse_feature_size p), stream_memory (ld_out s)).

Definition fill_offsets (p : postprocessor) (table_id : Z) (indices : list Z) : result (list Z) :=
  let! table_offset := vec_at (offsets_ p) table_id in
  Ok ((fun index => u64 (table_offset + index * cols_count_ p * 4)) <$> indices).

(** The psums of one lookup, in the row [psum_index] of the views. *)
Definition perform_lookup (p : postprocessor) (indices : list Z) (table_id : Z) (psum : rowwise)
    (tags : option rowwise) (st : Z * list Z) (lookup : span) : result (Z * list Z) :=
  let (psum_index, memory) := st in
  let! idx := read_span indices lookup in
  let! sls_offset := fill_offsets p table_id idx in
  let current_psum := row_at psum psum_index in
  let zeros := replicate (Z.to_nat (span_size current_psum)) 0 in
  let! memory := write_span memory current_psum zeros in
  let! sum := offset_transform_reduce_vec (e_engine_ p) sls_offset zeros add_row in
  let! memory := write_span memory current_psum sum in
  let! memory :=
    match tags with
    | Some tags =>
        let etag := tag_transform_reduce_vec (v_engine_ p) sls_offset 0 add128 in
        store_tag memory (span_begin (row_at tags psum_index)) etag
    | None => Ok memory
    end in
  Ok (psum_index + 1, memory).

(** [for (const auto &[table_id, batch] : indices) for (const auto &lookup : batch)]; the
    tags are absent when their view has no row. *)
Definition perform_sls_impl (p : postprocessor) (indices : list Z) (requests : list (Z * variable_row))
    (psum : rowwise) (tags : option rowwise) (memory : list Z) : result (list Z) :=
  let tags := match tags with
              | Some t => if rowwise_size t =? 0 then None else Some t
              | None => None
              end in
  let! (_, memory) := rfold (fun st '(table_id, batch) =>
    let! lookups := rows_of_variable batch in
    rfold (perform_lookup p indices table_id psum tags) st lookups) (0, memory) requests in
  Ok memory.

(** One row of [decrypt_psum_impl]: the flag of the row, and the memory. *)
Definition decrypt_row (p : postprocessor) (epsum : list Z) (epsums : rowwise)
    (tags : option (rowwise * rowwise)) (st : Z * list Z * list Z * bool) (cres : span)
  : result (Z * list Z * list Z * bool) :=
  let '(k, psum, check, acc) := st in
  let! c := read_span psum cres in
  let! r := read_span epsum (mkSpan (span_begin (row_at epsums k)) (span_size cres)) in
  let d := decrypt_shares c r in
  let! psum := write_span psum cres d in
  match tags with
  | Some (ctags, etags) =>
      let! ET := load_tag psum (span_begin (row_at ctags k)) in
      let! CT := load_tag epsum (span_begin (row_at etags k)) in
      let ok := validate_shares (v_engine_ p) d ET CT in
      let! check := vec_set check k (if ok then 1 else 0) in
      Ok (k + 1, psum, check, acc && ok)
  | None => Ok (k + 1, psum, check, acc && true)
  end.

Definition decrypt_psum_impl (p : postprocessor) (psum epsum : list Z) (psums epsums : rowwise)
    (tags : option (rowwise * rowwise)) (check : list Z) : result (list Z * list Z * bool) :=
  let tags := match tags with
              | Some (c, e) =>
                  if (rowwise_size c =? 0) || (rowwise_size e =? 0) then None else Some (c, e)
              | None => None
              end in
  let! rows := rows_of psums in
  let! st := rfold (decrypt_row p epsum epsums tags) (0, psum, check, true) rows in
  let '(_, psum, check, ok) := st in
  Ok (psum, check, ok).
End postprocessor.

Arguments postprocessor : clear implicits.

(** ** [OperationExecutor<uint32_t, SlsDevice, SlsSync>] *)
Section executor.
Context {B : Type} {E : EncryptionBackend B} {D : Type} {ID : IDevice D} (w : writer).

Record executor := mkExecutor {
  num_tables_ : Z;
  sparse_feature_size_ : Z;
  with_tag_ : bool;
  postprocessor_ : option (postprocessor B);
  device_ : D;
  cpsum : list Z;
  epsum : list Z
}.

Definition make_executor (d : D) : executor := mkExecutor 0 0 false None d [] [].

Definition TAG_SIZE : Z := 4.
Definition tag_words (x : executor) : Z := if with_tag_ x then TAG_SIZE else 0.

Definition load_tables (x : executor) (src : list Z) (hash buffer_address : Z) (key_e key_v : list Z)
    (num_entries : list Z) (sparse_feature_size : Z) (with_tag : bool) : result executor :=
  let p := make_preprocessor (mkStream src 0) hash num_entries sparse_feature_size in
  let buffer_size := encrypted_buffer_size w p with_tag in
  let buffer := replicate (Z.to_nat (buffer_size / 4)) 0 in
  let! (post, buffer) := load_impl w p buffer buffer_address key_e key_v with_tag in
  let! d := device_load (device_ x) buffer in
  Ok (mkExecutor (Z.of_nat (length num_entries)) sparse_feature_size with_tag (Some post) d
        (cpsum x) (epsum x)).

(** A table number with the view of its lookups. *)
Fixpoint reorder_loop (n : nat) (tid idx_it : Z) (lengths : list Z) (lengths_v : rowwise)
  : result (list (Z * variable_row)) :=
  match n with
  | O => Ok []
  | S n' =>
      let! lens := read_span lengths (row_at lengths_v tid) in
      let lookups_in_minibatch := u64 (sum_list_Z lens) in
      let v := mkVariable idx_it (idx_it + lookups_in_minibatch) lens in
      let! rest := reorder_loop n' (tid + 1) (idx_it + lookups_in_minibatch) lengths lengths_v in
      Ok ((tid, v) :: rest)
  end.

Definition reorder_indices (x : executor) (minibatch_size : Z) (lengths : list Z)
  : result (list (Z * variable_row)) :=
  if minibatch_size =? 0 then Err UndefinedBehaviour
  else
    reorder_loop (Z.to_nat (num_tables_ x)) 0 0 lengths
      (make_rowwise_view 0 (Z.of_nat (length lengths)) minibatch_size 0 0).

(** The task of one table, on its part of the buffer; a task that throws leaves its
    exception in the future. *)
Definition table_task (x : executor) (p : postprocessor B) (indices : list Z)
    (request : Z * variable_row) (it : Z) (memory : list Z) : result (list Z) :=
  let augmented_row_size := sparse_feature_size_ x + tag_words x in
  let last := it + augmented_row_size * variable_row_size request.2 in
  let epsum_v := make_rowwise_view it last augmented_row_size 0 (tag_words x) in
  let tag_v := make_rowwise_view it last augmented_row_size (sparse_feature_size_ x) 0 in
  perform_sls_impl p indices [request] epsum_v (if with_tag_ x then Some tag_v else None) memory.

Fixpoint run_tasks (x : executor) (p : postprocessor B) (indices : list Z)
    (requests : list (Z * variable_row)) (it : Z) (memory : list Z) : list Z * list (result unit) :=
  match requests with
  | [] => (memory, [])
  | request :: requests' =>
      let next := it + (sparse_feature_size_ x + tag_words x) * variable_row_size request.2 in
      match table_task x p indices request it memory with
      | Ok memory' =>
          let (m, futures) := run_tasks x p indices requests' next memory' in (m, Ok tt :: futures)
      | Err e =>
          let (m, futures) := run_tasks x p indices requests' next memory in (m, Err e :: futures)
      end
  end.

(** [result.get()] of every future. *)
Definition get_all (futures : list (result unit)) : result unit :=
  rfold (fun _ f => f) tt futures.

(** The psums of the device and those of the pads. *)
Definition execute_sls (x : executor) (p : postprocessor B) (requests : list (Z * variable_row))
    (minibatch_size : Z) (lengths indices augmented_psum : list Z) : result (list Z * list Z) :=
  let (epsum, futures) := run_tasks x p indices requests 0 (epsum x) in
  let! psum := device_run (device_ x) minibatch_size lengths indices augmented_psum in
  let! _ := get_all futures in
  Ok (psum, epsum).

Definition decrypt (x : executor) (p : postprocessor B) (minibatch_size : Z)
    (psum_buffer epsum check : list Z) : result (list Z * list Z * bool) :=
  let psum_size := minibatch_size * num_tables_ x * sparse_feature_size_ x in
  let psum_rv := make_rowwise_view 0 psum_size (sparse_feature_size_ x) 0 0 in
  let augmented_row_size := sparse_feature_size_ x + tag_words x in
  let esize := Z.of_nat (length epsum) in
  let epsum_v := make_rowwise_view 0 esize augmented_row_size 0 (tag_words x) in
  if with_tag_ x then
    let ctag_v := make_rowwise_view psum_size (Z.of_nat (length psum_buffer)) TAG_SIZE 0 0 in
    let tag_v := make_rowwise_view 0 esize augmented_row_size (sparse_feature_size_ x) 0 in
    decrypt_psum_impl p psum_buffer epsum psum_rv epsum_v (Some (ctag_v, tag_v)) check
  else decrypt_psum_impl p psum_buffer epsum psum_rv epsum_v None check.

(** The rows that passed the check are copied, the others keep the user's values. *)
Definition copy_func (augmented_psum check : list Z) (st : Z * list Z) (row : span)
  : result (Z * list Z) :=
  let (k, user) := st in
  let! is_row_ok := vec_at check k in
  if negb (is_row_ok =? 0) then
    let! d := read_span augmented_psum row in
    let! user := write_span user row d in
    Ok (k + 1, user)
  else Ok (k + 1, user).

Definition make_user_psum (x : executor) (user_psum augmented_psum check : list Z)
  : result (list Z) :=
  let psum_size := Z.of_nat (length user_psum) in
  let rows_v := make_rowwise_view 0 psum_size (sparse_feature_size_ x) 0 0 in
  let! rows := rows_of rows_v in
  let! st := rfold (copy_func augmented_psum check) (0, user_psum) rows in
  Ok st.2.

(** The executor with its buffers, the user's psums and checks, and the status. *)
Definition run_sls (x : executor) (minibatch_size : Z) (lengths indices psum checks : list Z)
  : result (executor * list Z * list Z * bool) :=
  let! p := of_option UndefinedBehaviour (postprocessor_ x) in
  let cpsum' :=
    if with_tag_ x
    then resize (cpsum x) (minibatch_size * num_tables_ x * (sparse_feature_size_ x + TAG_SIZE))
    else cpsum x in
  let augmented_psum := if with_tag_ x then cpsum' else psum in
  let x := mkExecutor (num_tables_ x) (sparse_feature_size_ x) (with_tag_ x) (postprocessor_ x)
             (device_ x) cpsum' (resize (epsum x) (Z.of_nat (length augmented_psum))) in
  let! requests := reorder_indices x minibatch_size lengths in
  let! (augmented_psum, e) := execute_sls x p requests minibatch_size lengths indices augmented_psum in
  let with_buffers c := mkExecutor (num_tables_ x) (sparse_feature_size_ x) (with_tag_ x)
                          (postprocessor_ x) (device_ x) c e in
  if with_tag_ x then
    let! (r, status) := decrypt x p minibatch_size augmented_psum e checks in
    let (augmented_psum, checks) := r in
    let! psum := make_user_psum x psum augmented_psum checks in
    Ok (with_buffers augmented_psum, psum, checks, status)
  else
    let! (r, status) := decrypt x p minibatch_size augmented_psum e [] in
    Ok (with_buffers (cpsum x), r.1, checks, status).
End executor.

Arguments executor : clear implicits.

(** ** Loading tables *)
Lemma length_concat_app {A} (a b : list (list A)) :
  length (concat (a ++ b)) = (length (concat a) + length (concat b))%nat.
Proof. by rewrite concat_app, length_app. Qed.

(** The rows of a slice. *)
Lemma chunks_concat {A} (n : nat) (rows : list (list A)) :
  Forall (fun r => length r = n) rows →
  (fun k => take n (drop (k * n) (concat rows))) <$> seq 0 (length rows) = rows.
Proof.
  intros Hr. apply list_eq. intros i. rewrite list_lookup_fmap.
  destruct (rows !! i) as [r|] eqn:Hi.
  - rewrite lookup_seq_lt by (by apply lookup_lt_Some in Hi). cbn. f_equal.
    apply list_elem_of_split_length in Hi as (a & b & -> & ->).
    apply Forall_app in Hr as [Ha Hb]. apply Forall_cons in Hb as [Hn _].
    rewrite concat_app. cbn [concat]. rewrite drop_app_length' by (symmetry; by apply length_concat_rows).
    by apply take_app_length'.
  - rewrite lookup_seq_ge by (by apply lookup_ge_None in Hi). done.
Qed.

Lemma stream_write_app (pre d d' post : list Z) :
  length d' = length d →
  stream_write (mkStream (pre ++ d ++ post) (Z.of_nat (length pre))) d' =
  Ok (mkStream (pre ++ d' ++ post) (Z.of_nat (length (pre ++ d')))).
Proof.
  intros Hl. unfold stream_write. cbn [stream_memory stream_ptr].
  rewrite write_span_app by done. cbn [rbind]. do 2 f_equal. rewrite length_app. lia.
Qed.

Section loading.
Context {B : Type} {E : EncryptionBackend B} {L : EncryptionBackendLaws B}.
Context (e : engine B) (v : verifier B) (He : backend_ok (aes_engine_ e)).
Context (tag : bool) (m : nat).
Abbreviation n := (4 * m)%nat.

Definition tag_width : nat := if tag then 4 else 0.
Abbreviation width := (n + tag_width)%nat.

(** A row as the device holds it. *)
Definition enc_row (offset : Z) (row : list Z) : list Z :=
  sub_row row (otp_row e offset m) ++ (if tag then le_words 4 (generate_mac v row offset) else []).

Fixpoint enc_rows (offset : Z) (rows : list (list Z)) : list (list Z) :=
  match rows with
  | [] => []
  | r :: rows' => enc_row offset r :: enc_rows (offset + 16 * Z.of_nat m) rows'
  end.

Lemma enc_rows_app (a b : list (list Z)) : ∀ offset,
  enc_rows offset (a ++ b) = enc_rows offset a ++ enc_rows (offset + 16 * Z.of_nat m * Z.of_nat (length a)) b.
Proof.
  induction a as [|r a IH]; intros offset; cbn [app enc_rows length].
  - f_equal. lia.
  - rewrite IH. cbn. do 3 f_equal. lia.
Qed.

Lemma length_enc_row (offset : Z) (row : list Z) : length row = n → length (enc_row offset row) = width.
Proof.
  intros Hr. unfold enc_row, tag_width. rewrite length_app.
  rewrite (proj1 (sub_row_ok n _ _ Hr (length_otp_row e He offset m))).
  destruct tag; [by rewrite length_le_words|done].
Qed.

Lemma enc_rows_width (rows : list (list Z)) : ∀ offset,
  Forall (fun r => length r = n) rows → Forall (fun r => length r = width) (enc_rows offset rows).
Proof.
  induction rows as [|r rows IH]; intros offset Hr; cbn; [done|].
  apply Forall_cons in Hr as [Hr Hrs]. constructor; [by apply length_enc_row|by apply IH].
Qed.

Lemma length_enc_rows (rows : list (list Z)) : ∀ offset, length (enc_rows offset rows) = length rows.
Proof. induction rows as [|r rows IH]; intros offset; cbn; [done|]. by rewrite IH. Qed.

Lemma load_row_spec (pre gap post : list Z) (offset : Z) (input : stream) (row : list Z) :
  length row = n → length gap = width → 0 ≤ offset → offset + 16 * Z.of_nat m < 2 ^ 64 →
  load_row TrivialMemoryWriter e v tag
    (mkLoader input (mkStream (pre ++ gap ++ post) (Z.of_nat (length pre))) offset) row =
  Ok (mkLoader input
        (mkStream (pre ++ enc_row offset row ++ post) (Z.of_nat (length (pre ++ enc_row offset row))))
        (offset + 16 * Z.of_nat m)).
Proof.
  intros Hr Hg Ho Hb. unfold load_row. cbn [slice_offset ld_out ld_in].
  rewrite (encrypt_spec e He m) by (done || lia). cbn [rbind].
  rewrite (u64_small (16 * Z.of_nat m)), (u64_small (offset + _)) by lia.
  destruct (split_at n gap) as (g1 & g2 & -> & Hg1 & Hg2); [lia|]. rewrite length_app in Hg.
  pose proof (proj1 (sub_row_ok n row _ Hr (length_otp_row e He offset m))) as Hs.
  rewrite <- app_assoc, stream_write_app by congruence. cbn [rbind].
  unfold enc_row, tag_width in *. destruct tag; cbn [write_meta].
  - rewrite app_assoc, stream_write_app by (rewrite length_le_words; lia). cbn [rbind].
    do 2 f_equal. by rewrite <- !app_assoc.
  - cbn [rbind]. destruct g2; [|cbn in *; lia]. rewrite !app_nil_r. done.
Qed.

Lemma load_rows_spec (rows : list (list Z)) : ∀ pre gap post offset input,
  Forall (fun r => length r = n) rows → length gap = (width * length rows)%nat → 0 ≤ offset →
  offset + 16 * Z.of_nat m * Z.of_nat (length rows) < 2 ^ 64 →
  rfold (load_row TrivialMemoryWriter e v tag)
    (mkLoader input (mkStream (pre ++ gap ++ post) (Z.of_nat (length pre))) offset) rows =
  Ok (mkLoader input
        (mkStream (pre ++ concat (enc_rows offset rows) ++ post)
           (Z.of_nat (length (pre ++ concat (enc_rows offset rows)))))
        (offset + 16 * Z.of_nat m * Z.of_nat (length rows))).
Proof.
  induction rows as [|r rows IH]; intros pre gap post offset input Hr Hg Ho Hb; cbn [rfold enc_rows concat].
  - destruct gap; [|cbn in Hg; lia]. cbn. rewrite app_nil_r. do 2 f_equal. lia.
  - apply Forall_cons in Hr as [Hr Hrs]. cbn [length] in Hg, Hb.
    destruct (split_at width gap) as (g1 & g2 & -> & Hg1 & Hg2); [lia|]. rewrite length_app in Hg.
    rewrite <- app_assoc, load_row_spec by (done || lia). cbn [rbind].
    rewrite app_assoc, IH by (done || lia). do 2 f_equal; [|cbn [length]; lia].
    by rewrite <- !app_assoc.
Qed.

(** A table is loaded slice by slice. *)
Lemma load_table_spec (per : Z) (fuel : nat) : ∀ rows ipre ipost pre gap post offset,
  1 ≤ per → (length rows ≤ fuel)%nat →
  Forall (fun r => length r = n) rows → length gap = (width * length rows)%nat → 0 ≤ offset →
  offset + 16 * Z.of_nat m * Z.of_nat (length rows) < 2 ^ 64 →
  load_table fuel TrivialMemoryWriter e v tag (Z.of_nat n) per (Z.of_nat (length rows))
    (mkLoader (mkStream (ipre ++ concat rows ++ ipost) (Z.of_nat (length ipre)))
       (mkStream (pre ++ gap ++ post) (Z.of_nat (length pre))) offset) =
  Ok (mkLoader (mkStream (ipre ++ concat rows ++ ipost) (Z.of_nat (length (ipre ++ concat rows))))
        (mkStream (pre ++ concat (enc_rows offset rows) ++ post)
           (Z.of_nat (length (pre ++ concat (enc_rows offset rows)))))
        (offset + 16 * Z.of_nat m * Z.of_nat (length rows))).
Proof.
  induction fuel as [|fuel IH]; intros rows ipre ipost pre gap post offset Hp Hf Hr Hg Ho Hb.
  - destruct rows; [|cbn in Hf; lia]. destruct gap; [|cbn in Hg; lia]. cbn [load_table length Z.of_nat Z.eqb].
    cbn. rewrite !app_nil_r. do 2 f_equal. lia.
  - cbn [load_table]. destruct (Z.eqb_spec (Z.of_nat (length rows)) 0) as [Hz|Hz].
    { destruct rows; [|cbn in Hz; lia]. destruct gap; [|cbn in Hg; lia]. cbn. rewrite !app_nil_r.
      do 2 f_equal. lia. }
    set (k := Z.min (Z.of_nat (length rows)) per).
    assert (Hk : 1 ≤ k ≤ Z.of_nat (length rows)) by lia. clearbody k.
    destruct (split_at (Z.to_nat k) rows) as (r1 & r2 & -> & H1 & H2); [lia|].
    rewrite !length_app in *. apply Forall_app in Hr as [Hr1 Hr2].
    destruct (split_at (width * length r1) gap) as (g1 & g2 & -> & Hg1 & Hg2); [lia|]. rewrite length_app in Hg.
    unfold stream_read. cbn [stream_memory stream_ptr ld_in ld_out slice_offset].
    rewrite concat_app, <- !app_assoc.
    replace (k * Z.of_nat n) with (Z.of_nat (length (concat r1)))
      by (rewrite (length_concat_rows n) by done; lia).
    rewrite read_span_app. cbn [rbind]. rewrite Nat2Z.id, <- H1, chunks_concat by done.
    rewrite load_rows_spec by (done || lia). cbn [rbind].
    replace (Z.of_nat (length r1 + length r2) - k) with (Z.of_nat (length r2)) by lia.
    pose proof (IH r2 (ipre ++ concat r1) ipost (pre ++ concat (enc_rows offset r1)) g2 post
      (offset + 16 * Z.of_nat m * Z.of_nat (length r1)) Hp ltac:(lia) Hr2 ltac:(lia) ltac:(lia) ltac:(lia)) as H.
    rewrite length_app, Nat2Z.inj_add, <- !app_assoc in H. rewrite H.
    rewrite enc_rows_app, concat_app, <- !app_assoc.
    do 2 f_equal; [f_equal; by rewrite length_app|f_equal; by rewrite length_app|lia].
Qed.

(** The tables as the device holds them, and where the pads of each begin. *)
Fixpoint enc_tables (offset : Z) (tables : list (list (list Z))) : list (list (list Z)) :=
  match tables with
  | [] => []
  | rows :: tables' =>
      enc_rows offset rows :: enc_tables (offset + 16 * Z.of_nat m * Z.of_nat (length rows)) tables'
  end.

Fixpoint table_offsets (offset : Z) (tables : list (list (list Z))) : list Z :=
  match tables with
  | [] => []
  | rows :: tables' => offset :: table_offsets (offset + 16 * Z.of_nat m * Z.of_nat (length rows)) tables'
  end.

Lemma load_all_spec (per : Z) (tables : list (list (list Z))) : ∀ ipre ipost pre gap post offset,
  1 ≤ per → Forall (Forall (fun r => length r = n)) tables →
  length gap = (width * length (concat tables))%nat → 0 ≤ offset →
  offset + 16 * Z.of_nat m * Z.of_nat (length (concat tables)) < 2 ^ 64 →
  ∃ s, load_all TrivialMemoryWriter e v tag (Z.of_nat n) per ((fun rows => Z.of_nat (length rows)) <$> tables)
    (mkLoader (mkStream (ipre ++ concat (concat tables) ++ ipost) (Z.of_nat (length ipre)))
       (mkStream (pre ++ gap ++ post) (Z.of_nat (length pre))) offset) = Ok (table_offsets offset tables, s) ∧
    stream_memory (ld_out s) = pre ++ concat (concat (enc_tables offset tables)) ++ post.
Proof.
  induction tables as [|rows tables IH]; intros ipre ipost pre gap post offset Hp Ht Hg Ho Hb;
    cbn [load_all fmap list_fmap enc_tables table_offsets concat].
  - eexists. split; [done|]. cbn. destruct gap; [done|cbn in Hg; lia].
  - apply Forall_cons in Ht as [Hr Ht]. cbn [concat] in Hg, Hb. rewrite length_app in Hg, Hb.
    destruct (split_at (width * length rows) gap) as (g1 & g2 & -> & Hg1 & Hg2); [lia|].
    rewrite length_app in Hg. rewrite concat_app, <- !app_assoc, Nat2Z.id.
    rewrite load_table_spec by (done || lia). cbn [rbind].
    destruct (IH (ipre ++ concat rows) ipost (pre ++ concat (enc_rows offset rows)) g2 post
      (offset + 16 * Z.of_nat m * Z.of_nat (length rows))) as (s & Hs & Hm); try done; try lia.
    exists s. split.
    + rewrite <- !app_assoc in Hs. rewrite Hs. done.
    + rewrite Hm, concat_app. by rewrite <- !app_assoc.
Qed.
End loading.

Lemma load_tables_spec {B} {E : EncryptionBackend B} {L : EncryptionBackendLaws B}
    (x : executor B TrivialCPU.t) (tag : bool) (m : nat) (tables : list (list (list Z)))
    (hash address : Z) (key_e key_v : list Z) (e ve : engine B) :
  make_engine (create_table_version hash) key_e = Ok e →
  make_engine (create_table_version hash) key_v = Ok ve →
  (1 ≤ m ≤ 512)%nat → Forall (Forall (fun r => length r = (4 * m)%nat)) tables →
  4 * Z.of_nat (4 * m + tag_width tag) * Z.of_nat (length (concat tables)) < 2 ^ 64 →
  load_tables TrivialMemoryWriter x (concat (concat tables)) hash address key_e key_v
    ((fun rows => Z.of_nat (length rows)) <$> tables) (Z.of_nat (4 * m)) tag =
  Ok (mkExecutor (Z.of_nat (length tables)) (Z.of_nat (4 * m)) tag
        (Some (mkPostprocessor e (mkVerifier ve address) (table_offsets m 0 tables) (Z.of_nat (4 * m))))
        (TrivialCPU.mk (TrivialCPU.rows_ (device_ x)) (TrivialCPU.sparse_feature_size_ (device_ x))
           (TrivialCPU.with_tag_ (device_ x))
           (concat (concat (enc_tables e (mkVerifier ve address) tag m 0 tables))))
        (cpsum x) (epsum x)).
Proof.
  intros He Hve Hm Ht Hb. set (v := mkVerifier ve address).
  pose proof (make_engine_ok _ _ _ He) as Hok.
  set (N := length (concat tables)) in *. set (wd := (4 * m + tag_width tag)%nat) in *.
  assert (Hsum : sum_list_Z ((fun rows : list (list Z) => Z.of_nat (length rows)) <$> tables) = Z.of_nat N).
  { unfold N, sum_list_Z. clear. induction tables as [|r t IH]; [done|]. cbn. rewrite length_app, IH. lia. }
  assert (Htw : Z.of_nat (tag_width tag) * 4 = if tag then 16 else 0) by by destruct tag.
  unfold load_tables.
  assert (Hsize : encrypted_buffer_size TrivialMemoryWriter
    (make_preprocessor (mkStream (concat (concat tables)) 0) hash
       ((fun rows : list (list Z) => Z.of_nat (length rows)) <$> tables) (Z.of_nat (4 * m))) tag / 4 =
    Z.of_nat (wd * N)).
  { unfold encrypted_buffer_size, memory_size.
    cbn [pre_sparse_feature_size table_entries_ make_preprocessor meta_size]. rewrite Hsum, <- Htw.
    destruct (decide (N = 0%nat)) as [->|HN]; [by rewrite (u64_small (Z.of_nat 0)), Z.mul_0_r, Nat.mul_0_r by lia|].
    rewrite (u64_small (Z.of_nat N)) by nia.
    replace (Z.of_nat (4 * m) * 4 + Z.of_nat (tag_width tag) * 4) with (4 * Z.of_nat wd) by lia.
    rewrite (u64_small (4 * Z.of_nat wd)), u64_small by nia.
    replace (4 * Z.of_nat wd * Z.of_nat N) with (Z.of_nat (wd * N) * 4) by lia. by apply Z.div_mul. }
  rewrite Hsize, Nat2Z.id. unfold load_impl.
  cbn [pre_sparse_feature_size table_entries_ pre_version reader_ make_preprocessor].
  replace (Z.of_nat (4 * m) =? 0) with false by (symmetry; apply Z.eqb_neq; lia). rewrite He, Hve. cbn [rbind]. fold v.
  assert (Hper : 1 ≤ BUFFER_SIZE / (4 * Z.of_nat (4 * m))).
  { apply Z.div_le_lower_bound; unfold BUFFER_SIZE; lia. }
  destruct (load_all_spec e v Hok tag m (BUFFER_SIZE / (4 * Z.of_nat (4 * m))) tables
    [] [] [] (replicate (wd * N) 0) [] 0) as (s & Hs & Hmem); try done; try (rewrite ?length_replicate; fold wd N; nia).
  rewrite !app_nil_r in *. cbn [app length] in *. change (Z.of_nat 0) with 0 in Hs. rewrite Hs.
  cbn [rbind]. rewrite Hmem. by rewrite length_fmap.
Qed.

Lemma sum_lengths (l : list (list Z)) : sum_list_Z (lengths_of l) = Z.of_nat (length (concat l)).
Proof.
  unfold sum_list_Z, lengths_of. induction l as [|x l IH]; cbn; [done|]. rewrite length_app, IH. lia.
Qed.

Lemma lookup_lengths_nonneg (l : list (list Z)) : Forall (Z.le 0) (lengths_of l).
Proof. apply Forall_fmap, Forall_forall. intros x _. cbn. lia. Qed.

(** ** Pads of lookups *)
Section pads.
Context {B : Type} {E : EncryptionBackend B} {L : EncryptionBackendLaws B}.
Context (p : postprocessor B) (tag : bool) (m : nat).
Context (He : backend_ok (aes_engine_ (e_engine_ p))).
Context (Hv : backend_ok (aes_engine_ (v_engine (v_engine_ p)))).
Context (Hcols : cols_count_ p = Z.of_nat (4 * m)).
Abbreviation n := (4 * m)%nat.
Abbreviation tw := (tag_width tag).
Abbreviation width := (n + tw)%nat.

(** The address of a row's pads. *)
Definition row_address (offset i : Z) : Z := offset + 16 * Z.of_nat m * i.

(** The sum of the pads of a lookup, with the sum of the pads of the tags. *)
Definition pad_row (offset : Z) (idx : list Z) : list Z :=
  sum_rows n ((fun i => otp_row (e_engine_ p) (row_address offset i) m) <$> idx) ++
  (if tag then le_words 4 (fold_left add128 ((fun i => tag_otp (v_engine_ p) 0x10 (row_address offset i)) <$> idx) 0)
   else []).

Lemma length_pad_row (offset : Z) (idx : list Z) : length (pad_row offset idx) = width.
Proof.
  unfold pad_row, tag_width. rewrite length_app, length_sum_rows.
  - destruct tag; [by rewrite length_le_words|done].
  - apply Forall_fmap, Forall_forall. intros i _. exact (length_otp_row _ He _ m).
Qed.

Lemma pad_row_nil (offset : Z) : pad_row offset [] = replicate width 0.
Proof.
  unfold pad_row, tag_width. cbn [fmap list_fmap]. unfold sum_rows. cbn [fold_left].
  destruct tag; [by rewrite replicate_add|by rewrite Nat.add_0_r, app_nil_r].
Qed.

Definition view_rows (it last : Z) : rowwise :=
  make_rowwise_view it last (Z.of_nat n + Z.of_nat tw) 0 (Z.of_nat tw).
Definition view_tags (it last : Z) : rowwise :=
  make_rowwise_view it last (Z.of_nat n + Z.of_nat tw) (Z.of_nat n) 0.

Definition lookup_ok (offset : Z) (idx : list Z) : Prop :=
  Forall (fun i => 0 ≤ i ∧ row_address offset i < 2 ^ 64) idx.

Lemma fill_offsets_spec (tid offset : Z) (idx : list Z) :
  0 ≤ tid → offsets_ p !! Z.to_nat tid = Some offset → 0 ≤ offset → lookup_ok offset idx →
  fill_offsets p tid idx = Ok (row_address offset <$> idx).
Proof.
  intros Ht Ho Hp Hi. unfold fill_offsets. rewrite (proj2 (vec_at_Ok _ _ offset)) by done. cbn [rbind].
  f_equal. apply list_fmap_ext. intros k i Hk. destruct (Forall_lookup_1 _ _ _ _ Hi Hk) as [H0 Hr].
  rewrite Hcols. unfold row_address in *. rewrite u64_small by lia. lia.
Qed.

Lemma perform_lookup_spec (ipre idx ipost pre r post : list Z) (tid offset it last k : Z) :
  0 ≤ tid → offsets_ p !! Z.to_nat tid = Some offset → 0 ≤ offset → lookup_ok offset idx →
  length r = width → Z.of_nat (length pre) = it + Z.of_nat width * k →
  perform_lookup p (ipre ++ idx ++ ipost) tid (view_rows it last)
    (if tag then Some (view_tags it last) else None) (k, pre ++ r ++ post)
    (mkSpan (Z.of_nat (length ipre)) (Z.of_nat (length idx))) =
  Ok (k + 1, pre ++ pad_row offset idx ++ post).
Proof.
  intros Ht Ho Hp Hi Hr Hpre. unfold perform_lookup. rewrite read_span_app. cbn [rbind].
  rewrite (fill_offsets_spec tid offset) by done. cbn [rbind].
  replace (row_at (view_rows it last) k) with (mkSpan (Z.of_nat (length pre)) (Z.of_nat n))
    by (unfold row_at, view_rows; cbn; f_equal; lia).
  cbn [span_size]. rewrite Nat2Z.id.
  destruct (split_at n r) as (r1 & r2 & -> & H1 & H2); [lia|]. rewrite length_app in Hr.
  rewrite <- app_assoc, write_span_app by (rewrite length_replicate; done). cbn [rbind].
  rewrite (reduce_vec_spec _ He m) by apply length_replicate. cbn [rbind].
  rewrite <- list_fmap_compose.
  set (s := sum_rows n ((fun i => otp_row (e_engine_ p) (row_address offset i) m) <$> idx)).
  match goal with |- context [fold_left add_row ?l (replicate n 0)] =>
    change (fold_left add_row l (replicate n 0)) with s end.
  assert (Hs : length s = n).
  { apply length_sum_rows, Forall_fmap, Forall_forall. intros i _. exact (length_otp_row _ He _ m). }
  rewrite write_span_app by (rewrite length_replicate; done). cbn [rbind].
  assert (Htag : span_begin (row_at (view_tags it last) k) = Z.of_nat (length (pre ++ s)))
    by (unfold row_at, view_tags; cbn [span_begin rw_begin row_physical_size front_gap make_rowwise_view];
        rewrite length_app; lia).
  unfold pad_row. fold s. unfold tag_width in *. destruct tag; cbn [rbind].
  - rewrite Htag.
    rewrite app_assoc, store_tag_app by lia. cbn [rbind]. rewrite <- !app_assoc. do 5 f_equal.
    rewrite (tag_vec_spec _ Hv).
    + unfold tag_transform_reduce. rewrite !fold_left_map. done.
    + apply Forall_fmap. eapply Forall_impl; [exact Hi|]. intros i [H0 Hlt]. unfold address_ok. cbn.
      unfold row_address in *. lia.
  - destruct r2; [|cbn in *; lia]. by rewrite app_nil_r.
Qed.

Lemma perform_lookups (tid offset it last : Z) (l : list (list Z)) : ∀ ipre ipost pre t post k,
  0 ≤ tid → offsets_ p !! Z.to_nat tid = Some offset → 0 ≤ offset → Forall (lookup_ok offset) l →
  length t = (width * length l)%nat → Z.of_nat (length pre) = it + Z.of_nat width * k →
  rfold (perform_lookup p (ipre ++ concat l ++ ipost) tid (view_rows it last)
    (if tag then Some (view_tags it last) else None)) (k, pre ++ t ++ post)
    (layout (Z.of_nat (length ipre)) (lengths_of l)) =
  Ok (k + Z.of_nat (length l), pre ++ concat (pad_row offset <$> l) ++ post).
Proof.
  induction l as [|idx l IH]; intros ipre ipost pre t post k Ht Ho Hp Hl Hlt Hpre.
  - destruct t; [|cbn in Hlt; lia]. cbn. by rewrite Z.add_0_r.
  - apply Forall_cons in Hl as [Hi Hl]. cbn [length] in Hlt.
    destruct (split_at width t) as (r & t' & -> & Hr & Ht'); [lia|]. rewrite length_app in Hlt.
    change (lengths_of (idx :: l)) with (Z.of_nat (length idx) :: lengths_of l).
    cbn [layout rfold concat fmap list_fmap]. rewrite <- !app_assoc.
    rewrite (perform_lookup_spec _ _ _ _ _ _ tid offset) by done. cbn [rbind].
    pose proof (IH (ipre ++ idx) ipost (pre ++ pad_row offset idx) t' post (k + 1) Ht Ho Hp Hl ltac:(lia)
      ltac:(rewrite length_app, length_pad_row; lia)) as H.
    rewrite <- !app_assoc in H. rewrite <- Nat2Z.inj_add, <- length_app, H.
    do 2 f_equal. cbn [length]. lia.
Qed.

(** Iteration over the lookups of a table stops before the empty ones at its end. *)
Lemma drop_empty_split (l : list (list Z)) :
  ∃ l1 l2, l = l1 ++ l2 ∧ drop_empty_tail (lengths_of l) = lengths_of l1 ∧ Forall (fun x => x = []) l2.
Proof.
  induction l as [|idx l (l1 & l2 & -> & Hd & Hn)]; [by exists [], []|].
  change (lengths_of (idx :: l1 ++ l2)) with (Z.of_nat (length idx) :: lengths_of (l1 ++ l2)).
  cbn [drop_empty_tail]. rewrite Hd. destruct l1 as [|i1 l1].
  - cbn. destruct (Z.eqb_spec (Z.of_nat (length idx)) 0) as [H|H].
    + destruct idx; [|cbn in H; lia]. by exists [], ([] :: l2); repeat constructor.
    + by exists [idx], l2.
  - by exists (idx :: i1 :: l1), l2.
Qed.

Lemma concat_pads_empty (offset : Z) (l : list (list Z)) :
  Forall (fun x => x = []) l → concat (pad_row offset <$> l) = replicate (width * length l) 0.
Proof.
  induction 1 as [|x l -> Hl IH]; cbn [fmap list_fmap concat length].
  - by rewrite Nat.mul_0_r.
  - rewrite IH, pad_row_nil, <- replicate_add. f_equal. lia.
Qed.

(** The task of a table: its lookups, where the rows that iteration does not visit
    were zero before. *)
Lemma perform_sls_spec (tid offset it : Z) (l : list (list Z)) (ipre ipost pre t post : list Z) :
  0 ≤ tid → offsets_ p !! Z.to_nat tid = Some offset → 0 ≤ offset → Forall (lookup_ok offset) l →
  (1 ≤ width)%nat → length t = (width * length l)%nat → Z.of_nat (length pre) = it →
  Forall (fun x => x ≠ []) l ∨ t = replicate (width * length l) 0 →
  perform_sls_impl p (ipre ++ concat l ++ ipost)
    [(tid, mkVariable (Z.of_nat (length ipre)) (Z.of_nat (length ipre) + Z.of_nat (length (concat l))) (lengths_of l))]
    (view_rows it (it + (Z.of_nat n + Z.of_nat tw) * Z.of_nat (length l)))
    (if tag then Some (view_tags it (it + (Z.of_nat n + Z.of_nat tw) * Z.of_nat (length l))) else None)
    (pre ++ t ++ post) =
  Ok (pre ++ concat (pad_row offset <$> l) ++ post).
Proof.
  intros Ht Ho Hp Hl Hw Hlt Hpre Hz. unfold perform_sls_impl.
  set (last := it + _).
  assert (Htags : l ≠ [] →
    match (if tag then Some (view_tags it last) else None) with
    | Some t => if rowwise_size t =? 0 then None else Some t
    | None => None
    end = (if tag then Some (view_tags it last) else None)).
  { assert (Hsz : rowwise_size (view_tags it last) = Z.of_nat (length l)).
    { unfold rowwise_size, view_tags, last. cbn [rw_end rw_begin row_physical_size make_rowwise_view].
      rewrite Z.add_simpl_l, Z.mul_comm. apply Z.div_mul. lia. }
    intros Hne. destruct tag; [|done]. rewrite Hsz. by destruct l. }
  cbn [rfold]. unfold rows_of_variable. cbn [vr_end vr_begin row_sizes].
  rewrite <- sum_lengths, variable_rows_spec by apply lookup_lengths_nonneg. cbn [rbind].
  destruct (drop_empty_split l) as (l1 & l2 & El & -> & Hn).
  assert (Hmem : t = take (width * length l1) t ++ concat (pad_row offset <$> l2)).
  { destruct Hz as [Hne| ->].
    - rewrite El in Hne. apply Forall_app in Hne as [_ Hne2].
      destruct l2 as [|x l2]; [cbn; rewrite app_nil_r, take_ge; [done|]|].
      + rewrite app_nil_r in El. subst l1. lia.
      + apply Forall_cons in Hn as [-> _]. apply Forall_cons in Hne2 as [[] _]. done.
    - rewrite take_replicate, concat_pads_empty, <- replicate_add by done. f_equal.
      rewrite El, length_app. lia. }
  destruct l1 as [|x1 l1].
  - cbn [lengths_of fmap list_fmap layout rfold rbind]. cbn [length] in Hmem. rewrite Nat.mul_0_r in Hmem.
    cbn [app] in El. rewrite El. rewrite Hmem at 1. done.
  - rewrite Htags by (rewrite El; done). rewrite El. rewrite Hmem. rewrite concat_app, <- !app_assoc.
    rewrite (perform_lookups tid offset it last (x1 :: l1)); [|done|done|done| | |].
    + cbn [rbind]. rewrite fmap_app, concat_app, <- !app_assoc. done.
    + rewrite El in Hl. by apply Forall_app in Hl as [? _].
    + rewrite length_take, Hlt, El, length_app. lia.
    + lia.
Qed.

(** The pads of all tables, a row for every lookup. *)
Fixpoint all_pads (offset : Z) (qs : list request) : list (list Z) :=
  match qs with
  | [] => []
  | q :: qs' => (pad_row offset <$> q.2) ++ all_pads (row_address offset (Z.of_nat (length q.1))) qs'
  end.

(** The requests of the executor. *)
Fixpoint views_of (tid base : Z) (qs : list request) : list (Z * variable_row) :=
  match qs with
  | [] => []
  | q :: qs' =>
      (tid, mkVariable base (base + Z.of_nat (length (concat q.2))) (lengths_of q.2)) ::
      views_of (tid + 1) (base + Z.of_nat (length (concat q.2))) qs'
  end.

Context {D : Type} (x : executor B D) (Hsfs : sparse_feature_size_ x = Z.of_nat n) (Htag : with_tag_ x = tag).

Lemma tag_words_width : tag_words x = Z.of_nat tw.
Proof. unfold tag_words, tag_width. rewrite Htag. by destruct tag. Qed.

Lemma lookups_in_table (w mb : nat) (offset : Z) (q : request) :
  0 ≤ offset → request_ok w mb q → row_address offset (Z.of_nat (length q.1)) < 2 ^ 64 →
  Forall (lookup_ok offset) q.2.
Proof.
  intros Ho (_ & _ & Hi) Hb. eapply Forall_impl; [exact Hi|]. intros idx Hidx.
  eapply Forall_impl; [exact Hidx|]. intros i Hr. unfold row_address in *. split; [lia|]. nia.
Qed.

Lemma run_tasks_spec (w mb : nat) (qs : list request) : ∀ tid offset ipre ipost pre t post,
  0 ≤ tid → drop (Z.to_nat tid) (offsets_ p) = table_offsets m offset qs.*1 → 0 ≤ offset →
  row_address offset (Z.of_nat (length (concat qs.*1))) < 2 ^ 64 →
  Forall (request_ok w mb) qs → (1 ≤ m)%nat →
  length t = (width * (mb * length qs))%nat →
  Forall (fun q => Forall (fun l => l ≠ []) q.2) qs ∨ t = replicate (width * (mb * length qs)) 0 →
  run_tasks x p (ipre ++ all_indices qs ++ ipost) (views_of tid (Z.of_nat (length ipre)) qs)
    (Z.of_nat (length pre)) (pre ++ t ++ post) =
  (pre ++ concat (all_pads offset qs) ++ post, replicate (length qs) (Ok tt)).
Proof.
  induction qs as [|[rows l] qs IH]; intros tid offset ipre ipost pre t post Ht Ho Hp Hb Hq Hm Hlt Hz.
  - cbn. destruct t; [done|cbn in Hlt; lia].
  - apply Forall_cons in Hq as [Hq Hqs]. pose proof Hq as (_ & Hl & _). cbn [fst snd] in *.
    cbn [length fmap list_fmap concat table_offsets fst] in Hlt, Hb, Ho. rewrite length_app in Hb.
    destruct (split_at (width * mb) t) as (t1 & t2 & -> & Ht1 & Ht2); [lia|]. rewrite length_app in Hlt.
    cbn [views_of run_tasks fst snd]. unfold all_indices. cbn [fmap list_fmap concat fst snd].
    rewrite <- !app_assoc. unfold table_task. cbn [snd]. unfold variable_row_size. cbn [row_sizes].
    rewrite tag_words_width, Hsfs, Htag.
    replace (Z.of_nat (length (lengths_of l))) with (Z.of_nat (length l))
      by (unfold lengths_of; by rewrite length_fmap).
    assert (Hz1 : Forall (fun x => x ≠ []) l ∨ t1 = replicate (width * length l) 0).
    { rewrite Hl. destruct Hz as [Hne|Hz]; [left; by apply Forall_cons in Hne as [? _]|right].
      apply (f_equal (take (width * mb))) in Hz.
      rewrite take_app_length', take_replicate in Hz by done. rewrite Hz. f_equal. cbn [length]. lia. }
    assert (Hz2 : Forall (fun q => Forall (fun l => l ≠ []) q.2) qs ∨ t2 = replicate (width * (mb * length qs)) 0).
    { destruct Hz as [Hne|Hz]; [left; by apply Forall_cons in Hne as [_ ?]|right].
      apply (f_equal (drop (width * mb))) in Hz.
      rewrite drop_app_length', drop_replicate in Hz by done. rewrite Hz. f_equal. cbn [length]. lia. }
    pose proof (perform_sls_spec tid offset (Z.of_nat (length pre)) l ipre (all_indices qs ++ ipost)
      pre t1 (t2 ++ post)) as Htask. unfold view_rows, view_tags, all_indices in Htask.
    rewrite Htask; [|done| |done| |lia|lia|done|exact Hz1]; clear Htask.
    + pose proof (IH (tid + 1) (row_address offset (Z.of_nat (length rows))) (ipre ++ concat l) ipost
        (pre ++ concat (pad_row offset <$> l)) t2 post) as H.
      assert (Hpl : length (concat (pad_row offset <$> l)) = (width * mb)%nat).
      { rewrite (length_concat_rows width), length_fmap by
          (apply Forall_fmap, Forall_forall; intros i _; apply length_pad_row). lia. }
      rewrite !length_app, Hpl in H. rewrite <- !app_assoc in H.
      replace (Z.of_nat (length ipre + length (concat l))) with
        (Z.of_nat (length ipre) + Z.of_nat (length (concat l))) in H by lia.
      replace (Z.of_nat (length pre + width * mb)) with
        (Z.of_nat (length pre) + (Z.of_nat n + Z.of_nat tw) * Z.of_nat (length l)) in H by lia.
      unfold all_indices in H. rewrite H; [|lia| | |unfold row_address in *; lia|done|done|lia|exact Hz2].
      * cbn [all_pads fst snd]. rewrite concat_app, <- !app_assoc. done.
      * replace (Z.to_nat (tid + 1)) with (Z.to_nat tid + 1)%nat by lia.
        rewrite <- drop_drop, Ho. done.
      * unfold row_address. lia.
    + rewrite <- (Nat.add_0_r (Z.to_nat tid)), <- lookup_drop, Ho. done.
    + apply (lookups_in_table w mb offset (rows, l)); [done|done|]. cbn [fst]. unfold row_address in *. lia.
Qed.

End pads.

Lemma reorder_spec (mb : nat) (lengths_v : rowwise) (qs : list request) : ∀ tid lpre lpost base,
  (∀ k, row_at lengths_v k = mkSpan (Z.of_nat mb * k) (Z.of_nat mb)) →
  Forall (fun q => length q.2 = mb) qs → Z.of_nat (length lpre) = Z.of_nat mb * tid →
  Z.of_nat (length (all_indices qs)) < 2 ^ 64 →
  reorder_loop (length qs) tid base (lpre ++ all_lengths qs ++ lpost) lengths_v = Ok (views_of tid base qs).
Proof.
  induction qs as [|[rows l] qs IH]; intros tid lpre lpost base Hv' Hq Hl Hb; [done|].
  apply Forall_cons in Hq as [Hq Hqs]. cbn [snd] in *. cbn [length reorder_loop].
  unfold all_indices, all_lengths in *. cbn [fmap list_fmap concat snd] in *. rewrite length_app in Hb.
  rewrite Hv', <- Hl, <- Hq. rewrite <- !app_assoc.
  replace (Z.of_nat (length l)) with (Z.of_nat (length (lengths_of l))) by (unfold lengths_of; by rewrite length_fmap).
  rewrite read_span_app. cbn [rbind]. rewrite sum_lengths, u64_small by lia.
  pose proof (IH (tid + 1) (lpre ++ lengths_of l) lpost (base + Z.of_nat (length (concat l))) Hv' Hqs) as H.
  rewrite <- !app_assoc in H. rewrite H; [done| |lia].
  rewrite length_app. unfold lengths_of. rewrite length_fmap. lia.
Qed.


(** ** Decryption *)
Section decryption.
Context {B : Type} {E : EncryptionBackend B} (p : postprocessor B) (n tw : nat) (elast : Z).
Abbreviation width := (n + tw)%nat.

Definition epsum_rows : rowwise := make_rowwise_view 0 elast (Z.of_nat n + Z.of_nat tw) 0 (Z.of_nat tw).

(** A row of the device with the row of the pads. *)
Definition share_ok (s : list Z * list Z) : Prop := length s.1 = n ∧ length s.2 = width.
Definition decrypted (s : list Z * list Z) : list Z := add_row s.1 (take n s.2).

Definition span_of (k : nat) : span := mkSpan (Z.of_nat n * Z.of_nat k) (Z.of_nat n).

Lemma length_decrypted (s : list Z * list Z) : share_ok s → length (decrypted s) = n.
Proof.
  intros [H1 H2]. apply (add_row_ok n); [done|]. rewrite length_take. lia.
Qed.

Lemma share_read (k : nat) (epre post : list Z) (s : list Z * list Z) :
  share_ok s → length epre = (width * k)%nat →
  read_span (epre ++ s.2 ++ post) (mkSpan (span_begin (row_at epsum_rows (Z.of_nat k))) (Z.of_nat n)) =
  Ok (take n s.2).
Proof.
  intros [H1 H2] He.
  replace (span_begin (row_at epsum_rows (Z.of_nat k))) with (Z.of_nat (length epre))
    by (unfold row_at, epsum_rows; cbn [span_begin rw_begin row_physical_size front_gap make_rowwise_view]; lia).
  rewrite <- (take_drop n s.2) at 1. rewrite <- app_assoc.
  replace (Z.of_nat n) with (Z.of_nat (length (take n s.2))) by (rewrite length_take; lia).
  apply read_span_app.
Qed.

Lemma decrypt_plain (ss : list (list Z * list Z)) : ∀ k d post epre epost check acc,
  Forall share_ok ss → length d = (n * k)%nat → length epre = (width * k)%nat →
  rfold (decrypt_row p (epre ++ concat ss.*2 ++ epost) epsum_rows None)
    (Z.of_nat k, d ++ concat ss.*1 ++ post, check, acc) (span_of <$> seq k (length ss)) =
  Ok (Z.of_nat (k + length ss), d ++ concat (decrypted <$> ss) ++ post, check, acc).
Proof.
  induction ss as [|s ss IH]; intros k d post epre epost check acc Hs Hd He.
  - cbn. by rewrite Nat.add_0_r.
  - apply Forall_cons in Hs as [Hs Hss]. cbn [length seq fmap list_fmap rfold concat].
    rewrite <- !app_assoc. unfold decrypt_row at 1.
    assert (Esp : span_of k = mkSpan (Z.of_nat (length d)) (Z.of_nat (length s.1)))
      by (unfold span_of; destruct Hs as [-> _]; f_equal; lia).
    rewrite Esp, read_span_app. cbn [rbind span_size].
    rewrite (proj1 Hs), share_read by done. cbn [rbind]. unfold decrypt_shares. fold (decrypted s).
    rewrite write_span_app by (rewrite length_decrypted by done; symmetry; apply Hs). cbn [rbind].
    rewrite andb_true_r.
    replace (Z.of_nat k + 1) with (Z.of_nat (S k)) by lia.
    pose proof (IH (S k) (d ++ decrypted s) post (epre ++ s.2) epost check acc Hss) as H.
    rewrite !length_app, length_decrypted, (proj2 Hs) in H by done. rewrite <- !app_assoc in H.
    rewrite H by lia. do 3 f_equal. by rewrite Nat.add_succ_comm.
Qed.

(** With tags: the tag words of the device come after the rows. *)
Definition tag_of_share (s : list Z * list Z) : Z := value_of_words (drop n s.2).

Definition tagged_ok (s : (list Z * list Z) * list Z) : Prop :=
  share_ok s.1 ∧ length s.2 = 4%nat ∧
  validate_shares (v_engine_ p) (decrypted s.1) (value_of_words s.2) (tag_of_share s.1) = true.

Lemma decrypt_tagged (Htw : tw = 4%nat) (first clast : Z) (ss : list ((list Z * list Z) * list Z)) :
  ∀ k d cpre cpost epre epost check,
  Forall tagged_ok ss → length d = (n * k)%nat → length epre = (width * k)%nat →
  Z.of_nat (length (d ++ concat ss.*1.*1 ++ cpre)) = first + 4 * Z.of_nat k →
  length check = length ss →
  rfold (decrypt_row p (epre ++ concat ss.*1.*2 ++ epost) epsum_rows
      (Some (make_rowwise_view first clast TAG_SIZE 0 0,
             make_rowwise_view 0 elast (Z.of_nat n + Z.of_nat tw) (Z.of_nat n) 0)))
    (Z.of_nat k, d ++ concat ss.*1.*1 ++ cpre ++ concat ss.*2 ++ cpost, replicate k 1 ++ check, true)
    (span_of <$> seq k (length ss)) =
  Ok (Z.of_nat (k + length ss), d ++ concat (decrypted <$> ss.*1) ++ cpre ++ concat ss.*2 ++ cpost,
      replicate (k + length ss) 1, true).
Proof.
  induction ss as [|[s ct] ss IH]; intros k d cpre cpost epre epost check Hs Hd He Hc Hk.
  - destruct check; [|done]. cbn. by rewrite Nat.add_0_r, app_nil_r.
  - apply Forall_cons in Hs as [(Hs & Hct & Hval) Hss]. destruct check as [|c0 check]; [done|].
    cbn [length seq fmap list_fmap rfold concat fst snd] in *. injection Hk as Hk.
    rewrite <- !app_assoc. unfold decrypt_row at 1.
    assert (Esp : span_of k = mkSpan (Z.of_nat (length d)) (Z.of_nat (length s.1)))
      by (unfold span_of; destruct Hs as [-> _]; f_equal; lia).
    rewrite Esp, read_span_app. cbn [rbind span_size].
    rewrite (proj1 Hs), share_read by done. cbn [rbind]. unfold decrypt_shares. fold (decrypted s).
    rewrite write_span_app by (rewrite length_decrypted by done; symmetry; apply Hs). cbn [rbind].
    pose proof (length_decrypted s Hs) as Hdl. pose proof (proj1 Hs) as Hs1. pose proof (proj2 Hs) as Hs2.
    assert (HET : load_tag (d ++ decrypted s ++ concat ss.*1.*1 ++ cpre ++ ct ++ concat ss.*2 ++ cpost)
      (span_begin (row_at (make_rowwise_view first clast TAG_SIZE 0 0) (Z.of_nat k))) = Ok (value_of_words ct)).
    { unfold load_tag.
      replace (mkSpan _ single_tag_size) with
        (mkSpan (Z.of_nat (length (d ++ decrypted s ++ concat ss.*1.*1 ++ cpre))) (Z.of_nat (length ct))).
      - replace (d ++ decrypted s ++ concat ss.*1.*1 ++ cpre ++ ct ++ concat ss.*2 ++ cpost) with
          ((d ++ decrypted s ++ concat ss.*1.*1 ++ cpre) ++ ct ++ (concat ss.*2 ++ cpost)) by by rewrite <- !app_assoc.
        by rewrite read_span_app.
      - unfold row_at, TAG_SIZE, single_tag_size.
        cbn [span_begin rw_begin row_physical_size front_gap make_rowwise_view].
        rewrite Hct. f_equal. rewrite !length_app in *. lia. }
    assert (HCT : load_tag (epre ++ s.2 ++ concat ss.*1.*2 ++ epost)
      (span_begin (row_at (make_rowwise_view 0 elast (Z.of_nat n + Z.of_nat tw) (Z.of_nat n) 0) (Z.of_nat k))) =
      Ok (tag_of_share s)).
    { unfold load_tag, tag_of_share.
      rewrite <- (take_drop n s.2) at 1. rewrite <- app_assoc, app_assoc.
      replace (mkSpan _ single_tag_size) with
        (mkSpan (Z.of_nat (length (epre ++ take n s.2))) (Z.of_nat (length (drop n s.2)))).
      - by rewrite read_span_app.
      - unfold row_at, single_tag_size. cbn [span_begin rw_begin row_physical_size front_gap make_rowwise_view].
        rewrite length_app, length_take, length_drop. f_equal; lia. }
    rewrite HET. cbn [rbind]. rewrite HCT. cbn [rbind]. rewrite Hval. cbn [andb].
    rewrite vec_set_Ok by (rewrite length_app, length_replicate; cbn [length]; lia).
    cbn [rbind]. rewrite Nat2Z.id.
    replace (<[k:=1]> (replicate k 1 ++ c0 :: check)) with (replicate (S k) 1 ++ check).
    2: { rewrite insert_app_r_alt, length_replicate, Nat.sub_diag by (rewrite length_replicate; lia). cbn [list_insert insert].
         rewrite replicate_S_end, <- app_assoc. done. }
    replace (Z.of_nat k + 1) with (Z.of_nat (S k)) by lia.
    pose proof (IH (S k) (d ++ decrypted s) (cpre ++ ct) cpost (epre ++ s.2) epost check Hss) as H.
    rewrite <- !app_assoc in H. rewrite H; [|rewrite ?length_app in *; lia..].
    do 2 f_equal. by rewrite Nat.add_succ_comm.
Qed.
End decryption.

(** The rows that passed are copied to the user. *)
Lemma copy_rows (n : nat) (check post : list Z) (rs : list (list Z)) : ∀ k d d' t,
  Forall (fun r => length r = n) rs → length d = (n * k)%nat → length d' = (n * k)%nat →
  length t = (n * length rs)%nat → (∀ j, (k ≤ j < k + length rs)%nat → check !! j = Some 1) →
  rfold (copy_func (d ++ concat rs ++ post) check) (Z.of_nat k, d' ++ t) (span_of n <$> seq k (length rs)) =
  Ok (Z.of_nat (k + length rs), d' ++ concat rs).
Proof.
  induction rs as [|r rs IH]; intros k d d' t Hr Hd Hd' Ht Hc.
  - destruct t; [|cbn in Ht; lia]. cbn. by rewrite Nat.add_0_r.
  - apply Forall_cons in Hr as [Hr Hrs]. cbn [length seq fmap list_fmap rfold concat] in *.
    destruct (split_at n t) as (t1 & t2 & -> & Ht1 & Ht2); [lia|]. rewrite length_app in Ht.
    unfold copy_func at 1.
    rewrite (proj2 (vec_at_Ok _ _ 1)) by (rewrite Nat2Z.id; split; [lia|apply Hc; lia]). cbn [rbind Z.eqb negb].
    rewrite <- app_assoc.
    replace (span_of n k) with (mkSpan (Z.of_nat (length d)) (Z.of_nat (length r)))
      by (unfold span_of; rewrite Hr; f_equal; lia).
    rewrite read_span_app. cbn [rbind]. rewrite Hd, <- Hd'.
    rewrite write_span_app by congruence. cbn [rbind].
    replace (Z.of_nat k + 1) with (Z.of_nat (S k)) by lia.
    pose proof (IH (S k) (d ++ r) (d' ++ r) t2 Hrs) as H. rewrite !length_app, <- !app_assoc in H.
    rewrite H; [|lia|lia|lia|intros j Hj; apply Hc; lia]. by rewrite Nat.add_succ_comm.
Qed.
