(* ===== verification/SecureRun.v ===== *)
(** * Secure sums are plain sums

    The end-to-end behaviour of the executor of SecureExecutor on the CPU device:
    tables are encrypted and loaded, lookups run on the encrypted tables and on the
    pads, and the decrypted result is the sum over the plain tables. *)
From S2P Require Import Prelude Views Aes Secure CpuSls SecureExecutor.

(** ** The two shares of a lookup *)
Section shares.
Context {B : Type} {E : EncryptionBackend B} {L : EncryptionBackendLaws B}.
Context (p : postprocessor B) (tag : bool) (m : nat).
Context (He : backend_ok (aes_engine_ (e_engine_ p))).
Context (Hv : backend_ok (aes_engine_ (v_engine (v_engine_ p)))).
Abbreviation n := (4 * m)%nat.
Abbreviation enc := (enc_rows (e_engine_ p) (v_engine_ p) tag m).

Lemma pick_enc_rows (rows : list (list Z)) : ∀ offset i,
  0 ≤ i < Z.of_nat (length rows) →
  pick (enc offset rows) i =
  enc_row (e_engine_ p) (v_engine_ p) tag m (row_address m offset i) (pick rows i).
Proof.
  unfold pick, row_address. induction rows as [|r rows IH]; intros offset i Hi; [cbn in Hi; lia|].
  cbn [enc_rows length] in *. destruct (decide (i = 0)) as [->|Hne].
  - change (Z.to_nat 0) with 0%nat. cbn [lookup list_lookup from_option id default]. f_equal. lia.
  - replace (Z.to_nat i) with (S (Z.to_nat (i - 1))) by lia. cbn [lookup list_lookup].
    rewrite IH by lia. f_equal. lia.
Qed.

(** The encrypted tables with the lookups. *)
Fixpoint enc_requests (offset : Z) (qs : list request) : list request :=
  match qs with
  | [] => []
  | q :: qs' => (enc offset q.1, q.2) :: enc_requests (row_address m offset (Z.of_nat (length q.1))) qs'
  end.

Lemma enc_requests_spec (qs : list request) : ∀ offset,
  all_words (enc_requests offset qs) =
    concat (concat (enc_tables (e_engine_ p) (v_engine_ p) tag m offset qs.*1)) ∧
  rows_counts (enc_requests offset qs) = rows_counts qs ∧
  all_indices (enc_requests offset qs) = all_indices qs ∧
  all_lengths (enc_requests offset qs) = all_lengths qs ∧
  length (enc_requests offset qs) = length qs.
Proof.
  induction qs as [|[rows l] qs IH]; intros offset; [done|].
  destruct (IH (row_address m offset (Z.of_nat (length rows)))) as (H1 & H2 & H3 & H4 & H5).
  unfold all_words, rows_counts, all_indices, all_lengths in *.
  cbn [enc_requests fmap list_fmap concat fst snd enc_tables length] in *.
  split_and!.
  - rewrite concat_app, H1. done.
  - rewrite H2, length_enc_rows. done.
  - by rewrite H3.
  - by rewrite H4.
  - by rewrite H5.
Qed.

Lemma enc_requests_ok (mb : nat) (qs : list request) : ∀ offset,
  Forall (request_ok n mb) qs → Forall (request_ok (n + tag_width tag) mb) (enc_requests offset qs).
Proof.
  induction qs as [|[rows l] qs IH]; intros offset Hq; cbn [enc_requests fst snd]; [done|].
  apply Forall_cons in Hq as [(Hr & Hl & Hi) Hq]. constructor; [|by apply IH].
  cbn [fst snd] in *. split; [by apply enc_rows_width|]. split; [done|]. cbn [fst snd].
  by rewrite length_enc_rows.
Qed.

(** The encrypted sum with the sum of the pads, and the sum of the tags. *)
Definition share (offset : Z) (rows : list (list Z)) (idx : list Z) : list Z * list Z :=
  (sum_rows n ((fun i => take n (pick (enc offset rows) i)) <$> idx), pad_row p tag m offset idx).

Definition tag_share (offset : Z) (rows : list (list Z)) (idx : list Z) : list Z :=
  le_words 4 (fold_left add128 ((fun i => value_of_words (drop n (pick (enc offset rows) i))) <$> idx) 0).

Section lookup.
Context (offset : Z) (rows : list (list Z)) (idx : list Z).
Context (Hrows : Forall (fun r => length r = n) rows).
Context (Hidx : Forall (fun i => 0 ≤ i < Z.of_nat (length rows)) idx).

(** The rows of the lookup with the addresses of their pads. *)
Definition addressed : list (Z * list Z) := (fun i => (row_address m offset i, pick rows i)) <$> idx.

Lemma addressed_length : Forall (fun q => length q.2 = n) addressed.
Proof.
  apply Forall_fmap. eapply Forall_impl; [exact Hidx|]. intros i Hi. by apply (length_pick n rows i).
Qed.

Lemma addressed_rows : addressed.*2 = pick rows <$> idx.
Proof. unfold addressed. by rewrite <- list_fmap_compose. Qed.

Lemma enc_sum :
  sum_rows n ((fun i => take n (pick (enc offset rows) i)) <$> idx) =
  sum_rows n ((fun q => sub_row q.2 (otp_row (e_engine_ p) q.1 m)) <$> addressed).
Proof.
  f_equal. unfold addressed. rewrite <- list_fmap_compose. apply list_fmap_ext. intros k i Hk.
  pose proof (Forall_lookup_1 _ _ _ _ Hidx Hk) as Hi. cbn. rewrite pick_enc_rows by done. unfold enc_row.
  apply take_app_length'. symmetry.
  exact (proj1 (sub_row_ok n _ _ (length_pick n rows i Hrows Hi) (length_otp_row _ He _ m))).
Qed.

Lemma share_spec :
  share_ok n (tag_width tag) (share offset rows idx) ∧
  decrypted n (share offset rows idx) = sum_rows n (pick rows <$> idx).
Proof.
  assert (Hpads : Forall (fun r => length r = n) ((fun i => otp_row (e_engine_ p) (row_address m offset i) m) <$> idx))
    by (apply Forall_fmap, Forall_forall; intros i _; exact (length_otp_row _ He _ m)).
  unfold share. split; [split; cbn [fst snd]|].
  - rewrite enc_sum. apply length_sum_rows, Forall_fmap. eapply Forall_impl; [exact addressed_length|].
    intros [o r] Hr. exact (proj1 (sub_row_ok n _ _ Hr (length_otp_row _ He _ m))).
  - by apply length_pad_row.
  - unfold decrypted. cbn [fst snd]. unfold pad_row.
    rewrite take_app_length' by (by rewrite length_sum_rows). rewrite enc_sum.
    rewrite <- addressed_rows, <- (sum_of_encrypted _ He m addressed addressed_length).
    do 2 f_equal. unfold addressed. by rewrite <- !list_fmap_compose.
Qed.

(** The tags of a sum that stays below 2^32 in every column are accepted. *)
Lemma tag_share_spec :
  tag = true → (∀ j, (j < n)%nat → 0 ≤ column_sum (pick rows <$> idx) j < 2 ^ 32) →
  tagged_ok p n (tag_width tag) (share offset rows idx, tag_share offset rows idx).
Proof.
  intros Ht Hc. destruct share_spec as [Hok Hd]. split; [exact Hok|]. cbn [fst snd].
  split; [apply length_le_words|]. rewrite Hd. unfold validate_shares. apply Z.eqb_eq.
  assert (Hcols : sum_rows n addressed.*2 = columns n addressed.*2).
  { apply sum_rows_exact.
    - apply Forall_fmap. exact addressed_length.
    - by rewrite addressed_rows. }
  rewrite <- addressed_rows, Hcols, linear_checksum_spec.
  unfold columns at 1. rewrite length_fmap, length_seq. rewrite <- (mac_sum_spec (v_engine_ p) n addressed addressed_length).
  assert (Hmac : fold_left add128 ((fun i => value_of_words (drop n (pick (enc offset rows) i))) <$> idx) 0 =
    u128 (sum_list_Z ((fun q => generate_mac (v_engine_ p) q.2 q.1) <$> addressed))).
  { etransitivity; [apply fold_add128; lia|]. rewrite Z.add_0_l. do 2 f_equal. unfold addressed. rewrite <- list_fmap_compose.
    apply list_fmap_ext. intros k i Hk. pose proof (Forall_lookup_1 _ _ _ _ Hidx Hk) as Hi. cbn.
    rewrite pick_enc_rows by done. unfold enc_row. rewrite Ht.
    rewrite drop_app_length' by (symmetry;
      exact (proj1 (sub_row_ok n _ _ (length_pick n rows i Hrows Hi) (length_otp_row _ He _ m)))).
    rewrite value_le_words. apply Z.mod_small. apply u128_range. }
  assert (Hpad : tag_of_share n (share offset rows idx) =
    u128 (sum_list_Z (tag_otp (v_engine_ p) 16 <$> addressed.*1))).
  { unfold tag_of_share, share, pad_row. cbn [snd]. rewrite Ht.
    rewrite drop_app_length' by (symmetry; apply length_sum_rows, Forall_fmap, Forall_forall;
      intros i _; exact (length_otp_row _ He _ m)).
    rewrite value_le_words. unfold addressed. rewrite <- !list_fmap_compose.
    match goal with |- fold_left add128 ?l 0 mod _ = _ =>
      replace (fold_left add128 l 0) with (u128 (sum_list_Z l)) by (symmetry; apply fold_add128; lia) end.
    apply Z.mod_small, u128_range. }
  unfold tag_share. rewrite value_le_words, Hmac, Hpad.
  change (2 ^ (32 * Z.of_nat 4)) with (2 ^ 128). fold (u128 (u128 (sum_list_Z ((fun q => generate_mac (v_engine_ p) q.2 q.1) <$> addressed)))).
  by rewrite !u128_add_l, u128_add_r.
Qed.
End lookup.

(** ** All lookups of all tables *)
Fixpoint all_shares (offset : Z) (qs : list request) : list ((list Z * list Z) * list Z) :=
  match qs with
  | [] => []
  | q :: qs' =>
      ((fun idx => (share offset q.1 idx, tag_share offset q.1 idx)) <$> q.2) ++
      all_shares (row_address m offset (Z.of_nat (length q.1))) qs'
  end.

Lemma all_shares_sums (qs : list request) : ∀ offset,
  concat (all_shares offset qs).*1.*1 = all_sums n (take n) (enc_requests offset qs).
Proof.
  induction qs as [|[rows l] qs IH]; intros offset; [done|]. cbn [all_shares enc_requests fst snd].
  unfold all_sums in *. cbn [fmap list_fmap concat]. rewrite !fmap_app, concat_app, <- IH. f_equal.
  unfold lookup_sums. by rewrite <- !list_fmap_compose.
Qed.

Lemma all_shares_tags (qs : list request) : ∀ offset,
  concat (all_shares offset qs).*2 =
  all_tags (fun r => value_of_words (drop n r)) (enc_requests offset qs).
Proof.
  induction qs as [|[rows l] qs IH]; intros offset; [done|]. cbn [all_shares enc_requests fst snd].
  unfold all_tags in *. cbn [fmap list_fmap concat]. rewrite !fmap_app, concat_app, <- IH. f_equal.
  unfold lookup_tags. by rewrite <- !list_fmap_compose.
Qed.

Lemma all_shares_pads (qs : list request) : ∀ offset,
  (all_shares offset qs).*1.*2 = all_pads p tag m offset qs.
Proof.
  induction qs as [|[rows l] qs IH]; intros offset; [done|]. cbn [all_shares all_pads fst snd].
  rewrite !fmap_app, <- IH. f_equal. by rewrite <- !list_fmap_compose.
Qed.

Lemma length_all_shares (mb : nat) (qs : list request) : ∀ offset,
  Forall (request_ok n mb) qs → length (all_shares offset qs) = (mb * length qs)%nat.
Proof.
  induction qs as [|[rows l] qs IH]; intros offset Hq; [cbn; lia|].
  apply Forall_cons in Hq as [(_ & Hl & _) Hq]. cbn [all_shares fst snd length] in *.
  rewrite length_app, length_fmap, IH by done. lia.
Qed.

Lemma all_shares_decrypted (mb : nat) (qs : list request) : ∀ offset,
  Forall (request_ok n mb) qs →
  Forall (fun s => share_ok n (tag_width tag) s.1) (all_shares offset qs) ∧
  concat (decrypted n <$> (all_shares offset qs).*1) = all_sums n id qs.
Proof.
  induction qs as [|[rows l] qs IH]; intros offset Hq; [done|].
  apply Forall_cons in Hq as [(Hr & _ & Hi) Hq]. cbn [all_shares fst snd] in *.
  destruct (IH (row_address m offset (Z.of_nat (length rows))) Hq) as [Hf Hd]. split.
  - apply Forall_app. split; [|done]. apply Forall_fmap. eapply Forall_impl; [exact Hi|].
    intros idx Hx. by apply share_spec.
  - unfold all_sums in *. cbn [fmap list_fmap concat fst snd id]. rewrite !fmap_app, concat_app, Hd. f_equal.
    unfold lookup_sums. rewrite <- !list_fmap_compose. f_equal. apply list_fmap_ext. intros k idx Hk.
    apply (share_spec offset rows idx Hr). by apply (Forall_lookup_1 _ _ _ _ Hi Hk).
Qed.

(** No column of a lookup exceeds the range of an entry. *)
Definition no_overflow (q : request) : Prop :=
  Forall (fun idx => ∀ j, (j < n)%nat → 0 ≤ column_sum (pick q.1 <$> idx) j < 2 ^ 32) q.2.

Lemma all_shares_tagged (mb : nat) (qs : list request) : ∀ offset,
  tag = true → Forall (request_ok n mb) qs → Forall no_overflow qs →
  Forall (tagged_ok p n (tag_width tag)) (all_shares offset qs).
Proof.
  induction qs as [|[rows l] qs IH]; intros offset Ht Hq Ho; [done|].
  apply Forall_cons in Hq as [(Hr & _ & Hi) Hq]. apply Forall_cons in Ho as [Ho Hos].
  cbn [all_shares fst snd] in *. apply Forall_app. split; [|by apply IH].
  apply Forall_fmap, Forall_lookup. intros k idx Hk.
  apply tag_share_spec; [done| |done|].
  - by apply (Forall_lookup_1 _ _ _ _ Hi Hk).
  - by apply (Forall_lookup_1 _ _ _ _ Ho Hk).
Qed.

(** Without tags the device adds whole rows. *)
Lemma all_sums_untagged (mb : nat) (qs : list request) : ∀ offset,
  tag = false → Forall (request_ok n mb) qs →
  all_sums n id (enc_requests offset qs) = all_sums n (take n) (enc_requests offset qs).
Proof.
  induction qs as [|[rows l] qs IH]; intros offset Ht Hq; [done|].
  apply Forall_cons in Hq as [(Hr & _ & Hi) Hq]. unfold all_sums in *.
  cbn [enc_requests fmap list_fmap concat fst snd] in *. rewrite IH by done. do 2 f_equal.
  unfold lookup_sums. apply list_fmap_ext. intros k idx Hk. f_equal. apply list_fmap_ext. intros j i Hj.
  cbn. symmetry. apply take_ge.
  pose proof (Forall_lookup_1 _ _ _ _ (Forall_lookup_1 _ _ _ _ Hi Hk) Hj) as Hij.
  rewrite (length_pick (n + tag_width tag)).
  - rewrite Ht. cbn. lia.
  - by apply enc_rows_width.
  - by rewrite length_enc_rows.
Qed.
End shares.

(** ** A run

    What the executor relies on: the device runs the reduction on the data that was
    loaded into it. *)
Definition reduces {D : Type} {ID : IDevice D} (d : D) (tag : bool) (data rows : list Z) (width mb : Z)
    (lengths indices : list Z) : Prop :=
  ∀ psum, Z.of_nat (length psum) = (width + Z.of_nat (tag_width tag)) * (mb * Z.of_nat (length rows)) →
    device_run d mb lengths indices psum =
    (if tag then Reduction.compute_with_tag else Reduction.compute) data rows indices lengths width mb psum.

Lemma cpu_reduces (tag : bool) (data rows : list Z) (width mb : Z) (lengths indices : list Z) :
  reduces (TrivialCPU.mk rows width tag data) tag data rows width mb lengths indices.
Proof. intros psum _. by destruct tag. Qed.

Lemma length_resize (l : list Z) (k : Z) : 0 ≤ k → length (resize l k) = Z.to_nat k.
Proof. intros Hk. unfold resize. rewrite length_app, length_take, length_replicate. lia. Qed.

Lemma get_all_ok (k : nat) : get_all (replicate k (Ok tt)) = Ok tt.
Proof. unfold get_all. induction k as [|k IH]; cbn; [done|exact IH]. Qed.

Lemma rows_of_psums (n k : nat) (last : Z) :
  (1 ≤ n)%nat → last = Z.of_nat n * Z.of_nat k →
  rows_of (make_rowwise_view 0 last (Z.of_nat n) 0 0) = Ok (span_of n <$> seq 0 k).
Proof.
  intros Hn ->. rewrite <- (Z.add_0_l (Z.of_nat n * Z.of_nat k)), rows_of_spec by lia. f_equal.
  apply list_fmap_ext. intros i j _. unfold row_at, span_of. cbn. f_equal; lia.
Qed.

Section run.
Context {B : Type} {E : EncryptionBackend B} {L : EncryptionBackendLaws B} {D : Type} {ID : IDevice D} (d : D).
Context (p : postprocessor B) (tag : bool) (m mb : nat) (qs : list request).
Context (He : backend_ok (aes_engine_ (e_engine_ p))).
Context (Hv : backend_ok (aes_engine_ (v_engine (v_engine_ p)))).
Abbreviation n := (4 * m)%nat.
Abbreviation N := (mb * length qs)%nat.
Context (Hcols : cols_count_ p = Z.of_nat n) (Hoffs : offsets_ p = table_offsets m 0 qs.*1).
Context (Hm : (1 ≤ m)%nat) (Hmb : (1 ≤ mb)%nat) (Hqs : Forall (request_ok n mb) qs).
Context (Hbytes : 16 * Z.of_nat m * Z.of_nat (length (concat qs.*1)) < 2 ^ 64).
Context (Hidx : Z.of_nat (length (all_indices qs)) < 2 ^ 64).

(** The executor after loading; [d] is its device. *)
Definition loaded (cp ep : list Z) : executor B D :=
  mkExecutor (Z.of_nat (length qs)) (Z.of_nat n) tag (Some p) d cp ep.

Lemma reorder_loaded (cp ep : list Z) :
  reorder_indices (loaded cp ep) (Z.of_nat mb) (all_lengths qs) = Ok (views_of 0 0 qs).
Proof.
  unfold reorder_indices. replace (Z.of_nat mb =? 0) with false by lia. cbn [loaded num_tables_].
  rewrite Nat2Z.id.
  pose proof (reorder_spec mb (make_rowwise_view 0 (Z.of_nat (length (all_lengths qs))) (Z.of_nat mb) 0 0)
    qs 0 [] [] 0) as H. rewrite app_nil_r in H. apply H; [|..|done].
  - intros k. unfold row_at. cbn. f_equal; lia.
  - eapply Forall_impl; [exact Hqs|]. by intros q (_ & Hl & _).
  - cbn. lia.
Qed.

(** What the tasks leave in a buffer whose unvisited rows were zero. *)
Lemma tasks_loaded (cp ep : list Z) :
  length ep = ((n + tag_width tag) * N)%nat →
  Forall (fun q => Forall (fun l => l ≠ []) q.2) qs ∨ ep = replicate ((n + tag_width tag) * N) 0 →
  run_tasks (loaded cp ep) p (all_indices qs) (views_of 0 0 qs) 0 ep =
  (concat (all_pads p tag m 0 qs), replicate (length qs) (Ok tt)).
Proof.
  intros Hl Hz.
  pose proof (run_tasks_spec p tag m He Hv Hcols (loaded cp ep) eq_refl eq_refl n mb qs 0 0 [] [] [] ep []) as H.
  rewrite !app_nil_r in H. cbn [app length] in H. change (Z.of_nat 0) with 0 in H. apply H; try done || lia.
Qed.

Lemma execute_loaded (cp ep psum r : list Z) :
  length ep = ((n + tag_width tag) * N)%nat →
  Forall (fun q => Forall (fun l => l ≠ []) q.2) qs ∨ ep = replicate ((n + tag_width tag) * N) 0 →
  device_run d (Z.of_nat mb) (all_lengths qs) (all_indices qs) psum = Ok r →
  execute_sls (loaded cp ep) p (views_of 0 0 qs) (Z.of_nat mb) (all_lengths qs) (all_indices qs) psum =
  Ok (r, concat (all_pads p tag m 0 qs)).
Proof.
  intros Hl Hz Hr. unfold execute_sls. cbn [epsum loaded]. fold (loaded cp ep).
  rewrite tasks_loaded by done. cbn [device_ loaded].
  rewrite Hr. cbn [rbind]. by rewrite get_all_ok.
Qed.

Lemma length_pads : length (concat (all_pads p tag m 0 qs)) = ((n + tag_width tag) * N)%nat.
Proof.
  rewrite <- all_shares_pads. rewrite (length_concat_rows (n + tag_width tag)).
  - rewrite !length_fmap, (length_all_shares p tag m mb) by done. lia.
  - apply Forall_fmap, Forall_fmap. eapply Forall_impl; [apply (all_shares_decrypted p tag m He mb qs 0 Hqs)|].
    by intros s [_ ?].
Qed.

End run.

Section results.
Context {B : Type} {E : EncryptionBackend B} {L : EncryptionBackendLaws B} {D : Type} {ID : IDevice D} (d : D).
Context (p : postprocessor B) (m mb : nat) (qs : list request).
Context (He : backend_ok (aes_engine_ (e_engine_ p))).
Context (Hv : backend_ok (aes_engine_ (v_engine (v_engine_ p)))).
Abbreviation n := (4 * m)%nat.
Abbreviation N := (mb * length qs)%nat.
Context (Hcols : cols_count_ p = Z.of_nat n) (Hoffs : offsets_ p = table_offsets m 0 qs.*1).
Context (Hm : (1 ≤ m)%nat) (Hmb : (1 ≤ mb)%nat) (Hqs : Forall (request_ok n mb) qs).
Context (Hbytes : 16 * Z.of_nat m * Z.of_nat (length (concat qs.*1)) < 2 ^ 64).
Context (Hidx : Z.of_nat (length (all_indices qs)) < 2 ^ 64).

(** The device holds the encrypted tables. *)
Definition encrypted_device (tag : bool) : Prop :=
  reduces d tag (all_words (enc_requests p tag m 0 qs)) (rows_counts qs) (Z.of_nat n) (Z.of_nat mb)
    (all_lengths qs) (all_indices qs).

(** The rows of the pads are zero where no lookup writes them. *)
Definition clean (ep : list Z) : Prop := ep = [] ∨ Forall (fun q => Forall (fun l => l ≠ []) q.2) qs.

Lemma resize_clean (ep : list Z) (k : nat) :
  clean ep → length (resize ep (Z.of_nat k)) = k ∧
  (Forall (fun q => Forall (fun l => l ≠ []) q.2) qs ∨ resize ep (Z.of_nat k) = replicate k 0).
Proof.
  intros Hc. split; [rewrite length_resize by lia; lia|].
  destruct Hc as [-> |Hc]; [right|by left]. unfold resize. rewrite take_nil. cbn [app length]. f_equal. lia.
Qed.

Lemma device_untagged (psum : list Z) :
  encrypted_device false → length psum = (n * N)%nat →
  device_run d (Z.of_nat mb) (all_lengths qs) (all_indices qs) psum =
  Ok (concat (all_shares p false m 0 qs).*1.*1).
Proof.
  intros Hd Hp. rewrite Hd by (unfold rows_counts; rewrite length_fmap; cbn [tag_width]; lia).
  destruct (enc_requests_spec p false m qs 0) as (_ & H2 & H3 & H4 & H5).
  rewrite <- H2, <- H3, <- H4.
  rewrite compute_spec.
  - by rewrite all_shares_sums, (all_sums_untagged p false m He mb).
  - pose proof (enc_requests_ok p false m He mb qs 0 Hqs) as Hok. cbn [tag_width] in Hok.
    by rewrite Nat.add_0_r in Hok.
  - by rewrite H5.
Qed.

Lemma device_tagged (psum : list Z) :
  encrypted_device true → length psum = ((n + 4) * N)%nat →
  device_run d (Z.of_nat mb) (all_lengths qs) (all_indices qs) psum =
  Ok (concat (all_shares p true m 0 qs).*1.*1 ++ concat (all_shares p true m 0 qs).*2).
Proof.
  intros Hd Hp. rewrite Hd by (unfold rows_counts; rewrite length_fmap; cbn [tag_width]; lia).
  destruct (enc_requests_spec p true m qs 0) as (_ & H2 & H3 & H4 & H5).
  rewrite <- H2, <- H3, <- H4.
  rewrite compute_with_tag_spec.
  - by rewrite all_shares_sums, all_shares_tags.
  - exact (enc_requests_ok p true m He mb qs 0 Hqs).
  - by rewrite H5.
Qed.

Lemma run_untagged (cp ep psum checks : list Z) :
  encrypted_device false → length psum = (n * N)%nat → clean ep →
  ∃ x, run_sls (loaded d p false m qs cp ep) (Z.of_nat mb) (all_lengths qs) (all_indices qs) psum checks =
    Ok (x, all_sums n id qs, checks, true).
Proof.
  intros Hdev Hp Hc. unfold run_sls. cbn [loaded postprocessor_ of_option rbind with_tag_].
  cbn [num_tables_ sparse_feature_size_ device_ cpsum epsum with_tag_ postprocessor_].
  destruct (resize_clean ep (length psum) Hc) as [Hl Hz]. set (ep' := resize ep _) in *.
  match goal with |- context [reorder_indices ?x] => change x with (loaded d p false m qs cp ep') end.
  rewrite reorder_loaded by done. cbn [rbind].
  rewrite (execute_loaded d p false m mb qs He Hv Hcols Hoffs Hm Hqs Hbytes cp ep' psum _) by
    (first [by apply device_untagged|cbn [tag_width]; rewrite Nat.add_0_r, <- Hp; done]).
  cbn [rbind]. unfold decrypt. cbn [loaded with_tag_ num_tables_ sparse_feature_size_ cpsum].
  unfold decrypt_psum_impl, tag_words. cbn [loaded with_tag_].
  rewrite (rows_of_psums n N) by lia. cbn [rbind].
  destruct (all_shares_decrypted p false m He mb qs 0 Hqs) as [Hs Hd].
  pose proof (decrypt_plain p n 0 (Z.of_nat (length (concat (all_pads p false m 0 qs))))
    (all_shares p false m 0 qs).*1 0 [] [] [] [] [] true) as H.
  rewrite !app_nil_r, length_fmap, (length_all_shares p false m mb), all_shares_pads in H by done.
  cbn [app length] in H. unfold epsum_rows in H. change (Z.of_nat 0) with 0 in H. rewrite Z.add_0_r in *.
  rewrite H; [|by apply Forall_fmap|lia|lia]. cbn [rbind fst]. rewrite Hd. eexists. done.
Qed.

Lemma decrypt_loaded_tagged (cp ep checks : list Z) :
  (1 ≤ length qs)%nat → Forall (no_overflow m) qs → length checks = N →
  decrypt (loaded d p true m qs cp ep) p (Z.of_nat mb)
    (concat (all_shares p true m 0 qs).*1.*1 ++ concat (all_shares p true m 0 qs).*2)
    (concat (all_pads p true m 0 qs)) checks =
  Ok (all_sums n id qs ++ concat (all_shares p true m 0 qs).*2, replicate N 1, true).
Proof.
  intros Hne Ho Hck.
  destruct (all_shares_decrypted p true m He mb qs 0 Hqs) as [Hs Hd].
  pose proof (length_all_shares p true m mb qs 0 Hqs) as HN.
  set (ss := all_shares p true m 0 qs) in *.
  assert (Hsum : length (concat ss.*1.*1) = (n * N)%nat).
  { rewrite (length_concat_rows n), !length_fmap; [lia|]. apply Forall_fmap, Forall_fmap.
    eapply Forall_impl; [exact Hs|]. by intros [s t] [? _]. }
  assert (Htags : length (concat ss.*2) = (4 * N)%nat).
  { rewrite (length_concat_rows 4), length_fmap; [lia|]. apply Forall_fmap.
    eapply Forall_impl; [exact (all_shares_tagged p true m He mb qs 0 eq_refl Hqs Ho)|].
    by intros s (_ & ? & _). }
  assert (Hpads : length (concat (all_pads p true m 0 qs)) = ((n + 4) * N)%nat)
    by (apply (length_pads p true m mb qs); done).
  unfold decrypt. cbn [loaded with_tag_ num_tables_ sparse_feature_size_]. unfold tag_words. cbn [loaded with_tag_].
  unfold decrypt_psum_impl.
  set (first := Z.of_nat mb * Z.of_nat (length qs) * Z.of_nat n).
  assert (Hcs : rowwise_size (make_rowwise_view first
    (Z.of_nat (length (concat ss.*1.*1 ++ concat ss.*2))) TAG_SIZE 0 0) = Z.of_nat N).
  { unfold rowwise_size, TAG_SIZE, first. cbn [rw_end rw_begin row_physical_size make_rowwise_view].
    rewrite length_app, Hsum, Htags.
    replace (_ - _) with (Z.of_nat N * 4) by lia. by apply Z.div_mul. }
  assert (Hes : rowwise_size (make_rowwise_view 0 (Z.of_nat (length (concat (all_pads p true m 0 qs))))
    (Z.of_nat n + TAG_SIZE) (Z.of_nat n) 0) = Z.of_nat N).
  { unfold rowwise_size, TAG_SIZE. cbn [rw_end rw_begin row_physical_size make_rowwise_view].
    rewrite Hpads. replace (_ - _) with (Z.of_nat N * (Z.of_nat n + 4)) by lia. apply Z.div_mul. lia. }
  rewrite Hcs, Hes. replace (Z.of_nat N =? 0) with false by (symmetry; apply Z.eqb_neq; lia). cbn [orb].
  rewrite (rows_of_psums n N) by lia. cbn [rbind].
  pose proof (decrypt_tagged p n 4 (Z.of_nat (length (concat (all_pads p true m 0 qs)))) eq_refl first
    (Z.of_nat (length (concat ss.*1.*1 ++ concat ss.*2))) ss 0 [] [] [] [] [] checks
    (all_shares_tagged p true m He mb qs 0 eq_refl Hqs Ho)) as H.
  rewrite !app_nil_r, HN in H. cbn [app length replicate Nat.add] in H.
  unfold ss in H at 2. rewrite all_shares_pads in H. fold ss in H.
  unfold epsum_rows in H. change (Z.of_nat 0) with 0 in H. change (Z.of_nat 4) with TAG_SIZE in H.
  rewrite H; [|lia|lia|unfold first; rewrite Hsum; lia|done]. cbn [rbind]. by rewrite Hd.
Qed.

Lemma length_sums : length (all_sums n id qs) = (n * N)%nat.
Proof.
  destruct (all_shares_decrypted p true m He mb qs 0 Hqs) as [Hs <-].
  rewrite (length_concat_rows n).
  - rewrite !length_fmap, (length_all_shares p true m mb) by done. lia.
  - apply Forall_fmap, Forall_fmap. eapply Forall_impl; [exact Hs|]. intros s Hok.
    by apply (length_decrypted n (tag_width true)).
Qed.

(** The sums as a list of rows. *)
Lemma sums_rows : ∃ rs, all_sums n id qs = concat rs ∧ Forall (fun r => length r = n) rs ∧ length rs = N.
Proof.
  destruct (all_shares_decrypted p true m He mb qs 0 Hqs) as [Hs Hd].
  exists (decrypted n <$> (all_shares p true m 0 qs).*1). split_and!.
  - done.
  - apply Forall_fmap, Forall_fmap. eapply Forall_impl; [exact Hs|]. intros s Hok.
    by apply (length_decrypted n (tag_width true)).
  - by rewrite !length_fmap, (length_all_shares p true m mb) by done.
Qed.

Lemma run_tagged (cp ep psum checks : list Z) :
  encrypted_device true → (1 ≤ length qs)%nat → Forall (no_overflow m) qs →
  length psum = (n * N)%nat → length checks = N → clean ep →
  ∃ x, run_sls (loaded d p true m qs cp ep) (Z.of_nat mb) (all_lengths qs) (all_indices qs) psum checks =
    Ok (x, all_sums n id qs, replicate N 1, true).
Proof.
  intros Hdev Hne Ho Hp Hck Hc. unfold run_sls. cbn [loaded postprocessor_ of_option rbind with_tag_].
  cbn [num_tables_ sparse_feature_size_ device_ cpsum epsum with_tag_ postprocessor_].
  set (cp' := resize cp (Z.of_nat mb * Z.of_nat (length qs) * (Z.of_nat n + TAG_SIZE))).
  assert (Hcp : length cp' = ((n + 4) * N)%nat).
  { unfold cp', TAG_SIZE. rewrite length_resize by lia. lia. }
  destruct (resize_clean ep (length cp') Hc) as [Hl Hz]. set (ep' := resize ep (Z.of_nat (length cp'))) in *.
  match goal with |- context [reorder_indices ?x] => change x with (loaded d p true m qs cp' ep') end.
  rewrite reorder_loaded by done. cbn [rbind].
  match goal with |- context [resize (cpsum ?x) ?k] => change (resize (cpsum x) k) with cp' end.
  rewrite (execute_loaded d p true m mb qs He Hv Hcols Hoffs Hm Hqs Hbytes cp' ep' cp' _) by
    (first [by apply device_tagged|cbn [tag_width]; rewrite <- Hcp; done]).
  cbn [rbind loaded with_tag_]. fold (loaded d p true m qs cp' ep'). rewrite decrypt_loaded_tagged by done.
  cbn [rbind]. unfold make_user_psum. cbn [loaded sparse_feature_size_].
  rewrite Hp, (rows_of_psums n N) by lia. cbn [rbind].
  destruct sums_rows as (rs & Hrs & Hrn & Hrl).
  pose proof (copy_rows n (replicate N 1) (concat (all_shares p true m 0 qs).*2) rs 0 [] [] psum Hrn) as H.
  rewrite Hrl in H. cbn [app length Nat.add] in H. rewrite <- Hrs in H. change (Z.of_nat 0) with 0 in H.
  rewrite H; [|lia|lia|lia|].
  - cbn [rbind snd]. eexists. done.
  - intros j Hj. apply lookup_replicate. split; [done|lia].
Qed.
End results.

Lemma all_words_tables (qs : list request) : all_words qs = concat (concat qs.*1).
Proof.
  unfold all_words. induction qs as [|[rows l] qs IH]; [done|]. cbn [fmap list_fmap concat fst].
  by rewrite concat_app, <- IH.
Qed.

(** The executor that [load_tables] returns. *)
Lemma load_tables_loaded {B} {E : EncryptionBackend B} {L : EncryptionBackendLaws B}
    (tag : bool) (m : nat) (qs : list request) (hash address : Z) (key_e key_v : list Z)
    (e ve : engine B) (x : executor B TrivialCPU.t) :
  make_engine (create_table_version hash) key_e = Ok e →
  make_engine (create_table_version hash) key_v = Ok ve →
  (1 ≤ m ≤ 512)%nat → Forall (fun q => Forall (fun r => length r = (4 * m)%nat) q.1) qs →
  4 * Z.of_nat (4 * m + tag_width tag) * Z.of_nat (length (concat qs.*1)) < 2 ^ 64 →
  device_ x = TrivialCPU.init_impl TrivialCPU.new (rows_counts qs) (Z.of_nat (4 * m)) tag →
  load_tables TrivialMemoryWriter x (all_words qs) hash address key_e key_v (rows_counts qs)
    (Z.of_nat (4 * m)) tag =
  let p := mkPostprocessor e (mkVerifier ve address) (table_offsets m 0 qs.*1) (Z.of_nat (4 * m)) in
  Ok (loaded (TrivialCPU.mk (rows_counts qs) (Z.of_nat (4 * m)) tag (all_words (enc_requests p tag m 0 qs)))
        p tag m qs (cpsum x) (epsum x)).
Proof.
  intros He Hve Hm Hr Hb Hd. cbv zeta. rewrite (all_words_tables qs).
  assert (Hrc : rows_counts qs = (fun rows : list (list Z) => Z.of_nat (length rows)) <$> qs.*1)
    by (by rewrite <- list_fmap_compose).
  rewrite Hrc at 1. rewrite (load_tables_spec x tag m qs.*1 hash address key_e key_v e ve) by (done || by apply Forall_fmap).
  rewrite Hd. unfold loaded. rewrite length_fmap. cbn [TrivialCPU.init_impl TrivialCPU.new TrivialCPU.rows_
    TrivialCPU.sparse_feature_size_ TrivialCPU.with_tag_ app].
  set (p := mkPostprocessor _ _ _ _).
  by rewrite (proj1 (enc_requests_spec p tag m qs 0)).
Qed.

(** ** Properties *)

(** Property C29. For every backend that encrypts block by block, an executor over the
    CPU device loads tables of rows of whole pads (at most 2048 entries a row), and a
    run returns for every table and batch the sums of the plain rows, the result of
    [Reduction::compute] on the plain tables.  With tags, and sums that stay in the
    range of [uint32_t], every check is set and the status is true.  The buffer for
    the pads is fresh, or no lookup is empty. *)
Theorem secure_sls_is_plain_sls {B} {E : EncryptionBackend B} {L : EncryptionBackendLaws B}
    (tag : bool) (m mb : nat) (qs : list request) (hash address : Z) (key_e key_v : list Z)
    (e ve : engine B) (x : executor B TrivialCPU.t) (psum checks : list Z) :
  make_engine (create_table_version hash) key_e = Ok e →
  make_engine (create_table_version hash) key_v = Ok ve →
  (1 ≤ m ≤ 512)%nat → (1 ≤ mb)%nat → (1 ≤ length qs)%nat →
  Forall (request_ok (4 * m) mb) qs →
  4 * Z.of_nat (4 * m + tag_width tag) * Z.of_nat (length (concat qs.*1)) < 2 ^ 64 →
  Z.of_nat (length (all_indices qs)) < 2 ^ 64 →
  device_ x = TrivialCPU.init_impl TrivialCPU.new (rows_counts qs) (Z.of_nat (4 * m)) tag →
  clean qs (epsum x) →
  length psum = (4 * m * (mb * length qs))%nat →
  (tag = true → length checks = (mb * length qs)%nat ∧ Forall (no_overflow m) qs) →
  ∃ x1 x2 r,
    load_tables TrivialMemoryWriter x (all_words qs) hash address key_e key_v (rows_counts qs)
      (Z.of_nat (4 * m)) tag = Ok x1 ∧
    Reduction.compute (all_words qs) (rows_counts qs) (all_indices qs) (all_lengths qs)
      (Z.of_nat (4 * m)) (Z.of_nat mb) psum = Ok r ∧
    run_sls x1 (Z.of_nat mb) (all_lengths qs) (all_indices qs) psum checks =
      Ok (x2, r, if tag then replicate (mb * length qs) 1 else checks, true).
Proof.
  intros He Hve Hm Hmb Hn Hq Hb Hi Hd Hc Hp Ht.
  assert (Hr : Forall (fun q => Forall (fun r => length r = (4 * m)%nat) q.1) qs)
    by (eapply Forall_impl; [exact Hq|]; by intros q (? & _)).
  eexists. pose proof (load_tables_loaded tag m qs hash address key_e key_v e ve x He Hve Hm Hr Hb Hd) as Hload.
  pose proof (make_engine_ok _ _ _ He) as Hok. pose proof (make_engine_ok _ _ _ Hve) as Hokv.
  set (p := mkPostprocessor e (mkVerifier ve address) (table_offsets m 0 qs.*1) (Z.of_nat (4 * m))) in *.
  assert (Hb' : 16 * Z.of_nat m * Z.of_nat (length (concat qs.*1)) < 2 ^ 64) by (destruct tag; nia).
  destruct tag.
  - destruct (Ht eq_refl) as [Hck Ho].
    destruct (run_tagged _ p m mb qs Hok Hokv eq_refl eq_refl (proj1 Hm) Hmb Hq Hb' Hi (cpsum x) (epsum x)
                psum checks (cpu_reduces true _ _ _ _ _ _) Hn Ho Hp Hck Hc) as [x2 Hrun].
    exists x2, (all_sums (4 * m) id qs). split; [exact Hload|]. split; [by apply compute_spec|exact Hrun].
  - destruct (run_untagged _ p m mb qs Hok Hokv eq_refl eq_refl (proj1 Hm) Hmb Hq Hb' Hi (cpsum x) (epsum x)
                psum checks (cpu_reduces false _ _ _ _ _ _) Hp Hc) as [x2 Hrun].
    exists x2, (all_sums (4 * m) id qs). split; [exact Hload|]. split; [by apply compute_spec|exact Hrun].
Qed.

(** Two tables and two batches; one lookup is empty. *)
Definition sample_requests : list request :=
  [([[1; 2; 3; 4]; [5; 6; 7; 8]; [9; 10; 11; 12]], [[0; 2]; [1]]);
   ([[20; 21; 22; 23]; [30; 31; 32; 33]], [[1; 1; 0]; []])].

Definition sample_executor : executor unit TrivialCPU.t :=
  make_executor (TrivialCPU.init_impl TrivialCPU.new [3; 2] 4 true).

Lemma sample_requests_ok : Forall (request_ok 4 2) sample_requests.
Proof.
  unfold sample_requests, request_ok.
  repeat (cbn [fst snd]; first [apply Forall_nil; done | apply Forall_cons; split | split]); try done; cbn; lia.
Qed.

Lemma sample_no_overflow : Forall (no_overflow 1) sample_requests.
Proof.
  repeat (apply Forall_cons; split; [|]); try apply Forall_nil; try done;
    unfold no_overflow; cbn [fst snd]; repeat (apply Forall_cons; split; [|]); try apply Forall_nil; try done;
    intros j Hj; destruct j as [|[|[|[|j]]]]; [by vm_compute..|lia].
Qed.

(** The sums come back with every row accepted. *)
Lemma secure_sls_is_plain_sls_witness :
  ∃ x1 x2 r,
    @load_tables unit complement TrivialCPU.t TrivialCPU.device TrivialMemoryWriter sample_executor
      (all_words sample_requests) 77 4096 [] [] [3; 2] 4 true = Ok x1 ∧
    Reduction.compute (all_words sample_requests) [3; 2] [0; 2; 1; 1; 1; 0] [2; 1; 3; 0] 4 2
      (replicate 16 0) = Ok r ∧
    @run_sls unit complement TrivialCPU.t TrivialCPU.device x1 2 [2; 1; 3; 0] [0; 2; 1; 1; 1; 0]
      (replicate 16 0) [0; 0; 0; 0] = Ok (x2, r, [1; 1; 1; 1], true) ∧
    r = [10; 12; 14; 16; 5; 6; 7; 8; 80; 83; 86; 89; 0; 0; 0; 0].
Proof.
  destruct (@secure_sls_is_plain_sls unit complement complement_laws true 1 2 sample_requests 77 4096 [] []
    (mkEngine 77 tt) (mkEngine 77 tt) sample_executor (replicate 16 0) [0; 0; 0; 0] eq_refl eq_refl
    ltac:(lia) ltac:(lia) ltac:(cbn; lia) sample_requests_ok ltac:(cbn; lia) ltac:(cbn; lia) eq_refl
    (or_introl eq_refl) eq_refl (fun _ => conj eq_refl sample_no_overflow)) as (x1 & x2 & r & H1 & H2 & H3).
  exists x1, x2, r. split; [exact H1|]. split; [exact H2|]. split; [exact H3|].
  vm_compute in H2. by injection H2 as <-.
Defined.

(** Rows of more than 2048 entries are never loaded: a batch of rows is
    smaller than a row, so every pass of the loop reads nothing and the number of
    rows left stays the same, whatever number of passes is allowed. *)
Theorem wide_rows_never_load {B} {E : EncryptionBackend B} (fuel : nat) (w : writer) (e : engine B)
    (v : verifier B) (include_tag : bool) (sparse_feature_size row_count : Z) (s : loader) :
  2048 < sparse_feature_size → 0 < row_count →
  0 ≤ stream_ptr (ld_in s) ≤ Z.of_nat (length (stream_memory (ld_in s))) →
  load_table fuel w e v include_tag sparse_feature_size (BUFFER_SIZE / (4 * sparse_feature_size))
    row_count s = Err OutOfFuel.
Proof.
  intros Hs Hr Hp. rewrite (Z.div_small BUFFER_SIZE) by (unfold BUFFER_SIZE; lia).
  destruct s as [[mem ptr] out off]. cbn [ld_in stream_ptr stream_memory] in Hp.
  induction fuel as [|fuel IH]; cbn [load_table]; replace (row_count =? 0) with false by lia; [done|].
  rewrite Z.min_r by lia. unfold stream_read. cbn [ld_in stream_memory stream_ptr ld_out slice_offset].
  rewrite Z.mul_0_l, read_span_ok by lia. cbn [rbind Z.to_nat seq fmap list_fmap rfold].
  rewrite Z.add_0_r, Z.sub_0_r. exact IH.
Qed.

(** A table of one row of 2049 entries. *)
Example wide_row_never_loads :
  @load_table unit complement 1000 TrivialMemoryWriter sample_engine sample_verifier false 2049
    (BUFFER_SIZE / (4 * 2049)) 1 (mkLoader (mkStream [] 0) (mkStream [] 0) 0) = Err OutOfFuel.
Proof. apply (@wide_rows_never_load unit complement); cbn; lia. Qed.

(** Two runs of one executor. *)
Definition run_twice (tag : bool) : result (list Z * list Z * bool) :=
  let! x := @load_tables unit complement TrivialCPU.t TrivialCPU.device TrivialMemoryWriter
    (make_executor (TrivialCPU.init_impl TrivialCPU.new [3] 4 tag))
    [1; 2; 3; 4; 5; 6; 7; 8; 9; 10; 11; 12] 77 4096 [] [] [3] 4 tag in
  let! (r, _) := @run_sls unit complement TrivialCPU.t TrivialCPU.device x 2 [1; 1] [0; 1]
                   (replicate 8 0) [0; 0] in
  let '(x, _, _) := r in
  let! (r, status) := @run_sls unit complement TrivialCPU.t TrivialCPU.device x 2 [1; 0] [0]
                        (replicate 8 0) [0; 0] in
  let '(_, psum, checks) := r in
  Ok (psum, checks, status).

(** A second run whose last lookup is empty does not return the zero row
    for it: the iteration over lookups ends before the empty one, and its row is
    decrypted with the pads the first run left in the buffer.  Without tags the run
    reports success, with tags the row is refused. *)
Example stale_pads_corrupt_empty_lookups :
  (∃ rest, run_twice false = Ok ([1; 2; 3; 4] ++ rest, [0; 0], true) ∧ rest ≠ [0; 0; 0; 0]) ∧
  (∃ psum, run_twice true = Ok (psum, [1; 0], false)).
Proof.
  split; eexists; [split|]; [vm_compute; reflexivity|discriminate|vm_compute; reflexivity].
Qed.
