(* ===== verification/SlsDevice.v ===== *)
(** * The SLS device: block handlers, simulator threads and compute units

    core/device/sls/memblockhandler/, core/device/sls/base.{h,cpp},
    core/device/sls/compute_device.h, core/device/sls/simulator/,
    core/device/simulator/base_simulator.{h,cpp} and sls/compute_unit/.

    The C++ templates are classes here: [SlsMemBlockHandler] is what a concrete
    block handler gives to [SlsMemBlockHandlerImpl], [ComputeDevice] what a compute
    device gives to the compute units, and [CunitDriver] the two requests that the
    resource driver answers.  The host and the device share one memory: the blocks
    of the units are mapped at the addresses of the memory map. *)
From S2P Require Import Prelude Topology RankAddress WordMemory DeviceMemory SlsSimulator Allocators Views.

(** ** memblockhandler/block_ops.{h,cpp} *)

(** An operation on a block: the unit's addresses, the unit, the block, the offset
    in the block, the host buffer and its size; it changes the handler's members
    and the memory. *)
Definition block_op (H : Type) : Type :=
  MemMap.memAddr → Z → Z → Z → Z → Z → H → memory → result (H * memory).

(** More than the number of interleaving blocks of a copy. *)
Definition copy_fuel (bytes : Z) : nat := S (Z.to_nat bytes).

Section block_ops.
Context {H : Type} (tp : Constants).

Definition UnsupportedBlockWriter : block_op H := fun _ _ _ _ _ _ _ _ => Err NotSupported.
Definition UnsupportedBlockReader : block_op H := fun _ _ _ _ _ _ _ _ => Err NotSupported.

Definition RawBlockWriter : block_op H :=
  fun mem_addr _ block_type offset buf_in write_size h m =>
    let! a := vec_at (MemMap.addr mem_addr) block_type in
    Ok (h, copy_n m buf_in (Z.to_nat write_size) (u64 (a + offset))).

(** Flushing the cache before the copy does not change what is read. *)
Definition RawBlockReader : block_op H :=
  fun mem_addr _ block_type offset buf_out read_size h m =>
    let! a := vec_at (MemMap.addr mem_addr) block_type in
    Ok (h, copy_n m (u64 (a + offset)) (Z.to_nat read_size) buf_out).

Definition RankedBlockWriter : block_op H :=
  fun mem_addr compute_unit block_type offset buf_in write_size h m =>
    let! a := vec_at (MemMap.addr mem_addr) block_type in
    let ptr := InterleavedPointer.make a (cunit_to_ha compute_unit) in
    let! (_, m) := of_option OutOfFuel
      (CopyTo.memcpy_interleaved (copy_fuel write_size) tp m buf_in write_size
         (InterleavedPointer.plus ptr offset)) in
    Ok (h, m).

Definition RankedBlockReader : block_op H :=
  fun mem_addr compute_unit block_type offset buf_out read_size h m =>
    let! a := vec_at (MemMap.addr mem_addr) block_type in
    let ptr := InterleavedPointer.make a (cunit_to_ha compute_unit) in
    let! (_, m) := of_option OutOfFuel
      (CopyFrom.memcpy_interleaved (copy_fuel read_size) tp m
         (InterleavedPointer.plus ptr offset) read_size buf_out) in
    Ok (h, m).
End block_ops.

(** ** memblockhandler/axdimm/sim.cpp: the readers that switch buffers *)
Definition AxdimmSimulatorPsumReader (tp : Constants) : block_op AxdimmSimulatorCore.t :=
  fun _ compute_unit block_type offset buf_out read_size c m =>
    let! _ := assert (block_type =? SLS_BLOCK_PSUM) in
    let! psum_buf := AxdimmSimulatorCore.current_psum_buf tp c compute_unit offset in
    let! (_, m) := of_option OutOfFuel
      (CopyFrom.memcpy_interleaved (copy_fuel read_size) tp m psum_buf read_size buf_out) in
    AxdimmSimulatorCore.handle_psum_buf_read tp c m compute_unit offset.

Definition AxdimmSimulatorTagsReader (tp : Constants) : block_op AxdimmSimulatorCore.t :=
  fun _ compute_unit block_type offset buf_out read_size c m =>
    let! _ := assert (block_type =? SLS_BLOCK_TAGS) in
    let! tags_buf := AxdimmSimulatorCore.current_tags_buf tp c compute_unit offset in
    let! (_, m) := of_option OutOfFuel
      (CopyFrom.memcpy_interleaved (copy_fuel read_size) tp m tags_buf read_size buf_out) in
    AxdimmSimulatorCore.handle_tags_buf_read tp c m compute_unit offset.

(** ** memblockhandler/{base.h,axdimm,cxl}: the concrete handlers *)
Class SlsMemBlockHandler (H : Type) := {
  inst_writer : block_op H;
  cfgr_writer : block_op H;
  cfgr_reader : block_op H;
  psum_writer : block_op H;
  psum_reader : block_op H;
  tags_writer : block_op H;
  tags_reader : block_op H;
  get_block_ptr_impl : MemMap.t → Z → Z → Z → result Z
}.

Definition axdimm_block_ptr (mm : MemMap.t) (type compute_unit offset : Z) : result Z :=
  let! addr := MemMap.block_addr mm compute_unit type in
  Ok (InterleavedPointer.get (InterleavedPointer.plus
        (InterleavedPointer.make addr (cunit_to_ha compute_unit)) offset)).

Definition cxl_block_ptr (mm : MemMap.t) (type compute_unit offset : Z) : result Z :=
  let! addr := MemMap.block_addr mm compute_unit type in Ok (u64 (addr + offset)).

Definition AxdimmMemBlockHandler {H} (tp : Constants) (psum tags : block_op H)
  : SlsMemBlockHandler H := {|
  inst_writer := RankedBlockWriter tp;
  cfgr_writer := RankedBlockWriter tp;
  cfgr_reader := RankedBlockReader tp;
  psum_writer := UnsupportedBlockWriter;
  psum_reader := psum;
  tags_writer := UnsupportedBlockWriter;
  tags_reader := tags;
  get_block_ptr_impl := axdimm_block_ptr
|}.

Definition CxlMemBlockHandler {H} (psum tags : block_op H) : SlsMemBlockHandler H := {|
  inst_writer := RawBlockWriter;
  cfgr_writer := RawBlockWriter;
  cfgr_reader := RawBlockReader;
  psum_writer := UnsupportedBlockWriter;
  psum_reader := psum;
  tags_writer := UnsupportedBlockWriter;
  tags_reader := tags;
  get_block_ptr_impl := cxl_block_ptr
|}.

Definition AxdimmSimulatorMemBlockHandler (tp : Constants)
  : SlsMemBlockHandler AxdimmSimulatorCore.t :=
  AxdimmMemBlockHandler tp (AxdimmSimulatorPsumReader tp) (AxdimmSimulatorTagsReader tp).

Definition AxdimmHardwareMemBlockHandler (tp : Constants) : SlsMemBlockHandler unit :=
  AxdimmMemBlockHandler tp (RankedBlockReader tp) (RankedBlockReader tp).

(** The core of the CXL simulator has no state of its own. *)
Definition CxlSimulatorMemBlockHandler : SlsMemBlockHandler unit :=
  CxlMemBlockHandler RawBlockReader RawBlockReader.

Definition CxlHardwareMemBlockHandler : SlsMemBlockHandler unit :=
  CxlMemBlockHandler RawBlockReader UnsupportedBlockReader.

(** ** memblockhandler/base.{h,cpp} *)
Section handler.
Context {H : Type} {HB : SlsMemBlockHandler H} (tp : Constants).

Definition write_block_impl (mem_addr : MemMap.memAddr) (compute_unit block_type offset buf_in
    write_size : Z) (h : H) (m : memory) : result (H * memory) :=
  if block_type =? SLS_BLOCK_INST then
    inst_writer mem_addr compute_unit block_type offset buf_in write_size h m
  else if block_type =? SLS_BLOCK_CFGR then
    cfgr_writer mem_addr compute_unit block_type offset buf_in write_size h m
  else if block_type =? SLS_BLOCK_TAGS then
    tags_writer mem_addr compute_unit block_type offset buf_in write_size h m
  else if block_type =? SLS_BLOCK_PSUM then
    psum_writer mem_addr compute_unit block_type offset buf_in write_size h m
  else Err InvalidArguments.

Definition read_block_impl (mem_addr : MemMap.memAddr) (compute_unit block_type offset buf_out
    read_size : Z) (h : H) (m : memory) : result (H * memory) :=
  if block_type =? SLS_BLOCK_CFGR then
    cfgr_reader mem_addr compute_unit block_type offset buf_out read_size h m
  else if block_type =? SLS_BLOCK_TAGS then
    tags_reader mem_addr compute_unit block_type offset buf_out read_size h m
  else if block_type =? SLS_BLOCK_PSUM then
    psum_reader mem_addr compute_unit block_type offset buf_out read_size h m
  else Err InvalidArguments.

Definition write_block (mm : MemMap.t) (type compute_unit offset buf_in write_size : Z)
    (h : H) (m : memory) : result (H * memory) :=
  let! _ := assert (compute_unit <? NumOfCUnits tp) in
  let! mem_addr := vec_at (MemMap.m_cunitAddrInfo mm) compute_unit in
  write_block_impl mem_addr compute_unit type offset buf_in write_size h m.

Definition read_block (mm : MemMap.t) (type compute_unit offset buf_out read_size : Z)
    (h : H) (m : memory) : result (H * memory) :=
  let! _ := assert (compute_unit <? NumOfCUnits tp) in
  let! mem_addr := vec_at (MemMap.m_cunitAddrInfo mm) compute_unit in
  read_block_impl mem_addr compute_unit type offset buf_out read_size h m.

Definition get_mem_block_ptr (mm : MemMap.t) (type compute_unit offset : Z) : result Z :=
  get_block_ptr_impl mm type compute_unit (u32 offset).
End handler.

(** ** core/device/simulator/base_simulator.{h,cpp} *)
Module BaseAsyncSimulator.

(** [ThreadControls]: the stop flag, and whether [finished] is valid. *)
Record ThreadControls := mkControls {
  stop_flag : bool;
  finished : bool
}.

Record t := mk {
  thread_pool_ : bool;
  thread_controls_ : list ThreadControls
}.

Definition threads_num_ (s : t) : Z := Z.of_nat (length (thread_controls_ s)).

Definition make (threads_num : Z) : result t :=
  let! _ := assert (0 <? threads_num) in
  Ok (mk false (replicate (Z.to_nat threads_num) (mkControls false false))).

Definition start (s : t) : result t :=
  let! _ := assert (negb (thread_pool_ s)) in Ok (mk true (thread_controls_ s)).

Definition is_thread_enabled (s : t) (thread_id : Z) : result bool :=
  if threads_num_ s <=? thread_id then Err InvalidArguments
  else let! c := vec_at (thread_controls_ s) thread_id in Ok (finished c).

Definition should_stop (s : t) (thread_id : Z) : result bool :=
  let! c := vec_at (thread_controls_ s) thread_id in Ok (stop_flag c).

Definition enable_thread (s : t) (thread_id : Z) : result t :=
  let! _ := assert (thread_pool_ s) in
  let! enabled := is_thread_enabled s thread_id in
  if enabled : bool then Err InvalidArguments
  else let! cs := vec_set (thread_controls_ s) thread_id (mkControls false true) in
       Ok (mk (thread_pool_ s) cs).

(** [finished.get()] returns when the worker has left its loop, and leaves the
    future invalid. *)
Definition disable_thread (s : t) (thread_id : Z) : result t :=
  let! enabled := is_thread_enabled s thread_id in
  if negb enabled then Err InvalidArguments
  else let! cs := vec_set (thread_controls_ s) thread_id (mkControls true false) in
       Ok (mk (thread_pool_ s) cs).

Definition stop (s : t) : result t :=
  let! s := rfold (fun s thread_id =>
              let! enabled := is_thread_enabled s thread_id in
              if enabled : bool then disable_thread s thread_id else Ok s)
            s (range (threads_num_ s)) in
  Ok (mk false (thread_controls_ s)).

End BaseAsyncSimulator.

(** ** The resource driver *)

(** The [int] that [ioctl] returns for [GET_CUNIT] and [RELEASE_CUNIT]. *)
Class CunitDriver (K : Type) := {
  GET_CUNIT : K → Z → K * Z;
  RELEASE_CUNIT : K → Z → K * Z
}.

(** What the driver documents: it hands out a free unit of the mask if there is
    one, and takes back a unit that is in use. *)
Class CunitLaws (K : Type) {D : CunitDriver K} (units : Z) := {
  held : K → Z → bool;
  get_some : ∀ k mask c, 0 ≤ c < units → Z.testbit mask c = true → held k c = false →
    ∃ k' c', GET_CUNIT k mask = (k', c') ∧ 0 ≤ c' < units ∧ Z.testbit mask c' = true ∧
      held k c' = false ∧ (∀ d, held k' d = (d =? c') || held k d);
  get_none : ∀ k mask, (∀ c, 0 ≤ c < units → Z.testbit mask c = true → held k c = true) →
    ∃ k' e, GET_CUNIT k mask = (k', e) ∧ e < 0 ∧ (∀ d, held k' d = held k d);
  release_held : ∀ k c, 0 ≤ c < units → held k c = true →
    ∃ k' r, RELEASE_CUNIT k c = (k', r) ∧ 0 ≤ r ∧ (∀ d, held k' d = negb (d =? c) && held k d)
}.

(** ** core/device/sls/base.{h,cpp} *)

(** The process: the handler's members, the memory map and the memory, the
    addresses of the vectors of [cunit_tmp_storages], the simulator's threads and
    the driver. *)
Record world (H K : Type) := mkWorld {
  handler : H;
  mem_map : MemMap.t;
  mem : memory;
  tags_tmp : list Z;
  sim : BaseAsyncSimulator.t;
  kernel : K
}.
Arguments mkWorld {H K}.
Arguments handler {H K}.
Arguments mem_map {H K}.
Arguments mem {H K}.
Arguments tags_tmp {H K}.
Arguments sim {H K}.
Arguments kernel {H K}.

Definition set_mem {H K} (w : world H K) (h : H) (m : memory) : world H K :=
  mkWorld h (mem_map w) m (tags_tmp w) (sim w) (kernel w).
Definition set_sim {H K} (w : world H K) (s : BaseAsyncSimulator.t) : world H K :=
  mkWorld (handler w) (mem_map w) (mem w) (tags_tmp w) s (kernel w).
Definition set_kernel {H K} (w : world H K) (k : K) : world H K :=
  mkWorld (handler w) (mem_map w) (mem w) (tags_tmp w) (sim w) k.

(** The checks of [BaseDevice::BaseDevice]. *)
Definition check_topology (tp : Constants) : result unit :=
  if 2 <? NumOfInstBuf tp then Err NotSupported
  else if 2 <? NumOfPSumBuf tp then Err NotSupported
  else Ok tt.

(** The tasks of a thread keep the world across exceptions. *)
Abbreviation task H K A := (M (world H K) A).

Definition on_memory {H K} (f : MemMap.t → H → memory → result (H * memory)) : task H K unit :=
  fun w => match f (mem_map w) (handler w) (mem w) with
           | Ok (h, m) => (set_mem w h m, Ok tt)
           | Err e => (w, Err e)
           end.

Definition on_sim {H K} (f : BaseAsyncSimulator.t → result BaseAsyncSimulator.t) : task H K unit :=
  fun w => match f (sim w) with
           | Ok s => (set_sim w s, Ok tt)
           | Err e => (w, Err e)
           end.

Module BaseDevice.
Section base.
Context {H K : Type} {HB : SlsMemBlockHandler H} {D : CunitDriver K} (tp : Constants).

Definition psum_poll_register (mm : MemMap.t) (compute_unit : Z) : result Z :=
  let! _ := assert (compute_unit <? NumOfCUnits tp) in
  get_mem_block_ptr mm SLS_BLOCK_CFGR compute_unit (RegPolling tp + 4).

Definition exec_sls_register (mm : MemMap.t) (compute_unit : Z) : result Z :=
  get_mem_block_ptr mm SLS_BLOCK_CFGR compute_unit (RegSlsExec tp).

Definition control_switch_register (mm : MemMap.t) (compute_unit : Z) : result Z :=
  get_mem_block_ptr mm SLS_BLOCK_CFGR compute_unit (RegSlsEn tp).

Definition write_inst_block (compute_unit buf_in write_size : Z) : task H K unit :=
  on_memory (fun mm => write_block tp mm SLS_BLOCK_INST compute_unit 0 buf_in write_size).

Definition write_cfgr_block (compute_unit offset buf_in write_size : Z) : task H K unit :=
  on_memory (fun mm => write_block tp mm SLS_BLOCK_CFGR compute_unit offset buf_in write_size).

Definition read_cfgr_block (compute_unit offset buf_out read_size : Z) : task H K unit :=
  on_memory (fun mm => read_block tp mm SLS_BLOCK_CFGR compute_unit offset buf_out read_size).

Definition read_and_reset_psum (compute_unit psum_out read_size : Z) : task H K unit :=
  on_memory (fun mm => read_block tp mm SLS_BLOCK_PSUM compute_unit 0 psum_out read_size).

(** [tags_out = std::copy(tag.begin(), tag.end(), tags_out)] *)
Definition copy_tag (s : memory * Z) (tag : span) : memory * Z :=
  (copy_n s.1 (span_begin tag) (Z.to_nat (span_size tag)) s.2, u64 (s.2 + span_size tag)).

(** The vectors of [cunit_tmp_storages] have [TagsBufSize] elements; a copy past
    their end is undefined. *)
Definition read_and_reset_tags (compute_unit tags_out read_size : Z) : task H K unit :=
  let single_tag_size := 16 in
  let aligned_tags_buffer_size := u64 (read_size / single_tag_size * AlignedTagSize tp) in
  fun w =>
    mbind (mlift (vec_at (tags_tmp w) compute_unit)) (fun tmp =>
    do! _ := mlift (if TagsBufSize tp <? aligned_tags_buffer_size
                    then Err UndefinedBehaviour else Ok tt) in
    do! _ := on_memory (fun mm => read_block tp mm SLS_BLOCK_TAGS compute_unit 0 tmp
                                    aligned_tags_buffer_size) in
    do! rows := mlift (rows_of (make_rowwise_view tmp (tmp + aligned_tags_buffer_size)
                                  (AlignedTagSize tp) 0 (AlignedTagSize tp - single_tag_size))) in
    on_memory (fun _ h m => Ok (h, (fold_left copy_tag rows (m, tags_out)).1))) w.

Definition read_poll (compute_unit offset buf_out read_size : Z) : task H K unit :=
  read_cfgr_block compute_unit (u32 (RegPolling tp + offset)) buf_out read_size.

Definition POLL_INST_NUM_SIZE : Z := 4.

Definition get_num_processed_inst (compute_unit buf_out : Z) : task H K unit :=
  read_poll compute_unit POLL_INST_NUM_OFFSET buf_out POLL_INST_NUM_SIZE.

(** The result is converted to [uint8_t]. *)
Definition acquire_idle_cunit_from_range (cunit_mask : Z) : task H K Z := fun w =>
  let (k, res) := GET_CUNIT (kernel w) cunit_mask in
  (set_kernel w k, Ok (u8 (if res <? 0 then NumOfCUnits tp else res))).

(** [None] for [false]. *)
Definition acquire_cunit_from_range (cunit_mask : Z) : task H K (option Z) :=
  do! cunit_tmp := acquire_idle_cunit_from_range cunit_mask in
  mret (if cunit_tmp =? NumOfCUnits tp then None else Some cunit_tmp).

Definition release_cunit (compute_unit : Z) : task H K unit := fun w =>
  let (k, res) := RELEASE_CUNIT (kernel w) compute_unit in
  (set_kernel w k, if res <? 0 then Err Failure else Ok tt).

End base.
End BaseDevice.

(** ** core/device/sls/compute_device.h and core/device/sls/simulator/ *)

(** [hw_atomic_store] and the loads and stores through [as_vatomic]. *)
Definition store_register {H K} (reg : MemMap.t → result Z) (val : Z) : task H K unit :=
  on_memory (fun mm h m => let! r := reg mm in Ok (h, store32 m r val)).

Definition load_register {H K} (reg : MemMap.t → result Z) : task H K Z := fun w =>
  (w, let! r := reg (mem_map w) in Ok (load32 (mem w) r)).

(** What the devices of the two buses and the simulator threads implement. *)
Class ComputeDevice (H K : Type) := {
  write_exec_sls_register : Z → Z → task H K unit;
  write_control_switch_register : Z → Z → task H K unit;
  exec_sls : Z → task H K unit
}.

Section compute_device.
Context {H K : Type} {HB : SlsMemBlockHandler H} {D : CunitDriver K} (tp : Constants).

(** [ComputeDevice] *)
Definition base_write_exec_sls_register (compute_unit val : Z) : task H K unit :=
  store_register (fun mm => BaseDevice.exec_sls_register tp mm compute_unit) val.

Definition base_write_control_switch_register (compute_unit val : Z) : task H K unit :=
  store_register (fun mm => BaseDevice.control_switch_register tp mm compute_unit) val.

(** [SimulatorDevice::get_sim] starts the pool on its first call. *)
Definition get_sim : task H K unit :=
  on_sim (fun s => if BaseAsyncSimulator.thread_pool_ s then Ok s
                   else BaseAsyncSimulator.start s).

(** [SimulatorComputeDevice] *)
Definition reset_psum_poll_register (compute_unit : Z) : task H K unit :=
  store_register (fun mm => BaseDevice.psum_poll_register tp mm compute_unit) 0.

Definition sim_write_exec_sls_register (compute_unit val : Z) : task H K unit :=
  do! _ := (if val =? SLS_ENABLE_VALUE then reset_psum_poll_register compute_unit
            else mret tt) in
  base_write_exec_sls_register compute_unit val.

Definition acquire_cunit_from_range (cunit_mask : Z) : task H K (option Z) :=
  do! acquired := BaseDevice.acquire_cunit_from_range tp cunit_mask in
  match acquired with
  | None => mret None
  | Some compute_unit =>
      do! _ := reset_psum_poll_register compute_unit in
      do! _ := base_write_exec_sls_register compute_unit SLS_DISABLE_VALUE in
      do! _ := get_sim in
      do! _ := on_sim (fun s => BaseAsyncSimulator.enable_thread s compute_unit) in
      mret (Some compute_unit)
  end.

Definition release_cunit (compute_unit : Z) : task H K unit :=
  do! _ := get_sim in
  do! _ := on_sim (fun s => BaseAsyncSimulator.disable_thread s compute_unit) in
  BaseDevice.release_cunit compute_unit.
End compute_device.

(** [CxlSimulatorComputeDevice] and [CxlSimulator] *)
Section cxl.
Context {K : Type} {D : CunitDriver K} (tp : Constants).

Definition cxl_write_control_switch_register (compute_unit val : Z) : task unit K unit :=
  base_write_control_switch_register (HB := CxlSimulatorMemBlockHandler) tp compute_unit
    (if val =? SLS_DISABLE_VALUE then SLS_ENABLE_VALUE
     else if val =? SLS_ENABLE_VALUE then SLS_CONTROL_SWITCHED_VALUE
     else val).

Definition CxlSimulatorComputeDevice : ComputeDevice unit K := {|
  write_exec_sls_register := sim_write_exec_sls_register (HB := CxlSimulatorMemBlockHandler) tp;
  write_control_switch_register := cxl_write_control_switch_register;
  exec_sls thread_id := on_memory (fun mm h m =>
    let! m := CxlSimulatorCore.exec_trace tp mm m thread_id in Ok (h, m))
|}.
End cxl.

(** [AxdimmSimulatorComputeDevice] and [AxdimmSimulator] *)
Section axdimm.
Context {K : Type} {D : CunitDriver K} (tp : Constants).

Definition axdimm_write_exec_sls_register (compute_unit val : Z)
  : task AxdimmSimulatorCore.t K unit :=
  do! _ := (if val =? SLS_ENABLE_VALUE
            then on_memory (fun _ c m =>
                   let! c := AxdimmSimulatorCore.shift_buffers tp c compute_unit in Ok (c, m))
            else mret tt) in
  sim_write_exec_sls_register (HB := AxdimmSimulatorMemBlockHandler tp) tp compute_unit val.

Definition axdimm_write_control_switch_register (compute_unit val : Z)
  : task AxdimmSimulatorCore.t K unit :=
  do! _ := (if val =? SLS_ENABLE_VALUE
            then on_memory (fun _ c m => AxdimmSimulatorCore.clear_buffers tp c m compute_unit)
            else mret tt) in
  base_write_control_switch_register (HB := AxdimmSimulatorMemBlockHandler tp) tp compute_unit val.

Definition AxdimmSimulatorComputeDevice : ComputeDevice AxdimmSimulatorCore.t K := {|
  write_exec_sls_register := axdimm_write_exec_sls_register;
  write_control_switch_register := axdimm_write_control_switch_register;
  exec_sls thread_id := on_memory (fun _ c m => AxdimmSimulatorCore.exec_trace tp c m thread_id)
|}.
End axdimm.

(** ** simulator/base_sls_sim.cpp *)
Section worker.
Context {H K : Type} {HB : SlsMemBlockHandler H} {C : ComputeDevice H K} (tp : Constants).

(** One iteration of the loop of [worker_job], when the thread is running. *)
Definition worker_iteration (thread_id : Z) : task H K unit :=
  do! exec := load_register (fun mm => BaseDevice.exec_sls_register tp mm thread_id) in
  if negb (exec =? SLS_ENABLE_VALUE) then mret tt
  else
    do! _ := exec_sls thread_id in
    do! _ := store_register (fun mm => BaseDevice.exec_sls_register tp mm thread_id)
               SLS_DISABLE_VALUE in
    store_register (fun mm => BaseDevice.psum_poll_register tp mm thread_id) POLL_FINISH_VALUE.
End worker.

(** ** sls/compute_unit/ *)
Inductive BlockType := INST | TAGS | PSUM.
Inductive PollType := ENABLE | FINISH | CONTROL_SWITCH.

Section compute_unit.
Context {H K : Type} {HB : SlsMemBlockHandler H} {D : CunitDriver K} {C : ComputeDevice H K}.
Context (tp : Constants).

(** An exception ends the worker and is kept in its future, which the polling host
    does not read: the host polls forever.  A failed assertion ends the process. *)
Definition worker_turn (cunit_id : Z) : task H K unit := fun w =>
  match worker_iteration tp cunit_id w with
  | (w', Err e) => (w', Err (if is_exception e then OutOfFuel else e))
  | r => r
  end.

(** While the host polls, the worker of the unit runs; every unsuccessful load
    gives it one iteration. *)
Fixpoint poll_register (fuel : nat) (cunit_id : Z) (reg : MemMap.t → result Z) (target : Z)
  : task H K unit :=
  do! v := load_register reg in
  if v =? target then mret tt
  else match fuel with
       | O => mthrow OutOfFuel
       | S fuel' =>
           do! _ := worker_turn cunit_id in poll_register fuel' cunit_id reg target
       end.

Definition read_buffer (cunit_id : Z) (type : BlockType) (data size : Z) : task H K unit :=
  match type with
  | PSUM => BaseDevice.read_and_reset_psum tp cunit_id data size
  | TAGS => BaseDevice.read_and_reset_tags tp cunit_id data size
  | INST => mthrow NotSupported
  end.

Definition write_buffer (cunit_id : Z) (type : BlockType) (data size : Z) : task H K unit :=
  match type with
  | INST => BaseDevice.write_inst_block tp cunit_id data size
  | _ => mthrow NotSupported
  end.

Definition run_async (cunit_id : Z) : task H K unit :=
  write_exec_sls_register cunit_id SLS_ENABLE_VALUE.

Definition enable (cunit_id : Z) : task H K unit :=
  write_control_switch_register cunit_id SLS_ENABLE_VALUE.

Definition disable (cunit_id : Z) : task H K unit :=
  write_control_switch_register cunit_id SLS_DISABLE_VALUE.

(** The loop of the constructors that waits for a free unit. *)
Fixpoint acquire (fuel : nat) (pack : Z) : task H K Z :=
  do! acquired := acquire_cunit_from_range tp pack in
  match acquired with
  | Some cunit_id => mret cunit_id
  | None => match fuel with O => mthrow OutOfFuel | S fuel' => acquire fuel' pack end
  end.

Definition cxl_poll (fuel : nat) (cunit_id : Z) (type : PollType) : task H K unit :=
  match type with
  | ENABLE =>
      poll_register fuel cunit_id (fun mm => BaseDevice.control_switch_register tp mm cunit_id)
        SLS_ENABLE_VALUE
  | FINISH =>
      poll_register fuel cunit_id (fun mm => BaseDevice.psum_poll_register tp mm cunit_id)
        POLL_FINISH_VALUE
  | CONTROL_SWITCH =>
      poll_register fuel cunit_id (fun mm => BaseDevice.control_switch_register tp mm cunit_id)
        SLS_CONTROL_SWITCHED_VALUE
  end.

Definition axdimm_poll (fuel : nat) (cunit_id : Z) (type : PollType) : task H K unit :=
  match type with
  | FINISH =>
      poll_register fuel cunit_id (fun mm => BaseDevice.psum_poll_register tp mm cunit_id)
        POLL_FINISH_VALUE
  | _ => mthrow NotSupported
  end.

(** [CxlComputeUnit] *)
Definition CxlComputeUnit (fuel : nat) (pack : Z) : task H K Z :=
  do! cunit_id := acquire fuel pack in
  do! _ := enable cunit_id in
  do! _ := cxl_poll fuel cunit_id CONTROL_SWITCH in
  mret cunit_id.

Definition cxl_release (fuel : nat) (cunit_id : Z) : task H K unit :=
  do! _ := disable cunit_id in
  do! _ := cxl_poll fuel cunit_id ENABLE in
  release_cunit cunit_id.

Definition cxl_run (fuel : nat) (cunit_id : Z) : task H K unit :=
  do! _ := run_async cunit_id in cxl_poll fuel cunit_id FINISH.

(** [AxdimmComputeUnit] *)
Definition AxdimmComputeUnit (fuel : nat) (pack : Z) : task H K Z :=
  do! cunit_id := acquire fuel pack in
  do! _ := enable cunit_id in
  mret cunit_id.

Definition axdimm_release (cunit_id : Z) : task H K unit :=
  do! _ := disable cunit_id in release_cunit cunit_id.

Definition axdimm_run (fuel : nat) (cunit_id : Z) : task H K unit :=
  do! _ := run_async cunit_id in axdimm_poll fuel cunit_id FINISH.

Definition axdimm_wait (fuel : nat) (cunit_id : Z) : task H K unit :=
  axdimm_poll fuel cunit_id FINISH.
End compute_unit.

(** ** A driver that satisfies the laws

    The units in use are the bits of a mask; a request gets the lowest free unit. *)
Definition mask_driver (units : Z) : CunitDriver Z := {|
  GET_CUNIT k mask :=
    match find (fun c => Z.testbit mask c && negb (Z.testbit k c)) (range units) with
    | Some c => (Z.lor k (2 ^ c), c)
    | None => (k, -1)
    end;
  RELEASE_CUNIT k c := if Z.testbit k c then (Z.ldiff k (2 ^ c), 0) else (k, -1)
|}.

#[program] Definition mask_laws (units : Z) : CunitLaws Z (D := mask_driver units) units := {|
  held k c := Z.testbit k c
|}.
Next Obligation.
  intros units k mask c Hc Hb Hk. cbn.
  destruct (find _ (range units)) as [c'|] eqn:E.
  - apply find_some in E as [Hin Hx]. apply list_elem_of_In, elem_of_range in Hin.
    apply andb_true_iff in Hx as [H1 H2]. apply negb_true_iff in H2.
    eexists _, c'. split; [done|]. split; [done|]. split; [done|]. split; [done|].
    intros d. rewrite Z.lor_spec, Z.pow2_bits_eqb by lia. by rewrite orb_comm, Z.eqb_sym.
  - pose proof (find_none _ _ E c (proj1 (list_elem_of_In _ _) (proj2 (elem_of_range _ _) Hc))) as Hn.
    cbn in Hn. by rewrite Hb, Hk in Hn.
Qed.
Next Obligation.
  intros units k mask H. cbn. destruct (find _ (range units)) as [c'|] eqn:E.
  - apply find_some in E as [Hin Hx]. apply list_elem_of_In, elem_of_range in Hin.
    apply andb_true_iff in Hx as [H1 H2]. by rewrite H in H2.
  - by eexists _, (-1).
Qed.
Next Obligation.
  intros units k c Hc Hk. cbn. rewrite Hk. eexists _, 0. split; [done|]. split; [lia|].
  intros d. rewrite Z.ldiff_spec, Z.pow2_bits_eqb by lia. by rewrite andb_comm, Z.eqb_sym.
Qed.

(** ** Threads of a simulator *)

(** The threads' controls with unit [c]'s replaced, the pool running. *)
Definition with_control (s : BaseAsyncSimulator.t) (c : Z) (ctl : BaseAsyncSimulator.ThreadControls)
  : BaseAsyncSimulator.t :=
  BaseAsyncSimulator.mk true (<[Z.to_nat c := ctl]> (BaseAsyncSimulator.thread_controls_ s)).

Lemma enable_thread_spec (s : BaseAsyncSimulator.t) (c : Z) (ctl : BaseAsyncSimulator.ThreadControls) :
  BaseAsyncSimulator.thread_pool_ s = true → 0 ≤ c →
  BaseAsyncSimulator.thread_controls_ s !! Z.to_nat c = Some ctl →
  BaseAsyncSimulator.finished ctl = false →
  BaseAsyncSimulator.enable_thread s c =
  Ok (with_control s c (BaseAsyncSimulator.mkControls false true)).
Proof.
  intros Hp Hc Hl Hf. pose proof (lookup_lt_Some _ _ _ Hl) as Hlt.
  unfold BaseAsyncSimulator.enable_thread, BaseAsyncSimulator.is_thread_enabled,
    BaseAsyncSimulator.threads_num_. rewrite Hp. cbn [assert rbind].
  rewrite (proj2 (Z.leb_gt _ _)) by lia.
  rewrite (proj2 (vec_at_Ok _ c ctl)) by done. cbn [rbind]. rewrite Hf.
  rewrite vec_set_Ok by lia. done.
Qed.

Lemma disable_thread_spec (s : BaseAsyncSimulator.t) (c : Z) (ctl : BaseAsyncSimulator.ThreadControls) :
  BaseAsyncSimulator.thread_pool_ s = true → 0 ≤ c →
  BaseAsyncSimulator.thread_controls_ s !! Z.to_nat c = Some ctl →
  BaseAsyncSimulator.finished ctl = true →
  BaseAsyncSimulator.disable_thread s c =
  Ok (with_control s c (BaseAsyncSimulator.mkControls true false)).
Proof.
  intros Hp Hc Hl Hf. pose proof (lookup_lt_Some _ _ _ Hl) as Hlt.
  unfold BaseAsyncSimulator.disable_thread, BaseAsyncSimulator.is_thread_enabled,
    BaseAsyncSimulator.threads_num_.
  rewrite (proj2 (Z.leb_gt _ _)) by lia.
  rewrite (proj2 (vec_at_Ok _ c ctl)) by done. cbn [rbind]. rewrite Hf. cbn [negb].
  rewrite vec_set_Ok by lia. cbn [rbind]. by rewrite Hp.
Qed.
