(* ===== verification/Transfer.v ===== *)
(** * Memory accessors and transfer managers

    include/pnmlib/core/accessor.h and transfer_manager.h with their
    implementations: core/memory/sequential_accessor.cpp and
    core/memory/imdb/transfer_manager.cpp for sequential regions,
    core/memory/sls/accessor.cpp and core/memory/sls/axdimm/transfer_manager.cpp for
    regions of interleaved ranks, and the accessor and the transfer manager under
    core/memory/sls/cxl/ for regions of channels.

    All mappings of an offset of the device file show the same memory.  A mapping is
    therefore at the address of the device's memory plus its offset, and has the
    length that was asked for; whether [mmap] succeeds is a parameter.  The accessors
    keep their mappings, and [within] says that a view does not leave its mapping.
    The offsets of the units in the file come from sysfs and are a list. *)
From S2P Require Import Prelude Topology RankAddress WordMemory DeviceMemory Allocators Views SlsDevice.

(** ** The interface *)

Inductive VirtualRegion :=
  | VirtualSequential (region : span)
  | VirtualRanked (regions : list span).

Definition get_virtual_sequential (r : VirtualRegion) : result span :=
  match r with VirtualSequential s => Ok s | VirtualRanked _ => Err StdException end.
Definition get_virtual_ranked (r : VirtualRegion) : result (list span) :=
  match r with VirtualRanked l => Ok l | VirtualSequential _ => Err StdException end.

(** [AccessorCore]: the address of a byte, and the copy of a value into the region. *)
Class AccessorCore (C : Type) := {
  access_impl : C → Z → Z → result Z;
  store_impl : C → Z → Z → Z → memory → result memory;
  virtual_range_impl : C → VirtualRegion;
  phys_range_impl : C → DeviceRegion;
  bytes_impl : C → Z
}.

(** [TransferManager]: the copies between a host region and a device region, with
    the number of bytes copied. *)
Record TransferManager := mkManager {
  copy_to_device_impl : span → VirtualRegion → DeviceRegion → memory → result (memory * Z);
  copy_from_device_impl : VirtualRegion → DeviceRegion → span → memory → result (memory * Z)
}.

Definition view_empty (v : span) : bool := span_size v =? 0.

(** [std::copy(from.begin(), from.end(), to)] with the number of bytes. *)
Definition copy_view (from : span) (to : Z) (m : memory) : memory * Z :=
  (copy_n m (span_begin from) (Z.to_nat (span_size from)) to, span_size from).

(** The device file: where its memory is, which mappings [mmap] grants, and the
    offsets of the units' blocks. *)
Record device_file := mkFile {
  dev : Z;
  mmap : Z → Z → bool;
  mem_info : list Z
}.

(** The constructor of [MappedData]: [data_ptr_] and [len_].  The default constructor
    maps nothing. *)
Definition MappedData (f : device_file) (data_len offset : Z) : result span :=
  if mmap f data_len offset then Ok (mkSpan (u64 (dev f + offset)) data_len) else Err IO.

Definition MappedData_empty : span := mkSpan 0 0.

(** [v] does not leave the mapping [d]. *)
Definition within (v d : span) : Prop :=
  span_begin d ≤ span_begin v ∧ span_begin v + span_size v ≤ span_begin d + span_size d.

Definition in_span (d : span) (x : Z) : Prop := span_begin d ≤ x < span_begin d + span_size d.

Definition fast_align_up (value alignment : Z) : result Z :=
  let! _ := assert (negb (alignment =? 0) && (Z.land alignment (u64 (alignment - 1)) =? 0)) in
  Ok (Z.land (u64 (value + alignment - 1)) (u64 (Z.lnot (u64 (alignment - 1))))).

(** ** core/memory/sequential_accessor.{h,cpp} *)
Module SequentialAccessorCore.
Record t := mk {
  region_ : SequentialRegion;
  address_align_ : Z;
  device_map_ : span;
  virtual_region_ : span
}.

Definition make (f : device_file) (region : DeviceRegion) (address_align : Z) : result t :=
  let! r := get_sequential region in
  let! len := fast_align_up (size r) address_align in
  let! data := MappedData f len (start r) in
  let! _ := assert (start r mod address_align =? 0) in
  Ok (mk r address_align data (mkSpan (span_begin data) (size r))).

(** Flushing the cache changes no value. *)
Definition access (a : t) (byte_offset _size : Z) : result Z :=
  Ok (u64 (span_begin (virtual_region_ a) + byte_offset)).

Definition store (a : t) (value size byte_offset : Z) (m : memory) : result memory :=
  Ok (copy_n m value (Z.to_nat size) (u64 (span_begin (virtual_region_ a) + byte_offset))).
End SequentialAccessorCore.

#[export] Instance sequential_core : AccessorCore SequentialAccessorCore.t := {|
  access_impl := SequentialAccessorCore.access;
  store_impl := SequentialAccessorCore.store;
  virtual_range_impl a := VirtualSequential (SequentialAccessorCore.virtual_region_ a);
  phys_range_impl a := Sequential (SequentialAccessorCore.region_ a);
  bytes_impl a := span_size (SequentialAccessorCore.virtual_region_ a)
|}.

(** ** core/memory/imdb/transfer_manager.cpp *)
Definition ImdbTransferManager : TransferManager := {|
  copy_to_device_impl host_region virt _ m :=
    let! dev_vregion := get_virtual_sequential virt in
    if span_size dev_vregion <? span_size host_region then Err InvalidArguments
    else Ok (copy_view host_region (span_begin dev_vregion) m);
  copy_from_device_impl virt _ host_region m :=
    let! dev_vregion := get_virtual_sequential virt in
    if span_size host_region <? span_size dev_vregion then Err InvalidArguments
    else Ok (copy_view dev_vregion (span_begin host_region) m)
|}.

(** ** core/memory/sls/accessor.{h,cpp} *)
Module SlsAccessorCore.
Definition ALIGN_MASK : Z := 4096 - 1.
Definition aligned_floor (offset : Z) : Z := Z.land offset (u64 (Z.lnot ALIGN_MASK)).
Definition aligned_ceil (offset : Z) : Z := aligned_floor (u64 (offset + ALIGN_MASK)).

Record t := mk {
  region_ : list SequentialRegion;
  data_size_ : Z;
  vregion_data_ : list span;
  vregion_ : list span
}.

(** The body of the loop of [init_virtual_region]. *)
Definition init_region (f : device_file) (s : Z * list span * list span) (sreg : SequentialRegion)
  : result (Z * list span * list span) :=
  let '(data_size, vregion_data, vregion) := s in
  match location sreg with
  | None => Ok (data_size, vregion_data ++ [MappedData_empty], vregion ++ [mkSpan 0 0])
  | Some loc =>
      let data_size := if data_size =? 0 then size sreg else data_size in
      let! _ := assert (data_size =? size sreg) in
      let ha := cunit_to_ha loc in
      let offset := interleaved_address (start sreg) ha in
      let sz := u64 (interleaved_address (u64 (start sreg + size sreg)) ha - offset) in
      let! map_offset := vec_at (mem_info f) loc in
      let offset := u64 (offset + map_offset) in
      let! data := MappedData f (aligned_ceil sz) (aligned_floor offset) in
      Ok (data_size, vregion_data ++ [data],
          vregion ++ [mkSpan (u64 (span_begin data + Z.land offset ALIGN_MASK)) sz])
  end.

Definition make (f : device_file) (region : DeviceRegion) : result t :=
  let! regions := get_ranked region in
  let! (data_size, vregion_data, vregion) := rfold (init_region f) (0, [], []) regions in
  Ok (mk regions data_size vregion_data vregion).

(** The pointer to the start of a sub-region. *)
Definition rank_pointer (a : t) (sreg : SequentialRegion) (loc : Z) : result InterleavedPointer.t :=
  let! v := vec_at (vregion_ a) loc in
  Ok (make_interleaved_pointer loc (start sreg) (span_begin v)).

Fixpoint access_first (a : t) (regions : list SequentialRegion) (byte_offset : Z) : result Z :=
  match regions with
  | [] => Err InvalidArguments
  | sreg :: regions' =>
      match location sreg with
      | Some loc =>
          let! iptr := rank_pointer a sreg loc in
          Ok (InterleavedPointer.get (InterleavedPointer.plus iptr byte_offset))
      | None => access_first a regions' byte_offset
      end
  end.

Definition access (a : t) (byte_offset _size : Z) : result Z :=
  access_first a (region_ a) byte_offset.

Definition store (tp : Constants) (a : t) (value size byte_offset : Z) (m : memory)
  : result memory :=
  rfold (fun m sreg =>
    match location sreg with
    | Some loc =>
        let! iptr := rank_pointer a sreg loc in
        let! (_, m) := of_option OutOfFuel (CopyTo.memcpy_interleaved (copy_fuel size) tp m value size
                                              (InterleavedPointer.plus iptr byte_offset)) in
        Ok m
    | None => Ok m
    end) m (region_ a).
End SlsAccessorCore.

Definition sls_core (tp : Constants) : AccessorCore SlsAccessorCore.t := {|
  access_impl := SlsAccessorCore.access;
  store_impl := SlsAccessorCore.store tp;
  virtual_range_impl a := VirtualRanked (SlsAccessorCore.vregion_ a);
  phys_range_impl a := RankedRegion (SlsAccessorCore.region_ a);
  bytes_impl := SlsAccessorCore.data_size_
|}.

(** ** core/memory/sls/axdimm/transfer_manager.cpp *)
Module AxdimmTransferManager.
Definition copy_to_device (tp : Constants) (host_region : span) (virt : VirtualRegion) (phys : DeviceRegion)
    (m : memory) : result (memory * Z) :=
  let! vregion := get_virtual_ranked virt in
  let! pregion := get_ranked phys in
  rfold (fun s i =>
    let '(m, _) := s : memory * Z in
    let! v := vec_at vregion i in
    if view_empty v then Ok s
    else
      let! sreg := vec_at pregion i in
      match location sreg with
      | None => Ok s
      | Some loc =>
          let! (copied, m) := of_option OutOfFuel
            (CopyTo.memcpy_interleaved (copy_fuel (span_size host_region)) tp m (span_begin host_region)
               (span_size host_region) (make_interleaved_pointer loc (start sreg) (span_begin v))) in
          Ok (m, copied)
      end) (m, 0) (range (Z.of_nat (length vregion))).

Fixpoint copy_first (tp : Constants) (vregion : list span) (pregion : list SequentialRegion) (host_region : span)
    (m : memory) : result (memory * Z) :=
  match vregion with
  | [] => Ok (m, 0)
  | v :: vregion' =>
      if view_empty v then copy_first tp vregion' (tail pregion) host_region m
      else
        let! sreg := of_option UndefinedBehaviour (head pregion) in
        match location sreg with
        | None => copy_first tp vregion' (tail pregion) host_region m
        | Some loc =>
            let! (copied, m) := of_option OutOfFuel
              (CopyFrom.memcpy_interleaved (copy_fuel (span_size host_region)) tp m
                 (make_interleaved_pointer loc (start sreg) (span_begin v)) (span_size host_region)
                 (span_begin host_region)) in
            Ok (m, copied)
        end
  end.

Definition copy_from_device (tp : Constants) (virt : VirtualRegion) (phys : DeviceRegion) (host_region : span)
    (m : memory) : result (memory * Z) :=
  let! vregion := get_virtual_ranked virt in
  let! pregion := get_ranked phys in
  copy_first tp vregion pregion host_region m.
End AxdimmTransferManager.

Definition axdimm_manager (tp : Constants) : TransferManager :=
  mkManager (AxdimmTransferManager.copy_to_device tp) (AxdimmTransferManager.copy_from_device tp).

(** ** core/memory/sls/cxl/ *)
Module ChannelAccessorCore.
Definition page_size : Z := Z.shiftl 2 20.

Record t := mk {
  region_ : list SequentialRegion;
  data_size_ : Z;
  virtual_region_ : list span;
  vregion_data_ : list span
}.

Definition init_channel (f : device_file) (base_offsets : list Z) (s : Z * list span * list span)
    (sreg : SequentialRegion) : result (Z * list span * list span) :=
  let '(data_size, vregion, vregion_data) := s in
  match location sreg with
  | None => Ok (data_size, vregion ++ [mkSpan 0 0], vregion_data ++ [MappedData_empty])
  | Some loc =>
      let! len := fast_align_up (size sreg) page_size in
      let! base_offset := vec_at base_offsets loc in
      let! data := MappedData f len (u64 (start sreg + base_offset)) in
      Ok (size sreg, vregion ++ [mkSpan (span_begin data) (size sreg)], vregion_data ++ [data])
  end.

(** [base_offsets_] has an entry per sub-region. *)
Definition make (f : device_file) (region : DeviceRegion) : result t :=
  let! regions := get_ranked region in
  let! base_offsets := rfold (fun l i => let! o := vec_at (mem_info f) i in Ok (l ++ [o])) []
                         (range (Z.of_nat (length regions))) in
  let! (data_size, vregion, vregion_data) := rfold (init_channel f base_offsets) (0, [], []) regions in
  Ok (mk regions data_size vregion vregion_data).

Definition access (a : t) (byte_offset _size : Z) : result Z :=
  match find (fun v => negb (view_empty v)) (virtual_region_ a) with
  | Some v => Ok (u64 (span_begin v + byte_offset))
  | None => Err InvalidArguments
  end.

Definition store (a : t) (value size byte_offset : Z) (m : memory) : result memory :=
  Ok (fold_left (fun m v =>
        if view_empty v then m
        else copy_n m value (Z.to_nat size) (u64 (span_begin v + byte_offset)))
      (virtual_region_ a) m).
End ChannelAccessorCore.

#[export] Instance channel_core : AccessorCore ChannelAccessorCore.t := {|
  access_impl := ChannelAccessorCore.access;
  store_impl := ChannelAccessorCore.store;
  virtual_range_impl a := VirtualRanked (ChannelAccessorCore.virtual_region_ a);
  phys_range_impl a := RankedRegion (ChannelAccessorCore.region_ a);
  bytes_impl := ChannelAccessorCore.data_size_
|}.

(** The copy from the device takes the whole region of the first channel, whatever
    the size of the host region. *)
Definition ChannelTransferManager : TransferManager := {|
  copy_to_device_impl host_region virt _ m :=
    let! vregions := get_virtual_ranked virt in
    Ok (fold_left (fun s v => if view_empty v then s else copy_view host_region (span_begin v) s.1)
          vregions (m, 0));
  copy_from_device_impl virt _ host_region m :=
    let! vregions := get_virtual_ranked virt in
    match find (fun v => negb (view_empty v)) vregions with
    | Some v => Ok (copy_view v (span_begin host_region) m)
    | None => Ok (m, 0)
    end
|}.

(** ** include/pnmlib/core/accessor.h and transfer_manager.h

    [w] is [sizeof(T)].  The values are the [w]-byte integers of memory. *)
Section typed.
Context {C : Type} {A : AccessorCore C} (w : Z).

(** The constructor of [Accessor<T>]. *)
Definition make_accessor (base : C) : result C :=
  let! _ := assert (bytes_impl base mod w =? 0) in Ok base.

Definition accessor_size (a : C) : Z := bytes_impl a / w.

(** The load through the reference that [at] returns. *)
Definition accessor_at (a : C) (index : Z) (m : memory) : result Z :=
  let! p := access_impl a (u64 (index * w)) w in Ok (load m p (Z.to_nat w)).

(** [local] is the address of the parameter [value]. *)
Definition accessor_store (local : Z) (a : C) (value index : Z) (m : memory) : result memory :=
  store_impl a local w (u64 (index * w)) (store m local (Z.to_nat w) value).

(** Views of [host_size] elements at [host]. *)
Definition copy_to_device (manager : TransferManager) (host host_size : Z) (a : C) (m : memory)
  : result (memory * Z) :=
  let casted_range := mkSpan host (host_size * w) in
  let! (m, copied) := copy_to_device_impl manager casted_range (virtual_range_impl a) (phys_range_impl a) m in
  let! _ := assert (copied =? span_size casted_range) in
  Ok (m, copied / w).

Definition copy_from_device (manager : TransferManager) (a : C) (host host_size : Z) (m : memory)
  : result (memory * Z) :=
  let casted_range := mkSpan host (host_size * w) in
  let! (m, copied) := copy_from_device_impl manager (virtual_range_impl a) (phys_range_impl a) casted_range m in
  let! _ := assert (copied =? u64 (accessor_size a * w)) in
  Ok (m, copied / w).
End typed.

(** ** [Accessor<T>::Iterator]

    [base_] is the address of the accessor.  Dereferencing gives a proxy of the
    element at [current_index_]. *)
Module Iterator.
Record t := mk {
  base_ : Z;
  current_index_ : Z
}.

Definition incr (it : t) : t := mk (base_ it) (u64 (current_index_ it + 1)).
Definition decr (it : t) : t := mk (base_ it) (u64 (current_index_ it - 1)).
Definition add (it : t) (n : Z) : t := mk (base_ it) (u64 (current_index_ it + n)).
Definition sub (it : t) (n : Z) : t := mk (base_ it) (u64 (current_index_ it - n)).
Definition distance (it rhs : t) : Z := u64 (current_index_ it - current_index_ rhs).
Definition neq (it rhs : t) : bool :=
  (base_ it =? base_ rhs) && negb (current_index_ it =? current_index_ rhs).
Definition eq (it rhs : t) : bool := negb (neq it rhs).

(** [operator* ] and [operator[]]: the index of the element. *)
Definition deref (it : t) : Z := current_index_ it.
Definition subscript (it : t) (index : Z) : Z := u64 (current_index_ it + index).
End Iterator.

Section iteration.
Context {C : Type} {A : AccessorCore C} (w : Z).

(** [begin] and [end] of the accessor at address [self]. *)
Definition accessor_begin (self : Z) : Iterator.t := Iterator.mk self 0.
Definition accessor_end (self : Z) (a : C) : Iterator.t := Iterator.mk self (accessor_size w a).

(** [for (T x : accessor)], with the values of [x]. *)
Fixpoint iterate (fuel : nat) (a : C) (it last : Iterator.t) (m : memory) : result (list Z) :=
  match fuel with
  | O => Err OutOfFuel
  | S fuel' =>
      if Iterator.neq it last then
        let! x := accessor_at w a (Iterator.deref it) m in
        let! l := iterate fuel' a (Iterator.incr it) last m in
        Ok (x :: l)
      else Ok []
  end.
End iteration.

(** ** What accessors and managers promise

    A region is stored in one or more replicas; a replica gives the address of every
    byte of the region.  [mappings] has the mapping of each replica, and [covered]
    says that the views of the region do not leave their mappings. *)
Definition linear (a i : Z) : Z := u64 (a + i).

(** [n] bytes at [src] copied to the bytes from [off] of every replica. *)
Definition copy_replicas (m : memory) (src : Z) (replicas : list (Z → Z)) (off n : Z) : memory :=
  fold_left (fun m r => copy_bytewise m (linear src) (fun i => r (off + i)) 0 (Z.to_nat n)) replicas m.

Class DeviceAccess (C : Type) {A : AccessorCore C} (manager : TransferManager) := {
  usable : C → Prop;
  replicas : C → list (Z → Z);
  aligned : C → Z → Prop;
  mappings : C → list span;
  covered : C → Prop;
  da_bytes a : usable a → 0 ≤ bytes_impl a < 2 ^ 63;
  da_access a off sz : usable a → 0 ≤ off < bytes_impl a →
    access_impl a off sz = match replicas a with r :: _ => Ok (r off) | [] => Err InvalidArguments end;
  da_store a v n off m : usable a → 0 ≤ v < 2 ^ 64 → 0 ≤ off → 0 ≤ n → off + n ≤ bytes_impl a →
    store_impl a v n off m = Ok (copy_replicas m v (replicas a) off n);
  da_to a h n m : usable a → 0 ≤ h < 2 ^ 64 → 0 ≤ n ≤ bytes_impl a →
    copy_to_device_impl manager (mkSpan h n) (virtual_range_impl a) (phys_range_impl a) m =
    Ok (copy_replicas m h (replicas a) 0 n, match replicas a with [] => 0 | _ => n end);
  da_from a h m : usable a → 0 ≤ h < 2 ^ 64 →
    copy_from_device_impl manager (virtual_range_impl a) (phys_range_impl a) (mkSpan h (bytes_impl a)) m =
    Ok (match replicas a with
        | r :: _ => (copy_bytewise m r (linear h) 0 (Z.to_nat (bytes_impl a)), bytes_impl a)
        | [] => (m, 0)
        end);
  da_inj a r i j : usable a → r ∈ replicas a → 0 ≤ i < bytes_impl a → 0 ≤ j < bytes_impl a →
    r i = r j → i = j;
  da_element a w r i j : usable a → aligned a w → r ∈ replicas a → 0 ≤ i → 0 ≤ j < w →
    i * w + w ≤ bytes_impl a → r (i * w + j) = r (i * w) + j;
  da_mapped a : usable a → covered a →
    Forall2 (fun r d => ∀ i, 0 ≤ i < bytes_impl a → in_span d (r i)) (replicas a) (mappings a)
}.

(** ** Copies *)
Lemma copy_bytewise_ext (n : nat) : ∀ (m : memory) (from to from' to' : Z → Z) (i : Z),
  (∀ j, i ≤ j < i + Z.of_nat n → from j = from' j ∧ to j = to' j) →
  copy_bytewise m from to i n = copy_bytewise m from' to' i n.
Proof.
  induction n as [|n IH]; intros m from to from' to' i H; [done|]. cbn [copy_bytewise].
  destruct (H i) as [-> ->]; [lia|]. apply IH. intros j Hj. apply H. lia.
Qed.

Lemma copy_n_views (m : memory) (s : Z) (n : nat) (d : Z) :
  0 ≤ s < 2 ^ 64 → 0 ≤ d < 2 ^ 64 → copy_n m s n d = copy_bytewise m (linear s) (linear d) 0 n.
Proof.
  intros Hs Hd. rewrite <- copy_n_bytewise.
  - unfold linear. by rewrite !Z.add_0_r, !u64_small by lia.
  - intros j _ _. unfold linear. rewrite u64_add_l. f_equal. lia.
  - intros j _ _. unfold linear. rewrite u64_add_l. f_equal. lia.
Qed.

Lemma linear_shift (a off i : Z) : linear (linear a off) i = linear a (off + i).
Proof. unfold linear. rewrite u64_add_l. f_equal. lia. Qed.

(** A replica at consecutive addresses. *)
Lemma linear_inj (a n i j : Z) :
  0 ≤ i < n → 0 ≤ j < n → n ≤ 2 ^ 64 → linear a i = linear a j → i = j.
Proof. unfold linear, u64. intros. dlia. Qed.

(** Copying to all replicas leaves the bytes in each of them, when the replicas and
    the source are apart. *)
Section copy_replicas.
Context (src off n : Z) (Hn : 0 ≤ n).

Definition replica_hit (r : Z → Z) (x : Z) : Prop := ∃ i, 0 ≤ i < n ∧ x = r (off + i).

Lemma copy_replicas_frame (rs : list (Z → Z)) : ∀ (m : memory) (x : Z),
  (∀ r, r ∈ rs → ¬ replica_hit r x) → copy_replicas m src rs off n x = m x.
Proof.
  induction rs as [|r rs IH]; intros m x Hx; [done|]. unfold copy_replicas. cbn [fold_left].
  fold (copy_replicas (copy_bytewise m (linear src) (fun i => r (off + i)) 0 (Z.to_nat n)) src rs off n).
  rewrite IH by (intros r' Hr'; apply Hx; by right).
  apply copy_bytewise_frame. intros j Hj ->. apply (Hx r ltac:(left)). exists j. split; [lia|done].
Qed.

Lemma copy_replicas_hit (rs : list (Z → Z)) : ∀ (m : memory) (k : nat) (r : Z → Z) (i : Z),
  (∀ r, r ∈ rs → ∀ a b, 0 ≤ a < n → 0 ≤ b < n → r (off + a) = r (off + b) → a = b) →
  (∀ r, r ∈ rs → ∀ a, 0 ≤ a < n → ¬ replica_hit r (linear src a)) →
  (∀ j k r r', rs !! j = Some r → rs !! k = Some r' → j ≠ k →
     ∀ a, 0 ≤ a < n → ¬ replica_hit r' (r (off + a))) →
  rs !! k = Some r → 0 ≤ i < n →
  copy_replicas m src rs off n (r (off + i)) = m (linear src i).
Proof.
  induction rs as [|r0 rs IH]; intros m k r i Hinj Hsrc Hap Hk Hi; [done|].
  unfold copy_replicas. cbn [fold_left].
  set (m1 := copy_bytewise m (linear src) (fun i => r0 (off + i)) 0 (Z.to_nat n)).
  fold (copy_replicas m1 src rs off n).
  assert (Hm1 : ∀ a, 0 ≤ a < n → m1 (linear src a) = m (linear src a)).
  { intros a Ha. apply copy_bytewise_frame. intros j Hj E. apply (Hsrc r0 ltac:(left) a Ha).
    exists j. split; [lia|done]. }
  destruct k as [|k].
  - injection Hk as <-. rewrite copy_replicas_frame.
    + apply (copy_bytewise_lookup _ _ (linear src) (fun i => r0 (off + i)) 0 i); [| |lia].
      * intros a b' Ha Hb. apply (Hinj r0 ltac:(left)); lia.
      * intros a b' Ha Hb E. apply (Hsrc r0 ltac:(left) a ltac:(lia)). exists b'. split; [lia|done].
    + intros r' Hr'. apply list_elem_of_lookup_1 in Hr' as [k' Hk'].
      apply (Hap 0%nat (S k') r0 r'); done.
  - cbn in Hk. rewrite (IH m1 k r i); [by apply Hm1| | | |done|done].
    + intros r' Hr'. apply Hinj. by right.
    + intros r' Hr'. apply Hsrc. by right.
    + intros j k' r1 r2 H1 H2 Hne. apply (Hap (S j) (S k') r1 r2); [done|done|congruence].
Qed.
End copy_replicas.

(** ** Instances *)

(** The replica of a view. *)
Definition view_ok (n : Z) (v : span) : Prop :=
  0 ≤ span_begin v < 2 ^ 64 ∧ span_begin v + n ≤ 2 ^ 64 ∧ span_size v = n.

Lemma view_element (v : span) (n w i j : Z) :
  view_ok n v → 0 ≤ i → 0 ≤ j < w → i * w + w ≤ n →
  linear (span_begin v) (i * w + j) = linear (span_begin v) (i * w) + j.
Proof. intros (H1 & H2 & _) Hi Hj Hn. assert (0 ≤ i * w) by nia. unfold linear. rewrite !u64_small by lia. lia. Qed.

(** The bytes of a view are mapped. *)
Lemma view_mapped (v d : span) (n : Z) :
  view_ok n v → within v d → ∀ i, 0 ≤ i < n → in_span d (linear (span_begin v) i).
Proof. intros (H1 & H2 & H3) [Hb He] i Hi. unfold in_span, linear. rewrite u64_small; lia. Qed.

#[program] Definition sequential_access
  : DeviceAccess SequentialAccessorCore.t ImdbTransferManager := {|
  usable a := 0 ≤ span_size (SequentialAccessorCore.virtual_region_ a) < 2 ^ 63 ∧
    view_ok (span_size (SequentialAccessorCore.virtual_region_ a)) (SequentialAccessorCore.virtual_region_ a);
  replicas a := [linear (span_begin (SequentialAccessorCore.virtual_region_ a))];
  aligned _ _ := True;
  mappings a := [SequentialAccessorCore.device_map_ a];
  covered a := within (SequentialAccessorCore.virtual_region_ a) (SequentialAccessorCore.device_map_ a)
|}.
Next Obligation. by intros a [H _]. Qed.
Next Obligation. done. Qed.
Next Obligation.
  intros a v n off m [Hs (Hb & He & _)] Hv Hoff Hn Hle. unfold bytes_impl in *. cbn in *. unfold SequentialAccessorCore.store,
    copy_replicas. cbn [fold_left]. f_equal. rewrite copy_n_views by (lia || apply u64_range).
  apply copy_bytewise_ext. intros j Hj. split; [done|]. apply linear_shift.
Qed.
Next Obligation.
  intros a h n m [Hs (Hb & He & _)] Hh Hn. cbn in *. rewrite (proj2 (Z.ltb_ge _ _)) by lia.
  unfold copy_view, copy_replicas. cbn [fold_left span_begin span_size]. f_equal. f_equal.
  by rewrite copy_n_views by lia.
Qed.
Next Obligation.
  intros a h m [Hs (Hb & He & _)] Hh. cbn in *. rewrite Z.ltb_irrefl. unfold copy_view. cbn [span_begin].
  by rewrite copy_n_views by lia.
Qed.
Next Obligation.
  intros a r i j [Hs _] Hr Hi Hj. apply list_elem_of_singleton in Hr as ->. cbn in *.
  eapply (linear_inj _ (span_size (SequentialAccessorCore.virtual_region_ a))); lia.
Qed.
Next Obligation.
  intros a w r i j [Hs Hv] _ Hr Hi Hj Hn. apply list_elem_of_singleton in Hr as ->. by eapply view_element.
Qed.
Next Obligation. intros a [Hs Hv] Hc. repeat constructor; by eapply (view_mapped _ _ _ Hv). Qed.

(** The channels with a replica. *)
Definition channel_views (a : ChannelAccessorCore.t) : list span :=
  filter (fun v => view_empty v = false) (ChannelAccessorCore.virtual_region_ a).

Definition channel_mappings (a : ChannelAccessorCore.t) : list span :=
  (filter (fun z => view_empty z.1 = false)
     (zip (ChannelAccessorCore.virtual_region_ a) (ChannelAccessorCore.vregion_data_ a))).*2.

Lemma find_view (vs : list span) :
  find (fun v => negb (view_empty v)) vs = head (filter (fun v => view_empty v = false) vs).
Proof.
  induction vs as [|v vs IH]; [done|]. cbn [find]. destruct (view_empty v) eqn:E; cbn [negb].
  - rewrite filter_cons_False by (by rewrite E). exact IH.
  - by rewrite filter_cons_True by done.
Qed.

Lemma fold_views {S} (f : S → span → S) (vs : list span) : ∀ s,
  fold_left (fun s v => if view_empty v then s else f s v) vs s =
  fold_left f (filter (fun v => view_empty v = false) vs) s.
Proof.
  induction vs as [|v vs IH]; intros s; [done|]. cbn [fold_left]. destruct (view_empty v) eqn:E.
  - rewrite filter_cons_False by (by rewrite E). apply IH.
  - rewrite filter_cons_True by done. cbn [fold_left]. apply IH.
Qed.

#[program] Definition channel_access : DeviceAccess ChannelAccessorCore.t ChannelTransferManager := {|
  usable a := 0 ≤ ChannelAccessorCore.data_size_ a < 2 ^ 63 ∧
    Forall (view_ok (ChannelAccessorCore.data_size_ a)) (channel_views a);
  replicas a := (fun v => linear (span_begin v)) <$> channel_views a;
  aligned _ _ := True;
  mappings := channel_mappings;
  covered a := Forall2 within (ChannelAccessorCore.virtual_region_ a) (ChannelAccessorCore.vregion_data_ a)
|}.
Next Obligation. by intros a [H _]. Qed.
Next Obligation.
  intros a off sz _ _. cbn. unfold ChannelAccessorCore.access. rewrite find_view. fold (channel_views a).
  by destruct (channel_views a).
Qed.
Next Obligation.
  intros a v n off m [Hs HF] Hv Hoff Hn Hle. cbn in *. unfold ChannelAccessorCore.store. f_equal.
  rewrite fold_views. fold (channel_views a). unfold copy_replicas. revert m HF.
  induction (channel_views a) as [|u us IH]; intros m HF; [done|]. apply Forall_cons in HF as [(Hb & He & _) HF].
  cbn [fold_left fmap list_fmap]. rewrite IH by done. f_equal.
  rewrite copy_n_views by (lia || apply u64_range).
  apply copy_bytewise_ext. intros j Hj. split; [done|]. apply linear_shift.
Qed.
Next Obligation.
  intros a h n m [Hs HF] Hh Hn. cbn in *. f_equal.
  rewrite (fold_views (fun s v => copy_view (mkSpan h n) (span_begin v) s.1)). fold (channel_views a).
  unfold copy_replicas.
  assert (G : ∀ us s, Forall (view_ok (ChannelAccessorCore.data_size_ a)) us →
    fold_left (fun s v => copy_view (mkSpan h n) (span_begin v) s.1) us s =
    (fold_left (fun m r => copy_bytewise m (linear h) (fun i => r (0 + i)) 0 (Z.to_nat n))
      ((fun v => linear (span_begin v)) <$> us) s.1, match us with [] => s.2 | _ => n end)).
  { induction us as [|u us IH]; intros [m0 c] HF'; [done|]. apply Forall_cons in HF' as [(Hb & He & _) HF'].
    cbn [fold_left fmap list_fmap fst]. rewrite IH by done. unfold copy_view. cbn [fst snd span_begin span_size].
    f_equal; [f_equal|by destruct us]. rewrite copy_n_views by lia. by apply copy_bytewise_ext. }
  rewrite G by done. cbn [fst snd]. f_equal. by destruct (channel_views a).
Qed.
Next Obligation.
  intros a h m [Hs HF] Hh. cbn in *. rewrite find_view. fold (channel_views a).
  destruct (channel_views a) as [|v vs]; [done|]. apply Forall_cons in HF as [(Hb & He & Hz) _].
  cbn [head fmap list_fmap]. unfold copy_view. cbn [span_begin]. by rewrite Hz, copy_n_views by lia.
Qed.
Next Obligation.
  intros a r i j [Hs _] Hr Hi Hj. apply list_elem_of_fmap in Hr as (v & -> & _). cbn in *.
  eapply (linear_inj _ (ChannelAccessorCore.data_size_ a)); lia.
Qed.
Next Obligation.
  intros a w r i j [Hs HF] _ Hr Hi Hj Hn. apply list_elem_of_fmap in Hr as (v & -> & Hv).
  eapply view_element; try done. by apply (proj1 (Forall_forall _ _) HF).
Qed.
Next Obligation.
  intros a [Hs HF] Hc. cbn in *. unfold channel_mappings. revert HF. unfold channel_views.
  induction Hc as [|v d vs ds Hvd Hc IH]; [constructor|]. cbn [zip_with].
  destruct (decide (view_empty v = false)) as [E|E].
  - rewrite !filter_cons_True by done. intros HF. apply Forall_cons in HF as [Hv HF]. cbn [fmap list_fmap snd].
    constructor; [by apply (view_mapped _ _ _ Hv)|by apply IH].
  - by rewrite !filter_cons_False by done.
Qed.

(** The address of byte [i] of a sub-region on a rank, mapped at [v]. *)
Definition rank_replica (loc : Z) (sreg : SequentialRegion) (v : span) (i : Z) : Z :=
  host_address (make_interleaved_pointer loc (start sreg) (span_begin v)) (start sreg + i).

(** A sub-region and its view: the view is at the index of the rank. *)
Definition entry_ok (vregion : list span) (n : Z) (z : span * SequentialRegion) : Prop :=
  match location z.2 with
  | None => span_size z.1 = 0
  | Some loc =>
      vec_at vregion loc = Ok z.1 ∧ span_size z.1 ≠ 0 ∧ 0 ≤ start z.2 ∧ start z.2 + n < 2 ^ 63 ∧
      2 ^ 10 ≤ span_begin z.1 ∧ span_begin z.1 + 2 * n + 2 ^ 10 ≤ 2 ^ 64
  end.

Definition entry_replica (z : span * SequentialRegion) : option (Z → Z) :=
  match location z.2 with
  | Some loc => Some (rank_replica loc z.2 z.1)
  | None => None
  end.

(** System addresses grow with the address in the rank. *)
Lemma system_offset_increases (ra ra' ha : Z) :
  0 ≤ ra < ra' → system_offset ra ha < system_offset ra' ha.
Proof.
  intros Hr. unfold system_offset.
  pose proof (Z.mod_pos_bound (ra / 2 ^ 19 + ha) 2 ltac:(lia)).
  pose proof (Z.mod_pos_bound (ra' / 2 ^ 19 + ha) 2 ltac:(lia)).
  destruct (decide (ra / 2 ^ 8 = ra' / 2 ^ 8)) as [E|E].
  - replace (ra' / 2 ^ 19) with (ra / 2 ^ 19) by dlia. dlia.
  - set (h1 := (ra / 2 ^ 19 + ha) mod 2) in *. set (h2 := (ra' / 2 ^ 19 + ha) mod 2) in *.
    clearbody h1 h2. dlia.
Qed.

Section rank.
Context (loc st vb n : Z) (Hst : 0 ≤ st) (Hn : 0 ≤ n) (Hend : st + n < 2 ^ 63).
Context (Hvb : 2 ^ 10 ≤ vb) (Hve : vb + 2 * n + 2 ^ 10 ≤ 2 ^ 64).
Let p : InterleavedPointer.t := make_interleaved_pointer loc st vb.

Lemma rank_pointer_wf : pointer_wf p ∧ InterleavedPointer.ranked_addr_ p = st.
Proof.
  split.
  - apply add_assign_wf. split; cbn; [apply cunit_to_ha_range|lia|]. done.
  - cbn. apply u64_small. lia.
Qed.

Lemma rank_address (i : Z) :
  0 ≤ i ≤ n →
  host_address p (st + i) = vb + system_offset (st + i) (cunit_to_ha loc) - system_offset st (cunit_to_ha loc) ∧
  - 2 ^ 9 ≤ system_offset (st + i) (cunit_to_ha loc) - system_offset st (cunit_to_ha loc) ≤ 2 * i + 2 ^ 9.
Proof.
  intros Hi. pose proof (cunit_to_ha_range loc) as Hha. set (ha := cunit_to_ha loc) in *.
  assert (Hb : - 2 ^ 9 ≤ system_offset (st + i) ha - system_offset st ha ≤ 2 * i + 2 ^ 9).
  { unfold system_offset.
    pose proof (Z.mod_pos_bound ((st + i) / 2 ^ 19 + ha) 2 ltac:(lia)).
    pose proof (Z.mod_pos_bound (st / 2 ^ 19 + ha) 2 ltac:(lia)).
    set (h1 := ((st + i) / 2 ^ 19 + ha) mod 2) in *. set (h2 := (st / 2 ^ 19 + ha) mod 2) in *.
    clearbody h1 h2. dlia. }
  split; [|done]. rewrite host_address_arith by done. cbn [p make_interleaved_pointer].
  change (InterleavedPointer.base_ p) with (u64 (vb - interleaved_address st ha)).
  change (InterleavedPointer.HA_ p) with ha.
  rewrite interleaved_address_arith by lia.
  rewrite (u64_small (st + i)) by lia. rewrite u64_add_l.
  replace (u64 (vb - u64 (system_offset st ha) + system_offset (st + i) ha))
    with (u64 (vb + system_offset (st + i) ha - system_offset st ha)) by (unfold u64; dlia).
  apply u64_small. lia.
Qed.

(** The bytes of a sub-region are in a view of its size. *)
Lemma rank_in_view (i sz : Z) :
  sz = system_offset (st + n) (cunit_to_ha loc) - system_offset st (cunit_to_ha loc) →
  0 ≤ i < n → vb ≤ host_address p (st + i) < vb + sz.
Proof.
  intros -> Hi. destruct (rank_address i ltac:(lia)) as [-> _].
  pose proof (system_offset_increases (st + i) (st + n) (cunit_to_ha loc) ltac:(lia)).
  destruct (decide (i = 0)) as [->|Hi0]; [rewrite Z.add_0_r in *; lia|].
  pose proof (system_offset_increases st (st + i) (cunit_to_ha loc) ltac:(lia)). lia.
Qed.

Lemma rank_inj (i j : Z) :
  0 ≤ i < n → 0 ≤ j < n → host_address p (st + i) = host_address p (st + j) → i = j.
Proof.
  intros Hi Hj E. destruct rank_pointer_wf as [[Hh _ _] _].
  apply (host_address_inj p (st + i) (st + j)) in E; lia || done.
Qed.

Lemma rank_element (w i j : Z) :
  0 < w → (w | 2 ^ 8) → (w | st) → 0 ≤ i → 0 ≤ j < w → i * w + w ≤ n →
  host_address p (st + (i * w + j)) = host_address p (st + i * w) + j.
Proof.
  intros Hw H8 [q Hq] Hi Hj Hle. assert (0 ≤ i * w) by nia.
  destruct (rank_address (i * w + j) ltac:(lia)) as [-> _].
  destruct (rank_address (i * w) ltac:(lia)) as [-> _].
  rewrite Z.add_assoc, system_offset_block; [lia|lia|].
  destruct H8 as [k Hk]. replace (st + i * w) with ((q + i) * w) by lia.
  rewrite Hk, (Z.mul_comm k w), (Z.mul_comm (q + i) w), Zmult_mod_distr_l.
  pose proof (Z.mod_pos_bound (q + i) k ltac:(nia)). nia.
Qed.

Context (tp : Constants) (Htp : RankInterleavingSize tp = 2 ^ HA_BIT_POS).

Lemma rank_copy_to (m : memory) (src off k : Z) :
  0 ≤ src < 2 ^ 64 → 0 ≤ off → 0 ≤ k → off + k ≤ n →
  CopyTo.memcpy_interleaved (copy_fuel k) tp m src k (InterleavedPointer.plus p off) =
  Some (k, copy_bytewise m (linear src) (fun i => host_address p (st + (off + i))) 0 (Z.to_nat k)).
Proof.
  intros Hs Hoff Hk Hle. destruct rank_pointer_wf as [Hwf Hra]. unfold copy_fuel.
  rewrite (memcpy_to_bytewise tp Htp m src); [|done|by apply add_assign_wf|lia|lia].
  f_equal. f_equal. apply copy_bytewise_ext. intros i Hi. split; [done|].
  unfold InterleavedPointer.plus. rewrite add_assign_ranked, Hra.
  change (host_address (InterleavedPointer.add_assign p off)) with (host_address p).
  rewrite u64_small by lia. f_equal. lia.
Qed.

Lemma rank_copy_from (m : memory) (dst : Z) :
  0 ≤ dst < 2 ^ 64 →
  CopyFrom.memcpy_interleaved (copy_fuel n) tp m p n dst =
  Some (n, copy_bytewise m (fun i => host_address p (st + i)) (linear dst) 0 (Z.to_nat n)).
Proof.
  intros Hd. destruct rank_pointer_wf as [Hwf Hra]. unfold copy_fuel.
  rewrite (memcpy_from_bytewise tp Htp m); [|done|done|lia|lia].
  f_equal. f_equal. apply copy_bytewise_ext. intros i Hi. split; [|done].
  by rewrite Hra.
Qed.
End rank.

(** The ranks of an accessor with their views. *)
Definition entries (a : SlsAccessorCore.t) : list (span * SequentialRegion) :=
  zip (SlsAccessorCore.vregion_ a) (SlsAccessorCore.region_ a).

Lemma entries_fst_snd (a : SlsAccessorCore.t) :
  length (SlsAccessorCore.vregion_ a) = length (SlsAccessorCore.region_ a) →
  (entries a).*1 = SlsAccessorCore.vregion_ a ∧ (entries a).*2 = SlsAccessorCore.region_ a.
Proof. intros E. unfold entries. rewrite fst_zip, snd_zip by lia. done. Qed.

(** The loop of [copy_to_device_impl] over the indices goes through the entries. *)
Lemma rfold_entries {B} (F : B → Z → result B) (G : B → span * SequentialRegion → result B)
    (vs : list span) (ps : list SequentialRegion) (s : B) :
  length vs = length ps →
  (∀ s i v sreg, vec_at vs i = Ok v → vec_at ps i = Ok sreg → F s i = G s (v, sreg)) →
  rfold F s (range (Z.of_nat (length vs))) = rfold G s (zip vs ps).
Proof.
  intros Hl H.
  assert (E : ∀ k, (k ≤ length vs)%nat → rfold F s (range (Z.of_nat k)) = rfold G s (take k (zip vs ps))).
  { induction k as [|k IH]; intros Hk; [by rewrite take_0|].
    destruct (lookup_lt_is_Some_2 vs k ltac:(lia)) as [v Hv].
    destruct (lookup_lt_is_Some_2 ps k ltac:(lia)) as [sreg Hs].
    assert (Hz : zip vs ps !! k = Some (v, sreg)) by (apply lookup_zip_Some; done).
    rewrite (take_S_r _ _ _ Hz), rfold_app, <- IH by lia.
    replace (Z.of_nat (S k)) with (Z.of_nat k + 1) by lia. rewrite range_succ, rfold_app by lia.
    destruct (rfold F s (range (Z.of_nat k))) as [s'|e]; [|done]. cbn [rbind rfold].
    rewrite (H s' (Z.of_nat k) v sreg); [done| |]; apply vec_at_Ok; (split; [lia|]); by rewrite Nat2Z.id. }
  rewrite (E (length vs)) by lia. rewrite take_ge; [done|]. rewrite length_zip. lia.
Qed.

Section sls.
Context (tp : Constants).
#[local] Existing Instance sls_core.

Record sls_usable (a : SlsAccessorCore.t) : Prop := {
  su_length : length (SlsAccessorCore.vregion_ a) = length (SlsAccessorCore.region_ a);
  su_size : 0 ≤ SlsAccessorCore.data_size_ a < 2 ^ 62;
  su_entries : Forall (entry_ok (SlsAccessorCore.vregion_ a) (SlsAccessorCore.data_size_ a)) (entries a);
  su_interleaving : RankInterleavingSize tp = 2 ^ HA_BIT_POS
}.

Definition sls_replicas (a : SlsAccessorCore.t) : list (Z → Z) := omap entry_replica (entries a).

Lemma replica_entry (a : SlsAccessorCore.t) (r : Z → Z) :
  sls_usable a → r ∈ sls_replicas a →
  ∃ loc v sreg, r = rank_replica loc sreg v ∧ (v, sreg) ∈ entries a ∧ location sreg = Some loc ∧
    0 ≤ start sreg ∧ start sreg + SlsAccessorCore.data_size_ a < 2 ^ 63 ∧
    2 ^ 10 ≤ span_begin v ∧ span_begin v + 2 * SlsAccessorCore.data_size_ a + 2 ^ 10 ≤ 2 ^ 64.
Proof.
  intros [_ _ HF _] Hr. apply list_elem_of_omap in Hr as ([v sreg] & Hin & Hr).
  pose proof (proj1 (Forall_forall _ _) HF _ Hin) as He. unfold entry_replica, entry_ok in *. cbn [fst snd] in *.
  destruct (location sreg) as [loc|] eqn:El; [|done]. injection Hr as <-.
  destruct He as (_ & _ & He). exists loc, v, sreg. tauto.
Qed.

Lemma sls_access_first (vregion : list span) (a : SlsAccessorCore.t) (zs : list (span * SequentialRegion)) (off : Z) :
  SlsAccessorCore.vregion_ a = vregion → 0 ≤ off ≤ SlsAccessorCore.data_size_ a →
  Forall (entry_ok vregion (SlsAccessorCore.data_size_ a)) zs →
  SlsAccessorCore.access_first a zs.*2 off =
  match omap entry_replica zs with r :: _ => Ok (r off) | [] => Err InvalidArguments end.
Proof.
  intros Ev Hoff HF. induction HF as [|[v sreg] zs He HF IH]; [done|].
  unfold entry_ok in He. cbn [fst snd fmap list_fmap SlsAccessorCore.access_first omap list_omap].
  unfold entry_replica at 1. cbn [fst snd] in *. destruct (location sreg) as [loc|]; [|exact IH].
  destruct He as (Hv & _ & Hs & He & Hb & Hbe). unfold SlsAccessorCore.rank_pointer. rewrite Ev, Hv. cbn [rbind].
  unfold InterleavedPointer.plus. rewrite add_assign_get.
  destruct (rank_pointer_wf loc (start sreg) (span_begin v) (SlsAccessorCore.data_size_ a) ltac:(lia)
    ltac:(lia) ltac:(lia)) as [_ ->]. done.
Qed.

Section copies.
Context (vregion : list span) (n : Z) (Hn : 0 ≤ n < 2 ^ 62) (Htp : RankInterleavingSize tp = 2 ^ HA_BIT_POS).

Lemma store_entries (a : SlsAccessorCore.t) (v k off : Z) (zs : list (span * SequentialRegion)) : ∀ m,
  SlsAccessorCore.vregion_ a = vregion → 0 ≤ v < 2 ^ 64 → 0 ≤ off → 0 ≤ k → off + k ≤ n →
  Forall (entry_ok vregion n) zs →
  rfold (fun m sreg =>
    match location sreg with
    | Some loc =>
        let! iptr := SlsAccessorCore.rank_pointer a sreg loc in
        let! (_, m) := of_option OutOfFuel (CopyTo.memcpy_interleaved (copy_fuel k) tp m v k
                                              (InterleavedPointer.plus iptr off)) in
        Ok m
    | None => Ok m
    end) m zs.*2 = Ok (copy_replicas m v (omap entry_replica zs) off k).
Proof.
  intros m Ev Hv Hoff Hk Hle HF. revert m. induction HF as [|[u sreg] zs He HF IH]; intros m; [done|].
  unfold entry_ok in He. cbn [fst snd fmap list_fmap rfold omap list_omap].
  unfold entry_replica at 1. cbn [fst snd] in *. destruct (location sreg) as [loc|]; [|cbn [rbind]; apply IH].
  destruct He as (Hu & _ & Hs & He & Hb & Hbe). unfold SlsAccessorCore.rank_pointer at 1. rewrite Ev, Hu. cbn [rbind].
  rewrite (rank_copy_to loc (start sreg) (span_begin u) n) by (done || lia). cbn [of_option rbind].
  rewrite IH. done.
Qed.

Lemma to_entries (h k : Z) (zs : list (span * SequentialRegion)) : ∀ m c,
  0 ≤ h < 2 ^ 64 → 0 ≤ k ≤ n → Forall (entry_ok vregion n) zs →
  rfold (fun s z =>
    if view_empty z.1 then Ok s
    else match location z.2 with
         | None => Ok s
         | Some loc =>
             let! (copied, m) := of_option OutOfFuel
               (CopyTo.memcpy_interleaved (copy_fuel k) tp s.1 h k
                  (make_interleaved_pointer loc (start z.2) (span_begin z.1))) in
             Ok (m, copied)
         end) (m, c) zs =
  Ok (copy_replicas m h (omap entry_replica zs) 0 k, match omap entry_replica zs with [] => c | _ => k end).
Proof.
  intros m c Hh Hk HF. revert m c. induction HF as [|[u sreg] zs He HF IH]; intros m c; [done|].
  unfold entry_ok in He. cbn [fst snd rfold omap list_omap].
  change (entry_replica (u, sreg)) with
    (match location sreg with Some loc => Some (rank_replica loc sreg u) | None => None end).
  cbn [fst snd] in *. destruct (location sreg) as [loc|].
  - destruct He as (Hu & Hz & Hs & He & Hb & Hbe). unfold view_empty at 1. rewrite (proj2 (Z.eqb_neq _ _) Hz).
    rewrite <- (add_assign_0 (make_interleaved_pointer loc (start sreg) (span_begin u)))
      by (eapply (rank_pointer_wf _ _ _ n); lia).
    fold (InterleavedPointer.plus (make_interleaved_pointer loc (start sreg) (span_begin u)) 0).
    rewrite (rank_copy_to loc (start sreg) (span_begin u) n) by (done || lia). cbn [of_option rbind]. rewrite IH. unfold copy_replicas. cbn [fold_left].
    by destruct (omap entry_replica zs).
  - unfold view_empty at 1. rewrite He. cbn [Z.eqb rbind]. apply IH.
Qed.

Lemma from_entries (h : Z) (zs : list (span * SequentialRegion)) (m : memory) :
  0 ≤ h < 2 ^ 64 → Forall (entry_ok vregion n) zs →
  AxdimmTransferManager.copy_first tp zs.*1 zs.*2 (mkSpan h n) m =
  Ok (match omap entry_replica zs with
      | r :: _ => (copy_bytewise m r (linear h) 0 (Z.to_nat n), n)
      | [] => (m, 0)
      end).
Proof.
  intros Hh HF. induction HF as [|[u sreg] zs He HF IH]; [done|].
  unfold entry_ok in He. cbn [fst snd fmap list_fmap AxdimmTransferManager.copy_first omap list_omap head tail
    of_option rbind span_size span_begin]. unfold entry_replica at 1. cbn [fst snd] in *.
  destruct (location sreg) as [loc|].
  - destruct He as (Hu & Hz & Hs & He & Hb & Hbe). unfold view_empty at 1. rewrite (proj2 (Z.eqb_neq _ _) Hz).
    rewrite (rank_copy_from loc (start sreg) (span_begin u) n) by (done || lia). done.
  - unfold view_empty at 1. rewrite He. exact IH.
Qed.
End copies.

(** The view of a sub-region has the size of its system addresses and does not leave
    its mapping. *)
Definition entry_covered (n : Z) (z : span * SequentialRegion) (d : span) : Prop :=
  match location z.2 with
  | None => True
  | Some loc => within z.1 d ∧
      span_size z.1 = system_offset (start z.2 + n) (cunit_to_ha loc) - system_offset (start z.2) (cunit_to_ha loc)
  end.

Definition entry_mapping (zd : span * SequentialRegion * span) : option span :=
  match location zd.1.2 with
  | Some _ => Some zd.2
  | None => None
  end.

Lemma entries_mapped (vregion : list span) (n : Z) (zs : list (span * SequentialRegion)) (ds : list span) :
  0 ≤ n → Forall (entry_ok vregion n) zs → Forall2 (entry_covered n) zs ds →
  Forall2 (fun r d => ∀ i, 0 ≤ i < n → in_span d (r i)) (omap entry_replica zs) (omap entry_mapping (zip zs ds)).
Proof.
  intros Hn HF Hc. induction Hc as [|[v sreg] d zs ds Hz Hc IH]; [constructor|].
  apply Forall_cons in HF as [He HF]. specialize (IH HF). cbn [zip_with omap list_omap].
  unfold entry_replica at 1, entry_mapping at 1. unfold entry_ok in He. unfold entry_covered in Hz. cbn [fst snd] in *.
  destruct (location sreg) as [loc|]; [|exact IH]. constructor; [|exact IH].
  destruct He as (_ & _ & Hs & He & Hb & Hbe), Hz as [[Hd1 Hd2] Hz]. intros i Hi. unfold in_span, rank_replica.
  assert (span_begin v ≤ rank_replica loc sreg v i < span_begin v + span_size v)
    by (apply (rank_in_view loc (start sreg) (span_begin v) n); done || lia). unfold rank_replica in *. lia.
Qed.

#[program] Definition sls_access : DeviceAccess SlsAccessorCore.t (A := sls_core tp) (axdimm_manager tp) := {|
  usable := sls_usable;
  replicas := sls_replicas;
  aligned a w := 0 < w ∧ (w | 2 ^ 8) ∧ Forall (fun sreg => (w | start sreg)) (SlsAccessorCore.region_ a);
  mappings a := omap entry_mapping (zip (entries a) (SlsAccessorCore.vregion_data_ a));
  covered a := Forall2 (entry_covered (SlsAccessorCore.data_size_ a)) (entries a) (SlsAccessorCore.vregion_data_ a)
|}.
Next Obligation. intros a Ha. pose proof (su_size a Ha). cbn. lia. Qed.
Next Obligation.
  intros a off sz Ha Hoff. cbn in *. unfold SlsAccessorCore.access.
  destruct (entries_fst_snd a (su_length a Ha)) as [_ E2]. rewrite <- E2.
  apply (sls_access_first (SlsAccessorCore.vregion_ a)); [done|lia|apply Ha].
Qed.
Next Obligation.
  intros a v n off m Ha Hv Hoff Hn Hle. cbn in *. unfold SlsAccessorCore.store.
  destruct (entries_fst_snd a (su_length a Ha)) as [_ E2]. rewrite <- E2.
  eapply (store_entries (SlsAccessorCore.vregion_ a) (SlsAccessorCore.data_size_ a)); try done; apply Ha.
Qed.
Next Obligation.
  intros a h n m Ha Hh Hn. cbn in *. unfold AxdimmTransferManager.copy_to_device. cbn [get_virtual_ranked get_ranked rbind].
  erewrite rfold_entries; [|apply Ha|].
  - apply (to_entries (SlsAccessorCore.vregion_ a) (SlsAccessorCore.data_size_ a)); try done; apply Ha.
  - intros [m0 c] i v sreg Hv Hs. rewrite Hv, Hs. cbn [rbind fst snd span_size span_begin].
    by destruct (view_empty v).
Qed.
Next Obligation.
  intros a h m Ha Hh. cbn in *. unfold AxdimmTransferManager.copy_from_device. cbn [get_virtual_ranked get_ranked rbind].
  destruct (entries_fst_snd a (su_length a Ha)) as [E1 E2]. rewrite <- E1, <- E2 at 1.
  apply (from_entries (SlsAccessorCore.vregion_ a)); try done; apply Ha.
Qed.
Next Obligation.
  intros a r i j Ha Hr Hi Hj. cbn in *. destruct (replica_entry a r Ha Hr) as (loc & v & sreg & -> & _ & _ & H).
  apply (rank_inj loc (start sreg) (span_begin v) (SlsAccessorCore.data_size_ a)); lia.
Qed.
Next Obligation.
  intros a w r i j Ha (Hw & H8 & HF) Hr Hi Hj Hle. cbn in *.
  destruct (replica_entry a r Ha Hr) as (loc & v & sreg & -> & Hin & _ & H).
  apply (rank_element loc (start sreg) (span_begin v) (SlsAccessorCore.data_size_ a)); try lia; [done|].
  apply (proj1 (Forall_forall _ _) HF). unfold entries in Hin. by apply elem_of_zip_r in Hin.
Qed.
Next Obligation. intros a Ha Hc. eapply entries_mapped; [apply Ha|apply Ha|done]. Qed.
End sls.

(** ** Copies to all replicas *)
Section theorems.
Context {C : Type} {A : AccessorCore C} {manager : TransferManager} {L : DeviceAccess C manager}.

(** The replicas of a region share no byte. *)
Definition replicas_apart (a : C) : Prop := ∀ j k r r' i i',
  replicas a !! j = Some r → replicas a !! k = Some r' → j ≠ k →
  0 ≤ i < bytes_impl a → 0 ≤ i' < bytes_impl a → r i ≠ r' i'.

(** A host buffer of [n] bytes is in memory and apart from the region. *)
Definition host_buffer (a : C) (h n : Z) : Prop :=
  0 ≤ h ∧ h + n < 2 ^ 64 ∧
  ∀ r i x, r ∈ replicas a → 0 ≤ i < bytes_impl a → h ≤ x < h + n → r i ≠ x.

Lemma host_linear (a : C) (h n i : Z) : host_buffer a h n → 0 ≤ i < n → linear h i = h + i.
Proof. intros (H1 & H2 & _) Hi. unfold linear. apply u64_small. lia. Qed.

(** A copy of the first [n] bytes from [off] to all replicas. *)
Lemma device_copy_spec (a : C) (h off n : Z) (m : memory) :
  usable a → replicas_apart a → host_buffer a h n → 0 ≤ off → 0 ≤ n → off + n ≤ bytes_impl a →
  let m' := copy_replicas m h (replicas a) off n in
  (∀ r i, r ∈ replicas a → 0 ≤ i < n → m' (r (off + i)) = m (h + i)) ∧
  (∀ x, (∀ r i, r ∈ replicas a → 0 ≤ i < n → x ≠ r (off + i)) → m' x = m x).
Proof.
  intros Hu Hap Hh Hoff Hn Hle m'. split.
  - intros r i Hr Hi. apply list_elem_of_lookup_1 in Hr as [k Hk].
    rewrite <- (host_linear a h n i Hh Hi). eapply copy_replicas_hit; try done.
    + intros r' Hr' x y Hx Hy E. apply (da_inj a r' (off + x) (off + y) Hu Hr') in E; lia.
    + intros r' Hr' x Hx (y & Hy & E). rewrite (host_linear a h n x Hh Hx) in E.
      apply (proj2 (proj2 Hh) r' (off + y) (h + x) Hr'); lia.
    + intros j k' r1 r2 H1 H2 Hne x Hx (y & Hy & E). exact (Hap j k' r1 r2 (off + x) (off + y) H1 H2 Hne ltac:(lia) ltac:(lia) E).
  - intros x Hx. apply copy_replicas_frame. intros r Hr (i & Hi & ->). by apply (Hx r i Hr Hi).
Qed.
End theorems.

(** ** Iteration over an accessor *)
Section iteration_proofs.
Context {C : Type} {A : AccessorCore C} {manager : TransferManager} {L : DeviceAccess C manager} (w : Z) (Hw : 0 < w).

Lemma iterate_reads (self : Z) (a : C) (r : Z → Z) (rs : list (Z → Z)) (m : memory) :
  usable a → replicas a = r :: rs → bytes_impl a mod w = 0 → ∀ n i fuel,
  accessor_size w a = i + Z.of_nat n → 0 ≤ i → (n < fuel)%nat →
  iterate w fuel a (Iterator.mk self i) (accessor_end w self a) m =
  Ok ((fun k => load m (r (k * w)) (Z.to_nat w)) <$> (Z.of_nat <$> seq (Z.to_nat i) n)).
Proof.
  intros Hu Hr Hm. pose proof (da_bytes a Hu) as Hb. unfold accessor_end, accessor_size.
  assert (Hsz : bytes_impl a = bytes_impl a / w * w) by dlia.
  induction n as [|n IH]; intros i [|fuel] Hs Hi Hf; try lia; cbn [iterate];
    unfold Iterator.neq, Iterator.base_, Iterator.current_index_; rewrite Z.eqb_refl; cbn [andb].
  - rewrite (proj2 (Z.eqb_eq i _)) by lia. done.
  - rewrite (proj2 (Z.eqb_neq i _)) by lia. cbn [negb]. unfold Iterator.deref, Iterator.incr, accessor_at. cbn.
    rewrite (u64_small (i * w)) by nia. rewrite da_access by (done || nia). rewrite Hr. cbn [rbind].
    rewrite (u64_small (i + 1)) by nia. rewrite IH by lia. cbn [rbind].
    cbn [seq fmap list_fmap]. rewrite Z2Nat.id by lia. by replace (S (Z.to_nat i)) with (Z.to_nat (i + 1)) by lia.
Qed.
End iteration_proofs.

(** ** Accessors of sequential regions and of channels *)
Lemma ldiff_land_add (x m : Z) : Z.ldiff x m + Z.land x m = x.
Proof.
  rewrite <- lor_disjoint_add; [apply Z.lor_ldiff_and|].
  apply Z.bits_inj'. intros k Hk. rewrite !Z.land_spec, Z.ldiff_spec, Z.bits_0.
  by destruct (Z.testbit x k), (Z.testbit m k).
Qed.

Lemma ldiff_ge (x m : Z) : 0 ≤ m → x - m ≤ Z.ldiff x m.
Proof.
  intros Hm. pose proof (ldiff_land_add x m). pose proof (ldiff_land_add m x).
  rewrite (Z.land_comm m x) in *. pose proof (proj2 (Z.ldiff_nonneg m x) (or_introl Hm)). lia.
Qed.

(** Rounding up does not make a length shorter. *)
Lemma fast_align_up_ge (v al len : Z) :
  0 ≤ v → 0 < al → v + al ≤ 2 ^ 64 → fast_align_up v al = Ok len → v ≤ len.
Proof.
  intros Hv Hal Hle. unfold fast_align_up. destruct (_ && _); [|done]. cbn [assert rbind]. intros [= <-].
  rewrite (u64_small (v + al - 1)), (u64_small (al - 1)), land_u64_lnot by lia.
  pose proof (ldiff_ge (v + al - 1) (al - 1) ltac:(lia)). lia.
Qed.
Lemma sequential_make_usable (f : device_file) (r : SequentialRegion) (align : Z)
    (a : SequentialAccessorCore.t) :
  0 ≤ size r < 2 ^ 63 → 0 ≤ dev f + start r < 2 ^ 64 → dev f + start r + size r ≤ 2 ^ 64 →
  SequentialAccessorCore.make f (Sequential r) align = Ok a →
  usable (DeviceAccess := sequential_access) a ∧ bytes_impl a = size r ∧
  replicas (DeviceAccess := sequential_access) a = [linear (dev f + start r)] ∧
  (0 < align → size r + align ≤ 2 ^ 64 → covered (DeviceAccess := sequential_access) a).
Proof.
  intros Hs Hd He Hm. unfold SequentialAccessorCore.make, MappedData in Hm. cbn [get_sequential rbind] in Hm.
  destruct (fast_align_up (size r) align) as [len|] eqn:El; [|done]. cbn [rbind] in Hm.
  destruct (mmap f len (start r)); [|done]. cbn [rbind] in Hm.
  destruct (start r mod align =? 0); [|done]. injection Hm as <-.
  cbn. unfold view_ok. cbn. rewrite u64_small by lia.
  split; [lia|]. split; [done|]. split; [done|]. intros Hal Hle. split; cbn; [lia|].
  pose proof (fast_align_up_ge _ _ _ (proj1 Hs) Hal Hle El). lia.
Qed.

Section channels.
Context (f : device_file) (n : Z).

Definition channel_ok (i : nat) (sreg : SequentialRegion) : Prop :=
  location sreg = None ∨
  location sreg = Some (Z.of_nat i) ∧ size sreg = n ∧ 0 ≤ start sreg ∧
  ∃ o, mem_info f !! i = Some o ∧ 0 ≤ o ∧ 0 ≤ dev f ∧ dev f + start sreg + o + n ≤ 2 ^ 64.

Lemma init_channels_at (offsets : list Z) (todo : list SequentialRegion) :
  ∀ (k : nat) (ds : Z) (vs maps : list span) (s : Z * list span * list span),
  0 < n < 2 ^ 63 → (∀ i o, offsets !! i = Some o → mem_info f !! i = Some o) →
  (∀ i sreg, todo !! i = Some sreg → channel_ok (k + i) sreg) →
  ds = 0 ∨ ds = n → Forall (fun v => span_size v = 0 ∨ view_ok n v ∧ ds = n) vs →
  Forall2 within vs maps →
  rfold (ChannelAccessorCore.init_channel f offsets) (ds, vs, maps) todo = Ok s →
  (s.1.1 = 0 ∨ s.1.1 = n) ∧ Forall (fun v => span_size v = 0 ∨ view_ok n v ∧ s.1.1 = n) s.1.2 ∧
  Forall2 within s.1.2 s.2.
Proof.
  induction todo as [|sreg todo IH]; intros k ds vs maps s Hn Hoff Hok Hds HF Hin.
  { intros [= <-]. done. }
  cbn [rfold]. destruct (ChannelAccessorCore.init_channel f offsets (ds, vs, maps) sreg) as [s1|e] eqn:E1; [|done].
  cbn [rbind]. pose proof (Hok 0%nat sreg eq_refl) as Hok0. rewrite Nat.add_0_r in Hok0.
  assert (Hnext : ∀ i sr, todo !! i = Some sr → channel_ok (S k + i) sr).
  { intros i sr Hi. pose proof (Hok (S i) sr Hi) as H. by replace (S k + i)%nat with (k + S i)%nat by lia. }
  revert E1. unfold ChannelAccessorCore.init_channel at 1.
  destruct Hok0 as [->|(-> & Hsz & Hst & o & Ho & Ho0 & Hd & He)].
  - intros [= <-]. apply (IH (S k)); try done; [apply Forall_app; split; [done|]; by repeat constructor|].
    apply Forall2_app; [done|]. repeat constructor; done.
  - destruct (fast_align_up _ _) as [len|] eqn:El; [|done]. cbn [rbind].
    destruct (vec_at offsets (Z.of_nat k)) as [o'|] eqn:Eo; [|done]. cbn [rbind].
    apply vec_at_Ok in Eo as [_ Eo]. rewrite Nat2Z.id in Eo. apply Hoff in Eo. rewrite Ho in Eo. injection Eo as <-.
    unfold MappedData. destruct (mmap f _ _); [|done]. cbn [rbind]. intros [= <-]. rewrite Hsz.
    apply (IH (S k)); try done; [by right|apply Forall_app; split|apply Forall2_app; [done|]].
    3: { repeat constructor; [done|]. cbn. assert (size sreg ≤ len); [|lia].
         apply (fast_align_up_ge _ ChannelAccessorCore.page_size); [lia|done| |done].
         change ChannelAccessorCore.page_size with (2 ^ 21). lia. }
    + eapply Forall_impl; [exact HF|]. intros v [H|[H _]]; tauto.
    + constructor; [|constructor]. right. split; [|done]. unfold view_ok. cbn [span_begin span_size].
      rewrite (u64_small (start sreg + o)) by lia. rewrite u64_small by lia. lia.
Qed.

Lemma channel_make_usable (regions : list SequentialRegion) (a : ChannelAccessorCore.t) :
  0 < n < 2 ^ 63 → (∀ i sreg, regions !! i = Some sreg → channel_ok i sreg) →
  ChannelAccessorCore.make f (RankedRegion regions) = Ok a →
  usable (DeviceAccess := channel_access) a ∧ covered (DeviceAccess := channel_access) a.
Proof.
  intros Hn Hok. unfold ChannelAccessorCore.make. cbn [get_ranked rbind].
  destruct (rfold _ [] (range _)) as [offsets|e] eqn:Eo; [|done]. cbn [rbind].
  assert (Hoff : ∀ i o, offsets !! i = Some o → mem_info f !! i = Some o).
  { assert (G : ∀ k l, rfold (fun l i => let! o := vec_at (mem_info f) i in Ok (l ++ [o])) [] (range (Z.of_nat k)) = Ok l →
      length l = k ∧ ∀ i o, l !! i = Some o → mem_info f !! i = Some o).
    { induction k as [|k IH]; intros l; [by intros [= <-]|].
      replace (Z.of_nat (S k)) with (Z.of_nat k + 1) by lia. rewrite range_succ, rfold_app by lia.
      destruct (rfold _ [] (range (Z.of_nat k))) as [l0|]; [|done]. cbn [rbind rfold].
      destruct (vec_at (mem_info f) (Z.of_nat k)) as [o|] eqn:Ek; [|done]. cbn [rbind]. intros [= <-].
      destruct (IH l0 eq_refl) as [Hl Hat]. apply vec_at_Ok in Ek as [_ Ek]. rewrite Nat2Z.id in Ek.
      split; [rewrite length_app; cbn; lia|]. intros i x Hi. apply lookup_app_Some in Hi as [Hi|[Hge Hi]]; [by apply Hat|].
      destruct (i - length l0)%nat as [|q] eqn:Eq; [|done]. injection Hi as <-. by replace i with k by lia. }
    exact (proj2 (G _ _ Eo)). }
  destruct (rfold _ (0, [], []) regions) as [s|e] eqn:E; [|done]. cbn [rbind]. destruct s as [[ds vs] maps].
  destruct (init_channels_at offsets regions 0 0 [] [] (ds, vs, maps) Hn Hoff Hok ltac:(by left) ltac:(constructor)
    ltac:(constructor) E) as (Hds & HF & Hin).
  intros [= <-]. cbn [fst snd] in *. split; [|done]. split; cbn [ChannelAccessorCore.data_size_]; [lia|].
  unfold channel_views. cbn [ChannelAccessorCore.virtual_region_]. apply Forall_forall. intros v Hv.
  apply list_elem_of_filter in Hv as [Hv Hel]. destruct (proj1 (Forall_forall _ _) HF v Hel) as [H|[H ->]]; [|done].
  unfold view_empty in Hv. by rewrite H in Hv.
Qed.
End channels.

(** ** Accessors of allocated ranks *)
Section make.
Context (tp : Constants) (f : device_file) (n : Z).

(** A sub-region of rank [i] as the allocator returns it, in the mapped part of the
    device file. *)
Definition rank_ok (i : nat) (sreg : SequentialRegion) : Prop :=
  location sreg = None ∨
  location sreg = Some (Z.of_nat i) ∧ size sreg = n ∧ 0 ≤ start sreg ∧
  ∃ o, mem_info f !! i = Some o ∧ 0 ≤ o ∧ dev f + o + 2 * (start sreg + n) + 2 ^ 12 ≤ 2 ^ 64.

Record ranks_ok (regions : list SequentialRegion) : Prop := {
  ro_size : 0 < n < 2 ^ 62;
  ro_dev : 2 ^ 10 ≤ dev f;
  ro_ranks : ∀ i sreg, regions !! i = Some sreg → rank_ok i sreg
}.

(** The view of a sub-region starts at the system address of its first byte. *)
Definition view_at (i : nat) (sreg : SequentialRegion) (v : span) : Prop :=
  match location sreg with
  | None => v = mkSpan 0 0
  | Some _ => ∃ o, mem_info f !! i = Some o ∧ span_size v ≠ 0 ∧
      span_begin v = dev f + o + system_offset (start sreg) (cunit_to_ha (Z.of_nat i))
  end.

(** The system addresses from the first byte of a sub-region to its end. *)
Definition system_size (i : nat) (sreg : SequentialRegion) : Z :=
  system_offset (start sreg + n) (cunit_to_ha (Z.of_nat i)) - system_offset (start sreg) (cunit_to_ha (Z.of_nat i)).

(** The mapping of the view: whole pages from the page of the first byte, as many as
    the size of the view needs. *)
Definition mapping_at (i : nat) (sreg : SequentialRegion) (v d : span) : Prop :=
  match location sreg with
  | None => d = MappedData_empty
  | Some _ => ∃ o, mem_info f !! i = Some o ∧ span_size v = system_size i sreg ∧
      d = mkSpan (span_begin v - (o + system_offset (start sreg) (cunit_to_ha (Z.of_nat i))) mod 2 ^ 12)
            ((system_size i sreg + (2 ^ 12 - 1)) / 2 ^ 12 * 2 ^ 12)
  end.

(** The pages that a view needs are enough for it also where it starts in its first
    page. *)
Definition ranks_covered (regions : list SequentialRegion) : Prop :=
  ∀ i sreg o, regions !! i = Some sreg → location sreg ≠ None → mem_info f !! i = Some o →
    (o + system_offset (start sreg) (cunit_to_ha (Z.of_nat i))) mod 2 ^ 12 + system_size i sreg ≤
    (system_size i sreg + (2 ^ 12 - 1)) / 2 ^ 12 * 2 ^ 12.

Lemma system_offset_bound (ra ha : Z) : 0 ≤ ra → 0 ≤ system_offset ra ha ≤ 2 * ra + 2 ^ 9.
Proof.
  intros H. unfold system_offset. pose proof (Z.mod_pos_bound (ra / 2 ^ 19 + ha) 2 ltac:(lia)).
  set (h := (ra / 2 ^ 19 + ha) mod 2) in *. clearbody h. dlia.
Qed.

Lemma align_split (x : Z) :
  0 ≤ x < 2 ^ 64 → SlsAccessorCore.aligned_floor x + Z.land x SlsAccessorCore.ALIGN_MASK = x.
Proof.
  intros Hx. unfold SlsAccessorCore.aligned_floor. rewrite land_u64_lnot by done.
  change SlsAccessorCore.ALIGN_MASK with (2 ^ 12 - 1).
  rewrite Z.ldiff_land, land_lnot_ones, (land_ones_mod _ 12) by done. dlia.
Qed.

Lemma aligned_floor_div (x : Z) : 0 ≤ x < 2 ^ 64 → SlsAccessorCore.aligned_floor x = x / 2 ^ 12 * 2 ^ 12.
Proof.
  intros Hx. pose proof (align_split x Hx) as E. change SlsAccessorCore.ALIGN_MASK with (2 ^ 12 - 1) in E.
  rewrite (land_ones_mod _ 12) in E by done. dlia.
Qed.

Lemma aligned_ceil_div (x : Z) :
  0 ≤ x → x + 2 ^ 12 ≤ 2 ^ 64 → SlsAccessorCore.aligned_ceil x = (x + (2 ^ 12 - 1)) / 2 ^ 12 * 2 ^ 12.
Proof.
  intros H0 Hx. unfold SlsAccessorCore.aligned_ceil. change SlsAccessorCore.ALIGN_MASK with (2 ^ 12 - 1).
  rewrite u64_small by lia. apply aligned_floor_div. lia.
Qed.

Lemma init_region_at (i : nat) (sreg : SequentialRegion) (ds : Z) (ms vs : list span) (s : Z * list span * list span) :
  0 < n < 2 ^ 62 → 2 ^ 10 ≤ dev f → rank_ok i sreg → ds = 0 ∨ ds = n →
  SlsAccessorCore.init_region f (ds, ms, vs) sreg = Ok s →
  ∃ d v, s = (match location sreg with None => ds | Some _ => n end, ms ++ [d], vs ++ [v]) ∧
    view_at i sreg v ∧ mapping_at i sreg v d.
Proof.
  intros Hn Hdev Hok Hds. unfold SlsAccessorCore.init_region, view_at, mapping_at, system_size.
  destruct Hok as [->|(-> & Hsz & Hst & o & Ho & Ho0 & Hend)].
  { intros [= <-]. by eexists _, _. }
  rewrite Hsz. replace (if ds =? 0 then n else ds) with n
    by (destruct Hds as [->| ->]; [done|]; by rewrite (proj2 (Z.eqb_neq n 0)) by lia).
  rewrite Z.eqb_refl. cbn [assert rbind]. set (ha := cunit_to_ha (Z.of_nat i)).
  pose proof (cunit_to_ha_range (Z.of_nat i)) as Hha. fold ha in Hha.
  rewrite (proj2 (vec_at_Ok (mem_info f) (Z.of_nat i) o)) by (split; [lia|by rewrite Nat2Z.id]). cbn [rbind].
  rewrite (u64_small (start sreg + n)) by lia.
  rewrite !interleaved_address_exact by lia.
  pose proof (system_offset_bound (start sreg) ha Hst) as Hb1.
  pose proof (system_offset_bound (start sreg + n) ha ltac:(lia)) as Hb2.
  pose proof (system_offset_increases (start sreg) (start sreg + n) ha ltac:(lia)) as Hinc.
  rewrite (u64_small (system_offset (start sreg) ha + o)) by lia.
  rewrite (u64_small (system_offset (start sreg + n) ha - _)) by lia.
  unfold MappedData. destruct (mmap f _ _); [|done]. cbn [rbind]. intros [= <-].
  pose proof (align_split (system_offset (start sreg) ha + o) ltac:(lia)) as Ha.
  assert (Hv : u64 (u64 (dev f + SlsAccessorCore.aligned_floor (system_offset (start sreg) ha + o)) +
    Z.land (system_offset (start sreg) ha + o) SlsAccessorCore.ALIGN_MASK) =
    dev f + o + system_offset (start sreg) ha).
  { rewrite u64_add_l. rewrite <- Z.add_assoc, Ha, u64_small by lia. lia. }
  eexists _, _. split; [done|]. cbn [span_begin span_size]. rewrite Hv. split; exists o; (split; [done|]).
  - split; [lia|done].
  - split; [done|]. rewrite aligned_ceil_div, aligned_floor_div by lia. f_equal.
    rewrite u64_small; [rewrite (Z.add_comm o); dlia|dlia].
Qed.

Lemma init_regions_at (todo : list SequentialRegion) :
  ∀ (k : nat) (ds : Z) (ms vs : list span) (s : Z * list span * list span),
  0 < n < 2 ^ 62 → 2 ^ 10 ≤ dev f → (∀ i sreg, todo !! i = Some sreg → rank_ok (k + i) sreg) →
  ds = 0 ∨ ds = n → rfold (SlsAccessorCore.init_region f) (ds, ms, vs) todo = Ok s →
  ∃ ds' newm new, s = (ds', ms ++ newm, vs ++ new) ∧ length new = length todo ∧ length newm = length todo ∧
    (ds' = 0 ∨ ds' = n) ∧ (ds = n → ds' = n) ∧
    ∀ i d v sreg, newm !! i = Some d → new !! i = Some v → todo !! i = Some sreg →
      view_at (k + i) sreg v ∧ mapping_at (k + i) sreg v d ∧ (location sreg ≠ None → ds' = n).
Proof.
  induction todo as [|sreg todo IH]; intros k ds ms vs s Hn Hdev Hok Hds.
  { intros [= <-]. exists ds, [], []. rewrite !app_nil_r. repeat split; try done. }
  cbn [rfold]. destruct (SlsAccessorCore.init_region f (ds, ms, vs) sreg) as [s1|e] eqn:E1; [|done]. cbn [rbind].
  intros Hr. pose proof (Hok 0%nat sreg eq_refl) as Hok0. rewrite Nat.add_0_r in Hok0.
  destruct (init_region_at k sreg ds ms vs s1 Hn Hdev Hok0 Hds E1) as (d & v & -> & Hv & Hd).
  set (ds1 := match location sreg with None => ds | Some _ => n end) in *.
  destruct (IH (S k) ds1 (ms ++ [d]) (vs ++ [v]) s Hn Hdev)
    as (ds' & newm & new & -> & Hlen & Hlenm & Hds' & Hkeep & Hat).
  { intros i sr Hi. pose proof (Hok (S i) sr Hi) as H. by replace (S k + i)%nat with (k + S i)%nat by lia. }
  { unfold ds1. destruct (location sreg); tauto. }
  { done. }
  exists ds', (d :: newm), (v :: new). split; [by rewrite <- !app_assoc|]. split; [cbn [length]; lia|].
  split; [cbn [length]; lia|]. split; [done|]. split.
  { intros E. apply Hkeep. unfold ds1. by destruct (location sreg). }
  intros [|i] u' u sr Hu' Hu Hs; cbn in Hu', Hu, Hs.
  - injection Hu as ->. injection Hs as ->. injection Hu' as ->. rewrite Nat.add_0_r. split; [done|]. split; [done|].
    intros Hl. apply Hkeep. unfold ds1. by destruct (location sr).
  - pose proof (Hat i u' u sr Hu' Hu Hs) as H. by replace (k + S i)%nat with (S k + i)%nat by lia.
Qed.

(** The accessor of a region is usable, and every replica is at the system addresses
    of its rank. *)
Lemma sls_make_spec (regions : list SequentialRegion) (a : SlsAccessorCore.t) :
  RankInterleavingSize tp = 2 ^ HA_BIT_POS → ranks_ok regions →
  SlsAccessorCore.make f (RankedRegion regions) = Ok a →
  SlsAccessorCore.region_ a = regions ∧ sls_usable tp a ∧
  ∀ i sreg v, regions !! i = Some sreg → SlsAccessorCore.vregion_ a !! i = Some v → view_at i sreg v.
Proof.
  intros Htp [Hn Hdev Hok]. unfold SlsAccessorCore.make. cbn [get_ranked rbind].
  destruct (rfold _ _ regions) as [s|e] eqn:E; [|done]. cbn [rbind].
  destruct (init_regions_at regions 0 0 [] [] s Hn Hdev Hok ltac:(by left) E)
    as (ds & ms & vs & -> & Hlen & Hlenm & Hds & _ & Hat). cbn [app]. intros [= <-].
  assert (Hat' : ∀ i v sreg, vs !! i = Some v → regions !! i = Some sreg →
    view_at i sreg v ∧ (location sreg ≠ None → ds = n)).
  { intros i v sreg Hv Hs. pose proof (lookup_lt_Some _ _ _ Hv).
    destruct (lookup_lt_is_Some_2 ms i ltac:(lia)) as [d Hd]. pose proof (Hat i d v sreg Hd Hv Hs). tauto. }
  cbn [SlsAccessorCore.region_ SlsAccessorCore.vregion_]. split; [done|]. split.
  - split; cbn [SlsAccessorCore.region_ SlsAccessorCore.vregion_ SlsAccessorCore.data_size_]; [done|lia| |done].
    unfold entries. cbn [SlsAccessorCore.region_ SlsAccessorCore.vregion_]. apply Forall_lookup.
    intros i [v sreg] Hz. apply lookup_zip_Some in Hz as [Hv Hs].
    destruct (Hat' i v sreg Hv Hs) as [Hva Hloc]. unfold entry_ok, view_at in *. cbn [fst snd].
    destruct (Hok i sreg Hs) as [El|(El & Hsz & Hst & o & Ho & Ho0 & Hend)]; rewrite El in *; [by subst|].
    rewrite Hloc by done. destruct Hva as (o' & Ho' & Hz & Hb). rewrite Ho in Ho'. injection Ho' as <-.
    pose proof (system_offset_bound (start sreg) (cunit_to_ha (Z.of_nat i)) Hst).
    split; [apply vec_at_Ok; split; [lia|by rewrite Nat2Z.id]|].
    split; [done|]. split; [done|]. rewrite Hb. lia.
  - intros i sreg v Hs Hv. exact (proj1 (Hat' i v sreg Hv Hs)).
Qed.

(** It stays in its mappings exactly where their pages are enough. *)
Lemma sls_make_covered (regions : list SequentialRegion) (a : SlsAccessorCore.t) :
  ranks_ok regions → SlsAccessorCore.make f (RankedRegion regions) = Ok a →
  covered (DeviceAccess := sls_access tp) a ↔ ranks_covered regions.
Proof.
  intros [Hn Hdev Hok]. unfold SlsAccessorCore.make. cbn [get_ranked rbind].
  destruct (rfold _ _ regions) as [s|e] eqn:E; [|done]. cbn [rbind].
  destruct (init_regions_at regions 0 0 [] [] s Hn Hdev Hok ltac:(by left) E)
    as (ds & ms & vs & -> & Hlen & Hlenm & Hds & _ & Hat). cbn [app]. intros [= <-].
  cbn [covered sls_access SlsAccessorCore.data_size_ SlsAccessorCore.vregion_data_]. unfold entries.
  cbn [SlsAccessorCore.region_ SlsAccessorCore.vregion_].
  assert (Hentry : ∀ i v d sreg o, vs !! i = Some v → ms !! i = Some d → regions !! i = Some sreg →
    location sreg ≠ None → mem_info f !! i = Some o →
    entry_covered ds (v, sreg) d ↔
    (o + system_offset (start sreg) (cunit_to_ha (Z.of_nat i))) mod 2 ^ 12 + system_size i sreg ≤
    (system_size i sreg + (2 ^ 12 - 1)) / 2 ^ 12 * 2 ^ 12).
  { intros i v d sreg o Hv Hd Hs Hl Ho. destruct (Hat i d v sreg Hd Hv Hs) as (_ & Hm & Hdsn).
    rewrite (Hdsn Hl). unfold entry_covered, mapping_at, within in *. cbn [fst snd].
    destruct (Hok i sreg Hs) as [El|(El & _)]; [done|]. rewrite El in *. rewrite Nat.add_0_l in Hm.
    destruct Hm as (o' & Ho' & Hsz & ->). rewrite Ho in Ho'. injection Ho' as <-. cbn [span_begin span_size].
    rewrite Hsz. fold (system_size i sreg).
    pose proof (Z.mod_pos_bound (o + system_offset (start sreg) (cunit_to_ha (Z.of_nat i))) (2 ^ 12) ltac:(lia)).
    split; [lia|]. intros Hle. split; [lia|done]. }
  split.
  - intros HF i sreg o Hs Hl Ho. pose proof (lookup_lt_Some _ _ _ Hs).
    destruct (lookup_lt_is_Some_2 vs i ltac:(lia)) as [v Hv]. destruct (lookup_lt_is_Some_2 ms i ltac:(lia)) as [d Hd].
    apply (Hentry i v d sreg o Hv Hd Hs Hl Ho). eapply Forall2_lookup_lr; [exact HF| |exact Hd].
    apply lookup_zip_Some. done.
  - intros Hcov. apply Forall2_same_length_lookup. split; [rewrite length_zip; lia|].
    intros i [v sreg] d Hz Hd. apply lookup_zip_Some in Hz as [Hv Hs].
    destruct (Hok i sreg Hs) as [El|(El & _ & _ & o & Ho & _)]; [by unfold entry_covered; cbn [fst snd]; rewrite El|].
    assert (Hl : location sreg ≠ None) by (by rewrite El).
    apply (Hentry i v d sreg o Hv Hd Hs Hl Ho). exact (Hcov i sreg o Hs Hl Ho).
Qed.
End make.

(** Distinct elements of [omap] come from distinct elements. *)
Lemma omap_pairwise {B D} (g : B → option D) (R : D → D → Prop) (l : list B) :
  (∀ i j x y r r', l !! i = Some x → l !! j = Some y → i ≠ j → g x = Some r → g y = Some r' → R r r') →
  ∀ j k r r', omap g l !! j = Some r → omap g l !! k = Some r' → j ≠ k → R r r'.
Proof.
  induction l as [|x l IH]; intros H j k r r' Hj Hk Hne; [done|].
  assert (Hin : ∀ q s, omap g l !! q = Some s → ∃ i y, l !! i = Some y ∧ g y = Some s).
  { intros q s Hq. apply list_elem_of_lookup_2, list_elem_of_omap in Hq as (y & Hy & Hg).
    apply list_elem_of_lookup_1 in Hy as [i Hi]. by exists i, y. }
  assert (IH' := IH (fun i j x y r r' Hi Hj Hne => H (S i) (S j) x y r r' Hi Hj (fun E => Hne (eq_add_S _ _ E)))).
  cbn [omap list_omap] in Hj, Hk. destruct (g x) as [s|] eqn:E; [|by eapply IH'].
  destruct j as [|j], k as [|k]; cbn in Hj, Hk; [done| | |].
  - injection Hj as <-. destruct (Hin k r' Hk) as (i & y & Hi & Hg). by eapply (H 0%nat (S i)).
  - injection Hk as <-. destruct (Hin j r Hj) as (i & y & Hi & Hg). by eapply (H (S i) 0%nat).
  - eapply IH'; [exact Hj|exact Hk|congruence].
Qed.

(** The ranks of a region: two ranks behind the same offset of the device file have
    different home agents, other ranks have areas of their own. *)
Definition ranks_disjoint (f : device_file) (n : Z) (regions : list SequentialRegion) : Prop :=
  ∀ i j s s' o o', i ≠ j → regions !! i = Some s → regions !! j = Some s' →
    location s ≠ None → location s' ≠ None → mem_info f !! i = Some o → mem_info f !! j = Some o' →
    o = o' ∧ cunit_to_ha (Z.of_nat i) ≠ cunit_to_ha (Z.of_nat j) ∨
    o + 2 * (start s + n) + 2 ^ 9 ≤ o' ∨ o' + 2 * (start s' + n) + 2 ^ 9 ≤ o.

(** The addresses of rank [i]. *)
Definition on_rank (f : device_file) (n : Z) (i : nat) (sreg : SequentialRegion) (r : Z → Z) : Prop :=
  location sreg ≠ None ∧ ∃ o, mem_info f !! i = Some o ∧
    ∀ x, 0 ≤ x < n → r x = dev f + o + system_offset (start sreg + x) (cunit_to_ha (Z.of_nat i)).

Section made.
Context (tp : Constants) (f : device_file) (n : Z) (regions : list SequentialRegion) (a : SlsAccessorCore.t).
Context (Htp : RankInterleavingSize tp = 2 ^ HA_BIT_POS) (Hok : ranks_ok f n regions).
Context (Hmake : SlsAccessorCore.make f (RankedRegion regions) = Ok a).
Let L : DeviceAccess SlsAccessorCore.t (A := sls_core tp) (axdimm_manager tp) := sls_access tp.

Lemma entry_on_rank (i : nat) (v : span) (sreg : SequentialRegion) (r : Z → Z) :
  entries a !! i = Some (v, sreg) → entry_replica (v, sreg) = Some r →
  regions !! i = Some sreg ∧ on_rank f n i sreg r.
Proof.
  destruct (sls_make_spec tp f n regions a Htp Hok Hmake) as (Er & Hu & Hat). unfold entries. rewrite Er.
  intros Hz Hg. apply lookup_zip_Some in Hz as [Hv Hs]. split; [done|].
  pose proof (Hat i sreg v Hs Hv) as Hva. destruct Hok as [Hn Hdev Hranks].
  unfold entry_replica, view_at in *. cbn [fst snd] in *.
  destruct (Hranks i sreg Hs) as [El|(El & Hsz & Hst & o & Ho & Ho0 & Hend)]; rewrite El in *; [done|].
  injection Hg as <-. split; [by rewrite El|]. exists o. split; [done|].
  destruct Hva as (o' & Ho' & _ & Hb). rewrite Ho in Ho'. injection Ho' as <-. intros x Hx. unfold rank_replica.
  pose proof (system_offset_bound (start sreg) (cunit_to_ha (Z.of_nat i)) Hst).
  destruct (rank_address (Z.of_nat i) (start sreg) (span_begin v) n ltac:(lia) ltac:(lia) ltac:(lia)
    ltac:(lia) x ltac:(lia)) as [-> _]. rewrite Hb. lia.
Qed.

Lemma made_bytes : bytes_impl (AccessorCore := sls_core tp) a ≤ n.
Proof.
  revert Hmake. unfold SlsAccessorCore.make. cbn [get_ranked rbind].
  destruct (rfold _ _ regions) as [s|e] eqn:E; [|done]. cbn [rbind]. destruct Hok as [Hn Hdev Hranks].
  destruct (init_regions_at f n regions 0 0 [] [] s Hn Hdev Hranks ltac:(by left) E)
    as (ds & ms & vs & -> & _ & _ & Hds & _).
  intros [= <-]. cbn. lia.
Qed.

Lemma made_apart : ranks_disjoint f n regions → replicas_apart (L := L) a.
Proof.
  intros Hdis. pose proof made_bytes as Hby. intros j k r r' x x' Hj Hk Hne Hx Hx'.
  revert j k r r' Hj Hk Hne x x' Hx Hx'. cbn [replicas L sls_access]. unfold sls_replicas.
  apply (omap_pairwise entry_replica (fun r r' => ∀ x x', 0 ≤ x < _ → 0 ≤ x' < _ → r x ≠ r' x')).
  intros i j [v s] [v' s'] r r' Hi Hj Hne Hg Hg' x x' Hx Hx' E.
  destruct (entry_on_rank i v s r Hi Hg) as (Hs & Hl & o & Ho & Hr).
  destruct (entry_on_rank j v' s' r' Hj Hg') as (Hs' & Hl' & o' & Ho' & Hr').
  rewrite Hr, Hr' in E by lia. destruct Hok as [Hn _ Hranks].
  assert (Hst : 0 ≤ start s ∧ 0 ≤ start s').
  { pose proof (Hranks i s Hs) as [H1|H1]; [done|]. pose proof (Hranks j s' Hs') as [H2|H2]; [done|]. lia. }
  pose proof (system_offset_bound (start s + x) (cunit_to_ha (Z.of_nat i)) ltac:(lia)).
  pose proof (system_offset_bound (start s' + x') (cunit_to_ha (Z.of_nat j)) ltac:(lia)).
  destruct (Hdis i j s s' o o' Hne Hs Hs' Hl Hl' Ho Ho') as [[<- Hha]|[Hlt|Hlt]]; [|lia|lia].
  destruct (rank_of_system_offset (start s + x) _ ltac:(lia) (cunit_to_ha_range (Z.of_nat i))) as [_ E1].
  destruct (rank_of_system_offset (start s' + x') _ ltac:(lia) (cunit_to_ha_range (Z.of_nat j))) as [_ E2].
  apply Hha. rewrite <- E1, <- E2. f_equal. lia.
Qed.

(** A host buffer outside of the device's memory. *)
Lemma made_host (h k : Z) :
  0 ≤ h → 0 ≤ k → h + k < 2 ^ 64 → h + k ≤ dev f ∨
    (∀ i s o, regions !! i = Some s → mem_info f !! i = Some o → dev f + o + 2 * (start s + n) + 2 ^ 9 ≤ h) →
  host_buffer (L := L) a h k.
Proof.
  intros Hh Hk Hend Hout. split; [done|]. split; [done|]. pose proof made_bytes as Hby.
  intros r i x Hr Hi Hx. cbn [replicas L sls_access] in Hr.
  apply list_elem_of_omap in Hr as ([v s] & Hin & Hg). apply list_elem_of_lookup_1 in Hin as [q Hq].
  destruct (entry_on_rank q v s r Hq Hg) as (Hs & Hl & o & Ho & Hr). rewrite Hr by lia. destruct Hok as [Hn _ Hranks].
  pose proof (Hranks q s Hs) as [H1|(_ & _ & Hst & o' & Ho' & Ho0 & _)]; [done|].
  rewrite Ho in Ho'. injection Ho' as <-.
  pose proof (system_offset_bound (start s + i) (cunit_to_ha (Z.of_nat q)) ltac:(lia)).
  destruct Hout as [Hlt|Hout]; [lia|]. pose proof (Hout q s o Hs Ho). lia.
Qed.
End made.

(** Four ranks behind two offsets of the device file; ranks 0, 1 and 2 hold a replica. *)
Definition sample_file : device_file := mkFile (2 ^ 40) (fun _ _ => true) [0; 0; 2 ^ 36; 2 ^ 36].

Definition sample_ranks : list SequentialRegion :=
  [mkRegion 4096 2304 (Some 0) 0; mkRegion 524032 2304 (Some 1) 0; mkRegion 256 2304 (Some 2) 0; empty_region].

Definition sample_accessor : SlsAccessorCore.t :=
  match SlsAccessorCore.make sample_file (RankedRegion sample_ranks) with
  | Ok a => a
  | Err _ => SlsAccessorCore.mk [] 0 [] []
  end.

Lemma sample_made : SlsAccessorCore.make sample_file (RankedRegion sample_ranks) = Ok sample_accessor.
Proof. vm_compute. reflexivity. Qed.

Lemma sample_rank_cases (i : nat) (s : SequentialRegion) :
  sample_ranks !! i = Some s →
  i = 0%nat ∧ s = mkRegion 4096 2304 (Some 0) 0 ∨ i = 1%nat ∧ s = mkRegion 524032 2304 (Some 1) 0 ∨
  i = 2%nat ∧ s = mkRegion 256 2304 (Some 2) 0 ∨ i = 3%nat ∧ s = empty_region.
Proof. destruct i as [|[|[|[|i]]]]; intros [= <-]; auto 10. Qed.

Lemma sample_ranks_ok : ranks_ok sample_file 2304 sample_ranks.
Proof.
  split; [lia|cbn; lia|]. intros i s Hs.
  destruct (sample_rank_cases i s Hs) as [[-> ->]|[[-> ->]|[[-> ->]|[-> ->]]]]; [right..|by left];
    (split; [reflexivity|]; split; [reflexivity|]; split; [cbn; lia|]);
    eexists; (split; [reflexivity|]); cbn; lia.
Qed.

Lemma sample_ranks_covered : ranks_covered sample_file 2304 sample_ranks.
Proof.
  intros i s o Hs Hl Ho. destruct (sample_rank_cases i s Hs) as [[-> ->]|[[-> ->]|[[-> ->]|[-> ->]]]]; try done;
    injection Ho as <-; vm_compute; congruence.
Qed.

(** A sub-region of 1024 bytes that starts at the end of a page needs a part of two
    pages, but one page is mapped: the view leaves its mapping. *)
Definition short_ranks : list SequentialRegion := [mkRegion 524032 1024 (Some 0) 0].

Lemma short_mapping : ∃ a,
  SlsAccessorCore.make sample_file (RankedRegion short_ranks) = Ok a ∧
  ¬ covered (DeviceAccess := sls_access sample_topology) a.
Proof.
  eexists. split; [vm_compute; reflexivity|].
  rewrite (sls_make_covered sample_topology sample_file 1024 short_ranks); [| |vm_compute; reflexivity].
  - intros Hc. specialize (Hc 0%nat _ 0 eq_refl ltac:(done) eq_refl). vm_compute in Hc. by apply Hc.
  - split; [lia|cbn; lia|]. intros [|i] s [= <-]. right. split; [reflexivity|]. split; [reflexivity|].
    split; [cbn; lia|]. eexists. split; [reflexivity|]. cbn. lia.
Qed.

Lemma sample_ranks_disjoint : ranks_disjoint sample_file 2304 sample_ranks.
Proof.
  intros i j s s' o o' Hne Hs Hs' Hl Hl' Ho Ho'.
  destruct (sample_rank_cases i s Hs) as [[-> ->]|[[-> ->]|[[-> ->]|[-> ->]]]];
    destruct (sample_rank_cases j s' Hs') as [[-> ->]|[[-> ->]|[[-> ->]|[-> ->]]]]; try done;
    injection Ho as <-; injection Ho' as <-;
    first [left; split; [reflexivity|vm_compute; congruence]|right; cbn; lia].
Qed.

Lemma sample_replicas : sls_replicas sample_accessor ≠ [].
Proof.
  assert (E : omap (fun z : span * SequentialRegion => location z.2) (entries sample_accessor) = [0; 1; 2])
    by (vm_compute; reflexivity).
  unfold sls_replicas. destruct (entries sample_accessor) as [|z zs]; [discriminate|]. revert E.
  cbn [omap list_omap]. unfold entry_replica at 1. destruct (location z.2); [discriminate|].
  induction zs as [|y zs IH]; [discriminate|]. cbn [omap list_omap]. unfold entry_replica at 1.
  destruct (location y.2); [discriminate|exact IH].
Qed.

Lemma sample_host (h k : Z) :
  0 ≤ h → 0 ≤ k → h + k ≤ 2 ^ 40 →
  host_buffer (L := sls_access sample_topology) sample_accessor h k.
Proof.
  intros Hh Hk He. apply (made_host sample_topology sample_file 2304 sample_ranks); try done; [|lia|by left].
  exact sample_ranks_ok || exact sample_made.
Qed.

(** A copy to the device and back. *)
Lemma device_copies (C : Type) (A : AccessorCore C) (manager : TransferManager)
    (L : DeviceAccess C manager) (w count host dst : Z) (a : C) (m : memory) :
  usable a → replicas_apart a → replicas a ≠ [] → 0 < w → 0 ≤ count → bytes_impl a = count * w →
  host_buffer a host (count * w) → host_buffer a dst (count * w) →
  ∃ m1 m2,
    copy_to_device w manager host count a m = Ok (m1, count) ∧
    copy_from_device w manager a dst count m1 = Ok (m2, count) ∧
    (∀ r i, r ∈ replicas a → 0 ≤ i < count * w → m2 (r i) = m (host + i)) ∧
    (∀ i, 0 ≤ i < count * w → m2 (dst + i) = m (host + i)) ∧
    (∀ x, ¬ (dst ≤ x < dst + count * w) →
       (∀ r i, r ∈ replicas a → 0 ≤ i < count * w → x ≠ r i) → m2 x = m x).
Proof.
  intros Hu Hap Hne Hw Hc Hb Hh Hd. pose proof (da_bytes a Hu) as Hbytes. rewrite Hb in Hbytes.
  destruct (device_copy_spec a host 0 (count * w) m Hu Hap Hh ltac:(lia) ltac:(lia) ltac:(lia)) as [H1 H2].
  set (m1 := copy_replicas m host (replicas a) 0 (count * w)) in *.
  destruct (replicas a) as [|r0 rs] eqn:Er; [done|].
  set (m2 := copy_bytewise m1 r0 (linear dst) 0 (Z.to_nat (count * w))).
  assert (Hr0 : r0 ∈ replicas a) by (rewrite Er; left).
  assert (Hl : ∀ i, 0 ≤ i < count * w → linear dst i = dst + i) by (intros; by eapply host_linear).
  assert (Hfr : ∀ x, ¬ (dst ≤ x < dst + count * w) → m2 x = m1 x).
  { intros x Hx. apply copy_bytewise_frame. intros j Hj ->. rewrite Hl in Hx by lia. lia. }
  assert (Hrep : ∀ r i, r ∈ replicas a → 0 ≤ i < count * w → m2 (r i) = m (host + i)).
  { intros r i Hr Hi. rewrite Hfr.
    - rewrite Er in Hr. exact (H1 r i Hr Hi).
    - intros Hx. apply (proj2 (proj2 Hd) r i (r i)); try done; lia. }
  exists m1, m2. split; [|split; [|split; [|split]]].
  - unfold copy_to_device. rewrite (da_to a host (count * w) m Hu); [|destruct Hh; lia|lia].
    rewrite Er. cbn [rbind span_size]. rewrite Z.eqb_refl. cbn [assert rbind]. by rewrite Z.div_mul by lia.
  - unfold copy_from_device, accessor_size. rewrite <- Hb, (da_from a dst m1 Hu); [|destruct Hd; lia].
    rewrite Er, Hb. cbn [rbind]. rewrite Z.div_mul by lia. rewrite u64_small, Z.eqb_refl by lia.
    cbn [assert rbind]. done.
  - by rewrite <- Er.
  - intros i Hi. rewrite <- (Hl i Hi). rewrite <- (H1 r0 i ltac:(left) Hi). rewrite Z.add_0_l.
    apply (copy_bytewise_lookup _ _ r0 (linear dst) 0 i); [| |lia].
    + intros x y Hx Hy E. rewrite !Hl in E by lia. lia.
    + intros x y Hx Hy. rewrite Hl by lia. apply (proj2 (proj2 Hd) r0 x); [done|lia|lia].
  - intros x Hx Hxr. rewrite Hfr by done. apply H2. intros r i Hr Hi. rewrite Z.add_0_l. by apply Hxr.
Qed.

(** ** Theorems *)

(** Property C3.  For every accessor and transfer manager that keep the promises of
    [DeviceAccess], and whose views do not leave their mappings ([covered]):
    [copy_to_device] of a buffer that fills the region and [copy_from_device] into
    another one both report all elements, reproduce the buffer, leave it in every
    replica of the region, and change no other byte.  Every byte of a replica is in
    the mapping of that replica, so the copies touch mapped memory only.  Sequential
    regions and channels always satisfy [covered]; a region of ranks does exactly
    when [ranks_covered] holds, and [short_mapping] is one where it does not. *)
Theorem device_copy_roundtrip (C : Type) (A : AccessorCore C) (manager : TransferManager)
    (L : DeviceAccess C manager) (w count host dst : Z) (a : C) (m : memory) :
  usable a → covered a → replicas_apart a → replicas a ≠ [] → 0 < w → 0 ≤ count → bytes_impl a = count * w →
  host_buffer a host (count * w) → host_buffer a dst (count * w) →
  ∃ m1 m2,
    copy_to_device w manager host count a m = Ok (m1, count) ∧
    copy_from_device w manager a dst count m1 = Ok (m2, count) ∧
    Forall2 (fun r d => ∀ i, 0 ≤ i < count * w → in_span d (r i)) (replicas a) (mappings a) ∧
    (∀ r i, r ∈ replicas a → 0 ≤ i < count * w → m2 (r i) = m (host + i)) ∧
    (∀ i, 0 ≤ i < count * w → m2 (dst + i) = m (host + i)) ∧
    (∀ x, ¬ (dst ≤ x < dst + count * w) →
       (∀ r i, r ∈ replicas a → 0 ≤ i < count * w → x ≠ r i) → m2 x = m x).
Proof.
  intros Hu Hcov Hap Hne Hw Hc Hb Hh Hd.
  destruct (device_copies C A manager L w count host dst a m) as (m1 & m2 & H1 & H2 & H3); try done.
  exists m1, m2. pose proof (da_mapped a Hu Hcov) as Hmap. rewrite Hb in Hmap. tauto.
Qed.

Lemma device_copy_roundtrip_witness : ∃ m1 m2,
  copy_to_device (A := sls_core sample_topology) 4 (axdimm_manager sample_topology) 5000 576 sample_accessor
    (fun x => x mod 251) = Ok (m1, 576) ∧
  copy_from_device (A := sls_core sample_topology) 4 (axdimm_manager sample_topology) sample_accessor 9000 576 m1
    = Ok (m2, 576) ∧ m2 (9000 + 777) = 5777 mod 251.
Proof.
  destruct (device_copy_roundtrip SlsAccessorCore.t (sls_core sample_topology) (axdimm_manager sample_topology)
    (sls_access sample_topology) 4 576 5000 9000 sample_accessor (fun x => x mod 251))
    as (m1 & m2 & H1 & H2 & _ & _ & H3 & _).
  - apply (sls_make_spec sample_topology sample_file 2304 sample_ranks);
      [reflexivity|exact sample_ranks_ok|exact sample_made].
  - apply (sls_make_covered sample_topology sample_file 2304 sample_ranks);
      [exact sample_ranks_ok|exact sample_made|exact sample_ranks_covered].
  - apply (made_apart sample_topology sample_file 2304 sample_ranks);
      [reflexivity|exact sample_ranks_ok|exact sample_made|exact sample_ranks_disjoint].
  - exact sample_replicas.
  - lia.
  - lia.
  - vm_compute. reflexivity.
  - apply sample_host; lia.
  - apply sample_host; lia.
  - exists m1, m2. split; [exact H1|]. split; [exact H2|]. apply H3. lia.
Defined.

(** Storing a value through an accessor and reading it back gives the
    value; every other element keeps its value, in every replica. *)
Theorem accessor_store_at (C : Type) (A : AccessorCore C) (manager : TransferManager)
    (L : DeviceAccess C manager) (w local value index : Z) (a : C) (m : memory) :
  usable a → replicas_apart a → replicas a ≠ [] → aligned a w → 0 < w → 0 ≤ value < 2 ^ (8 * w) →
  0 ≤ index → index * w + w ≤ bytes_impl a → host_buffer a local w →
  ∃ m', accessor_store w local a value index m = Ok m' ∧
    accessor_at w a index m' = Ok value ∧
    (∀ k, k ≠ index → 0 ≤ k → k * w + w ≤ bytes_impl a → accessor_at w a k m' = accessor_at w a k m) ∧
    (∀ r, r ∈ replicas a → load m' (r (index * w)) (Z.to_nat w) = value).
Proof.
  intros Hu Hap Hne Hal Hw Hv Hi Hle Hh. pose proof (da_bytes a Hu) as Hbytes.
  set (m0 := store m local (Z.to_nat w) value). assert (0 ≤ index * w) by nia.
  destruct (device_copy_spec a local (index * w) w m0 Hu Hap Hh ltac:(lia) ltac:(lia) ltac:(lia)) as [H1 H2].
  set (m' := copy_replicas m0 local (replicas a) (index * w) w) in *.
  assert (Hload : ∀ r, r ∈ replicas a → load m' (r (index * w)) (Z.to_nat w) = value).
  { intros r Hr. rewrite (load_shift m0 m' (Z.to_nat w) local).
    - unfold m0. rewrite load_store_same. rewrite Z2Nat.id by lia. by apply Z.mod_small.
    - intros i Hi'. rewrite <- (da_element a w r index i Hu Hal Hr) by lia. apply H1; [done|lia]. }
  assert (Hat : ∀ k mm, 0 ≤ k → k * w + w ≤ bytes_impl a →
    ∃ r, r ∈ replicas a ∧ accessor_at w a k mm = Ok (load mm (r (k * w)) (Z.to_nat w))).
  { intros k mm Hk Hk'. assert (0 ≤ k * w) by nia. unfold accessor_at. rewrite u64_small by lia.
    rewrite (da_access a (k * w) w Hu) by lia. destruct (replicas a) as [|r0 rs]; [done|].
    exists r0. split; [left|done]. }
  exists m'. split; [|split; [|split; [|done]]].
  - unfold accessor_store. fold m0. rewrite u64_small by lia.
    apply (da_store a local w (index * w) m0 Hu); destruct Hh; lia.
  - destruct (Hat index m' Hi Hle) as (r & Hr & ->). by rewrite Hload.
  - intros k Hne' Hk Hk'. assert (0 ≤ k * w) by nia. unfold accessor_at. rewrite u64_small by lia.
    rewrite (da_access a (k * w) w Hu) by lia. destruct (replicas a) as [|r0 rs] eqn:Er; [done|].
    cbn [rbind]. f_equal. assert (Hr0 : r0 ∈ replicas a) by (rewrite Er; left). apply load_ext. intros x Hx.
    assert (Ex : x = r0 (k * w + (x - r0 (k * w)))) by (rewrite (da_element a w r0 k) by (done || lia); lia).
    assert (Hj : 0 ≤ x - r0 (k * w) < w) by lia. set (j := x - r0 (k * w)) in *. clearbody j. subst x.
    rewrite H2.
    + apply store_frame. intros Hx'. apply (proj2 (proj2 Hh) r0 (k * w + j) (r0 (k * w + j))); try done; lia.
    + intros r i Hr Hi'. rewrite <- Er in Hr.
      assert (Hd : k * w + j ≠ index * w + i) by nia. intros E.
      apply list_elem_of_lookup_1 in Hr as [q Hq].
      destruct (decide (q = 0%nat)) as [->|Hq0].
      * rewrite Er in Hq. injection Hq as <-. apply (da_inj a r0 _ _ Hu Hr0) in E; lia.
      * refine (Hap 0%nat q r0 r (k * w + j) (index * w + i) _ Hq ltac:(lia) ltac:(lia) ltac:(lia) E).
        by rewrite Er.
Qed.

