(* ===== verification/SlsRunner.v ===== *)
(** * The reduction runners

    core/operation_runner/reduction/core.h ([ReductionRunner]), cxl_runner.h,
    axdimm_runner.h, and the dispatch of core/context/sls.h: every pack of an
    operation is run on a compute unit that holds its tables, execution by
    execution, and the results are written to the user's buffer.

    The tasks of the packs run on the main thread and on the threads of a pool.
    They are run here one after the other, in an order that is an argument; the
    theorems hold for every order. *)
From S2P Require Import Prelude Topology RankAddress WordMemory DeviceMemory InstGenerator RankMemory ExecutionGenerator TraceGenerator SparseReduction SlsSimulator Allocators SlsDevice.
Import SparseReduction.

(** The vectors on the heap: the trace of a pack's generator and the intermediate
    buffer of the thread that runs the pack. *)
Record buffers := mkBuffers {
  trace_data : Z → Z;
  tmp_data : Z → Z
}.

(** The elements of a [std::vector<uint64_t>] from address [a] on. *)
Fixpoint store_trace (m : memory) (a : Z) (l : list Z) : memory :=
  match l with
  | [] => m
  | w :: l' => store_trace (store m a 8 w) (a + 8) l'
  end.

(** [std::fill_n(p, n, 0)] *)
Definition fill_zero (m : memory) (p : Z) (n : Z) : memory :=
  AxdimmSimulatorCore.memset0 m p (Z.to_nat n).

(** A scope with an automatic object: its destructor runs at the end and when an
    exception passes. *)
Definition with_object {W A} (body : M W A) (destructor : M W unit) : M W A := fun w =>
  match body w with
  | (w', Ok a) => (do! _ := destructor in mret a) w'
  | (w', Err e) =>
      if is_exception e then
        match destructor w' with
        | (w'', Ok _) => (w'', Err e)
        | (w'', Err e') => (w'', Err (if is_exception e' then Aborted else e'))
        end
      else (w', Err e)
  end.

(** A loop over a list. *)
Fixpoint mfold {W A} (f : A → M W unit) (l : list A) : M W unit :=
  match l with
  | [] => mret tt
  | x :: l' => do! _ := f x in mfold f l'
  end.

Section runner.
Context {H K : Type} {HB : SlsMemBlockHandler H} {D : CunitDriver K} {C : ComputeDevice H K}.
Context {G : InstructionGenerator}.
Context (tp : Constants) (bufs : buffers) (fuel : nat).

(** ** core.h *)

(** [dispatch_read_op] *)
Definition dispatch_read_op (output_id compute_unit dst size : Z) : task H K unit :=
  match output_id with
  | 0 => read_buffer tp compute_unit PSUM dst size
  | 1 => read_buffer tp compute_unit TAGS dst size
  | _ => mthrow NotSupported
  end.

Definition read_output_buffers (op : SparseReduction.t G) (compute_unit pack exec_id : Z)
  : task H K unit :=
  do! size := mlift (get_tmp_buffer op pack exec_id) in
  mfold (fun output_id =>
    do! _ := dispatch_read_op output_id compute_unit (tmp_data bufs pack) size in
    on_memory (fun _ h m =>
      let! m := write_result tp op output_id pack exec_id (tmp_data bufs pack) m in Ok (h, m)))
    (range (get_num_outputs op)).

(** The generated trace is in the vector of the pack's generator; the result is
    its number of bytes. *)
Definition generate_trace (op : SparseReduction.t G) (pack compute_unit exec_id : Z)
  : task H K Z :=
  do! g := mlift (generate_instructions op pack compute_unit exec_id) in
  do! _ := on_memory (fun _ h m =>
             Ok (h, store_trace m (trace_data bufs pack) (TraceGenerator.trace_ g))) in
  mret (8 * Z.of_nat (length (TraceGenerator.trace_ g))).

(** [run_operation]: the packs with executions; the first is the main thread's, the
    others are queued.  [0] stands for no pack. *)
Definition plan (op : SparseReduction.t G) : result (Z * list Z) :=
  rfold (fun s pack =>
    let '(pack_for_main_thread, run_queue) := s in
    let! n := get_num_exec_iterations op pack in
    if n =? 0 then Ok s
    else if pack_for_main_thread =? 0 then Ok (pack, run_queue)
    else Ok (pack_for_main_thread, run_queue ++ [pack]))
  (0, []) (RankMemory.pack_identifiers tp).

(** The tasks run in the order [schedule]; every one leaves its result in its
    future. *)
Fixpoint run_pack_tasks (run_on_pack : Z → task H K unit) (schedule : list Z)
  : world H K → world H K * list (Z * result unit) :=
  match schedule with
  | [] => fun w => (w, [])
  | pack :: schedule' => fun w =>
      let (w1, r) := run_on_pack pack w in
      let (w2, rs) := run_pack_tasks run_on_pack schedule' w1 in
      (w2, (pack, r) :: rs)
  end.

(** The main thread's exception, else the first one of the futures. *)
Definition first_error (results : list (Z * result unit)) (packs : list Z) : result unit :=
  rfold (fun _ pack => match find (fun e => e.1 =? pack) results with
                       | Some (_, r) => r
                       | None => Ok tt
                       end) tt packs.

Definition run_operation (run_on_pack : SparseReduction.t G → Z → task H K unit)
    (schedule : list Z → list Z) (op : SparseReduction.t G) : task H K unit := fun w =>
  match plan op with
  | Err e => (w, Err e)
  | Ok (pack_for_main_thread, run_queue) =>
      let packs := pack_for_main_thread :: run_queue in
      let (w, results) := run_pack_tasks (run_on_pack op) (schedule packs) w in
      (w, first_error results packs)
  end.

(** ** cxl_runner.h *)
Definition reset_output_buffers (cunit_id size : Z) : task H K unit :=
  on_memory (fun mm h m =>
    let! buffer := get_mem_block_ptr mm SLS_BLOCK_PSUM cunit_id 0 in
    Ok (h, fill_zero m buffer size)).

Definition cxl_process_exec (op : SparseReduction.t G) (pack compute_unit exec_id : Z)
  : task H K unit :=
  do! bytes := generate_trace op pack compute_unit exec_id in
  do! _ := write_buffer tp compute_unit INST (trace_data bufs pack) bytes in
  do! size := mlift (get_tmp_buffer op pack exec_id) in
  do! _ := reset_output_buffers compute_unit size in
  do! _ := cxl_run tp fuel compute_unit in
  read_output_buffers op compute_unit pack exec_id.

Definition process_execs (op : SparseReduction.t G) (pack compute_unit : Z) : task H K unit :=
  do! num_execs := mlift (get_num_exec_iterations op pack) in
  mfold (cxl_process_exec op pack compute_unit) (range num_execs).

Definition cxl_run_on_pack (op : SparseReduction.t G) (pack : Z) : task H K unit :=
  do! compute_unit := CxlComputeUnit tp fuel pack in
  with_object (process_execs op pack compute_unit) (cxl_release tp fuel compute_unit).

(** ** axdimm_runner.h *)
Definition wait_and_start (compute_unit trace bytes : Z) : task H K unit :=
  do! _ := axdimm_wait tp fuel compute_unit in
  do! _ := write_buffer tp compute_unit INST trace bytes in
  run_async compute_unit.

Definition submit_instructions (pack compute_unit exec_id bytes : Z) : task H K unit :=
  if exec_id =? 0 then
    do! _ := write_buffer tp compute_unit INST (trace_data bufs pack) bytes in
    run_async compute_unit
  else wait_and_start compute_unit (trace_data bufs pack) bytes.

Definition axdimm_process_exec (op : SparseReduction.t G) (pack compute_unit i : Z)
  : task H K unit :=
  do! bytes := generate_trace op pack compute_unit i in
  do! _ := submit_instructions pack compute_unit i bytes in
  if 0 <? i then read_output_buffers op compute_unit pack (i - 1) else mret tt.

(** [dummy] is the address of the elements of [sls::dummy_inst]. *)
Definition axdimm_process_execs (dummy : Z) (op : SparseReduction.t G) (pack num_execs compute_unit : Z)
  : task H K unit :=
  do! _ := mfold (axdimm_process_exec op pack compute_unit) (range num_execs) in
  do! _ := wait_and_start compute_unit dummy (8 * Z.of_nat (length dummy_inst)) in
  do! _ := read_output_buffers op compute_unit pack (u32 (num_execs - 1)) in
  axdimm_wait tp fuel compute_unit.

Definition axdimm_run_on_pack (dummy : Z) (op : SparseReduction.t G) (pack : Z) : task H K unit :=
  do! num_execs := mlift (get_num_exec_iterations op pack) in
  do! compute_unit := AxdimmComputeUnit tp fuel pack in
  with_object (axdimm_process_execs dummy op pack num_execs compute_unit)
    (axdimm_release compute_unit).
End runner.

(** ** core/context/sls.h: the registered [sls_dispatch] functions *)
Section dispatch.
Context {K : Type} {D : CunitDriver K} (tp : Constants) (bufs : buffers) (fuel : nat).
Context (DEBUG : bool) (schedule : list Z → list Z) (SLS_BUF_DIVIDER : option (Z * positive)).

Definition channelwise_dispatch (op : SlsOperation.t) : task unit K unit :=
  do! internal_op := mlift (SparseReduction.make (G := Channel DEBUG) tp op SLS_BUF_DIVIDER) in
  run_operation tp
    (cxl_run_on_pack (HB := CxlSimulatorMemBlockHandler) (C := CxlSimulatorComputeDevice tp)
       tp bufs fuel) schedule internal_op.

Definition rankwise_dispatch (dummy : Z) (op : SlsOperation.t) : task AxdimmSimulatorCore.t K unit :=
  do! internal_op := mlift (SparseReduction.make (G := Ranked DEBUG) tp op SLS_BUF_DIVIDER) in
  run_operation tp
    (axdimm_run_on_pack (HB := AxdimmSimulatorMemBlockHandler tp)
       (C := AxdimmSimulatorComputeDevice tp) tp bufs fuel dummy) schedule internal_op.
End dispatch.
