(* ===== verification/CxlRun.v ===== *)
(** * An SLS operation on the CXL device, end to end

    The composition of the host side (SparseReduction), the device side
    (SlsSimulator) and the runner between them (SlsDevice, SlsRunner): after
    [run_operation] every batch of the user's psum buffer holds the sums of the
    rows its lookups name. *)
From S2P Require Import Prelude Topology RankAddress WordMemory DeviceMemory InstGenerator RankMemory ExecutionGenerator TraceGenerator SparseReduction SlsSimulator AxdimmProofs Allocators SlsDevice SlsRunner.
Import SlsOperation ExecutionPacksData SparseReduction.

(** ** What an operation asks for *)

(** Lookup [l] of batch [q]. *)
Definition lookup_row (op : SlsOperation.t) (q : Z * Z) (l : Z) : Z :=
  default 0 (indices_ op !! Z.to_nat (lookups_before op (flat_batch op q) + l)).

Definition batch_lookups (op : SlsOperation.t) (q : Z * Z) : Z :=
  default 0 (lengths_ op !! Z.to_nat (flat_batch op q)).

(** Element [e] of the sum of the rows of batch [q], where [V t r e] is element [e]
    of row [r] of table [t]. *)
Definition sls_sum (op : SlsOperation.t) (V : Z → Z → Z → Z) (q : Z * Z) (e : Z) : Z :=
  u32 (sum_list_Z ((fun l => V q.1 (lookup_row op q l) e) <$> range (batch_lookups op q))).

(** ** The lookups of an execution, sorted by output *)
Lemma sum_fmap_cons {A} (f : A → Z) (x : A) (l : list A) :
  sum_list_Z (f <$> x :: l) = f x + sum_list_Z (f <$> l).
Proof. reflexivity. Qed.

Lemma sum_fmap_zero {A} (f : A → Z) (l : list A) :
  (∀ x, x ∈ l → f x = 0) → sum_list_Z (f <$> l) = 0.
Proof.
  induction l as [|x l IH]; intros H; [done|]. rewrite sum_fmap_cons, H, IH; [done| |by left].
  intros y Hy. apply H. by right.
Qed.

Lemma sum_list_Z_single {A} (f : A → Z) (l : list A) (x : A) :
  NoDup l → x ∈ l → (∀ y, y ∈ l → y ≠ x → f y = 0) → sum_list_Z (f <$> l) = f x.
Proof.
  intros Hnd Hx Hz. apply list_elem_of_split in Hx as (l1 & l2 & ->).
  apply NoDup_app in Hnd as (_ & Hd & Hnd). apply NoDup_cons in Hnd as [Hno _].
  rewrite fmap_app, sum_list_Z_app, sum_fmap_cons, !sum_fmap_zero; [lia| |].
  - intros y Hy. apply Hz; [apply elem_of_app; right; by right|]. by intros ->.
  - intros y Hy. apply Hz; [apply elem_of_app; by left|]. intros ->. apply (Hd x Hy). by left.
Qed.

Section contributions.
Import CxlSimulatorCore CxlProofs.
Context (b : blocks) (m : memory).

Lemma contributions_app (o e : Z) (l k : list InstructionIR) :
  contributions b m o e (l ++ k) = contributions b m o e l + contributions b m o e k.
Proof. unfold contributions. by rewrite fmap_app, sum_list_Z_app. Qed.

Lemma contributions_flat {A} (f : A → list InstructionIR) (o e : Z) (l : list A) :
  contributions b m o e (flat f l) = sum_list_Z ((fun x => contributions b m o e (f x)) <$> l).
Proof.
  induction l as [|x l IH]; [done|]. unfold flat in *. cbn [fmap list_fmap concat].
  rewrite contributions_app, IH. done.
Qed.

Lemma contributions_other (o e : Z) (l : list InstructionIR) :
  Forall (fun i => output_index i ≠ o) l → contributions b m o e l = 0.
Proof.
  intros Hl. apply sum_fmap_zero. intros i Hi. unfold contribution.
  pose proof (proj1 (Forall_forall _ _) Hl i Hi) as Hne. cbn beta in Hne.
  by replace (output_index i =? o) with false by lia.
Qed.

Lemma contributions_all {A} (f : A → InstructionIR) (o e : Z) (l : list A) :
  (∀ x, x ∈ l → output_index (f x) = o) →
  contributions b m o e (f <$> l) =
  sum_list_Z ((fun x => load32 m (channel_base b + address (f x) + 4 * e)) <$> l).
Proof.
  unfold contributions. rewrite <- list_fmap_compose. intros Hl. f_equal.
  apply list_fmap_ext. intros i x Hx. cbn. unfold contribution.
  by rewrite Hl, Z.eqb_refl by (by eapply list_elem_of_lookup_2).
Qed.

Context (c : TraceGeneratorCore.t) (tds : list Execution.TableData).
Context (lengths indices : list (list Z)) (type compute_unit : Z) (objects : list MemoryObject.t).
Context (Hchunks : Forall (fun td => 0 < chunk_of td) tds).
Context (Htotal : sum_list_Z (chunk_of <$> tds) < 2 ^ 32).

Lemma first_range (i : nat) (td : Execution.TableData) (j : Z) :
  tds !! i = Some td → 0 ≤ j < chunk_of td →
  0 ≤ table_start tds i ∧ table_start tds i + j < 2 ^ 32.
Proof.
  intros Htd Hj. unfold table_start. rewrite <- (take_drop_middle tds i td Htd) in Htotal.
  rewrite fmap_app, sum_list_Z_app, sum_fmap_cons in Htotal.
  assert (Hn : ∀ k, Forall (fun td => 0 < chunk_of td) k → 0 ≤ sum_list_Z (chunk_of <$> k)).
  { intros k Hk. apply sum_list_Z_nonneg, Forall_fmap. eapply Forall_impl; [exact Hk|]. cbn. lia. }
  pose proof (Hn _ (Forall_take _ i _ Hchunks)). pose proof (Hn _ (Forall_drop _ (S i) _ Hchunks)). lia.
Qed.

Lemma first_mono (i i' : nat) (td : Execution.TableData) :
  tds !! i = Some td → (i < i')%nat → table_start tds i + chunk_of td ≤ table_start tds i'.
Proof.
  intros Htd Hlt. unfold table_start.
  assert (E : take i' tds = take i tds ++ td :: take (i' - S i) (drop (S i) tds)).
  { rewrite <- (take_drop_middle tds i td Htd) at 1.
    pose proof (lookup_lt_Some _ _ _ Htd).
    rewrite take_app, take_ge, length_take by (rewrite length_take; lia).
    rewrite Nat.min_l by lia. destruct (i' - i)%nat eqn:Ed; [lia|]. cbn.
    do 3 f_equal. lia. }
  rewrite E, fmap_app, sum_list_Z_app, sum_fmap_cons.
  assert (0 ≤ sum_list_Z (chunk_of <$> take (i' - S i) (drop (S i) tds))); [|lia].
  apply sum_list_Z_nonneg, Forall_fmap. eapply Forall_impl; [apply Forall_take, Forall_drop, Hchunks|].
  cbn. lia.
Qed.

Lemma batch_output (i : nat) (td : Execution.TableData) (j l : Z) :
  tds !! i = Some td → 0 ≤ j < chunk_of td →
  output_index (emitted_ir c (table_offset compute_unit objects td) (table_start tds i) type
    (table_lens lengths i td) (table_index indices i) j l) = table_start tds i + j.
Proof.
  intros Htd Hj. pose proof (first_range i td j Htd Hj). unfold emitted_ir, u32. cbn [output_index].
  by rewrite Z.mod_small by lia.
Qed.

(** Output [table_start tds i + j] receives the rows of batch [j] of table [i]. *)
Lemma exec_contributions (i : nat) (td : Execution.TableData) (j e : Z) :
  tds !! i = Some td → 0 ≤ j < chunk_of td →
  contributions b m (table_start tds i + j) e
    (flat (table_emitted c tds lengths indices type compute_unit objects) (seq 0 (length tds))) =
  sum_list_Z ((fun l => load32 m (channel_base b + address
      (emitted_ir c (table_offset compute_unit objects td) (table_start tds i) type
         (table_lens lengths i td) (table_index indices i) j l) + 4 * e)) <$>
    range (batch_len (table_lens lengths i td) j)).
Proof.
  intros Htd Hj. pose proof (lookup_lt_Some _ _ _ Htd) as Hi. rewrite contributions_flat.
  rewrite (sum_list_Z_single _ _ i).
  - unfold table_emitted. rewrite Htd, contributions_flat. rewrite (sum_list_Z_single _ _ j).
    + apply contributions_all. intros l _. by apply batch_output.
    + apply NoDup_range.
    + by apply elem_of_range.
    + intros j' Hj'%elem_of_range Hne. apply contributions_other, Forall_fmap, Forall_forall.
      intros l _. pose proof (batch_output i td j' l Htd Hj') as Eb. unfold compose. lia.
  - apply NoDup_seq.
  - apply elem_of_seq. lia.
  - intros i' Hi'%elem_of_seq Hne. destruct (lookup_lt_is_Some_2 tds i') as [td' Htd']; [lia|].
    unfold table_emitted. rewrite Htd', contributions_flat.
    apply sum_fmap_zero. intros j' Hj'%elem_of_range.
    apply contributions_other, Forall_fmap, Forall_forall. intros l _.
    pose proof (batch_output i' td' j' l Htd' Hj') as Eb. unfold compose. rewrite Eb.
    destruct (Nat.lt_ge_cases i i') as [Hlt|Hge].
    + pose proof (first_mono i i' td Htd Hlt). lia.
    + pose proof (first_mono i' i td' Htd' ltac:(lia)). lia.
Qed.
End contributions.

(** ** The inputs of an execution *)
Definition table_rows (op : SlsOperation.t) (t : Z) : Z := default 0 (tables_sizes_ op !! Z.to_nat t).

(** Every lookup has an index, and the index is a row of its table. *)
Record lookups_ok (op : SlsOperation.t) : Prop := {
  lk_indices : sum_list_Z (lengths_ op) ≤ Z.of_nat (length (indices_ op));
  lk_rows : ∀ q l, pair_ok op q → 0 ≤ l < batch_lookups op q →
    0 ≤ lookup_row op q l < table_rows op q.1
}.

Section inputs.
Context (tp : Constants) (op : SlsOperation.t) (Hop : op_ok tp op) (Hlk : lookups_ok op).
Context (tds : list Execution.TableData).
Context (Htds : Forall (fun td => chunk_set td ∧ Forall (pair_ok op) (table_pairs td)) tds).

(** What [SparseReduction::generate_instructions] passes on. *)
Definition exec_lengths : list (list Z) :=
  (fun c => drop (Z.to_nat (a_length c)) (lengths_ op)) <$> (chunk_cell tp op <$> tds).
Definition exec_indices : list (list Z) :=
  (fun c => drop (Z.to_nat (a_index c)) (indices_ op)) <$> (chunk_cell tp op <$> tds).

(** Batch [j] of a chunk. *)
Definition chunk_batch (td : Execution.TableData) (j : Z) : Z * Z :=
  ((chunk_head td).1, (chunk_head td).2 + j).

Lemma flat_chunk_batch (td : Execution.TableData) (j : Z) :
  flat_batch op (chunk_batch td j) = flat_batch op (chunk_head td) + j.
Proof. unfold flat_batch, chunk_batch. cbn [fst snd]. lia. Qed.

Lemma chunk_batch_ok (i : nat) (td : Execution.TableData) (j : Z) :
  tds !! i = Some td → 0 ≤ j < chunk_of td → pair_ok op (chunk_batch td j).
Proof.
  intros Htd Hj. destruct (proj1 (Forall_lookup _ _) Htds i td Htd) as [Hset HF].
  destruct (lookup_lt_is_Some_2 (table_pairs td) (Z.to_nat j)) as [p Hp].
  { pose proof (length_table_pairs td Hset). unfold chunk_of in Hj. lia. }
  pose proof (proj1 (Forall_lookup _ _) HF _ _ Hp) as Hok.
  apply table_pairs_lookup in Hp as [-> _]. unfold chunk_batch, chunk_head. cbn [fst snd].
  by rewrite Z2Nat.id in Hok by lia.
Qed.

Lemma chunk_pos (i : nat) (td : Execution.TableData) : tds !! i = Some td → 0 < chunk_of td.
Proof. intros Htd. by destruct (proj1 (Forall_lookup _ _) Htds i td Htd) as [[_ Hc] _]. Qed.

Lemma chunk_range (i : nat) (td : Execution.TableData) :
  tds !! i = Some td → 0 ≤ flat_batch op (chunk_head td) ∧
  flat_batch op (chunk_head td) + chunk_of td ≤ Z.of_nat (length (lengths_ op)).
Proof.
  intros Htd. pose proof (chunk_pos i td Htd).
  pose proof (flat_batch_range op _ (chunk_batch_ok i td 0 Htd ltac:(lia))) as H0.
  pose proof (flat_batch_range op _ (chunk_batch_ok i td (chunk_of td - 1) Htd ltac:(lia))) as H1.
  rewrite flat_chunk_batch in *. rewrite (oo_length _ _ Hop). lia.
Qed.

Lemma lengths_lookup (i : nat) (td : Execution.TableData) :
  tds !! i = Some td →
  exec_lengths !! i = Some (drop (Z.to_nat (flat_batch op (chunk_head td))) (lengths_ op)) ∧
  exec_indices !! i = Some (drop (Z.to_nat (lookups_before op (flat_batch op (chunk_head td)))) (indices_ op)).
Proof. intros Htd. unfold exec_lengths, exec_indices. by rewrite !list_lookup_fmap, Htd. Qed.

Lemma table_lens_eq (i : nat) (td : Execution.TableData) :
  tds !! i = Some td →
  table_lens exec_lengths i td =
  take (Z.to_nat (chunk_of td)) (drop (Z.to_nat (flat_batch op (chunk_head td))) (lengths_ op)).
Proof. intros Htd. unfold table_lens. by rewrite (proj1 (lengths_lookup i td Htd)). Qed.

Lemma batch_len_eq (i : nat) (td : Execution.TableData) (j : Z) :
  tds !! i = Some td → 0 ≤ j < chunk_of td →
  batch_len (table_lens exec_lengths i td) j = batch_lookups op (chunk_batch td j).
Proof.
  intros Htd Hj. unfold batch_len, batch_lookups. rewrite table_lens_eq by done.
  pose proof (chunk_range i td Htd).
  rewrite lookup_take_lt, lookup_drop by lia. do 2 f_equal. rewrite flat_chunk_batch. lia.
Qed.

Lemma batch_start_eq (i : nat) (td : Execution.TableData) (j : Z) :
  tds !! i = Some td → 0 ≤ j ≤ chunk_of td →
  batch_start (table_lens exec_lengths i td) j =
  lookups_before op (flat_batch op (chunk_head td) + j) -
  lookups_before op (flat_batch op (chunk_head td)).
Proof.
  intros Htd Hj. unfold batch_start, lookups_before. rewrite table_lens_eq by done.
  pose proof (chunk_range i td Htd). rewrite take_take, Nat.min_l by lia. rewrite sum_window.
  do 3 f_equal. lia.
Qed.

Lemma row_of_eq (i : nat) (td : Execution.TableData) (j l : Z) :
  tds !! i = Some td → 0 ≤ j < chunk_of td → 0 ≤ l →
  row_of (table_lens exec_lengths i td) (table_index exec_indices i) j l = lookup_row op (chunk_batch td j) l.
Proof.
  intros Htd Hj Hl. unfold row_of, lookup_row, table_index.
  rewrite (proj2 (lengths_lookup i td Htd)). cbn [default from_option id].
  rewrite batch_start_eq, lookup_drop, flat_chunk_batch by (done || lia).
  set (h := flat_batch op (chunk_head td)).
  pose proof (lookups_before_range tp op Hop h). do 2 f_equal.
  assert (lookups_before op h ≤ lookups_before op (h + j)).
  { pose proof (batch_start_eq i td j Htd ltac:(lia)) as E. fold h in E.
    assert (0 ≤ batch_start (table_lens exec_lengths i td) j); [|lia].
    unfold batch_start. apply sum_list_Z_nonneg, Forall_take. rewrite table_lens_eq by done.
    apply Forall_take, Forall_drop, (lengths_nonneg tp op Hop). }
  lia.
Qed.
End inputs.

(** ** The instructions of an execution *)
Lemma seq_lookup_fmap {A B} (l : list A) (f : nat → B) (g : A → B) :
  (∀ i x, l !! i = Some x → f i = g x) → f <$> seq 0 (length l) = g <$> l.
Proof.
  intros H. apply list_eq. intros i. rewrite !list_lookup_fmap.
  destruct (l !! i) as [x|] eqn:E.
  - pose proof (lookup_lt_Some _ _ _ E). rewrite lookup_seq_lt by done. cbn. f_equal. by apply H.
  - apply lookup_ge_None_1 in E. by rewrite lookup_seq_ge by done.
Qed.

Lemma flat_cons {A B} (f : A → list B) (x : A) (l : list A) : flat f (x :: l) = f x ++ flat f l.
Proof. reflexivity. Qed.

Lemma length_flat {A B} (f : A → list B) (l : list A) :
  Z.of_nat (length (flat f l)) = sum_list_Z ((fun x => Z.of_nat (length (f x))) <$> l).
Proof.
  induction l as [|x l IH]; [done|].
  by rewrite flat_cons, length_app, Nat2Z.inj_add, IH, sum_fmap_cons.
Qed.

(** A table in the memory of unit [c]. *)
Record placed (tp : Constants) (op : SlsOperation.t) (c : Z) (o : MemoryObject.t) (off : Z) : Prop := {
  pl_offset : MemoryObject.offset o c = Ok off;
  pl_start : 0 ≤ off ∧ off mod 8 = 0;
  pl_end : off + table_rows op (MemoryObject.id o) * fbytes tp op ≤ 2 ^ 34;
  pl_size : table_rows op (MemoryObject.id o) * fbytes tp op ≤ 2 ^ 32
}.

Section execution.
Context (tp : Constants) (op : SlsOperation.t) (Hop : op_ok tp op) (Hlk : lookups_ok op).
Context (Htype : op_type_ op = Uint32).
Context (objs : list MemoryObject.t) (c : Z) (g : TraceGenerator.t).
Context (Hobjs : ∀ o, o ∈ objs → ∃ off, placed tp op c o off).
Context (Hg : generator_ok tp op objs g).
Context (tds : list Execution.TableData).
Context (Htds : Forall (fun td => chunk_set td ∧ Forall (pair_ok op) (table_pairs td)) tds).
Context (Hstored : ∀ td, td ∈ tds → ∃ o, o ∈ objs ∧ MemoryObject.id o = Execution.table_id_ td).
Context (HF : fbytes tp op = 64 ∨ fbytes tp op = 128 ∨ fbytes tp op = 256).
Context (PS : Z) (Hfit : sum_list_Z (chunk_of <$> tds) * fbytes tp op ≤ PS).
Context (HPS : PS ≤ 2 ^ 12 * fbytes tp op).

Let lengths := exec_lengths tp op tds.
Let indices := exec_indices tp op tds.

Lemma stored_object (i : nat) (td : Execution.TableData) :
  tds !! i = Some td →
  ∃ o off, find (fun o => MemoryObject.id o =? Execution.table_id_ td) objs = Some o ∧
    placed tp op c o off ∧ MemoryObject.id o = Execution.table_id_ td ∧ o ∈ objs ∧
    table_offset c objs td = off.
Proof.
  intros Htd. destruct (Hstored td) as (o0 & Ho0 & E0); [by eapply list_elem_of_lookup_2|].
  destruct (find (fun o => MemoryObject.id o =? Execution.table_id_ td) objs) as [o|] eqn:Ef.
  - pose proof (find_some _ _ Ef) as [Hin Hid]. apply list_elem_of_In in Hin. zbool.
    destruct (Hobjs o Hin) as (off & Hpl). exists o, off. split; [done|]. split; [done|].
    split; [done|]. split; [done|]. unfold table_offset. by rewrite Ef, (pl_offset _ _ _ _ _ Hpl).
  - pose proof (find_none _ _ Ef o0 (proj1 (list_elem_of_In _ _) Ho0)) as Hn. cbn in Hn. zbool. lia.
Qed.

Lemma untagged : is_tagged op = false.
Proof. unfold is_tagged. by rewrite Htype. Qed.

Lemma row_bytes : TraceGeneratorCore.bytes_per_row_full_ (TraceGenerator.core_ g) = fbytes tp op.
Proof.
  destruct Hg as (_ & -> & _). rewrite untagged, Z.add_0_r. pose proof (oo_fbytes _ _ Hop).
  rewrite u64_small by lia. unfold u32. by rewrite Z.mod_small by lia.
Qed.

Lemma table_rows_bound (i : nat) (td : Execution.TableData) :
  tds !! i = Some td →
  table_rows op (Execution.table_id_ td) ≤
  TraceGeneratorCore.max_tables_rows_num_ (TraceGenerator.core_ g).
Proof.
  intros Htd. destruct (stored_object i td Htd) as (o & off & _ & _ & <- & Ho & _).
  destruct Hg as (_ & _ & Hr). destruct (Hr o Ho) as (s & [Hid Hs]%vec_at_Ok & Hle).
  unfold table_rows. by rewrite Hs.
Qed.

Lemma exec_table_ok (i : nat) (td : Execution.TableData) :
  tds !! i = Some td → table_ok (TraceGenerator.core_ g) lengths indices c objs i td.
Proof.
  intros Htd. destruct (stored_object i td Htd) as (o & off & Hf & Hpl & _).
  pose proof (chunk_pos op tds Htds i td Htd) as Hpos.
  pose proof (chunk_range tp op Hop tds Htds i td Htd) as Hr.
  destruct (lengths_lookup tp op tds i td Htd) as [El Ei].
  pose proof (table_lens_eq tp op tds i td Htd) as Etl. split.
  - exists o, off. split; [done|]. apply Hpl.
  - lia.
  - split; [by eexists|]. unfold lengths. rewrite Etl, length_take, length_drop. lia.
  - by eexists.
  - split.
    + unfold lengths. rewrite Etl. apply Forall_forall. intros x Hx. split.
      * exact (proj1 (Forall_forall _ _) (Forall_take _ _ _ (Forall_drop _ _ _
          (lengths_nonneg tp op Hop))) x Hx).
      * assert (Hin : x ∈ lengths_ op).
        { apply list_elem_of_lookup in Hx as [k Hk]. apply lookup_take_Some in Hk as [Hk _].
          rewrite lookup_drop in Hk. by eapply list_elem_of_lookup_2. }
        pose proof (sum_list_Z_elem _ x (lengths_nonneg tp op Hop) Hin).
        pose proof (oo_sum _ _ Hop). lia.
    + pose proof (batch_start_eq tp op Hop tds Htds i td (chunk_of td) Htd ltac:(lia)) as Eb.
      unfold batch_start in Eb. rewrite take_ge in Eb
        by (rewrite Etl, length_take, length_drop; lia).
      unfold lengths, table_index, indices. rewrite Eb, Ei. cbn [default from_option id].
      rewrite length_drop.
      pose proof (lookups_before_range tp op Hop (flat_batch op (chunk_head td))).
      pose proof (sum_take_le (lengths_ op) (Z.to_nat (flat_batch op (chunk_head td) + chunk_of td))
        (lengths_nonneg tp op Hop)). pose proof (lk_indices _ Hlk). unfold lookups_before in *. lia.
    + intros b k Hb Hk. unfold nb in Hb. unfold lengths, indices in *.
      rewrite Etl, length_take, length_drop in Hb. assert (Hb' : 0 ≤ b < chunk_of td) by lia.
      rewrite (batch_len_eq tp op Hop tds Htds i td b Htd Hb') in Hk.
      rewrite (row_of_eq tp op Hop tds Htds i td b k Htd Hb' ltac:(lia)).
      pose proof (lk_rows _ Hlk _ k (chunk_batch_ok op tds Htds i td b Htd Hb') Hk).
      pose proof (table_rows_bound i td Htd). cbn [chunk_batch fst chunk_head] in *. lia.
Qed.

(** The instruction of lookup [l] of batch [j] of table [i]. *)
Definition exec_ir (i : nat) (td : Execution.TableData) (j l : Z) : InstructionIR :=
  emitted_ir (TraceGenerator.core_ g) (table_offset c objs td) (table_start tds i)
    (type_value (op_type_ op)) (table_lens lengths i td) (table_index indices i) j l.

Lemma exec_ir_address (i : nat) (td : Execution.TableData) (j l : Z) :
  tds !! i = Some td → 0 ≤ j < chunk_of td → 0 ≤ l < batch_lookups op (chunk_batch td j) →
  let row := lookup_row op (chunk_batch td j) l in
  0 ≤ row < table_rows op (Execution.table_id_ td) ∧
  address (exec_ir i td j l) = table_offset c objs td + row * fbytes tp op ∧
  addressable (address (exec_ir i td j l)).
Proof.
  intros Htd Hj Hl row. unfold exec_ir, emitted_ir. cbn [address].
  pose proof (lk_rows _ Hlk _ l (chunk_batch_ok op tds Htds i td j Htd Hj) Hl) as Hrow.
  fold row in Hrow. cbn [chunk_batch fst chunk_head] in Hrow.
  unfold lengths, indices. rewrite (row_of_eq tp op Hop tds Htds i td j l Htd Hj ltac:(lia)). fold row.
  rewrite row_bytes. destruct (stored_object i td Htd) as (o & off & _ & Hpl & Eid & _ & ->).
  destruct Hpl as [_ [Ho Ho8] Hend Hsz]. rewrite Eid in *. set (F := fbytes tp op) in *.
  assert (Hb : 0 ≤ row * F ∧ row * F + F ≤ table_rows op (Execution.table_id_ td) * F) by nia.
  assert (HFp : 0 < F) by lia.
  unfold u32. rewrite (Z.mod_small (row * F)) by lia. rewrite u64_small by lia.
  split; [done|]. split; [done|]. split; [lia|].
  rewrite Z.add_mod, Ho8 by lia.
  assert (E8 : (row * F) mod 8 = 0) by (destruct HF as [->|[->| ->]]; dlia). by rewrite E8.
Qed.

Lemma batch_total (i : nat) (td : Execution.TableData) (j : Z) :
  tds !! i = Some td → 0 ≤ j < chunk_of td →
  0 ≤ table_start tds i + j ∧ (table_start tds i + j + 1) * fbytes tp op ≤ PS.
Proof.
  intros Htd Hj.
  assert (Hn : ∀ k, Forall (fun td => chunk_set td ∧ Forall (pair_ok op) (table_pairs td)) k →
    0 ≤ sum_list_Z (chunk_of <$> k)).
  { intros k Hk. apply sum_list_Z_nonneg, Forall_fmap. eapply Forall_impl; [exact Hk|].
    cbn. intros x [[_ Hx] _]. unfold chunk_of. lia. }
  pose proof Hfit as Hf. rewrite <- (take_drop_middle tds i td Htd) in Hf.
  rewrite fmap_app, sum_list_Z_app, sum_fmap_cons in Hf. unfold table_start.
  pose proof (Hn _ (Forall_take _ i _ Htds)). pose proof (Hn _ (Forall_drop _ (S i) _ Htds)).
  split; [lia|]. pose proof (oo_fbytes _ _ Hop). nia.
Qed.

Lemma total_batches_small : sum_list_Z (chunk_of <$> tds) ≤ 2 ^ 12.
Proof. pose proof (oo_fbytes _ _ Hop). nia. Qed.

Lemma chunks_positive : Forall (fun td => 0 < chunk_of td) tds.
Proof. apply Forall_lookup. intros i td. apply (chunk_pos op tds Htds). Qed.

Lemma exec_ir_ok (i : nat) (td : Execution.TableData) (j l : Z) :
  tds !! i = Some td → 0 ≤ j < chunk_of td → 0 ≤ l < batch_lookups op (chunk_batch td j) →
  ir_encodable (exec_ir i td j l) ∧ CxlProofs.ir_ok (fbytes tp op) PS (exec_ir i td j l).
Proof.
  intros Htd Hj Hl. destruct (exec_ir_address i td j l Htd Hj Hl) as (_ & _ & Hadr).
  pose proof total_batches_small as Hsm. pose proof (batch_total i td j Htd Hj) as Hbt.
  assert (Hout : output_index (exec_ir i td j l) = table_start tds i + j).
  { apply batch_output; [apply chunks_positive|lia|done|done]. }
  pose proof (oo_fbytes _ _ Hop). split; split; rewrite ?Hout.
  - unfold exec_ir. cbn. rewrite Htype. cbn. lia.
  - split; [lia|]. nia.
  - done.
  - left. unfold exec_ir. cbn. by rewrite Htype.
  - apply Hadr.
  - done.
Qed.

Definition exec_irs : list InstructionIR :=
  flat (table_emitted (TraceGenerator.core_ g) tds lengths indices (type_value (op_type_ op)) c objs)
    (seq 0 (length tds)).

Lemma exec_irs_elem (ir : InstructionIR) :
  ir ∈ exec_irs → ∃ i td j l, tds !! i = Some td ∧ 0 ≤ j < chunk_of td ∧
    0 ≤ l < batch_lookups op (chunk_batch td j) ∧ ir = exec_ir i td j l.
Proof.
  intros (x & (i & -> & Hi%elem_of_seq)%list_elem_of_fmap & Hin)%elem_of_concat.
  destruct (lookup_lt_is_Some_2 tds i) as [td Htd]; [lia|]. unfold table_emitted in Hin.
  rewrite Htd in Hin.
  apply elem_of_concat in Hin as (y & (j & -> & Hj%elem_of_range)%list_elem_of_fmap & Hin).
  apply list_elem_of_fmap in Hin as (l & -> & Hl%elem_of_range).
  unfold lengths in Hl. rewrite (batch_len_eq tp op Hop tds Htds i td j Htd Hj) in Hl.
  by exists i, td, j, l.
Qed.

Lemma exec_irs_ok : Forall ir_encodable exec_irs ∧ Forall (CxlProofs.ir_ok (fbytes tp op) PS) exec_irs.
Proof.
  split; apply Forall_forall; intros ir (i & td & j & l & Htd & Hj & Hl & ->)%exec_irs_elem;
    by apply exec_ir_ok.
Qed.

Lemma length_exec_irs :
  Z.of_nat (length exec_irs) = sum_list_Z (batch_lookups op <$> concat (table_pairs <$> tds)).
Proof.
  unfold exec_irs. rewrite length_flat.
  rewrite (seq_lookup_fmap tds _ (fun td => sum_list_Z (batch_lookups op <$> table_pairs td))).
  - fold (flat table_pairs tds). clear. induction tds as [|td l IH]; [done|].
    by rewrite flat_cons, fmap_app, sum_list_Z_app, sum_fmap_cons, IH.
  - intros i td Htd. unfold table_emitted. rewrite Htd, length_flat.
    destruct (proj1 (Forall_lookup _ _) Htds i td Htd) as [[[off Ho] Hc] _].
    unfold table_pairs. rewrite Ho. unfold chunk_pairs. rewrite <- list_fmap_compose.
    f_equal. apply list_fmap_ext. intros k j Hk. apply list_elem_of_lookup_2, elem_of_range in Hk.
    unfold batch_ir. rewrite length_fmap, length_range. unfold lengths.
    rewrite (batch_len_eq tp op Hop tds Htds i td j Htd Hk). unfold compose.
    assert (Eq : chunk_batch td j = (Execution.table_id_ td, off + j)).
    { unfold chunk_batch, chunk_head. by rewrite Ho. }
    rewrite Eq. rewrite Z2Nat.id; [done|]. unfold batch_lookups.
    destruct (lengths_ op !! _) as [x|] eqn:Ex; [|done]. cbn.
    exact (proj1 (Forall_lookup _ _) (lengths_nonneg tp op Hop) _ _ Ex).
Qed.

(** Output [k] receives the sum of the rows of the [k]-th batch. *)
Lemma exec_sums (b : CxlSimulatorCore.blocks) (m : memory) (V : Z → Z → Z → Z) (k : nat)
    (q : Z * Z) (e : Z) :
  (∀ o off r, o ∈ objs → placed tp op c o off → 0 ≤ r < table_rows op (MemoryObject.id o) →
     load32 m (CxlSimulatorCore.channel_base b + off + r * fbytes tp op + 4 * e) =
     V (MemoryObject.id o) r e) →
  concat (table_pairs <$> tds) !! k = Some q →
  u32 (CxlProofs.contributions b m (Z.of_nat k) e exec_irs) = sls_sum op V q e.
Proof.
  intros HV Hk. apply lookup_concat_fmap in Hk as (l1 & td & l2 & j & E & -> & Hj).
  assert (Htd : tds !! length l1 = Some td) by (rewrite E; by apply list_lookup_middle).
  pose proof (table_pairs_lookup td j q Hj) as [Eq Hjc].
  assert (Eq' : q = chunk_batch td (Z.of_nat j)) by (rewrite Eq; reflexivity).
  assert (Hjr : 0 ≤ Z.of_nat j < chunk_of td) by (unfold chunk_of; lia).
  assert (Ek : Z.of_nat (length (concat (table_pairs <$> l1)) + j) =
    table_start tds (length l1) + Z.of_nat j).
  { unfold table_start. rewrite E, take_app_length. rewrite Nat2Z.inj_add. f_equal.
    assert (Hl1 : Forall chunk_set l1).
    { rewrite E in Htds. apply Forall_app in Htds as [H1 _]. eapply Forall_impl; [exact H1|].
      by intros x []. }
    fold (flat table_pairs l1). clear -Hl1. induction Hl1 as [|x l Hx _ IH]; [done|].
    by rewrite flat_cons, length_app, Nat2Z.inj_add, sum_fmap_cons, IH, (length_table_pairs x Hx). }
  rewrite Ek. unfold exec_irs, sls_sum.
  rewrite (exec_contributions b m (TraceGenerator.core_ g) tds lengths indices _ c objs
    chunks_positive ltac:(pose proof total_batches_small; lia) (length l1) td _ e Htd Hjr).
  f_equal. unfold lengths. rewrite (batch_len_eq tp op Hop tds Htds _ td _ Htd Hjr), <- Eq'.
  f_equal. apply list_fmap_ext. intros x l Hl. apply list_elem_of_lookup_2, elem_of_range in Hl.
  rewrite Eq' in Hl.
  destruct (exec_ir_address (length l1) td (Z.of_nat j) l Htd Hjr Hl) as (Hrow & Ea & _).
  unfold exec_ir, lengths in Ea. rewrite Ea.
  destruct (stored_object _ td Htd) as (o & off & _ & Hpl & Eid & Ho & ->).
  rewrite <- Eid in Hrow. rewrite <- Eq' in Hrow |- *.
  assert (Et : q.1 = MemoryObject.id o) by (by rewrite Eq, Eid).
  rewrite Et, <- (HV o off _ Ho Hpl Hrow). f_equal. lia.
Qed.
End execution.

(** ** Vectors and copies in memory *)
Lemma store_trace_frame (l : list Z) : ∀ (m : memory) (a x : Z),
  ¬ (a ≤ x < a + 8 * Z.of_nat (length l)) → store_trace m a l x = m x.
Proof.
  induction l as [|w l IH]; intros m a x Hx; [done|]. cbn [store_trace length] in *.
  rewrite IH by lia. apply (store_frame 8). lia.
Qed.

Lemma store_trace_load (l : list Z) : ∀ (m : memory) (a : Z) (j : nat) (w : Z),
  Forall (fun w => 0 ≤ w < 2 ^ 64) l → l !! j = Some w →
  load64 (store_trace m a l) (a + 8 * Z.of_nat j) = w.
Proof.
  induction l as [|w l IH]; intros m a j w' Hl Hj; [done|]. inversion_clear Hl as [|? ? Hw Hl'].
  cbn [store_trace]. destruct j as [|j].
  - injection Hj as <-. change (8 * Z.of_nat 0) with 0. rewrite Z.add_0_r.
    unfold load64. rewrite (load_ext _ (store m a 8 w)).
    + rewrite load_store_same. apply Z.mod_small. done.
    + intros x Hx. apply store_trace_frame. lia.
  - replace (a + 8 * Z.of_nat (S j)) with (a + 8 + 8 * Z.of_nat j) by lia. by apply IH.
Qed.

Lemma copy_n_load (m : memory) (s d x : Z) (n k : nat) :
  0 ≤ s → s + Z.of_nat n ≤ 2 ^ 64 → 0 ≤ d → d + Z.of_nat n ≤ 2 ^ 64 →
  (s + Z.of_nat n ≤ d ∨ d + Z.of_nat n ≤ s) → 0 ≤ x → x + Z.of_nat k ≤ Z.of_nat n →
  load (copy_n m s n d) (d + x) k = load m (s + x) k.
Proof.
  intros Hs Hs' Hd Hd' Hdis Hx Hk. apply load_shift. intros i Hi. rewrite copy_n_linear by done.
  rewrite !(proj2 (Z.leb_le _ _)), !(proj2 (Z.ltb_lt _ _)) by lia. cbn [andb]. f_equal. lia.
Qed.

Lemma copy_n_frame (m : memory) (s d x : Z) (n : nat) :
  0 ≤ s → s + Z.of_nat n ≤ 2 ^ 64 → 0 ≤ d → d + Z.of_nat n ≤ 2 ^ 64 →
  (s + Z.of_nat n ≤ d ∨ d + Z.of_nat n ≤ s) → ¬ (d ≤ x < d + Z.of_nat n) →
  copy_n m s n d x = m x.
Proof.
  intros Hs Hs' Hd Hd' Hdis Hx. rewrite copy_n_linear by done.
  destruct (d <=? x) eqn:E1, (x <? d + Z.of_nat n) eqn:E2; zbool; try done. lia.
Qed.

Lemma fill_zero_load (m : memory) (a n x : Z) (k : nat) :
  0 ≤ a → a + n ≤ 2 ^ 64 → 0 ≤ x → x + Z.of_nat k ≤ n → load (fill_zero m a n) (a + x) k = 0.
Proof.
  intros Ha Hn Hx Hk. unfold fill_zero. revert x Hx Hk.
  induction k as [|k IH]; intros x Hx Hk; [done|]. cbn [load].
  pose proof (memset0_in (Z.to_nat n) m a x ltac:(lia) ltac:(lia)) as E. rewrite u64_small in E by lia.
  rewrite E. replace (a + x + 1) with (a + (x + 1)) by lia. rewrite IH by lia. done.
Qed.

Lemma fill_zero_frame (m : memory) (a n x : Z) :
  0 ≤ a → 0 ≤ n → a + n ≤ 2 ^ 64 → 0 < 2 ^ 64 - a → ¬ (a ≤ x < a + n) → fill_zero m a n x = m x.
Proof.
  intros Ha Hn Hn' Ha' Hx. apply memset0_frame; [lia|]. intros i Hi. rewrite u64_small by lia. lia.
Qed.

(** ** Regions of memory *)
Inductive region :=
  | Tables (c : Z)
  | InstBlock (c : Z)
  | PsumBlock (c : Z)
  | ExecReg (c : Z)
  | PollReg (c : Z)
  | SwitchReg (c : Z)
  | CountReg (c : Z)
  | TraceVector
  | TmpBuffer
  | UserPsum.

#[export] Instance region_eq_dec : EqDecision region.
Proof. solve_decision. Defined.

(** [rs ⊆ rs'], and the side conditions of [same_load], for lists of regions. *)
Ltac sublist := intros ?; cbn [app]; rewrite ?elem_of_cons, ?elem_of_nil; tauto.
Ltac regions := repeat constructor; cbn; try done; try lia.

Definition apart (e e' : Z * Z) : Prop := e.1 + e.2 ≤ e'.1 ∨ e'.1 + e'.2 ≤ e.1.

Section system.
Import CxlSimulatorCore CxlProofs.
Context (tp : Constants) (op : SlsOperation.t) (mm : MemMap.t) (b : Z → blocks) (bufs : buffers).

Let F : Z := fbytes tp op.
Let PS : Z := psum_single_buf_size tp.
Let units : Z := NumOfCUnits tp.

(** Where a region is while pack [p] runs, as start and size. *)
Definition extent (p : Z) (r : region) : Z * Z :=
  match r with
  | Tables c => (channel_base (b c), 2 ^ 35)
  | InstBlock c => (instr_buf (b c), 8 * inst_per_single_buf tp)
  | PsumBlock c => (psum_buf (b c), PS)
  | ExecReg c => (cfgr (b c) + RegSlsExec tp, 4)
  | PollReg c => (cfgr (b c) + (RegPolling tp + 4), 4)
  | SwitchReg c => (cfgr (b c) + RegSlsEn tp, 4)
  | CountReg c => (cfgr (b c) + RegPolling tp + POLL_INST_NUM_OFFSET, 4)
  | TraceVector => (trace_data bufs p, 8 * inst_per_single_buf tp)
  | TmpBuffer => (tmp_data bufs p, PS)
  | UserPsum => (psum_ op, n_tables op * minibatch_size_ op * F)
  end.

Definition valid (r : region) : Prop :=
  match r with
  | Tables c | InstBlock c | PsumBlock c | ExecReg c | PollReg c | SwitchReg c | CountReg c =>
      0 ≤ c < units
  | _ => True
  end.

Definition inside (p : Z) (r : region) (x : Z) : Prop :=
  (extent p r).1 ≤ x < (extent p r).1 + (extent p r).2.

(** The topology, the memory map and the host's buffers fit together: the regions
    are in the address space and do not overlap. *)
Record system_ok : Prop := {
  sy_units : 0 < units ≤ 8;
  sy_inst : InstructionSize tp = 8 ∧ 0 < inst_per_single_buf tp < 2 ^ 32;
  sy_bytes : F = 64 ∨ F = 128 ∨ F = 256;
  sy_psum : 0 < PS ≤ 2 ^ 12 * F;
  sy_blocks : ∀ c, 0 ≤ c < units → get_blocks mm c = Ok (b c);
  sy_regs : 0 ≤ RegPolling tp ∧ RegPolling tp + 4 < 2 ^ 32 ∧ 0 ≤ RegSlsExec tp < 2 ^ 32 ∧
            0 ≤ RegSlsEn tp < 2 ^ 32;
  sy_tmp : ∀ p, p ∈ RankMemory.pack_identifiers tp → tmp_data bufs p ≠ 0;
  sy_range : ∀ p r, p ∈ RankMemory.pack_identifiers tp → valid r →
    0 ≤ (extent p r).1 ∧ (extent p r).1 + (extent p r).2 < 2 ^ 64;
  sy_apart : ∀ p r r', p ∈ RankMemory.pack_identifiers tp → valid r → valid r' → r ≠ r' →
    apart (extent p r) (extent p r')
}.
Context (Hsys : system_ok).

Section pack.
Context (p : Z) (Hp : p ∈ RankMemory.pack_identifiers tp).

(** Only the regions [rs] differ. *)
Definition changes (rs : list region) (m m' : memory) : Prop :=
  ∀ x, (∀ r, r ∈ rs → ¬ inside p r x) → m' x = m x.

Lemma changes_refl (rs : list region) (m : memory) : changes rs m m.
Proof. by intros x _. Qed.

Lemma changes_trans (rs rs' : list region) (m m' m'' : memory) :
  changes rs m m' → changes rs' m' m'' → changes (rs ++ rs') m m''.
Proof.
  intros H H' x Hx. rewrite H', H; [done| |]; intros r Hr; apply Hx, elem_of_app; auto.
Qed.

Lemma changes_mono (rs rs' : list region) (m m' : memory) :
  changes rs m m' → rs ⊆ rs' → changes rs' m m'.
Proof. intros H Hs x Hx. apply H. intros r Hr. by apply Hx, Hs. Qed.

Lemma changes_range (r : region) (m m' : memory) (a n : Z) :
  (extent p r).1 ≤ a → a + n ≤ (extent p r).1 + (extent p r).2 →
  (∀ x, ¬ (a ≤ x < a + n) → m' x = m x) → changes [r] m m'.
Proof.
  intros H1 H2 H x Hx. apply H. intros Hin. apply (Hx r); [by apply list_elem_of_singleton|].
  unfold inside. lia.
Qed.

(** A valid region outside the changed ones is as it was. *)
Lemma same_region (rs : list region) (r : region) (m m' : memory) (x : Z) :
  changes rs m m' → valid r → Forall (fun r' => valid r' ∧ r' ≠ r) rs → inside p r x →
  m' x = m x.
Proof.
  intros H Hv HF Hx. apply H. intros r' Hr' Hin.
  pose proof (proj1 (Forall_forall _ _) HF r' Hr') as [Hv' Hne].
  pose proof (sy_apart Hsys p r' r Hp Hv' Hv Hne) as Ha. unfold apart, inside in *. lia.
Qed.

Lemma same_load (rs : list region) (r : region) (m m' : memory) (a : Z) (n : nat) :
  changes rs m m' → valid r → Forall (fun r' => valid r' ∧ r' ≠ r) rs →
  (extent p r).1 ≤ a → a + Z.of_nat n ≤ (extent p r).1 + (extent p r).2 →
  load m' a n = load m a n.
Proof.
  intros H Hv HF H1 H2. apply load_ext. intros x Hx. eapply same_region; try done.
  unfold inside. lia.
Qed.

Lemma changes_store32 (r : region) (m : memory) (v : Z) :
  (extent p r).2 = 4 → changes [r] m (store32 m (extent p r).1 v).
Proof.
  intros E. apply (changes_range r _ _ (extent p r).1 4); [lia|lia|].
  intros x Hx. apply (store_frame 4). lia.
Qed.
End pack.

Lemma unit_blocks_ok (c : Z) : 0 ≤ c < units → blocks_ok tp (b c) F PS.
Proof.
  intros Hc. pose proof (sy_units Hsys) as Hu.
  assert (Hp : 1 ∈ RankMemory.pack_identifiers tp).
  { apply elem_of_pack_identifiers. unfold RankMemory.num_of_pack. fold units.
    rewrite Z.shiftl_1_l. split; [lia|]. apply (Z.pow_gt_1 2); lia. }
  pose proof (sy_range Hsys 1 (Tables c) Hp Hc) as Ht. pose proof (sy_range Hsys 1 (InstBlock c) Hp Hc) as Hi.
  pose proof (sy_range Hsys 1 (PsumBlock c) Hp Hc) as Hq. pose proof (sy_range Hsys 1 (CountReg c) Hp Hc) as Hr.
  pose proof (sy_apart Hsys 1 (Tables c) (PsumBlock c) Hp Hc Hc ltac:(done)) as A1.
  pose proof (sy_apart Hsys 1 (InstBlock c) (PsumBlock c) Hp Hc Hc ltac:(done)) as A2.
  pose proof (sy_apart Hsys 1 (CountReg c) (PsumBlock c) Hp Hc Hc ltac:(done)) as A3.
  unfold apart in *. cbn [extent fst snd] in *.
  split; try apply Hsys; cbv zeta; try lia.
Qed.

(** ** The device operations on a unit *)
Lemma unit_addresses (c : Z) :
  0 ≤ c < units →
  MemMap.block_addr mm c SLS_BLOCK_INST = Ok (instr_buf (b c)) ∧
  MemMap.block_addr mm c SLS_BLOCK_CFGR = Ok (cfgr (b c)) ∧
  MemMap.block_addr mm c SLS_BLOCK_PSUM = Ok (psum_buf (b c)).
Proof.
  intros Hc. pose proof (sy_blocks Hsys c Hc) as H. revert H. generalize (b c) as bb.
  unfold get_blocks. intros bb H. inv_result. done.
Qed.

Lemma unit_info (c : Z) :
  0 ≤ c < units → ∃ info, vec_at (MemMap.m_cunitAddrInfo mm) c = Ok info ∧
    vec_at (MemMap.addr info) SLS_BLOCK_INST = Ok (instr_buf (b c)) ∧
    vec_at (MemMap.addr info) SLS_BLOCK_PSUM = Ok (psum_buf (b c)).
Proof.
  intros Hc. destruct (unit_addresses c Hc) as (Hi & _ & Hq). unfold MemMap.block_addr in *.
  destruct (vec_at (MemMap.m_cunitAddrInfo mm) c) as [info|]; [|done]. by exists info.
Qed.

Lemma pack_1 : 1 ∈ RankMemory.pack_identifiers tp.
Proof.
  pose proof (sy_units Hsys). apply elem_of_pack_identifiers. unfold RankMemory.num_of_pack.
  fold units. rewrite Z.shiftl_1_l. split; [lia|]. apply (Z.pow_gt_1 2); lia.
Qed.

Lemma unit_registers (c : Z) :
  0 ≤ c < units →
  BaseDevice.exec_sls_register (HB := CxlSimulatorMemBlockHandler) tp mm c
    = Ok (cfgr (b c) + RegSlsExec tp) ∧
  BaseDevice.psum_poll_register (HB := CxlSimulatorMemBlockHandler) tp mm c
    = Ok (cfgr (b c) + (RegPolling tp + 4)) ∧
  BaseDevice.control_switch_register (HB := CxlSimulatorMemBlockHandler) tp mm c
    = Ok (cfgr (b c) + RegSlsEn tp).
Proof.
  intros Hc. destruct (unit_addresses c Hc) as (_ & Ha & _).
  pose proof (sy_range Hsys 1 (ExecReg c) pack_1 Hc) as H1.
  pose proof (sy_range Hsys 1 (PollReg c) pack_1 Hc) as H2.
  pose proof (sy_range Hsys 1 (SwitchReg c) pack_1 Hc) as H3. cbn [extent fst snd] in *.
  pose proof (sy_regs Hsys) as Hr.
  unfold BaseDevice.exec_sls_register, BaseDevice.psum_poll_register,
    BaseDevice.control_switch_register, get_mem_block_ptr. fold units.
  replace (c <? units) with true by lia. cbn [assert rbind get_block_ptr_impl
    CxlSimulatorMemBlockHandler CxlMemBlockHandler]. unfold cxl_block_ptr. rewrite Ha. cbn [rbind].
  unfold u32. rewrite !(Z.mod_small _ (2 ^ 32)) by lia. by rewrite !u64_small by lia.
Qed.

(** [write_exec_sls_register(ENABLE)] and what the worker stores at the end. *)
Definition enabled_mem (c : Z) (m : memory) : memory :=
  store32 (store32 m (cfgr (b c) + (RegPolling tp + 4)) 0) (cfgr (b c) + RegSlsExec tp)
    SLS_ENABLE_VALUE.

Definition finished_mem (c : Z) (m : memory) : memory :=
  store32 (store32 m (cfgr (b c) + RegSlsExec tp) SLS_DISABLE_VALUE)
    (cfgr (b c) + (RegPolling tp + 4)) POLL_FINISH_VALUE.

Lemma load32_store32 (m : memory) (a v : Z) : load32 (store32 m a v) a = u32 v.
Proof. apply (load_store_same 4). Qed.

(** ** One execution *)
Section one_execution.
Context (Hop : op_ok tp op) (Hlk : lookups_ok op) (Htype : op_type_ op = Uint32).
Context (p c : Z) (Hp : p ∈ RankMemory.pack_identifiers tp) (Hc : 0 ≤ c < units).
Context (dbg : bool) (V : Z → Z → Z → Z).
Let objs : list MemoryObject.t := pack_objs (layout_ op) p.
Context (Hobjs : ∀ o, o ∈ objs → ∃ off, placed tp op c o off).

(** Unit [c] holds the tables of the pack. *)
Definition tables_in (m : memory) : Prop := ∀ o off r e,
  o ∈ objs → placed tp op c o off → 0 ≤ r < table_rows op (MemoryObject.id o) → 0 ≤ e < F / 4 →
  load32 m (channel_base (b c) + off + r * F + 4 * e) = V (MemoryObject.id o) r e.

Lemma tables_in_changes (p0 : Z) (rs : list region) (m m' : memory) :
  p0 ∈ RankMemory.pack_identifiers tp → changes p0 rs m m' → Forall (fun r => valid r ∧ r ≠ Tables c) rs → tables_in m → tables_in m'.
Proof.
  intros Hp0 Hch HF Ht o off r e Ho Hpl Hr He. rewrite <- (Ht o off r e Ho Hpl Hr He).
  destruct Hpl as [_ [H0 _] Hend _]. fold F in Hend. pose proof (sy_bytes Hsys).
  assert (r * F + F ≤ table_rows op (MemoryObject.id o) * F) by nia.
  assert (4 * e + 4 ≤ F) by dlia. assert (0 ≤ r * F) by nia.
  apply (same_load p0 Hp0 rs (Tables c)); try done; cbn [extent fst snd]; change (Z.of_nat 4) with 4; lia.
Qed.

Context (e : Execution.t).
Let tds : list Execution.TableData := Execution.tables_data_ e.
Context (Htds : Forall (fun td => chunk_set td ∧ Forall (pair_ok op) (table_pairs td)) tds).
Context (Hnd : NoDup (exec_pairs e)).
Context (Hstored : ∀ td, td ∈ tds → ∃ o, o ∈ objs ∧ MemoryObject.id o = Execution.table_id_ td).
Context (Hfit : Z.of_nat (length (exec_pairs e)) * F ≤ PS).
Context (Hinst : 0 < sum_list_Z (batch_lookups op <$> exec_pairs e)).
Context (Hinst' : sum_list_Z (batch_lookups op <$> exec_pairs e) + 1 ≤ inst_per_single_buf tp).
Context (g : TraceGenerator.t) (Hg : generator_ok tp op objs g).

Lemma chunk_total : sum_list_Z (chunk_of <$> tds) = Z.of_nat (length (exec_pairs e)).
Proof.
  unfold exec_pairs. fold tds (flat table_pairs tds). rewrite length_flat. f_equal.
  apply list_fmap_ext. intros i td Htd. destruct (proj1 (Forall_lookup _ _) Htds i td Htd) as [Hset _].
  by rewrite (length_table_pairs td Hset).
Qed.

Let irs : list InstructionIR := exec_irs tp op objs c g tds.

Lemma exec_fit : sum_list_Z (chunk_of <$> tds) * fbytes tp op ≤ PS.
Proof. rewrite chunk_total. exact Hfit. Qed.

Lemma generated :
  ∃ g' code ir, TraceGenerator.generate_instructions (G := Channel dbg) g e
      (exec_lengths tp op tds) (exec_indices tp op tds) (type_value (op_type_ op)) c objs false = Ok g' ∧
    TraceGenerator.trace_ g' = TraceGenerator.write_header F false :: code ∧
    (fun w => ir_of_inst (G := Channel dbg) (ChannelInstGenerator.decode_instruction w)) <$> code = ir ∧
    ir ≡ₚ irs ∧
    (fun w => trace_end (ChannelInstGenerator.decode_instruction w)) <$> code =
      replicate (length ir - 1) 0 ++ [1] ∧
    Forall (fun w => 0 ≤ w < 2 ^ 64) (TraceGenerator.trace_ g') ∧
    Z.of_nat (length (TraceGenerator.trace_ g')) ≤ inst_per_single_buf tp.
Proof.
  pose proof (exec_table_ok tp op Hop Hlk objs c g Hobjs Hg tds Htds Hstored) as Htab.
  pose proof exec_fit as Hf. pose proof (sy_psum Hsys) as HPS.
  pose proof (exec_irs_ok tp op Hop Hlk Htype objs c g Hobjs Hg tds Htds Hstored (sy_bytes Hsys) PS
    Hf (proj2 HPS)) as [Henc _].
  assert (Hsm : sum_list_Z (chunk_of <$> tds) ≤ 2 ^ 12).
  { pose proof (sy_bytes Hsys). unfold F in *. nia. }
  assert (Hlen : Z.of_nat (length irs) = sum_list_Z (batch_lookups op <$> exec_pairs e))
    by exact (length_exec_irs tp op Hop objs c g tds Htds).
  fold irs in Henc. assert (Htot : sum_list_Z (chunk_of <$> tds) < 2 ^ 32) by lia.
  assert (Hne : irs ≠ []) by (intros E; rewrite E in Hlen; cbn [length] in Hlen; lia).
  destruct (generated_trace_spec (Channel dbg) _ g e (exec_lengths tp op tds) (exec_indices tp op tds)
    (type_value (op_type_ op)) c objs false Htab Htot Henc Hne)
    as (g' & code & ir & Hgen & Ht & Hir & Hpm & Hend).
  exists g', code, ir. destruct Hg as (Erow & _). fold F in Erow. rewrite Erow in Ht.
  split; [exact Hgen|]. split; [done|]. split; [done|]. split; [done|]. split; [done|]. split.
  - eapply (generated_trace_range (Channel dbg) _ g g' e); [exact Htab|exact Htot|exact Henc| |exact Hgen].
    rewrite Erow. destruct (sy_bytes Hsys) as [->|[->| ->]]; vm_compute; split; congruence.
  - rewrite Ht. cbn [length]. assert (El : length code = length irs).
    { rewrite <- Hir in Hpm. apply Permutation_length in Hpm. by rewrite length_fmap in Hpm. }
    rewrite El. lia.
Qed.

Lemma started_changes (m : memory) : changes p [PollReg c; ExecReg c] m (enabled_mem c m).
Proof.
  apply (changes_trans p [PollReg c] [ExecReg c] _ (store32 m (extent p (PollReg c)).1 0)).
  - by apply changes_store32.
  - by apply (changes_store32 p (ExecReg c)).
Qed.

Lemma finished_changes (m : memory) : changes p [ExecReg c; PollReg c] m (finished_mem c m).
Proof.
  apply (changes_trans p [ExecReg c] [PollReg c] _ (store32 m (extent p (ExecReg c)).1 SLS_DISABLE_VALUE)).
  - by apply changes_store32.
  - by apply (changes_store32 p (PollReg c)).
Qed.

(** The trace is written to its vector and copied to the instruction block, and the
    psum rows are cleared. *)
Definition prepared (tr : list Z) (size : Z) (m : memory) : memory :=
  fill_zero (copy_n (store_trace m (trace_data bufs p) tr) (trace_data bufs p)
               (Z.to_nat (8 * Z.of_nat (length tr))) (instr_buf (b c)))
    (psum_buf (b c)) size.

Lemma prepared_spec (tr : list Z) (size : Z) (m : memory) :
  Forall (fun w => 0 ≤ w < 2 ^ 64) tr → Z.of_nat (length tr) ≤ inst_per_single_buf tp →
  0 ≤ size ≤ PS →
  changes p [TraceVector; InstBlock c; PsumBlock c] m (prepared tr size m) ∧
  trace_in_memory (b c) (prepared tr size m) tr ∧
  (∀ x, 0 ≤ x → x + 4 ≤ size → load32 (prepared tr size m) (psum_buf (b c) + x) = 0).
Proof.
  intros Htr Hlen Hsz. unfold prepared. set (T := trace_data bufs p).
  set (n := Z.to_nat (8 * Z.of_nat (length tr))).
  pose proof (sy_range Hsys p TraceVector Hp I) as HT. pose proof (sy_range Hsys p (InstBlock c) Hp Hc) as HI.
  pose proof (sy_range Hsys p (PsumBlock c) Hp Hc) as HP.
  pose proof (sy_apart Hsys p TraceVector (InstBlock c) Hp I Hc ltac:(done)) as A1.
  unfold apart in A1. cbn [extent fst snd] in *. fold T in HT, A1.
  assert (Hn : Z.of_nat n = 8 * Z.of_nat (length tr)) by lia.
  set (m1 := store_trace m T tr). set (m2 := copy_n m1 T n (instr_buf (b c))).
  assert (C1 : changes p [TraceVector] m m1).
  { apply (changes_range p TraceVector _ _ T (8 * Z.of_nat (length tr))); cbn [extent fst snd]; fold T; [lia|lia|].
    intros x Hx. by apply store_trace_frame. }
  assert (C2 : changes p [InstBlock c] m1 m2).
  { apply (changes_range p (InstBlock c) _ _ (instr_buf (b c)) (Z.of_nat n)); cbn [extent fst snd]; [lia|lia|].
    intros x Hx. apply copy_n_frame; lia. }
  assert (C3 : changes p [PsumBlock c] m2 (fill_zero m2 (psum_buf (b c)) size)).
  { apply (changes_range p (PsumBlock c) _ _ (psum_buf (b c)) size); cbn [extent fst snd]; [lia|lia|].
    intros x Hx. apply fill_zero_frame; lia. }
  split; [|split].
  - exact (changes_trans p [TraceVector] [InstBlock c; PsumBlock c] _ _ _ C1
      (changes_trans p [InstBlock c] [PsumBlock c] _ _ _ C2 C3)).
  - intros j w Hj. pose proof (lookup_lt_Some _ _ _ Hj) as Hjl. unfold load64.
    rewrite (same_load p Hp [PsumBlock c] (InstBlock c) _ _ _ 8 C3 Hc); cbn [extent fst snd]; try lia; [|regions].
    unfold m2. rewrite copy_n_load by lia. by apply store_trace_load.
  - intros x Hx Hx'. apply (fill_zero_load _ _ _ _ 4); lia.
Qed.

Lemma device_run (tr code : list Z) (ir : list InstructionIR) (m : memory) :
  tr = TraceGenerator.write_header F false :: code →
  (fun w => ir_of_inst (G := Channel dbg) (ChannelInstGenerator.decode_instruction w)) <$> code = ir →
  ir ≡ₚ irs →
  (fun w => trace_end (ChannelInstGenerator.decode_instruction w)) <$> code =
    replicate (length ir - 1) 0 ++ [1] →
  Forall (fun w => 0 ≤ w < 2 ^ 64) tr → Z.of_nat (length tr) ≤ inst_per_single_buf tp →
  tables_in m →
  let m3 := prepared tr (Z.of_nat (length (exec_pairs e)) * F) m in
  ∃ m6, exec_trace tp mm (enabled_mem c m3) c = Ok m6 ∧
    changes p [TraceVector; InstBlock c; PsumBlock c] m m3 ∧
    changes p [PsumBlock c; CountReg c] (enabled_mem c m3) m6 ∧
    (∀ k q e', exec_pairs e !! k = Some q → 0 ≤ e' < F / 4 →
       load32 (finished_mem c m6) (psum_buf (b c) + Z.of_nat k * F + 4 * e') = sls_sum op V q e').
Proof.
  intros Etr Hdec Hperm Hend Hrange Hlen Htab m3.
  pose proof (sy_bytes Hsys) as HF. pose proof (sy_psum Hsys) as HPS.
  destruct (prepared_spec tr (Z.of_nat (length (exec_pairs e)) * F) m Hrange Hlen ltac:(lia))
    as (C3 & Hmem & Hzero). fold m3 in C3, Hmem, Hzero.
  pose proof (started_changes m3) as C5. set (m5 := enabled_mem c m3) in *.
  assert (C35 : changes p [TraceVector; InstBlock c; PsumBlock c; PollReg c; ExecReg c] m m5)
    by exact (changes_trans p [TraceVector; InstBlock c; PsumBlock c] _ _ _ _ C3 C5).
  assert (Hmem5 : trace_in_memory (b c) m5 tr).
  { intros j w Hj. rewrite <- (Hmem j w Hj). pose proof (lookup_lt_Some _ _ _ Hj).
    apply (same_load p Hp [PollReg c; ExecReg c] (InstBlock c) _ _ _ 8 C5 Hc);
      cbn [extent fst snd]; try lia. regions. }
  assert (Htab5 : tables_in m5) by (eapply tables_in_changes; [exact Hp|exact C35|regions|done]).
  pose proof (exec_irs_ok tp op Hop Hlk Htype objs c g Hobjs Hg tds Htds Hstored HF PS
    exec_fit (proj2 HPS)) as [_ Hiok]. fold irs in Hiok.
  rewrite Etr in Hmem5.
  destruct (exec_trace_spec tp mm c (b c) m5 F PS (unit_blocks_ok c Hc) (sy_blocks Hsys c Hc)
    ltac:(pose proof (sy_inst Hsys); lia) dbg code ir Hmem5 Hdec Hend) as (m6 & Hx & Hsum & _ & Hfr).
  { by rewrite Hperm. }
  { rewrite Etr in Hlen. cbn [length] in Hlen. lia. }
  exists m6. split; [done|].
  assert (C6 : changes p [PsumBlock c; CountReg c] m5 m6).
  { intros x Hx'. apply Hfr.
    - intros Hin. apply (Hx' (PsumBlock c)); [by left|exact Hin].
    - pose proof (sy_range Hsys p (CountReg c) Hp Hc) as Hr. unfold inside in Hx'.
      specialize (Hx' (CountReg c) ltac:(right; by left)). cbn [extent fst snd] in *.
      unfold counter_reg. rewrite u64_small by lia. lia. }
  split; [done|]. split; [done|].
  - intros k q e' Hk He. pose proof (lookup_lt_Some _ _ _ Hk) as Hkl.
    assert (Hslot : 0 ≤ Z.of_nat k * F ∧ (Z.of_nat k + 1) * F ≤ Z.of_nat (length (exec_pairs e)) * F) by nia.
    assert (4 * e' + 4 ≤ F) by dlia. unfold load32.
    rewrite (same_load p Hp [ExecReg c; PollReg c] (PsumBlock c) m6 _ _ 4 (finished_changes m6) Hc);
      cbn [extent fst snd]; try lia; [|regions].
    change (load m6 (psum_buf (b c) + Z.of_nat k * F + 4 * e') 4) with (load32 m6 (slot (b c) F (Z.of_nat k) e')).
    rewrite Hsum by lia. rewrite (contributions_perm (b c) m5 _ _ _ _ Hperm).
    assert (E0 : load32 m5 (slot (b c) F (Z.of_nat k) e') = 0).
    { rewrite <- (Hzero (Z.of_nat k * F + 4 * e')) by lia. unfold slot. rewrite <- Z.add_assoc.
      apply (same_load p Hp [PollReg c; ExecReg c] (PsumBlock c) _ _ _ 4 C5 Hc);
        cbn [extent fst snd]; try lia. regions. }
    rewrite E0, Z.add_0_l.
    apply (exec_sums tp op Hop Hlk Htype objs c g Hobjs Hg tds Htds Hstored HF PS exec_fit
      (proj2 HPS) (b c) m5 V k q e'); [|done].
    intros o off r Ho Hpl Hr. by apply Htab5.
Qed.
End one_execution.

Section tasks.
Context {K : Type} {D : CunitDriver K}.
Context (w : world unit K) (Hw : mem_map w = mm).
#[local] Existing Instance CxlSimulatorMemBlockHandler.
#[local] Hint Extern 0 (ComputeDevice unit _) => exact (CxlSimulatorComputeDevice tp) : typeclass_instances.

(** The world with another memory. *)
Definition at_mem (m : memory) : world unit K := set_mem w tt m.

Lemma on_memory_at (f : MemMap.t → unit → memory → result (unit * memory)) (m m' : memory) :
  f mm tt m = Ok (tt, m') → on_memory f (at_mem m) = (at_mem m', Ok tt).
Proof. intros E. unfold on_memory. cbn. rewrite Hw. by rewrite E. Qed.

Lemma mbind_at {A B} (t : task unit K A) (k : A → task unit K B) (u u' : world unit K) (a : A) :
  t u = (u', Ok a) → mbind t k u = k a u'.
Proof. intros E. unfold mbind. by rewrite E. Qed.

Lemma store_register_at (reg : MemMap.t → result Z) (r v : Z) (m : memory) :
  reg mm = Ok r → store_register reg v (at_mem m) = (at_mem (store32 m r v), Ok tt).
Proof. intros E. apply on_memory_at. by rewrite E. Qed.

Lemma load_register_at (reg : MemMap.t → result Z) (r : Z) (m : memory) :
  reg mm = Ok r → load_register reg (at_mem m) = (at_mem m, Ok (load32 m r)).
Proof. intros E. unfold load_register. cbn. by rewrite Hw, E. Qed.

Lemma write_inst_at (c src n : Z) (m : memory) :
  0 ≤ c < units →
  write_buffer tp c INST src n (at_mem m) =
  (at_mem (copy_n m src (Z.to_nat n) (instr_buf (b c))), Ok tt).
Proof.
  intros Hc. destruct (unit_info c Hc) as (info & Hi & Ha & _). apply on_memory_at.
  unfold write_block. fold units. replace (c <? units) with true by lia. cbn [assert rbind].
  rewrite Hi. cbn [rbind]. unfold write_block_impl. cbn [Z.eqb SLS_BLOCK_INST].
  cbn [inst_writer CxlSimulatorMemBlockHandler CxlMemBlockHandler]. unfold RawBlockWriter.
  change (vec_at (MemMap.addr info) 1) with (vec_at (MemMap.addr info) SLS_BLOCK_INST).
  rewrite Ha. cbn [rbind]. rewrite Z.add_0_r.
  pose proof (sy_range Hsys 1 (InstBlock c) pack_1 Hc) as H. cbn [extent fst snd] in H.
  pose proof (sy_inst Hsys). by rewrite u64_small by lia.
Qed.

Lemma read_psum_at (c dst n : Z) (m : memory) :
  0 ≤ c < units →
  read_buffer tp c PSUM dst n (at_mem m) =
  (at_mem (copy_n m (psum_buf (b c)) (Z.to_nat n) dst), Ok tt).
Proof.
  intros Hc. destruct (unit_info c Hc) as (info & Hi & _ & Ha). apply on_memory_at.
  unfold read_block. fold units. replace (c <? units) with true by lia. cbn [assert rbind].
  rewrite Hi. cbn [rbind]. unfold read_block_impl. cbn [Z.eqb SLS_BLOCK_PSUM Pos.eqb].
  cbn [psum_reader CxlSimulatorMemBlockHandler CxlMemBlockHandler]. unfold RawBlockReader.
  change (vec_at (MemMap.addr info) 4) with (vec_at (MemMap.addr info) SLS_BLOCK_PSUM).
  rewrite Ha. cbn [rbind]. rewrite Z.add_0_r.
  pose proof (sy_psum Hsys). pose proof (sy_range Hsys 1 (PsumBlock c) pack_1 Hc) as Hr.
  cbn [extent fst snd] in Hr. by rewrite u64_small by lia.
Qed.

Lemma reset_output_at (c n : Z) (m : memory) :
  0 ≤ c < units →
  reset_output_buffers c n (at_mem m) = (at_mem (fill_zero m (psum_buf (b c)) n), Ok tt).
Proof.
  intros Hc. destruct (unit_addresses c Hc) as (_ & _ & Ha). apply on_memory_at.
  unfold get_mem_block_ptr. cbn [get_block_ptr_impl CxlSimulatorMemBlockHandler CxlMemBlockHandler].
  unfold cxl_block_ptr. rewrite Ha. cbn [rbind]. change (u32 0) with 0. rewrite Z.add_0_r.
  pose proof (sy_psum Hsys). pose proof (sy_range Hsys 1 (PsumBlock c) pack_1 Hc) as Hr.
  cbn [extent fst snd] in Hr. by rewrite u64_small by lia.
Qed.

Lemma run_at (fuel : nat) (c : Z) (m m' : memory) :
  0 ≤ c < units → exec_trace tp mm (enabled_mem c m) c = Ok m' →
  cxl_run tp (S fuel) c (at_mem m) = (at_mem (finished_mem c m'), Ok tt).
Proof.
  intros Hc He. destruct (unit_registers c Hc) as (Rx & Rp & _).
  pose proof (sy_apart Hsys 1 (ExecReg c) (PollReg c) pack_1 Hc Hc ltac:(done)) as Hap.
  unfold apart in Hap. cbn [extent fst snd] in Hap.
  unfold cxl_run, run_async. cbn [write_exec_sls_register CxlSimulatorComputeDevice].
  unfold sim_write_exec_sls_register. cbn [Z.eqb SLS_ENABLE_VALUE Pos.eqb].
  unfold reset_psum_poll_register, base_write_exec_sls_register.
  erewrite (mbind_at _ _ (at_mem m)).
  2:{ erewrite (mbind_at _ _ (at_mem m)) by (by apply store_register_at). by apply store_register_at. }
  unfold cxl_poll. cbn [poll_register].
  erewrite (mbind_at _ _ (at_mem _)) by (by apply load_register_at).
  fold (enabled_mem c m).
  assert (Ep : load32 (enabled_mem c m) (cfgr (b c) + (RegPolling tp + 4)) = 0).
  { unfold enabled_mem, load32, store32. rewrite (load_store_other _ _ _ _ 4 4) by lia.
    apply (load_store_same 4). }
  rewrite Ep. change (0 =? POLL_FINISH_VALUE) with false.
  assert (Ht : worker_turn tp c (at_mem (enabled_mem c m)) = (at_mem (finished_mem c m'), Ok tt)).
  { unfold worker_turn, worker_iteration.
    erewrite (mbind_at _ _ (at_mem _)) by (by apply load_register_at).
    unfold enabled_mem at 1. rewrite load32_store32. change (negb _) with false. cbv iota.
    erewrite (mbind_at _ _ (at_mem _)).
    2:{ cbn [exec_sls CxlSimulatorComputeDevice].
        apply (on_memory_at _ _ m'). rewrite He. done. }
    erewrite (mbind_at _ _ (at_mem _)) by (by apply store_register_at).
    erewrite store_register_at by done. done. }
  cbv iota. erewrite (mbind_at _ _ (at_mem _)) by (exact Ht).
  destruct fuel; cbn [poll_register];
    erewrite (mbind_at _ _ (at_mem _)) by (by apply load_register_at);
    unfold finished_mem; rewrite load32_store32; reflexivity.
Qed.

(** ** One execution with its results *)
Section process_exec.
Context (Hop : op_ok tp op) (Hlk : lookups_ok op) (Htype : op_type_ op = Uint32).
Context (p c : Z) (Hp : p ∈ RankMemory.pack_identifiers tp) (Hc : 0 ≤ c < units).
Context (dbg : bool) (V : Z → Z → Z → Z).
Let objs : list MemoryObject.t := pack_objs (layout_ op) p.
Context (Hobjs : ∀ o, o ∈ objs → ∃ off, placed tp op c o off).

(** An execution the device can run. *)
Record exec_ok (e : Execution.t) : Prop := {
  eo_tables : Forall (fun td => chunk_set td ∧ Forall (pair_ok op) (table_pairs td))
                (Execution.tables_data_ e);
  eo_nodup : NoDup (exec_pairs e);
  eo_stored : ∀ td, td ∈ Execution.tables_data_ e →
    ∃ o, o ∈ objs ∧ MemoryObject.id o = Execution.table_id_ td;
  eo_fit : Z.of_nat (length (exec_pairs e)) * F ≤ PS;
  eo_size : Execution.psum_size_ e = Z.of_nat (length (exec_pairs e)) * F;
  eo_some : 0 < sum_list_Z (batch_lookups op <$> exec_pairs e);
  eo_inst : sum_list_Z (batch_lookups op <$> exec_pairs e) + 1 ≤ inst_per_single_buf tp
}.

Definition unit_regions : list region :=
  [TraceVector; InstBlock c; PsumBlock c; PollReg c; ExecReg c; CountReg c; TmpBuffer; UserPsum].

(** The user's buffer from the device's psum rows, through the temporary buffer. *)
Lemma gather_spec (e : Execution.t) (m : memory) (val : Z * Z → Z → Z) :
  exec_ok e →
  (∀ k q e', exec_pairs e !! k = Some q → 0 ≤ e' < F / 4 →
     load32 m (psum_buf (b c) + Z.of_nat k * F + 4 * e') = val q e') →
  let m9 := copy_n m (psum_buf (b c)) (Z.to_nat (Z.of_nat (length (exec_pairs e)) * F)) (tmp_data bufs p) in
  let m' := write_exec e (a_psum <$> (chunk_cell tp op <$> Execution.tables_data_ e))
              (tmp_data bufs p) F m9 in
  (∀ q e', q ∈ exec_pairs e → 0 ≤ e' < F / 4 → load32 m' (psum_slot tp op q + 4 * e') = val q e') ∧
  (∀ q j, pair_ok op q → q ∉ exec_pairs e → 0 ≤ j < F →
     m' (psum_slot tp op q + j) = m (psum_slot tp op q + j)) ∧
  changes p [TmpBuffer; UserPsum] m m'.
Proof.
  intros He Hval m9 m'. destruct He as [HFt Hnd _ Hfit _ _ _].
  pose proof (sy_bytes Hsys) as HF. pose proof (sy_psum Hsys) as HPS.
  pose proof (sy_range Hsys p TmpBuffer Hp I) as Hr1. pose proof (sy_range Hsys p (PsumBlock c) Hp Hc) as Hr2.
  pose proof (sy_range Hsys p UserPsum Hp I) as Hr3.
  pose proof (sy_apart Hsys p TmpBuffer (PsumBlock c) Hp I Hc ltac:(done)) as A1.
  pose proof (sy_apart Hsys p TmpBuffer UserPsum Hp I I ltac:(done)) as A2.
  unfold apart in A1, A2. cbn [extent fst snd] in *. set (T := tmp_data bufs p) in *.
  set (S := Z.of_nat (length (exec_pairs e)) * F) in *.
  assert (HS : 0 ≤ S) by (unfold S; lia). assert (HSn : Z.of_nat (Z.to_nat S) = S) by lia.
  assert (Hm9 : ∀ x, ¬ (T ≤ x < T + S) → m9 x = m x).
  { intros x Hx. apply copy_n_frame; lia. }
  assert (Hhit : ∀ k q j, exec_pairs e !! k = Some q → 0 ≤ j < F →
    m' (psum_slot tp op q + j) = m9 (T + Z.of_nat k * F + j)).
  { intros k q j Hk Hj. apply (write_exec_hit tp op Hop e T m9 HFt Hnd); try done; fold F S; lia. }
  assert (Hmiss : ∀ x, (∀ q j, q ∈ exec_pairs e → 0 ≤ j < F → x ≠ psum_slot tp op q + j) →
    m' x = m9 x).
  { intros x Hx. apply (write_exec_frame tp op Hop e T m9 HFt); try done; fold F S; lia. }
  split; [|split].
  - intros q e' Hq He'. apply list_elem_of_lookup_1 in Hq as [k Hk].
    pose proof (lookup_lt_Some _ _ _ Hk). assert (4 * e' + 4 ≤ F) by dlia.
    assert (Z.of_nat k * F + F ≤ S) by (unfold S; nia). assert (0 ≤ Z.of_nat k * F) by nia.
    rewrite <- (Hval k q e' Hk He'). unfold load32.
    rewrite (load_shift m9 m' 4 (T + (Z.of_nat k * F + 4 * e'))).
    + unfold m9. rewrite copy_n_load by lia. f_equal. lia.
    + intros i Hi. rewrite <- Z.add_assoc, (Hhit k q) by (done || lia). f_equal. lia.
  - intros q j Hq Hno Hj. pose proof (psum_slot_range tp op Hop q Hq) as Hsr. fold F in Hsr.
    rewrite Hmiss.
    + apply Hm9. lia.
    + intros q' j' Hq' Hj' E. apply (psum_slot_inj tp op) in E as [<- _]; try done.
      apply elem_of_concat in Hq' as (l & (td & -> & Htd)%list_elem_of_fmap & Hl).
      pose proof (proj1 (Forall_forall _ _) HFt td Htd) as [_ HFp].
      exact (proj1 (Forall_forall _ _) HFp q' Hl).
  - intros x Hx. rewrite Hmiss.
    + apply Hm9. intros Hin. apply (Hx TmpBuffer); [by left|]. unfold inside. cbn [extent fst snd].
      fold T. lia.
    + intros q j Hq Hj ->. apply elem_of_concat in Hq as (l & (td & -> & Htd)%list_elem_of_fmap & Hl).
      pose proof (proj1 (Forall_forall _ _) HFt td Htd) as [_ HFp].
      pose proof (proj1 (Forall_forall _ _) HFp q Hl) as Hq.
      pose proof (psum_slot_range tp op Hop q Hq) as Hsr. fold F in Hsr.
      apply (Hx UserPsum); [right; by left|]. unfold inside. cbn [extent fst snd]. lia.
Qed.

(** What [process_exec] does before it starts the unit. *)
Definition prepare (r : SparseReduction.t (Channel dbg)) (i : Z) : task unit K unit :=
  do! bytes := generate_trace bufs r p c i in
  do! _ := write_buffer tp c INST (trace_data bufs p) bytes in
  do! size := mlift (get_tmp_buffer r p i) in
  reset_output_buffers c size.

Lemma process_exec_split (r : SparseReduction.t (Channel dbg)) (i : Z) (fuel : nat) (u : world unit K) :
  cxl_process_exec tp bufs fuel r p c i u =
  mbind (prepare r i) (fun _ => mbind (cxl_run tp fuel c) (fun _ =>
    read_output_buffers tp bufs r c p i)) u.
Proof.
  unfold cxl_process_exec, prepare, mbind.
  repeat match goal with |- context [match ?t ?u with _ => _ end] =>
    destruct (t u) as [? [?|?]] eqn:?; try done end.
Qed.

(** The registers of the unit while an execution is prepared and gathered. *)
Definition stopped (m : memory) : Prop :=
  load32 m (cfgr (b c) + RegSlsExec tp) ≠ SLS_ENABLE_VALUE.

(** The states between the steps of an execution. *)
Record exec_steps (r : SparseReduction.t (Channel dbg)) (i : Z) (m m3 m6 m' : memory) : Prop := {
  es_prepare : prepare r i (at_mem m) = (at_mem m3, Ok tt);
  es_exec : exec_trace tp mm (enabled_mem c m3) c = Ok m6;
  es_read : read_output_buffers tp bufs r c p i (at_mem (finished_mem c m6)) = (at_mem m', Ok tt);
  es_prepared : changes p [TraceVector; InstBlock c; PsumBlock c] m m3;
  es_computed : changes p [PsumBlock c; CountReg c] (enabled_mem c m3) m6;
  es_gathered : changes p [TmpBuffer; UserPsum] (finished_mem c m6) m'
}.

Lemma exec_steps_at (r : SparseReduction.t (Channel dbg)) (i : Z) (fuel : nat) (m m3 m6 m' : memory) :
  exec_steps r i m m3 m6 m' →
  cxl_process_exec tp bufs (S fuel) r p c i (at_mem m) = (at_mem m', Ok tt).
Proof.
  intros [H1 H2 H3 _ _ _]. rewrite process_exec_split.
  erewrite (mbind_at _ _ (at_mem _)) by exact H1.
  by erewrite (mbind_at _ _ (at_mem _)) by (by apply run_at).
Qed.

Lemma process_exec_at (r : SparseReduction.t (Channel dbg)) (i : Z) (e : Execution.t)
    (g : TraceGenerator.t) (m : memory) :
  sls_op_ r = op → get_exec r p i = Ok e →
  exec_addr (packs_data_ r) p i = Ok (chunk_cell tp op <$> Execution.tables_data_ e) →
  vec_at (trace_gen_ r) p = Ok g → generator_ok tp op objs g → vec_at (layout_ op) p = Ok objs →
  exec_ok e → tables_in p c V m →
  ∃ m3 m6 m', exec_steps r i m m3 m6 m' ∧
    (∀ q e', q ∈ exec_pairs e → 0 ≤ e' < F / 4 →
       load32 m' (psum_slot tp op q + 4 * e') = sls_sum op V q e') ∧
    (∀ q j, pair_ok op q → q ∉ exec_pairs e → 0 ≤ j < F →
       m' (psum_slot tp op q + j) = m (psum_slot tp op q + j)) ∧
    changes p unit_regions m m'.
Proof.
  intros Hr He Ha Hg Hgok Hl Hok Htab. pose proof Hok as [HFt Hnd Hst Hfit Hsz Hsome Hinst].
  pose proof (untagged op Htype) as Hun.
  destruct (generated Hop Hlk Htype p c dbg Hobjs e HFt Hst Hfit Hsome Hinst g Hgok)
    as (g' & code & ir & Hgen & Etr & Hdec & Hperm & Hend & Hrange & Hlen).
  destruct (device_run Hop Hlk Htype p c Hp Hc dbg V Hobjs e HFt Hst Hfit Hsome Hinst g Hgok _ code ir m Etr Hdec
    Hperm Hend Hrange Hlen Htab) as (m6 & Hx & C3 & C6 & Hsum).
  set (m3 := prepared _ _ _ _ _) in *. set (m8 := finished_mem c m6) in *.
  destruct (gather_spec e m8 (sls_sum op V) Hok Hsum) as (H1 & H2 & C10).
  set (m10 := write_exec _ _ _ _ _) in *.
  assert (C8 : changes p [TraceVector; InstBlock c; PsumBlock c; PollReg c; ExecReg c; CountReg c] m m8).
  { eapply changes_mono; [exact (changes_trans p _ _ _ _ _ C3 (changes_trans p _ _ _ _ _
      (started_changes p c m3) (changes_trans p _ _ _ _ _ C6 (finished_changes p c m6))))|]. sublist. }
  assert (Etmp : get_tmp_buffer r p i = Ok (Z.of_nat (length (exec_pairs e)) * F)).
  { unfold get_tmp_buffer. rewrite He. cbn [rbind]. by rewrite <- Hsz. }
  exists m3, m6, m10. split; [split; try done|split; [exact H1|split]].
  - unfold prepare, generate_trace.
    assert (Egi : generate_instructions r p c i = Ok g').
    { unfold generate_instructions. rewrite He. cbn [rbind]. rewrite Ha. cbn [rbind].
      rewrite Hg. cbn [rbind]. rewrite Hr, Hl. cbn [rbind]. rewrite Hun. exact Hgen. }
    erewrite (mbind_at _ _ (at_mem m)).
    2:{ erewrite (mbind_at _ _ (at_mem m)) by (unfold mlift; by rewrite Egi).
        erewrite (mbind_at _ _ (at_mem m)) by (by apply on_memory_at). reflexivity. }
    erewrite (mbind_at _ _ (at_mem _)) by (by apply write_inst_at).
    erewrite (mbind_at _ _ (at_mem _)) by (unfold mlift; by rewrite Etmp).
    by apply reset_output_at.
  - unfold read_output_buffers.
    erewrite (mbind_at _ _ (at_mem _)) by (unfold mlift; by rewrite Etmp).
    assert (Eout : range (get_num_outputs r) = [0]) by (unfold get_num_outputs; by rewrite Hr, Hun).
    rewrite Eout. cbn [mfold dispatch_read_op].
    erewrite (mbind_at _ _ (at_mem _)); [reflexivity|].
    erewrite (mbind_at _ _ (at_mem _)) by (by apply read_psum_at).
    apply on_memory_at. unfold write_result. rewrite He. cbn [rbind]. rewrite Ha. cbn [rbind].
    pose proof (sy_tmp Hsys p Hp). replace (tmp_data bufs p =? 0) with false by lia.
    cbn [negb assert rbind]. rewrite Hr, (fbytes_data_nb tp op Hop). done.
  - intros q j Hq Hno Hj. rewrite H2 by done.
    pose proof (psum_slot_range tp op Hop q Hq) as Hsr. fold F in Hsr.
    eapply (same_region p Hp _ UserPsum); [exact C8|done|regions|].
    unfold inside. cbn [extent fst snd]. lia.
  - eapply changes_mono; [exact (changes_trans p _ _ _ _ _ C8 C10)|]. unfold unit_regions. sublist.
Qed.
End process_exec.

(** ** All executions of a pack *)
Lemma mfold_at {A} (f : A → task unit K unit) (I : list A → memory → Prop) (l : list A) (m : memory) :
  I [] m →
  (∀ dn x todo m, l = dn ++ x :: todo → I dn m →
     ∃ m', f x (at_mem m) = (at_mem m', Ok tt) ∧ I (dn ++ [x]) m') →
  ∃ m', mfold f l (at_mem m) = (at_mem m', Ok tt) ∧ I l m'.
Proof.
  intros H0 Hstep.
  assert (H : ∀ todo dn m, l = dn ++ todo → I dn m →
    ∃ m', mfold f todo (at_mem m) = (at_mem m', Ok tt) ∧ I l m').
  { induction todo as [|x todo IH]; intros dn m0 E HI.
    - exists m0. rewrite app_nil_r in E. by subst.
    - destruct (Hstep dn x todo m0 E HI) as (m1 & Hf & HI1).
      destruct (IH (dn ++ [x]) m1) as (m2 & Hm & HI2); [by rewrite <- app_assoc|done|].
      exists m2. split; [|done]. cbn [mfold]. by erewrite (mbind_at _ _ (at_mem m0)) by exact Hf. }
  by apply (H l [] m).
Qed.

Section process_execs.
Context (Hop : op_ok tp op) (Hlk : lookups_ok op) (Htype : op_type_ op = Uint32).
Context (p c : Z) (Hp : p ∈ RankMemory.pack_identifiers tp) (Hc : 0 ≤ c < units).
Context (dbg : bool) (V : Z → Z → Z → Z).
Let objs : list MemoryObject.t := pack_objs (layout_ op) p.
Context (Hobjs : ∀ o, o ∈ objs → ∃ off, placed tp op c o off).
Context (r : SparseReduction.t (Channel dbg)) (E : list Execution.t) (g : TraceGenerator.t).

(** What the operation has prepared for the pack. *)
Record pack_ready : Prop := {
  pr_op : sls_op_ r = op;
  pr_execs : ExecutionGenerator.get_pack_execs (exec_gen_ r) p = Ok E;
  pr_get : ∀ i, get_exec r p i = vec_at E i;
  pr_addr : ∀ i e, E !! Z.to_nat i = Some e → 0 ≤ i →
    exec_addr (packs_data_ r) p i = Ok (chunk_cell tp op <$> Execution.tables_data_ e);
  pr_gen : vec_at (trace_gen_ r) p = Ok g;
  pr_gen_ok : generator_ok tp op objs g;
  pr_layout : vec_at (layout_ op) p = Ok objs;
  pr_ok : Forall (exec_ok p) E;
  pr_count : Z.of_nat (length E) < 2 ^ 32
}.
Context (Hready : pack_ready).

(** The batches of the executions [dn] are in the user's buffer, the others are as
    they were. *)
Record gathered (m : memory) (dn : list Z) (m' : memory) : Prop := {
  ga_done : ∀ i e q e', i ∈ dn → E !! Z.to_nat i = Some e → q ∈ exec_pairs e → 0 ≤ e' < F / 4 →
    load32 m' (psum_slot tp op q + 4 * e') = sls_sum op V q e';
  ga_other : ∀ q j, pair_ok op q → q ∉ concat (exec_pairs <$> E) → 0 ≤ j < F →
    m' (psum_slot tp op q + j) = m (psum_slot tp op q + j);
  ga_changes : changes p (unit_regions c) m m'
}.

Lemma exec_pair_ok (e : Execution.t) (q : Z * Z) : e ∈ E → q ∈ exec_pairs e → pair_ok op q.
Proof.
  intros He Hq. pose proof (proj1 (Forall_forall _ _) (pr_ok Hready) e He) as [HFt _ _ _ _ _ _].
  apply elem_of_concat in Hq as (l & (td & -> & Htd)%list_elem_of_fmap & Hl).
  pose proof (proj1 (Forall_forall _ _) HFt td Htd) as [_ HFp].
  exact (proj1 (Forall_forall _ _) HFp q Hl).
Qed.

Lemma unit_regions_keep_tables (d : Z) :
  0 ≤ d < units → Forall (fun r => valid r ∧ r ≠ Tables d) (unit_regions c).
Proof. intros Hd. unfold unit_regions. regions. Qed.

(** The next execution. *)
Lemma next_exec (m m1 : memory) (dn : list Z) (i : Z) :
  tables_in p c V m → gathered m dn m1 → 0 ≤ i < Z.of_nat (length E) →
  ∃ m3 m6 m2, exec_steps p c dbg r i m1 m3 m6 m2 ∧ gathered m (dn ++ [i]) m2.
Proof.
  intros Htab [G1 G2 G3] Hi. destruct (lookup_lt_is_Some_2 E (Z.to_nat i)) as [e He]; [lia|].
  assert (Hein : e ∈ E) by (by eapply list_elem_of_lookup_2).
  destruct (process_exec_at Hop Hlk Htype p c Hp Hc dbg V Hobjs r i e g m1)
    as (m3 & m6 & m2 & Hrun & R1 & R2 & R3); try apply Hready.
  { rewrite (pr_get Hready). apply vec_at_Ok. split; [lia|done]. }
  { done. }
  { lia. }
  { exact (proj1 (Forall_forall _ _) (pr_ok Hready) e Hein). }
  { eapply tables_in_changes; [exact Hc|exact Hp|exact G3|by apply unit_regions_keep_tables|done]. }
  exists m3, m6, m2. split; [done|]. split.
  - intros i' e0 q e' Hi' He0 Hq He'. destruct (decide (q ∈ exec_pairs e)) as [Hqe|Hqe].
    { by apply R1. }
    apply elem_of_app in Hi' as [Hi'|Hi'].
    + rewrite <- (G1 i' e0 q e' Hi' He0 Hq He'). apply load_ext. intros x Hx.
      assert (Hj : 0 ≤ x - psum_slot tp op q < F) by (pose proof (sy_bytes Hsys); dlia).
      pose proof (R2 q _ (exec_pair_ok e0 q ltac:(by eapply list_elem_of_lookup_2) Hq) Hqe Hj) as Hs.
      by replace (psum_slot tp op q + (x - psum_slot tp op q)) with x in Hs by lia.
    + apply list_elem_of_singleton in Hi' as ->. rewrite He in He0. by injection He0 as <-.
  - intros q j Hq Hno Hj. rewrite R2, G2; try done. intros Hin. apply Hno, elem_of_concat.
    exists (exec_pairs e). split; [by apply list_elem_of_fmap_2|done].
  - eapply changes_mono; [exact (changes_trans p _ _ _ _ _ G3 R3)|]. unfold unit_regions. sublist.
Qed.

Lemma gathered_nil (m : memory) : gathered m [] m.
Proof. split; [|done|apply changes_refl]. intros i e q e' Hi. by apply elem_of_nil in Hi. Qed.

Lemma process_execs_unfold (fuel : nat) (u : world unit K) :
  process_execs tp bufs fuel r p c u =
  mfold (cxl_process_exec tp bufs fuel r p c) (range (Z.of_nat (length E))) u.
Proof.
  unfold process_execs. erewrite (mbind_at _ _ u).
  2:{ unfold mlift, get_num_exec_iterations. rewrite (pr_execs Hready). cbn [rbind]. reflexivity. }
  pose proof (pr_count Hready). unfold u32. by rewrite Z.mod_small by lia.
Qed.

Lemma process_execs_at (fuel : nat) (m : memory) :
  tables_in p c V m →
  ∃ m', process_execs tp bufs (S fuel) r p c (at_mem m) = (at_mem m', Ok tt) ∧
    gathered m (range (Z.of_nat (length E))) m'.
Proof.
  intros Htab. rewrite process_execs_unfold. apply (mfold_at _ (gathered m)); [apply gathered_nil|].
  intros dn i todo m1 El HG.
  assert (Hi : i ∈ range (Z.of_nat (length E))) by (rewrite El; apply elem_of_app; right; by left).
  apply elem_of_range in Hi. destruct (next_exec m m1 dn i Htab HG Hi) as (m3 & m6 & m2 & Hs & HG2).
  exists m2. split; [|done]. by eapply exec_steps_at.
Qed.
End process_execs.
End tasks.
End system.
