(* ===== verification/CxlOperation.v ===== *)
(** * A whole operation on the CXL device

    Compute units are taken and given back around the executions of every pack
    (CxlRun), and [ReductionRunner::run_operation] runs all packs of an operation.
    The main theorem composes the allocation-independent parts of the library: an
    accepted operation leaves in the user's buffer, for every batch of every table,
    the sum of the rows that its lookups name. *)
From S2P Require Import Prelude Topology RankAddress WordMemory DeviceMemory InstGenerator RankMemory ExecutionGenerator TraceGenerator SparseReduction SlsSimulator AxdimmProofs Allocators SlsDevice SlsRunner CxlRun.
Import SlsOperation ExecutionPacksData SparseReduction.

Section operation.
Context (tp : Constants) (op : SlsOperation.t) (mm : MemMap.t) (b : Z → CxlSimulatorCore.blocks) (bufs : buffers).
Context (Hsys : system_ok tp op mm b bufs).
Context {K : Type} {D : CunitDriver K} {L : CunitLaws K (NumOfCUnits tp)}.
#[local] Existing Instance CxlSimulatorMemBlockHandler.
#[local] Hint Extern 0 (ComputeDevice unit _) => exact (CxlSimulatorComputeDevice tp) : typeclass_instances.

Abbreviation changes := (CxlRun.changes tp op b bufs).
Abbreviation extent := (CxlRun.extent tp op b bufs).
Let units : Z := NumOfCUnits tp.

(** ** Taking and giving back a unit *)

(** A unit that is not held has no running simulator thread. *)
Record idle_ok (w : world unit K) : Prop := {
  id_map : mem_map w = mm;
  id_length : Z.of_nat (length (BaseAsyncSimulator.thread_controls_ (sim w))) = units;
  id_free : ∀ c ctl, 0 ≤ c < units → held (kernel w) c = false →
    BaseAsyncSimulator.thread_controls_ (sim w) !! Z.to_nat c = Some ctl →
    BaseAsyncSimulator.finished ctl = false
}.

Lemma at_mem_id (w : world unit K) : at_mem w (mem w) = w.
Proof. by destruct w as [[] ? ? ? ? ?]. Qed.

Lemma get_sim_spec (w : world unit K) :
  get_sim w =
  (set_sim w (BaseAsyncSimulator.mk true (BaseAsyncSimulator.thread_controls_ (sim w))), Ok tt).
Proof. unfold get_sim, on_sim. destruct (sim w) as [[] cs]; reflexivity. Qed.

(** The world in which unit [c] is taken. *)
Definition taken (w : world unit K) (k : K) (c : Z) : world unit K :=
  set_sim (set_kernel w k) (with_control (sim w) c (BaseAsyncSimulator.mkControls false true)).

Lemma switch_write (w : world unit K) (c v : Z) (m : memory) (target : Z) :
  mem_map w = mm → 0 ≤ c < units →
  (v = SLS_ENABLE_VALUE ∧ target = SLS_CONTROL_SWITCHED_VALUE ∨
   v = SLS_DISABLE_VALUE ∧ target = SLS_ENABLE_VALUE) →
  write_control_switch_register c v (at_mem w m) =
  (at_mem w (store32 m (CxlSimulatorCore.cfgr (b c) + RegSlsEn tp) target), Ok tt).
Proof.
  intros Hw Hc Hv. destruct (unit_registers tp op mm b bufs Hsys c Hc) as (_ & _ & Rs).
  cbn [write_control_switch_register CxlSimulatorComputeDevice].
  unfold cxl_write_control_switch_register, base_write_control_switch_register.
  destruct Hv as [(-> & ->)|(-> & ->)]; cbn [Z.eqb SLS_DISABLE_VALUE SLS_ENABLE_VALUE Pos.eqb];
    by apply (store_register_at mm).
Qed.

Lemma switch_to (w : world unit K) (c v : Z) (m : memory) (fuel : nat) (target : Z) (type : PollType) :
  mem_map w = mm → 0 ≤ c < units → 0 ≤ target < 2 ^ 32 →
  (v = SLS_ENABLE_VALUE ∧ target = SLS_CONTROL_SWITCHED_VALUE ∧ type = CONTROL_SWITCH ∨
   v = SLS_DISABLE_VALUE ∧ target = SLS_ENABLE_VALUE ∧ type = ENABLE) →
  (do! _ := write_control_switch_register c v in cxl_poll tp fuel c type) (at_mem w m) =
  (at_mem w (store32 m (CxlSimulatorCore.cfgr (b c) + RegSlsEn tp) target), Ok tt).
Proof.
  intros Hw Hc Ht Hv. destruct (unit_registers tp op mm b bufs Hsys c Hc) as (_ & _ & Rs).
  assert (Hst : write_control_switch_register c v (at_mem w m) =
    (at_mem w (store32 m (CxlSimulatorCore.cfgr (b c) + RegSlsEn tp) target), Ok tt)).
  { apply switch_write; tauto. }
  rewrite (mbind_at _ _ _ _ _ Hst).
  assert (Hl : load32 (store32 m (CxlSimulatorCore.cfgr (b c) + RegSlsEn tp) target) (CxlSimulatorCore.cfgr (b c) + RegSlsEn tp) = target).
  { rewrite load32_store32. by apply Z.mod_small. }
  destruct Hv as [(-> & -> & ->)|(-> & -> & ->)]; unfold cxl_poll; destruct fuel; cbn [poll_register];
    erewrite (mbind_at _ _ (at_mem w _)) by (by apply (load_register_at mm));
    rewrite Hl; reflexivity.
Qed.

Lemma acquire_spec (w : world unit K) (fuel : nat) (pack d : Z) :
  idle_ok w → 0 ≤ d < units → Z.testbit pack d = true → held (kernel w) d = false →
  ∃ k c m, CxlComputeUnit tp fuel pack w = (at_mem (taken w k c) m, Ok c) ∧
    0 ≤ c < units ∧ Z.testbit pack c = true ∧ held (kernel w) c = false ∧
    (∀ x, held k x = (x =? c) || held (kernel w) x) ∧
    load32 m (CxlSimulatorCore.cfgr (b c) + RegSlsExec tp) = SLS_DISABLE_VALUE ∧
    ∀ p, changes p [PollReg c; ExecReg c; SwitchReg c] (mem w) m.
Proof.
  intros [Hmap Hlen Hfree] Hd Hbit Hheld.
  destruct (get_some (kernel w) pack d Hd Hbit Hheld) as (k & c & Hg & Hc & Hcb & Hch & Hk).
  destruct (unit_registers tp op mm b bufs Hsys c Hc) as (Rx & Rp & Rs).
  pose proof (sy_units _ _ _ _ _ Hsys) as Hu. fold units in Hu, Hc.
  destruct (lookup_lt_is_Some_2 (BaseAsyncSimulator.thread_controls_ (sim w)) (Z.to_nat c))
    as [ctl Hctl]; [lia|].
  set (m1 := store32 (mem w) (CxlSimulatorCore.cfgr (b c) + (RegPolling tp + 4)) 0).
  set (m2 := store32 m1 (CxlSimulatorCore.cfgr (b c) + RegSlsExec tp) SLS_DISABLE_VALUE).
  assert (Hacq : acquire tp fuel pack w = (at_mem (taken w k c) m2, Ok c)).
  { assert (Ha : acquire_cunit_from_range tp pack w = (at_mem (taken w k c) m2, Ok (Some c))).
    { unfold acquire_cunit_from_range, BaseDevice.acquire_cunit_from_range,
        BaseDevice.acquire_idle_cunit_from_range.
      erewrite (mbind_at _ _ w).
      2:{ erewrite (mbind_at _ _ w); [reflexivity|]. by rewrite Hg. }
      replace (c <? 0) with false by lia.
      replace (u8 c) with c by (unfold u8; rewrite Z.mod_small; lia).
      replace (c =? NumOfCUnits tp) with false by (fold units; lia).
      rewrite <- (at_mem_id (set_kernel w k)). change (mem (set_kernel w k)) with (mem w).
      unfold reset_psum_poll_register, base_write_exec_sls_register.
      erewrite (mbind_at _ _ (at_mem _ _)) by (by apply (store_register_at mm)). fold m1.
      erewrite (mbind_at _ _ (at_mem _ _)) by (by apply (store_register_at mm)). fold m2.
      erewrite (mbind_at _ _ (at_mem _ _)) by (apply get_sim_spec).
      erewrite (mbind_at _ _ (set_sim _ _)); [reflexivity|].
      unfold on_sim. cbn [sim set_sim].
      rewrite (enable_thread_spec _ c ctl); [reflexivity|done|lia|exact Hctl|].
      by apply (Hfree c ctl). }
    destruct fuel; cbn [acquire]; by rewrite (mbind_at _ _ _ _ _ Ha). }
  set (m3 := store32 m2 (CxlSimulatorCore.cfgr (b c) + RegSlsEn tp) SLS_CONTROL_SWITCHED_VALUE).
  exists k, c, m3. split; [|split; [done|split; [done|split; [done|split; [done|split]]]]].
  - unfold CxlComputeUnit. rewrite (mbind_at _ _ _ _ _ Hacq).
    assert (Hsw : (do! _ := enable c in cxl_poll tp fuel c CONTROL_SWITCH) (at_mem (taken w k c) m2) =
      (at_mem (taken w k c) m3, Ok tt)).
    { apply switch_to; try done. left. done. }
    unfold mbind in Hsw |- *. destruct (enable c _) as [w' [[]|]]; [|done].
    destruct (cxl_poll tp fuel c CONTROL_SWITCH w') as [w'' [[]|]]; [|done]. by injection Hsw as ->.
  - pose proof (sy_apart _ _ _ _ _ Hsys 1 (ExecReg c) (SwitchReg c) (pack_1 _ _ _ _ _ Hsys) Hc Hc
      ltac:(done)) as Hap. unfold apart in Hap. cbn [CxlRun.extent fst snd] in Hap.
    unfold m3, load32, store32. rewrite (load_store_other _ _ _ _ 4 4) by lia. apply load32_store32.
  - intros p. apply (changes_trans tp op b bufs p [PollReg c; ExecReg c] [SwitchReg c] _ m2).
    + apply (changes_trans tp op b bufs p [PollReg c] [ExecReg c] _ m1).
      * by apply (changes_store32 tp op b bufs p (PollReg c)).
      * by apply (changes_store32 tp op b bufs p (ExecReg c)).
    + by apply (changes_store32 tp op b bufs p (SwitchReg c)).
Qed.

(** The world after unit [c] is given back. *)
Definition given_back (w : world unit K) (k : K) (c : Z) : world unit K :=
  set_sim (set_kernel w k) (with_control (sim w) c (BaseAsyncSimulator.mkControls true false)).

Lemma unit_release_spec (w : world unit K) (k : K) (c : Z) (m : memory) (fuel : nat) :
  idle_ok w → 0 ≤ c < units → held k c = true →
  ∃ k', cxl_release tp fuel c (at_mem (taken w k c) m) =
    (at_mem (given_back w k' c) (store32 m (CxlSimulatorCore.cfgr (b c) + RegSlsEn tp) SLS_ENABLE_VALUE), Ok tt) ∧
    (∃ x, RELEASE_CUNIT k c = (k', x) ∧ 0 ≤ x) ∧
    ∀ x, held k' x = negb (x =? c) && held k x.
Proof.
  intros [Hmap Hlen _] Hc Hk. destruct (release_held k c Hc Hk) as (k' & r & Hr & Hr0 & Hk').
  exists k'. split; [|eauto]. unfold cxl_release.
  set (m' := store32 m (CxlSimulatorCore.cfgr (b c) + RegSlsEn tp) SLS_ENABLE_VALUE).
  assert (Hsw : (do! _ := disable c in cxl_poll tp fuel c ENABLE) (at_mem (taken w k c) m) =
    (at_mem (taken w k c) m', Ok tt)).
  { apply switch_to; try done. right. done. }
  unfold mbind at 1 in Hsw. unfold mbind at 1.
  destruct (disable c _) as [w' [[]|]]; [|done]. rewrite (mbind_at _ _ _ _ _ Hsw).
  unfold release_cunit. erewrite (mbind_at _ _ (at_mem _ _)) by apply get_sim_spec.
  erewrite (mbind_at _ _ (set_sim _ _)).
  2:{ unfold on_sim. cbn [sim set_sim]. rewrite (disable_thread_spec _ c
        (BaseAsyncSimulator.mkControls false true)); [reflexivity|done|lia| |done].
      cbn. apply list_lookup_insert_eq. lia. }
  unfold BaseDevice.release_cunit. cbn [kernel set_sim at_mem set_mem taken set_kernel].
  rewrite Hr. replace (r <? 0) with false by lia. f_equal. unfold given_back, at_mem, taken, with_control.
  cbn. by rewrite list_insert_insert_eq.
Qed.

(** ** One pack *)
Lemma given_back_idle (w : world unit K) (k k' : K) (c : Z) (m : memory) :
  idle_ok w → 0 ≤ c < units → (∀ x, held k x = (x =? c) || held (kernel w) x) →
  (∀ x, held k' x = negb (x =? c) && held k x) → held (kernel w) c = false →
  idle_ok (at_mem (given_back w k' c) m) ∧
  ∀ x, held (kernel (at_mem (given_back w k' c) m)) x = held (kernel w) x.
Proof.
  intros [Hmap Hlen Hfree] Hc Hk Hk' Hcf.
  assert (Hh : ∀ x, held k' x = held (kernel w) x).
  { intros x. rewrite Hk', Hk. destruct (x =? c) eqn:E; zbool; [subst; done|done]. }
  split; [|exact Hh]. split.
  - exact Hmap.
  - cbn. by rewrite length_insert.
  - intros d ctl Hd Hheld Hl. cbn in Hheld, Hl. destruct (decide (d = c)) as [->|Hne].
    + rewrite list_lookup_insert_eq in Hl by lia. by injection Hl as <-.
    + rewrite list_lookup_insert_ne in Hl by lia. apply (Hfree d ctl); [done| |done].
      by rewrite <- Hh.
Qed.

Section run_on_pack.
Context (Hop : op_ok tp op) (Hlk : lookups_ok op) (Htype : op_type_ op = Uint32).
Context (dbg : bool) (V : Z → Z → Z → Z) (r : SparseReduction.t (Channel dbg)).

(** Every unit of the pack holds the pack's tables. *)
Definition pack_placed (p : Z) (m : memory) : Prop := ∀ c,
  0 ≤ c < units → Z.testbit p c = true →
  (∀ o, o ∈ pack_objs (layout_ op) p → ∃ off, placed tp op c o off) ∧ tables_in tp op b p c V m.

Lemma run_on_pack_spec (w : world unit K) (fuel : nat) (p d : Z) (E : list Execution.t)
    (g : TraceGenerator.t) :
  idle_ok w → p ∈ RankMemory.pack_identifiers tp → pack_ready tp op p dbg r E g →
  0 ≤ d < units → Z.testbit p d = true → held (kernel w) d = false → pack_placed p (mem w) →
  ∃ w' c, cxl_run_on_pack tp bufs (S fuel) r p w = (w', Ok tt) ∧ idle_ok w' ∧
    (∀ x, held (kernel w') x = held (kernel w) x) ∧ 0 ≤ c < units ∧
    changes p (SwitchReg c :: unit_regions c) (mem w) (mem w') ∧
    (∀ q e', q ∈ concat (exec_pairs <$> E) → 0 ≤ e' < fbytes tp op / 4 →
       load32 (mem w') (psum_slot tp op q + 4 * e') = sls_sum op V q e') ∧
    (∀ q j, pair_ok op q → q ∉ concat (exec_pairs <$> E) → 0 ≤ j < fbytes tp op →
       mem w' (psum_slot tp op q + j) = mem w (psum_slot tp op q + j)).
Proof.
  intros Hid Hp Hready Hd Hbit Hheld Hpl.
  destruct (acquire_spec w (S fuel) p d Hid Hd Hbit Hheld)
    as (k & c & m1 & Hacq & Hc & Hcb & Hcf & Hk & _ & C1).
  specialize (C1 p). destruct (Hpl c Hc Hcb) as [Hobjs Htab].
  assert (Htab1 : tables_in tp op b p c V m1).
  { eapply (tables_in_changes tp op mm b bufs Hsys p c Hc); [exact Hp|exact C1|regions|exact Htab]. }
  assert (Hwm : mem_map (taken w k c) = mm) by apply (id_map w Hid).
  destruct (process_execs_at tp op mm b bufs Hsys (taken w k c) Hwm Hop Hlk Htype p c Hp Hc dbg V Hobjs
    r E g Hready fuel m1 Htab1) as (m2 & Hrun & [G1 G2 G3]).
  destruct (unit_release_spec w k c m2 (S fuel) Hid Hc) as (k' & Hrel & _ & Hk').
  { rewrite Hk, Z.eqb_refl. done. }
  destruct (given_back_idle w k k' c (store32 m2 (CxlSimulatorCore.cfgr (b c) + RegSlsEn tp)
    SLS_ENABLE_VALUE) Hid Hc Hk Hk' Hcf) as [Hid' Hh'].
  assert (C3 : changes p [SwitchReg c] m2
    (store32 m2 (CxlSimulatorCore.cfgr (b c) + RegSlsEn tp) SLS_ENABLE_VALUE))
    by (by apply (changes_store32 tp op b bufs p (SwitchReg c))).
  assert (Hpsum : ∀ q j, pair_ok op q → 0 ≤ j < fbytes tp op →
    inside tp op b bufs p UserPsum (psum_slot tp op q + j)).
  { intros q j Hq Hj. pose proof (psum_slot_range tp op Hop q Hq). unfold inside. cbn. lia. }
  eexists _, c. split; [|split; [exact Hid'|split; [exact Hh'|split; [done|split; [|split]]]]].
  - unfold cxl_run_on_pack. rewrite (mbind_at _ _ _ _ _ Hacq). unfold with_object.
    rewrite Hrun. by rewrite (mbind_at _ _ _ _ _ Hrel).
  - eapply changes_mono; [exact (changes_trans tp op b bufs p _ _ _ _ _ C1
      (changes_trans tp op b bufs p _ _ _ _ _ G3 C3))|]. unfold unit_regions. sublist.
  - intros q e' Hq He'. apply elem_of_concat in Hq as (l & (e & -> & He)%list_elem_of_fmap & Hq).
    pose proof (exec_pair_ok tp op p dbg r E g Hready e q He Hq) as Hqok.
    apply list_elem_of_lookup_1 in He as [i Hi]. pose proof (lookup_lt_Some _ _ _ Hi).
    rewrite <- (G1 (Z.of_nat i) e q e'); [|apply elem_of_range; lia|by rewrite Nat2Z.id|done|done].
    apply load_ext. intros x Hx. eapply (same_region tp op mm b bufs Hsys p Hp _ UserPsum);
      [exact C3|done|regions|].
    assert (Hj : 0 ≤ x - psum_slot tp op q < fbytes tp op) by (pose proof (sy_bytes _ _ _ _ _ Hsys); dlia).
    pose proof (Hpsum q _ Hqok Hj) as Hin.
    by replace (psum_slot tp op q + (x - psum_slot tp op q)) with x in Hin by lia.
  - intros q j Hq Hno Hj.
    transitivity (m2 (psum_slot tp op q + j)); [|transitivity (m1 (psum_slot tp op q + j))].
    + eapply (same_region tp op mm b bufs Hsys p Hp _ UserPsum); [exact C3|done|regions|by apply Hpsum].
    + by apply G2.
    + eapply (same_region tp op mm b bufs Hsys p Hp _ UserPsum); [exact C1|done|regions|by apply Hpsum].
Qed.
End run_on_pack.

(** ** What the operation prepares *)
Lemma no_header_bound : inst_per_single_buf_no_header tp + 1 = inst_per_single_buf tp.
Proof.
  unfold inst_per_single_buf_no_header, inst_per_single_buf, trace_header_size.
  destruct (sy_inst _ _ _ _ _ Hsys) as [-> _]. dlia.
Qed.

Section ready.
Context (Hop : op_ok tp op) (Hdev : device_ok tp op) (env : option (Z * positive)) (Henv : env_ok env).
Context (Hlay : layout_ok tp (layout_ op) (n_tables op)).
Context (Hlens : Forall (fun x => x ≤ inst_per_single_buf_no_header tp) (lengths_ op)).
Context (dbg : bool).

Lemma stored_count (p : Z) :
  p ∈ RankMemory.pack_identifiers tp →
  Z.of_nat (length (pack_objs (layout_ op) p)) ≤ n_tables op.
Proof.
  intros Hp. pose proof (NoDup_pack_ids tp op Hlay p Hp) as Hnd.
  assert (Hsub : MemoryObject.id <$> pack_objs (layout_ op) p ⊆ range (n_tables op)).
  { intros i (o & -> & Ho)%list_elem_of_fmap. apply elem_of_range. by apply (stored_ids tp op Hlay p). }
  pose proof (submseteq_length _ _ (NoDup_submseteq _ _ Hnd Hsub)) as Hle.
  rewrite length_fmap, length_range in Hle. pose proof (oo_tables _ _ Hop). lia.
Qed.

Lemma length_tables_pairs (objs : list MemoryObject.t) :
  Z.of_nat (length (tables_pairs (minibatch_size_ op) objs)) =
  Z.of_nat (length objs) * minibatch_size_ op.
Proof.
  pose proof (oo_mb _ _ Hop). unfold tables_pairs.
  fold (flat (fun o => chunk_pairs (MemoryObject.id o) 0 (minibatch_size_ op)) objs).
  rewrite length_flat. induction objs as [|o objs IH]; [done|]. rewrite sum_fmap_cons, IH.
  unfold chunk_pairs. rewrite length_fmap, length_range. cbn [length]. lia.
Qed.

Lemma execs_count (E : list Execution.t) :
  (∀ e, e ∈ E → exec_pairs e ≠ []) → (length E ≤ length (concat (exec_pairs <$> E)))%nat.
Proof.
  intros H. induction E as [|e E IH]; [done|].
  change (concat (exec_pairs <$> e :: E)) with (exec_pairs e ++ concat (exec_pairs <$> E)).
  rewrite length_app. specialize (IH ltac:(intros; apply H; by right)).
  pose proof (H e ltac:(by left)) as Hne. destruct (exec_pairs e); [done|]. cbn [length]. lia.
Qed.

Lemma ready_spec : ∃ (r : SparseReduction.t (Channel dbg)) (execs : Z → list Execution.t),
  SparseReduction.make tp op env = Ok r ∧
  ∀ p, p ∈ RankMemory.pack_identifiers tp →
    concat (exec_pairs <$> execs p) = tables_pairs (minibatch_size_ op) (pack_objs (layout_ op) p) ∧
    get_num_exec_iterations r p = Ok (Z.of_nat (length (execs p))) ∧
    (execs p = [] ↔ pack_objs (layout_ op) p = []) ∧
    (pack_objs (layout_ op) p ≠ [] → ∃ g, pack_ready tp op p dbg r (execs p) g).
Proof.
  destruct (reduction_make_spec (G := Channel dbg) tp op env Hop Hdev Henv Hlay)
    as (maxi & r & execs & Hmake & Hr & Hmaxi & Hpacks).
  exists r, execs. split; [done|]. intros p Hp.
  destruct (Hpacks p Hp) as (Hge & Hgen & [HE Hc] & Hget & Haddr). split; [done|].
  assert (Hm : maxi + 1 ≤ inst_per_single_buf tp).
  { rewrite <- no_header_bound. destruct Hmaxi as [?|Hin]; [lia|].
    pose proof (proj1 (Forall_forall _ _) Hlens maxi Hin). cbn in *. lia. }
  pose proof (sy_bytes _ _ _ _ _ Hsys) as HF. pose proof (sy_psum _ _ _ _ _ Hsys) as HPS.
  assert (Hok : Forall (exec_ok tp op p) (execs p)).
  { apply Forall_forall. intros e He. pose proof (proj1 (Forall_forall _ _) HE e He) as Hg.
    destruct (pack_execs_ok tp op Hop Hlay maxi p (execs p) Hp (conj HE Hc) e He) as (HFt & Hnd & Hfit).
    pose proof (ge_lookups _ _ _ _ _ _ Hg) as El. pose proof (ge_fit_inst _ _ _ _ _ _ Hg) as Ei.
    assert (Esum : sum_list_Z (batch_lookups op <$> exec_pairs e) = Execution.total_lookups_ e)
      by (rewrite El; reflexivity).
    split; try done.
    - intros td Htd. pose proof (proj1 (Forall_forall _ _) HFt td Htd) as [[[off Ho] Hch] _].
      assert (Hin : (Execution.table_id_ td, off + 0) ∈
        tables_pairs (minibatch_size_ op) (pack_objs (layout_ op) p)).
      { rewrite <- Hc. apply elem_of_concat. exists (exec_pairs e).
        split; [by apply list_elem_of_fmap_2|]. apply elem_of_concat. exists (table_pairs td).
        split; [by apply list_elem_of_fmap_2|]. unfold table_pairs. rewrite Ho. unfold chunk_pairs.
        apply list_elem_of_fmap. exists 0. split; [done|]. by apply elem_of_range. }
      apply (tables_pairs_elem op) in Hin as (o & Hoin & Eo & _). exists o. by split.
    - rewrite (ge_psum_size _ _ _ _ _ _ Hg), (ge_batches _ _ _ _ _ _ Hg). apply u64_small. lia.
    - rewrite Esum. lia.
    - rewrite Esum. lia. }
  assert (Hne : ∀ e, e ∈ execs p → exec_pairs e ≠ []).
  { intros e He E0. pose proof (proj1 (Forall_forall _ _) Hok e He) as He'.
    pose proof (eo_some _ _ _ _ He') as Hs. rewrite E0 in Hs. cbn in Hs. lia. }
  assert (Hcount : Z.of_nat (length (execs p)) < 2 ^ 31).
  { pose proof (execs_count (execs p)) as Hle. rewrite Hc in Hle.
    pose proof (length_tables_pairs (pack_objs (layout_ op) p)) as Hl. pose proof (stored_count p Hp).
    assert (Hpos : Z.of_nat (length (lengths_ op)) ≤ sum_list_Z (lengths_ op)).
    { pose proof (oo_lengths _ _ Hop) as Hf. clear -Hf. induction Hf as [|x l Hx _ IH]; [done|].
      change (sum_list_Z (x :: l)) with (x + sum_list_Z l). cbn [length]. lia. }
    pose proof (oo_length _ _ Hop). pose proof (oo_sum _ _ Hop). pose proof (oo_mb _ _ Hop).
    specialize (Hle Hne). nia. }
  split; [|split].
  - unfold get_num_exec_iterations. rewrite Hge. cbn [rbind]. f_equal. unfold u32.
    apply Z.mod_small. lia.
  - pose proof (execs_count (execs p) Hne) as Hle.
    pose proof (length_tables_pairs (pack_objs (layout_ op) p)) as Hl. rewrite <- Hc in Hl.
    pose proof (oo_mb _ _ Hop). split; intros E0; rewrite E0 in *; cbn [length fmap list_fmap concat] in *.
    + destruct (pack_objs (layout_ op) p); [done|]. cbn [length] in Hl. lia.
    + destruct (execs p); [done|]. cbn [length] in *. lia.
  - intros Hst. destruct (Hgen Hst) as (g & Hg & Hgok). exists g. split; try done; [|lia].
    pose proof (lo_length _ _ _ Hlay) as Hlen. apply elem_of_pack_identifiers in Hp.
    destruct (lookup_lt_is_Some_2 (layout_ op) (Z.to_nat p)) as [objs Hobjs]; [lia|].
    apply vec_at_Ok. split; [lia|]. unfold pack_objs. by rewrite Hobjs.
Qed.
End ready.

(** ** All packs *)
Section all_packs.
Context (dbg : bool) (r : SparseReduction.t (Channel dbg)) (execs : Z → list Execution.t).
Context (Hnum : ∀ p, p ∈ RankMemory.pack_identifiers tp →
  get_num_exec_iterations r p = Ok (Z.of_nat (length (execs p)))).

Definition active (l : list Z) : list Z :=
  List.filter (fun p => negb (Z.of_nat (length (execs p)) =? 0)) l.

(** The first active pack is the main thread's, the others are queued. *)
Definition planned (l : list Z) : Z * list Z :=
  match l with [] => (0, []) | p :: l' => (p, l') end.

Lemma plan_spec : plan tp r = Ok (planned (active (RankMemory.pack_identifiers tp))).
Proof.
  unfold plan. set (f := fun s pack => _).
  assert (Hstep : ∀ l main queue, l ⊆ RankMemory.pack_identifiers tp → main ≠ 0 →
    rfold f (main, queue) l = Ok (main, queue ++ active l)).
  { induction l as [|p l IH]; intros main queue Hl Hm; cbn [rfold]; [by rewrite app_nil_r|].
    unfold f at 1. rewrite Hnum by (apply Hl; by left). cbn [rbind active List.filter].
    destruct (Z.of_nat (length (execs p)) =? 0) eqn:E0; cbn [negb rbind].
    - apply IH; [|done]. intros x Hx. apply Hl. by right.
    - rewrite (proj2 (Z.eqb_neq main 0)) by done. cbn [rbind].
      rewrite IH; [|intros x Hx; apply Hl; by right|done]. by rewrite <- app_assoc. }
  assert (H : ∀ l, l ⊆ RankMemory.pack_identifiers tp → rfold f (0, []) l = Ok (planned (active l))).
  { induction l as [|p l IH]; intros Hl; cbn [rfold]; [done|].
    unfold f at 1. rewrite Hnum by (apply Hl; by left). cbn [rbind active List.filter].
    destruct (Z.of_nat (length (execs p)) =? 0) eqn:E0; cbn [negb rbind].
    - apply IH. intros x Hx. apply Hl. by right.
    - cbn [Z.eqb rbind]. assert (Hp : p ∈ RankMemory.pack_identifiers tp) by (apply Hl; by left).
      apply elem_of_pack_identifiers in Hp.
      rewrite Hstep; [done|intros x Hx; apply Hl; by right|lia]. }
  by apply H.
Qed.
End all_packs.

Section run_all.
Context (Hop : op_ok tp op) (Hlk : lookups_ok op) (Htype : op_type_ op = Uint32).
Context (dbg : bool) (V : Z → Z → Z → Z) (r : SparseReduction.t (Channel dbg)).
Context (execs : Z → list Execution.t) (fuel : nat) (w0 : world unit K).
Context (Hfree : ∀ c, held (kernel w0) c = false).
Let ids : list Z := RankMemory.pack_identifiers tp.

(** A byte of a buffer or register that a run may write. *)
Definition scratch (x : Z) : Prop :=
  ∃ p rg, p ∈ ids ∧ valid tp rg ∧ (∀ c, rg ≠ Tables c) ∧ inside tp op b bufs p rg x.

Record progress (dn : list Z) (w : world unit K) : Prop := {
  pg_idle : idle_ok w;
  pg_held : ∀ c, held (kernel w) c = false;
  pg_tables : ∀ p, p ∈ ids → pack_placed V p (mem w);
  pg_done : ∀ p q e', p ∈ dn → q ∈ concat (exec_pairs <$> execs p) → 0 ≤ e' < fbytes tp op / 4 →
    load32 (mem w) (psum_slot tp op q + 4 * e') = sls_sum op V q e';
  pg_frame : ∀ x, ¬ scratch x → mem w x = mem w0 x
}.

Lemma pack_has_unit (p : Z) : p ∈ ids → ∃ d, 0 ≤ d < units ∧ Z.testbit p d = true.
Proof.
  intros Hp%elem_of_pack_identifiers. pose proof (sy_units _ _ _ _ _ Hsys) as Hu. fold units in Hu.
  exists (Z.log2 p). split; [|apply Z.bit_log2; lia]. split; [apply Z.log2_nonneg|].
  apply Z.log2_lt_pow2; [lia|]. unfold RankMemory.num_of_pack in Hp. fold units in Hp.
  rewrite Z.shiftl_1_l in Hp. lia.
Qed.

Lemma run_regions (c : Z) :
  0 ≤ c < units → Forall (fun rg => valid tp rg ∧ ∀ d, rg ≠ Tables d) (SwitchReg c :: unit_regions c).
Proof. intros Hc. unfold unit_regions. regions. Qed.

Lemma progress_step (dn : list Z) (w : world unit K) (p : Z) (g : TraceGenerator.t) :
  (∀ p e q, p ∈ dn → e ∈ execs p → q ∈ exec_pairs e → pair_ok op q) →
  p ∈ ids → pack_ready tp op p dbg r (execs p) g → progress dn w →
  ∃ w', cxl_run_on_pack tp bufs (S fuel) r p w = (w', Ok tt) ∧ progress (dn ++ [p]) w'.
Proof.
  intros Hdn Hp Hready [Hid Hheld Htab Hdone Hfr]. destruct (pack_has_unit p Hp) as (d & Hd & Hbit).
  destruct (run_on_pack_spec Hop Hlk Htype dbg V r w fuel p d (execs p) g Hid Hp Hready Hd Hbit (Hheld d)
    (Htab p Hp)) as (w' & c & Hrun & Hid' & Hh & Hc & C & R1 & R2).
  pose proof (run_regions c Hc) as HR. exists w'. split; [done|]. split.
  - done.
  - intros x. by rewrite Hh.
  - intros p' Hp' c' Hc' Hb'. destruct (Htab p' Hp' c' Hc' Hb') as [H1 H2]. split; [done|].
    eapply (tables_in_changes tp op mm b bufs Hsys p' c' Hc'); [exact Hp|exact C| |exact H2].
    eapply Forall_impl; [exact HR|]. intros rg [Hv Hn]. by split.
  - intros p' q e' Hp' Hq He'. destruct (decide (q ∈ concat (exec_pairs <$> execs p))) as [Hin|Hno].
    { by apply R1. }
    apply elem_of_app in Hp' as [Hp'|Hp'].
    2:{ apply list_elem_of_singleton in Hp' as ->. done. }
    rewrite <- (Hdone p' q e' Hp' Hq He'). apply load_ext. intros x Hx.
    assert (Hj : 0 ≤ x - psum_slot tp op q < fbytes tp op) by (pose proof (sy_bytes _ _ _ _ _ Hsys); dlia).
    apply elem_of_concat in Hq as (l & (e & -> & He)%list_elem_of_fmap & Hq).
    pose proof (R2 q _ (Hdn p' e q Hp' He Hq) Hno Hj) as Hs.
    by replace (psum_slot tp op q + (x - psum_slot tp op q)) with x in Hs by lia.
  - intros x Hx. rewrite <- Hfr by done. apply C. intros rg Hrg Hin. apply Hx.
    pose proof (proj1 (Forall_forall _ _) HR rg Hrg) as [Hv Hn]. by exists p, rg.
Qed.

Lemma pack_tasks_spec (l : list Z) : ∀ (dn : list Z) (w : world unit K),
  (∀ p, p ∈ dn ++ l → p ∈ ids ∧ ∃ g, pack_ready tp op p dbg r (execs p) g) → progress dn w →
  ∃ w', run_pack_tasks (cxl_run_on_pack tp bufs (S fuel) r) l w = (w', (fun p => (p, Ok tt)) <$> l) ∧
    progress (dn ++ l) w'.
Proof.
  induction l as [|p l IH]; intros dn w Hl Hpg; cbn [run_pack_tasks].
  - exists w. by rewrite app_nil_r.
  - destruct (Hl p) as [Hp [g Hg]]; [apply elem_of_app; right; by left|].
    destruct (progress_step dn w p g) as (w1 & Hrun & Hpg1); try done.
    { intros p' e q Hp' He Hq. destruct (Hl p') as [_ [g' Hg']]; [apply elem_of_app; by left|].
      by apply (exec_pair_ok tp op p' dbg r (execs p') g' Hg' e). }
    rewrite Hrun. destruct (IH (dn ++ [p]) w1) as (w2 & Hrest & Hpg2); [by rewrite <- app_assoc|done|].
    rewrite Hrest. exists w2. split; [done|]. by rewrite <- app_assoc in Hpg2.
Qed.

Lemma first_error_ok (l packs : list Z) :
  first_error ((fun p => (p, Ok tt)) <$> l) packs = Ok tt.
Proof.
  unfold first_error. induction packs as [|p packs IH]; [done|]. cbn [rfold].
  assert (E : ∀ l, match find (fun e : Z * result unit => e.1 =? p) ((fun p => (p, Ok tt)) <$> l) with
    | Some (_, x) => x | None => Ok tt end = Ok tt).
  { induction l0 as [|y l0 IHl]; [done|]. cbn [fmap list_fmap find fst].
    destruct (y =? p); [done|]. exact IHl. }
  rewrite E. cbn [rbind]. exact IH.
Qed.
End run_all.

(** ** The operation *)
Lemma dispatch_spec (dbg : bool) (V : Z → Z → Z → Z) (env : option (Z * positive))
    (schedule : list Z → list Z) (fuel : nat) (w : world unit K) :
  op_ok tp op → device_ok tp op → env_ok env → layout_ok tp (layout_ op) (n_tables op) →
  lookups_ok op → op_type_ op = Uint32 →
  Forall (fun x => x ≤ inst_per_single_buf_no_header tp) (lengths_ op) →
  (∃ p, p ∈ RankMemory.pack_identifiers tp ∧ pack_objs (layout_ op) p ≠ []) →
  (∀ l, schedule l ≡ₚ l) → idle_ok w → (∀ c, held (kernel w) c = false) →
  (∀ p, p ∈ RankMemory.pack_identifiers tp → pack_placed V p (mem w)) →
  ∃ w', channelwise_dispatch tp bufs (S fuel) dbg schedule env op w = (w', Ok tt) ∧
    (∀ p o bt e, p ∈ RankMemory.pack_identifiers tp → o ∈ pack_objs (layout_ op) p →
       0 ≤ bt < minibatch_size_ op → 0 ≤ e < fbytes tp op / 4 →
       load32 (mem w') (psum_slot tp op (MemoryObject.id o, bt) + 4 * e) =
       sls_sum op V (MemoryObject.id o, bt) e) ∧
    idle_ok w' ∧ (∀ c, held (kernel w') c = false) ∧
    (∀ x, ¬ scratch x → mem w' x = mem w x).
Proof.
  intros Hop Hdev Henv Hlay Hlk Htype Hlens Hsome Hsch Hid Hheld Htab.
  destruct (ready_spec Hop Hdev env Henv Hlay Hlens dbg) as (r & execs & Hmake & Hpacks).
  pose proof (plan_spec dbg r execs (fun p Hp => proj1 (proj2 (Hpacks p Hp)))) as Hplan.
  set (act := active execs (RankMemory.pack_identifiers tp)) in *.
  assert (Hact : ∀ p, p ∈ act ↔ p ∈ RankMemory.pack_identifiers tp ∧ pack_objs (layout_ op) p ≠ []).
  { intros p. unfold act, active. rewrite list_elem_of_In, filter_In, <- list_elem_of_In.
    split; intros [Hp Hx]; (split; [done|]); destruct (Hpacks p Hp) as (_ & _ & Hiff & _).
    - intros E0. apply Hiff in E0. by rewrite E0 in Hx.
    - destruct (execs p); [|done]. by rewrite (proj1 Hiff eq_refl) in Hx. }
  assert (Hne : act = (planned act).1 :: (planned act).2).
  { destruct Hsome as (p & Hp & Hst). destruct act as [|p0 l] eqn:Ea; [|done].
    exfalso. by apply (elem_of_nil p), Hact. }
  destruct (pack_tasks_spec Hop Hlk Htype dbg V r execs fuel w (schedule act) [] w)
    as (w' & Hrun & [Hid' Hh' _ Hdone Hfr]).
  { intros p Hp. rewrite (Hsch act) in Hp. apply Hact in Hp as [Hp Hst]. split; [done|].
    by apply (Hpacks p Hp). }
  { split; try done. intros p q e' Hin. by apply elem_of_nil in Hin. }
  exists w'. split; [|split; [|done]].
  - unfold channelwise_dispatch.
    erewrite (mbind_at _ _ w) by (unfold mlift; by rewrite Hmake). unfold run_operation. rewrite Hplan.
    destruct (planned act) as [main queue]. cbn [fst snd] in Hne. rewrite <- Hne.
    unfold channelwise_dispatch in *. rewrite Hrun. by rewrite first_error_ok.
  - intros p o bt e Hp Ho Hbt He. destruct (Hpacks p Hp) as (Hc & _).
    apply (Hdone p); [|rewrite Hc; apply (tables_pairs_elem op); by exists o|done].
    cbn [app]. rewrite (Hsch act). apply Hact. split; [done|]. intros E0. rewrite E0 in Ho.
    by apply elem_of_nil in Ho.
Qed.
End operation.

(** ** Checking a memory map *)
Definition all_regions (tp : Constants) : list region :=
  flat (fun c => [Tables c; InstBlock c; PsumBlock c; ExecReg c; PollReg c; SwitchReg c; CountReg c])
    (range (NumOfCUnits tp)) ++ [TraceVector; TmpBuffer; UserPsum].

Lemma valid_region_listed (tp : Constants) (r : region) : valid tp r → r ∈ all_regions tp.
Proof.
  intros Hv. unfold all_regions. apply elem_of_app.
  destruct r as [c|c|c|c|c|c|c| | |]; cbn in Hv; try (right; rewrite !elem_of_cons; tauto);
    left; apply elem_of_concat; eexists; (split; [apply list_elem_of_fmap_2; by apply elem_of_range|]);
    rewrite !elem_of_cons; tauto.
Qed.

(** The regions of all packs, checked by evaluation. *)
Definition regions_apart (tp : Constants) (op : SlsOperation.t) (b : Z → CxlSimulatorCore.blocks)
    (bufs : buffers) : bool :=
  forallb (fun p => forallb (fun r =>
      let e := extent tp op b bufs p r in
      (0 <=? e.1) && (e.1 + e.2 <? 2 ^ 64) &&
      forallb (fun r' => let e' := extent tp op b bufs p r' in
        bool_decide (r = r') || (e.1 + e.2 <=? e'.1) || (e'.1 + e'.2 <=? e.1)) (all_regions tp))
    (all_regions tp)) (RankMemory.pack_identifiers tp).

Lemma regions_apart_spec (tp : Constants) (op : SlsOperation.t) (b : Z → CxlSimulatorCore.blocks)
    (bufs : buffers) (p : Z) (r r' : region) :
  regions_apart tp op b bufs = true → p ∈ RankMemory.pack_identifiers tp → valid tp r → valid tp r' →
  0 ≤ (extent tp op b bufs p r).1 ∧
  (extent tp op b bufs p r).1 + (extent tp op b bufs p r).2 < 2 ^ 64 ∧
  (r ≠ r' → apart (extent tp op b bufs p r) (extent tp op b bufs p r')).
Proof.
  intros H Hp Hr%valid_region_listed Hr'%valid_region_listed.
  apply list_elem_of_In in Hp, Hr, Hr'. unfold regions_apart in H.
  apply (proj1 (forallb_forall _ _) H) in Hp. apply (proj1 (forallb_forall _ _) Hp) in Hr.
  cbv zeta in Hr. apply andb_true_iff in Hr as [Hr1 Hr2].
  apply (proj1 (forallb_forall _ _) Hr2) in Hr'. zbool. split; [done|]. split; [done|].
  intros Hne. rewrite bool_decide_eq_false_2 in Hr' by done. cbn [orb] in Hr'. unfold apart.
  apply orb_true_iff in Hr' as [Hx|Hx]; zbool; auto.
Qed.

(** ** Theorems *)

(** Property C1.  End to end on the CXL simulator: an SLS operation with consistent
    arguments, whose tables are in the memory of every unit of their packs, is
    accepted and run to the end, whatever the order in which the packs are
    scheduled; afterwards every element of every batch in the user's psum buffer is
    the sum, modulo [2 ^ 32], of that element of the rows its lookups name.  All
    compute units and simulator threads are given back, and no byte outside the
    buffers and registers of the run changes. *)
Theorem cxl_operation_computes_sums (tp : Constants) (op : SlsOperation.t) (mm : MemMap.t)
    (b : Z → CxlSimulatorCore.blocks) (bufs : buffers) (K : Type) (D : CunitDriver K)
    (L : CunitLaws K (NumOfCUnits tp)) (dbg : bool) (V : Z → Z → Z → Z) (env : option (Z * positive))
    (schedule : list Z → list Z) (fuel : nat) (w : world unit K) :
  system_ok tp op mm b bufs → op_ok tp op → device_ok tp op → env_ok env →
  layout_ok tp (layout_ op) (n_tables op) → lookups_ok op → op_type_ op = Uint32 →
  Forall (fun x => x ≤ inst_per_single_buf_no_header tp) (lengths_ op) →
  (∃ p, p ∈ RankMemory.pack_identifiers tp ∧ pack_objs (layout_ op) p ≠ []) →
  (∀ l, schedule l ≡ₚ l) → idle_ok tp mm w → (∀ c, held (kernel w) c = false) →
  (∀ p, p ∈ RankMemory.pack_identifiers tp → pack_placed tp op b V p (mem w)) →
  ∃ w', channelwise_dispatch tp bufs (S fuel) dbg schedule env op w = (w', Ok tt) ∧
    (∀ p o bt e, p ∈ RankMemory.pack_identifiers tp → o ∈ pack_objs (layout_ op) p →
       0 ≤ bt < minibatch_size_ op → 0 ≤ e < fbytes tp op / 4 →
       load32 (mem w') (psum_slot tp op (MemoryObject.id o, bt) + 4 * e) =
       sls_sum op V (MemoryObject.id o, bt) e) ∧
    idle_ok tp mm w' ∧ (∀ c, held (kernel w') c = false) ∧
    (∀ x, ¬ scratch tp op b bufs x → mem w' x = mem w x).
Proof.
  intros Hsys. exact (dispatch_spec tp op mm b bufs Hsys dbg V env schedule fuel w).
Qed.

(** Two units: table 1 is in the memory of unit 0, table 0 in that of unit 1. *)
Definition split_layout : RankMemory.packs_to_objects :=
  [[]; [MemoryObject.mk 1 640 [(true, 4096); (false, 0)]];
   [MemoryObject.mk 0 640 [(false, 0); (true, 0)]]; []].

Definition split_op : SlsOperation.t :=
  SlsOperation.mk 16 [10; 10] 3 sample_lengths [0; 1; 2; 3; 4; 5; 6; 7; 8; 9; 0; 1]
    (2 ^ 40) 384 split_layout Uint32.

Definition split_map : MemMap.t :=
  let info k := MemMap.mkMemAddr
    [k * 2 ^ 36; 2 ^ 42 + k * 2 ^ 20; 2 ^ 43 + k * 2 ^ 20; 2 ^ 44 + k * 2 ^ 20; 2 ^ 45 + k * 2 ^ 20]
    [1; 1; 1; 1; 1] in
  MemMap.init [info 0; info 1].

Definition split_blocks (c : Z) : CxlSimulatorCore.blocks :=
  CxlSimulatorCore.mkBlocks (2 ^ 42 + c * 2 ^ 20) (c * 2 ^ 36) (2 ^ 43 + c * 2 ^ 20)
    (2 ^ 45 + c * 2 ^ 20) (2 ^ 44 + c * 2 ^ 20).

Definition split_buffers : buffers := mkBuffers (fun p => 2 ^ 50 + p * 2 ^ 20) (fun _ => 2 ^ 51).

Definition split_memory : memory := fun x => if x <? 2 ^ 40 then x mod 7 else 3.

Definition split_world : world unit Z :=
  mkWorld tt split_map split_memory []
    (BaseAsyncSimulator.mk false (replicate 2 (BaseAsyncSimulator.mkControls false false))) 0.

Definition split_value (t r e : Z) : Z :=
  load32 split_memory ((if t =? 1 then 4096 else 2 ^ 36) + r * 64 + 4 * e).

Lemma split_cases (P : Z → Prop) : P 0 → P 1 → ∀ c, 0 ≤ c < 2 → P c.
Proof. intros H0 H1 c Hc. assert (c = 0 ∨ c = 1) as [->| ->] by lia; done. Qed.

Lemma split_packs (P : Z → Prop) :
  P 1 → P 2 → P 3 → ∀ p, p ∈ RankMemory.pack_identifiers sample_cxl → P p.
Proof.
  intros H1 H2 H3 p Hp. change (RankMemory.pack_identifiers sample_cxl) with [1; 2; 3] in Hp.
  rewrite !elem_of_cons in Hp. destruct Hp as [->|[->|[->|Hp]]]; try done. by apply elem_of_nil in Hp.
Qed.

Lemma split_lookups : lookups_ok split_op.
Proof.
  split; [vm_compute; congruence|]. intros [t bt] l Hq Hl.
  enough (forallb (fun t => forallb (fun bt => forallb (fun l =>
    let r := lookup_row split_op (t, bt) l in (0 <=? r) && (r <? table_rows split_op t))
    (range (batch_lookups split_op (t, bt)))) (range 3)) (range 2) = true) as H.
  2: { vm_compute. reflexivity. }
  destruct Hq as [Ht Hb]. cbn [fst snd] in *.
  apply (proj1 (forallb_forall _ _)) with (x := t) in H;
    [|by apply list_elem_of_In, elem_of_range].
  apply (proj1 (forallb_forall _ _)) with (x := bt) in H;
    [|by apply list_elem_of_In, elem_of_range].
  apply (proj1 (forallb_forall _ _)) with (x := l) in H;
    [|by apply list_elem_of_In, elem_of_range].
  cbv zeta in H. zbool. done.
Qed.

Lemma split_system : system_ok sample_cxl split_op split_map split_blocks split_buffers.
Proof.
  assert (Hr : regions_apart sample_cxl split_op split_blocks split_buffers = true)
    by (vm_compute; reflexivity).
  split.
  - vm_compute; intuition congruence.
  - vm_compute; intuition congruence.
  - left. reflexivity.
  - vm_compute; intuition congruence.
  - apply (split_cases (fun c => CxlSimulatorCore.get_blocks split_map c = Ok (split_blocks c)));
      vm_compute; reflexivity.
  - vm_compute; intuition congruence.
  - intros p Hp. cbn [split_buffers tmp_data]. lia.
  - intros p r Hp Hv. destruct (regions_apart_spec _ _ _ _ p r r Hr Hp Hv Hv) as (H1 & H2 & _). done.
  - intros p r r' Hp Hv Hv' Hne. by apply (regions_apart_spec _ _ _ _ p r r' Hr Hp Hv Hv').
Qed.

Lemma split_op_ok : op_ok sample_cxl split_op.
Proof.
  split; try (vm_compute; split; congruence); try (vm_compute; congruence). repeat constructor.
Qed.

Lemma split_layout_ok : layout_ok sample_cxl split_layout 2.
Proof.
  split; try (vm_compute; congruence).
  - change (NoDup [1; 0]). apply (bool_decide_unpack _). vm_compute. exact I.
  - intros o Ho. change (o ∈ concat split_layout) in Ho. cbn in Ho. rewrite !elem_of_cons in Ho.
    destruct Ho as [->|[->|Ho]]; [cbn; lia|cbn; lia|]. by apply elem_of_nil in Ho.
Qed.

Lemma split_idle :
  idle_ok (D := mask_driver 2) (L := mask_laws 2) sample_cxl split_map split_world.
Proof.
  split; [reflexivity|reflexivity|]. intros c ctl Hc _ Hl.
  revert Hl. change (BaseAsyncSimulator.thread_controls_ (sim split_world))
    with (replicate 2 (BaseAsyncSimulator.mkControls false false)).
  intros [-> _]%lookup_replicate. reflexivity.
Qed.

(** A pack with one table, stored at [off] in the memory of its only unit. *)
Lemma split_placed (p c : Z) (o : MemoryObject.t) (off : Z) :
  pack_objs split_layout p = [o] → MemoryObject.offset o c = Ok off → 0 ≤ off ≤ 4096 →
  off mod 8 = 0 → table_rows split_op (MemoryObject.id o) = 10 →
  (if MemoryObject.id o =? 1 then 4096 else 2 ^ 36) = c * 2 ^ 36 + off →
  (∀ c', 0 ≤ c' < 2 → Z.testbit p c' = true → c' = c) →
  pack_placed sample_cxl split_op split_blocks split_value p split_memory.
Proof.
  intros Ho Hoff Hr Hm Hrows Hb Hc c' Hc' Hbit. rewrite (Hc c' Hc' Hbit).
  change (layout_ split_op) with split_layout. assert (Hf : fbytes sample_cxl split_op = 64) by done.
  split.
  - intros o' Ho'. rewrite Ho in Ho'. apply list_elem_of_singleton in Ho' as ->. exists off.
    split; [done|split; lia| |]; rewrite Hrows, Hf; lia.
  - intros o' off' r e Ho' [Hoff' _ _ _] Hr' He. change (layout_ split_op) with split_layout in Ho'.
    rewrite Ho in Ho'. apply list_elem_of_singleton in Ho' as ->.
    rewrite Hoff in Hoff'. injection Hoff' as <-. unfold split_value. rewrite Hb, Hf.
    by cbn [split_blocks CxlSimulatorCore.channel_base].
Qed.

Lemma split_all_placed (p : Z) :
  p ∈ RankMemory.pack_identifiers sample_cxl →
  pack_placed sample_cxl split_op split_blocks split_value p (mem split_world).
Proof.
  change (mem split_world) with split_memory. revert p. apply split_packs.
  - apply (split_placed 1 0 (MemoryObject.mk 1 640 [(true, 4096); (false, 0)]) 4096);
      try reflexivity; [lia|]. apply (split_cases (fun c' => Z.testbit 1 c' = true → c' = 0)); done.
  - apply (split_placed 2 1 (MemoryObject.mk 0 640 [(false, 0); (true, 0)]) 0);
      try reflexivity; [lia|]. apply (split_cases (fun c' => Z.testbit 2 c' = true → c' = 1)); done.
  - intros c Hc Hbit. split; [intros o Ho|intros o off r e Ho];
      change (o ∈ @nil MemoryObject.t) in Ho; by apply elem_of_nil in Ho.
Qed.

Lemma cxl_operation_computes_sums_witness : ∃ w',
  channelwise_dispatch sample_cxl split_buffers 1 true (@rev Z) None split_op split_world
    (D := mask_driver 2) = (w', Ok tt) ∧
  load32 (mem w') (2 ^ 40 + (1 * 3 + 2) * 64 + 4 * 3) = sls_sum split_op split_value (1, 2) 3 ∧
  (∀ c, held (CunitLaws := mask_laws 2) (kernel w') c = false).
Proof.
  destruct (cxl_operation_computes_sums sample_cxl split_op split_map split_blocks split_buffers Z
    (mask_driver 2) (mask_laws 2) true split_value None (@rev Z) 0 split_world)
    as (w' & Hrun & Hsum & _ & Hheld & _).
  - exact split_system.
  - exact split_op_ok.
  - split; vm_compute; split; congruence.
  - exact I.
  - exact split_layout_ok.
  - exact split_lookups.
  - reflexivity.
  - repeat constructor; vm_compute; congruence.
  - exists 1. split; [left|discriminate].
  - intros l. symmetry. apply Permutation_rev.
  - exact split_idle.
  - intros c. apply Z.bits_0.
  - exact split_all_placed.
  - exists w'. split; [exact Hrun|]. split; [|exact Hheld].
    apply (Hsum 1 (MemoryObject.mk 1 640 [(true, 4096); (false, 0)]) 2 3);
      [left|left|cbn; lia|vm_compute; split; congruence].
Defined.
