(* ===== verification/InfoFiles.v ===== *)
(** * The info files of the data generators

    tools/datagen/line_parser.h and the classes that describe generated data in text
    files: sls/general/{tables,indices}_info.{h,cpp} and
    imdb/general/{columns,ranges,predicate_vecs}_info.{h,cpp},
    vector_of_vectors_info.h, all under tools/datagen.  A file is the list of its
    characters, [None] a file that cannot be opened.  How doubles are printed and read
    is a [Format] with its laws. *)
From Stdlib Require Import String.
From S2P Require Import Prelude Text.

Abbreviation file := (option chars).

(** [std::ifstream in(path)] with the check that follows it. *)
Definition open_file (f : file) : result chars := of_option StdException f.

(** ** line_parser.h *)
Module LineParser.
Section parser.
Context {S : Type}.

(** What a registered closure does to the object it captures. *)
Definition parse_closure := stream → S → S.
Definition t := list (chars * parse_closure).

(** [unordered_map::emplace] keeps an element that is there. *)
Fixpoint register_parse_closure (function_set_ : t) (name : chars) (func : parse_closure) : t :=
  match function_set_ with
  | [] => [(name, func)]
  | (k, f) :: p => if decide (k = name) then function_set_ else (k, f) :: register_parse_closure p name func
  end.

(** [function_set_.at(name)] *)
Fixpoint at_ (function_set_ : t) (name : chars) : result parse_closure :=
  match function_set_ with
  | [] => Err LogicError
  | (k, f) :: p => if decide (k = name) then Ok f else at_ p name
  end.

Definition parse_line (function_set_ : t) (s : S) (line : chars) : result S :=
  let (var_name, iss) := extract_word (Some line) [] in
  let iss := extract_char iss in
  let! func := at_ function_set_ var_name in
  Ok (func iss s).

Definition parse_file (function_set_ : t) (s : S) (content : chars) : result S :=
  rfold (fun s var_line => match var_line with [] => Ok s | _ => parse_line function_set_ s var_line end)
    s (lines content).
End parser.
Arguments t S : clear implicits.
End LineParser.
Import LineParser.

(** A line of an info file, [fmt::print(out, "name = {}\n", ...)]. *)
Definition info_line (name : string) (body : chars) : chars := str name ++ str " = " ++ body ++ [newline].

(** [iss >> field] and the copy into a vector. *)
Definition scalar (W : Z) (iss : stream) (old : Z) : Z := (extract_unsigned W iss old).1.
Definition size_ts (iss : stream) : list Z := extract_all (unsigned 64) 0 iss.

(** ** SLS *)
Module TablesInfo.
Record t := mk { num_tables_ : Z; cols_ : Z; table_rows_ : list Z }.
Definition empty : t := mk 0 0 [].

(** The values are read as [size_t] and stored as [uint32_t]. *)
Definition create_parser : LineParser.t t :=
  let lp := register_parse_closure [] (str "tables_count")
    (fun iss i => mk (scalar 64 iss (num_tables_ i)) (cols_ i) (table_rows_ i)) in
  let lp := register_parse_closure lp (str "table_columns")
    (fun iss i => mk (num_tables_ i) (scalar 64 iss (cols_ i)) (table_rows_ i)) in
  register_parse_closure lp (str "table_rows")
    (fun iss i => mk (num_tables_ i) (cols_ i) (table_rows_ i ++ (u32 <$> size_ts iss))).

Definition load_from_file (i : t) (path : file) : result t :=
  let! content := open_file path in parse_file create_parser i content.

Definition store_to_file (i : t) : chars :=
  info_line "tables_count" (show (unsigned 64) (num_tables_ i)) ++
  info_line "table_columns" (show (unsigned 64) (cols_ i)) ++
  info_line "table_rows" (join (unsigned 32) (table_rows_ i)).
End TablesInfo.

Module IndicesInfo.
Record t := mk { minibatch_sizes_ : Z; lengths_ : list Z; num_requests_ : Z }.

(** [IndicesInfo(minibatch_size, lengths)] *)
Definition make (minibatch_size : Z) (lengths : list Z) : t :=
  mk minibatch_size lengths (Z.of_nat (length lengths)).

(** [IndicesInfo(num_lookup, minibatch_sizes)] *)
Definition of_lookups (num_lookup : list Z) (minibatch_sizes : Z) : t :=
  mk minibatch_sizes (num_lookup ≫= fun lookups => replicate (Z.to_nat minibatch_sizes) (u32 lookups))
     (u64 (Z.of_nat (length num_lookup) * minibatch_sizes)).

Definition create_parser : LineParser.t t :=
  let lp := register_parse_closure [] (str "lengths")
    (fun iss i => mk (minibatch_sizes_ i) (lengths_ i ++ (u32 <$> size_ts iss)) (num_requests_ i)) in
  register_parse_closure lp (str "minibatch_sizes")
    (fun iss i => mk (scalar 64 iss (minibatch_sizes_ i)) (lengths_ i) (num_requests_ i)).

(** [num_requests_] has no initializer: [uninit] is what it holds. *)
Definition load (uninit : Z) (path : file) : result t :=
  let! content := open_file path in
  let! i := parse_file create_parser (mk 0 [] uninit) content in
  Ok (mk (minibatch_sizes_ i) (lengths_ i) (Z.of_nat (length (lengths_ i)))).

Definition store_to_file (i : t) : chars :=
  info_line "lengths" (join (unsigned 32) (lengths_ i)) ++
  info_line "minibatch_sizes" (show (unsigned 64) (minibatch_sizes_ i)).
End IndicesInfo.

(** ** IMDB *)
Module ColumnsInfo.
Record t := mk { entry_bit_size : Z; entry_count : Z }.

Definition create_parser : LineParser.t t :=
  let lp := register_parse_closure [] (str "entry_bit_size")
    (fun iss i => mk (scalar 64 iss (entry_bit_size i)) (entry_count i)) in
  register_parse_closure lp (str "entry_count")
    (fun iss i => mk (entry_bit_size i) (scalar 32 iss (entry_count i))).

Definition load_from_file (i : t) (path : file) : result t :=
  let! content := open_file path in parse_file create_parser i content.

Definition store_to_file (i : t) : chars :=
  info_line "entry_bit_size" (show (unsigned 64) (entry_bit_size i)) ++
  info_line "entry_count" (show (unsigned 32) (entry_count i)).
End ColumnsInfo.

Module VectorOfVectorsInfo.
Definition t := list Z.                  (* sizes_ *)

Definition create_from_vector {A} (size : A → Z) (vec_of_vecs : list A) : t := size <$> vec_of_vecs.

Definition create_parser : LineParser.t t :=
  register_parse_closure [] (str "sizes") (fun iss sizes => sizes ++ size_ts iss).

Definition load (path : file) : result t :=
  let! content := open_file path in parse_file create_parser [] content.

Definition store_to_file (sizes : t) : chars := info_line "sizes" (join (unsigned 64) sizes).
End VectorOfVectorsInfo.

Section doubles.
Context {D : Type} (double : Format D) (zero : D).

(** The fields of [RangesInfo]. *)
Record RangesInfo := mkRanges { selectivities_ : list D; num_requests_ : Z }.

Definition make_ranges_info (selectivities : list D) : RangesInfo :=
  mkRanges selectivities (Z.of_nat (length selectivities)).

Definition ranges_parser : LineParser.t RangesInfo :=
  register_parse_closure [] (str "selectivities")
    (fun iss i => mkRanges (selectivities_ i ++ extract_all double zero iss) (num_requests_ i)).

Definition load_ranges_info (path : file) : result RangesInfo :=
  let! content := open_file path in
  let! i := parse_file ranges_parser (mkRanges [] 0) content in
  Ok (make_ranges_info (selectivities_ i)).

Definition store_ranges_info (i : RangesInfo) : chars :=
  info_line "selectivities" (join double (selectivities_ i)).

(** The fields of [PredicateVectorsInfo]. *)
Record PredicateVectorsInfo := mkPredicates {
  predicate_selectivities_ : list D;
  predicate_max_values_ : list Z;
  predicate_requests_ : Z;
}.

Definition check_vectors_consistency (i : PredicateVectorsInfo) : result unit :=
  if (length (predicate_selectivities_ i) =? length (predicate_max_values_ i))%nat then Ok tt else Err StdException.

Definition make_predicates_info (selectivities : list D) (predicate_max_values : list Z) : result PredicateVectorsInfo :=
  let i := mkPredicates selectivities predicate_max_values (Z.of_nat (length selectivities)) in
  let! _ := check_vectors_consistency i in
  Ok i.

Definition predicates_parser : LineParser.t PredicateVectorsInfo :=
  let lp := register_parse_closure [] (str "selectivities")
    (fun iss i => mkPredicates (predicate_selectivities_ i ++ extract_all double zero iss)
                    (predicate_max_values_ i) (predicate_requests_ i)) in
  register_parse_closure lp (str "predicate_max_values")
    (fun iss i => mkPredicates (predicate_selectivities_ i)
                    (predicate_max_values_ i ++ extract_all (unsigned 32) 0 iss) (predicate_requests_ i)).

Definition load_predicates_info (path : file) : result PredicateVectorsInfo :=
  let! content := open_file path in
  let! i := parse_file predicates_parser (mkPredicates [] [] 0) content in
  let! _ := check_vectors_consistency i in
  Ok (mkPredicates (predicate_selectivities_ i) (predicate_max_values_ i)
        (Z.of_nat (length (predicate_selectivities_ i)))).

Definition store_predicates_info (i : PredicateVectorsInfo) : chars :=
  info_line "selectivities" (join double (predicate_selectivities_ i)) ++
  info_line "predicate_max_values" (join (unsigned 32) (predicate_max_values_ i)).
End doubles.
Arguments RangesInfo D : clear implicits.
Arguments PredicateVectorsInfo D : clear implicits.

(** ** Printed files are parsed line by line *)
Section printed.
Context {S : Type} (lp : LineParser.t S).

(** A name that can be a key: the parser reads it as one word. *)
Definition is_key (name : string) : Prop := is_word (str name).

#[export] Instance is_key_dec (name : string) : Decision (is_key name).
Proof. unfold is_key, is_word. apply _. Defined.

Lemma parse_info_line (name : string) (body : chars) (s : S) : is_key name →
  parse_line lp s (str name ++ str " = " ++ body) = (let! func := at_ lp (str name) in Ok (func (Some (32 :: body)) s)).
Proof. intros Hk. unfold parse_line. by rewrite extract_word_app. Qed.

(** The closures of the lines run in the order of the lines, each on what follows
    the equals sign. *)
Lemma parse_info (fields : list (string * chars)) (s : S) :
  Forall (fun f => is_key f.1 ∧ Forall (fun c => c ≠ newline) f.2) fields →
  parse_file lp s (fields ≫= fun f => info_line f.1 f.2) =
  rfold (fun s f => let! func := at_ lp (str f.1) in Ok (func (Some (32 :: f.2)) s)) s fields.
Proof.
  intros Hf. unfold parse_file.
  assert (E : (fields ≫= fun f => info_line f.1 f.2) =
              (((fun f => str f.1 ++ str " = " ++ f.2) <$> fields) ≫= fun l => l ++ [newline])).
  { clear Hf. induction fields as [|f fields IH]; cbn [mbind list_bind fmap list_fmap]; [done|].
    rewrite <- IH. unfold info_line. by rewrite <- !app_assoc. }
  rewrite E, lines_concat.
  - clear E. revert s. induction Hf as [|[name body] fields [Hk _] _ IH]; intros s; [done|].
    cbn [fmap list_fmap rfold fst snd] in *. rewrite <- parse_info_line by done.
    assert (Hn : str name ++ str " = " ++ body ≠ []) by (destruct Hk as [Hk _]; by destruct (str name)).
    destruct (str name ++ str " = " ++ body) as [|c l]; [done|].
    destruct (parse_line lp s (c :: l)); cbn [rbind]; [apply IH|done].
  - apply Forall_fmap. eapply Forall_impl; [done|]. intros [name body] [[_ Hk] Hb]; cbn [compose fst snd] in *.
    apply Forall_app. split; [|by repeat constructor].
    eapply Forall_impl; [done|]. by intros c Hc ->.
Qed.
End printed.

(** Finding a registered name. *)
Ltac find_key :=
  repeat first [ rewrite decide_True by reflexivity
               | rewrite decide_False by (vm_compute; discriminate) ].

Lemma digits_line (v : Z) : 0 ≤ v < 2 ^ 64 → Forall (fun c => c ≠ newline) (digits 20 v).
Proof.
  intros Hv. destruct (show_word (F:=unsigned 64) v Hv) as [_ H]. cbn [show unsigned] in H.
  eapply Forall_impl; [exact H|]. by intros c Hc ->.
Qed.

Lemma scalar_read (W v old : Z) : W = 32 ∨ W = 64 → 0 ≤ v < 2 ^ W → scalar W (Some (32 :: digits 20 v)) old = v.
Proof.
  intros HW Hv. unfold scalar.
  assert (E : extract_unsigned W (Some (digits 20 v ++ [])) old = (v, Some [])).
  { destruct HW as [-> | ->]; [apply (extract_show (F:=unsigned 32))|apply (extract_show (F:=unsigned 64))]; done. }
  rewrite app_nil_r in E. unfold extract_unsigned in *. cbn [skip_ws is_space]. change (is_space 32) with true. cbn iota.
  by rewrite E.
Qed.

Lemma join_width (V W : Z) (l : list Z) : join (unsigned V) l = join (unsigned W) l.
Proof. induction l as [|v [|w l] IH]; [done..|]. cbn [join] in *. by rewrite IH. Qed.

Lemma words_read (l : list Z) : Forall (fun v => 0 ≤ v < 2 ^ 32) l →
  u32 <$> size_ts (Some (32 :: join (unsigned 32) l)) = l.
Proof.
  intros Hl. unfold size_ts. rewrite (read_all_space (unsigned 64) (fun v => 0 ≤ v < 2 ^ 64)) by done.
  rewrite (join_width 32 64), (join_read (unsigned 64) (fun v => 0 ≤ v < 2 ^ 64)).
  - induction Hl as [|v l Hv Hl IH]; [done|]. cbn [fmap list_fmap]. f_equal; [apply Z.mod_small; lia|exact IH].
  - eapply Forall_impl; [done|]. cbv beta. lia.
Qed.

Lemma values_read {T} (F : Format T) (valid : T → Prop) `{!FormatLaws F valid} (d : T) (l : list T) :
  Forall valid l → extract_all F d (Some (32 :: join F l)) = l.
Proof. intros Hl. rewrite (read_all_space F valid) by done. by apply (join_read F valid). Qed.

Lemma words_line (l : list Z) : Forall (fun v => 0 ≤ v < 2 ^ 32) l → Forall (fun c => c ≠ newline) (join (unsigned 32) l).
Proof. intros Hl. by apply (join_line (unsigned 32) (fun v => 0 ≤ v < 2 ^ 32)). Qed.
Create HintDb info.
#[export] Hint Resolve digits_line words_line : info.
#[export] Hint Extern 3 (_ ≤ _ < _) => lia : info.

Ltac info_fields :=
  repeat (apply Forall_cons; split; [split; [apply (bool_decide_unpack _); vm_compute; exact I|cbn [snd show unsigned]; auto with info]|]);
  try apply Forall_nil; try exact I.

Ltac head_of t := lazymatch t with ?f _ => head_of f | _ => t end.

(** Runs the closures of a parser on the fields a file was printed from. *)
Ltac parse_fields lp fields s :=
  let E := fresh in
  pose proof (parse_info lp fields s) as E; cbn [mbind list_bind fst snd] in E; rewrite app_nil_r in E;
  cbn [show unsigned]; rewrite E by info_fields; clear E; let p := head_of lp in unfold p;
  repeat progress (cbn [register_parse_closure]; find_key);
  cbn [rfold fst snd at_]; find_key; cbn [rbind].

(** The tables' shape is read back; rows are added to those the object already has. *)
Lemma tables_info_read (i old : TablesInfo.t) :
  0 ≤ TablesInfo.num_tables_ i < 2 ^ 64 → 0 ≤ TablesInfo.cols_ i < 2 ^ 64 →
  Forall (fun v => 0 ≤ v < 2 ^ 32) (TablesInfo.table_rows_ i) →
  TablesInfo.load_from_file old (Some (TablesInfo.store_to_file i)) =
  Ok (TablesInfo.mk (TablesInfo.num_tables_ i) (TablesInfo.cols_ i)
        (TablesInfo.table_rows_ old ++ TablesInfo.table_rows_ i)).
Proof.
  intros H1 H2 H3. destruct i as [n c rows]. cbn [TablesInfo.num_tables_ TablesInfo.cols_ TablesInfo.table_rows_] in *.
  unfold TablesInfo.load_from_file, TablesInfo.store_to_file.
  cbn [open_file of_option rbind TablesInfo.num_tables_ TablesInfo.cols_ TablesInfo.table_rows_].
  parse_fields TablesInfo.create_parser
    [("tables_count"%string, digits 20 n); ("table_columns"%string, digits 20 c);
     ("table_rows"%string, join (unsigned 32) rows)] old.
  by rewrite !scalar_read, words_read by auto.
Qed.

(** Lengths and batch size are read back, and the number of requests is recomputed. *)
Lemma indices_info_read (uninit minibatch_size : Z) (lengths : list Z) :
  0 ≤ minibatch_size < 2 ^ 64 → Forall (fun v => 0 ≤ v < 2 ^ 32) lengths →
  let i := IndicesInfo.make minibatch_size lengths in
  IndicesInfo.load uninit (Some (IndicesInfo.store_to_file i)) = Ok i.
Proof.
  intros H1 H2. cbv zeta. unfold IndicesInfo.load, IndicesInfo.store_to_file, IndicesInfo.make.
  cbn [open_file of_option rbind IndicesInfo.lengths_ IndicesInfo.minibatch_sizes_].
  parse_fields IndicesInfo.create_parser
    [("lengths"%string, join (unsigned 32) lengths); ("minibatch_sizes"%string, digits 20 minibatch_size)]
    (IndicesInfo.mk 0 [] uninit).
  by rewrite !scalar_read, words_read by auto.
Qed.

Lemma columns_info_read (i old : ColumnsInfo.t) :
  0 ≤ ColumnsInfo.entry_bit_size i < 2 ^ 64 → 0 ≤ ColumnsInfo.entry_count i < 2 ^ 32 →
  ColumnsInfo.load_from_file old (Some (ColumnsInfo.store_to_file i)) = Ok i.
Proof.
  intros H1 H2. destruct i as [b n]. unfold ColumnsInfo.load_from_file, ColumnsInfo.store_to_file.
  cbn [open_file of_option rbind ColumnsInfo.entry_bit_size ColumnsInfo.entry_count] in *.
  parse_fields ColumnsInfo.create_parser
    [("entry_bit_size"%string, digits 20 b); ("entry_count"%string, digits 20 n)] old.
  by rewrite !scalar_read by auto.
Qed.

Lemma sizes_info_read (sizes : list Z) :
  Forall (fun v => 0 ≤ v < 2 ^ 64) sizes →
  VectorOfVectorsInfo.load (Some (VectorOfVectorsInfo.store_to_file sizes)) = Ok sizes.
Proof.
  intros Hs. unfold VectorOfVectorsInfo.load, VectorOfVectorsInfo.store_to_file. cbn [open_file of_option rbind].
  pose proof (join_line (unsigned 64) _ sizes Hs).
  parse_fields VectorOfVectorsInfo.create_parser [("sizes"%string, join (unsigned 64) sizes)] (@nil Z).
  unfold size_ts. by rewrite (values_read (unsigned 64) _ 0 sizes Hs).
Qed.

Section doubles_read.
Context {D : Type} (double : Format D) (finite : D → Prop) `{!FormatLaws double finite} (zero : D).

Lemma ranges_info_read (sel : list D) : Forall finite sel →
  let i := make_ranges_info sel in load_ranges_info double zero (Some (store_ranges_info double i)) = Ok i.
Proof.
  intros Hs. cbv zeta. unfold load_ranges_info, store_ranges_info, make_ranges_info.
  cbn [open_file of_option rbind selectivities_]. pose proof (join_line double finite sel Hs).
  parse_fields (ranges_parser double zero) [("selectivities"%string, join double sel)] (mkRanges (@nil D) 0).
  by rewrite (values_read double finite zero sel Hs).
Qed.

Lemma predicates_info_read (sel : list D) (max_values : list Z) :
  Forall finite sel → Forall (fun v => 0 ≤ v < 2 ^ 32) max_values →
  (let! i := make_predicates_info sel max_values in
   load_predicates_info double zero (Some (store_predicates_info double i))) = make_predicates_info sel max_values.
Proof.
  intros Hs Hm. unfold make_predicates_info, check_vectors_consistency.
  cbn [predicate_selectivities_ predicate_max_values_]. case_match eqn:E; cbn [rbind]; [|done].
  unfold load_predicates_info, store_predicates_info.
  cbn [open_file of_option rbind predicate_selectivities_ predicate_max_values_].
  pose proof (join_line double finite sel Hs).
  parse_fields (predicates_parser double zero)
    [("selectivities"%string, join double sel); ("predicate_max_values"%string, join (unsigned 32) max_values)]
    (mkPredicates (@nil D) [] 0).
  cbn [predicate_selectivities_ predicate_max_values_ predicate_requests_].
  rewrite (values_read double finite zero sel Hs), (values_read (unsigned 32) _ 0 max_values Hm).
  unfold check_vectors_consistency. cbn [predicate_selectivities_ predicate_max_values_ app].
  by rewrite E.
Qed.
End doubles_read.

(** Property C35.  The text files that describe generated data lose nothing.  Whatever
    the number of tables, columns, rows, batches, lengths, bit widths, sizes and
    selectivities, parsing the file that was printed from an object yields that object:
    keys are found, the values of a line end where the line ends, and derived fields are
    recomputed.  Doubles only need a printed form that [operator>>] reads back.  Loading
    a [TablesInfo] adds the rows of the file to those the object already has. *)
Theorem info_files_roundtrip {D} (double : Format D) (finite : D → Prop) `{!FormatLaws double finite} (zero : D)
    (tables old : TablesInfo.t) (columns old_columns : ColumnsInfo.t)
    (minibatch_size uninit : Z) (lengths sizes max_values : list Z) (selectivities : list D) :
  0 ≤ TablesInfo.num_tables_ tables < 2 ^ 64 ∧ 0 ≤ TablesInfo.cols_ tables < 2 ^ 64 →
  0 ≤ ColumnsInfo.entry_bit_size columns < 2 ^ 64 ∧ 0 ≤ ColumnsInfo.entry_count columns < 2 ^ 32 →
  0 ≤ minibatch_size < 2 ^ 64 →
  Forall (fun v => 0 ≤ v < 2 ^ 32) (TablesInfo.table_rows_ tables ++ lengths ++ max_values) →
  Forall (fun v => 0 ≤ v < 2 ^ 64) sizes → Forall finite selectivities →
  TablesInfo.load_from_file old (Some (TablesInfo.store_to_file tables)) =
    Ok (TablesInfo.mk (TablesInfo.num_tables_ tables) (TablesInfo.cols_ tables)
          (TablesInfo.table_rows_ old ++ TablesInfo.table_rows_ tables)) ∧
  IndicesInfo.load uninit (Some (IndicesInfo.store_to_file (IndicesInfo.make minibatch_size lengths))) =
    Ok (IndicesInfo.make minibatch_size lengths) ∧
  ColumnsInfo.load_from_file old_columns (Some (ColumnsInfo.store_to_file columns)) = Ok columns ∧
  VectorOfVectorsInfo.load (Some (VectorOfVectorsInfo.store_to_file sizes)) = Ok sizes ∧
  load_ranges_info double zero (Some (store_ranges_info double (make_ranges_info selectivities))) =
    Ok (make_ranges_info selectivities) ∧
  (let! i := make_predicates_info selectivities max_values in
   load_predicates_info double zero (Some (store_predicates_info double i))) =
    make_predicates_info selectivities max_values.
Proof.
  intros [H1 H2] [H3 H4] H5 [H6 [H7 H8]%Forall_app]%Forall_app H9 H10. split_and!.
  - by apply tables_info_read.
  - by apply indices_info_read.
  - by apply columns_info_read.
  - by apply sizes_info_read.
  - by apply (ranges_info_read double finite).
  - by apply (predicates_info_read double finite).
Qed.

(** Two tables and a batch; selectivities that are whole numbers. *)
Lemma info_files_roundtrip_witness :
  TablesInfo.load_from_file TablesInfo.empty (Some (TablesInfo.store_to_file (TablesInfo.mk 2 16 [500; 7]))) =
  Ok (TablesInfo.mk 2 16 [500; 7]).
Proof.
  refine (proj1 (info_files_roundtrip (unsigned 32) (fun v => 0 ≤ v < 2 ^ 32) 0
    (TablesInfo.mk 2 16 [500; 7]) TablesInfo.empty (ColumnsInfo.mk 10 4096) (ColumnsInfo.mk 0 0)
    1 0 [40; 3] [128; 1024] [1023] [1] _ _ _ _ _ _));
    first [by apply (bool_decide_unpack _); vm_compute | apply (bool_decide_unpack _); vm_compute; exact I].
Defined.
