(* ===== verification/DataFiles.v ===== *)
(** * The binary files of the data generators

    common/mapped_file.h, the classes under tools/datagen/imdb/general that store
    columns, scan ranges, predicate vectors, bit vectors and index vectors
    ({columns,ranges,predicate_vecs}_io.cpp, {bit,index}_vectors_io.h), and
    tools/datagen/imdb/golden_vec_generator/gen.h.  A binary file is the list of its
    bytes, words are stored little-endian.  Whether the kernel maps a file of a given
    size is the argument [mmap]; the sources rely on nothing but that a mapping shows
    the file. *)
From S2P Require Import Prelude Text InfoFiles BitViews Scan Avx2 Aes.

(** ** common/mapped_file.h *)
Section mapping.
Context (mmap : Z → bool).

(** The constructor of [MappedData] for a whole file. *)
Definition MappedData_whole (data : list Z) : result (list Z) :=
  if mmap (Z.of_nat (length data)) then Ok data else Err IO.

(** [MappedFile(path)] *)
Definition MappedFile (data_path : option (list Z)) : result (list Z) :=
  let! data := of_option IO data_path in MappedData_whole data.
End mapping.

(** [get_view<uint32_t>()]: [size() / sizeof(T)] elements. *)
Definition get_view_words (mapped : list Z) : list Z := words_of_bytes mapped.

(** [get_view<RangeOperation>()] *)
Definition get_view_ranges (mapped : list Z) : list RangeOperation :=
  (fun i => let r := take 8 (drop (8 * i) mapped) in
            mkRange (le_value (take 4 r)) (le_value (drop 4 r))) <$> seq 0 (length mapped / 8).

(** [out.write(container.data(), bytes)] of a container of words. *)
Definition write_words (l : list Z) : list Z := bytes_of_words l.

(** ** Vectors of vectors

    The three classes for vectors of containers differ in the containers.  [data] are
    the words of a container, [set] replaces them. *)
Section vectors.
Context {V : Type} (data : V → list Z) (set : V → list Z → V).

Definition store_vectors (vs : list V) : list Z := vs ≫= fun v => write_words (data v).

(** The loop over the containers; [std::copy] may not read past the view. *)
Fixpoint copy_vectors (view : list Z) (vs : list V) : result (list V) :=
  match vs with
  | [] => Ok []
  | v :: vs' =>
      let n := length (data v) in
      if (length view <? n)%nat then Err UndefinedBehaviour
      else let! r := copy_vectors (drop n view) vs' in Ok (set v (take n view) :: r)
  end.

Definition load_vectors (vs : list V) (mapped : list Z) : result (list V) :=
  let expected_size := sum_list_Z ((fun v => bytes element_bits (data v)) <$> vs) in
  if expected_size =? Z.of_nat (length mapped) then copy_vectors (get_view_words mapped) vs
  else Err StdException.
End vectors.

Definition set_bits (b : bit_vector_view) (d : list Z) : bit_vector_view := mkBits (max_value_ b) d.

(** bit_vectors_io.h *)
Module BitVectorsIO.
Definition store_to_file (bit_vectors : list bit_vector_view) (info : VectorOfVectorsInfo.t) : chars * list Z :=
  (VectorOfVectorsInfo.store_to_file info, store_vectors bits_data bit_vectors).

Definition load_from_file (info : VectorOfVectorsInfo.t) (mmapped_file : list Z) : result (list bit_vector_view) :=
  let! bit_vectors := rmap (bit_vector element_bits) info in
  load_vectors bits_data set_bits bit_vectors mmapped_file.
End BitVectorsIO.

(** index_vectors_io.h *)
Module IndexVectorsIO.
Definition store_to_file (index_vectors : list (list Z)) (info : VectorOfVectorsInfo.t) : chars * list Z :=
  (VectorOfVectorsInfo.store_to_file info, store_vectors (fun v => v) index_vectors).

Definition load_from_file (info : VectorOfVectorsInfo.t) (mmapped_file : list Z) : result (list (list Z)) :=
  let index_vectors := (fun size => replicate (Z.to_nat size) 0) <$> info in
  load_vectors (fun v => v) (fun _ d => d) index_vectors mmapped_file.
End IndexVectorsIO.

(** predicate_vecs_io.cpp *)
Module PredicateVectorsIO.
Section doubles.
Context {D : Type} (double : Format D).

Definition store_to_file (predictors : list bit_vector_view) (info : PredicateVectorsInfo D) : chars * list Z :=
  (store_predicates_info double info, store_vectors bits_data predictors).

Definition load_from_file (info : PredicateVectorsInfo D) (mmapped_file : list Z) : result (list bit_vector_view) :=
  let! predictors := rmap (fun max_value => bit_vector element_bits (max_value + 1)) (predicate_max_values_ info) in
  load_vectors bits_data set_bits predictors mmapped_file.
End doubles.
End PredicateVectorsIO.

(** ranges_io.cpp *)
Module RangesIO.
Section doubles.
Context {D : Type} (double : Format D).

Definition store_to_file (ranges : list Scan.RangeOperation) (info : RangesInfo D) : chars * list Z :=
  (store_ranges_info double info, ranges ≫= fun r => write_words [range_start r; range_end r]).

Definition load_from_file (info : RangesInfo D) (mmapped_file : list Z) : result (list Scan.RangeOperation) :=
  let view := get_view_ranges mmapped_file in
  if num_requests_ info =? Z.of_nat (length view) then Ok view else Err StdException.
End doubles.
End RangesIO.

(** columns_io.cpp *)
Module ColumnsIO.
Definition store_to_file (column : bit_compressed) (info : ColumnsInfo.t) : chars * list Z :=
  (ColumnsInfo.store_to_file info, write_words (data_ column)).

(** The view has as many words as the container: the sizes were compared. *)
Definition load_from_file (info : ColumnsInfo.t) (mmapped_file : list Z) : result bit_compressed :=
  let! column := compressed_vector element_bits (ColumnsInfo.entry_bit_size info) (ColumnsInfo.entry_count info) in
  if bytes element_bits (data_ column) =? Z.of_nat (length mmapped_file)
  then Ok (set_data column (get_view_words mmapped_file))
  else Err StdException.
End ColumnsIO.

(** ** golden_vec_generator/gen.h *)
Module ImdbGoldenVecGenerator.
Definition scan_ranges_iv (column : bit_compressed) := rmap (AVX2Runner_range_iv column).
Definition scan_lists_iv (column : bit_compressed) := rmap (AVX2Runner_list_iv column).
Definition scan_ranges_bv (column : bit_compressed) := rmap (AVX2Runner_range_bv column).
Definition scan_lists_bv (column : bit_compressed) := rmap (AVX2Runner_list_bv column).

(** [scan] gives the golden vectors: index vectors or bit vectors. *)
Definition store_golden_iv (scan : result (list (list Z))) : result (chars * list Z) :=
  let! golden := scan in
  let info := VectorOfVectorsInfo.create_from_vector (fun v => Z.of_nat (length v)) golden in
  Ok (IndexVectorsIO.store_to_file golden info).

Definition store_golden_bv (scan : result (list bit_vector_view)) : result (chars * list Z) :=
  let! golden := scan in
  let info := VectorOfVectorsInfo.create_from_vector max_value_ golden in
  Ok (BitVectorsIO.store_to_file golden info).
End ImdbGoldenVecGenerator.

(** Loading through the mapping and the info file, as [VectorOfVectorsMmap] does. *)
Definition load_mapped {I V} (mmap : Z → bool) (parse : InfoFiles.file → result I)
    (load : I → list Z → result V) (files : chars * list Z) : result V :=
  let! mapped := MappedFile mmap (Some files.2) in
  let! info := parse (Some files.1) in
  load info mapped.

(** ** Words in bytes *)
Definition words (l : list Z) : Prop := Forall (fun w => 0 ≤ w < 2 ^ 32) l.

Lemma length_bytes_of_words (l : list Z) : length (bytes_of_words l) = (4 * length l)%nat.
Proof.
  induction l as [|w l IH]; [done|]. unfold bytes_of_words in *. cbn [mbind list_bind].
  rewrite length_app, length_le_bytes, IH. cbn [length]. lia.
Qed.

Lemma words_bytes_roundtrip (l : list Z) : words l → words_of_bytes (bytes_of_words l) = l.
Proof.
  intros Hl. apply (list_eq_same_length _ _ (length l)); [done| |].
  { rewrite length_words, length_bytes_of_words. rewrite Nat.mul_comm. apply Nat.div_mul. lia. }
  intros i x y Hi Hx Hy. unfold words_of_bytes in Hx.
  apply list_lookup_fmap_Some in Hx as (k & -> & [-> Hk]%lookup_seq). cbn [Nat.add].
  rewrite <- (take_drop_middle l i y Hy) at 1. unfold bytes_of_words. rewrite bind_app. cbn [mbind list_bind].
  assert (E : length (take i l ≫= le_bytes 4) = (4 * i)%nat).
  { change (length (bytes_of_words (take i l)) = (4 * i)%nat). rewrite length_bytes_of_words, length_take. lia. }
  rewrite <- E, drop_app_length. rewrite <- (length_le_bytes 4 y) at 1. rewrite take_app_length, le_value_bytes.
  apply Z.mod_small. eapply Forall_lookup_1 in Hl; [|exact Hy]. cbv beta in Hl. change (8 * Z.of_nat 4) with 32. lia.
Qed.

Lemma bytes_of_words_app (l k : list Z) : bytes_of_words (l ++ k) = bytes_of_words l ++ bytes_of_words k.
Proof. apply bind_app. Qed.

Section vectors_roundtrip.
Context {V : Type} (data : V → list Z) (set : V → list Z → V).

Lemma store_vectors_words (vs : list V) : store_vectors data vs = bytes_of_words (vs ≫= data).
Proof.
  induction vs as [|v vs IH]; [done|]. unfold store_vectors in *. cbn [mbind list_bind].
  by rewrite bytes_of_words_app, <- IH.
Qed.

(** A fresh container of the right size that takes the words becomes the stored one. *)
Definition takes (f v : V) : Prop := length (data f) = length (data v) ∧ set f (data v) = v.

Lemma copy_vectors_spec (fresh vs : list V) : Forall2 takes fresh vs →
  copy_vectors data set (vs ≫= data) fresh = Ok vs.
Proof.
  induction 1 as [|f v fresh vs [Hl Hs] _ IH]; [done|]. cbn [copy_vectors mbind list_bind].
  rewrite length_app, Hl. case_match eqn:E; [apply Nat.ltb_lt in E; lia|].
  rewrite drop_app_length, take_app_length, Hs. fold (vs ≫= data). change (list_bind _ _ data vs) with (vs ≫= data).
  by rewrite IH.
Qed.

Lemma load_vectors_spec (fresh vs : list V) : Forall2 takes fresh vs → Forall (fun v => words (data v)) vs →
  load_vectors data set fresh (store_vectors data vs) = Ok vs.
Proof.
  intros Hf Hw. unfold load_vectors, get_view_words. rewrite store_vectors_words, length_bytes_of_words.
  assert (E : sum_list_Z ((fun v => bytes element_bits (data v)) <$> fresh) = Z.of_nat (4 * length (vs ≫= data))).
  { clear Hw. induction Hf as [|f v fresh vs [Hl _] _ IH]; [done|]. cbn [fmap list_fmap sum_list_Z foldr mbind list_bind].
    rewrite length_app. unfold bytes at 1. change (element_bits / 8) with 4. rewrite Hl.
    change (foldr Z.add 0) with sum_list_Z. change (list_fmap _ _ ?g fresh) with (g <$> fresh).
    change (list_bind _ _ data vs) with (vs ≫= data). rewrite IH. lia. }
  rewrite E, Z.eqb_refl, words_bytes_roundtrip; [by apply copy_vectors_spec|].
  clear Hf E. induction Hw as [|v vs Hv _ IH]; [constructor|]. by apply Forall_app.
Qed.
End vectors_roundtrip.

(** A vector that is as [bit_vector(size)] allocated it: the size is below 2^63 and the
    storage is what the constructor asks for. *)
Definition owned_bits (b : bit_vector_view) : Prop :=
  words (bits_data b) ∧ 0 ≤ max_value_ b < 2 ^ 63 ∧
  ∃ fresh, bit_vector element_bits (max_value_ b) = Ok fresh ∧ length (bits_data fresh) = length (bits_data b).

Definition new_bits (size : Z) : bit_vector_view :=
  match bit_vector element_bits size with Ok b => b | Err _ => mkBits size [] end.

Lemma new_bits_spec (v : bit_vector_view) : owned_bits v →
  bit_vector element_bits (max_value_ v) = Ok (new_bits (max_value_ v)) ∧
  takes bits_data set_bits (new_bits (max_value_ v)) v.
Proof.
  intros (_ & Hr & f & Hf & Hl). unfold new_bits. rewrite Hf. split; [done|]. split; [done|].
  destruct (bit_vector_spec element_bits (or_introl eq_refl) (max_value_ v)) as (f' & Hf' & _ & Hm & _); [lia|lia|].
  rewrite Hf in Hf'. inversion Hf'; subst f'. unfold set_bits. rewrite Hm. by destruct v.
Qed.

Lemma load_bits (f : Z → Z) (sizes : list Z) (vs : list bit_vector_view) :
  Forall owned_bits vs → f <$> sizes = max_value_ <$> vs →
  (let! fresh := rmap (fun size => bit_vector element_bits (f size)) sizes in
   load_vectors bits_data set_bits fresh (store_vectors bits_data vs)) = Ok vs.
Proof.
  intros Hv Hs. rewrite (rmap_spec _ (fun size => new_bits (f size))).
  - cbn [rbind]. apply load_vectors_spec; [|eapply Forall_impl; [done|]; by intros v []].
    rewrite (list_fmap_compose f new_bits), Hs, <- list_fmap_compose. apply Forall2_fmap_l, Forall_Forall2_diag.
    eapply Forall_impl; [done|]. intros v Hw. by apply new_bits_spec.
  - intros x Hx. apply (list_elem_of_fmap_2 f) in Hx. rewrite Hs in Hx. apply list_elem_of_fmap in Hx as (v & -> & Hx).
    apply new_bits_spec. eapply Forall_forall; eauto.
Qed.

(** A column as [compressed_vector(bits, count)] allocated it. *)
Definition owned_column (c : bit_compressed) (info : ColumnsInfo.t) : Prop :=
  words (data_ c) ∧ ∃ fresh,
    compressed_vector element_bits (ColumnsInfo.entry_bit_size info) (ColumnsInfo.entry_count info) = Ok fresh ∧
    length (data_ fresh) = length (data_ c) ∧ set_data fresh (data_ c) = c.

Lemma load_column (c : bit_compressed) (info : ColumnsInfo.t) : owned_column c info →
  ColumnsIO.load_from_file info (write_words (data_ c)) = Ok c.
Proof.
  intros (Hw & f & Hf & Hl & Hs). unfold ColumnsIO.load_from_file, write_words, get_view_words. rewrite Hf. cbn [rbind].
  rewrite length_bytes_of_words, words_bytes_roundtrip, Hs by done. unfold bytes. rewrite Hl.
  change (element_bits / 8) with 4. by rewrite (proj2 (Z.eqb_eq _ _)) by lia.
Qed.

Lemma two_words (a b : Z) : 0 ≤ a < 2 ^ 32 → 0 ≤ b < 2 ^ 32 →
  le_value (take 4 (le_bytes 4 a ++ le_bytes 4 b)) = a ∧ le_value (drop 4 (le_bytes 4 a ++ le_bytes 4 b)) = b.
Proof.
  intros Ha Hb. split; rewrite <- (length_le_bytes 4 a) at 1;
    rewrite ?take_app_length, ?drop_app_length, le_value_bytes;
    change (8 * Z.of_nat 4) with 32; by rewrite Z.mod_small by lia.
Qed.

Definition range_words (r : RangeOperation) : Prop := words [range_start r; range_end r].

Lemma view_ranges (rs : list RangeOperation) : Forall range_words rs →
  get_view_ranges (rs ≫= fun r => write_words [range_start r; range_end r]) = rs.
Proof.
  intros Hr. set (enc := fun r => write_words [range_start r; range_end r]).
  assert (HE : ∀ l, length (l ≫= enc) = (8 * length l)%nat).
  { induction l as [|r l IH]; [done|]. cbn [mbind list_bind]. rewrite length_app. unfold enc at 1, write_words.
    rewrite length_bytes_of_words. change (list_bind _ _ enc l) with (l ≫= enc). rewrite IH. cbn [length]. lia. }
  unfold get_view_ranges. rewrite HE. rewrite (Nat.mul_comm 8), Nat.div_mul by lia.
  apply (list_eq_same_length _ _ (length rs)); [done|by rewrite length_fmap, length_seq|].
  intros i x y Hi Hx Hy. apply list_lookup_fmap_Some in Hx as (k & -> & [-> Hk]%lookup_seq). cbn [Nat.add].
  eapply Forall_lookup_1 in Hr; [|exact Hy]. rewrite <- (take_drop_middle rs i y Hy) at 1 2.
  rewrite !bind_app. cbn [mbind list_bind].
  assert (E : (8 * i)%nat = length (take i rs ≫= enc)) by (rewrite HE, length_take; lia).
  assert (Hd : ∀ rest, drop (8 * i) ((take i rs ≫= enc) ++ enc y ++ rest) = enc y ++ rest)
    by (intros rest; rewrite E; apply drop_app_length).
  rewrite !Hd. change 8%nat with (length (enc y)). rewrite !take_app_length. unfold enc, write_words, bytes_of_words.
  cbn [mbind list_bind]. rewrite app_nil_r.
  inversion Hr as [|? ? H1 H2]; subst. inversion H2 as [|? ? H3 _]; subst.
  destruct (two_words (range_start y) (range_end y) H1 H3) as [-> ->]. by destruct y.
Qed.

(** A mapping shows the file; the kernel refuses a mapping of no bytes. *)
Definition maps_files (mmap : Z → bool) : Prop := ∀ n, 0 ≤ n → mmap n = (0 <? n).

Definition unless_empty {V} (data : list Z) (v : V) : result V :=
  match data with [] => Err IO | _ => Ok v end.

Lemma load_mapped_spec {I V} (mmap : Z → bool) (parse : InfoFiles.file → result I) (load : I → list Z → result V)
    (text : chars) (data : list Z) (info : I) (v : V) :
  maps_files mmap → parse (Some text) = Ok info → load info data = Ok v →
  load_mapped mmap parse load (text, data) = unless_empty data v.
Proof.
  intros Hm Hp Hl. unfold load_mapped, MappedFile, MappedData_whole. cbn [fst snd of_option rbind]. rewrite Hm by lia.
  destruct data as [|b data]; [done|]. cbn [length unless_empty].
  rewrite (proj2 (Z.ltb_lt _ _)) by lia. cbn [rbind]. by rewrite Hp.
Qed.

Lemma load_indices (vs : list (list Z)) : Forall words vs →
  IndexVectorsIO.load_from_file ((fun v => Z.of_nat (length v)) <$> vs) (store_vectors (fun v => v) vs) = Ok vs.
Proof.
  intros Hv. unfold IndexVectorsIO.load_from_file. apply load_vectors_spec; [|done].
  rewrite <- list_fmap_compose. apply Forall2_fmap_l, Forall_Forall2_diag, Forall_forall. intros v _.
  split; [|done]. cbn [compose]. by rewrite length_replicate, Nat2Z.id.
Qed.

Lemma empty_rows {V} (rows : list (list Z)) (v : V) :
  unless_empty (store_vectors (fun v => v) rows) v =
  if forallb (fun v => bool_decide (v = [])) rows then Err IO else Ok v.
Proof.
  induction rows as [|[|w r] rows IH]; [done|exact IH|]. cbn [forallb]. by rewrite bool_decide_eq_false_2.
Qed.

(** Property C33.  Everything the IMDB generators write is read back: golden index
    vectors and bit vectors, predicate vectors, scan ranges and columns.  The text file
    gives the sizes, the containers are allocated from them, the sizes of all of them
    add up to the size of the binary file, and the words are cut out of it at the right
    places.  One case fails: a file without a byte cannot be mapped, so golden index
    vectors that are all empty are stored and never loaded. *)
Theorem data_files_roundtrip {D} (double : Format D) (finite : D → Prop) `{!FormatLaws double finite} (zero : D)
    (mmap : Z → bool) (rows : list (list Z)) (bits : list bit_vector_view) (selectivities : list D)
    (predictors : list bit_vector_view) (max_values : list Z) (ranges : list RangeOperation)
    (column : bit_compressed) (info old : ColumnsInfo.t) :
  maps_files mmap → Forall finite selectivities →
  Forall words rows ∧ Forall (fun v => Z.of_nat (length v) < 2 ^ 64) rows →
  Forall owned_bits bits →
  Forall owned_bits predictors ∧ max_value_ <$> predictors = (fun v => v + 1) <$> max_values ∧
    Forall (fun v => 0 ≤ v < 2 ^ 32) max_values ∧ length selectivities = length max_values →
  Forall range_words ranges ∧ length ranges = length selectivities →
  owned_column column info ∧ 0 ≤ ColumnsInfo.entry_bit_size info < 2 ^ 64 ∧ 0 ≤ ColumnsInfo.entry_count info < 2 ^ 32 →
  (let! files := ImdbGoldenVecGenerator.store_golden_iv (Ok rows) in
   load_mapped mmap VectorOfVectorsInfo.load IndexVectorsIO.load_from_file files) =
    (if forallb (fun v => bool_decide (v = [])) rows then Err IO else Ok rows) ∧
  (let! files := ImdbGoldenVecGenerator.store_golden_bv (Ok bits) in
   load_mapped mmap VectorOfVectorsInfo.load BitVectorsIO.load_from_file files) =
    unless_empty (store_vectors bits_data bits) bits ∧
  (let! i := make_predicates_info selectivities max_values in
   load_mapped mmap (load_predicates_info double zero) PredicateVectorsIO.load_from_file
     (PredicateVectorsIO.store_to_file double predictors i)) =
    unless_empty (store_vectors bits_data predictors) predictors ∧
  load_mapped mmap (load_ranges_info double zero) RangesIO.load_from_file
    (RangesIO.store_to_file double ranges (make_ranges_info selectivities)) =
    (if bool_decide (ranges = []) then Err IO else Ok ranges) ∧
  load_mapped mmap (ColumnsInfo.load_from_file old) ColumnsIO.load_from_file (ColumnsIO.store_to_file column info) =
    unless_empty (write_words (data_ column)) column.
Proof.
  intros Hm Hsel [Hr1 Hr2] Hb (Hp1 & Hp2 & Hp3 & Hp4) [Hg1 Hg2] (Hc1 & Hc2 & Hc3). split_and!.
  - cbn [rbind ImdbGoldenVecGenerator.store_golden_iv]. etrans.
    { eapply load_mapped_spec; [done| |by apply load_indices]. apply sizes_info_read.
      apply Forall_fmap. eapply Forall_impl; [exact Hr2|]. cbn. lia. }
    apply empty_rows.
  - cbn [rbind ImdbGoldenVecGenerator.store_golden_bv]. eapply load_mapped_spec; [done| |].
    + apply sizes_info_read. apply Forall_fmap. eapply Forall_impl; [exact Hb|]. intros v (_ & Hv & _). cbn. lia.
    + apply (load_bits (fun z => z)); [done|]. by rewrite list_fmap_id.
  - pose proof (predicates_info_read double finite zero selectivities max_values Hsel Hp3) as Hi.
    unfold make_predicates_info, check_vectors_consistency in *. cbn [predicate_selectivities_ predicate_max_values_] in *.
    rewrite Hp4, Nat.eqb_refl in *. cbn [rbind] in *. eapply load_mapped_spec; [done|exact Hi|].
    by apply (load_bits (fun v => v + 1)).
  - etrans; [eapply load_mapped_spec; [done|by apply (ranges_info_read double finite)|]|].
    + unfold RangesIO.load_from_file. rewrite view_ranges by done. cbn [make_ranges_info num_requests_].
      by rewrite Hg2, Z.eqb_refl.
    + by destruct ranges.
  - eapply load_mapped_spec; [done|by apply columns_info_read|by apply load_column].
Qed.

(** A scan that found two rows and one that found none, a bit vector, a predicate, a
    range and a column of three values; selectivities that are whole numbers. *)
Lemma data_files_roundtrip_witness :
  (let! files := ImdbGoldenVecGenerator.store_golden_iv (Ok [[3; 70000]; []]) in
   load_mapped (fun n => 0 <? n) VectorOfVectorsInfo.load IndexVectorsIO.load_from_file files) = Ok [[3; 70000]; []] ∧
  (let! files := ImdbGoldenVecGenerator.store_golden_iv (Ok [[]; []]) in
   load_mapped (fun n => 0 <? n) VectorOfVectorsInfo.load IndexVectorsIO.load_from_file files) = Err IO.
Proof.
  assert (H : ∀ rows, Forall words rows ∧ Forall (fun v => Z.of_nat (length v) < 2 ^ 64) rows →
    (let! files := ImdbGoldenVecGenerator.store_golden_iv (Ok rows) in
     load_mapped (fun n => 0 <? n) VectorOfVectorsInfo.load IndexVectorsIO.load_from_file files) =
    (if forallb (fun v => bool_decide (v = [])) rows then Err IO else Ok rows)).
  { intros rows Hr.
    refine (proj1 (data_files_roundtrip (unsigned 32) (fun v => 0 ≤ v < 2 ^ 32) 0 (fun n => 0 <? n) rows
      [mkBits 5 (replicate 16 7)] [1] [mkBits 3 (replicate 16 5)] [2] [mkRange 1 2]
      (mkCompressed 10 3 1023 (replicate 32 77)) (ColumnsInfo.mk 10 3) (ColumnsInfo.mk 0 0) _ _ Hr _ _ _ _)).
    - by intros n _.
    - apply (bool_decide_unpack _). by vm_compute.
    - apply Forall_singleton. split; [apply (bool_decide_unpack _); by vm_compute|]. split; [cbn; lia|].
      eexists. split; vm_compute; reflexivity.
    - split; [|split; [done|split; [apply (bool_decide_unpack _); by vm_compute|done]]].
      apply Forall_singleton. split; [apply (bool_decide_unpack _); by vm_compute|]. split; [cbn; lia|].
      eexists. split; vm_compute; reflexivity.
    - split; [|done]. apply (bool_decide_unpack _). by vm_compute.
    - split; [|cbn; lia]. split; [apply (bool_decide_unpack _); by vm_compute|].
      eexists. split; [|split]; vm_compute; reflexivity. }
  split; apply H; apply (bool_decide_unpack _); by vm_compute.
Defined.
