(* ===== verification/DatagenImdb.v ===== *)
(** * Generators of IMDB test data

    tools/datagen/imdb: column entries (general/column_entry_gens.h), trivial columns and
    maximal values, scan ranges ({random,precise_random}.h in range_generator) and
    predicate vectors ({random.h,precise_random.cpp} in predicate_vec_generator), with the
    reference functions of general/generators_utils.h.

    Doubles are IEEE binary64 numbers of the standard library's [SpecFloat].  The random
    engine and [std::uniform_int_distribution], whose algorithm the C++ standard leaves
    open, are arguments; the law is that a draw lies within the bounds.  The order in
    which an [unordered_map] is traversed is an argument too. *)
From Stdlib Require Import SpecFloat.
From S2P Require Import Prelude BitViews Scan.

(** ** Doubles *)
Definition f64_of (n : Z) : spec_float := binary_normalize 53 1024 n 0 false.
Definition f64_add := SFadd 53 1024.
Definition f64_sub := SFsub 53 1024.
Definition f64_mul := SFmul 53 1024.
Definition f64_div := SFdiv 53 1024.
Definition f64_le (x y : spec_float) : bool := SFleb x y.
Definition f64_lt (x y : spec_float) : bool := SFltb x y.

(** [static_cast] to an unsigned integer of [W] bits of a double with the integral part
    [x]; anything the type cannot hold is undefined. *)
Definition to_unsigned (W : Z) (x : option Z) : result Z :=
  match x with Some v => if (0 <=? v) && (v <? 2 ^ W) then Ok v else Err UndefinedBehaviour | None => Err UndefinedBehaviour end.

(** The integral values of [std::floor], of truncation and of [std::round]. *)
Definition round_by (q : Z → Z → Z) (x : spec_float) : option Z :=
  match x with
  | S754_zero _ => Some 0
  | S754_finite s m e =>
      let m := if s then Zneg m else Zpos m in
      Some (if 0 <=? e then m * 2 ^ e else q m (2 ^ (- e)))
  | _ => None
  end.
Definition f64_floor := round_by Z.div.
Definition f64_trunc := round_by Z.quot.
Definition f64_round := round_by (fun m d => Z.quot (2 * m + Z.sgn m * d) (2 * d)).

(** ** general/column_entry_gens.h *)
Definition calc_entry_max_value (entry_bit_size : Z) : Z := u32 (u32 (Z.shiftl 1 entry_bit_size) - 1).

Definition validate_entry_gen_args (entry_bit_size min_value max_value : Z) : result unit :=
  let entry_max_value := calc_entry_max_value entry_bit_size in
  if (entry_max_value <? min_value) || (entry_max_value <? max_value) then Err LogicError
  else if max_value <? min_value then Err LogicError
  else Ok tt.

Module PositionedEntry.
Record t := mk { min_value_ : Z; max_value_ : Z; length_ : Z; step_ : Z }.

(** [step % length_] is the truncating remainder of signed integers. *)
Definition make (entry_bit_size step : Z) (min_value max_value : option Z) : result t :=
  let min_value_ := default 0 min_value in
  let max_value_ := default (calc_entry_max_value entry_bit_size) max_value in
  let length_ := if min_value_ <? max_value_ then u32 (max_value_ - min_value_ + 1) else 0 in
  let step_ := if length_ =? 0 then 0 else Z.rem step length_ in
  let! _ := validate_entry_gen_args entry_bit_size min_value_ max_value_ in
  Ok (mk min_value_ max_value_ length_ step_).

(** The product of signed 64-bit integers may not overflow. *)
Definition apply (g : t) (index : Z) : result Z :=
  if min_value_ g =? max_value_ g then Ok (min_value_ g)
  else
    let mult := index * step_ g in
    if (mult <? - 2 ^ 63) || (2 ^ 63 <=? mult) then Err UndefinedBehaviour
    else
      let mod_value := u32 (Z.rem (Z.abs mult) (length_ g)) in
      Ok (if 0 <=? step_ g then u32 (min_value_ g + mod_value) else u32 (max_value_ g - mod_value)).
End PositionedEntry.

(** [TrivialColumnGenerator::create_column_impl] and
    [TrivialMaxValuesGenerator::create_max_values_impl], for an entry generator without
    state. *)
Definition create_column_impl (entry_generator : Z → result Z) (entry_bit_size entry_count : Z) : result bit_compressed :=
  let! column := compressed_vector element_bits entry_bit_size entry_count in
  rfold (fun column index => let! v := entry_generator index in set_value element_bits column index v)
    column (range entry_count).

Definition create_max_values_impl (entry_generator : Z → result Z) (num_values : Z) : result (list Z) :=
  rmap entry_generator (range num_values).

(** ** general/generators_utils.h *)
Definition value_per_request_count (column_range_size column_size : Z) (selectivity : spec_float) : result Z :=
  let! _ := assert (f64_le (f64_of 0) selectivity && f64_le selectivity (f64_of 1)) in
  let average_value_duplicates := f64_div (f64_of column_size) (f64_of column_range_size) in
  let target_result_size := f64_mul (f64_of column_size) selectivity in
  to_unsigned 32 (f64_floor (f64_div target_result_size average_value_duplicates)).

(** A column is the list of its values here. *)
Definition count_in_predicate (column : list Z) (predicate_vector : bit_vector_view) : result Z :=
  rfold (fun n value => let! c := contains element_bits predicate_vector value in Ok (if c then n + 1 else n)) 0 column.

Definition count_in_range (column : list Z) (r : RangeOperation) : Z :=
  Z.of_nat (length (filter (fun v => range_start r ≤ v ∧ v ≤ range_end r) column)).

Definition selectivity_of (count : Z) (column : list Z) : spec_float :=
  f64_div (f64_of count) (f64_of (Z.of_nat (length column))).

Definition range_selectivity (column : list Z) (r : RangeOperation) : spec_float :=
  selectivity_of (count_in_range column r) column.

(** ** range_generator/precise_random.h *)
Module PreciseRandomRangesGen.

(** The counts of the values, then their running sums. *)
Definition count_value (counts : list Z) (value : Z) : result (list Z) :=
  let! c := vec_at counts value in vec_set counts value (u64 (c + 1)).

Fixpoint running_sums (count : Z) (l : list Z) : list Z :=
  match l with [] => [] | c :: l' => let count := u64 (count + c) in count :: running_sums count l' end.

Definition partial_count_sum (entry_max_value : Z) (column : list Z) : result (list Z) :=
  let! counts := rfold count_value (replicate (Z.to_nat (entry_max_value + 1)) 0) column in
  Ok (running_sums 0 counts).

(** The loop of [find_solution].  It halves [top - bottom]: 33 rounds are enough for
    32-bit numbers. *)
Fixpoint search (compare_func : Z → result (bool * bool)) (fuel : nat) (bottom top : Z) : result Z :=
  match fuel with
  | O => Err OutOfFuel
  | S f =>
      if bottom <? top then
        let mid := bottom / 2 + top / 2 + (bottom mod 2 + top mod 2) / 2 in
        let! (solution_found, is_more) := compare_func mid in
        if solution_found then Ok mid
        else if is_more then search compare_func f bottom mid
        else search compare_func f (u32 (mid + 1)) top
      else Ok bottom
  end.

Definition find_solution (bottom top : Z) (compare_func : Z → result (bool * bool)) : result Z :=
  search compare_func 33 bottom (u32 (top + 1)).

Definition calc_next_range (max_value length range_start : Z) : RangeOperation :=
  if u32 (max_value - range_start) <? length
  then mkRange (u32 (max_value - length)) max_value
  else mkRange range_start (u32 (range_start + length)).

Definition calc_actual_selectivity (partial_count_sum_ column : list Z) (r : RangeOperation) : result spec_float :=
  let! left_sum := if range_start r =? 0 then Ok 0 else vec_at partial_count_sum_ (range_start r - 1) in
  let! right_sum := vec_at partial_count_sum_ (range_end r) in
  Ok (selectivity_of (u64 (right_sum - left_sum)) column).

Section generator.
Context (selectivity_epsilon_ : spec_float) (column : list Z).

Definition compare_func (partial_count_sum_ : list Z) (selectivity : spec_float) (max_value init_range_start length : Z)
  : result (bool * bool) :=
  let r := calc_next_range max_value length init_range_start in
  let! actual_selectivity := calc_actual_selectivity partial_count_sum_ column r in
  Ok (f64_le (SFabs (f64_sub actual_selectivity selectivity)) selectivity_epsilon_,
      f64_lt selectivity actual_selectivity).

Definition optimal_range (partial_count_sum_ : list Z) (selectivity : spec_float) (min_value max_value init_range_start : Z)
  : result RangeOperation :=
  let min_length := 0 in
  let max_length := u32 (max_value - min_value) in
  let! length := find_solution min_length max_length
                   (compare_func partial_count_sum_ selectivity max_value init_range_start) in
  Ok (calc_next_range max_value length init_range_start).

(** [create_scan_ranges_impl] behind the random generator, whose ranges are
    [scan_ranges]. *)
Definition create_scan_ranges_impl (entry_bit_size : Z) (selectivities : list spec_float)
    (scan_ranges : list RangeOperation) : result (list RangeOperation) :=
  let! _ := assert (length scan_ranges =? length selectivities)%nat in
  let entry_max_value := u32 (Z.shiftl 1 entry_bit_size - 1) in
  let! sums := partial_count_sum entry_max_value column in
  rmap (fun '(r, selectivity) =>
          let! _ := assert (range_start r <=? range_end r) in
          let! _ := assert (range_end r <=? entry_max_value) in
          optimal_range sums selectivity 0 entry_max_value (range_start r))
       (zip scan_ranges selectivities).
End generator.
End PreciseRandomRangesGen.

Lemma entry_pow (b : Z) : 0 ≤ b < 32 → 0 < 2 ^ b ≤ 2 ^ 31.
Proof. intros Hb. split; [apply Z.pow_pos_nonneg; lia|apply Z.pow_le_mono_r; lia]. Qed.

(** ** Positioned entries *)

(** What the constructor accepts. *)
Lemma positioned_make (b step : Z) (lo hi : option Z) (g : PositionedEntry.t) :
  0 ≤ b < 32 → 0 ≤ default 0 lo → PositionedEntry.make b step lo hi = Ok g →
  PositionedEntry.min_value_ g = default 0 lo ∧ PositionedEntry.max_value_ g = default (2 ^ b - 1) hi ∧
  PositionedEntry.min_value_ g ≤ PositionedEntry.max_value_ g < 2 ^ b ∧
  (PositionedEntry.min_value_ g < PositionedEntry.max_value_ g →
   PositionedEntry.length_ g = PositionedEntry.max_value_ g - PositionedEntry.min_value_ g + 1 ∧
   PositionedEntry.step_ g = Z.rem step (PositionedEntry.length_ g)).
Proof.
  intros Hb Hlo H. unfold PositionedEntry.make, validate_entry_gen_args in H.
  pose proof (entry_pow b Hb) as Hp.
  assert (E : calc_entry_max_value b = 2 ^ b - 1).
  { unfold calc_entry_max_value, u32. rewrite Z.shiftl_1_l, (Z.mod_small (2 ^ b)), Z.mod_small by lia. done. }
  rewrite E in H. set (m := default 0 lo) in *. set (M := default (2 ^ b - 1) hi) in *.
  destruct ((2 ^ b - 1 <? m) || (2 ^ b - 1 <? M)) eqn:E1; [done|]. destruct (M <? m) eqn:E2; [done|].
  cbn [rbind] in H. inversion H; subst g; clear H. zbool.
  cbn [PositionedEntry.min_value_ PositionedEntry.max_value_ PositionedEntry.length_ PositionedEntry.step_].
  split; [done|]. split; [done|]. split; [lia|]. intros Hlt. rewrite (proj2 (Z.ltb_lt m M)) by done.
  unfold u32. rewrite Z.mod_small by lia. by replace (M - m + 1 =? 0) with false by lia.
Qed.

(** Entry [index] of a generator with step [step]: counted from the lower bound upwards
    or from the upper bound downwards, wrapped around in the interval. *)
Lemma positioned_value (b step : Z) (lo hi : option Z) (g : PositionedEntry.t) (index : Z) :
  0 ≤ b < 32 → 0 ≤ default 0 lo → - 2 ^ 31 ≤ step < 2 ^ 31 → 0 ≤ index < 2 ^ 32 →
  PositionedEntry.make b step lo hi = Ok g →
  ∃ v, PositionedEntry.apply g index = Ok v ∧
    PositionedEntry.min_value_ g ≤ v ≤ PositionedEntry.max_value_ g ∧
    let n := PositionedEntry.max_value_ g - PositionedEntry.min_value_ g + 1 in
    (v - (if 0 <=? PositionedEntry.step_ g then PositionedEntry.min_value_ g else PositionedEntry.max_value_ g)) mod n =
    (index * step) mod n.
Proof.
  intros Hb Hlo Hs Hi Hg. destruct (positioned_make b step lo hi g Hb Hlo Hg) as (Em & _ & Hr & Hl).
  pose proof (entry_pow b Hb) as Hp. unfold PositionedEntry.apply.
  destruct (Z.eqb_spec (PositionedEntry.min_value_ g) (PositionedEntry.max_value_ g)) as [E|Hne].
  { eexists. split; [reflexivity|]. split; [lia|]. cbv zeta. rewrite E.
    replace (PositionedEntry.max_value_ g - PositionedEntry.max_value_ g + 1) with 1 by lia. by rewrite !Z.mod_1_r. }
  destruct Hl as [Hn Hst]; [lia|]. set (m := PositionedEntry.min_value_ g) in *.
  set (M := PositionedEntry.max_value_ g) in *. rewrite Hn in *. set (n := M - m + 1) in *. cbv zeta.
  assert (Hn1 : 2 ≤ n ≤ 2 ^ 31) by lia. set (s := PositionedEntry.step_ g) in *.
  pose proof (Z.quot_rem' step n) as Eq. pose proof (Z.rem_bound_abs step n ltac:(lia)) as Hbound.
  assert (Hsm : Z.abs s < 2 ^ 31) by lia.
  assert (Hmul : - 2 ^ 63 < index * s < 2 ^ 63) by nia.
  replace (_ || _) with false by (symmetry; apply orb_false_iff; lia).
  assert (Hrem : 0 ≤ Z.rem (Z.abs (index * s)) n < n) by (apply Z.rem_bound_pos; lia).
  assert (Emod : (index * step) mod n = (index * s) mod n).
  { rewrite Eq, <- Hst. replace (index * (n * Z.quot step n + s)) with (index * s + (index * Z.quot step n) * n) by ring.
    by rewrite Z.mod_add by lia. }
  rewrite Z.rem_mod_nonneg in * by lia. unfold u32. rewrite (Z.mod_small (Z.abs (index * s) mod n)) by lia.
  eexists. split; [reflexivity|]. rewrite Emod.
  destruct (Z.leb_spec 0 s).
  - rewrite Z.abs_eq in * by nia. rewrite (Z.mod_small (m + _)) by lia. split; [lia|].
    replace (m + (index * s) mod n - m) with ((index * s) mod n) by lia. by rewrite Z.mod_mod by lia.
  - rewrite Z.abs_neq in * by nia. rewrite (Z.mod_small (M - _)) by lia. split; [lia|].
    replace (M - - (index * s) mod n - M) with (- (- (index * s) mod n)) by lia.
    rewrite <- (Z.sub_0_l (_ mod _)), Zminus_mod_idemp_r. f_equal. lia.
Qed.

(** A column of such entries: entry [i] is [f i] for every [f] the generator follows. *)
Lemma create_column_spec (vb n : Z) (gen : Z → result Z) (f : Z → Z) :
  1 ≤ vb < 32 → 0 ≤ n < 2 ^ 32 → (∀ i, 0 ≤ i < n → gen i = Ok (f i) ∧ 0 ≤ f i < 2 ^ vb) →
  create_column_impl gen vb n = compressed_vector_of element_bits vb (f <$> range n).
Proof.
  intros Hvb Hn Hf. unfold create_column_impl, compressed_vector_of.
  rewrite length_fmap, length_range, Z2Nat.id by lia.
  destruct (compressed_vector element_bits vb n) as [c|e]; [|done]. cbn [rbind].
  assert (E : ∀ (k : nat) c j, 0 ≤ j → j + Z.of_nat k ≤ n →
    rfold (fun column index => let! v := gen index in set_value element_bits column index v) c
          ((fun i => j + Z.of_nat i) <$> seq 0 k) = set_values element_bits c j ((fun i => f (j + Z.of_nat i)) <$> seq 0 k)).
  { induction k as [|k IH]; intros c' j Hj Hk; [done|]. cbn [seq fmap list_fmap rfold set_values].
    rewrite Z.add_0_r. destruct (Hf j ltac:(lia)) as [-> _]. cbn [rbind].
    destruct (set_value element_bits c' j (f j)) as [c''|e]; [|done]. cbn [rbind].
    rewrite <- !fmap_S_seq, <- !list_fmap_compose. specialize (IH c'' (j + 1) ltac:(lia) ltac:(lia)).
    etrans; [|etrans; [exact IH|]]; f_equal; apply list_fmap_ext; intros ? i _; cbn [compose]; [lia|f_equal; lia]. }
  unfold range. rewrite <- list_fmap_compose. specialize (E (Z.to_nat n) c 0 ltac:(lia) ltac:(lia)).
  etrans; [|etrans; [exact E|]]; f_equal.
Qed.

(** ** The binary search *)
Section search.
Import PreciseRandomRangesGen.
Context (cmp : Z → result (bool * bool)) (found more : Z → bool) (lo hi : Z).
Context (Hcmp : ∀ n, lo ≤ n < hi → cmp n = Ok (found n, more n)).

(** No order of [more] is assumed: the search ends at a length that was found, or at a
    place where [more] changes from false to true, the ends of the interval included. *)
Definition crossing (n : Z) : Prop :=
  lo ≤ n ≤ hi ∧ (n = lo ∨ (found (n - 1) = false ∧ more (n - 1) = false)) ∧
  (n = hi ∨ (found n = false ∧ more n = true)).

Lemma search_spec (fuel : nat) : ∀ bottom top,
  0 ≤ lo ≤ bottom → bottom ≤ top ≤ hi → hi < 2 ^ 32 → top - bottom < 2 ^ Z.of_nat fuel →
  (bottom = lo ∨ (found (bottom - 1) = false ∧ more (bottom - 1) = false)) →
  (top = hi ∨ (found top = false ∧ more top = true)) →
  ∃ n, search cmp (S fuel) bottom top = Ok n ∧ ((lo ≤ n < hi ∧ found n = true) ∨ crossing n).
Proof.
  induction fuel as [|f IH]; intros bottom top Hlo Hb Hhi Hw Hl Hr.
  { assert (bottom = top) as -> by (change (2 ^ Z.of_nat 0) with 1 in Hw; lia). cbn [search].
    rewrite Z.ltb_irrefl. eexists. split; [done|]. right. by split; [lia|]. }
  cbn [search]. destruct (Z.ltb_spec bottom top) as [Hlt|Hge].
  2: { assert (bottom = top) as -> by lia. eexists. split; [done|]. right. by split; [lia|]. }
  set (mid := bottom / 2 + top / 2 + (bottom mod 2 + top mod 2) / 2).
  assert (Hm : bottom ≤ mid < top ∧ 2 * mid ≤ bottom + top ≤ 2 * mid + 1) by (unfold mid; dlia).
  replace (Z.of_nat (S f)) with (Z.of_nat f + 1) in Hw by lia. rewrite Z.pow_add_r, Z.pow_1_r in Hw by lia.
  rewrite Hcmp by lia. cbn [rbind]. destruct (found mid) eqn:Ef.
  { eexists. split; [done|]. left. split; [lia|done]. }
  destruct (more mid) eqn:Em.
  - apply IH; [lia|lia|lia|lia|done|by right].
  - unfold u32. rewrite Z.mod_small by lia. apply IH; [lia|lia|lia|lia| |done].
    right. by rewrite Z.add_simpl_r.
Qed.
End search.

Lemma find_solution_spec (cmp : Z → result (bool * bool)) (found more : Z → bool) (bottom top : Z) :
  0 ≤ bottom ≤ top → top < 2 ^ 32 - 1 → (∀ n, bottom ≤ n < top + 1 → cmp n = Ok (found n, more n)) →
  ∃ n, PreciseRandomRangesGen.find_solution bottom top cmp = Ok n ∧
    ((bottom ≤ n < top + 1 ∧ found n = true) ∨ crossing found more bottom (top + 1) n).
Proof.
  intros Hb Ht Hc. unfold PreciseRandomRangesGen.find_solution, u32. rewrite Z.mod_small by lia.
  apply (search_spec cmp found more bottom (top + 1) Hc 32); [lia|lia|lia| |by left|by left].
  change (Z.of_nat 32) with 32. lia.
Qed.

(** ** Partial sums *)
Definition occurrences (l : list Z) (v : Z) : Z := Z.of_nat (length (filter (fun x => x = v) l)).
Definition count_le (l : list Z) (k : Z) : Z := Z.of_nat (length (filter (fun x => x ≤ k) l)).

Lemma counts_spec (l : list Z) : ∀ (counts : list Z) (size : Z),
  Forall (fun v => 0 ≤ v < Z.of_nat (length counts)) l →
  Forall (fun c => 0 ≤ c ≤ size) counts → size + Z.of_nat (length l) < 2 ^ 64 →
  ∃ counts', rfold PreciseRandomRangesGen.count_value counts l = Ok counts' ∧ length counts' = length counts ∧
    ∀ i c, counts !! i = Some c → counts' !! i = Some (c + occurrences l (Z.of_nat i)).
Proof.
  induction l as [|v l IH]; intros counts size Hl Hc Hs; cbn [rfold].
  { exists counts. split; [done|]. split; [done|]. intros i c Hi. by rewrite Z.add_0_r. }
  apply Forall_cons in Hl as [Hv Hl]. unfold PreciseRandomRangesGen.count_value at 1.
  destruct (lookup_lt_is_Some_2 counts (Z.to_nat v)) as [c Hcv]; [lia|].
  pose proof (Forall_lookup_1 _ _ _ _ Hc Hcv) as Hcr. cbv beta in Hcr. cbn [length] in Hs.
  rewrite (proj2 (vec_at_Ok counts v c)) by (split; [lia|done]). cbn [rbind].
  rewrite vec_set_Ok by lia. cbn [rbind]. rewrite u64_small by lia.
  destruct (IH (<[Z.to_nat v:=c + 1]> counts) (size + 1)) as (counts' & -> & Hlen & Hat).
  - by rewrite length_insert.
  - apply Forall_insert; [|lia]. eapply Forall_impl; [exact Hc|]. cbv beta. lia.
  - lia.
  - exists counts'. split; [done|]. rewrite length_insert in Hlen. split; [done|]. intros i d Hi.
    unfold occurrences. rewrite filter_cons. destruct (decide (v = Z.of_nat i)) as [->|Hne].
    + rewrite Nat2Z.id in *. rewrite (Hat i (c + 1)) by (apply list_lookup_insert_eq; lia).
      assert (c = d) as -> by congruence. f_equal. unfold occurrences. cbn [length]. lia.
    + apply Hat. rewrite list_lookup_insert_ne by lia. done.
Qed.

Lemma count_le_succ (l : list Z) (k : Z) : count_le l k = count_le l (k - 1) + occurrences l k.
Proof.
  unfold count_le, occurrences. induction l as [|v l IH]; [done|]. rewrite !filter_cons.
  repeat case_decide; cbn [length]; lia.
Qed.

Lemma count_le_bound (l : list Z) (k : Z) : 0 ≤ count_le l k ≤ Z.of_nat (length l).
Proof. unfold count_le. pose proof (length_filter (fun x => x ≤ k) l). lia. Qed.

Lemma running_sums_spec (column : list Z) (counts : list Z) : ∀ (k count : Z),
  Z.of_nat (length column) < 2 ^ 64 → count = count_le column (k - 1) →
  (∀ i c, counts !! i = Some c → c = occurrences column (k + Z.of_nat i)) →
  PreciseRandomRangesGen.running_sums count counts =
  (fun i => count_le column (k + Z.of_nat i)) <$> seq 0 (length counts).
Proof.
  induction counts as [|c counts IH]; intros k count Hlen Hk Hc; [done|].
  cbn [PreciseRandomRangesGen.running_sums length seq fmap list_fmap].
  assert (E : u64 (count + c) = count_le column k).
  { rewrite (Hc O c eq_refl), Hk, Z.add_0_r, <- count_le_succ. apply u64_small.
    pose proof (count_le_bound column k). lia. }
  rewrite E, Z.add_0_r. f_equal. rewrite (IH (k + 1)); [|done|f_equal; lia|].
  - rewrite <- fmap_S_seq, <- list_fmap_compose. apply list_fmap_ext. intros _ i _. cbn [compose]. f_equal. lia.
  - intros i c' Hi. rewrite (Hc (S i) c' Hi). f_equal. lia.
Qed.

(** The vector of partial sums holds, at index [k], the number of values up to [k]. *)
Lemma partial_sums (max : Z) (column : list Z) :
  0 ≤ max → Z.of_nat (length column) < 2 ^ 64 → Forall (fun v => 0 ≤ v ≤ max) column →
  PreciseRandomRangesGen.partial_count_sum max column = Ok (count_le column <$> range (max + 1)).
Proof.
  intros Hm Hlen Hc. unfold PreciseRandomRangesGen.partial_count_sum.
  destruct (counts_spec column (replicate (Z.to_nat (max + 1)) 0) 0) as (counts & -> & Hl & Hat).
  - rewrite length_replicate. eapply Forall_impl; [exact Hc|]. cbv beta. lia.
  - by apply Forall_replicate.
  - lia.
  - cbn [rbind]. rewrite length_replicate in Hl. rewrite (running_sums_spec column counts 0 0).
    + rewrite Hl. unfold range. rewrite <- list_fmap_compose. done.
    + done.
    + clear -Hc. unfold count_le. induction Hc as [|v column Hv _ IH]; [done|].
      rewrite filter_cons_False by lia. exact IH.
    + intros i c Hi. pose proof (lookup_lt_Some _ _ _ Hi). rewrite (Hat i 0) in Hi.
      * simplify_eq. by rewrite !Z.add_0_l.
      * apply lookup_replicate. lia.
Qed.

Lemma range_count (column : list Z) (a b : Z) : 0 ≤ a → a - 1 ≤ b → Forall (fun v => 0 ≤ v) column →
  count_in_range column (mkRange a b) = count_le column b - count_le column (a - 1).
Proof.
  intros Ha Hb Hc. unfold count_in_range, count_le. cbn [range_start range_end].
  induction Hc as [|v column Hv _ IH]; [done|]. rewrite !filter_cons. repeat case_decide; cbn [length]; lia.
Qed.

(** The selectivity from the partial sums is the selectivity the reference function
    counts. *)
Lemma actual_selectivity (max : Z) (column : list Z) (r : RangeOperation) :
  Z.of_nat (length column) < 2 ^ 64 → Forall (fun v => 0 ≤ v ≤ max) column →
  0 ≤ range_start r ≤ range_end r → range_end r ≤ max →
  PreciseRandomRangesGen.calc_actual_selectivity (count_le column <$> range (max + 1)) column r =
  Ok (range_selectivity column r).
Proof.
  intros Hlen Hc Hr Hm. destruct r as [a b]. cbn [range_start range_end] in *.
  assert (Hat : ∀ k, 0 ≤ k ≤ max → vec_at (count_le column <$> range (max + 1)) k = Ok (count_le column k)).
  { intros k Hk. apply vec_at_Ok. split; [lia|]. rewrite list_lookup_fmap, range_lookup by lia. cbn. do 2 f_equal. lia. }
  assert (Hz : ∀ k, k < 0 → count_le column k = 0).
  { intros k Hk. unfold count_le. clear -Hc Hk. induction Hc as [|v column Hv _ IH]; [done|].
    by rewrite filter_cons_False by lia. }
  unfold PreciseRandomRangesGen.calc_actual_selectivity, range_selectivity. cbn [range_start range_end].
  assert (E : (if a =? 0 then Ok 0 else vec_at (count_le column <$> range (max + 1)) (a - 1)) = Ok (count_le column (a - 1))).
  { destruct (Z.eqb_spec a 0) as [->|]; [by rewrite Hz by lia|apply Hat; lia]. }
  rewrite E, Hat by lia. cbn [rbind]. rewrite range_count; [|lia|lia|eapply Forall_impl; [exact Hc|]; cbv beta; lia].
  assert (H0 : count_le column b - count_le column (a - 1) = count_in_range column (mkRange a b))
    by (rewrite range_count; [lia|lia|lia|eapply Forall_impl; [exact Hc|]; cbv beta; lia]).
  rewrite u64_small; [done|]. pose proof (count_le_bound column b). pose proof (count_le_bound column (a - 1)).
  unfold count_in_range in H0. lia.
Qed.

(** The ranges of length 0, 1, ..., [max] that are tried: nested, and never past the
    ends. *)
Lemma next_range_valid (max n start : Z) :
  0 ≤ start ≤ max → 0 ≤ n ≤ max → max < 2 ^ 32 - 1 →
  let r := PreciseRandomRangesGen.calc_next_range max n start in
  0 ≤ range_start r ≤ range_end r ∧ range_end r ≤ max ∧ range_end r - range_start r = n ∧
  range_start r ≤ start ≤ range_end r.
Proof.
  intros Hs Hn Hm. unfold PreciseRandomRangesGen.calc_next_range, u32. rewrite (Z.mod_small (max - start)) by lia.
  destruct (Z.ltb_spec (max - start) n); cbn [range_start range_end]; rewrite Z.mod_small by lia; lia.
Qed.

Lemma next_range_nested (max n m start : Z) :
  0 ≤ start ≤ max → 0 ≤ n ≤ m → m ≤ max → max < 2 ^ 32 - 1 →
  let r := PreciseRandomRangesGen.calc_next_range max n start in
  let r' := PreciseRandomRangesGen.calc_next_range max m start in
  range_start r' ≤ range_start r ∧ range_end r ≤ range_end r'.
Proof.
  intros Hs Hn Hm Hmax. unfold PreciseRandomRangesGen.calc_next_range, u32. rewrite (Z.mod_small (max - start)) by lia.
  destruct (Z.ltb_spec (max - start) n), (Z.ltb_spec (max - start) m); cbn [range_start range_end];
    rewrite ?Z.mod_small by lia; lia.
Qed.

(** What is known of the range [r] that is returned for a selectivity and a preferred
    start, [max] being the largest entry. *)
Definition precise_range (eps : spec_float) (column : list Z) (max : Z) (selectivity : spec_float) (start : Z)
    (r : RangeOperation) : Prop :=
  let at_length n := range_selectivity column (PreciseRandomRangesGen.calc_next_range max n start) in
  (∃ n, 0 ≤ n ≤ max ∧ r = PreciseRandomRangesGen.calc_next_range max n start ∧
     0 ≤ range_start r ≤ range_end r ∧ range_end r ≤ max ∧
     (f64_le (SFabs (f64_sub (at_length n) selectivity)) eps = true ∨
      (f64_lt selectivity (at_length n) = true ∧ (n = 0 ∨ f64_lt selectivity (at_length (n - 1)) = false)))) ∨
  (f64_lt selectivity (at_length max) = false ∧ r = mkRange (2 ^ 32 - 1) max).

Lemma optimal_range_spec (eps : spec_float) (column : list Z) (max : Z) (selectivity : spec_float) (start : Z) :
  0 ≤ start ≤ max → max < 2 ^ 32 - 1 → Z.of_nat (length column) < 2 ^ 64 → Forall (fun v => 0 ≤ v ≤ max) column →
  ∃ r, PreciseRandomRangesGen.optimal_range eps column (count_le column <$> range (max + 1)) selectivity 0 max start = Ok r ∧
    precise_range eps column max selectivity start r.
Proof.
  intros Hs Hm Hlen Hc. unfold PreciseRandomRangesGen.optimal_range. cbv zeta.
  rewrite Z.sub_0_r. unfold u32 at 1. rewrite (Z.mod_small max) by lia.
  set (at_ := fun n => range_selectivity column (PreciseRandomRangesGen.calc_next_range max n start)).
  destruct (find_solution_spec
    (PreciseRandomRangesGen.compare_func eps column (count_le column <$> range (max + 1)) selectivity max start)
    (fun n => f64_le (SFabs (f64_sub (at_ n) selectivity)) eps) (fun n => f64_lt selectivity (at_ n)) 0 max)
    as (n & -> & Hn); [lia|lia| |].
  { intros n Hn. unfold PreciseRandomRangesGen.compare_func. destruct (next_range_valid max n start) as (H1 & H2 & _); [lia..|].
    by rewrite (actual_selectivity max) by done. }
  cbn [rbind]. eexists. split; [reflexivity|]. destruct Hn as [[Hn Hf]|[Hn [Hlo Hhi]]].
  { left. exists n. destruct (next_range_valid max n start) as (H1 & H2 & _); [lia..|]. split_and!; try done; try lia. by left. }
  destruct (decide (n = max + 1)) as [->|Hne].
  - right. rewrite Z.add_simpl_r in Hlo. destruct Hlo as [?|[_ Hlo]]; [lia|]. split; [exact Hlo|].
    unfold PreciseRandomRangesGen.calc_next_range, u32. rewrite (Z.mod_small (max - start)) by lia.
    rewrite (proj2 (Z.ltb_lt _ _)) by lia. f_equal. by replace (max - (max + 1)) with (-1) by lia.
  - left. exists n. destruct (next_range_valid max n start) as (H1 & H2 & _); [lia..|]. split_and!; try done; try lia.
    right. destruct Hhi as [?|[_ Hhi]]; [lia|]. split; [exact Hhi|]. destruct Hlo as [?|[_ Hlo]]; [by left|by right].
Qed.

(** Property C31.  The precise generator of scan ranges returns, for every selectivity, a
    range around the preferred start whose selectivity, as the reference function counts
    it on the column, is within the tolerance of the required one; or, where no such
    range is met, the range at which the selectivity first exceeds it: the range one
    shorter does not.  Only if not even the whole value range exceeds the required
    selectivity, the length that is tried last is one too long, and the start wraps
    around.  The binary search ends within 33 rounds and every access to the partial sums
    is within bounds. *)
Theorem precise_ranges (eps : spec_float) (column : list Z) (b : Z) (selectivities : list spec_float)
    (scan_ranges : list RangeOperation) :
  0 ≤ b < 32 → Z.of_nat (length column) < 2 ^ 64 → Forall (fun v => 0 ≤ v < 2 ^ b) column →
  Forall (fun r => 0 ≤ range_start r ≤ range_end r ∧ range_end r < 2 ^ b) scan_ranges →
  length scan_ranges = length selectivities →
  ∃ out, PreciseRandomRangesGen.create_scan_ranges_impl eps column b selectivities scan_ranges = Ok out ∧
    length out = length selectivities ∧
    ∀ i r s r0, out !! i = Some r → selectivities !! i = Some s → scan_ranges !! i = Some r0 →
      precise_range eps column (2 ^ b - 1) s (range_start r0) r.
Proof.
  intros Hb Hlen Hc Hr Hl. pose proof (entry_pow b Hb) as Hp.
  assert (Hc' : Forall (fun v => 0 ≤ v ≤ 2 ^ b - 1) column) by (eapply Forall_impl; [exact Hc|]; cbv beta; lia).
  unfold PreciseRandomRangesGen.create_scan_ranges_impl. rewrite Hl, Nat.eqb_refl. cbn [assert rbind].
  unfold u32. rewrite Z.shiftl_1_l, Z.mod_small by lia. rewrite (partial_sums (2 ^ b - 1) column) by (done || lia).
  cbn [rbind]. set (sums := count_le column <$> _).
  set (best := fun '(r, s) => match PreciseRandomRangesGen.optimal_range eps column sums s 0 (2 ^ b - 1) (range_start r) with
                              | Ok r' => r' | Err _ => r end).
  rewrite (rmap_spec _ best).
  - eexists. split; [reflexivity|]. split; [rewrite length_fmap, length_zip; lia|]. intros i r s r0 Ho Hs H0.
    apply list_lookup_fmap_Some in Ho as ([r' s'] & -> & [H0' Hs']%lookup_zip_Some). cbn [best].
    assert (r' = r0) as -> by congruence. assert (s' = s) as -> by congruence.
    pose proof (Forall_lookup_1 _ _ _ _ Hr H0) as H. cbv beta in H.
    destruct (optimal_range_spec eps column (2 ^ b - 1) s (range_start r0)) as (r & Hopt & Hspec); [lia|lia|done|done|].
    fold sums in Hopt. by rewrite Hopt.
  - intros [r s] [i Hi]%list_elem_of_lookup_1. apply lookup_zip_Some in Hi as [Hi _].
    pose proof (Forall_lookup_1 _ _ _ _ Hr Hi) as H. cbv beta in H. unfold assert.
    rewrite (proj2 (Z.leb_le (range_start r) _)), (proj2 (Z.leb_le (range_end r) _)) by lia. cbn [rbind best].
    destruct (optimal_range_spec eps column (2 ^ b - 1) s (range_start r)) as (r' & Hopt & _); [lia|lia|done|done|].
    fold sums in Hopt. by rewrite Hopt.
Qed.

(** The column of the comment in the source, a required selectivity of 0.5 and a
    tolerance of 1/8: three of the five entries are taken. *)
Lemma precise_ranges_witness :
  let half := f64_div (f64_of 1) (f64_of 2) in
  let eighth := f64_div (f64_of 1) (f64_of 8) in
  PreciseRandomRangesGen.create_scan_ranges_impl eighth [1; 3; 2; 3; 1] 2 [half] [mkRange 1 2] = Ok [mkRange 1 2] ∧
  precise_range eighth [1; 3; 2; 3; 1] 3 half 1 (mkRange 1 2).
Proof.
  intros half eighth. split; [vm_compute; reflexivity|].
  destruct (precise_ranges eighth [1; 3; 2; 3; 1] 2 [half] [mkRange 1 2]) as (out & Ho & _ & H);
    [lia|done|apply (bool_decide_unpack _); by vm_compute|apply (bool_decide_unpack _); by vm_compute|done|].
  assert (E : PreciseRandomRangesGen.create_scan_ranges_impl eighth [1; 3; 2; 3; 1] 2 [half] [mkRange 1 2] =
              Ok [mkRange 1 2]) by (vm_compute; reflexivity).
  rewrite E in Ho. injection Ho as <-. exact (H O (mkRange 1 2) half (mkRange 1 2) eq_refl eq_refl eq_refl).
Defined.
