(* ===== verification/DatagenPredicates.v ===== *)
(** * Random and precise generators of IMDB requests

    tools/datagen/imdb: range_generator/random.h, predicate_vec_generator/random.h and
    predicate_vec_generator/precise_random.cpp.  See DatagenImdb for doubles, columns and
    the arguments that stand for the random engine. *)
From Stdlib Require Import SpecFloat Sorted.
From S2P Require Import Prelude BitViews Scan DatagenImdb.

(** [static_cast<int64_t>] of a [size_t]. *)
Definition s64 (x : Z) : Z := (x + 2 ^ 63) mod 2 ^ 64 - 2 ^ 63.

(** A random engine with its seeding, and [std::uniform_int_distribution<uint32_t>]. *)
Class Uniform (E : Type) := {
  seeded : Z → E;
  uni : Z → Z → E → Z * E;
}.
Class UniformLaws (E : Type) `{Uniform E} := {
  uni_range : ∀ lo hi e, lo ≤ hi → lo ≤ (uni lo hi e).1 ≤ hi;
}.

(** ** range_generator/random.h *)
Module RandomRangesGen.
Section engine.
Context {E : Type} `{Uniform E}.

Definition next_range (entry_max_value entry_count : Z) (s : E * list RangeOperation) (selectivity : spec_float)
  : result (E * list RangeOperation) :=
  let! request_range_size := value_per_request_count (u32 (entry_max_value + 1)) entry_count selectivity in
  let (range_start, engine) := uni 0 (u32 (u64 (entry_max_value - request_range_size))) s.1 in
  Ok (engine, s.2 ++ [mkRange range_start (u32 (range_start + request_range_size))]).

Definition create_scan_ranges_impl (seed_ entry_bit_size entry_count : Z) (selectivities : list spec_float)
  : result (list RangeOperation) :=
  let entry_max_value := u64 (u64 (Z.shiftl 1 entry_bit_size) - 1) in
  let! (_, scan_ranges) := rfold (next_range entry_max_value entry_count) (seeded seed_, []) selectivities in
  Ok scan_ranges.
End engine.
End RandomRangesGen.

(** [PreciseRandomRangesGen::create_scan_ranges_impl] with the random generator it
    starts from. *)
Definition create_precise_ranges {E} `{Uniform E} (eps : spec_float) (seed_ : Z) (column : list Z)
    (entry_bit_size entry_count : Z) (selectivities : list spec_float) : result (list RangeOperation) :=
  let! scan_ranges := RandomRangesGen.create_scan_ranges_impl seed_ entry_bit_size entry_count selectivities in
  PreciseRandomRangesGen.create_scan_ranges_impl eps column entry_bit_size selectivities scan_ranges.

(** ** predicate_vec_generator/random.h *)
Module RandomPredicateVecsGen.
Section engine.
Context {E : Type} `{Uniform E}.

(** [for (i = 1UL; i < n; ++i) predictor.insert(uni(engine))] *)
Fixpoint insert_random (n : nat) (max_value : Z) (engine : E) (predictor : bit_vector_view)
  : result (E * bit_vector_view) :=
  match n with
  | O => Ok (engine, predictor)
  | S n' =>
      let (v, engine) := uni 0 max_value engine in
      let! predictor := insert element_bits predictor v in
      insert_random n' max_value engine predictor
  end.

Definition next_predictor (column_range_size entry_count : Z) (s : E * list bit_vector_view)
    (request : spec_float * Z) : result (E * list bit_vector_view) :=
  let (selectivity, max_value) := request in
  let! request_range_size := value_per_request_count column_range_size entry_count selectivity in
  let correction_coef := f64_add (f64_of 1) selectivity in
  let! corrected_range_size := to_unsigned 64 (f64_trunc (f64_mul correction_coef (f64_of request_range_size))) in
  let! predictor := bit_vector element_bits (u32 (max_value + 1)) in
  let! predictor := insert element_bits predictor max_value in
  let! (engine, predictor) := insert_random (Z.to_nat (corrected_range_size - 1)) max_value s.1 predictor in
  Ok (engine, s.2 ++ [predictor]).

Definition create_predicate_vecs_impl (seed_ entry_bit_size entry_count : Z) (selectivities : list spec_float)
    (predicate_max_values : list Z) : result (list bit_vector_view) :=
  let! _ := assert (length predicate_max_values =? length selectivities)%nat in
  let column_range_size := u32 (u64 (Z.shiftl 1 entry_bit_size)) in
  let! (_, predicate_vectors) := rfold (next_predictor column_range_size entry_count) (seeded seed_, [])
                                   (zip selectivities predicate_max_values) in
  Ok predicate_vectors.
End engine.
End RandomPredicateVecsGen.

(** ** predicate_vec_generator/precise_random.cpp *)
Module PreciseRandomPredicateVecsGen.

(** The map from entries to their counts; [++entry_to_count[value]] inserts a 0 first. *)
Fixpoint increment (m : list (Z * Z)) (value : Z) : list (Z * Z) :=
  match m with
  | [] => [(value, 1)]
  | (v, c) :: m' => if v =? value then (v, u64 (c + 1)) :: m' else (v, c) :: increment m' value
  end.

Definition calc_entry_to_count_map (column : list Z) : list (Z * Z) := fold_left increment column [].

Fixpoint find (m : list (Z * Z)) (value : Z) : option Z :=
  match m with
  | [] => None
  | (v, c) :: m' => if v =? value then Some c else find m' value
  end.

(** The sum over some values of the counts that are found. *)
Definition add_counts (column_entry_count_ : list (Z * Z)) (values : list Z) : Z :=
  fold_left (fun count value => match find column_entry_count_ value with Some c => u64 (count + c) | None => count end)
    values 0.

Definition calc_results_count (column_entry_count_ : list (Z * Z)) (predictor : bit_vector_view) : result Z :=
  let! vs := values element_bits predictor in Ok (add_counts column_entry_count_ vs).

(** [for (value = 0; value <= max_value; ++value)] over 32-bit numbers does not end for
    the largest of them. *)
Definition up_to (max_value : Z) : result (list Z) :=
  if max_value =? 2 ^ 32 - 1 then Err OutOfFuel else Ok (range (max_value + 1)).

(** The cache [max_value_to_results_count] is threaded through. *)
Definition calc_max_results_count (column : list Z) (column_entry_count_ : list (Z * Z)) (max_value max_entry_value : Z)
    (cache : list (Z * Z)) : result (Z * list (Z * Z)) :=
  if max_entry_value =? max_value then Ok (Z.of_nat (length column), cache)
  else match find cache max_value with
       | Some c => Ok (c, cache)
       | None =>
           let! vs := up_to max_value in
           let max_results_count := add_counts column_entry_count_ vs in
           Ok (max_results_count, (max_value, max_results_count) :: cache)
       end.

Section generator.
Context (selectivity_epsilon_ : spec_float) (column : list Z).

Definition calc_actual_epsilon (count_difference : Z) : spec_float :=
  SFabs (f64_div (f64_of count_difference) (f64_of (Z.of_nat (length column)))).

Definition precise_enough (count_diff : Z) : bool := f64_lt (calc_actual_epsilon count_diff) selectivity_epsilon_.

(** The loop over the map, in the order [order]. *)
Fixpoint adjust_loop (order : list (Z * Z)) (predictor : bit_vector_view) (count_diff : Z) : result bit_vector_view :=
  match order with
  | [] => Ok predictor
  | (column_entry, entry_count) :: order' =>
      if max_value_ predictor <=? column_entry then adjust_loop order' predictor count_diff
      else
        let! contained := contains element_bits predictor column_entry in
        if Bool.eqb contained (count_diff <? 0) then adjust_loop order' predictor count_diff
        else
          let next_count_diff := if count_diff <? 0 then count_diff + s64 entry_count else count_diff - s64 entry_count in
          let! (predictor, count_diff) :=
            if Z.abs next_count_diff <? Z.abs count_diff then
              let! p := if count_diff <? 0 then insert element_bits predictor column_entry
                        else erase element_bits predictor column_entry in
              Ok (p, next_count_diff)
            else Ok (predictor, count_diff) in
          if precise_enough count_diff then Ok predictor
          else adjust_loop order' predictor count_diff
  end.

Definition adjust_predictor (column_entry_count_ order : list (Z * Z)) (expected_results_count : Z)
    (predictor : bit_vector_view) : result bit_vector_view :=
  let! results_count := calc_results_count column_entry_count_ predictor in
  let count_diff := if expected_results_count <? results_count then s64 (results_count - expected_results_count)
                    else - s64 (expected_results_count - results_count) in
  if precise_enough count_diff then Ok predictor else adjust_loop order predictor count_diff.

(** One request: its predictor, with the cache before and after. *)
Definition adjust_request (column_entry_count_ order : list (Z * Z)) (max_entry_value : Z)
    (s : list (Z * Z) * list bit_vector_view) (request : spec_float * Z * bit_vector_view)
  : result (list (Z * Z) * list bit_vector_view) :=
  let '(selectivity, max_value, predictor) := request in
  let! expected_results_count :=
    to_unsigned 64 (f64_round (f64_mul selectivity (f64_of (Z.of_nat (length column))))) in
  let! (max_results_count, cache) :=
    calc_max_results_count column column_entry_count_ max_value max_entry_value s.1 in
  let! predictor :=
    if max_results_count <? expected_results_count then
      let! vs := up_to max_value in rfold (insert element_bits) predictor vs
    else adjust_predictor column_entry_count_ order expected_results_count predictor in
  Ok (cache, s.2 ++ [predictor]).

Definition create_predicate_vecs_impl {E} `{Uniform E} (order : list (Z * Z)) (seed_ entry_bit_size entry_count : Z)
    (selectivities : list spec_float) (predicate_max_values : list Z) : result (list bit_vector_view) :=
  let! predicate_vectors := RandomPredicateVecsGen.create_predicate_vecs_impl seed_ entry_bit_size entry_count
                              selectivities predicate_max_values in
  let max_entry_value := u32 (u32 (Z.shiftl 1 entry_bit_size) - 1) in
  let! (_, out) := rfold (adjust_request (calc_entry_to_count_map column) order max_entry_value) ([], [])
                     (zip (zip selectivities predicate_max_values) predicate_vectors) in
  Ok out.
End generator.
End PreciseRandomPredicateVecsGen.

(** ** Draws

    Values drawn one after the other from a generator with a state, for the elements of
    a list: the specification of what a seed gives. *)
Fixpoint draw {S X} (next : S → X → Z * S) (s : S) (xs : list X) : list Z * S :=
  match xs with
  | [] => ([], s)
  | x :: xs' => let (v, s1) := next s x in let (l, s2) := draw next s1 xs' in (v :: l, s2)
  end.

Section draw.
Context {S : Type}.

Lemma draw_app {X} (next : S → X → Z * S) (xs ys : list X) : ∀ s,
  draw next s (xs ++ ys) =
  ((draw next s xs).1 ++ (draw next (draw next s xs).2 ys).1, (draw next (draw next s xs).2 ys).2).
Proof.
  induction xs as [|x xs IH]; intros s; cbn [app draw fst snd]; [by destruct (draw next s ys)|].
  destruct (next s x) as [v s1]. rewrite IH. by destruct (draw next s1 xs).
Qed.

Lemma draw_fmap {X Y} (f : X → Y) (next : S → Y → Z * S) (xs : list X) : ∀ s,
  draw next s (f <$> xs) = draw (fun s x => next s (f x)) s xs.
Proof.
  induction xs as [|x xs IH]; intros s; cbn [fmap list_fmap draw]; [done|].
  destruct (next s (f x)) as [v s1]. by rewrite (IH s1).
Qed.

Lemma draw_ext {X} (f g : S → X → Z * S) (xs : list X) : ∀ s,
  (∀ s x, x ∈ xs → f s x = g s x) → draw f s xs = draw g s xs.
Proof.
  induction xs as [|x xs IH]; intros s Hfg; cbn [draw]; [done|]. rewrite Hfg by left.
  destruct (g s x) as [v s1]. rewrite IH; [done|]. intros s' x' Hx. apply Hfg. by right.
Qed.

Lemma draw_forall {X} (P : Z → Prop) (next : S → X → Z * S) (xs : list X) : ∀ s,
  (∀ s x, P (next s x).1) → Forall P (draw next s xs).1.
Proof.
  induction xs as [|x xs IH]; intros s Hp; cbn [draw]; [constructor|].
  pose proof (Hp s x) as Hv. destruct (next s x) as [v s1]. specialize (IH s1 Hp).
  destruct (draw next s1 xs). by constructor.
Qed.

Lemma draw_length {X} (next : S → X → Z * S) (xs : list X) : ∀ s, length (draw next s xs).1 = length xs.
Proof.
  induction xs as [|x xs IH]; intros s; cbn [draw]; [done|]. destruct (next s x) as [v s1].
  specialize (IH s1). destruct (draw next s1 xs). cbn in *. by rewrite IH.
Qed.
End draw.

(** ** The number of rows a predicate selects *)
Definition member (p : bit_vector_view) (x : Z) : bool := (x <? max_value_ p) && bit element_bits (bits_data p) x.

Definition results (column : list Z) (p : bit_vector_view) : Z :=
  Z.of_nat (length (filter (fun x => member p x = true) column)).

Lemma results_bound (column : list Z) (p : bit_vector_view) : 0 ≤ results column p ≤ Z.of_nat (length column).
Proof. unfold results. pose proof (length_filter (fun x => member p x = true) column). lia. Qed.

Lemma occurrences_bound (column : list Z) (v : Z) : 0 ≤ occurrences column v ≤ Z.of_nat (length column).
Proof. unfold occurrences. pose proof (length_filter (fun x => x = v) column). lia. Qed.

(** The reference function counts them. *)
Lemma count_in_predicate_spec (column : list Z) (p : bit_vector_view) :
  bits_wf element_bits p → Forall (fun v => 0 ≤ v) column → count_in_predicate column p = Ok (results column p).
Proof.
  intros Hp Hc. unfold count_in_predicate.
  assert (E : ∀ n, rfold (fun n value => let! c := contains element_bits p value in Ok (if c then n + 1 else n)) n column =
                   Ok (n + results column p)).
  { induction Hc as [|v column Hv _ IH]; intros n; cbn [rfold]; [by rewrite Z.add_0_r|].
    rewrite (contains_spec element_bits (or_introl eq_refl)) by done. cbn [rbind]. rewrite IH. f_equal.
    unfold results, member. rewrite filter_cons. repeat case_match; cbn [length]; try congruence; lia. }
  apply E.
Qed.

Lemma results_change (column : list Z) (p p' : bit_vector_view) (v : Z) (added : bool) :
  Forall (fun x => 0 ≤ x) column → member p v = negb added →
  (∀ x, 0 ≤ x → member p' x = if x =? v then added else member p x) →
  results column p' = results column p + (if added then occurrences column v else - occurrences column v).
Proof.
  intros Hc Hv Hp. unfold results, occurrences. induction Hc as [|x column Hx _ IH]; [by destruct added|].
  rewrite !filter_cons. specialize (Hp x Hx). destruct (Z.eqb_spec x v) as [->|Hne].
  - rewrite (decide_True (P := v = v)) by done. rewrite Hp, Hv.
    destruct added; cbn [negb]; repeat case_decide; try congruence; cbn [length]; lia.
  - rewrite (decide_False (P := x = v)) by done. rewrite Hp. case_decide; cbn [length]; lia.
Qed.

(** ** The map of counts *)
Section counts.
Import PreciseRandomPredicateVecsGen.

Lemma find_increment (m : list (Z * Z)) (v x : Z) :
  (∀ c, find m v = Some c → 0 ≤ c < 2 ^ 64 - 1) →
  find (increment m v) x = if x =? v then Some (default 0 (find m v) + 1) else find m x.
Proof.
  induction m as [|[k c] m IH]; intros Hc; cbn [increment find].
  - cbn [default from_option]. destruct (Z.eqb_spec v x), (Z.eqb_spec x v); done || lia.
  - destruct (Z.eqb_spec k v) as [->|Hk]; cbn [find].
    + cbn [find] in Hc. rewrite Z.eqb_refl in *. specialize (Hc c eq_refl).
      destruct (Z.eqb_spec v x), (Z.eqb_spec x v); try lia; [|done]. cbn [default from_option id]. by rewrite u64_small by lia.
    + cbn [find] in Hc. rewrite (proj2 (Z.eqb_neq k v)) in * by done.
      destruct (Z.eqb_spec k x) as [->|]; [by rewrite (proj2 (Z.eqb_neq x v))|by apply IH].
Qed.

Lemma increment_keys (m : list (Z * Z)) (v : Z) :
  NoDup m.*1 → NoDup (increment m v).*1 ∧ ∀ k, k ∈ (increment m v).*1 ↔ k ∈ m.*1 ∨ k = v.
Proof.
  induction m as [|[k c] m IH]; cbn [increment fmap list_fmap fst]; intros Hn.
  - split; [apply NoDup_singleton|]. intros k. rewrite list_elem_of_singleton, elem_of_nil. tauto.
  - inversion Hn as [|? ? Hk Hn']; subst. destruct (Z.eqb_spec k v) as [->|Hne]; cbn [fmap list_fmap fst].
    + split; [done|]. intros k. rewrite elem_of_cons. tauto.
    + destruct (IH Hn') as [H1 H2]. split; [constructor; [|done]|].
      * change (list_fmap _ _ fst (increment m v)) with (increment m v).*1. rewrite H2. intros [?|?]; done.
      * intros k'. change (list_fmap _ _ fst (increment m v)) with (increment m v).*1. rewrite !elem_of_cons, H2.
        change (list_fmap _ _ fst m) with m.*1. tauto.
Qed.

Lemma find_fst (m : list (Z * Z)) (k c : Z) : find m k = Some c → k ∈ m.*1.
Proof.
  induction m as [|[k' c'] m IH]; cbn [find]; [done|]. rewrite fmap_cons, elem_of_cons. cbn [fst].
  destruct (Z.eqb_spec k' k) as [->|]; [by left|]. intros H. right. by apply IH.
Qed.

Lemma find_elem (m : list (Z * Z)) (k c : Z) : NoDup m.*1 → (k, c) ∈ m → find m k = Some c.
Proof.
  induction m as [|[k' c'] m IH]; intros Hn Hin; [by apply elem_of_nil in Hin|].
  inversion Hn as [|? ? Hk Hn']; subst. cbn [find]. apply elem_of_cons in Hin as [Heq|Hin].
  - injection Heq as <- <-. by rewrite Z.eqb_refl.
  - rewrite (proj2 (Z.eqb_neq k' k)); [by apply IH|]. intros ->. apply Hk.
    apply list_elem_of_fmap. by exists (k, c).
Qed.

Lemma map_spec (l : list Z) : ∀ m,
  Z.of_nat (length l) < 2 ^ 64 → NoDup m.*1 →
  (∀ x c, find m x = Some c → 0 ≤ c ∧ c + Z.of_nat (length l) < 2 ^ 64) →
  NoDup (fold_left increment l m).*1 ∧
  ∀ x, find (fold_left increment l m) x =
    if occurrences l x =? 0 then find m x else Some (default 0 (find m x) + occurrences l x).
Proof.
  induction l as [|v l IH]; intros m Hl Hn Hc; cbn [fold_left]; [by split|].
  cbn [length] in Hl, Hc. assert (Hf : ∀ x, find (increment m v) x = if x =? v then Some (default 0 (find m v) + 1) else find m x).
  { intros x. apply find_increment. intros c Hf. specialize (Hc v c Hf). lia. }
  destruct (IH (increment m v)) as [H1 H2]; [lia|by apply increment_keys| |].
  { intros x c. rewrite Hf. destruct (Z.eqb_spec x v) as [->|].
    - intros [= <-]. destruct (find m v) as [c0|] eqn:E; cbn [default from_option id]; [specialize (Hc v c0 E)|]; lia.
    - intros H. specialize (Hc x c H). lia. }
  split; [done|]. intros x. rewrite H2, Hf. unfold occurrences. rewrite filter_cons.
  destruct (Z.eqb_spec x v) as [->|Hne].
  - rewrite decide_True by done. cbn [length]. rewrite (proj2 (Z.eqb_neq (Z.of_nat (S _)) 0)) by lia.
    case_match; zbool; cbn [default from_option id]; f_equal; lia.
  - rewrite decide_False by done. done.
Qed.

(** The map of a column: every entry with its number of occurrences. *)
Lemma column_map (column : list Z) : Z.of_nat (length column) < 2 ^ 64 →
  let m := calc_entry_to_count_map column in
  NoDup m.*1 ∧ ∀ x, find m x = if occurrences column x =? 0 then None else Some (occurrences column x).
Proof. intros Hl. destruct (map_spec column [] Hl) as [H1 H2]; [constructor|done|]. split; [done|]. apply H2. Qed.

Lemma map_has (column : list Z) (k : Z) : Z.of_nat (length column) < 2 ^ 64 →
  k ∈ column → k ∈ (calc_entry_to_count_map column).*1.
Proof.
  intros Hl Hk. destruct (column_map column Hl) as [Hn Hf]. specialize (Hf k).
  assert (H : k ∈ filter (fun x => x = k) column) by (by apply list_elem_of_filter).
  unfold occurrences in Hf. destruct (filter (fun x => x = k) column) as [|x l]; [by apply elem_of_nil in H|].
  cbn [length] in Hf. rewrite (proj2 (Z.eqb_neq _ 0)) in Hf by lia. by apply find_fst in Hf.
Qed.

Lemma map_counts (column : list Z) (k c : Z) : Z.of_nat (length column) < 2 ^ 64 →
  (k, c) ∈ calc_entry_to_count_map column → c = occurrences column k ∧ k ∈ column.
Proof.
  intros Hl Hin. destruct (column_map column Hl) as [Hn Hf]. apply find_elem in Hin; [|done]. rewrite Hf in Hin.
  destruct (Z.eqb_spec (occurrences column k) 0) as [|Hne]; [done|]. simplify_eq. split; [done|].
  unfold occurrences in Hne. destruct (filter (fun x => x = k) column) as [|x l] eqn:E; [done|].
  assert (x ∈ filter (fun x => x = k) column) as Hx by (rewrite E; left). apply list_elem_of_filter in Hx as [-> Hx]. done.
Qed.

(** Counting by values or by entries. *)
Lemma sum_occurrences (column vs : list Z) : NoDup vs →
  sum_list_Z (occurrences column <$> vs) = Z.of_nat (length (filter (fun x => x ∈ vs) column)).
Proof.
  intros Hn. induction column as [|x column IH].
  { clear Hn. induction vs as [|v vs IH]; [done|]. cbn. exact IH. }
  rewrite filter_cons. assert (E : ∀ v, occurrences (x :: column) v = (if decide (x = v) then 1 else 0) + occurrences column v).
  { intros v. unfold occurrences. rewrite filter_cons. case_decide; cbn [length]; lia. }
  assert (Es : sum_list_Z (occurrences (x :: column) <$> vs) =
               (if decide (x ∈ vs) then 1 else 0) + sum_list_Z (occurrences column <$> vs)).
  { clear IH. induction Hn as [|v vs Hv Hn IH]; [done|]. cbn [fmap list_fmap sum_list_Z foldr].
    change (foldr Z.add 0) with sum_list_Z. change (list_fmap _ _ ?f vs) with (f <$> vs). rewrite E, IH.
    destruct (decide (x = v)) as [->|Hne]; [rewrite (decide_False (P := v ∈ vs)), decide_True by (done || left); lia|].
    destruct (decide (x ∈ vs)); [rewrite decide_True by (by right); lia|].
    rewrite decide_False by (rewrite elem_of_cons; tauto). lia. }
  rewrite Es, IH. case_decide; cbn [length]; lia.
Qed.

Lemma add_counts_spec (column vs : list Z) : Z.of_nat (length column) < 2 ^ 64 → NoDup vs →
  add_counts (calc_entry_to_count_map column) vs = Z.of_nat (length (filter (fun x => x ∈ vs) column)).
Proof.
  intros Hl Hn. destruct (column_map column Hl) as [_ Hf]. rewrite <- sum_occurrences by done.
  assert (Hs : sum_list_Z (occurrences column <$> vs) ≤ Z.of_nat (length column)).
  { rewrite sum_occurrences by done. pose proof (length_filter (fun x => x ∈ vs) column). lia. }
  unfold add_counts. rewrite <- (Z.add_0_l (sum_list_Z _)). clear Hn.
  assert (E : ∀ acc, 0 ≤ acc → acc + sum_list_Z (occurrences column <$> vs) ≤ Z.of_nat (length column) →
    fold_left (fun count value => match find (calc_entry_to_count_map column) value with
                                  | Some c => u64 (count + c) | None => count end) vs acc =
    acc + sum_list_Z (occurrences column <$> vs)); [|apply E; lia]. clear Hs.
  induction vs as [|v vs IH]; intros acc H0 Hs; cbn [fold_left fmap list_fmap sum_list_Z foldr] in *; [lia|].
  change (foldr Z.add 0) with sum_list_Z in *. change (list_fmap _ _ ?f vs) with (f <$> vs) in *.
  pose proof (occurrences_bound column v).
  assert (0 ≤ sum_list_Z (occurrences column <$> vs)).
  { apply sum_list_Z_nonneg, Forall_fmap, Forall_forall. intros w _. apply occurrences_bound. }
  rewrite Hf. destruct (Z.eqb_spec (occurrences column v) 0) as [E|]; [rewrite IH by lia; lia|].
  rewrite u64_small by lia. rewrite IH by lia. lia.
Qed.

Lemma sorted_nodup (l : list Z) : StronglySorted Z.lt l → NoDup l.
Proof.
  induction 1 as [|x l _ IH Hx]; constructor; [|done]. intros Hin. eapply Forall_forall in Hx; [|exact Hin]. lia.
Qed.

Lemma calc_results_spec (column : list Z) (p : bit_vector_view) :
  Z.of_nat (length column) < 2 ^ 64 → Forall (fun v => 0 ≤ v) column → bits_wf element_bits p →
  calc_results_count (calc_entry_to_count_map column) p = Ok (results column p).
Proof.
  intros Hl Hc Hp. unfold calc_results_count. rewrite (values_spec element_bits (or_introl eq_refl)) by done. cbn [rbind].
  rewrite add_counts_spec; [|done|].
  - f_equal. unfold results. do 2 f_equal. clear Hl. induction Hc as [|x column Hx _ IH]; [done|]. rewrite !filter_cons.
    assert (H : x ∈ members_from element_bits (bits_data p) 0 (Z.to_nat (max_value_ p)) ↔ member p x = true).
    { rewrite members_from_In. unfold member. pose proof (bw_size _ p Hp). rewrite andb_true_iff, Z.ltb_lt.
      split; intros [? ?]; (split; [lia|done]). }
    rewrite IH. repeat case_decide; tauto.
  - apply sorted_nodup, members_from_sorted.
Qed.
End counts.

(** ** Adjusting a predicate *)
Lemma s64_small (x : Z) : - 2 ^ 63 ≤ x < 2 ^ 63 → s64 x = x.
Proof. intros Hx. unfold s64. rewrite Z.mod_small by lia. lia. Qed.

(** One insertion or removal, seen from the members. *)
Lemma change_member (p : bit_vector_view) (v : Z) (added : bool) :
  bits_wf element_bits p → 0 ≤ v < max_value_ p →
  ∃ p', (if added then insert element_bits p v else erase element_bits p v) = Ok p' ∧ bits_wf element_bits p' ∧
    max_value_ p' = max_value_ p ∧ ∀ x, 0 ≤ x → member p' x = if x =? v then added else member p x.
Proof.
  intros Hp Hv. destruct added.
  - destruct (insert_spec element_bits (or_introl eq_refl) p v Hp Hv) as (p' & H1 & H2 & H3 & H4).
    exists p'. do 3 (split; [done|]). intros x Hx. unfold member. rewrite H3, H4 by done.
    destruct (Z.eqb_spec x v) as [->|]; [rewrite (proj2 (Z.ltb_lt v _)), orb_true_r by lia; done|by rewrite orb_false_r].
  - destruct (erase_spec element_bits (or_introl eq_refl) p v Hp Hv) as (p' & H1 & H2 & H3 & H4).
    exists p'. do 3 (split; [done|]). intros x Hx. unfold member. rewrite H3, H4 by done.
    destruct (Z.eqb_spec x v) as [->|]; cbn [negb]; [by rewrite !andb_false_r|by rewrite andb_true_r].
Qed.

Section adjust.
Import PreciseRandomPredicateVecsGen.
Context (eps : spec_float) (column : list Z).
Context (Hlen : Z.of_nat (length column) < 2 ^ 62) (Hcol : Forall (fun v => 0 ≤ v) column).

(** [p'] selects a number of rows at least as close to [expected] as [p], and differs
    from [p] in values of the column only. *)
Record closer (expected : Z) (p p' : bit_vector_view) : Prop := {
  closer_wf : bits_wf element_bits p';
  closer_size : max_value_ p' = max_value_ p;
  closer_count : Z.abs (results column p' - expected) ≤ Z.abs (results column p - expected);
  closer_outside : ∀ x, 0 ≤ x → x ∉ column → member p' x = member p x;
}.

Lemma closer_refl (expected : Z) (p : bit_vector_view) : bits_wf element_bits p → closer expected p p.
Proof. by split. Qed.

Lemma closer_trans (expected : Z) (p q r : bit_vector_view) : closer expected p q → closer expected q r → closer expected p r.
Proof.
  intros [H1 H2 H3 H4] [H5 H6 H7 H8]. split; [done|congruence|lia|]. intros x Hx Hn. by rewrite H8, H4.
Qed.

(** The number of rows [count] is within the tolerance of [expected], as fractions of
    the column in double precision. *)
Definition within_tolerance (count expected : Z) : bool :=
  f64_lt (SFabs (f64_div (f64_of (count - expected)) (f64_of (Z.of_nat (length column))))) eps.

(** A difference to the expected number that no entry below [limit] makes better than
    by half of its occurrences. *)
Definition settled (limit d : Z) : Prop :=
  d = 0 ∨ ∃ v, v ∈ column ∧ v < limit ∧ 2 * Z.abs d ≤ occurrences column v.

Lemma settled_closer (limit d d' : Z) : Z.abs d' ≤ Z.abs d → settled limit d → settled limit d'.
Proof. intros Hd [->|(v & Hv & Hl & Hc)]; [left; lia|right; exists v; by split_and!; [| |lia]]. Qed.

(** The entries that were passed have all been used for the sign of the difference, as
    long as it is not settled. *)
Definition tracked (rest : list (Z * Z)) (p : bit_vector_view) (d : Z) : Prop :=
  settled (max_value_ p) d ∨
  ∀ k, k ∈ column → k < max_value_ p → k ∈ rest.*1 ∨ member p k = (d <? 0).

Lemma tracked_skip (k c : Z) (rest : list (Z * Z)) (p : bit_vector_view) (d : Z) :
  tracked ((k, c) :: rest) p d → max_value_ p ≤ k ∨ member p k = (d <? 0) → tracked rest p d.
Proof.
  intros [Hs|Ht] Hk; [by left|]. right. intros x Hx Hlt. specialize (Ht x Hx Hlt).
  rewrite fmap_cons, elem_of_cons in Ht. cbn [fst] in Ht. destruct Ht as [[->|?]|?]; [|by left|by right].
  destruct Hk as [?|?]; [lia|by right].
Qed.

Lemma occurrences_pos (k : Z) : k ∈ column → 0 < occurrences column k.
Proof.
  intros Hk. unfold occurrences. assert (H : k ∈ filter (fun x => x = k) column) by (by apply list_elem_of_filter).
  destruct (filter _ column); [by apply elem_of_nil in H|cbn [length]; lia].
Qed.

(** An entry that was not used because its occurrences are too many settles the
    difference, and so does one that changes its sign. *)
Lemma turn_settles (limit k d : Z) :
  let c := occurrences column k in
  let next := if d <? 0 then d + c else d - c in
  k ∈ column → k < limit →
  (Z.abs d ≤ Z.abs next → settled limit d) ∧
  (Z.abs next < Z.abs d → settled limit next ∨ (next <? 0) = (d <? 0)).
Proof.
  intros c next Hk Hl. pose proof (occurrences_pos k Hk) as Hc. fold c in Hc. unfold next.
  destruct (Z.ltb_spec d 0) as [Hd|Hd]; (split; intros Hn).
  - right. exists k. fold c. by split_and!; [| |lia].
  - destruct (Z.ltb_spec (d + c) 0); [by right|]. left. right. exists k. fold c. by split_and!; [| |lia].
  - right. exists k. fold c. by split_and!; [| |lia].
  - destruct (Z.ltb_spec (d - c) 0); [|by right]. left. right. exists k. fold c. by split_and!; [| |lia].
Qed.

(** Where all entries have been passed, the difference is settled: the entries up to
    the maximum together have enough rows. *)
Lemma tracked_end (expected d : Z) (p : bit_vector_view) :
  d = results column p - expected → 0 ≤ expected ≤ count_le column (max_value_ p - 1) →
  tracked [] p d → settled (max_value_ p) d.
Proof.
  intros Hd He [Hs|Ht]; [done|]. destruct (Z.ltb_spec d 0) as [Hneg|Hpos].
  - assert (H : results column p = count_le column (max_value_ p - 1)); [|lia].
    unfold results, count_le. do 2 f_equal. apply list_filter_iff'. intros v Hv.
    split; [unfold member; rewrite andb_true_iff, Z.ltb_lt; lia|]. intros Hle.
    destruct (Ht v Hv ltac:(lia)) as [Hn|H]; [by apply elem_of_nil in Hn|done].
  - assert (H : results column p = 0); [|left; lia].
    unfold results. destruct (filter _ column) as [|v l] eqn:E; [done|].
    assert (Hv : v ∈ filter (fun x => member p x = true) column) by (rewrite E; left).
    apply list_elem_of_filter in Hv as [Hm Hv]. destruct (Z.ltb_spec v (max_value_ p)) as [Hlt|Hge].
    + destruct (Ht v Hv Hlt) as [Hn|H]; [by apply elem_of_nil in Hn|congruence].
    + unfold member in Hm. rewrite (proj2 (Z.ltb_ge v _)) in Hm by lia. done.
Qed.

(** [p'] is within the tolerance, or settled. *)
Definition good_enough (expected : Z) (p' : bit_vector_view) : Prop :=
  within_tolerance (results column p') expected = true ∨
  settled (max_value_ p') (results column p' - expected).

Lemma adjust_loop_spec (expected : Z) (order : list (Z * Z)) : ∀ p d,
  0 ≤ expected < 2 ^ 62 → expected ≤ count_le column (max_value_ p - 1) →
  bits_wf element_bits p → d = results column p - expected →
  (∀ k c, (k, c) ∈ order → c = occurrences column k ∧ k ∈ column) → tracked order p d →
  ∃ p', adjust_loop eps column order p d = Ok p' ∧ closer expected p p' ∧ good_enough expected p'.
Proof.
  induction order as [|[k c] order IH]; intros p d He Hmax Hp Hd Ho Ht; cbn [adjust_loop].
  { exists p. split; [done|]. split; [by apply closer_refl|]. right. subst d.
    apply (tracked_end expected); [done|lia|done]. }
  destruct (Ho k c) as [-> Hk]; [left|]. assert (Ho' : ∀ k c, (k, c) ∈ order → c = occurrences column k ∧ k ∈ column)
    by (intros; apply Ho; by right).
  pose proof (proj1 (Forall_forall _ _) Hcol k Hk) as Hk0. cbv beta in Hk0.
  destruct (Z.leb_spec (max_value_ p) k) as [Hge|Hkp]; [apply IH; try done; eapply tracked_skip; [done|by left]|].
  rewrite (contains_spec element_bits (or_introl eq_refl)) by done. cbn [rbind]. fold (member p k).
  destruct (Bool.eqb (member p k) (d <? 0)) eqn:Eskip.
  { apply IH; try done. eapply tracked_skip; [done|]. right. by apply Bool.eqb_prop. }
  assert (Hm : member p k = negb (d <? 0)) by (destruct (member p k), (d <? 0); done).
  pose proof (occurrences_bound column k) as Hocc. rewrite s64_small by lia.
  destruct (turn_settles (max_value_ p) k d Hk Hkp) as [Hrej Hacc].
  set (next := if d <? 0 then d + occurrences column k else d - occurrences column k) in *.
  destruct (Z.ltb_spec (Z.abs next) (Z.abs d)) as [Hlt|Hge]; cbn [rbind].
  - destruct (change_member p k (d <? 0) Hp ltac:(lia)) as (p' & -> & Hwf & Hsz & Hmem). cbn [rbind].
    pose proof (results_change column p p' k (d <? 0) Hcol Hm Hmem) as Hres.
    assert (Hn : next = results column p' - expected) by (unfold next; destruct (d <? 0); lia).
    assert (Hcl : closer expected p p').
    { split; [done|done|lia|]. intros x Hx Hx'. rewrite Hmem by done.
      by rewrite (proj2 (Z.eqb_neq x k)) by (by intros ->). }
    destruct (precise_enough eps column next) eqn:Eprec.
    { exists p'. split; [done|]. split; [done|]. left. unfold within_tolerance. by rewrite <- Hn. }
    assert (Ht' : tracked order p' next).
    { destruct Ht as [Hs|Ht]; [left; rewrite Hsz; by apply (settled_closer _ d); [lia|]|].
      destruct (Hacc Hlt) as [Hs|Hsign]; [left; by rewrite Hsz|]. right. intros x Hx Hxl.
      pose proof (proj1 (Forall_forall _ _) Hcol x Hx) as Hx0. cbv beta in Hx0.
      rewrite Hmem, Hsign by done. destruct (Z.eqb_spec x k) as [->|Hne]; [by right|].
      specialize (Ht x Hx ltac:(lia)). rewrite fmap_cons, elem_of_cons in Ht. cbn [fst] in Ht.
      by destruct Ht as [[?|?]|?]; [|left|right]. }
    destruct (IH p' next He ltac:(by rewrite Hsz) Hwf Hn Ho' Ht') as (q & Hq & Hcq & Hg).
    exists q. split; [done|]. split; [by eapply closer_trans|done].
  - destruct (precise_enough eps column d) eqn:Eprec.
    { exists p. split; [done|]. split; [by apply closer_refl|]. left. unfold within_tolerance. by rewrite <- Hd. }
    apply IH; try done. left. by apply Hrej.
Qed.

Lemma adjust_predictor_spec (expected : Z) (order : list (Z * Z)) (p : bit_vector_view) :
  0 ≤ expected < 2 ^ 62 → expected ≤ count_le column (max_value_ p - 1) →
  bits_wf element_bits p → order ≡ₚ calc_entry_to_count_map column →
  ∃ p', adjust_predictor eps column (calc_entry_to_count_map column) order expected p = Ok p' ∧
    closer expected p p' ∧ good_enough expected p' ∧
    (within_tolerance (results column p) expected = true → p' = p).
Proof.
  intros He Hmax Hp Ho. unfold adjust_predictor. rewrite (calc_results_spec column) by (done || lia). cbn [rbind].
  pose proof (results_bound column p) as Hr. set (d := if _ <? _ then _ else _).
  assert (Hd : d = results column p - expected) by (unfold d; case_match; rewrite s64_small by lia; lia).
  unfold within_tolerance at 1. rewrite <- Hd.
  change (f64_lt _ eps) with (precise_enough eps column d).
  destruct (precise_enough eps column d) eqn:Eprec.
  { exists p. split; [done|]. split; [by apply closer_refl|]. split; [|done]. left. unfold within_tolerance. by rewrite <- Hd. }
  destruct (adjust_loop_spec expected order p d) as (q & Hq & Hc & Hg); try done.
  - intros k c Hin. rewrite Ho in Hin. apply map_counts; [lia|done].
  - right. intros k Hk Hl. left. rewrite Ho. apply map_has; [lia|done].
  - by exists q.
Qed.
End adjust.

(** ** All requests *)
Lemma count_le_all (l : list Z) (k : Z) : Forall (fun v => v ≤ k) l → count_le l k = Z.of_nat (length l).
Proof.
  unfold count_le. induction 1 as [|v l Hv _ IH]; [done|]. rewrite filter_cons_True by done. cbn [length]. lia.
Qed.

Section requests.
Import PreciseRandomPredicateVecsGen.
Context (eps : spec_float) (column : list Z) (b : Z) (order : list (Z * Z)).
Context (Hb : 0 ≤ b < 32) (Hlen : Z.of_nat (length column) < 2 ^ 62) (Hcol : Forall (fun v => 0 ≤ v < 2 ^ b) column).
Context (Ho : order ≡ₚ calc_entry_to_count_map column).

Definition expected_count (selectivity : spec_float) : result Z :=
  to_unsigned 64 (f64_round (f64_mul selectivity (f64_of (Z.of_nat (length column))))).

(** A request as the random generator hands it over. *)
Definition request_ok (r : spec_float * Z * bit_vector_view) : Prop :=
  0 ≤ r.1.2 < 2 ^ b ∧ bits_wf element_bits r.2 ∧ max_value_ r.2 = r.1.2 + 1 ∧
  ∃ n, expected_count r.1.1 = Ok n ∧ n < 2 ^ 62.

(** The predicate [q] for a request, of which [n] rows are expected and the random
    predicate selects [before].  Where the rows with values up to the request's maximum
    are too few, [q] selects all of them.  Otherwise a random predicate within the
    tolerance stays as it is, and [q] is within the tolerance, or its distance to [n] is
    at most half the number of rows of one of the values up to the maximum: the
    granularity of the column. *)
Definition request_done (r : spec_float * Z * bit_vector_view) (q : bit_vector_view) : Prop :=
  ∃ n before after, expected_count r.1.1 = Ok n ∧
    count_in_predicate column r.2 = Ok before ∧ count_in_predicate column q = Ok after ∧
    Z.abs (after - n) ≤ Z.abs (before - n) ∧ (count_le column r.1.2 < n → after = count_le column r.1.2) ∧
    (n ≤ count_le column r.1.2 → within_tolerance eps column before n = true → q = r.2) ∧
    (n ≤ count_le column r.1.2 →
       within_tolerance eps column after n = true ∨ after = n ∨
       ∃ v, v ∈ column ∧ v ≤ r.1.2 ∧ 2 * Z.abs (after - n) ≤ occurrences column v) ∧
    bits_wf element_bits q ∧ max_value_ q = max_value_ r.2.

Definition cache_ok (cache : list (Z * Z)) : Prop := ∀ m c, find cache m = Some c → c = count_le column m.

Lemma column_nonneg : Forall (fun v => 0 ≤ v) column.
Proof. eapply Forall_impl; [exact Hcol|]. cbv beta. lia. Qed.

Lemma up_to_small (m : Z) : 0 ≤ m < 2 ^ b → up_to m = Ok (range (m + 1)).
Proof. intros Hm. pose proof (entry_pow b Hb). unfold up_to. by rewrite (proj2 (Z.eqb_neq m _)) by lia. Qed.

Lemma max_results (m : Z) (cache : list (Z * Z)) : 0 ≤ m < 2 ^ b → cache_ok cache →
  ∃ cache', calc_max_results_count column (calc_entry_to_count_map column) m (2 ^ b - 1) cache =
    Ok (count_le column m, cache') ∧ cache_ok cache'.
Proof.
  intros Hm Hc. unfold calc_max_results_count. destruct (Z.eqb_spec (2 ^ b - 1) m) as [<-|Hne].
  - exists cache. split; [|done]. do 2 f_equal. symmetry. apply count_le_all.
    eapply Forall_impl; [exact Hcol|]. cbv beta. lia.
  - destruct (find cache m) as [c|] eqn:E; [rewrite <- (Hc m c E); by exists cache|].
    rewrite up_to_small by done. cbn [rbind].
    assert (Hs : add_counts (calc_entry_to_count_map column) (range (m + 1)) = count_le column m).
    { rewrite add_counts_spec; [|lia|].
      - unfold count_le. do 2 f_equal. apply list_filter_iff'. intros v Hv. rewrite elem_of_range.
        pose proof (proj1 (Forall_forall _ _) Hcol v Hv). cbv beta in *. lia.
      - unfold range. apply NoDup_fmap_2; [|apply NoDup_seq]. intros x y. lia. }
    rewrite Hs. eexists. split; [reflexivity|]. intros m' c'. cbn [find].
    destruct (Z.eqb_spec m m') as [<-|]; [by intros [= <-]|apply Hc].
Qed.

(** All values up to the maximum are inserted. *)
Lemma insert_all (l : list Z) : ∀ p, bits_wf element_bits p → Forall (fun v => 0 ≤ v < max_value_ p) l →
  ∃ q, rfold (insert element_bits) p l = Ok q ∧ bits_wf element_bits q ∧ max_value_ q = max_value_ p ∧
    ∀ x, 0 ≤ x → member q x = member p x || bool_decide (x ∈ l).
Proof.
  induction l as [|v l IH]; intros p Hp Hl; cbn [rfold].
  - exists p. do 3 (split; [done|]). intros x Hx. rewrite bool_decide_eq_false_2, orb_false_r; [done|apply not_elem_of_nil].
  - apply Forall_cons in Hl as [Hv Hl].
    destruct (change_member p v true Hp Hv) as (p' & -> & Hp' & Hsz & Hmem). cbn [rbind].
    destruct (IH p' Hp') as (q & Hq & Hqw & Hqs & Hqm); [by rewrite Hsz|].
    exists q. split; [done|]. split; [done|]. split; [congruence|]. intros x Hx. rewrite Hqm, Hmem by done.
    destruct (Z.eqb_spec x v) as [->|Hne].
    + rewrite (bool_decide_eq_true_2 (v ∈ v :: l)) by left. by rewrite orb_true_r.
    + f_equal. apply bool_decide_ext. rewrite elem_of_cons. tauto.
Qed.

Lemma results_le (p : bit_vector_view) (m : Z) : max_value_ p = m + 1 → results column p ≤ count_le column m.
Proof.
  intros Hm. unfold results, count_le. apply inj_le. clear -Hm. induction column as [|v l IH]; [done|].
  rewrite !filter_cons. assert (H : member p v = true → v ≤ m).
  { unfold member. rewrite andb_true_iff, Z.ltb_lt. lia. }
  repeat case_decide; cbn [length]; try lia. tauto.
Qed.

Lemma adjust_request_spec (cache : list (Z * Z)) (out : list bit_vector_view) (r : spec_float * Z * bit_vector_view) :
  request_ok r → cache_ok cache →
  ∃ cache' q, adjust_request eps column (calc_entry_to_count_map column) order (2 ^ b - 1) (cache, out) r =
    Ok (cache', out ++ [q]) ∧ cache_ok cache' ∧ request_done r q.
Proof.
  intros (Hm & Hp & Hsz & n & Hn & Hn2) Hc. destruct r as [[s m] p]. cbn [fst snd] in *.
  pose proof column_nonneg as Hnn. pose proof (results_bound column p) as Hrb.
  assert (Hn0 : 0 ≤ n) by (unfold expected_count, to_unsigned in Hn; repeat case_match; zbool; simplify_eq; lia).
  unfold adjust_request. fold (expected_count s). rewrite Hn. cbn [rbind fst snd].
  destruct (max_results m cache Hm Hc) as (cache' & -> & Hc'). cbn [rbind].
  unfold request_done. cbn [fst snd]. destruct (Z.ltb_spec (count_le column m) n) as [Hlt|Hge].
  - rewrite up_to_small by done. cbn [rbind].
    destruct (insert_all (range (m + 1)) p Hp) as (q & -> & Hq & Hqs & Hqm).
    { apply Forall_range. lia. }
    cbn [rbind]. exists cache', q. split; [done|]. split; [done|]. exists n, (results column p), (results column q).
    assert (Hall : results column q = count_le column m).
    { unfold results, count_le. do 2 f_equal. apply list_filter_iff'. intros v Hv%(proj1 (Forall_forall _ _) Hnn).
      rewrite Hqm, orb_true_iff, bool_decide_eq_true, elem_of_range by done. unfold member.
      rewrite andb_true_iff, Z.ltb_lt. lia. }
    pose proof (results_le p m Hsz). split_and!; try done; try (by apply count_in_predicate_spec); lia.
  - destruct (adjust_predictor_spec eps column Hlen Hnn n order p) as (q & -> & [H1 H2 H3 _] & Hg & Hsame);
      [lia|by rewrite Hsz, Z.add_simpl_r|done|done|].
    cbn [rbind]. exists cache', q. split; [done|]. split; [done|]. exists n, (results column p), (results column q).
    split_and!; try done; try (by apply count_in_predicate_spec); [lia|]. intros _.
    destruct Hg as [Hg|[Hg|(v & Hv & Hl & Hc2)]]; [by left|right; left; lia|right; right; exists v].
    split_and!; [done|lia|done].
Qed.
End requests.

(** ** Random predicates *)
Section random.
Context {E : Type} `{UniformLaws E}.

Lemma insert_random_spec (n : nat) (m : Z) : ∀ (e : E) (p : bit_vector_view),
  0 ≤ m → bits_wf element_bits p → max_value_ p = m + 1 →
  ∃ e' q, RandomPredicateVecsGen.insert_random n m e p = Ok (e', q) ∧ bits_wf element_bits q ∧ max_value_ q = m + 1.
Proof.
  induction n as [|n IH]; intros e p Hm Hp Hs; cbn [RandomPredicateVecsGen.insert_random]; [by exists e, p|].
  pose proof (uni_range 0 m e Hm) as Hr. destruct (uni 0 m e) as [v e']. cbn [fst] in Hr.
  destruct (insert_spec element_bits (or_introl eq_refl) p v Hp ltac:(lia)) as (p' & -> & H1 & H2 & _). cbn [rbind].
  apply IH; [done|done|congruence].
Qed.

(** The doubles of a selectivity that are turned into numbers of draws. *)
Definition draws_ok (range_size entry_count : Z) (s : spec_float) : Prop :=
  ∃ k c, value_per_request_count range_size entry_count s = Ok k ∧
    to_unsigned 64 (f64_trunc (f64_mul (f64_add (f64_of 1) s) (f64_of k))) = Ok c.

Lemma next_predictor_spec (range_size entry_count : Z) (s : spec_float) (m : Z) (e : E) (out : list bit_vector_view) :
  0 ≤ m < 2 ^ 31 → draws_ok range_size entry_count s →
  ∃ e' p, RandomPredicateVecsGen.next_predictor range_size entry_count (e, out) (s, m) = Ok (e', out ++ [p]) ∧
    bits_wf element_bits p ∧ max_value_ p = m + 1.
Proof.
  intros Hm (k & c & Hk & Hc). unfold RandomPredicateVecsGen.next_predictor. rewrite Hk. cbn [rbind]. rewrite Hc. cbn [rbind].
  unfold u32. rewrite Z.mod_small by lia.
  destruct (bit_vector_spec element_bits (or_introl eq_refl) (m + 1)) as (p0 & -> & H1 & H2 & _); [lia|lia|]. cbn [rbind].
  destruct (insert_spec element_bits (or_introl eq_refl) p0 m H1 ltac:(lia)) as (p1 & -> & H3 & H4 & _). cbn [rbind].
  destruct (insert_random_spec (Z.to_nat (c - 1)) m e p1) as (e' & q & Hq & H5 & H6); [lia|done|congruence|].
  cbn [fst snd] in *. rewrite Hq. cbn [rbind]. by exists e', q.
Qed.

Lemma random_predictors (range_size entry_count : Z) (reqs : list (spec_float * Z)) : ∀ (e : E) (out : list bit_vector_view),
  Forall (fun r => draws_ok range_size entry_count r.1 ∧ 0 ≤ r.2 < 2 ^ 31) reqs →
  ∃ e' ps, rfold (RandomPredicateVecsGen.next_predictor range_size entry_count) (e, out) reqs = Ok (e', out ++ ps) ∧
    Forall2 (fun r p => bits_wf element_bits p ∧ max_value_ p = r.2 + 1) reqs ps.
Proof.
  induction reqs as [|[s m] reqs IH]; intros e out Hr; cbn [rfold].
  { exists e, []. by rewrite app_nil_r. }
  apply Forall_cons in Hr as [[H1 H2] Hr]. cbn [fst snd] in *.
  destruct (next_predictor_spec range_size entry_count s m e out H2 H1) as (e1 & p & -> & Hp). cbn [rbind].
  destruct (IH e1 (out ++ [p]) Hr) as (e' & ps & -> & Hps). exists e', (p :: ps). rewrite <- app_assoc.
  split; [done|]. by constructor.
Qed.
End random.

Lemma adjust_requests (eps : spec_float) (column : list Z) (b : Z) (order : list (Z * Z))
    (reqs : list (spec_float * Z * bit_vector_view)) : ∀ cache out,
  0 ≤ b < 32 → Z.of_nat (length column) < 2 ^ 62 → Forall (fun v => 0 ≤ v < 2 ^ b) column →
  order ≡ₚ PreciseRandomPredicateVecsGen.calc_entry_to_count_map column →
  Forall (request_ok column b) reqs → cache_ok column cache →
  ∃ cache' qs, rfold (PreciseRandomPredicateVecsGen.adjust_request eps column
      (PreciseRandomPredicateVecsGen.calc_entry_to_count_map column) order (2 ^ b - 1)) (cache, out) reqs =
      Ok (cache', out ++ qs) ∧ Forall2 (request_done eps column) reqs qs.
Proof.
  induction reqs as [|r reqs IH]; intros cache out Hb Hlen Hcol Ho Hr Hc; cbn [rfold].
  { exists cache, []. by rewrite app_nil_r. }
  apply Forall_cons in Hr as [Hr1 Hr].
  destruct (adjust_request_spec eps column b order Hb Hlen Hcol Ho cache out r Hr1 Hc) as (c1 & q & -> & Hc1 & Hq). cbn [rbind].
  destruct (IH c1 (out ++ [q])) as (c2 & qs & -> & Hqs); [done..|]. exists c2, (q :: qs). rewrite <- app_assoc.
  split; [done|]. by constructor.
Qed.

(** Property C30.  The precise generator of predicate vectors, for every engine, seed and
    order in which the map of counts is traversed, returns one predicate per request.  The
    number of rows it selects, as the reference function counts them, is at least as
    close to the expected number as that of the random predicate it starts from.  Where
    the rows with values up to the request's maximum are fewer than expected, it selects
    all of them.  Otherwise a random predicate within the tolerance epsilon is returned
    unchanged, and what is returned is within the tolerance or off by at most half of the
    rows of a single value of the column. *)
Theorem precise_predicates {E} `{UniformLaws E} (eps : spec_float) (column : list Z) (b seed entry_count : Z)
    (order : list (Z * Z)) (selectivities : list spec_float) (max_values : list Z) :
  0 ≤ b < 32 → Z.of_nat (length column) < 2 ^ 62 → Forall (fun v => 0 ≤ v < 2 ^ b) column →
  order ≡ₚ PreciseRandomPredicateVecsGen.calc_entry_to_count_map column →
  length max_values = length selectivities → Forall (fun m => 0 ≤ m < 2 ^ b) max_values →
  Forall (fun s => draws_ok (2 ^ b) entry_count s ∧ ∃ n, expected_count column s = Ok n ∧ n < 2 ^ 62) selectivities →
  ∃ random out,
    RandomPredicateVecsGen.create_predicate_vecs_impl seed b entry_count selectivities max_values = Ok random ∧
    PreciseRandomPredicateVecsGen.create_predicate_vecs_impl eps column order seed b entry_count selectivities max_values = Ok out ∧
    Forall2 (request_done eps column) (zip (zip selectivities max_values) random) out.
Proof.
  intros Hb Hlen Hcol Ho Hl Hm Hs. pose proof (entry_pow b Hb) as Hp.
  assert (Ex : u32 (Z.shiftl 1 b) = 2 ^ b) by (unfold u32; rewrite Z.shiftl_1_l, Z.mod_small; lia).
  assert (Ey : u32 (u64 (Z.shiftl 1 b)) = 2 ^ b) by (rewrite Z.shiftl_1_l, u64_small by lia; unfold u32; rewrite Z.mod_small; lia).
  destruct (random_predictors (2 ^ b) entry_count (zip selectivities max_values) (seeded seed) []) as (e & ps & Er & Hps).
  { apply Forall_forall. intros [s m] [i [H1 H2]%lookup_zip_Some]%list_elem_of_lookup_1. cbn [fst snd].
    pose proof (Forall_lookup_1 _ _ _ _ Hs H1) as [H3 _]. pose proof (Forall_lookup_1 _ _ _ _ Hm H2) as H4. cbv beta in H4.
    split; [done|lia]. }
  assert (Erand : RandomPredicateVecsGen.create_predicate_vecs_impl seed b entry_count selectivities max_values = Ok ps).
  { unfold RandomPredicateVecsGen.create_predicate_vecs_impl. rewrite Hl, Nat.eqb_refl. cbn [assert rbind].
    by rewrite Ey, Er. }
  destruct (adjust_requests eps column b order (zip (zip selectivities max_values) ps) [] [])
    as (c & qs & Eq & Hq); [done..| |done|].
  { apply Forall_forall. intros [[s m] p] [i [H1 H2]%lookup_zip_Some]%list_elem_of_lookup_1.
    pose proof (Forall2_lookup_lr _ _ _ _ _ _ Hps H1 H2) as [H3 H4]. apply lookup_zip_Some in H1 as [H1 H1'].
    pose proof (Forall_lookup_1 _ _ _ _ Hs H1) as [_ H5]. pose proof (Forall_lookup_1 _ _ _ _ Hm H1') as H6. by split. }
  exists ps, qs. split; [done|]. split; [|done].
  unfold PreciseRandomPredicateVecsGen.create_predicate_vecs_impl. rewrite Erand. cbn [rbind].
  rewrite Ex. replace (u32 (2 ^ b - 1)) with (2 ^ b - 1) by (unfold u32; rewrite Z.mod_small; lia). by rewrite Eq.
Qed.

(** A small engine, a column of five entries, and half of its rows wanted. *)
Definition lcg : Uniform Z :=
  {| seeded := fun s => s; uni := fun lo hi e => (lo + e mod (hi - lo + 1), e * 1103515245 + 12345) |}.
Lemma lcg_laws : @UniformLaws Z lcg.
Proof. split. intros lo hi e Hl. cbn. pose proof (Z.mod_pos_bound e (hi - lo + 1)). lia. Qed.

Lemma precise_predicates_witness :
  let half := f64_div (f64_of 1) (f64_of 2) in
  let eighth := f64_div (f64_of 1) (f64_of 8) in
  let column := [1; 3; 2; 3; 1] in
  ∃ random out,
    @RandomPredicateVecsGen.create_predicate_vecs_impl Z lcg 42 2 5 [half] [3] = Ok random ∧
    @PreciseRandomPredicateVecsGen.create_predicate_vecs_impl eighth column Z lcg
      (PreciseRandomPredicateVecsGen.calc_entry_to_count_map column) 42 2 5 [half] [3] = Ok out ∧
    Forall2 (request_done eighth column) (zip (zip [half] [3]) random) out.
Proof.
  intros half eighth column.
  apply (@precise_predicates Z lcg lcg_laws eighth column 2 42 5
    (PreciseRandomPredicateVecsGen.calc_entry_to_count_map column) [half] [3]).
  - lia.
  - done.
  - apply (bool_decide_unpack _). by vm_compute.
  - reflexivity.
  - done.
  - apply (bool_decide_unpack _). by vm_compute.
  - constructor; [|constructor]. split; [exists 2, 3; split; vm_compute; reflexivity|].
    exists 3. split; vm_compute; reflexivity.
Defined.

(** ** Random ranges *)
Section random_ranges.
Context {E : Type} `{UniformLaws E}.

(** The ranges lie within the values of the column and have the length that the
    selectivity asks for, if that length is at most the largest value. *)
Lemma random_ranges_valid (b seed entry_count : Z) (selectivities : list spec_float) (len : spec_float → Z) :
  0 ≤ b < 32 →
  (∀ s, s ∈ selectivities → value_per_request_count (2 ^ b) entry_count s = Ok (len s) ∧ 0 ≤ len s < 2 ^ b) →
  ∃ out, RandomRangesGen.create_scan_ranges_impl seed b entry_count selectivities = Ok out ∧
    Forall2 (fun s r => 0 ≤ range_start r ∧ range_end r = range_start r + len s ∧ range_end r < 2 ^ b) selectivities out.
Proof.
  intros Hb Hs. pose proof (entry_pow b Hb) as Hp. unfold RandomRangesGen.create_scan_ranges_impl.
  rewrite Z.shiftl_1_l, (u64_small (2 ^ b)), u64_small by lia.
  assert (HE : ∀ (e : E) out, ∃ e' rs,
    rfold (RandomRangesGen.next_range (2 ^ b - 1) entry_count) (e, out) selectivities = Ok (e', out ++ rs) ∧
    Forall2 (fun s r => 0 ≤ range_start r ∧ range_end r = range_start r + len s ∧ range_end r < 2 ^ b) selectivities rs).
  { induction selectivities as [|s l IH]; intros e out; cbn [rfold]; [exists e, []; by rewrite app_nil_r|].
    destruct (Hs s) as [Hk Hr]; [left|]. unfold RandomRangesGen.next_range at 1. unfold u32 at 1.
    rewrite Z.sub_add, Z.mod_small, Hk by lia. cbn [rbind fst snd]. rewrite u64_small by lia.
    unfold u32 at 1. rewrite Z.mod_small by lia.
    pose proof (uni_range 0 (2 ^ b - 1 - len s) e ltac:(lia)) as Hu. destruct (uni 0 _ e) as [v e1]. cbn [fst] in Hu.
    cbn [rbind]. unfold u32 at 1. rewrite Z.mod_small by lia.
    destruct (IH ltac:(intros; apply Hs; by right) e1 (out ++ [mkRange v (v + len s)])) as (e' & rs & -> & Hrs).
    exists e', (mkRange v (v + len s) :: rs). rewrite <- app_assoc. split; [done|]. constructor; [cbn; lia|done]. }
  destruct (HE (seeded seed) []) as (e' & rs & -> & Hrs). by exists rs.
Qed.
End random_ranges.

(** With a selectivity of 1 the length is one more than the largest value, the bound of
    the draw wraps around, and a range far outside the column can come out; the precise
    generator refuses it with an assertion. *)
Example full_selectivity_wraps :
  let top : Uniform unit := {| seeded := fun _ => tt; uni := fun _ hi e => (hi, e) |} in
  @RandomRangesGen.create_scan_ranges_impl unit top 7 10 4096 [f64_of 1] = Ok [mkRange (2 ^ 32 - 1) 1023] ∧
  @create_precise_ranges unit top (f64_of 0) 7 (replicate 4096 5) 10 4096 [f64_of 1] = Err AssertionFailed.
Proof. split; vm_compute; reflexivity. Qed.
