(* ===== verification/DatagenSls.v ===== *)
(** * Generators of SLS test data

    tools/datagen/sls: embedding tables (tables_generator), numbers of lookups
    (lengths_generator), indices (indices_generator) and the golden sums
    (golden_vec_generator/factory.cpp), for entries of type [uint32_t].  The random
    engine is the class [Uniform] of DatagenPredicates. *)
From S2P Require Import Prelude Topology Views Aes Secure CpuSls DataFiles InfoFiles DatagenPredicates.

(** ** tables_generator *)

(** An entry generator: its state, the entry at (table, row, column), the next state. *)
Definition EntryGen (S : Type) := S → Z → Z → Z → Z * S.

(** default_entry_gens.h *)
Definition RandomEntry {E} `{Uniform E} : EntryGen E := fun engine_ _ _ _ => uni 0 (2 ^ 16 - 1) engine_.

Definition PositionedEntry : EntryGen unit :=
  fun s tid rid cid => (u32 (u64 (u64 (Z.shiftl tid 16) + u64 (Z.shiftl rid 8) + cid)), s).

Definition FixedEntry (value : Z) : EntryGen unit := fun s _ _ _ => (value, s).

(** [NumericEntry<uint32_t>], whose seed value is 1; the remainders need positive
    arguments. *)
Record numeric := mkNumeric { feature_id_ : Z; counter_ : Z; sparse_feature_part_ : Z }.
Definition numeric_start : numeric := mkNumeric 0 0 0.

Definition NumericEntry (knum_idx_values_ sparse_feature_size_ : Z) : EntryGen numeric := fun s _ _ _ =>
  let s := if counter_ s mod sparse_feature_size_ =? 0
           then mkNumeric (u64 (feature_id_ s + 1)) (counter_ s) (u32 (feature_id_ s mod knum_idx_values_ + 1))
           else s in
  (sparse_feature_part_ s, mkNumeric (feature_id_ s) (u64 (counter_ s + 1)) (sparse_feature_part_ s)).

(** trivial.h: the entries of all tables, as words. *)
Definition push {S A} (next : S → A → Z * S) (st : list Z * S) (x : A) : list Z * S :=
  let (v, s) := next st.2 x in (st.1 ++ [v], s).

Definition fill_row {S} (gen : EntryGen S) (cols tid : Z) (st : list Z * S) (rid : Z) : list Z * S :=
  fold_left (push (fun s cid => gen s tid rid cid)) (range cols) st.

Definition fill_table {S} (gen : EntryGen S) (rows : list Z) (cols : Z) (st : list Z * S) (tid : Z) : result (list Z * S) :=
  let! n := vec_at rows tid in
  Ok (fold_left (fill_row gen cols tid) (range n) st).

Definition create_tables {S} (gen : EntryGen S) (start : S) (info : TablesInfo.t) : result (list Z) :=
  let! (table, _) := rfold (fill_table gen (TablesInfo.table_rows_ info) (TablesInfo.cols_ info)) ([], start)
                       (range (TablesInfo.num_tables_ info)) in
  Ok (bytes_of_words table).

(** ** lengths_generator *)
Section lengths.
Context {E : Type} `{Uniform E}.

Fixpoint generate_n (n : nat) (next : E → Z * E) (engine : E) : list Z * E :=
  match n with
  | O => ([], engine)
  | S n' => let (v, engine) := next engine in let (l, engine) := generate_n n' next engine in (v :: l, engine)
  end.

Definition real_min_num_lookup (min_num_lookup : option Z) (max_num_lookup : Z) : Z := default max_num_lookup min_num_lookup.

(** random.h; [seed] is what the random device gives. *)
Definition single_overflowed_table_batch_lookups (tp : Constants) : Z :=
  u32 (InstBufSize tp / NumOfInstBuf tp / InstructionSize tp - 1).
Definition single_batch_lookups_min (tp : Constants) (minibatch_size : Z) : Z :=
  u32 (InstBufSize tp / InstructionSize tp / minibatch_size + 1).

Definition table_lengths (tp : Constants) (type_of_tables_with_overflow_ overflowed_table_id lo hi minibatch_size table_idx : Z)
    (engine : E) : list Z * E :=
  let rows_distr := uni (u32 lo) (u32 hi) in
  let generate := generate_n (Z.to_nat minibatch_size) in
  if type_of_tables_with_overflow_ =? 0 then generate rows_distr engine
  else if type_of_tables_with_overflow_ =? -1 then
    generate (fun e => if overflowed_table_id =? table_idx then (single_overflowed_table_batch_lookups tp, e)
                       else rows_distr e) engine
  else if 0 <? type_of_tables_with_overflow_ then
    generate (fun e => if (table_idx + 1) mod type_of_tables_with_overflow_ =? 0 then (single_batch_lookups_min tp minibatch_size, e)
                       else rows_distr e) engine
  else ([], engine).

Definition append_table {A} (next : E → A → list Z * E) (st : list Z * E) (x : A) : list Z * E :=
  let (l, engine) := next st.2 x in (st.1 ++ l, engine).

Definition RandomLengthsGen (tp : Constants) (type_of_tables_with_overflow_ seed num_tables : Z) (min_num_lookup : option Z)
    (max_num_lookup minibatch_size : Z) : list Z :=
  let (overflowed_table_id, engine) := uni 0 (u32 (u64 (num_tables - 1))) (seeded seed) in
  (fold_left (append_table (fun e table_idx =>
     table_lengths tp type_of_tables_with_overflow_ overflowed_table_id
       (real_min_num_lookup min_num_lookup max_num_lookup) max_num_lookup minibatch_size table_idx e))
     (range num_tables) ([], engine)).1.

(** duplicate_random.h *)
Definition DuplicateRandomLengthsGen (seed num_tables : Z) (min_num_lookup : option Z) (max_num_lookup minibatch_size : Z)
  : list Z :=
  let rows_distr := uni (u32 (real_min_num_lookup min_num_lookup max_num_lookup)) (u32 max_num_lookup) in
  let (lookups_per_table, _) := generate_n (Z.to_nat num_tables) rows_distr (seeded seed) in
  lookups_per_table ≫= fun lookups => replicate (Z.to_nat minibatch_size) lookups.

(** ** indices_generator

    The indices of one batch: [table_size] and the number of lookups are given. *)
Definition BatchGen := Z → Z → E → list Z * E.

(** sequential.h *)
Definition SequentialIndicesGen : BatchGen := fun _ len engine => (range len, engine).

(** random.h *)
Definition RandomIndicesGen : BatchGen := fun table_size len engine =>
  generate_n (Z.to_nat len) (uni 0 (u32 (table_size - 1))) engine.

(** The state of the loops: the lengths that are left, the indices and the engine. *)
Definition next_batch (gen : BatchGen) (table_size : Z) (st : list Z * list Z * E) (_ : Z) : result (list Z * list Z * E) :=
  let '(lengths, indices, engine) := st in
  match lengths with
  | [] => Err UndefinedBehaviour
  | len :: lengths' =>
      if table_size <=? len then Err LogicError
      else let (l, engine) := gen table_size len engine in Ok (lengths', indices ++ l, engine)
  end.

Definition create_indices (gen : BatchGen) (seed : Z) (indices_info : IndicesInfo.t) (tables_info : TablesInfo.t)
  : result (list Z) :=
  let! (_, indices, _) := rfold (fun st table_size =>
      rfold (next_batch gen table_size) st (range (IndicesInfo.minibatch_sizes_ indices_info)))
    (IndicesInfo.lengths_ indices_info, [], seeded seed) (TablesInfo.table_rows_ tables_info) in
  Ok indices.
End lengths.

(** ** golden_vec_generator/factory.cpp

    [compute_golden_sls_impl] for [uint32_t]; [tables] and [indices] are the bytes of the
    files. *)
Definition compute_golden_sls (tables : list Z) (tables_meta : TablesInfo.t) (indices : list Z)
    (indices_meta : IndicesInfo.t) : result (list Z) :=
  let mini_batch_size := IndicesInfo.minibatch_sizes_ indices_meta in
  let num_tables := TablesInfo.num_tables_ tables_meta in
  let sparse_feature_size := TablesInfo.cols_ tables_meta in
  let golden := replicate (Z.to_nat (mini_batch_size * num_tables * sparse_feature_size)) 0 in
  let! golden := Reduction.compute (words_of_bytes tables) (TablesInfo.table_rows_ tables_meta)
                   (words_of_bytes indices) (IndicesInfo.lengths_ indices_meta)
                   sparse_feature_size mini_batch_size golden in
  Ok (bytes_of_words golden).

(** ** What the generators make

    Specifications that do not mention the loops: what is drawn for a list of
    positions. *)
(** All positions (table, row, column) of tables with the given numbers of rows. *)
Definition positions (rows : list Z) (cols : Z) : list (Z * Z * Z) :=
  concat (zip_with (fun t n => concat ((fun r => (fun c => (t, r, c)) <$> range cols) <$> range n))
            (range (Z.of_nat (length rows))) rows).

(** For every lookup of every batch, the number of rows of its table. *)
Definition lookups (rows : list Z) (groups : list (list Z)) : list Z :=
  concat (zip_with (fun size group => group ≫= fun len => replicate (Z.to_nat len) size) rows groups).

Section draw.
Context {S : Type}.

Lemma push_draw {X} (next : S → X → Z * S) (xs : list X) : ∀ acc s,
  fold_left (push next) xs (acc, s) = (acc ++ (draw next s xs).1, (draw next s xs).2).
Proof.
  induction xs as [|x xs IH]; intros acc s; cbn [fold_left draw fst snd]; [by rewrite app_nil_r|].
  unfold push at 2. cbn [fst snd]. destruct (next s x) as [v s1]. rewrite IH.
  destruct (draw next s1 xs) as [l s2]. cbn [fst snd]. by rewrite <- app_assoc.
Qed.

(** An entry generator at a position. *)
Definition entry_at (gen : EntryGen S) (s : S) (p : Z * Z * Z) : Z * S := gen s p.1.1 p.1.2 p.2.

Lemma fill_rows_draw (gen : EntryGen S) (cols tid : Z) (rids : list Z) : ∀ acc s,
  fold_left (fill_row gen cols tid) rids (acc, s) =
  let ps := concat ((fun r => (fun c => (tid, r, c)) <$> range cols) <$> rids) in
  (acc ++ (draw (entry_at gen) s ps).1, (draw (entry_at gen) s ps).2).
Proof.
  induction rids as [|r rids IH]; intros acc s; cbv zeta; cbn [fold_left fmap list_fmap concat draw fst snd]; [by rewrite app_nil_r|].
  unfold fill_row at 2. rewrite push_draw, IH. cbv zeta. rewrite draw_app, draw_fmap.
  cbn [fst snd]. by rewrite <- app_assoc.
Qed.

Definition table_positions (cols t n : Z) : list (Z * Z * Z) :=
  concat ((fun r => (fun c => (t, r, c)) <$> range cols) <$> range n).

Lemma fill_tables_draw (gen : EntryGen S) (rows : list Z) (cols : Z) (k : nat) : ∀ pre acc s,
  (pre + k ≤ length rows)%nat →
  let ids := (fun i => Z.of_nat (pre + i)) <$> seq 0 k in
  let ps := concat (zip_with (table_positions cols) ids (take k (drop pre rows))) in
  rfold (fill_table gen rows cols) (acc, s) ids =
  Ok (acc ++ (draw (entry_at gen) s ps).1, (draw (entry_at gen) s ps).2).
Proof.
  induction k as [|k IH]; intros pre acc s Hk; cbv zeta; cbn [seq fmap list_fmap rfold].
  { cbn. by rewrite app_nil_r. }
  destruct (lookup_lt_is_Some_2 rows pre) as [n Hn]; [lia|].
  rewrite (drop_S _ _ _ Hn). cbn [take zip_with concat]. rewrite Nat.add_0_r.
  unfold fill_table at 1. rewrite (proj2 (vec_at_Ok rows _ n)) by (rewrite Nat2Z.id; split; [lia|done]). cbn [rbind].
  rewrite fill_rows_draw. cbv zeta. fold (table_positions cols (Z.of_nat pre) n). rewrite draw_app. cbn [fst snd].
  assert (Hids : (fun i => Z.of_nat (pre + i)) <$> seq 1 k = (fun i => Z.of_nat (Datatypes.S pre + i)) <$> seq 0 k).
  { rewrite <- fmap_S_seq, <- list_fmap_compose. apply list_fmap_ext. intros _ i _. cbn [compose]. lia. }
  rewrite Hids, (IH (Datatypes.S pre)) by lia. by rewrite <- app_assoc.
Qed.

(** The loops over tables, rows and columns draw the entries at all positions in order. *)
Lemma create_tables_draw (gen : EntryGen S) (start : S) (info : TablesInfo.t) :
  TablesInfo.num_tables_ info = Z.of_nat (length (TablesInfo.table_rows_ info)) →
  create_tables gen start info =
  Ok (bytes_of_words (draw (entry_at gen) start (positions (TablesInfo.table_rows_ info) (TablesInfo.cols_ info))).1).
Proof.
  intros Hn. unfold create_tables, positions. rewrite Hn.
  assert (Hr : range (Z.of_nat (length (TablesInfo.table_rows_ info))) =
    Z.of_nat <$> seq 0 (length (TablesInfo.table_rows_ info))) by (unfold range; by rewrite Nat2Z.id).
  rewrite Hr.
  pose proof (fill_tables_draw gen (TablesInfo.table_rows_ info) (TablesInfo.cols_ info)
    (length (TablesInfo.table_rows_ info)) 0 [] start ltac:(lia)) as Hf. cbv zeta in Hf.
  rewrite drop_0, firstn_all in Hf. by rewrite (Hf : rfold _ _ (Z.of_nat <$> _) = _).
Qed.
End draw.

(** ** Generated tables *)
Section tables.
Context {S : Type} (gen : EntryGen S) (Hgen : ∀ s tid rid cid, 0 ≤ (gen s tid rid cid).1 < 2 ^ 32).

Lemma fill_row_spec (cols tid rid : Z) (acc : list Z) (s : S) : 0 ≤ cols →
  ∃ row s', fill_row gen cols tid (acc, s) rid = (acc ++ row, s') ∧ Z.of_nat (length row) = cols ∧ words row.
Proof.
  intros Hc. unfold fill_row.
  assert (E : ∀ (ids : list Z) acc s, ∃ row s', fold_left (push (fun s cid => gen s tid rid cid)) ids (acc, s) = (acc ++ row, s') ∧
    length row = length ids ∧ words row).
  { induction ids as [|c ids IH]; intros a s0; cbn [fold_left]; [exists [], s0; rewrite app_nil_r; split; [done|split; [done|constructor]]|].
    unfold push at 2. cbn [fst snd]. pose proof (Hgen s0 tid rid c) as Hv. destruct (gen s0 tid rid c) as [v s1].
    destruct (IH (a ++ [v]) s1) as (row & s' & -> & Hl & Hw). exists (v :: row), s'. rewrite <- app_assoc.
    split; [done|]. split; [cbn; lia|]. by constructor. }
  destruct (E (range cols) acc s) as (row & s' & -> & Hl & Hw). exists row, s'. rewrite length_range in Hl.
  split; [done|]. split; [lia|done].
Qed.

(** The rows of a table, all of the same width. *)
Definition table_rows (cols : Z) (t : list (list Z)) : Prop := Forall (fun r => Z.of_nat (length r) = cols ∧ words r) t.

Lemma fill_rows_spec (cols tid : Z) (ids : list Z) : ∀ acc s, 0 ≤ cols →
  ∃ t s', fold_left (fill_row gen cols tid) ids (acc, s) = (acc ++ concat t, s') ∧ length t = length ids ∧ table_rows cols t.
Proof.
  induction ids as [|r ids IH]; intros acc s Hc; cbn [fold_left]; [exists [], s; rewrite app_nil_r; split; [done|split; [done|constructor]]|].
  destruct (fill_row_spec cols tid r acc s Hc) as (row & s1 & -> & Hl & Hw).
  destruct (IH (acc ++ row) s1 Hc) as (t & s' & -> & Ht & Hr). exists (row :: t), s'. cbn [concat length].
  rewrite <- app_assoc. split; [done|]. split; [lia|]. by constructor.
Qed.

Lemma fill_tables_spec (rows : list Z) (cols : Z) (k : nat) : ∀ pre acc s,
  0 ≤ cols → Forall (Z.le 0) rows → (pre + k ≤ length rows)%nat →
  ∃ ts s', rfold (fill_table gen rows cols) (acc, s) ((fun i => Z.of_nat (pre + i)) <$> seq 0 k) =
      Ok (acc ++ concat ((fun t => concat t) <$> ts), s') ∧
    Forall2 (fun n t => Z.of_nat (length t) = n ∧ table_rows cols t) (take k (drop pre rows)) ts.
Proof.
  induction k as [|k IH]; intros pre acc s Hc Hr Hk; cbn [seq fmap list_fmap rfold].
  { exists [], s. cbn. rewrite app_nil_r. by split. }
  destruct (lookup_lt_is_Some_2 rows pre) as [n Hn]; [lia|]. pose proof (Forall_lookup_1 _ _ _ _ Hr Hn) as Hn0. cbv beta in Hn0.
  unfold fill_table at 1. rewrite Nat.add_0_r, (proj2 (vec_at_Ok rows _ n)) by (rewrite Nat2Z.id; split; [lia|done]). cbn [rbind].
  destruct (fill_rows_spec cols (Z.of_nat pre) (range n) acc s Hc) as (t & s1 & -> & Ht & Htr). rewrite length_range in Ht.
  destruct (IH (Datatypes.S pre) (acc ++ concat t) s1 Hc Hr) as (ts & s' & Hf & H2); [lia|].
  exists (t :: ts), s'. rewrite <- fmap_S_seq, <- list_fmap_compose. cbn [fmap list_fmap concat]. split.
  - rewrite app_assoc. etrans; [|exact Hf]. f_equal. apply list_fmap_ext. intros _ i _. cbn [compose]. lia.
  - rewrite (drop_S _ _ _ Hn). cbn [take]. constructor; [split; [lia|done]|exact H2].
Qed.

(** Every entry of every row of every table is generated, and nothing else. *)
Lemma create_tables_spec (start : S) (info : TablesInfo.t) :
  0 ≤ TablesInfo.cols_ info → Forall (Z.le 0) (TablesInfo.table_rows_ info) →
  TablesInfo.num_tables_ info = Z.of_nat (length (TablesInfo.table_rows_ info)) →
  ∃ ts, create_tables gen start info = Ok (bytes_of_words (concat ((fun t => concat t) <$> ts))) ∧
    Forall2 (fun n t => Z.of_nat (length t) = n ∧ table_rows (TablesInfo.cols_ info) t) (TablesInfo.table_rows_ info) ts.
Proof.
  intros Hc Hr Hn. unfold create_tables. rewrite Hn. unfold range. rewrite Nat2Z.id.
  destruct (fill_tables_spec (TablesInfo.table_rows_ info) (TablesInfo.cols_ info) (length (TablesInfo.table_rows_ info)) 0 [] start Hc Hr)
    as (ts & s' & Hf & H2); [lia|]. rewrite (Hf : rfold _ _ (Z.of_nat <$> _) = _). cbn [rbind]. exists ts. split; [done|]. by rewrite drop_0, firstn_all in H2.
Qed.
End tables.

(** ** Generated indices *)
Section indices.
Context {E : Type} `{UniformLaws E}.

Lemma generate_n_spec (P : Z → Prop) (next : E → Z * E) (n : nat) : ∀ e, (∀ e, P (next e).1) →
  length (generate_n n next e).1 = n ∧ Forall P (generate_n n next e).1.
Proof.
  induction n as [|n IH]; intros e Hp; cbn [generate_n]; [by split|].
  pose proof (Hp e) as Hv. destruct (next e) as [v e1]. destruct (IH e1 Hp) as [H1 H2].
  destruct (generate_n n next e1) as [l e2]. cbn [fst length] in *. split; [lia|by constructor].
Qed.

(** What a generator of batches promises: as many indices as asked for, all of them rows
    of the table. *)
Class BatchGenLaws (gen : BatchGen (E:=E)) := {
  batch_rows : ∀ size len e, 0 ≤ len < size → size ≤ 2 ^ 32 →
    Z.of_nat (length (gen size len e).1) = len ∧ Forall (fun i => 0 ≤ i < size) (gen size len e).1;
}.

#[export] Instance sequential_laws : BatchGenLaws SequentialIndicesGen.
Proof.
  split. intros size len e Hl Hs. cbn [SequentialIndicesGen fst]. rewrite length_range. split; [lia|].
  apply Forall_range. lia.
Qed.

#[export] Instance random_laws : BatchGenLaws RandomIndicesGen.
Proof.
  split. intros size len e Hl Hs. unfold RandomIndicesGen, u32. rewrite Z.mod_small by lia.
  destruct (generate_n_spec (fun i => 0 ≤ i < size) (uni 0 (size - 1)) (Z.to_nat len) e) as [H1 H2]; [|split; [lia|done]].
  intros e'. pose proof (uni_range 0 (size - 1) e'). lia.
Qed.

Context (gen : BatchGen (E:=E)) `{!BatchGenLaws gen}.

Lemma batches_generated (size : Z) (group : list Z) : ∀ (ids rest acc : list Z) (e : E),
  length ids = length group → size ≤ 2 ^ 32 → Forall (fun len => 0 ≤ len < size) group →
  ∃ bs e', rfold (next_batch gen size) (group ++ rest, acc, e) ids = Ok (rest, acc ++ concat bs, e') ∧
    lengths_of bs = group ∧ Forall (Forall (fun i => 0 ≤ i < size)) bs.
Proof.
  induction group as [|len group IH]; intros [|i ids] rest acc e Hl Hs Hg; try done; cbn [rfold app].
  { exists [], e. rewrite app_nil_r. split; [done|]. split; [done|constructor]. }
  apply Forall_cons in Hg as [Hlen Hg]. cbn [next_batch]. rewrite (proj2 (Z.leb_gt size len)) by lia.
  pose proof (batch_rows (gen:=gen) size len e Hlen Hs) as [H1 H2]. destruct (gen size len e) as [l e1]. cbn [fst] in *.
  cbn [rbind]. destruct (IH ids rest (acc ++ l) e1) as (bs & e' & -> & Hb & Hi); [cbn in Hl; lia|done|done|].
  exists (l :: bs), e'. cbn [concat]. rewrite <- app_assoc. split; [done|]. split; [|by constructor].
  unfold lengths_of in *. cbn [fmap list_fmap]. by rewrite H1, <- Hb.
Qed.

(** The lengths, split by tables. *)
Definition lengths_fit (mb : Z) (rows : list Z) (groups : list (list Z)) : Prop :=
  Forall2 (fun size group => Z.of_nat (length group) = mb ∧ size ≤ 2 ^ 32 ∧ Forall (fun len => 0 ≤ len < size) group) rows groups.

Lemma tables_generated (mb : Z) (rows : list Z) (groups : list (list Z)) : lengths_fit mb rows groups → ∀ rest acc (e : E),
  ∃ ids_ e', rfold (fun st size => rfold (next_batch gen size) st (range mb)) (concat groups ++ rest, acc, e) rows =
      Ok (rest, acc ++ concat ((fun bs => concat bs) <$> ids_), e') ∧
    Forall2 (fun group bs => lengths_of bs = group) groups ids_ ∧
    Forall2 (fun size bs => Forall (Forall (fun i => 0 ≤ i < size)) bs) rows ids_.
Proof.
  induction 1 as [|size group rows groups (Hl & Hs & Hg) _ IH]; intros rest acc e; cbn [rfold concat].
  { exists [], e. cbn. rewrite app_nil_r. split; [done|]. split; constructor. }
  rewrite <- app_assoc.
  destruct (batches_generated size group (range mb) (concat groups ++ rest) acc e) as (bs & e1 & -> & H1 & H2);
    [rewrite length_range; lia|done|done|]. cbn [rbind].
  destruct (IH rest (acc ++ concat bs) e1) as (ids_ & e' & -> & H3 & H4). exists (bs :: ids_), e'.
  cbn [fmap list_fmap concat]. rewrite <- app_assoc. split; [done|]. split; by constructor.
Qed.

Lemma create_indices_spec (seed : Z) (info : TablesInfo.t) (mb : Z) (groups : list (list Z)) :
  lengths_fit mb (TablesInfo.table_rows_ info) groups →
  ∃ ids_, create_indices gen seed (IndicesInfo.make mb (concat groups)) info = Ok (concat ((fun bs => concat bs) <$> ids_)) ∧
    Forall2 (fun group bs => lengths_of bs = group) groups ids_ ∧
    Forall2 (fun size bs => Forall (Forall (fun i => 0 ≤ i < size)) bs) (TablesInfo.table_rows_ info) ids_.
Proof.
  intros Hg. unfold create_indices. cbn [IndicesInfo.make IndicesInfo.minibatch_sizes_ IndicesInfo.lengths_].
  destruct (tables_generated mb _ groups Hg [] [] (seeded seed)) as (ids_ & e' & Hf & H1 & H2).
  rewrite app_nil_r in Hf. exists ids_. by rewrite Hf.
Qed.

(** A table with as many lookups as rows in some batch is refused, although the rows
    could be looked up. *)
Lemma too_many_lookups (seed size : Z) (lens : list Z) (info : TablesInfo.t) (mb : Z) (rows : list Z) :
  TablesInfo.table_rows_ info = size :: rows → 0 < mb → size ≤ default 0 (head lens) → lens ≠ [] →
  create_indices gen seed (IndicesInfo.make mb lens) info = Err LogicError.
Proof.
  intros Hr Hmb Hs Hn. unfold create_indices. rewrite Hr. cbn [IndicesInfo.make IndicesInfo.minibatch_sizes_ IndicesInfo.lengths_ rfold].
  unfold range at 1. destruct (Z.to_nat mb) as [|n] eqn:En; [lia|]. cbn [seq fmap list_fmap rfold].
  destruct lens as [|len lens]; [done|]. cbn [head default from_option] in Hs. cbn in Hs. unfold next_batch at 1.
  by rewrite (proj2 (Z.leb_le size len)) by done.
Qed.

(** A generator that draws the indices of a batch one by one, for the elements of [flat]. *)
Context {X : Type} (next : E → X → Z * E) (flat : Z → Z → list X).
Context (Hflat : ∀ size len e, 0 ≤ len < size → size ≤ 2 ^ 32 → gen size len e = draw next e (flat size len)).

Lemma batches_draw (size : Z) (group : list Z) : ∀ (ids rest acc : list Z) (e : E),
  length ids = length group → size ≤ 2 ^ 32 → Forall (fun len => 0 ≤ len < size) group →
  rfold (next_batch gen size) (group ++ rest, acc, e) ids =
  Ok (rest, acc ++ (draw next e (group ≫= flat size)).1, (draw next e (group ≫= flat size)).2).
Proof.
  induction group as [|len group IH]; intros [|i ids] rest acc e Hl Hs Hg; try done; cbn [rfold app].
  { cbn. by rewrite app_nil_r. }
  apply Forall_cons in Hg as [Hlen Hg]. cbn [next_batch]. rewrite (proj2 (Z.leb_gt size len)) by lia.
  rewrite Hflat by lia. rewrite bind_cons, draw_app. destruct (draw next e (flat size len)) as [l e1]. cbn [rbind fst snd].
  rewrite IH by (done || cbn in Hl; lia). by rewrite <- app_assoc.
Qed.

Lemma tables_draw (mb : Z) (rows : list Z) (groups : list (list Z)) : lengths_fit mb rows groups → ∀ rest acc (e : E),
  let xs := concat (zip_with (fun size group => group ≫= flat size) rows groups) in
  rfold (fun st size => rfold (next_batch gen size) st (range mb)) (concat groups ++ rest, acc, e) rows =
  Ok (rest, acc ++ (draw next e xs).1, (draw next e xs).2).
Proof.
  induction 1 as [|size group rows groups (Hl & Hs & Hg) _ IH]; intros rest acc e; cbv zeta; cbn [rfold concat zip_with].
  { cbn. by rewrite app_nil_r. }
  rewrite <- app_assoc, batches_draw by (done || rewrite length_range; lia). cbn [rbind].
  rewrite draw_app, IH. cbn [fst snd]. by rewrite <- app_assoc.
Qed.

Lemma create_indices_draw (seed : Z) (info : TablesInfo.t) (mb : Z) (groups : list (list Z)) :
  lengths_fit mb (TablesInfo.table_rows_ info) groups →
  create_indices gen seed (IndicesInfo.make mb (concat groups)) info =
  Ok (draw next (seeded seed) (concat (zip_with (fun size group => group ≫= flat size) (TablesInfo.table_rows_ info) groups))).1.
Proof.
  intros Hg. unfold create_indices. cbn [IndicesInfo.make IndicesInfo.minibatch_sizes_ IndicesInfo.lengths_].
  pose proof (tables_draw mb _ groups Hg [] [] (seeded seed)) as Hf. rewrite app_nil_r in Hf. cbv zeta in Hf. by rewrite Hf.
Qed.
End indices.

Section index_contents.
Context {E : Type} `{UniformLaws E}.

Lemma generate_n_draw {X} (next : E → Z * E) (xs : list X) : ∀ e,
  generate_n (length xs) next e = draw (fun e _ => next e) e xs.
Proof.
  induction xs as [|x xs IH]; intros e; cbn [length generate_n draw]; [done|].
  destruct (next e) as [v e1]. by rewrite IH.
Qed.

(** Random indices: for every lookup one draw below the number of rows of its table. *)
Lemma random_indices_drawn (seed : Z) (info : TablesInfo.t) (mb : Z) (groups : list (list Z)) :
  lengths_fit mb (TablesInfo.table_rows_ info) groups →
  create_indices RandomIndicesGen seed (IndicesInfo.make mb (concat groups)) info =
  Ok (draw (fun e size => uni 0 (size - 1) e) (seeded seed) (lookups (TablesInfo.table_rows_ info) groups)).1.
Proof.
  intros Hg. apply (create_indices_draw RandomIndicesGen (fun e size => uni 0 (size - 1) e)
    (fun size len => replicate (Z.to_nat len) size)); [|done].
  intros size len e Hl Hs. unfold RandomIndicesGen. rewrite <- (length_replicate (Z.to_nat len) size) at 1.
  rewrite generate_n_draw. apply draw_ext.
  intros e' x [-> _]%elem_of_replicate. unfold u32. by rewrite Z.mod_small by lia.
Qed.

(** Sequential indices: the rows from the first in every batch. *)
Lemma sequential_indices_drawn (seed : Z) (info : TablesInfo.t) (mb : Z) (groups : list (list Z)) :
  lengths_fit mb (TablesInfo.table_rows_ info) groups →
  create_indices (SequentialIndicesGen (E:=E)) seed (IndicesInfo.make mb (concat groups)) info =
  Ok (concat groups ≫= range).
Proof.
  assert (Hid : ∀ (xs : list Z) (e : E), draw (fun e i => (i, e)) e xs = (xs, e)).
  { induction xs as [|x xs IH]; intros e; cbn [draw]; [done|]. by rewrite IH. }
  intros Hg. rewrite (create_indices_draw SequentialIndicesGen (fun (e : E) i => (i, e)) (fun _ len => range len)).
  - rewrite Hid. cbn [fst]. f_equal. clear -Hg. induction Hg as [|size group rows groups _ _ IH]; [done|].
    cbn [zip_with concat]. by rewrite IH, bind_app.
  - intros size len e _ _. by rewrite Hid.
  - done.
Qed.
End index_contents.

(** ** Numbers of lookups *)
Section lengths_laws.
Context {E : Type} `{UniformLaws E}.

Lemma append_tables_spec (next : E → Z → list Z * E) (mb : nat) (P : Z → Z → Prop) (ids : list Z) : ∀ acc e,
  (∀ e t, t ∈ ids → length (next e t).1 = mb ∧ Forall (P t) (next e t).1) →
  ∃ groups e', fold_left (append_table next) ids (acc, e) = (acc ++ concat groups, e') ∧
    Forall2 (fun t group => length group = mb ∧ Forall (P t) group) ids groups.
Proof.
  induction ids as [|t ids IH]; intros acc e Hn; cbn [fold_left]; [exists [], e; rewrite app_nil_r; by split|].
  destruct (Hn e t) as [H1 H2]; [left|]. unfold append_table at 2. cbn [fst snd].
  destruct (next e t) as [l e1]. cbn [fst] in *.
  destruct (IH (acc ++ l) e1) as (gs & e' & -> & Hg); [intros; apply Hn; by right|].
  exists (l :: gs), e'. cbn [concat]. rewrite <- app_assoc. split; [done|]. by constructor.
Qed.

(** Every [type_]-th table gets lookups that do not fit the instruction buffer, the
    others a number between the bounds. *)
Lemma random_lengths_overflow (tp : Constants) (type_ seed num_tables : Z) (lo : option Z) (hi mb : Z) :
  0 < InstructionSize tp → 0 ≤ InstBufSize tp < 2 ^ 31 → 0 < mb → 0 < type_ →
  0 ≤ real_min_num_lookup lo hi ≤ hi → hi < 2 ^ 32 →
  ∃ groups, RandomLengthsGen tp type_ seed num_tables lo hi mb = concat groups ∧
    Forall2 (fun t group => length group = Z.to_nat mb ∧
      Forall (fun len => if (t + 1) mod type_ =? 0 then InstBufSize tp < len * mb * InstructionSize tp
                         else real_min_num_lookup lo hi ≤ len ≤ hi) group) (range num_tables) groups.
Proof.
  intros Hi Hb Hmb Ht Hlo Hhi. unfold RandomLengthsGen. destruct (uni 0 _ (seeded seed)) as [id e].
  destruct (append_tables_spec (fun e t => table_lengths tp type_ id (real_min_num_lookup lo hi) hi mb t e) (Z.to_nat mb)
    (fun t len => if (t + 1) mod type_ =? 0 then InstBufSize tp < len * mb * InstructionSize tp
                  else real_min_num_lookup lo hi ≤ len ≤ hi) (range num_tables) [] e) as (gs & e' & -> & Hg).
  - intros e0 t _. unfold table_lengths. rewrite (proj2 (Z.eqb_neq type_ 0)), (proj2 (Z.eqb_neq type_ (-1))), (proj2 (Z.ltb_lt 0 type_)) by lia.
    apply generate_n_spec. intros e1. destruct ((t + 1) mod type_ =? 0); cbn [fst].
    + unfold single_batch_lookups_min. set (n := InstBufSize tp / InstructionSize tp).
      assert (0 ≤ n ≤ InstBufSize tp) by (unfold n; split; [apply Z.div_pos|apply Z.div_le_upper_bound]; nia).
      assert (0 ≤ n / mb ≤ n) by (split; [apply Z.div_pos|apply Z.div_le_upper_bound]; nia).
      unfold u32. rewrite Z.mod_small by lia.
      pose proof (Z.mul_succ_div_gt n mb ltac:(lia)). pose proof (Z.mul_succ_div_gt (InstBufSize tp) (InstructionSize tp) ltac:(lia)) as Hd.
      fold n in Hd. nia.
    + unfold u32. rewrite !Z.mod_small by lia. apply uni_range. lia.
  - by exists gs.
Qed.

(** All batches of a table get the same number of lookups. *)
Lemma duplicate_lengths (seed num_tables : Z) (lo : option Z) (hi mb : Z) :
  0 ≤ real_min_num_lookup lo hi ≤ hi → hi < 2 ^ 32 → 0 ≤ num_tables →
  ∃ lookups, DuplicateRandomLengthsGen seed num_tables lo hi mb = (lookups ≫= replicate (Z.to_nat mb)) ∧
    Z.of_nat (length lookups) = num_tables ∧ Forall (fun len => real_min_num_lookup lo hi ≤ len ≤ hi) lookups.
Proof.
  intros Hlo Hhi Hn. unfold DuplicateRandomLengthsGen, u32. rewrite !Z.mod_small by lia.
  destruct (generate_n_spec (fun len => real_min_num_lookup lo hi ≤ len ≤ hi) (uni (real_min_num_lookup lo hi) hi) (Z.to_nat num_tables) (seeded seed))
    as [H1 H2]; [intros e; apply uni_range; lia|]. destruct (generate_n _ _ _) as [l e]. cbn [fst] in *.
  exists l. split; [done|]. split; [lia|done].
Qed.
End lengths_laws.

(** ** The numbers of lookups that are drawn *)

(** The tables that get more lookups than the instruction buffer has room for: none, the
    table [chosen], or every [type_]-th; and how many they get, as a [uint32_t]. *)
Definition overflow_lookups (tp : Constants) (type_ chosen mb t : Z) : option Z :=
  if type_ =? 0 then None
  else if type_ =? -1 then
    if chosen =? t then Some (u32 (InstBufSize tp / NumOfInstBuf tp / InstructionSize tp - 1)) else None
  else if (t + 1) mod type_ =? 0 then Some (u32 (InstBufSize tp / InstructionSize tp / mb + 1)) else None.

Section lengths_drawn.
Context {E : Type} `{UniformLaws E}.

Definition random_lengths (tp : Constants) (type_ seed num_tables lo hi mb : Z) : list Z :=
  let batches : list Z := range num_tables ≫= replicate (Z.to_nat mb) in
  let (chosen, e) := uni 0 (num_tables - 1) (seeded seed : E) in
  (draw (fun e t => match overflow_lookups tp type_ chosen mb t with Some v => (v, e) | None => uni lo hi e end) e batches).1.

Definition duplicate_random_lengths (seed num_tables lo hi mb : Z) : list Z :=
  (draw (fun (e : E) _ => uni lo hi e) (seeded seed) (range num_tables)).1 ≫= replicate (Z.to_nat mb).

Lemma append_tables_draw (next : E → Z → list Z * E) (g : E → Z → Z * E) (mb : nat) (ids : list Z) : ∀ acc e,
  (∀ e t, next e t = draw g e (replicate mb t)) →
  fold_left (append_table next) ids (acc, e) =
  (acc ++ (draw g e (ids ≫= replicate mb)).1, (draw g e (ids ≫= replicate mb)).2).
Proof.
  induction ids as [|t ids IH]; intros acc e Hn; cbn [fold_left]; [cbn; by rewrite app_nil_r|].
  unfold append_table at 2. cbn [fst snd]. rewrite Hn, bind_cons, draw_app.
  destruct (draw g e (replicate mb t)) as [l e1]. rewrite IH by done. cbn [fst snd]. by rewrite <- app_assoc.
Qed.

Lemma random_lengths_drawn (tp : Constants) (type_ seed num_tables lo hi mb : Z) :
  -1 ≤ type_ → 0 < num_tables < 2 ^ 32 → 0 ≤ lo < 2 ^ 32 → 0 ≤ hi < 2 ^ 32 →
  RandomLengthsGen tp type_ seed num_tables (Some lo) hi mb = random_lengths tp type_ seed num_tables lo hi mb.
Proof.
  intros Ht Hn Hlo Hhi. unfold RandomLengthsGen, random_lengths. cbv zeta.
  replace (u32 (u64 (num_tables - 1))) with (num_tables - 1)
    by (unfold u64, u32; rewrite (Z.mod_small _ (2 ^ 64)), Z.mod_small; lia).
  destruct (uni 0 (num_tables - 1) (seeded seed)) as [chosen e]. cbn [real_min_num_lookup default from_option].
  erewrite append_tables_draw; [reflexivity|]. intros e' t. unfold table_lengths. cbn.
  assert (Hu : ∀ x, 0 ≤ x < 2 ^ 32 → u32 x = x) by (intros x Hx; unfold u32; by rewrite Z.mod_small).
  rewrite (Hu lo), (Hu hi) by lia.
  set (n := Z.to_nat mb). assert (Hrep : n = length (replicate n t)) by by rewrite length_replicate.
  unfold overflow_lookups. destruct (Z.eqb_spec type_ 0) as [->|Hz].
  { rewrite Hrep at 1; rewrite generate_n_draw. apply draw_ext. intros e1 x [-> _]%elem_of_replicate. done. }
  destruct (Z.eqb_spec type_ (-1)) as [->|Hm].
  { rewrite Hrep at 1; rewrite generate_n_draw. apply draw_ext. intros e1 x [-> _]%elem_of_replicate. by destruct (chosen =? t). }
  rewrite (proj2 (Z.ltb_lt 0 type_)) by lia. rewrite Hrep at 1; rewrite generate_n_draw. apply draw_ext.
  intros e1 x [-> _]%elem_of_replicate. by destruct ((t + 1) mod type_ =? 0).
Qed.

Lemma duplicate_lengths_drawn (seed num_tables lo hi mb : Z) :
  0 ≤ lo < 2 ^ 32 → 0 ≤ hi < 2 ^ 32 →
  DuplicateRandomLengthsGen seed num_tables (Some lo) hi mb = duplicate_random_lengths seed num_tables lo hi mb.
Proof.
  intros Hlo Hhi. unfold DuplicateRandomLengthsGen, duplicate_random_lengths. cbn [real_min_num_lookup default from_option].
  unfold u32. cbn. rewrite !Z.mod_small by lia.
  rewrite <- (length_range num_tables), generate_n_draw. by destruct (draw _ _ _).
Qed.
End lengths_drawn.

(** The entries of [NumericEntry]: every row of [s] entries has the next number from 1 to
    [k], and from 1 again. *)
Lemma numeric_drawn (k s : Z) (ps : list (Z * Z * Z)) : ∀ i st,
  0 < k < 2 ^ 32 → 0 < s → 0 ≤ i → i + Z.of_nat (length ps) < 2 ^ 64 →
  counter_ st = i → feature_id_ st = (i + s - 1) / s →
  (i mod s ≠ 0 → sparse_feature_part_ st = i / s mod k + 1) →
  (draw (entry_at (NumericEntry k s)) st ps).1 = imap (fun j _ => (i + Z.of_nat j) / s mod k + 1) ps.
Proof.
  induction ps as [|p ps IH]; intros i [f c v] Hk Hs Hi Hl Hc Hf Hp; [done|]. cbn [length counter_ feature_id_ sparse_feature_part_] in *. subst c f.
  cbn [draw]. unfold entry_at at 1, NumericEntry at 1. cbn [counter_ feature_id_ sparse_feature_part_].
  pose proof (Z.div_mod i s ltac:(lia)) as Hdm. pose proof (Z.mod_pos_bound i s Hs) as Hmb.
  assert (Hq : 0 ≤ i / s ≤ i) by (split; [apply Z.div_pos; lia|apply Z.div_le_upper_bound; nia]).
  assert (Hlast : (i + 1) mod s ≠ 0 → (i + 1) / s = i / s).
  { intros Hne. pose proof (Z.div_mod (i + 1) s ltac:(lia)). pose proof (Z.mod_pos_bound (i + 1) s Hs). nia. }
  assert (Hceil : (i + 1 + s - 1) / s = i / s + 1) by (replace (i + 1 + s - 1) with (i + 1 * s) by lia; rewrite Z.div_add; lia).
  set (st' := if i mod s =? 0 then _ else _).
  assert (Hst : feature_id_ st' = i / s + 1 ∧ counter_ st' = i ∧ sparse_feature_part_ st' = i / s mod k + 1).
  { unfold st'. destruct (Z.eqb_spec (i mod s) 0) as [E0|Hne]; cbn [counter_ feature_id_ sparse_feature_part_].
    - assert (E : (i + s - 1) / s = i / s).
      { symmetry. apply (Z.div_unique _ _ _ (s - 1)); lia. }
      rewrite E, u64_small by lia. pose proof (Z.mod_pos_bound (i / s) k ltac:(lia)).
      unfold u32. rewrite Z.mod_small by lia. done.
    - split; [|split; [done|by apply Hp]]. symmetry. apply (Z.div_unique _ _ _ (i mod s - 1)); lia. }
  destruct Hst as (E1 & E2 & E3). rewrite E1, E2, E3, u64_small by lia.
  pose proof (IH (i + 1) (mkNumeric (i / s + 1) (i + 1) (i / s mod k + 1)) Hk Hs ltac:(lia) ltac:(lia) eq_refl) as Hn.
  cbn [feature_id_ sparse_feature_part_] in Hn.
  specialize (Hn (eq_sym Hceil)). specialize (Hn (fun Hne => ltac:(by rewrite Hlast))).
  destruct (draw _ _ ps) as [l st2]. cbn [fst] in *. rewrite Hn. cbn [imap]. rewrite Z.add_0_r. f_equal.
  apply imap_ext. intros j x _. cbn [compose]. do 2 f_equal. f_equal. lia.
Qed.

(** ** Golden sums *)
Lemma requests_of (cols mb : nat) (rows : list Z) (ts ids : list (list (list Z))) (groups : list (list Z)) :
  Forall2 (fun n t => Z.of_nat (length t) = n ∧ table_rows (Z.of_nat cols) t) rows ts →
  Forall2 (fun group bs => lengths_of bs = group) groups ids →
  Forall2 (fun size bs => Forall (Forall (fun i => 0 ≤ i < size)) bs) rows ids →
  Forall (fun group => length group = mb) groups →
  let qs := zip ts ids in
  Forall (CpuSls.request_ok cols mb) qs ∧ rows_counts qs = rows ∧
  all_words qs = concat ((fun t => concat t) <$> ts) ∧ all_indices qs = concat ((fun bs => concat bs) <$> ids) ∧
  all_lengths qs = concat groups.
Proof.
  intros Ht. revert ids groups. induction Ht as [|n t rows ts [Hn Hr] _ IH]; intros [|b ids] groups Hg Hi Hm; inversion Hi as [|? ? ? ? Hi1 Hi2]; subst.
  { inversion Hg; subst. by split; [constructor|]. }
  inversion Hg as [|g ? groups' ? Eg Hg']; subst. apply Forall_cons in Hm as [Hm1 Hm].
  destruct (IH ids groups' Hg' Hi2 Hm) as (H1 & H2 & H3 & H4 & H5). cbv zeta in *. cbn [zip zip_with].
  split.
  - constructor; [|exact H1]. split; cbn [fst snd].
    + eapply Forall_impl; [exact Hr|]. intros r [Hl _]. lia.
    + split; [|done]. unfold lengths_of in Hm1. by rewrite length_fmap in Hm1.
  - unfold rows_counts, all_words, all_indices, all_lengths in *. cbn [fmap list_fmap concat fst snd].
    by rewrite H2, H3, H4, H5.
Qed.

Lemma Forall_concat {A} (P : A → Prop) (ls : list (list A)) : Forall (Forall P) ls → Forall P (concat ls).
Proof. induction 1 as [|l ls Hl _ IH]; cbn [concat]; [constructor|]. by apply Forall_app. Qed.

(** The words of the generated tables and indices fit the files. *)
Lemma generated_words (cols : Z) (rows : list Z) (ts ids : list (list (list Z))) :
  Forall2 (fun n t => Z.of_nat (length t) = n ∧ table_rows cols t) rows ts →
  Forall (fun n => n ≤ 2 ^ 32) rows →
  Forall2 (fun size bs => Forall (Forall (fun i => 0 ≤ i < size)) bs) rows ids →
  words (concat ((fun t => concat t) <$> ts)) ∧ words (concat ((fun bs => concat bs) <$> ids)).
Proof.
  intros Ht Hr Hi. split; apply Forall_concat, Forall_fmap.
  - clear -Ht. induction Ht as [|n t rows ts [_ Ht] _ IH]; constructor; [|done].
    apply Forall_concat. eapply Forall_impl; [exact Ht|]. by intros r [_ ?].
  - clear -Hi Hr. induction Hi as [|n b rows ids Hb _ IH]; constructor.
    + apply Forall_cons in Hr as [Hn _]. apply Forall_concat. eapply Forall_impl; [exact Hb|]. intros l Hl.
      eapply Forall_impl; [exact Hl|]. cbv beta. lia.
    + apply IH. by apply Forall_cons in Hr as [_ ?].
Qed.

(** A generator whose entries are words, in the state it has. *)
Definition bounded {S} (gen : EntryGen S) : EntryGen S := fun s tid rid cid =>
  let (v, s) := gen s tid rid cid in (u32 v, s).

Lemma bounded_draw {S} (gen : EntryGen S) (ps : list (Z * Z * Z)) : ∀ s,
  words (draw (entry_at gen) s ps).1 → (draw (entry_at (bounded gen)) s ps).1 = (draw (entry_at gen) s ps).1.
Proof.
  induction ps as [|p ps IH]; intros s Hw; [done|]. cbn [draw] in *. unfold entry_at at 1, bounded at 1. unfold entry_at at 1 in Hw.
  unfold entry_at at 2. destruct (gen s p.1.1 p.1.2 p.2) as [v s1]. specialize (IH s1).
  destruct (draw (entry_at gen) s1 ps) as [l s2], (draw (entry_at (bounded gen)) s1 ps) as [l' s2']. cbn [fst] in *.
  apply Forall_cons in Hw as [Hv Hw]. cbv beta in Hv. rewrite IH by done. unfold u32. by rewrite Z.mod_small.
Qed.

(**  The SLS generators fit together.  For every entry generator, every
    generator of indices, seed and engine, and every shape of tables and lengths in which
    a batch has fewer lookups than its table has rows: tables and indices are generated;
    they are the words of tables of the promised shape and valid rows of them, batch by
    batch as many as the lengths say; and the golden vector that is computed from the
    stored files holds, for every table and batch, the sum of the rows that are looked
    up. *)
Theorem golden_is_sums {S} (entry : EntryGen S) (start : S) {E} `{UniformLaws E} (gen : BatchGen (E:=E)) `{!BatchGenLaws gen}
    (seed : Z) (info : TablesInfo.t) (mb : Z) (groups : list (list Z)) :
  let entries := (draw (entry_at entry) start (positions (TablesInfo.table_rows_ info) (TablesInfo.cols_ info))).1 in
  words entries → 0 ≤ mb → 0 ≤ TablesInfo.cols_ info → Forall (Z.le 0) (TablesInfo.table_rows_ info) →
  TablesInfo.num_tables_ info = Z.of_nat (length (TablesInfo.table_rows_ info)) →
  lengths_fit mb (TablesInfo.table_rows_ info) groups →
  let indices_info := IndicesInfo.make mb (concat groups) in
  ∃ indices qs,
    create_tables entry start info = Ok (bytes_of_words (all_words qs)) ∧ all_words qs = entries ∧
    create_indices gen seed indices_info info = Ok indices ∧
    indices = all_indices qs ∧ rows_counts qs = TablesInfo.table_rows_ info ∧ all_lengths qs = concat groups ∧
    Forall (CpuSls.request_ok (Z.to_nat (TablesInfo.cols_ info)) (Z.to_nat mb)) qs ∧
    compute_golden_sls (bytes_of_words (all_words qs)) info (bytes_of_words indices) indices_info =
      Ok (bytes_of_words (all_sums (Z.to_nat (TablesInfo.cols_ info)) id qs)).
Proof.
  intros entries Hent Hmb Hcols Hrows Hnum Hfit. cbv zeta.
  assert (Hbd : ∀ s tid rid cid, 0 ≤ (bounded entry s tid rid cid).1 < 2 ^ 32).
  { intros s tid rid cid. unfold bounded. destruct (entry s tid rid cid) as [v s']. apply Z.mod_pos_bound. lia. }
  destruct (create_tables_spec (bounded entry) Hbd start info Hcols Hrows Hnum) as (ts & Htb & Hts).
  destruct (create_indices_spec gen seed info mb groups Hfit) as (ids & Hi & Hl & Hids).
  assert (Hr : Forall (fun n => n ≤ 2 ^ 32) (TablesInfo.table_rows_ info))
    by (eapply Forall2_Forall_l; [exact Hfit|]; apply Forall_forall; by intros g _ n (_ & ? & _)).
  assert (Hg : Forall (fun group => length group = Z.to_nat mb) groups)
    by (eapply Forall2_Forall_r; [exact Hfit|]; apply Forall_forall; intros n _ g (? & _); lia).
  destruct (generated_words _ _ _ _ Hts Hr Hids) as [Hw1 Hw2].
  rewrite create_tables_draw, bounded_draw in Htb by done. injection Htb as Hbytes. fold entries in Hbytes.
  assert (Heq : concat ((fun t => concat t) <$> ts) = entries).
  { rewrite <- (words_bytes_roundtrip _ Hw1), <- Hbytes. by apply words_bytes_roundtrip. }
  assert (Ht : create_tables entry start info = Ok (bytes_of_words entries)) by by apply create_tables_draw.
  rewrite <- (Z2Nat.id (TablesInfo.cols_ info)) in Hts by done.
  destruct (requests_of _ (Z.to_nat mb) _ ts ids groups Hts Hl Hids Hg) as (Hq & Hrc & Haw & Hai & Hal).
  exists (all_indices (zip ts ids)), (zip ts ids). rewrite Ht, Hi, Haw, Hai, Heq. split_and!; try done.
  unfold compute_golden_sls. cbn [IndicesInfo.make IndicesInfo.minibatch_sizes_ IndicesInfo.lengths_].
  rewrite !words_bytes_roundtrip by done. rewrite <- Heq, <- Haw, <- Hai, <- Hal, <- Hrc.
  rewrite <- (Z2Nat.id (TablesInfo.cols_ info)) at 1 2 by done. rewrite <- (Z2Nat.id mb) at 1 2 by done.
  rewrite compute_spec; [done|done|]. rewrite length_replicate, Hnum.
  assert (length (zip ts ids) = length (TablesInfo.table_rows_ info)) as -> by (rewrite <- Hrc; unfold rows_counts; by rewrite length_fmap).
  rewrite !Z2Nat.id by done. nia.
Qed.

