(* ===== verification/SecureDevice.v ===== *)
(** * The untrusted device of the secure executor

    secure/plain/device/untrusted_sls.h ([UntrustedDevice<uint32_t>]): a device of the
    secure executor that runs an SLS operation through the library.  On the CXL
    simulator it computes what the CPU device computes on the same tables, and the
    secure executor over it returns the sums of the plain rows. *)
From S2P Require Import Prelude Text Topology RankAddress WordMemory DeviceMemory InstGenerator RankMemory ExecutionGenerator TraceGenerator SparseReduction SlsSimulator AxdimmProofs Allocators Views Aes Secure CpuSls SecureExecutor SecureRun SlsDevice SlsRunner CxlRun CxlOperation.

Module UntrustedDevice.
(** [tables_] is the layout of the embedding tables, or null before they are loaded;
    the world is the context with its device and the memory of the process.  The caller's psum buffer is at
    [psum_at] in that memory. *)
Record t (K : Type) := mk {
  rows_ : list Z;
  sparse_feature_size_ : Z;
  with_tag_ : bool;
  tables_ : option RankMemory.packs_to_objects;
  psum_at : Z;
  machine_ : world unit K
}.
Arguments mk {K}.
Arguments rows_ {K}.
Arguments sparse_feature_size_ {K}.
Arguments with_tag_ {K}.
Arguments tables_ {K}.
Arguments psum_at {K}.
Arguments machine_ {K}.

Section device.
Context {K : Type} {D : CunitDriver K} (tp : Constants) (bufs : buffers) (fuel : nat).
Context (DEBUG : bool) (schedule : list Z → list Z) (SLS_BUF_DIVIDER : option (Z * positive)).

(** The context is made first, then the parameters are kept; [with_tag] is refused on
    CXL devices at the end. *)
Definition init_impl (d : t K) (rows : list Z) (sparse_feature_size : Z) (with_tag : bool) : result (t K) :=
  let d := mk rows sparse_feature_size with_tag (tables_ d) (psum_at d) (machine_ d) in
  if with_tag && bool_decide (Bus tp = CXL) then Err InvalidArguments else Ok d.

(** The operation of a run: the constructor of [SlsOperation] and [set_run_params], both
    of which check their arguments. *)
Definition sls_op (d : t K) (minibatch_size : Z) (lengths indices : list Z) (psum_bytes : Z) : result SlsOperation.t :=
  let! op := SlsOperation.make (u32 (sparse_feature_size_ d)) (rows_ d) (tables_ d)
               (if with_tag_ d then SlsOperation.Uint32Tagged else SlsOperation.Uint32) in
  let (op, checked) := SlsOperation.set_run_params DEBUG op minibatch_size lengths indices (psum_at d) psum_bytes in
  let! _ := checked in Ok op.

(** The words of the psum buffer. *)
Definition psum_words (m : memory) (at_ : Z) (n : nat) : list Z :=
  (fun k => load32 m (at_ + 4 * Z.of_nat k)) <$> seq 0 n.

(** Every exception of the checks or of the run becomes a [Failure]; the world after it
    is returned too. *)
Definition run_impl (d : t K) (minibatch_size : Z) (lengths indices psum : list Z) : world unit K * result (list Z) :=
  let (w, r) :=
    match sls_op d minibatch_size lengths indices (4 * Z.of_nat (length psum)) with
    | Ok op =>
        match channelwise_dispatch tp bufs fuel DEBUG schedule SLS_BUF_DIVIDER op (machine_ d) with
        | (w, Ok _) => (w, Ok (psum_words (mem w) (psum_at d) (length psum)))
        | (w, Err e) => (w, Err e)
        end
    | Err e => (machine_ d, Err e)
    end in
  (w, match r with Ok psum => Ok psum | Err e => Err (if is_exception e then Failure else e) end).

(** The interface of the executor.  [load_impl] creates embedding tables, which Buffers
    models on its own; it is an argument here, and the theorems on a run say where the
    tables are afterwards. *)
#[export] Instance device (load_impl : t K → list Z → result (t K)) : IDevice (t K) := {|
  CpuSls.device_load := load_impl;
  CpuSls.device_run d mb lengths indices psum := (run_impl d mb lengths indices psum).2
|}.
End device.
End UntrustedDevice.

(** ** secure/plain/sls.h and secure/shared/sls_runner_factory.cpp *)
Module SecureRunner.
(** [std::from_chars] for an [unsigned] in base 10: the value, or no value where no
    digit is read or the number is too large, and the characters that are left. *)
Definition from_chars (s : list Z) : option Z * list Z :=
  let (v, rest) := read_digits s false 0 in
  (match v with Some x => if x <? 2 ^ 32 then Some x else None | None => None end, rest).

Definition DEFAULT_THREAD_COUNT : Z := 8.

(** [env] is the value of [SLS_OTP_NUM_THREADS]. *)
Definition get_thread_count (env : option (list Z)) : result Z :=
  match env with
  | None => Ok DEFAULT_THREAD_COUNT
  | Some s =>
      match from_chars s with
      | (None, _) => Err InvalidArguments
      | (Some _, _ :: _) => Err InvalidArguments
      | (Some v, []) => Ok v
      end
  end.

(** The entries of a runner: [RunnerType::INT] and [RunnerType::FLOAT]. *)
Inductive value_type := int32 | uint32.

Definition make_runner (type : Z) : result value_type :=
  if type =? 0 then Ok int32 else if type =? 1 then Ok uint32 else Err NotSupported.

(** The thread count that was written to the environment is read back; a count with
    anything behind it is refused. *)
Lemma get_thread_count_digits (v : Z) (rest : list Z) :
  0 ≤ v < 2 ^ 32 → (match rest with c :: _ => ¬ (48 ≤ c ≤ 57) | [] => True end) →
  get_thread_count (Some (digits 10 v ++ rest)) = match rest with [] => Ok v | _ => Err InvalidArguments end.
Proof.
  intros Hv Hr. destruct (digits_value 10 v) as (H1 & H2 & H3); [lia|]. unfold get_thread_count, from_chars.
  rewrite read_digits_app, H3 by done. rewrite bool_decide_eq_true_2 by (apply H2; lia). cbn [orb].
  destruct rest as [|c rest]; cbn [read_digits].
  - by rewrite (proj2 (Z.ltb_lt v _)) by lia.
  - replace ((48 <=? c) && (c <=? 57)) with false by (symmetry; apply andb_false_iff; lia).
    by rewrite (proj2 (Z.ltb_lt v _)) by lia.
Qed.
End SecureRunner.

(** ** Flat lists of batches *)
Lemma lookup_concat_rows {A} (w : nat) (ls : list (list A)) : ∀ (i j : nat),
  Forall (fun l => length l = w) ls → (j < w)%nat → concat ls !! (i * w + j)%nat = (ls !! i) ≫= (.!! j).
Proof.
  induction ls as [|l ls IH]; intros i j HF Hj; [done|]. apply Forall_cons in HF as [Hl HF]. cbn [concat].
  destruct i as [|i].
  - cbn. by rewrite lookup_app_l by lia.
  - rewrite lookup_app_r by lia. replace (S i * w + j - length l)%nat with (i * w + j)%nat by lia.
    by rewrite IH.
Qed.

Lemma lookup_concat_at {A} (ls : list (list A)) : ∀ (k l : nat) (x : list A),
  ls !! k = Some x → (l < length x)%nat →
  concat ls !! (sum_list_with length (take k ls) + l)%nat = x !! l.
Proof.
  induction ls as [|y ls IH]; intros k l x Hk Hl; [done|]. cbn [concat]. destruct k as [|k]; cbn [lookup list_lookup] in Hk.
  - injection Hk as ->. cbn. by rewrite lookup_app_l.
  - cbn [take sum_list_with]. rewrite lookup_app_r by lia.
    replace (length y + sum_list_with length (take k ls) + l - length y)%nat
      with (sum_list_with length (take k ls) + l)%nat by lia. by apply IH.
Qed.

Section requests.
Context (n mb : nat) (qs : list request) (Hqs : Forall (request_ok n mb) qs).

(** All lookups, table by table and batch by batch. *)
Definition batches : list (list Z) := concat qs.*2.

Lemma indices_batches : all_indices qs = concat batches.
Proof.
  unfold all_indices, batches. clear Hqs. induction qs as [|q l IH]; [done|]. cbn. by rewrite concat_app, <- IH.
Qed.

Lemma lengths_batches : all_lengths qs = lengths_of batches.
Proof.
  unfold all_lengths, batches. clear Hqs. induction qs as [|q l IH]; [done|]. cbn. unfold lengths_of in *.
  by rewrite fmap_app, <- IH.
Qed.

Lemma batches_lookup (t b : nat) (q : request) (idx : list Z) :
  qs !! t = Some q → q.2 !! b = Some idx → (b < mb)%nat ∧ batches !! (t * mb + b)%nat = Some idx.
Proof.
  intros Hq Hidx. pose proof (Forall_lookup_1 _ _ _ _ Hqs Hq) as (_ & Hlen & _).
  pose proof (lookup_lt_Some _ _ _ Hidx). split; [lia|]. unfold batches. rewrite (lookup_concat_rows mb) by
    (first [lia|apply Forall_fmap; eapply Forall_impl; [exact Hqs|]; by intros r (_ & ? & _)]).
  rewrite list_lookup_fmap, Hq. done.
Qed.

(** Element [e] of row [r] of table [t]. *)
Definition table_word (t r e : Z) : Z :=
  match qs !! Z.to_nat t with Some q => entry (pick q.1 r) (Z.to_nat e) | None => 0 end.

Lemma lookup_sum_ok (q : request) (idx : list Z) : request_ok n mb q → idx ∈ q.2 →
  row_ok n (sum_rows n (pick q.1 <$> idx)) ∧
  ∀ j, (j < n)%nat → entry (sum_rows n (pick q.1 <$> idx)) j = u32 (column_sum (pick q.1 <$> idx) j).
Proof.
  intros (Hr & _ & Hi) Hin. apply sum_rows_spec. apply Forall_fmap, Forall_forall. intros i Hi0.
  apply (length_pick n); [done|]. exact (proj1 (Forall_forall _ _) (proj1 (Forall_forall _ _) Hi idx Hin) i Hi0).
Qed.

Lemma lookup_sums_width (q : request) : request_ok n mb q →
  Forall (fun l => length l = n) (lookup_sums n (fun i => pick q.1 i) q.2).
Proof.
  intros Hq. apply Forall_fmap, Forall_forall. intros l Hl. destruct (lookup_sum_ok q l Hq Hl) as [[Hln _] _]. exact Hln.
Qed.

Lemma sums_lookup (t b e : nat) (q : request) (idx : list Z) :
  qs !! t = Some q → q.2 !! b = Some idx → (e < n)%nat →
  all_sums n id qs !! ((t * mb + b) * n + e)%nat = Some (u32 (column_sum (pick q.1 <$> idx) e)).
Proof.
  intros Hq Hidx He. pose proof (Forall_lookup_1 _ _ _ _ Hqs Hq) as (Hr & Hlen & Hi).
  pose proof (lookup_lt_Some _ _ _ Hidx) as Hb.
  unfold all_sums. cbn [id].
  replace ((t * mb + b) * n + e)%nat with (t * (mb * n) + (b * n + e))%nat by lia.
  rewrite (lookup_concat_rows (mb * n)).
  - rewrite list_lookup_fmap, Hq. cbn [fmap option_fmap option_map option_bind mbind].
    change (concat (lookup_sums n (pick q.1) q.2) !! (b * n + e)%nat = Some (u32 (column_sum (pick q.1 <$> idx) e))).
    rewrite (lookup_concat_rows n) by (by first [apply lookup_sums_width; repeat split|lia]).
    unfold lookup_sums. rewrite list_lookup_fmap, Hidx.
    change (sum_rows n (pick q.1 <$> idx) !! e = Some (u32 (column_sum (pick q.1 <$> idx) e))).
    destruct (lookup_sum_ok q idx ltac:(by repeat split) ltac:(by eapply list_elem_of_lookup_2)) as [[Hln _] Hen].
    rewrite <- Hen by done. unfold entry. destruct (lookup_lt_is_Some_2 (sum_rows n (pick q.1 <$> idx)) e ltac:(lia)) as [x Hx].
    by rewrite Hx.
  - apply Forall_fmap. eapply Forall_impl; [exact Hqs|]. intros q' Hq'. cbn.
    rewrite (length_concat_rows n) by (by apply lookup_sums_width). unfold lookup_sums. rewrite length_fmap.
    destruct Hq' as (_ & -> & _). done.
  - nia.
Qed.

Lemma length_all_sums : length (all_sums n id qs) = (n * (mb * length qs))%nat.
Proof.
  unfold all_sums. cbn [id]. rewrite (length_concat_rows (mb * n)); [rewrite length_fmap; lia|].
  apply Forall_fmap. eapply Forall_impl; [exact Hqs|]. intros q Hq. cbn.
  rewrite (length_concat_rows n) by (by apply lookup_sums_width). unfold lookup_sums. rewrite length_fmap.
  by destruct Hq as (_ & -> & _).
Qed.
End requests.

(** ** The operation on requests *)
Section operation.
Context (n mb : nat) (qs : list request) (Hqs : Forall (request_ok n mb) qs).
Context (op : SlsOperation.t) (Hmb : SlsOperation.minibatch_size_ op = Z.of_nat mb).
Context (Hlen : SlsOperation.lengths_ op = all_lengths qs) (Hix : SlsOperation.indices_ op = all_indices qs).
Context (t b : nat) (q : request) (idx : list Z) (Hq : qs !! t = Some q) (Hidx : q.2 !! b = Some idx).

Lemma flat_nat : Z.to_nat (flat_batch op (Z.of_nat t, Z.of_nat b)) = (t * mb + b)%nat.
Proof. unfold flat_batch. cbn [fst snd]. rewrite Hmb. lia. Qed.

Lemma batch_lookups_eq : batch_lookups op (Z.of_nat t, Z.of_nat b) = Z.of_nat (length idx).
Proof.
  unfold batch_lookups. rewrite flat_nat, Hlen, lengths_batches. unfold lengths_of. rewrite list_lookup_fmap.
  by rewrite (proj2 (batches_lookup n mb qs Hqs t b q idx Hq Hidx)).
Qed.

Lemma sum_lengths_take (ls : list (list Z)) : ∀ k,
  sum_list_Z (take k (lengths_of ls)) = Z.of_nat (sum_list_with length (take k ls)).
Proof.
  induction ls as [|l ls IH]; intros [|k]; cbn; try done. unfold lengths_of in *. unfold sum_list_Z in *. cbn.
  rewrite IH. lia.
Qed.

Lemma lookup_row_eq (l : nat) (x : Z) :
  idx !! l = Some x → lookup_row op (Z.of_nat t, Z.of_nat b) (Z.of_nat l) = x.
Proof.
  intros Hx. unfold lookup_row, lookups_before. rewrite flat_nat, Hlen, lengths_batches, sum_lengths_take, Hix, indices_batches.
  replace (Z.to_nat (Z.of_nat (sum_list_with length (take (t * mb + b) (batches qs))) + Z.of_nat l))
    with (sum_list_with length (take (t * mb + b) (batches qs)) + l)%nat by lia.
  rewrite (lookup_concat_at _ _ _ idx).
  - by rewrite Hx.
  - by apply (batches_lookup n mb qs Hqs t b q).
  - by apply lookup_lt_Some in Hx.
Qed.

Lemma sls_sum_eq (e : nat) :
  sls_sum op (table_word qs) (Z.of_nat t, Z.of_nat b) (Z.of_nat e) = u32 (column_sum (pick q.1 <$> idx) e).
Proof.
  unfold sls_sum, column_sum. rewrite batch_lookups_eq. do 2 f_equal. unfold range. rewrite Nat2Z.id, <- !list_fmap_compose.
  apply list_eq_same_length with (length idx); [by rewrite length_fmap|by rewrite !length_fmap, length_seq|].
  intros i x y Hi. rewrite !list_lookup_fmap. rewrite lookup_seq_lt by done. cbn.
  destruct (lookup_lt_is_Some_2 idx i Hi) as [z Hz]. rewrite Hz. cbn. intros [= <-] [= <-].
  rewrite (lookup_row_eq i z Hz). unfold table_word. rewrite !Nat2Z.id, Hq. done.
Qed.
End operation.

(** The lookups of the requests are in their tables. *)
Lemma requests_lookups_ok (n mb : nat) (qs : list request) (op : SlsOperation.t) :
  Forall (request_ok n mb) qs → SlsOperation.minibatch_size_ op = Z.of_nat mb →
  SlsOperation.lengths_ op = all_lengths qs → SlsOperation.indices_ op = all_indices qs →
  SlsOperation.tables_sizes_ op = rows_counts qs → lookups_ok op.
Proof.
  intros Hqs Hmb Hlen Hix Hrows. split.
  - rewrite Hlen, Hix, lengths_batches, indices_batches.
    induction (batches qs) as [|l ls IH]; [done|]. unfold lengths_of, sum_list_Z in *. cbn. rewrite length_app. lia.
  - intros [t b] l [Ht Hb] Hl. cbn [fst snd] in *. unfold n_tables in Ht. rewrite Hrows in Ht. unfold rows_counts in Ht.
    rewrite length_fmap in Ht. rewrite Hmb in Hb.
    destruct (lookup_lt_is_Some_2 qs (Z.to_nat t) ltac:(lia)) as [q Hq].
    pose proof (Forall_lookup_1 _ _ _ _ Hqs Hq) as (_ & Hq2 & Hi).
    destruct (lookup_lt_is_Some_2 q.2 (Z.to_nat b) ltac:(lia)) as [idx Hidx].
    rewrite <- (Z2Nat.id t), <- (Z2Nat.id b) in Hl |- * by lia.
    rewrite (batch_lookups_eq n mb qs Hqs op Hmb Hlen _ _ q idx Hq Hidx) in Hl.
    destruct (lookup_lt_is_Some_2 idx (Z.to_nat l) ltac:(lia)) as [x Hx].
    rewrite <- (Z2Nat.id l) by lia. rewrite (lookup_row_eq n mb qs Hqs op Hmb Hlen Hix _ _ q idx Hq Hidx _ x Hx).
    unfold table_rows. rewrite Hrows, !Nat2Z.id. unfold rows_counts. rewrite list_lookup_fmap, Hq. cbn.
    exact (Forall_lookup_1 _ _ _ _ (Forall_lookup_1 _ _ _ _ Hi Hidx) Hx).
Qed.

(** ** The untrusted device on the CXL simulator *)
Section untrusted.
Context (tp : Constants) (mm : MemMap.t) (b : Z → CxlSimulatorCore.blocks) (bufs : buffers).
Context {K : Type} {D : CunitDriver K} {L : CunitLaws K (NumOfCUnits tp)}.
Context (dbg : bool) (env : option (Z * positive)) (schedule : list Z → list Z) (fuel : nat).
Context (n mb : nat) (qs : list request) (d : UntrustedDevice.t K).

(** The operation of the run, if no check fails. *)
Definition device_layout : RankMemory.packs_to_objects := default [] (UntrustedDevice.tables_ d).

Definition run_op : SlsOperation.t :=
  SlsOperation.mk (Z.of_nat n) (rows_counts qs) (Z.of_nat mb) (all_lengths qs) (all_indices qs)
    (UntrustedDevice.psum_at d) (4 * Z.of_nat (n * (mb * length qs))) device_layout SlsOperation.Uint32.

(** The device was initialised without tags for these tables, the arguments of the run
    are consistent, and every table is in the memory of the units of its pack.  A row has
    one of the sizes the library supports, and there is something to look up.  A debug
    build also runs [check_indices], which refuses some consistent arguments
    ([check_indices_misreads_lookups]): there it is an assumption that it does not. *)
Record device_ready : Prop := {
  dr_tag : UntrustedDevice.with_tag_ d = false;
  dr_rows : UntrustedDevice.rows_ d = rows_counts qs;
  dr_width : UntrustedDevice.sparse_feature_size_ d = Z.of_nat n ∧ Z.of_nat n ∈ [16; 32; 64] ∧ DataSize tp = 4;
  dr_loaded : is_Some (UntrustedDevice.tables_ d);
  dr_indices : all_indices qs ≠ [];
  dr_debug : dbg = true → SlsOperation.check_indices run_op = Ok tt;
  dr_requests : Forall (request_ok n mb) qs;
  dr_system : system_ok tp run_op mm b bufs;
  dr_op : op_ok tp run_op;
  dr_device : device_ok tp run_op ∧ env_ok env;
  dr_layout : layout_ok tp device_layout (Z.of_nat (length qs));
  dr_lengths : Forall (fun x => x ≤ inst_per_single_buf_no_header tp) (all_lengths qs);
  dr_stored : ∀ t, 0 ≤ t < Z.of_nat (length qs) → ∃ p o, p ∈ RankMemory.pack_identifiers tp ∧
    o ∈ pack_objs device_layout p ∧ MemoryObject.id o = t;
  dr_schedule : ∀ l, schedule l ≡ₚ l;
  dr_idle : idle_ok tp mm (UntrustedDevice.machine_ d) ∧
    ∀ c, held (kernel (UntrustedDevice.machine_ d)) c = false;
  dr_placed : ∀ p, p ∈ RankMemory.pack_identifiers tp →
    pack_placed tp run_op b (table_word qs) p (mem (UntrustedDevice.machine_ d))
}.
Context (Hd : device_ready).

Lemma run_op_width : fbytes tp run_op / 4 = Z.of_nat n ∧ fbytes tp run_op = 4 * Z.of_nat n.
Proof.
  destruct (dr_width Hd) as (_ & _ & H4).
  unfold fbytes, run_op. cbn [SlsOperation.sparse_feature_size_]. rewrite H4. dlia.
Qed.

Lemma run_op_tables : n_tables run_op = Z.of_nat (length qs).
Proof.
  unfold n_tables, run_op. cbn [SlsOperation.tables_sizes_]. unfold rows_counts. by rewrite length_fmap.
Qed.

(** No check fails. *)
Lemma run_op_made (psum_bytes : Z) : psum_bytes = 4 * Z.of_nat (n * (mb * length qs)) →
  UntrustedDevice.sls_op dbg d (Z.of_nat mb) (all_lengths qs) (all_indices qs) psum_bytes = Ok run_op.
Proof.
  intros ->. destruct (dr_width Hd) as (Hw & Hn & _). destruct (dr_loaded Hd) as [layout Hlay].
  pose proof (oo_mb _ _ (dr_op Hd)) as Hmb. change (SlsOperation.minibatch_size_ run_op) with (Z.of_nat mb) in Hmb.
  pose proof (oo_tables _ _ (dr_op Hd)) as Ht. rewrite run_op_tables in Ht.
  assert (Hn0 : 16 ≤ Z.of_nat n ≤ 64) by (rewrite !elem_of_cons, elem_of_nil in Hn; lia).
  unfold UntrustedDevice.sls_op, SlsOperation.make. rewrite Hw, (dr_rows Hd), (dr_tag Hd), Hlay, u32_small by lia.
  assert (Hsize : SlsOperation.check_sparse_feature_size (Z.of_nat n) = Ok tt).
  { unfold SlsOperation.check_sparse_feature_size. rewrite !elem_of_cons, elem_of_nil in Hn. cbn [existsb].
    replace (_ || _) with true; [done|]. symmetry. rewrite !orb_true_iff, !Z.eqb_eq. intuition. }
  rewrite Hsize. cbn [rbind]. unfold SlsOperation.set_run_params.
  cbn [SlsOperation.sparse_feature_size_ SlsOperation.tables_sizes_ SlsOperation.layout_ SlsOperation.op_type_].
  assert (Hop : SlsOperation.mk (Z.of_nat n) (rows_counts qs) (Z.of_nat mb) (all_lengths qs) (all_indices qs)
    (UntrustedDevice.psum_at d) (4 * Z.of_nat (n * (mb * length qs))) layout SlsOperation.Uint32 = run_op)
    by (unfold run_op, device_layout; by rewrite Hlay).
  rewrite Hop. unfold SlsOperation.check_run_params.
  cbn [run_op SlsOperation.minibatch_size_ SlsOperation.lengths_ SlsOperation.indices_ SlsOperation.psum_bytes_].
  rewrite (proj2 (Z.eqb_neq (Z.of_nat mb) 0)) by lia.
  assert (Hbatches : length (all_lengths qs) = (mb * length qs)%nat).
  { unfold all_lengths. rewrite (length_concat_rows mb); [rewrite length_fmap; lia|]. apply Forall_fmap.
    eapply Forall_impl; [exact (dr_requests Hd)|]. intros q (_ & Hq & _). cbn. unfold lengths_of. by rewrite length_fmap. }
  destruct (all_lengths qs) as [|len lens] eqn:El; [cbn in Hbatches; nia|].
  destruct (all_indices qs) as [|i ids] eqn:Ei; [by destruct (dr_indices Hd)|].
  rewrite (proj2 (Z.eqb_neq (4 * Z.of_nat (n * (mb * length qs))) 0)) by nia. cbn [rbind].
  destruct dbg eqn:Edbg; [|done]. fold run_op. by rewrite (dr_debug Hd).
Qed.

(** The position of a psum word. *)
Lemma psum_position (k : nat) : (k < n * (mb * length qs))%nat →
  ∃ t bt e q idx, k = ((t * mb + bt) * n + e)%nat ∧ (e < n)%nat ∧ qs !! t = Some q ∧ q.2 !! bt = Some idx.
Proof.
  intros Hk. assert (0 < n)%nat by nia. assert (0 < mb)%nat by nia.
  pose proof (Nat.div_mod_eq k n) as E1. pose proof (Nat.div_mod_eq (k / n) mb) as E2.
  pose proof (Nat.mod_upper_bound k n ltac:(lia)). pose proof (Nat.mod_upper_bound (k / n) mb ltac:(lia)).
  assert (Hkn : (k / n < mb * length qs)%nat) by (apply Nat.Div0.div_lt_upper_bound; lia).
  assert (Ht : (k / n / mb < length qs)%nat) by (apply Nat.Div0.div_lt_upper_bound; lia).
  destruct (lookup_lt_is_Some_2 qs _ Ht) as [q Hq].
  pose proof (Forall_lookup_1 _ _ _ _ (dr_requests Hd) Hq) as (_ & Hq2 & _).
  destruct (lookup_lt_is_Some_2 q.2 ((k / n) mod mb)%nat ltac:(lia)) as [idx Hidx].
  exists (k / n / mb)%nat, ((k / n) mod mb)%nat, (k mod n)%nat, q, idx. split; [nia|]. done.
Qed.

(** A run leaves the sums of all tables in the psum buffer. *)
Lemma untrusted_run (psum : list Z) : length psum = (n * (mb * length qs))%nat →
  ∃ w, UntrustedDevice.run_impl tp bufs (S fuel) dbg schedule env d (Z.of_nat mb) (all_lengths qs) (all_indices qs) psum =
    (w, Ok (all_sums n id qs)) ∧ idle_ok tp mm w ∧ (∀ c, held (kernel w) c = false) ∧
    (∀ x, ¬ scratch tp run_op b bufs x → mem w x = mem (UntrustedDevice.machine_ d) x).
Proof.
  intros Hp. pose proof (dr_requests Hd) as Hqs. destruct (dr_device Hd) as [Hdev Henv].
  destruct (dr_idle Hd) as [Hid Hheld]. pose proof (oo_tables _ _ (dr_op Hd)) as Ht. rewrite run_op_tables in Ht.
  destruct run_op_width as [Hw4 Hw]. pose proof (oo_mb _ _ (dr_op Hd)) as Hmb.
  change (SlsOperation.minibatch_size_ run_op) with (Z.of_nat mb) in Hmb.
  destruct (dispatch_spec tp run_op mm b bufs (dr_system Hd) dbg (table_word qs) env schedule fuel
    (UntrustedDevice.machine_ d)) as (w & Hrun & Hsum & Hidle & Hh & Hfr); try done.
  - apply (dr_op Hd).
  - rewrite run_op_tables. apply (dr_layout Hd).
  - by apply (requests_lookups_ok n mb qs).
  - apply (dr_lengths Hd).
  - destruct (dr_stored Hd 0 ltac:(lia)) as (p & o & Hpi & Ho & _). exists p. split; [done|].
    change (SlsOperation.layout_ run_op) with device_layout. intros E. rewrite E in Ho. by apply elem_of_nil in Ho.
  - apply (dr_schedule Hd).
  - apply (dr_placed Hd).
  - exists w. split; [|done]. unfold UntrustedDevice.run_impl. rewrite Hp, (run_op_made _ eq_refl), Hrun. f_equal. f_equal.
    apply list_eq_same_length with (n * (mb * length qs))%nat.
    + apply (length_all_sums n mb qs Hqs).
    + unfold UntrustedDevice.psum_words. by rewrite length_fmap, length_seq.
    + intros k x y Hk Hx Hy. revert Hx. unfold UntrustedDevice.psum_words. rewrite list_lookup_fmap, lookup_seq_lt by done.
      intros [= <-]. destruct (psum_position k Hk) as (t & bt & e & q & idx & -> & He & Hq & Hidx).
      rewrite (sums_lookup n mb qs Hqs t bt e q idx Hq Hidx He) in Hy. injection Hy as <-.
      destruct (dr_stored Hd (Z.of_nat t)) as (p & o & Hpi & Ho & Hoid); [apply lookup_lt_Some in Hq; lia|].
      rewrite <- (sls_sum_eq n mb qs Hqs run_op eq_refl eq_refl eq_refl t bt q idx Hq Hidx e), <- Hoid.
      pose proof (proj1 (batches_lookup n mb qs Hqs t bt q idx Hq Hidx)).
      rewrite <- (Hsum p o (Z.of_nat bt) (Z.of_nat e) Hpi Ho); [|cbn; lia|rewrite Hw4; lia].
      f_equal. unfold psum_slot, flat_batch. cbn [fst snd]. rewrite Hw, Hoid.
      change (SlsOperation.psum_ run_op) with (UntrustedDevice.psum_at d).
      change (SlsOperation.minibatch_size_ run_op) with (Z.of_nat mb). nia.
Qed.

(** What the executor relies on. *)
Lemma untrusted_reduces (load : UntrustedDevice.t K → list Z → result (UntrustedDevice.t K)) :
  reduces (ID := UntrustedDevice.device tp bufs (S fuel) dbg schedule env load) d false (all_words qs) (rows_counts qs)
    (Z.of_nat n) (Z.of_nat mb) (all_lengths qs) (all_indices qs).
Proof.
  intros psum Hl. unfold rows_counts in Hl. rewrite length_fmap in Hl. cbn [tag_width] in Hl.
  assert (Hp : length psum = (n * (mb * length qs))%nat) by nia.
  destruct (untrusted_run psum Hp) as (w & Hrun & _). cbn [CpuSls.device_run UntrustedDevice.device]. rewrite Hrun.
  cbn [snd]. symmetry. apply compute_spec; [apply (dr_requests Hd)|done].
Qed.
End untrusted.

(** ** Theorems *)

(** Property C7.  The untrusted device on the CXL simulator is the CPU device: a run
    on tables that are in device memory returns in the psum buffer what [TrivialCPU]
    returns for the same tables, lookups and buffer.  The rows have 16, 32 or 64 entries
    and there is something to look up, as the checks of the library ask for; in a debug
    build its [check_indices] has to accept the lookups, which it does not for all that
    are in the tables.  Afterwards all compute units and simulator threads are given
    back and no byte outside the buffers and registers of the run has changed, so that
    the next run finds the tables in place. *)
Theorem untrusted_device_is_cpu (tp : Constants) (mm : MemMap.t) (b : Z → CxlSimulatorCore.blocks) (bufs : buffers)
    (K : Type) (D : CunitDriver K) (L : CunitLaws K (NumOfCUnits tp)) (dbg : bool) (env : option (Z * positive))
    (schedule : list Z → list Z) (fuel n mb : nat) (qs : list request) (d : UntrustedDevice.t K) (psum : list Z) :
  device_ready tp mm b bufs dbg env schedule n mb qs d → length psum = (n * (mb * length qs))%nat →
  ∃ w r,
    UntrustedDevice.run_impl tp bufs (S fuel) dbg schedule env d (Z.of_nat mb) (all_lengths qs) (all_indices qs) psum =
      (w, Ok r) ∧
    TrivialCPU.run (TrivialCPU.mk (rows_counts qs) (Z.of_nat n) false (all_words qs)) (Z.of_nat mb) (all_lengths qs)
      (all_indices qs) psum = Ok r ∧
    idle_ok tp mm w ∧ (∀ c, held (kernel w) c = false) ∧
    (∀ x, ¬ scratch tp (run_op n mb qs d) b bufs x → mem w x = mem (UntrustedDevice.machine_ d) x).
Proof.
  intros Hd Hp. destruct (untrusted_run tp mm b bufs dbg env schedule fuel n mb qs d Hd psum Hp) as (w & Hrun & Hrest).
  exists w, (all_sums n id qs). split; [exact Hrun|]. split; [|exact Hrest].
  apply compute_spec; [apply (dr_requests _ _ _ _ _ _ _ _ _ _ _ Hd)|exact Hp].
Qed.

(** Property C6.  Secure sums on an untrusted device, end to end: an executor whose
    device is the CXL simulator, with the tables there in encrypted form, returns the
    sums of the plain rows for every table and batch, for every backend that encrypts
    block by block and every order in which the packs are scheduled.  As for the device
    alone, rows have 16, 32 or 64 entries, there is something to look up, and
    [check_indices] accepts the lookups in a debug build. *)
Theorem secure_sls_on_cxl (tp : Constants) (mm : MemMap.t) (b : Z → CxlSimulatorCore.blocks) (bufs : buffers)
    (K : Type) (D : CunitDriver K) (CL : CunitLaws K (NumOfCUnits tp)) (dbg : bool) (env : option (Z * positive))
    (schedule : list Z → list Z) (fuel : nat) (B : Type) (E : EncryptionBackend B) (L : EncryptionBackendLaws B)
    (m mb : nat) (qs : list request) (hash address : Z) (key_e key_v : list Z) (e ve : engine B)
    (load : UntrustedDevice.t K → list Z → result (UntrustedDevice.t K))
    (d : UntrustedDevice.t K) (cp ep psum checks : list Z) :
  let p := mkPostprocessor e (mkVerifier ve address) (table_offsets m 0 qs.*1) (Z.of_nat (4 * m)) in
  make_engine (create_table_version hash) key_e = Ok e → make_engine (create_table_version hash) key_v = Ok ve →
  (1 ≤ m)%nat → (1 ≤ mb)%nat → Forall (request_ok (4 * m) mb) qs →
  16 * Z.of_nat m * Z.of_nat (length (concat qs.*1)) < 2 ^ 64 → Z.of_nat (length (all_indices qs)) < 2 ^ 64 →
  device_ready tp mm b bufs dbg env schedule (4 * m) mb (enc_requests p false m 0 qs) d →
  clean qs ep → length psum = (4 * m * (mb * length qs))%nat →
  ∃ x r,
    run_sls (ID := UntrustedDevice.device tp bufs (S fuel) dbg schedule env load) (loaded d p false m qs cp ep)
      (Z.of_nat mb) (all_lengths qs) (all_indices qs) psum checks = Ok (x, r, checks, true) ∧
    Reduction.compute (all_words qs) (rows_counts qs) (all_indices qs) (all_lengths qs) (Z.of_nat (4 * m))
      (Z.of_nat mb) psum = Ok r.
Proof.
  intros p He Hve Hm Hmb Hq Hb Hi Hd Hc Hp.
  pose proof (make_engine_ok _ _ _ He) as Hok. pose proof (make_engine_ok _ _ _ Hve) as Hokv.
  pose proof (untrusted_reduces tp mm b bufs dbg env schedule fuel _ _ _ d Hd load) as Hred.
  destruct (enc_requests_spec p false m qs 0) as (_ & H2 & H3 & H4 & _). rewrite H2, H3, H4 in Hred.
  destruct (run_untagged (ID := UntrustedDevice.device tp bufs (S fuel) dbg schedule env load) d p m mb qs Hok Hokv
    eq_refl eq_refl Hm Hmb Hq Hb Hi cp ep psum checks Hred Hp Hc) as [x Hrun].
  exists x, (all_sums (4 * m) id qs). split; [exact Hrun|by apply compute_spec].
Qed.

(** The operation of CxlOperation as two requests, and a memory that holds their tables
    where its layout places them. *)
Definition split_rows (t : Z) : list (list Z) :=
  (fun r => (fun e => 1000 * t + 16 * r + e) <$> range 16) <$> range 10.

Definition split_requests : list request :=
  [(split_rows 0, [[0]; [1; 2; 3; 4]; [5; 6]]); (split_rows 1, [[7; 8; 9]; [0]; [1]])].

Definition word_byte (ws : list Z) (x : Z) : Z := default 0 (ws !! Z.to_nat (x / 4)) / 2 ^ (8 * (x mod 4)) mod 2 ^ 8.

Definition table_at (qs : list request) (t : nat) : list Z :=
  match qs !! t with Some q => concat q.1 | None => [] end.

Definition holding (qs : list request) : memory := fun x =>
  if (4096 <=? x) && (x <? 4096 + 640) then word_byte (table_at qs 1) (x - 4096)
  else if (2 ^ 36 <=? x) && (x <? 2 ^ 36 + 640) then word_byte (table_at qs 0) (x - 2 ^ 36) else 3.

Definition split_device (qs : list request) : UntrustedDevice.t Z :=
  UntrustedDevice.mk [10; 10] 16 false (Some split_layout) (2 ^ 40)
    (mkWorld tt split_map (holding qs) []
       (BaseAsyncSimulator.mk false (replicate 2 (BaseAsyncSimulator.mkControls false false))) 0).

(** The tables are there, checked by evaluation. *)
Definition tables_held (qs : list request) : bool :=
  forallb (fun t => forallb (fun r => forallb (fun e =>
    load32 (holding qs) ((if t =? 1 then 4096 else 2 ^ 36) + r * 64 + 4 * e) =? table_word qs t r e)
    (range 16)) (range 10)) (range 2).

Lemma tables_held_spec (qs : list request) (t r e : Z) :
  tables_held qs = true → 0 ≤ t < 2 → 0 ≤ r < 10 → 0 ≤ e < 16 →
  load32 (holding qs) ((if t =? 1 then 4096 else 2 ^ 36) + r * 64 + 4 * e) = table_word qs t r e.
Proof.
  intros H Ht Hr He. apply elem_of_range, list_elem_of_In in Ht, Hr, He.
  apply (proj1 (forallb_forall _ _) H) in Ht. apply (proj1 (forallb_forall _ _) Ht) in Hr.
  apply (proj1 (forallb_forall _ _) Hr) in He. cbv beta in He. by apply Z.eqb_eq in He.
Qed.

(** A pack with one table, stored at [off] in the memory of its only unit. *)
Lemma holding_placed (qs : list request) (p c : Z) (o : MemoryObject.t) (off : Z) :
  tables_held qs = true → pack_objs split_layout p = [o] → MemoryObject.offset o c = Ok off → 0 ≤ off ≤ 4096 →
  off mod 8 = 0 → table_rows split_op (MemoryObject.id o) = 10 → 0 ≤ MemoryObject.id o < 2 →
  (if MemoryObject.id o =? 1 then 4096 else 2 ^ 36) = c * 2 ^ 36 + off →
  (∀ c', 0 ≤ c' < 2 → Z.testbit p c' = true → c' = c) →
  pack_placed sample_cxl split_op split_blocks (table_word qs) p (holding qs).
Proof.
  intros Hheld Ho Hoff Hr Hm Hrows Hid Hb Hc c' Hc' Hbit. rewrite (Hc c' Hc' Hbit).
  change (SlsOperation.layout_ split_op) with split_layout. assert (Hf : fbytes sample_cxl split_op = 64) by done.
  split.
  - intros o' Ho'. rewrite Ho in Ho'. apply list_elem_of_singleton in Ho' as ->. exists off.
    split; [done|split; lia| |]; rewrite Hrows, Hf; lia.
  - intros o' off' r e Ho' [Hoff' _ _ _] Hr' He. change (SlsOperation.layout_ split_op) with split_layout in Ho'.
    rewrite Ho in Ho'. apply list_elem_of_singleton in Ho' as ->.
    rewrite Hoff in Hoff'. injection Hoff' as <-. rewrite Hrows in Hr'. rewrite Hf in He |- *.
    cbn [split_blocks CxlSimulatorCore.channel_base]. rewrite <- Hb. apply tables_held_spec; try done.
Qed.

Lemma split_ready (qs : list request) :
  rows_counts qs = [10; 10] → all_lengths qs = sample_lengths → all_indices qs = [0; 1; 2; 3; 4; 5; 6; 7; 8; 9; 0; 1] →
  length qs = 2%nat → Forall (request_ok 16 3) qs → tables_held qs = true →
  device_ready (D := mask_driver 2) (L := mask_laws 2) sample_cxl split_map split_blocks split_buffers true None (@rev Z) 16 3 qs
    (split_device qs).
Proof.
  intros Hrows Hlen Hix Hl Hqs Hheld.
  assert (Hop : run_op 16 3 qs (split_device qs) = split_op) by (unfold run_op; rewrite Hrows, Hlen, Hix, Hl; reflexivity).
  split; rewrite ?Hop.
  - reflexivity.
  - symmetry. exact Hrows.
  - split; [reflexivity|]. split; [left|reflexivity].
  - by eexists.
  - by rewrite Hix.
  - intros _. vm_compute. reflexivity.
  - exact Hqs.
  - exact split_system.
  - exact split_op_ok.
  - split; [split; vm_compute; split; congruence|exact I].
  - rewrite Hl. exact split_layout_ok.
  - rewrite Hlen. repeat constructor; vm_compute; congruence.
  - rewrite Hl. apply split_cases.
    + exists 2, (MemoryObject.mk 0 640 [(false, 0); (true, 0)]). split; [right; left|split; [left|reflexivity]].
    + exists 1, (MemoryObject.mk 1 640 [(true, 4096); (false, 0)]). split; [left|split; [left|reflexivity]].
  - intros l. symmetry. apply Permutation_rev.
  - split; [|intros c; apply Z.bits_0]. split; [reflexivity|reflexivity|]. intros c ctl Hc _ Hlk. revert Hlk.
    change (BaseAsyncSimulator.thread_controls_ (sim (UntrustedDevice.machine_ (split_device qs))))
      with (replicate 2 (BaseAsyncSimulator.mkControls false false)).
    intros [-> _]%lookup_replicate. reflexivity.
  - change (mem (UntrustedDevice.machine_ (split_device qs))) with (holding qs). apply split_packs.
    + apply (holding_placed qs 1 0 (MemoryObject.mk 1 640 [(true, 4096); (false, 0)]) 4096);
        try done; try (cbn; lia). apply (split_cases (fun c' => Z.testbit 1 c' = true → c' = 0)); done.
    + apply (holding_placed qs 2 1 (MemoryObject.mk 0 640 [(false, 0); (true, 0)]) 0);
        try done; try (cbn; lia). apply (split_cases (fun c' => Z.testbit 2 c' = true → c' = 1)); done.
    + intros c Hc Hbit. split; [intros o Ho|intros o off r e Ho];
        change (o ∈ @nil MemoryObject.t) in Ho; by apply elem_of_nil in Ho.
Qed.

Lemma split_requests_ok : Forall (request_ok 16 3) split_requests.
Proof. apply (bool_decide_unpack _). vm_compute. exact I. Qed.

Lemma untrusted_device_is_cpu_witness : ∃ w r,
  UntrustedDevice.run_impl (D := mask_driver 2) sample_cxl split_buffers 1 true (@rev Z) None (split_device split_requests) 3
    sample_lengths [0; 1; 2; 3; 4; 5; 6; 7; 8; 9; 0; 1] (replicate 96 0) = (w, Ok r) ∧
  take 20 r = [0; 1; 2; 3; 4; 5; 6; 7; 8; 9; 10; 11; 12; 13; 14; 15; 160; 164; 168; 172].
Proof.
  destruct (untrusted_device_is_cpu sample_cxl split_map split_blocks split_buffers Z (mask_driver 2) (mask_laws 2) true None
    (@rev Z) 0 16 3 split_requests (split_device split_requests) (replicate 96 0)) as (w & r & Hrun & Hcpu & _).
  - apply split_ready; first [exact split_requests_ok|vm_compute; reflexivity].
  - reflexivity.
  - exists w, r. split; [exact Hrun|]. vm_compute in Hcpu. injection Hcpu as <-. reflexivity.
Defined.

Lemma secure_sls_on_cxl_witness :
  let p := mkPostprocessor (mkEngine 77 tt) (mkVerifier (mkEngine 77 tt) 4096) [0; 640] 16 in
  let d := split_device (enc_requests (E := complement) p false 4 0 split_requests) in
  ∃ x r,
    run_sls (E := complement)
      (ID := UntrustedDevice.device (D := mask_driver 2) sample_cxl split_buffers 1 true (@rev Z) None (fun d _ => Ok d))
      (loaded d p false 4 split_requests [] []) 3 sample_lengths [0; 1; 2; 3; 4; 5; 6; 7; 8; 9; 0; 1]
      (replicate 96 0) [] = Ok (x, r, [], true) ∧
    take 20 r = [0; 1; 2; 3; 4; 5; 6; 7; 8; 9; 10; 11; 12; 13; 14; 15; 160; 164; 168; 172].
Proof.
  destruct (secure_sls_on_cxl sample_cxl split_map split_blocks split_buffers Z (mask_driver 2) (mask_laws 2) true None
    (@rev Z) 0 unit complement complement_laws 4 3 split_requests 77 4096 [] [] (mkEngine 77 tt) (mkEngine 77 tt) (fun d _ => Ok d)
    (split_device (enc_requests (E := complement)
       (mkPostprocessor (mkEngine 77 tt) (mkVerifier (mkEngine 77 tt) 4096) [0; 640] 16) false 4 0 split_requests))
    [] [] (replicate 96 0) []) as (x & r & Hrun & Hr).
  - reflexivity.
  - reflexivity.
  - lia.
  - lia.
  - exact split_requests_ok.
  - vm_compute. reflexivity.
  - vm_compute. reflexivity.
  - apply split_ready; try (vm_compute; reflexivity). apply (bool_decide_unpack _). vm_compute. exact I.
  - left. reflexivity.
  - reflexivity.
  - exists x, r. split; [exact Hrun|]. vm_compute in Hr. injection Hr as <-. reflexivity.
Defined.
