(* ===== verification/ThreadPool.v ===== *)
(** * The thread pool of the reduction runner

    common/threads/: the queue of actions ([ActionQueue]), the threads that take
    actions from it ([ActionConsumer]), and [ProducerConsumer], which creates them,
    with the use that [ReductionRunner::run_operation] makes of it
    (core/operation_runner/reduction/core.h): every pack but the first is queued, the
    main thread runs the first one and then waits for the futures of the others.

    A step is one critical section of the queue's mutex, a wake-up, or the start or
    the end of an action.  Actions of different threads overlap in every way between
    their starts and ends; what an action does is not part of this file, and its
    outcome, a normal end or an exception, is chosen by the schedule.  The condition
    variable is explicit: a thread that finds nothing to do sleeps until
    [notify_all], or until it is woken for no reason. *)
From S2P Require Import Prelude Topology RankAddress WordMemory DeviceMemory InstGenerator RankMemory ExecutionGenerator TraceGenerator SparseReduction SlsSimulator Allocators SlsDevice SlsRunner CxlRun CxlOperation.
Import SlsOperation ExecutionPacksData SparseReduction.

(** The task of a pack of one of the operations. *)
Abbreviation task_id := (nat * Z)%type.

(** ** common/threads/action_queue.h *)
Module ActionQueue.
Record t := mk {
  actions_ : list task_id;
  is_active_ : bool
}.

Definition empty : t := mk [] true.

Definition push (q : t) (action : task_id) : t := mk (actions_ q ++ [action]) (is_active_ q).

(** [None] while the condition of [wait] does not hold; no action once the queue is
    closed and empty. *)
Definition pop (q : t) : option (option task_id * t) :=
  match actions_ q with
  | action :: rest => Some (Some action, mk rest (is_active_ q))
  | [] => if is_active_ q then None else Some (None, q)
  end.

Definition close (q : t) : t := mk (actions_ q) false.
Definition reopen (q : t) : t := mk (actions_ q) true.
End ActionQueue.

(** A thread in [ActionConsumer::start]: about to look at the queue in [pop], asleep
    in [wait], in an action, or after the loop. *)
Inductive consumer := InPop | Asleep | InAction (t : task_id) | Ended.
#[export] Instance consumer_eq_dec : EqDecision consumer.
Proof. solve_decision. Defined.

(** [notify_all] *)
Definition wake (c : consumer) : consumer := match c with Asleep => InPop | _ => c end.

(** The main thread.  In [run_operation] of operation [k]: before the packs that are
    still to queue, in the action of its own pack, before the futures that are still
    to get.  Then the pool is destroyed: [close] clears the flag and notifies, and the
    threads are joined. *)
Inductive main_thread :=
  | Queueing (k : nat) (todo : list Z)
  | MainAction (k : nat)
  | Getting (k : nat) (todo : list Z)
  | Leaving
  | Notifying
  | Joining
  | Destroyed.

(** What happens next: a step of a thread, with the outcome of the action if the step
    ends one, or a spurious wake-up. *)
Inductive pool_event :=
  | MainStep (outcome : result unit)
  | PoolStep (i : nat) (outcome : result unit)
  | Spurious (i : nat).

Section pool.
(** The operations the runner gets, each with the pack of the main thread and the
    packs to queue, as [plan] of SlsRunner gives them. *)
Context (ops : list (Z * list Z)).

Definition operation (k : nat) : Z * list Z := default (0, []) (ops !! k).
Definition main_task (k : nat) : task_id := (k, (operation k).1).

(** [results]: what the calls of [run_operation] have returned or thrown; [started]:
    the actions in the order of their starts; [futures]: the actions that have ended,
    with their outcomes. *)
Record pool := mkPool {
  queue_ : ActionQueue.t;
  consumers : list consumer;
  main : main_thread;
  results : list (result unit);
  started : list task_id;
  futures : list (task_id * result unit)
}.

Definition is_ended (c : consumer) : bool := match c with Ended => true | _ => false end.

(** The call of [run_operation] for operation [k], or the end of the program. *)
Definition call_operation (k : nat) : main_thread :=
  match ops !! k with Some (_, queue) => Queueing k queue | None => Leaving end.

Definition find_future (t : task_id) (log : list (task_id * result unit)) : option (result unit) :=
  snd <$> find (fun e => bool_decide (e.1 = t)) log.

(** [run_operation] returns, and the next one is called. *)
Definition return_operation (s : pool) (k : nat) (r : result unit) (log : list (task_id * result unit)) : pool :=
  mkPool (queue_ s) (consumers s) (call_operation (S k)) (results s ++ [r]) (started s) log.

Definition set_main (s : pool) (m : main_thread) : pool :=
  mkPool (queue_ s) (consumers s) m (results s) (started s) (futures s).

Definition main_step (outcome : result unit) (s : pool) : option pool :=
  match main s with
  | Queueing k (pack :: todo) =>
      Some (mkPool (ActionQueue.push (queue_ s) (k, pack)) (wake <$> consumers s) (Queueing k todo) (results s)
              (started s) (futures s))
  | Queueing k [] =>
      Some (mkPool (queue_ s) (consumers s) (MainAction k) (results s) (started s ++ [main_task k]) (futures s))
  | MainAction k =>
      let log := futures s ++ [(main_task k, outcome)] in
      match outcome with
      | Ok _ => Some (mkPool (queue_ s) (consumers s) (Getting k (operation k).2) (results s) (started s) log)
      | Err e => Some (return_operation s k (Err e) log)
      end
  | Getting k (pack :: todo) =>
      match find_future (k, pack) (futures s) with
      | Some (Ok _) => Some (set_main s (Getting k todo))
      | Some (Err e) => Some (return_operation s k (Err e) (futures s))
      | None => None
      end
  | Getting k [] => Some (return_operation s k (Ok tt) (futures s))
  | Leaving =>
      Some (mkPool (ActionQueue.close (queue_ s)) (consumers s) Notifying (results s) (started s) (futures s))
  | Notifying => Some (mkPool (queue_ s) (wake <$> consumers s) Joining (results s) (started s) (futures s))
  | Joining => if forallb is_ended (consumers s) then Some (set_main s Destroyed) else None
  | Destroyed => None
  end.

Definition consumer_step (i : nat) (outcome : result unit) (s : pool) : option pool :=
  match consumers s !! i with
  | Some InPop =>
      match ActionQueue.pop (queue_ s) with
      | Some (Some t, q) =>
          Some (mkPool q (<[i := InAction t]> (consumers s)) (main s) (results s) (started s ++ [t]) (futures s))
      | Some (None, q) => Some (mkPool q (<[i := Ended]> (consumers s)) (main s) (results s) (started s) (futures s))
      | None => Some (mkPool (queue_ s) (<[i := Asleep]> (consumers s)) (main s) (results s) (started s) (futures s))
      end
  | Some (InAction t) =>
      Some (mkPool (queue_ s) (<[i := InPop]> (consumers s)) (main s) (results s) (started s)
              (futures s ++ [(t, outcome)]))
  | _ => None
  end.

Definition spurious_wakeup (i : nat) (s : pool) : option pool :=
  match consumers s !! i with
  | Some Asleep => Some (mkPool (queue_ s) (<[i := InPop]> (consumers s)) (main s) (results s) (started s) (futures s))
  | _ => None
  end.

Definition pool_step (e : pool_event) (s : pool) : option pool :=
  match e with
  | MainStep outcome => main_step outcome s
  | PoolStep i outcome => consumer_step i outcome s
  | Spurious i => spurious_wakeup i s
  end.

Fixpoint pool_run (l : list pool_event) (s : pool) : option pool :=
  match l with
  | [] => Some s
  | e :: l' => match pool_step e s with Some s' => pool_run l' s' | None => None end
  end.

(** [ProducerConsumer(thread_count)] and the first call of [run_operation]. *)
Definition pool_start (thread_count : nat) : pool :=
  mkPool ActionQueue.empty (replicate thread_count InPop) (call_operation 0) [] [] [].

(** No thread can step, whatever the outcome. *)
Definition pool_stuck (s : pool) : Prop :=
  (∀ r, main_step r s = None) ∧ ∀ i r, consumer_step i r s = None.

Definition is_spurious (e : pool_event) : bool := match e with Spurious _ => true | _ => false end.
Definition spurious (l : list pool_event) : nat := length (List.filter is_spurious l).

(** ** The tasks of the operations *)
Definition op_tasks (k : nat) (o : Z * list Z) : list task_id := (k, o.1) :: (pair k <$> o.2).
Definition tasks_from (k : nat) : list task_id := concat (drop k (imap op_tasks ops)).
Definition all_tasks : list task_id := tasks_from 0.

Definition action_of (c : consumer) : option task_id := match c with InAction t => Some t | _ => None end.
Definition main_running (m : main_thread) : list task_id :=
  match m with MainAction k => [main_task k] | _ => [] end.

(** The actions that run. *)
Definition running (s : pool) : list task_id := main_running (main s) ++ omap action_of (consumers s).

(** What [run_operation] of operation [k] gives: it returns when all its actions have
    ended normally, and throws the first exception in the order of the packs. *)
Definition operation_result (k : nat) (r : result unit) (log : list (task_id * result unit)) : Prop :=
  match r with
  | Ok _ => ∀ t, t ∈ op_tasks k (operation k) → find_future t log = Some (Ok tt)
  | Err e => ∃ dn t l, op_tasks k (operation k) = dn ++ t :: l ∧
      (∀ t', t' ∈ dn → find_future t' log = Some (Ok tt)) ∧ find_future t log = Some (Err e)
  end.

(** ** Every step is progress *)
Section measure.
Context (threads : nat).

Definition op_rest (o : Z * list Z) : nat := (threads + 4) * length o.2 + 3.
Definition rest_from (k : nat) : nat := sum_list_with op_rest (drop k ops) + threads + 3.

Definition main_rest (m : main_thread) : nat :=
  match m with
  | Queueing k l => (threads + 3) * length l + length (operation k).2 + 3 + rest_from (S k)
  | MainAction k => length (operation k).2 + 2 + rest_from (S k)
  | Getting k l => length l + 1 + rest_from (S k)
  | Leaving => threads + 3
  | Notifying => threads + 2
  | Joining => 1
  | Destroyed => 0
  end.

Definition consumer_rest (c : consumer) : nat :=
  match c with InPop => 2 | Asleep => 1 | InAction _ => 3 | Ended => 0 end.

Definition rest_of (s : pool) : nat :=
  main_rest (main s) + 2 * length (ActionQueue.actions_ (queue_ s)) + sum_list_with consumer_rest (consumers s).

Lemma call_operation_rest (k : nat) : main_rest (call_operation k) = rest_from k.
Proof.
  unfold call_operation, rest_from. destruct (ops !! k) as [[p q]|] eqn:E.
  - rewrite (drop_S _ _ _ E). cbn [main_rest sum_list_with]. unfold operation, rest_from, op_rest. rewrite E. cbn. lia.
  - rewrite drop_ge by (by apply lookup_ge_None). cbn. done.
Qed.

Lemma wake_rest (cs : list consumer) :
  (sum_list_with consumer_rest (wake <$> cs) ≤ sum_list_with consumer_rest cs + length cs)%nat.
Proof. induction cs as [|c cs IH]; [done|]. cbn. destruct c; cbn; lia. Qed.

Lemma insert_rest (i : nat) (c c' : consumer) (cs : list consumer) :
  cs !! i = Some c →
  (sum_list_with consumer_rest (<[i := c']> cs) + consumer_rest c =
   sum_list_with consumer_rest cs + consumer_rest c')%nat.
Proof.
  revert i. induction cs as [|d cs IH]; intros [|i] Hi; [done..| |].
  - injection Hi as ->. cbn [insert list_insert sum_list_with]. lia.
  - specialize (IH i Hi). change (<[S i := c']> (d :: cs)) with (d :: <[i := c']> cs). cbn [sum_list_with]. lia.
Qed.

(** A step of a thread is progress; a spurious wake-up gives one step back. *)
Lemma pool_step_rest (e : pool_event) (s s' : pool) :
  length (consumers s) = threads → pool_step e s = Some s' →
  length (consumers s') = threads ∧
  (rest_of s' + 1 ≤ rest_of s + (if is_spurious e then 2 else 0))%nat.
Proof.
  intros Hth. unfold rest_of. destruct e as [r|i r|i]; cbn [pool_step is_spurious].
  - pose proof (wake_rest (consumers s)) as Hw. unfold main_step, return_operation, set_main.
    destruct (main s) as [k [|p todo]|k|k [|p todo]| | | |] eqn:Em; try done.
    + intros [= <-]. cbn. lia.
    + intros [= <-]. cbn [queue_ consumers main main_rest ActionQueue.push ActionQueue.actions_].
      rewrite length_fmap, length_app. cbn [length]. lia.
    + destruct r as [u|e]; intros [= <-]; cbn [queue_ consumers main]; rewrite ?call_operation_rest; cbn [main_rest]; lia.
    + intros [= <-]. cbn [queue_ consumers main]. rewrite call_operation_rest. cbn [main_rest length]. lia.
    + destruct (find_future _ _) as [[u|e]|]; [| |done]; intros [= <-]; cbn [queue_ consumers main];
        rewrite ?call_operation_rest; cbn [main_rest length]; lia.
    + intros [= <-]. cbn. lia.
    + intros [= <-]. cbn [queue_ consumers main main_rest]. rewrite length_fmap. lia.
    + destruct (forallb is_ended (consumers s)); [|done]. intros [= <-]. cbn. lia.
  - unfold consumer_step. destruct (consumers s !! i) as [[| |t|]|] eqn:Ec; try done;
      pose proof (fun c' => insert_rest i _ c' _ Ec) as Hins.
    + unfold ActionQueue.pop. destruct (ActionQueue.actions_ (queue_ s)) as [|t rest] eqn:Ea.
      * destruct (ActionQueue.is_active_ (queue_ s)); intros [= <-]; cbn [main queue_ consumers];
          rewrite length_insert, Ea; [specialize (Hins Asleep)|specialize (Hins Ended)]; cbn in *; lia.
      * intros [= <-]. cbn [main queue_ consumers ActionQueue.actions_]. rewrite length_insert.
        specialize (Hins (InAction t)). cbn in *. lia.
    + intros [= <-]. cbn [main queue_ consumers]. rewrite length_insert. specialize (Hins InPop). cbn in *. lia.
  - unfold spurious_wakeup. destruct (consumers s !! i) as [[| |t|]|] eqn:Ec; try done.
    intros [= <-]. cbn [main queue_ consumers]. rewrite length_insert.
    pose proof (insert_rest i _ InPop _ Ec). cbn in *. lia.
Qed.

Lemma pool_run_rest (l : list pool_event) : ∀ (s s' : pool),
  length (consumers s) = threads → pool_run l s = Some s' →
  (length l + rest_of s' ≤ rest_of s + 2 * spurious l)%nat.
Proof.
  unfold spurious. induction l as [|e l IH]; intros s s' Hth; cbn [pool_run length List.filter]; [intros [= <-]; lia|].
  destruct (pool_step e s) as [s1|] eqn:E; [|done]. intros Hr.
  destruct (pool_step_rest e s s1 Hth E) as [Hth' Hle]. pose proof (IH s1 s' Hth' Hr).
  destruct (is_spurious e); cbn [length]; lia.
Qed.

Lemma pool_start_rest : rest_of (pool_start threads) = (rest_from 0 + 2 * threads)%nat.
Proof.
  assert (E : sum_list_with consumer_rest (replicate threads InPop) = (2 * threads)%nat)
    by (induction threads as [|n IH]; [done|cbn; rewrite IH; lia]).
  unfold rest_of, pool_start. cbn [main queue_ consumers ActionQueue.empty ActionQueue.actions_ length].
  rewrite E, call_operation_rest. lia.
Qed.

(** The number of steps of a pool without spurious wake-ups. *)
Lemma rest_from_0 :
  rest_from 0 = ((threads + 4) * sum_list_with (fun o => length o.2) ops + 3 * length ops + threads + 3)%nat.
Proof. unfold rest_from. rewrite drop_0. induction ops as [|o l IH]; cbn in *; [lia|]. unfold op_rest at 1. lia. Qed.
End measure.

(** ** What holds at every point *)
Definition to_queue (m : main_thread) : list task_id :=
  match m with
  | Queueing k todo => main_task k :: (pair k <$> todo) ++ tasks_from (S k)
  | MainAction k | Getting k _ => tasks_from (S k)
  | _ => []
  end.

(** The number of the operation. *)
Definition current (m : main_thread) : nat :=
  match m with Queueing k _ | MainAction k | Getting k _ => k | _ => length ops end.

Definition main_ok (m : main_thread) (log : list (task_id * result unit)) : Prop :=
  match m with
  | Queueing k _ | MainAction k => (k < length ops)%nat
  | Getting k l => (k < length ops)%nat ∧ ∃ dn, (operation k).2 = dn ++ l ∧
      ∀ t, t ∈ main_task k :: (pair k <$> dn) → find_future t log = Some (Ok tt)
  | _ => True
  end.

Definition closed (m : main_thread) : bool :=
  match m with Notifying | Joining | Destroyed => true | _ => false end.

Lemma find_future_app (t : task_id) (r : result unit) (log more : list (task_id * result unit)) :
  find_future t log = Some r → find_future t (log ++ more) = Some r.
Proof.
  unfold find_future. induction log as [|e log IH]; [done|]. cbn [find app].
  destruct (bool_decide (e.1 = t)); [done|exact IH].
Qed.

Lemma find_future_last (t : task_id) (r : result unit) (log : list (task_id * result unit)) :
  t ∉ log.*1 → find_future t (log ++ [(t, r)]) = Some r.
Proof.
  unfold find_future. intros Ht. induction log as [|e log IH]; cbn [find app fst].
  - by rewrite bool_decide_eq_true_2.
  - apply not_elem_of_cons in Ht as [Hne Ht]. rewrite bool_decide_eq_false_2 by congruence. by apply IH.
Qed.

Lemma find_future_none (t : task_id) (log : list (task_id * result unit)) :
  find_future t log = None → t ∉ log.*1.
Proof.
  unfold find_future. induction log as [|e log IH]; cbn [find]; [intros _; apply not_elem_of_nil|].
  destruct (bool_decide (e.1 = t)) eqn:E; [done|]. intros Hf. apply bool_decide_eq_false in E.
  apply not_elem_of_cons. split; [congruence|by apply IH].
Qed.

Lemma operation_result_app (k : nat) (r : result unit) (log more : list (task_id * result unit)) :
  operation_result k r log → operation_result k r (log ++ more).
Proof.
  destruct r as [u|e]; cbn [operation_result].
  - intros Ha t Ht. by apply find_future_app, Ha.
  - intros (dn & t & l & E & Hd & Ht). exists dn, t, l. split; [done|]. split; [|by apply find_future_app].
    intros t' Ht'. by apply find_future_app, Hd.
Qed.

Lemma main_ok_app (m : main_thread) (log more : list (task_id * result unit)) :
  main_ok m log → main_ok m (log ++ more).
Proof.
  destruct m as [k l|k|k l| | | |]; cbn [main_ok]; try done. intros (Hk & dn & E & Hd). split; [done|].
  exists dn. split; [done|]. intros t Ht. by apply find_future_app, Hd.
Qed.

Lemma tasks_from_S (k : nat) : (k < length ops)%nat → tasks_from k = op_tasks k (operation k) ++ tasks_from (S k).
Proof.
  intros Hk. destruct (lookup_lt_is_Some_2 _ _ Hk) as [o Ho]. unfold tasks_from, operation. rewrite Ho. cbn [default].
  assert (E : imap op_tasks ops !! k = Some (op_tasks k o)) by (by rewrite list_lookup_imap, Ho).
  by rewrite (drop_S _ _ _ E).
Qed.

Lemma elem_of_op_tasks (t : task_id) (j : nat) (o : Z * list Z) : t ∈ op_tasks j o → t.1 = j.
Proof. unfold op_tasks. intros [->|Ht]%elem_of_cons; [done|]. by apply list_elem_of_fmap in Ht as (x & -> & _). Qed.

Lemma elem_of_tasks_from (t : task_id) (k : nat) :
  t ∈ tasks_from k ↔ ∃ j, (k ≤ j)%nat ∧ (j < length ops)%nat ∧ t ∈ op_tasks j (operation j).
Proof.
  unfold tasks_from, operation. rewrite list_elem_of_In, in_concat. split.
  - intros (ts & Hts & Ht). apply list_elem_of_In, list_elem_of_lookup_1 in Hts as [q Hq].
    rewrite lookup_drop, list_lookup_imap in Hq. destruct (ops !! (k + q)%nat) as [o|] eqn:Eo; [|done].
    injection Hq as <-. exists (k + q)%nat. rewrite Eo. split; [lia|]. split; [by eapply lookup_lt_Some|].
    by apply list_elem_of_In.
  - intros (j & Hk & Hj & Ht). destruct (lookup_lt_is_Some_2 _ _ Hj) as [o Ho]. rewrite Ho in Ht.
    exists (op_tasks j o). split; [|by apply list_elem_of_In]. apply list_elem_of_In.
    apply (list_elem_of_lookup_2 _ (j - k)). rewrite lookup_drop, list_lookup_imap.
    replace (k + (j - k))%nat with j by lia. by rewrite Ho.
Qed.

Lemma call_operation_spec (k : nat) (log : list (task_id * result unit)) : (k ≤ length ops)%nat →
  to_queue (call_operation k) = tasks_from k ∧ current (call_operation k) = k ∧ main_ok (call_operation k) log ∧
  closed (call_operation k) = false ∧ main_running (call_operation k) = [].
Proof.
  intros Hk. unfold call_operation. destruct (ops !! k) as [[p q]|] eqn:E.
  - pose proof (lookup_lt_Some _ _ _ E) as Hlt. rewrite tasks_from_S by done. unfold op_tasks, main_task, operation.
    cbn [to_queue current main_ok closed main_running]. unfold main_task, operation. rewrite E. done.
  - apply lookup_ge_None in E. cbn. split; [|split; [lia|done]]. unfold tasks_from. rewrite drop_ge; [done|].
    by rewrite length_imap.
Qed.

Lemma call_operation_not_destroyed (k : nat) : call_operation k ≠ Destroyed.
Proof. unfold call_operation. by destruct (ops !! k) as [[p q]|]. Qed.

Context (threads : nat).

Record pool_inv (s : pool) : Prop := {
  pi_perm : to_queue (main s) ++ ActionQueue.actions_ (queue_ s) ++ running s ++ (futures s).*1 ≡ₚ all_tasks;
  pi_started : started s ≡ₚ running s ++ (futures s).*1;
  pi_main : main_ok (main s) (futures s);
  pi_number : length (results s) = current (main s);
  pi_results : ∀ k r, results s !! k = Some r → operation_result k r (futures s);
  pi_active : ActionQueue.is_active_ (queue_ s) = negb (closed (main s));
  pi_ended : Ended ∈ consumers s → closed (main s) = true ∧ ActionQueue.actions_ (queue_ s) = [];
  pi_asleep : Asleep ∈ consumers s →
    ActionQueue.actions_ (queue_ s) = [] ∧ (closed (main s) = false ∨ main s = Notifying);
  pi_joined : main s = Destroyed → forallb is_ended (consumers s) = true;
  pi_threads : length (consumers s) = threads
}.
Context (Hnd : NoDup all_tasks).

(** A running action has no future yet. *)
Lemma running_fresh (s : pool) (t : task_id) : pool_inv s → t ∈ running s → t ∉ (futures s).*1.
Proof.
  intros Hi Ht Hf. pose proof Hnd as Hnd'. rewrite <- (pi_perm s Hi) in Hnd'.
  apply NoDup_app in Hnd' as (_ & _ & Hnd'). apply NoDup_app in Hnd' as (_ & _ & Hnd').
  apply NoDup_app in Hnd' as (_ & Hd & _). by apply (Hd t).
Qed.

Lemma wake_actions (cs : list consumer) : omap action_of (wake <$> cs) = omap action_of cs.
Proof. induction cs as [|c cs IH]; [done|]. cbn. rewrite IH. by destruct c. Qed.

Lemma wake_ended (cs : list consumer) : Ended ∈ wake <$> cs → Ended ∈ cs.
Proof. intros (c & Hc & Hin)%list_elem_of_fmap. by destruct c. Qed.

Lemma wake_asleep (cs : list consumer) : Asleep ∉ wake <$> cs.
Proof. intros (c & Hc & Hin)%list_elem_of_fmap. by destruct c. Qed.

(** The end of an operation. *)
Lemma return_inv (s : pool) (k : nat) (r : result unit) (more : list (task_id * result unit)) :
  pool_inv s → current (main s) = k → (k < length ops)%nat → to_queue (main s) = tasks_from (S k) →
  closed (main s) = false → main_running (main s) ≡ₚ more.*1 →
  operation_result k r (futures s ++ more) →
  pool_inv (return_operation s k r (futures s ++ more)).
Proof.
  intros [Hp Hst Hm Hnum Hres Hact Hen Has Hj Hth] Hk Hlt Htq Hcl Hmore Hr. unfold return_operation.
  destruct (call_operation_spec (S k) (futures s ++ more) ltac:(lia)) as (Eq & Ec & Hm' & Ecl & Erun).
  unfold running in *. split; cbn [queue_ consumers main results started futures running]; unfold running;
    cbn [main consumers].
  - rewrite Eq, Erun, fmap_app, <- Hp, Htq, Hmore. cbn [app]. f_equiv. f_equiv.
    rewrite app_assoc, (Permutation_app_comm _ more.*1). by rewrite app_assoc.
  - rewrite Erun, fmap_app, Hst, Hmore. cbn [app].
    rewrite app_assoc, (Permutation_app_comm _ more.*1). by rewrite app_assoc.
  - done.
  - rewrite length_app, Hnum, Ec, Hk. cbn. lia.
  - intros j r' Hj'. apply lookup_app_Some in Hj' as [Hj'|[Hge Hj']]; [by apply operation_result_app, Hres|].
    destruct (j - length (results s))%nat as [|q] eqn:Eq'; [|done]. injection Hj' as <-. by replace j with k by lia.
  - by rewrite Ecl, Hact, Hcl.
  - intros Hin. destruct (Hen Hin) as [Hc' _]. congruence.
  - intros Hin. destruct (Has Hin) as [Ha _]. split; [done|by left].
  - intros Hd. by destruct (call_operation_not_destroyed (S k)).
  - done.
Qed.

(** A step that leaves the actions, the results and the threads' ends alone. *)
Lemma queue_inv (s : pool) (k : nat) (p : Z) (todo : list Z) :
  pool_inv s → main s = Queueing k (p :: todo) →
  pool_inv (mkPool (ActionQueue.push (queue_ s) (k, p)) (wake <$> consumers s) (Queueing k todo) (results s)
              (started s) (futures s)).
Proof.
  intros [Hp Hst Hm Hnum Hres Hact Hen Has Hj Hth] Em. unfold running in *. rewrite Em in *.
  cbn [to_queue main_running app main_ok current closed negb] in *.
  split; cbn [queue_ consumers main results started futures ActionQueue.push ActionQueue.actions_
    ActionQueue.is_active_]; unfold running; cbn [main consumers main_running app to_queue current closed negb];
    rewrite ?wake_actions; try done.
  - rewrite <- Hp. cbn [app fmap list_fmap]. constructor. rewrite <- !app_assoc. cbn [app].
    rewrite app_assoc, app_assoc. symmetry. etrans; [|apply Permutation_middle]. constructor.
    by rewrite <- !app_assoc.
  - intros Hin. by destruct (Hen (wake_ended _ Hin)).
  - intros Hin. by destruct (wake_asleep _ Hin).
  - by rewrite length_fmap.
Qed.

Lemma get_inv (s : pool) (k : nat) (p : Z) (todo : list Z) :
  pool_inv s → main s = Getting k (p :: todo) → find_future (k, p) (futures s) = Some (Ok tt) →
  pool_inv (set_main s (Getting k todo)).
Proof.
  intros [Hp Hst Hm Hnum Hres Hact Hen Has Hj Hth] Em Hf. unfold running in *. rewrite Em in *.
  cbn [to_queue main_running app main_ok current closed negb] in *.
  split; cbn [set_main queue_ consumers main results started futures]; unfold running;
    cbn [main consumers main_running app to_queue current closed negb main_ok]; try done.
  - destruct Hm as (Hk & dn & E & Hd). split; [done|]. exists (dn ++ [p]). split; [by rewrite <- app_assoc|].
    intros t Ht. rewrite fmap_app, app_comm_cons in Ht. apply elem_of_app in Ht as [Ht|Ht]; [by apply Hd|].
    by apply list_elem_of_singleton in Ht as ->.
  - intros Hin. destruct (Has Hin) as [Ha _]. split; [done|by left].
Qed.

(** The main thread closes the queue, notifies and joins. *)
Lemma leave_inv (r : result unit) (s s' : pool) :
  pool_inv s → main s = Leaving ∨ main s = Notifying ∨ main s = Joining →
  main_step r s = Some s' → pool_inv s'.
Proof.
  intros [Hp Hst Hm Hnum Hres Hact Hen Has Hj Hth] Em. unfold main_step, running in *.
  destruct Em as [Em|[Em|Em]]; rewrite Em in *; cbn [to_queue main_running app main_ok current closed negb] in *.
  - intros [= <-]. split; cbn [queue_ consumers main results started futures]; unfold running;
      cbn [main consumers main_running app to_queue current closed negb]; try done.
    + intros Hin. by destruct (Hen Hin).
    + intros Hin. destruct (Has Hin) as [Ha _]. split; [done|by right].
  - intros [= <-]. split; cbn [queue_ consumers main results started futures]; unfold running;
      cbn [main consumers main_running app to_queue current closed negb]; rewrite ?wake_actions; try done.
    + intros Hin. by apply Hen, wake_ended.
    + intros Hin. by destruct (wake_asleep _ Hin).
    + by rewrite length_fmap.
  - destruct (forallb is_ended (consumers s)) eqn:Ea; [|done]. intros [= <-].
    split; cbn [set_main queue_ consumers main results started futures]; unfold running;
      cbn [main consumers main_running app to_queue current closed negb]; try done.
    intros Hin. rewrite forallb_forall in Ea. by pose proof (Ea Asleep (proj1 (list_elem_of_In _ _) Hin)).
Qed.

Lemma main_step_inv (r : result unit) (s s' : pool) : pool_inv s → main_step r s = Some s' → pool_inv s'.
Proof.
  intros Hi. unfold main_step. destruct (main s) as [k [|p todo]|k|k [|p todo]| | | |] eqn:Em.
  - intros [= <-]. destruct Hi as [Hp Hst Hm Hnum Hres Hact Hen Has Hj Hth]. unfold running in *. rewrite Em in *.
    cbn [to_queue main_running app main_ok current closed negb fmap list_fmap] in *.
    split; cbn [queue_ consumers main results started futures]; unfold running;
      cbn [main consumers main_running app to_queue current closed negb main_ok]; try done.
    + rewrite <- Hp, app_assoc, <- Permutation_middle. by rewrite <- app_assoc.
    + rewrite Permutation_app_comm, Hst. done.
    + intros Hin. destruct (Has Hin) as [Ha _]. split; [done|by left].
  - intros [= <-]. by apply queue_inv.
  - assert (Hrun : main_task k ∈ running s) by (unfold running; rewrite Em; left).
    pose proof (running_fresh s _ Hi Hrun) as Hfr. pose proof (pi_main s Hi) as Hk. rewrite Em in Hk. cbn in Hk.
    destruct r as [[]|e]; intros [= <-].
    + destruct Hi as [Hp Hst Hm Hnum Hres Hact Hen Has Hj Hth]. unfold running in *. rewrite Em in *.
      cbn [to_queue main_running app main_ok current closed negb] in *.
      split; cbn [queue_ consumers main results started futures]; unfold running;
        cbn [main consumers main_running app to_queue current closed negb main_ok]; try done.
      * rewrite <- Hp, fmap_app. f_equiv. f_equiv. cbn [fmap list_fmap fst].
        rewrite app_assoc, Permutation_app_comm. done.
      * rewrite fmap_app. cbn [fmap list_fmap fst]. rewrite app_assoc, Permutation_app_comm. done.
      * split; [done|]. exists []. split; [done|]. intros t Ht. apply list_elem_of_singleton in Ht as ->.
        by apply find_future_last.
      * intros j r' Hj'. by apply operation_result_app, Hres.
      * intros Hin. destruct (Has Hin) as [Ha _]. split; [done|by left].
    + apply return_inv; try done; rewrite ?Em; try done. cbn [operation_result].
      exists [], (main_task k), (pair k <$> (operation k).2). split; [done|]. split; [|by apply find_future_last].
      intros t Ht. by apply elem_of_nil in Ht.
  - intros [= <-]. pose proof (pi_main s Hi) as Hk. rewrite Em in Hk. destruct Hk as (Hk & dn & E & Hd).
    rewrite app_nil_r in E. rewrite <- (app_nil_r (futures s)).
    apply return_inv; try done; rewrite ?Em; try done. cbn [operation_result]. rewrite app_nil_r. unfold op_tasks.
    by rewrite E.
  - destruct (find_future (k, p) (futures s)) as [[[]|e]|] eqn:Ef; [| |done]; intros [= <-].
    + by eapply get_inv.
    + pose proof (pi_main s Hi) as Hk. rewrite Em in Hk. destruct Hk as (Hk & dn & E & Hd).
      rewrite <- (app_nil_r (futures s)).
      apply return_inv; try done; rewrite ?Em; try done. cbn [operation_result]. rewrite app_nil_r.
      exists (main_task k :: (pair k <$> dn)), (k, p), (pair k <$> todo).
      split; [unfold op_tasks; by rewrite E, fmap_app|done].
  - intros Hs. eapply (leave_inv r s); [done|by left|]. unfold main_step. by rewrite Em.
  - intros Hs. eapply (leave_inv r s); [done|by right; left|]. unfold main_step. by rewrite Em.
  - intros Hs. eapply (leave_inv r s); [done|by right; right|]. unfold main_step. by rewrite Em.
  - done.
Qed.

Lemma lookup_split {B} (l : list B) (i : nat) (x : B) :
  l !! i = Some x → ∃ l1 l2, l = l1 ++ x :: l2 ∧ ∀ y, <[i := y]> l = l1 ++ y :: l2.
Proof.
  intros Hx. exists (take i l), (drop (S i) l). pose proof (lookup_lt_Some _ _ _ Hx) as Hlt.
  split; [by rewrite take_drop_middle|]. intros y.
  rewrite insert_take_drop by done. done.
Qed.

Lemma elem_of_replaced (l1 l2 : list consumer) (x y z : consumer) :
  z ≠ y → z ∈ l1 ++ y :: l2 → z ∈ l1 ++ x :: l2.
Proof. rewrite !elem_of_app, !elem_of_cons. intros Hy [H1|[H1|H1]]; [tauto|congruence|tauto]. Qed.

(** A thread that has not ended is replaced by one without a new action. *)
Lemma replace_inv (s : pool) (l1 l2 : list consumer) (c c' : consumer) :
  pool_inv s → consumers s = l1 ++ c :: l2 → c ≠ Ended → action_of c = None → action_of c' = None →
  (c' = Ended → closed (main s) = true ∧ ActionQueue.actions_ (queue_ s) = []) →
  (c' = Asleep → closed (main s) = false ∧ ActionQueue.actions_ (queue_ s) = []) →
  pool_inv (mkPool (queue_ s) (l1 ++ c' :: l2) (main s) (results s) (started s) (futures s)).
Proof.
  intros [Hp Hst Hm Hnum Hres Hact Hen Has Hj Hth] El Hne Ha Ha' He' Hs'. unfold running in *.
  assert (Eo : omap action_of (l1 ++ c' :: l2) = omap action_of (consumers s)).
  { rewrite El, !omap_app. cbn [omap list_omap]. by rewrite Ha, Ha'. }
  split; cbn [queue_ consumers main results started futures]; unfold running; cbn [main consumers]; rewrite ?Eo; try done.
  - intros Hin. destruct (decide (c' = Ended)) as [->|Hc']; [by apply He'|]. apply Hen. rewrite El.
    eapply elem_of_replaced; [|exact Hin]. congruence.
  - intros Hin. destruct (decide (c' = Asleep)) as [->|Hc'].
    + destruct (Hs' eq_refl) as [Hc Hq]. split; [done|by left].
    + apply Has. rewrite El. eapply elem_of_replaced; [|exact Hin]. congruence.
  - intros Hd. specialize (Hj Hd). rewrite El, forallb_app in Hj. apply andb_true_iff in Hj as [_ Hj].
    cbn [forallb] in Hj. apply andb_true_iff in Hj as [Hj _]. by destruct c.
  - rewrite <- Hth, El, !length_app. done.
Qed.

(** A thread takes the next action. *)
Lemma take_inv (s : pool) (l1 l2 : list consumer) (t : task_id) (rest : list task_id) :
  pool_inv s → consumers s = l1 ++ InPop :: l2 → ActionQueue.actions_ (queue_ s) = t :: rest →
  pool_inv (mkPool (ActionQueue.mk rest (ActionQueue.is_active_ (queue_ s))) (l1 ++ InAction t :: l2) (main s)
              (results s) (started s ++ [t]) (futures s)).
Proof.
  intros [Hp Hst Hm Hnum Hres Hact Hen Has Hj Hth] El Eq. unfold running in *. rewrite El, Eq, omap_app in *.
  cbn [omap list_omap action_of] in *.
  split; cbn [queue_ consumers main results started futures ActionQueue.actions_ ActionQueue.is_active_];
    unfold running; cbn [main consumers]; rewrite ?omap_app; cbn [omap list_omap action_of]; try done.
  - rewrite <- Hp. f_equiv. rewrite <- !app_assoc. cbn [app].
    rewrite (app_assoc (main_running _)), (app_assoc rest), <- Permutation_middle. by rewrite <- !app_assoc.
  - rewrite Permutation_app_comm, Hst. cbn [app]. rewrite <- !app_assoc. cbn [app].
    by rewrite <- !Permutation_middle.
  - intros Hin. apply (elem_of_replaced l1 l2 InPop) in Hin; [|done]. by destruct (Hen Hin).
  - intros Hin. apply (elem_of_replaced l1 l2 InPop) in Hin; [|done]. by destruct (Has Hin).
  - intros Hd. specialize (Hj Hd). rewrite forallb_app in Hj. apply andb_true_iff in Hj as [_ Hj]. done.
  - rewrite <- Hth, !length_app. done.
Qed.

(** An action of a thread ends. *)
Lemma end_inv (s : pool) (l1 l2 : list consumer) (t : task_id) (r : result unit) :
  pool_inv s → consumers s = l1 ++ InAction t :: l2 →
  pool_inv (mkPool (queue_ s) (l1 ++ InPop :: l2) (main s) (results s) (started s) (futures s ++ [(t, r)])).
Proof.
  intros [Hp Hst Hm Hnum Hres Hact Hen Has Hj Hth] El. unfold running in *. rewrite El, omap_app in *.
  cbn [omap list_omap action_of] in *.
  assert (Eperm : (main_running (main s) ++ omap action_of l1 ++ omap action_of l2) ++ (futures s ++ [(t, r)]).*1 ≡ₚ
    (main_running (main s) ++ omap action_of l1 ++ t :: omap action_of l2) ++ (futures s).*1).
  { rewrite fmap_app. cbn [fmap list_fmap fst]. rewrite !app_assoc, (Permutation_app_comm _ [t]). cbn [app].
    rewrite <- !app_assoc. cbn [app]. rewrite (app_assoc (main_running _) (omap action_of l1) (t :: _)),
      <- Permutation_middle. by rewrite <- !app_assoc. }
  split; cbn [queue_ consumers main results started futures]; unfold running; cbn [main consumers];
    rewrite ?omap_app; cbn [omap list_omap action_of]; rewrite ?Eperm; try done.
  - by apply main_ok_app.
  - intros j r' Hj'. by apply operation_result_app, Hres.
  - intros Hin. apply Hen. by apply (elem_of_replaced l1 l2 (InAction t)) in Hin.
  - intros Hin. apply Has. by apply (elem_of_replaced l1 l2 (InAction t)) in Hin.
  - intros Hd. specialize (Hj Hd). rewrite forallb_app in Hj. apply andb_true_iff in Hj as [_ Hj]. done.
  - rewrite <- Hth, !length_app. done.
Qed.

Lemma pool_step_inv (e : pool_event) (s s' : pool) : pool_inv s → pool_step e s = Some s' → pool_inv s'.
Proof.
  intros Hi. destruct e as [r|i r|i]; cbn [pool_step]; [by apply main_step_inv| |].
  - unfold consumer_step. destruct (consumers s !! i) as [[| |t|]|] eqn:Ec; try done;
      destruct (lookup_split _ _ _ Ec) as (l1 & l2 & El & Hins); rewrite ?Hins.
    + unfold ActionQueue.pop. destruct (ActionQueue.actions_ (queue_ s)) as [|t rest] eqn:Eq.
      * pose proof (pi_active s Hi) as Hact.
        destruct (ActionQueue.is_active_ (queue_ s)) eqn:Ea; intros [= <-];
          (eapply replace_inv; [done|exact El|done|done|done| |]); try done; intros _; (split; [|done]);
          destruct (closed (main s)); done.
      * intros [= <-]. rewrite Hins. by eapply take_inv.
    + intros [= <-]. by apply end_inv.
  - unfold spurious_wakeup. destruct (consumers s !! i) as [[| |t|]|] eqn:Ec; try done.
    destruct (lookup_split _ _ _ Ec) as (l1 & l2 & El & ->). intros [= <-]. by eapply replace_inv.
Qed.

Lemma pool_run_inv (l : list pool_event) : ∀ (s s' : pool), pool_inv s → pool_run l s = Some s' → pool_inv s'.
Proof.
  induction l as [|e l IH]; intros s s' Hi; cbn [pool_run]; [by intros [= <-]|].
  destruct (pool_step e s) as [s1|] eqn:E; [|done]. apply IH. by eapply pool_step_inv.
Qed.

Lemma pool_start_inv : pool_inv (pool_start threads).
Proof.
  assert (Ho : omap action_of (replicate threads InPop) = []) by (induction threads; done).
  destruct (call_operation_spec 0 [] ltac:(lia)) as (Eq & Ec & Hm & Ecl & Erun).
  assert (Hrun : running (pool_start threads) = []) by (unfold running, pool_start; cbn; by rewrite Erun, Ho).
  split; cbn [pool_start queue_ consumers main results started futures ActionQueue.empty ActionQueue.actions_
    ActionQueue.is_active_]; rewrite ?Hrun; try done.
  - by rewrite Eq, app_nil_r.
  - by rewrite Ecl.
  - intros Hin. by apply elem_of_replicate in Hin as [Hin _].
  - intros Hin. by apply elem_of_replicate in Hin as [Hin _].
  - intros Hd. by destruct (call_operation_not_destroyed 0).
  - apply length_replicate.
Qed.

(** ** Where the pool stops *)
Lemma consumer_stuck (s : pool) (c : consumer) :
  pool_stuck s → c ∈ consumers s → c = Ended ∨ c = Asleep.
Proof.
  intros [_ Hst] Hc. apply list_elem_of_lookup_1 in Hc as [i Hi]. specialize (Hst i (Ok tt)).
  unfold consumer_step in Hst. rewrite Hi in Hst. destruct c as [| |t|]; [|by right|done|by left].
  by destruct (ActionQueue.pop (queue_ s)) as [[[t|] q]|].
Qed.

(** A pool with threads empties its queue. *)
Lemma queue_emptied (s : pool) : pool_inv s → (0 < threads)%nat → pool_stuck s →
  ActionQueue.actions_ (queue_ s) = [] ∧ omap action_of (consumers s) = [].
Proof.
  intros Hi Hth Hst. split.
  - destruct (consumers s) as [|c l] eqn:Ec.
    + pose proof (pi_threads s Hi) as Hl. rewrite Ec in Hl. cbn in Hl. lia.
    + destruct (consumer_stuck s c Hst) as [->| ->]; [rewrite Ec; left| |].
      * apply (pi_ended s Hi). rewrite Ec. left.
      * apply (pi_asleep s Hi). rewrite Ec. left.
  - destruct (omap action_of (consumers s)) as [|t l] eqn:E; [done|]. exfalso.
    assert (Hin : t ∈ omap action_of (consumers s)) by (rewrite E; left).
    apply list_elem_of_omap in Hin as (c & Hc & Ha). by destruct (consumer_stuck s c Hst Hc) as [->| ->].
Qed.

Lemma stuck_destroyed (s : pool) : pool_inv s → (0 < threads)%nat → pool_stuck s →
  main s = Destroyed ∧ (futures s).*1 ≡ₚ all_tasks.
Proof.
  intros Hi Hth Hst. destruct (queue_emptied s Hi Hth Hst) as [Hq Ho].
  pose proof (pi_perm s Hi) as Hp. unfold running in Hp. rewrite Hq, Ho in Hp.
  pose proof (proj1 Hst (Ok tt)) as Hm. unfold main_step in Hm. pose proof (pi_main s Hi) as Hok.
  destruct (main s) as [k [|p todo]|k|k [|p todo]| | | |] eqn:Em; try done; cbn [to_queue main_running app main_ok] in *.
  - destruct Hok as (Hk & dn & E & _). exfalso.
    destruct (find_future (k, p) (futures s)) as [[u|e]|] eqn:Ef; [done..|]. apply find_future_none in Ef.
    assert (Hall : (k, p) ∈ all_tasks).
    { apply elem_of_tasks_from. exists k. split; [lia|]. split; [done|]. unfold op_tasks. right. rewrite E, fmap_app.
      apply elem_of_app. right. left. }
    rewrite <- Hp in Hall. apply elem_of_app in Hall as [Hall|Hall]; [|by apply Ef].
    apply elem_of_tasks_from in Hall as (j & Hj & _ & Hall). apply elem_of_op_tasks in Hall. cbn in Hall. lia.
  - destruct (forallb is_ended (consumers s)) eqn:Ea; [done|]. exfalso. apply not_true_iff_false in Ea. apply Ea.
    apply forallb_forall. intros c Hc%list_elem_of_In. destruct (consumer_stuck s c Hst Hc) as [->| ->]; [done|].
    destruct (pi_asleep s Hi Hc) as [_ [Hcl|Hcl]]; by rewrite Em in Hcl.
Qed.

Lemma running_bound (s : pool) : pool_inv s → (length (running s) ≤ threads + 1)%nat.
Proof.
  intros Hi. unfold running. rewrite length_app. rewrite <- (pi_threads s Hi).
  assert (length (omap action_of (consumers s)) ≤ length (consumers s))%nat.
  { induction (consumers s) as [|c l IH]; [done|]. cbn. destruct (action_of c); cbn in *; lia. }
  destruct (main s); cbn; lia.
Qed.
End pool.

Lemma NoDup_tasks_from (ops : list (Z * list Z)) :
  Forall (fun o => NoDup (o.1 :: o.2)) ops → ∀ n k, (length ops ≤ k + n)%nat → NoDup (tasks_from ops k).
Proof.
  intros Ho. induction n as [|n IH]; intros k Hk.
  - unfold tasks_from. rewrite drop_ge by (rewrite length_imap; lia). apply NoDup_nil_2.
  - destruct (decide (k < length ops)%nat) as [Hlt|Hge].
    + rewrite tasks_from_S by done. apply NoDup_app. split; [|split; [|apply IH; lia]].
      * unfold operation. destruct (lookup_lt_is_Some_2 _ _ Hlt) as [o E]. rewrite E. cbn [from_option id].
        apply (NoDup_fmap_2 (pair k) (o.1 :: o.2)). exact (proj1 (Forall_lookup _ _) Ho k o E).
      * intros t Ht Ht'. apply elem_of_op_tasks in Ht. apply elem_of_tasks_from in Ht' as (j & Hj & _ & Ht').
        apply elem_of_op_tasks in Ht'. lia.
    + unfold tasks_from. rewrite drop_ge by (rewrite length_imap; lia). apply NoDup_nil_2.
Qed.

(** ** The packs of an operation *)
Lemma plan_nodup {G : InstructionGenerator} (tp : Constants) (op : SparseReduction.t G) (main_pack : Z) (run_queue : list Z) :
  plan tp op = Ok (main_pack, run_queue) → NoDup (main_pack :: run_queue).
Proof.
  unfold plan. set (f := fun s pack => _).
  assert (Hf : ∀ l main queue, (∀ p, p ∈ l → p ≠ 0) →
    (if main =? 0 then queue = [] ∧ NoDup l else NoDup (main :: queue ++ l)) →
    rfold f (main, queue) l = Ok (main_pack, run_queue) → NoDup (main_pack :: run_queue)).
  { induction l as [|p l IH]; intros main queue Hl Hm; cbn [rfold].
    - intros [= <- <-]. rewrite app_nil_r in Hm. destruct (main =? 0); [|done]. destruct Hm as [-> _].
      apply NoDup_singleton.
    - unfold f at 1. destruct (get_num_exec_iterations op p) as [n|e]; cbn [rbind]; [|done].
      assert (Hp0 : p ≠ 0) by (apply Hl; by left). assert (Hl' : ∀ q, q ∈ l → q ≠ 0) by (intros q Hq; apply Hl; by right).
      destruct (n =? 0); [|destruct (main =? 0) eqn:E0]; cbn [rbind]; apply IH; try done.
      + destruct (main =? 0); [destruct Hm as [-> Hm]; split; [done|]; by apply NoDup_cons in Hm as [_ Hm]|].
        rewrite app_comm_cons in Hm |- *. rewrite <- Permutation_middle in Hm. by apply NoDup_cons in Hm as [_ Hm].
      + destruct Hm as [-> Hm]. by rewrite (proj2 (Z.eqb_neq p 0)).
      + rewrite E0. by rewrite <- app_assoc. }
  apply Hf.
  - intros p Hp. apply elem_of_pack_identifiers in Hp. lia.
  - cbn. split; [done|apply NoDup_pack_identifiers].
Qed.

Lemma plans_nodup {G : InstructionGenerator} (tp : Constants) (reductions : list (SparseReduction.t G))
    (ops : list (Z * list Z)) :
  Forall2 (fun r o => plan tp r = Ok o) reductions ops → NoDup (all_tasks ops).
Proof.
  intros HF. apply (NoDup_tasks_from ops) with (n := length ops); [|lia].
  induction HF as [|r [p q] rs ops Hr HF IH]; constructor; [|done]. by apply plan_nodup in Hr.
Qed.

(** ** Theorems *)

(** Property C2.  A pool of threads serves a sequence of operations, whatever the
    threads do first, however actions overlap and whether they end normally or throw.
    (1) A run has a bounded number of steps, not counting spurious wake-ups.  (2) An
    action starts at most once, only actions of the operations start, those that have
    started run or have ended, and no more than one for each thread of the pool and
    one for the main thread run at a time.  (3) When [run_operation] has returned, all
    actions of the operation have ended normally; when it has thrown, it has thrown
    the first exception in the order of the packs, those before having ended normally.
    (4) A pool that cannot step any more has been destroyed, with all threads joined,
    every call of [run_operation] has ended, and every action has run. *)
Theorem pool_serves_operations {G : InstructionGenerator} (tp : Constants)
    (reductions : list (SparseReduction.t G)) (ops : list (Z * list Z)) (threads : nat) (l : list pool_event) (s : pool) :
  Forall2 (fun r o => plan tp r = Ok o) reductions ops → (0 < threads)%nat →
  pool_run ops l (pool_start ops threads) = Some s →
  (length l ≤ (threads + 4) * sum_list_with (fun o => length o.2) ops + 3 * length ops + 3 * threads + 3 +
     2 * spurious l)%nat ∧
  (NoDup (started s) ∧ (∀ t, t ∈ started s → t ∈ all_tasks ops) ∧
   started s ≡ₚ running ops s ++ (futures s).*1 ∧ (length (running ops s) ≤ threads + 1)%nat) ∧
  (∀ k r, results s !! k = Some r → operation_result ops k r (futures s)) ∧
  (pool_stuck ops s →
   main s = Destroyed ∧ forallb is_ended (consumers s) = true ∧ length (results s) = length ops ∧
   (futures s).*1 ≡ₚ all_tasks ops).
Proof.
  intros Hplan Hth Hrun. pose proof (plans_nodup tp reductions ops Hplan) as Hnd.
  pose proof (pool_run_inv ops threads Hnd l _ s (pool_start_inv ops threads) Hrun) as Hi.
  split; [|split; [|split]].
  - pose proof (pool_run_rest ops threads l (pool_start ops threads) s (length_replicate _ _) Hrun) as Hb.
    rewrite pool_start_rest, rest_from_0 in Hb. lia.
  - pose proof (pi_started _ _ _ Hi) as Hst. pose proof (pi_perm _ _ _ Hi) as Hp. rewrite <- Hst in Hp.
    split; [|split; [|split; [done|by apply running_bound]]].
    + rewrite <- Hp, !NoDup_app in Hnd. tauto.
    + intros t Ht. rewrite <- Hp, !elem_of_app. tauto.
  - apply (pi_results _ _ _ Hi).
  - intros Hst. destruct (stuck_destroyed ops threads s Hi Hth Hst) as [Em Hall].
    split; [done|]. split; [by apply (pi_joined _ _ _ Hi)|]. split; [|done].
    rewrite (pi_number _ _ _ Hi), Em. done.
Qed.

(** The operation of CxlOperation on two packs. *)
Lemma split_plan : ∃ r : SparseReduction.t (Channel true),
  SparseReduction.make sample_cxl split_op None = Ok r ∧ plan sample_cxl r = Ok (1, [2]).
Proof.
  assert (H : match SparseReduction.make (G := Channel true) sample_cxl split_op None with
              | Ok r => plan sample_cxl r = Ok (1, [2]) | Err _ => False end) by (vm_compute; reflexivity).
  destruct (SparseReduction.make sample_cxl split_op None) as [r|e]; [by exists r|done].
Qed.

(** Two operations on two threads.  The first one throws in the main thread while its
    second pack runs. *)
Definition throwing_events : list pool_event :=
  [PoolStep 1 (Ok tt); MainStep (Ok tt); PoolStep 0 (Ok tt); MainStep (Ok tt); MainStep (Err InvalidArguments)].

Definition later_events : list pool_event :=
  [PoolStep 1 (Ok tt); Spurious 1; MainStep (Ok tt); PoolStep 1 (Ok tt); MainStep (Ok tt); PoolStep 1 (Ok tt);
   MainStep (Ok tt); MainStep (Ok tt); MainStep (Ok tt); MainStep (Ok tt); PoolStep 1 (Ok tt); PoolStep 0 (Ok tt);
   PoolStep 0 (Ok tt); MainStep (Ok tt); MainStep (Ok tt)].

Definition two_operations : list (Z * list Z) := [(1, [2]); (1, [2])].

(** [run_operation] has thrown, and an action of its operation still runs: the
    reference to the operation in it is dangling from here on. *)
Example exception_leaves_action : ∃ s,
  pool_run two_operations throwing_events (pool_start two_operations 2) = Some s ∧
  results s = [Err InvalidArguments] ∧ running two_operations s = [(0%nat, 2)].
Proof. eexists. split; [vm_compute; reflexivity|]. split; reflexivity. Qed.

Lemma pool_serves_operations_witness : ∃ s,
  pool_run two_operations (throwing_events ++ later_events) (pool_start two_operations 2) = Some s ∧
  main s = Destroyed ∧ results s = [Err InvalidArguments; Ok tt] ∧
  (futures s).*1 ≡ₚ [(0%nat, 1); (0%nat, 2); (1%nat, 1); (1%nat, 2)].
Proof.
  destruct split_plan as (r & _ & Hp).
  eexists. split; [vm_compute; reflexivity|]. split; [reflexivity|]. split; [reflexivity|].
  match goal with |- (futures ?s).*1 ≡ₚ _ =>
    destruct (pool_serves_operations sample_cxl [r; r] two_operations 2 (throwing_events ++ later_events) s)
      as (_ & _ & _ & Hst)
  end.
  - repeat constructor; exact Hp.
  - lia.
  - vm_compute. reflexivity.
  - apply Hst. split; [intros o; reflexivity|]. intros [|[|i]] o; reflexivity.
Defined.
