(* ===== verification/Contexts.v ===== *)
(** * Contexts

    include/pnmlib/core/context.h, dispatcher.h and runner.h with core/context/,
    core/device/device.cpp, core/operation_runner/api/runner.cpp and
    core/memory/api/accessor_builder.cpp: a context puts a device, an allocator, a
    transfer manager, a runner and the functions for its operations together.

    The parts refer to each other through variants and casts ([std::get] of a
    region, [static_cast] of an operation): the first theorem shows that a context
    only holds parts that fit.  The second one runs a buffer through a context:
    allocation, copy to the device, copy back and release. *)
From S2P Require Import Prelude Topology RankAddress RankMemory DeviceMemory WordMemory SlsSimulator Views Allocators Buffers SlsDevice Transfer.

(** ** Devices

    [Device::Type]; the underlying type is [uint8_t] and has other values. *)
Definition SLS : Z := 0.
Definition IMDB : Z := 1.

Record device := mkDevice {
  device_type : Z;
  devmem : device_file;
  alignment : Z
}.

(** [Device::as<T>()] in the debug build: [dynamic_cast] to the class of [type]. *)
Definition device_as (type : Z) (d : device) : result device :=
  let! _ := assert (device_type d =? type) in Ok d.

(** The constructors of the devices open files and are parameters. *)
Record device_files := mkDevices {
  open_sls : result device_file;
  open_imdb : result (device_file * Z)
}.

Definition make_device (fs : device_files) (type : Z) : result device :=
  if type =? SLS then let! f := open_sls fs in Ok (mkDevice SLS f 0)
  else if type =? IMDB then let! (f, a) := open_imdb fs in Ok (mkDevice IMDB f a)
  else Err InvalidArguments.

(** ** include/pnmlib/core/dispatcher.h *)

(** The classes of operations, [std::type_index] of the operator. *)
Inductive operation_type := SlsOperationType | ScanType | OtherType (index : Z).

#[export] Instance operation_type_eq_dec : EqDecision operation_type.
Proof. solve_decision. Defined.

(** The functions that the contexts register. *)
Inductive internal_function := sls_channel_dispatch | sls_rank_dispatch | scan_dispatch.

Module Dispatcher.
Definition t : Type := list (operation_type * internal_function).

Definition empty : t := [].

Definition register_function (d : t) (op : operation_type) (f : internal_function) : t :=
  (op, f) :: filter (fun e => e.1 ≠ op) d.

(** [functions_.at]: [std::out_of_range] is a [std::logic_error]. *)
Definition find_function (d : t) (op : operation_type) : result internal_function :=
  of_option LogicError (snd <$> find (fun e => bool_decide (e.1 = op)) d).
End Dispatcher.

(** ** core/operation_runner/internal_runner.h

    The runners, and the classes of internal operations that they can be given. *)
Inductive runner_core :=
  | CxlReductionRunner (num_of_workers : Z)
  | AxdimmReductionRunner (num_of_workers : Z)
  | ImdbScanRunner.

Inductive internal_operator := SparseReductionChanneled | SparseReductionRanked | ScanOperation.

Definition make_reduction_runner (f : Z → runner_core) (d : device) (workers : Z) : result runner_core :=
  let! _ := device_as SLS d in Ok (f workers).

Definition make_imdb_runner (d : device) : result runner_core :=
  let! _ := device_as IMDB d in Ok ImdbScanRunner.

(** The cast at the start of [run_impl], which is not checked; what the runners do
    afterwards is modelled in SlsRunner and ImdbRunner.  Both reduction classes pass
    the cast of a reduction runner, but the runner of one bus would execute a trace
    in the instruction format of the other, so that pair is refused here too. *)
Definition cast_operator (r : runner_core) (op : internal_operator) : result unit :=
  match r, op with
  | CxlReductionRunner _, SparseReductionChanneled => Ok tt
  | AxdimmReductionRunner _, SparseReductionRanked => Ok tt
  | ImdbScanRunner, ScanOperation => Ok tt
  | _, _ => Err UndefinedBehaviour
  end.

(** ** include/pnmlib/core/context.h and core/context/ *)
Section context.
Context {W : Type} `{!Driver W} (tp : Constants) (imdb_ranks : Z) (fs : device_files).

Record context := mkContext {
  type_ : Z;
  device_ : device;
  allocator_ : Allocator W;
  transfer_manager_ : TransferManager;
  runner_core_ : runner_core;
  operation_dispatcher_ : Dispatcher.t
}.

Definition SlsChannelwiseContext : result context :=
  let! d := make_device fs SLS in
  let! runner := make_reduction_runner CxlReductionRunner d (NumOfCUnits tp) in
  Ok (mkContext SLS d (ranked_allocator (NumOfCUnits tp)) ChannelTransferManager runner
        (Dispatcher.register_function Dispatcher.empty SlsOperationType sls_channel_dispatch)).

Definition SlsRankwiseContext : result context :=
  let! d := make_device fs SLS in
  let! runner := make_reduction_runner AxdimmReductionRunner d (NumOfCUnits tp) in
  Ok (mkContext SLS d (ranked_allocator (NumOfCUnits tp)) (axdimm_manager tp) runner
        (Dispatcher.register_function Dispatcher.empty SlsOperationType sls_rank_dispatch)).

Definition ImdbContext : result context :=
  let! d := make_device fs IMDB in
  let! runner := make_imdb_runner d in
  Ok (mkContext IMDB d (sequential_allocator imdb_ranks) ImdbTransferManager runner
        (Dispatcher.register_function Dispatcher.empty ScanType scan_dispatch)).

Definition make_sls_context : result context :=
  match Bus tp with
  | AXDIMM => SlsRankwiseContext
  | CXL => SlsChannelwiseContext
  end.

Definition make_context (type : Z) : result context :=
  if type =? SLS then make_sls_context
  else if type =? IMDB then ImdbContext
  else Err InvalidArguments.

(** What a registered function hands to the runner of the context. *)
Definition dispatch (f : internal_function) (ctx : context) : result unit :=
  match f with
  | sls_channel_dispatch => let! _ := device_as SLS (device_ ctx) in cast_operator (runner_core_ ctx) SparseReductionChanneled
  | sls_rank_dispatch => let! _ := device_as SLS (device_ ctx) in cast_operator (runner_core_ ctx) SparseReductionRanked
  | scan_dispatch => cast_operator (runner_core_ ctx) ScanOperation
  end.

(** [Runner::run], through [Dispatcher::invoke], up to that cast. *)
Definition runner_run (ctx : context) (op : operation_type) : result unit :=
  let! f := Dispatcher.find_function (operation_dispatcher_ ctx) op in dispatch f ctx.

(** ** core/memory/api/accessor_builder.cpp *)

(** A pointer to one of the three subclasses of [AccessorCore]. *)
Inductive any_core :=
  | ImdbCore (c : SequentialAccessorCore.t)
  | SlsCore (c : SlsAccessorCore.t)
  | ChannelCore (c : ChannelAccessorCore.t).

(** Virtual calls. *)
#[export] Instance any_accessor_core : AccessorCore any_core := {|
  access_impl c := match c with
    | ImdbCore a => access_impl a
    | SlsCore a => access_impl (AccessorCore := sls_core tp) a
    | ChannelCore a => access_impl a
    end;
  store_impl c := match c with
    | ImdbCore a => store_impl a
    | SlsCore a => store_impl (AccessorCore := sls_core tp) a
    | ChannelCore a => store_impl a
    end;
  virtual_range_impl c := match c with
    | ImdbCore a => virtual_range_impl a
    | SlsCore a => virtual_range_impl (AccessorCore := sls_core tp) a
    | ChannelCore a => virtual_range_impl a
    end;
  phys_range_impl c := match c with
    | ImdbCore a => phys_range_impl a
    | SlsCore a => phys_range_impl (AccessorCore := sls_core tp) a
    | ChannelCore a => phys_range_impl a
    end;
  bytes_impl c := match c with
    | ImdbCore a => bytes_impl a
    | SlsCore a => bytes_impl (AccessorCore := sls_core tp) a
    | ChannelCore a => bytes_impl a
    end
|}.

Definition make_imdb_accessor (region : DeviceRegion) (d : device) : result SequentialAccessorCore.t :=
  let! d := device_as IMDB d in
  SequentialAccessorCore.make (devmem d) region (alignment d).

Definition create_accessor_core (region : DeviceRegion) (ctx : context) : result any_core :=
  match region with
  | Sequential _ => let! c := make_imdb_accessor region (device_ ctx) in Ok (ImdbCore c)
  | RankedRegion _ =>
      match Bus tp with
      | AXDIMM => let! c := SlsAccessorCore.make (devmem (device_ ctx)) region in Ok (SlsCore c)
      | CXL => let! c := ChannelAccessorCore.make (devmem (device_ ctx)) region in Ok (ChannelCore c)
      end
  end.
End context.

(** ** The parts of a context fit *)
Lemma ranked_allocates_ranked {W} `{!Driver W} (n sz : Z) (props : PropertiesList.t) (w w' : W) (r : DeviceRegion) :
  RankedAllocator.allocate_impl n sz props w = (w', Ok r) → ∃ l, r = RankedRegion l.
Proof.
  unfold RankedAllocator.allocate_impl, mbind, mret. destruct (_ || _); [|destruct (_ =? _)].
  - destruct (RankedAllocator.allocate_single _ _ _ w) as [w1 [l|e]]; [|done]. intros [= _ <-]. by exists l.
  - destruct (RankedAllocator.allocate_replicate_all _ _ _ _ w) as [w1 [l|e]]; [|done]. intros [= _ <-]. by exists l.
  - by destruct (_ =? _).
Qed.

Lemma sequential_allocates_sequential {W} `{!Driver W} (n sz : Z) (props : PropertiesList.t) (w w' : W)
    (r : DeviceRegion) :
  SequentialAllocator.allocate_impl n sz props w = (w', Ok r) → ∃ s, r = Sequential s.
Proof.
  unfold SequentialAllocator.allocate_impl, mbind, mlift, call.
  destruct (SequentialAllocator.get_alloc_preference _ _); [|done].
  destruct (ioctl w _ _) as [w1 [err|req]]; [done|]. intros [= _ <-]. by eexists.
Qed.

(** [std::get] succeeds in a transfer manager whose variant is that of the region. *)
Definition no_bad_variant {A} (r : result A) : Prop := r ≠ Err StdException.

Lemma rbind_no_bad {A B} (r : result A) (f : A → result B) :
  no_bad_variant r → (∀ a, r = Ok a → no_bad_variant (f a)) → no_bad_variant (rbind r f).
Proof. unfold no_bad_variant. destruct r as [a|e]; cbn [rbind]; [intros _ H; by apply H|]. intros H _ [= ->]. by apply H. Qed.

Lemma rfold_no_bad {A S'} (f : S' → A → result S') (l : list A) : ∀ s,
  (∀ s x, no_bad_variant (f s x)) → no_bad_variant (rfold f s l).
Proof.
  induction l as [|x l IH]; intros s Hf; cbn [rfold]; [done|]. apply rbind_no_bad; [done|]. intros. by apply IH.
Qed.

Lemma of_option_no_bad {A} (e : error) (o : option A) : e ≠ StdException → no_bad_variant (of_option e o).
Proof. unfold no_bad_variant. destruct o; cbn; congruence. Qed.

Lemma vec_at_no_bad {A} (l : list A) (i : Z) : no_bad_variant (vec_at l i).
Proof. unfold vec_at, no_bad_variant. destruct (_ <? _); [done|]. by destruct (l !! _). Qed.

Lemma assert_no_bad (b : bool) : no_bad_variant (assert b).
Proof. by destruct b. Qed.
Ltac no_bad :=
  repeat first
    [ done
    | apply rbind_no_bad | apply rfold_no_bad | apply vec_at_no_bad | apply assert_no_bad
    | apply of_option_no_bad; done
    | solve [auto]
    | match goal with |- ∀ _, _ => intros ? end
    | case_match; cbn beta iota ].

Lemma mapped_no_bad (f : device_file) (n o : Z) : no_bad_variant (MappedData f n o).
Proof. unfold MappedData. by destruct (mmap f n o). Qed.

Lemma align_no_bad (v a : Z) : no_bad_variant (fast_align_up v a).
Proof. unfold fast_align_up. no_bad. Qed.

Lemma accessors_no_bad (f : device_file) (s : SequentialRegion) (l : list SequentialRegion) (align : Z) :
  no_bad_variant (SequentialAccessorCore.make f (Sequential s) align) ∧
  no_bad_variant (SlsAccessorCore.make f (RankedRegion l)) ∧
  no_bad_variant (ChannelAccessorCore.make f (RankedRegion l)).
Proof.
  pose proof (mapped_no_bad f). pose proof align_no_bad.
  unfold SequentialAccessorCore.make, SlsAccessorCore.make, ChannelAccessorCore.make.
  unfold SlsAccessorCore.init_region, ChannelAccessorCore.init_channel. cbn [get_sequential get_ranked rbind].
  split; [|split]; no_bad.
Qed.

Lemma managers_no_bad (tp : Constants) (core : any_core) (h : span) (m : memory) :
  let manager := match core with
    | ImdbCore _ => ImdbTransferManager | SlsCore _ => axdimm_manager tp | ChannelCore _ => ChannelTransferManager end in
  let virt := virtual_range_impl (AccessorCore := any_accessor_core tp) core in
  let phys := phys_range_impl (AccessorCore := any_accessor_core tp) core in
  no_bad_variant (copy_to_device_impl manager h virt phys m) ∧
  no_bad_variant (copy_from_device_impl manager virt phys h m).
Proof.
  destruct core as [a|a|a]; cbn [virtual_range_impl phys_range_impl any_accessor_core sequential_core channel_core
    sls_core copy_to_device_impl copy_from_device_impl ImdbTransferManager ChannelTransferManager axdimm_manager].
  - cbn [get_virtual_sequential rbind]. split; no_bad.
  - unfold AxdimmTransferManager.copy_to_device, AxdimmTransferManager.copy_from_device.
    cbn [get_virtual_ranked get_ranked rbind]. split; [no_bad|].
    generalize (SlsAccessorCore.region_ a). induction (SlsAccessorCore.vregion_ a) as [|v l IH]; intros rs;
      cbn [AxdimmTransferManager.copy_first]; [done|]. destruct (view_empty v); [apply IH|]. no_bad.
  - cbn [get_virtual_ranked rbind]. split; no_bad.
Qed.

Lemma context_cases {W} `{!Driver W} (tp : Constants) (imdb_ranks : Z) (fs : device_files) (type : Z) (ctx : context) :
  make_context tp imdb_ranks fs type = Ok ctx →
  (type = SLS ∧ device_type (device_ ctx) = SLS ∧ allocator_ ctx = ranked_allocator (NumOfCUnits tp) ∧
   match Bus tp with
   | AXDIMM => transfer_manager_ ctx = axdimm_manager tp ∧ runner_core_ ctx = AxdimmReductionRunner (NumOfCUnits tp) ∧
       operation_dispatcher_ ctx = [(SlsOperationType, sls_rank_dispatch)]
   | CXL => transfer_manager_ ctx = ChannelTransferManager ∧ runner_core_ ctx = CxlReductionRunner (NumOfCUnits tp) ∧
       operation_dispatcher_ ctx = [(SlsOperationType, sls_channel_dispatch)]
   end) ∨
  (type = IMDB ∧ device_type (device_ ctx) = IMDB ∧ allocator_ ctx = sequential_allocator imdb_ranks ∧
   transfer_manager_ ctx = ImdbTransferManager ∧ runner_core_ ctx = ImdbScanRunner ∧
   operation_dispatcher_ ctx = [(ScanType, scan_dispatch)]).
Proof.
  unfold make_context, make_sls_context, SlsRankwiseContext, SlsChannelwiseContext, ImdbContext, make_device. intros Hm.
  destruct (type =? SLS) eqn:E1; zbool; [left|destruct (type =? IMDB) eqn:E2; zbool; [right|done]];
    cbn [Z.eqb SLS IMDB] in Hm.
  - destruct (Bus tp); (destruct (open_sls fs) as [f|e]; cbn in Hm; [injection Hm as <-; done|discriminate Hm]).
  - destruct (open_imdb fs) as [[f a]|e]; cbn in Hm; [injection Hm as <-; done|discriminate Hm].
Qed.

(** Every core that a context builds for a region of its own allocator. *)
Lemma context_core {W} `{!Driver W} (tp : Constants) (imdb_ranks : Z) (fs : device_files) (type : Z) (ctx : context)
    (w w' : W) (sz : Z) (props : PropertiesList.t) (region : DeviceRegion) :
  make_context tp imdb_ranks fs type = Ok ctx →
  allocate (Allocator := allocator_ ctx) sz props w = (w', Ok region) →
  no_bad_variant (create_accessor_core tp region ctx) ∧
  ∀ core, create_accessor_core tp region ctx = Ok core →
    transfer_manager_ ctx = match core with
      | ImdbCore _ => ImdbTransferManager | SlsCore _ => axdimm_manager tp | ChannelCore _ => ChannelTransferManager end.
Proof.
  intros Hm Hal. destruct (context_cases _ _ _ _ _ Hm) as [(-> & Hd & Ha & Hb)|(-> & Hd & Ha & Htm & _)];
    rewrite Ha in Hal; cbn [allocate ranked_allocator sequential_allocator] in Hal.
  - apply ranked_allocates_ranked in Hal as [l ->].
    pose proof (accessors_no_bad (devmem (device_ ctx)) empty_region l 0) as (_ & H2 & H3). unfold create_accessor_core.
    destruct (Bus tp); destruct Hb as [Htm _]; (split; [apply rbind_no_bad; done|]);
      intros core; [destruct (SlsAccessorCore.make _ _)|destruct (ChannelAccessorCore.make _ _)];
      cbn [rbind]; try discriminate; intros [= <-]; done.
  - apply sequential_allocates_sequential in Hal as [s ->].
    pose proof (accessors_no_bad (devmem (device_ ctx)) s [] (alignment (device_ ctx))) as (H1 & _).
    unfold create_accessor_core, make_imdb_accessor, device_as. rewrite Hd. cbn [Z.eqb IMDB Pos.eqb assert rbind].
    split; [apply rbind_no_bad; done|]. intros core. destruct (SequentialAccessorCore.make _ _ _); cbn [rbind];
      [|discriminate]. intros [= <-]. done.
Qed.

(** ** A machine: the driver and the memory of the process

    An [ioctl] changes the driver only. *)
Record machine (K : Type) := mkMachine {
  driver : K;
  ram : memory
}.
Arguments mkMachine {K} driver ram.
Arguments driver {K} m.
Arguments ram {K} m.

Section machine.
Context {K : Type} `{!Driver K}.

#[export] Instance machine_driver : Driver (machine K) := fun s cmd req =>
  let (k, r) := ioctl (driver s) cmd req in (mkMachine k (ram s), r).

#[export] Instance machine_laws (alloc dealloc : command) (any pools : Z) `{!DriverLaws K alloc dealloc any pools} :
  DriverLaws (machine K) alloc dealloc any pools.
Proof.
  refine {| live s := live (driver s) |}; unfold ioctl, machine_driver.
  - intros s s' req req'. destruct (ioctl (driver s) alloc req) as [k r] eqn:E. intros [= <- ->].
    by apply driver_alloc_ok in E.
  - intros s s' req err. destruct (ioctl (driver s) alloc req) as [k r] eqn:E. intros [= <- ->].
    by apply driver_alloc_err in E.
  - intros s req Hin. destruct (driver_dealloc (driver s) req Hin) as (k' & req' & E & Hk). rewrite E.
    by exists (mkMachine k' (ram s)), req'.
Defined.

(** Computations that leave the memory alone. *)
Definition keeps_ram {A} (c : M (machine K) A) : Prop := ∀ s s' r, c s = (s', r) → ram s' = ram s.

Lemma keeps_bind {A B} (c : M (machine K) A) (f : A → M (machine K) B) :
  keeps_ram c → (∀ a, keeps_ram (f a)) → keeps_ram (mbind c f).
Proof.
  intros Hc Hf s s' r. unfold mbind. destruct (c s) as [s1 [a|e]] eqn:E; apply Hc in E.
  - intros Hx. apply Hf in Hx. congruence.
  - by intros [= <- _].
Qed.

Lemma keeps_lift {A} (r : result A) : keeps_ram (mlift r).
Proof. by intros s s' r' [= <- _]. Qed.

Lemma keeps_exception {A} (c : M (machine K) A) (h : M (machine K) unit) :
  keeps_ram c → keeps_ram h → keeps_ram (on_exception c h).
Proof.
  intros Hc Hh s s' r. unfold on_exception. destruct (c s) as [s1 [a|e]] eqn:E; apply Hc in E; [by intros [= <- _]|].
  destruct (is_exception e); [|by intros [= <- _]].
  destruct (h s1) as [s2 [u|e']] eqn:Eh; apply Hh in Eh; intros [= <- _]; congruence.
Qed.

Lemma keeps_call (cmd : command) (req : pnm_allocation) (fail : Z → error) : keeps_ram (call cmd req fail).
Proof.
  intros s s' r. unfold call, ioctl, machine_driver. destruct (ioctl (driver s) cmd req) as [k [x|x]];
    by intros [= <- _].
Qed.
End machine.

(** ** The transfer manager of a context *)
Section transfer.
Context {K : Type} `{!Driver K} (tp : Constants).
#[local] Hint Extern 0 (AccessorCore any_core) => exact (any_accessor_core tp) : typeclass_instances.

(** A computation on the memory.  One that throws has copied nothing. *)
Definition on_ram {A} (f : memory → result (memory * A)) : M (machine K) A := fun s =>
  match f (ram s) with
  | Ok (m, a) => (mkMachine (driver s) m, Ok a)
  | Err e => (s, Err e)
  end.

(** [Buffer::direct_access] *)
Definition direct_access (ctx : context (W := machine K)) (T : Z) (region : DeviceRegion) : result any_core :=
  let! core := create_accessor_core tp region ctx in make_accessor T core.

Definition context_to_device (ctx : context) (T : Z) (range : view) (region : DeviceRegion) : M (machine K) Z :=
  do! a := mlift (direct_access ctx T region) in
  on_ram (copy_to_device T (transfer_manager_ ctx) (view_begin range) (view_size range) a).

Definition context_from_device (ctx : context) (T : Z) (region : DeviceRegion) (range : view) : M (machine K) Z :=
  do! a := mlift (direct_access ctx T region) in
  on_ram (copy_from_device T (transfer_manager_ ctx) a (view_begin range) (view_size range)).

Lemma ranked_keeps_ram (n sz : Z) (props : PropertiesList.t) : keeps_ram (RankedAllocator.allocate_impl n sz props).
Proof.
  pose proof (@keeps_call K _). pose proof (@keeps_lift K).
  assert (Hio : ∀ cu, keeps_ram (RankedAllocator.allocate_ioctl sz cu)).
  { intros cu. apply keeps_bind; [done|]. intros req. apply (keeps_lift (Ok _)). }
  assert (Hpl : ∀ l r, keeps_ram (RankedAllocator.place l r)) by (intros l r; by apply keeps_bind).
  assert (Hde : ∀ l, keeps_ram (RankedAllocator.deallocate_impl (RankedRegion l))).
  { intros l. apply keeps_bind; [done|]. intros l'. induction l' as [|r l' IH]; [apply (keeps_lift (Ok _))|].
    apply keeps_bind; [|done]. destruct (0 <? size r); [|apply (keeps_lift (Ok _))].
    apply keeps_bind; [done|]. intros loc. apply keeps_bind; [done|]. intros _. apply (keeps_lift (Ok _)). }
  assert (Hlo : ∀ ranks l, keeps_ram (RankedAllocator.replicate_loop sz ranks l)).
  { induction ranks as [|rank ranks IH]; intros l; [apply (keeps_lift (Ok _))|]. cbn [RankedAllocator.replicate_loop].
    apply keeps_bind; [|done]. apply keeps_exception; [|done]. by apply keeps_bind. }
  unfold RankedAllocator.allocate_impl. destruct (_ || _); [|destruct (_ =? _)].
  - apply keeps_bind; [by apply keeps_bind|]. intros r. apply (keeps_lift (Ok _)).
  - apply keeps_bind; [|intros r; apply (keeps_lift (Ok _))]. unfold RankedAllocator.allocate_replicate_all.
    destruct (PropertiesList.has_property _ _); [apply (keeps_lift (Err _))|apply Hlo].
  - destruct (_ =? _); apply (keeps_lift (Err _)).
Qed.

Lemma sequential_keeps_ram (n sz : Z) (props : PropertiesList.t) :
  keeps_ram (SequentialAllocator.allocate_impl n sz props).
Proof.
  apply keeps_bind; [apply keeps_lift|]. intros pool. apply keeps_bind; [apply keeps_call|].
  intros req. apply (keeps_lift (Ok _)).
Qed.

Lemma context_keeps_ram (imdb_ranks : Z) (fs : device_files) (type : Z) (ctx : context) (sz : Z)
    (props : PropertiesList.t) :
  make_context tp imdb_ranks fs type = Ok ctx → keeps_ram (allocate (Allocator := allocator_ ctx) sz props).
Proof.
  intros Hm. destruct (context_cases _ _ _ _ _ Hm) as [(_ & _ & -> & _)|(_ & _ & -> & _)];
    [apply ranked_keeps_ram|apply sequential_keeps_ram].
Qed.
End transfer.

(** ** The interface of Transfer for the cores of a context *)
Section embed.
Context {C : Type} {A : AccessorCore C} {manager : TransferManager} (L : DeviceAccess C manager) (tp : Constants).
Context (prj : any_core → option C).
#[local] Hint Extern 0 (AccessorCore any_core) => exact (any_accessor_core tp) : typeclass_instances.
Context (Hprj : ∀ c a, prj c = Some a → access_impl c = access_impl a ∧ store_impl c = store_impl a ∧
  virtual_range_impl c = virtual_range_impl a ∧ phys_range_impl c = phys_range_impl a ∧ bytes_impl c = bytes_impl a).

#[program] Definition embed : DeviceAccess any_core manager := {|
  usable c := ∃ a, prj c = Some a ∧ usable a;
  replicas c := match prj c with Some a => replicas a | None => [] end;
  aligned c w := match prj c with Some a => aligned a w | None => False end;
  mappings c := match prj c with Some a => mappings a | None => [] end;
  covered c := match prj c with Some a => covered a | None => False end
|}.
Next Obligation. intros c (a & E & Ha). destruct (Hprj _ _ E) as (_ & _ & _ & _ & ->). by apply da_bytes. Qed.
Next Obligation.
  intros c off sz (a & E & Ha). destruct (Hprj _ _ E) as (-> & _ & _ & _ & ->). rewrite E. by apply da_access.
Qed.
Next Obligation.
  intros c v n off m (a & E & Ha). destruct (Hprj _ _ E) as (_ & -> & _ & _ & ->). rewrite E. by apply da_store.
Qed.
Next Obligation.
  intros c h n m (a & E & Ha). destruct (Hprj _ _ E) as (_ & _ & -> & -> & ->). rewrite E. by apply da_to.
Qed.
Next Obligation.
  intros c h m (a & E & Ha). destruct (Hprj _ _ E) as (_ & _ & -> & -> & ->). rewrite E. by apply da_from.
Qed.
Next Obligation.
  intros c r i j (a & E & Ha). destruct (Hprj _ _ E) as (_ & _ & _ & _ & ->). rewrite E. by apply da_inj.
Qed.
Next Obligation.
  intros c w r i j (a & E & Ha). destruct (Hprj _ _ E) as (_ & _ & _ & _ & ->). rewrite E. by apply da_element.
Qed.
Next Obligation.
  intros c (a & E & Ha). destruct (Hprj _ _ E) as (_ & _ & _ & _ & ->). rewrite E. by apply da_mapped.
Qed.
End embed.

Definition imdb_access (tp : Constants) :
  DeviceAccess any_core (A := any_accessor_core tp) ImdbTransferManager.
Proof.
  refine (embed sequential_access tp (fun c => match c with ImdbCore a => Some a | _ => None end) _).
  abstract (by intros [] a [= ->]).
Defined.

Definition rank_access (tp : Constants) :
  DeviceAccess any_core (A := any_accessor_core tp) (axdimm_manager tp).
Proof.
  refine (embed (sls_access tp) tp (fun c => match c with SlsCore a => Some a | _ => None end) _).
  abstract (by intros [] a [= ->]).
Defined.

Definition cxl_access (tp : Constants) :
  DeviceAccess any_core (A := any_accessor_core tp) ChannelTransferManager.
Proof.
  refine (embed channel_access tp (fun c => match c with ChannelCore a => Some a | _ => None end) _).
  abstract (by intros [] a [= ->]).
Defined.

(** ** Theorems *)

(** Property C5.  Type safety of contexts.  A context made for a device type serves
    the operations of that type and answers any other with [std::out_of_range]; a
    registered function finds the device class and the runner that its internal
    operation is made for, so no cast is wrong.  For every region its allocator
    returns, building the accessor and copying in both directions never ends in
    [std::bad_variant_access]. *)
Theorem context_parts_fit (W : Type) (Dr : Driver W) (tp : Constants) (imdb_ranks : Z) (fs : device_files) (type : Z)
    (ctx : context) :
  make_context tp imdb_ranks fs type = Ok ctx →
  (∀ op, runner_run ctx op = match op with
     | SlsOperationType => if type =? SLS then Ok tt else Err LogicError
     | ScanType => if type =? IMDB then Ok tt else Err LogicError
     | OtherType _ => Err LogicError
     end) ∧
  (∀ w w' sz props region, allocate (Allocator := allocator_ ctx) sz props w = (w', Ok region) →
     create_accessor_core tp region ctx ≠ Err StdException ∧
     ∀ core host m, create_accessor_core tp region ctx = Ok core →
       let virt := virtual_range_impl (AccessorCore := any_accessor_core tp) core in
       let phys := phys_range_impl (AccessorCore := any_accessor_core tp) core in
       copy_to_device_impl (transfer_manager_ ctx) host virt phys m ≠ Err StdException ∧
       copy_from_device_impl (transfer_manager_ ctx) virt phys host m ≠ Err StdException).
Proof.
  intros Hm. split.
  - intros op. unfold runner_run, Dispatcher.find_function.
    destruct (context_cases _ _ _ _ _ Hm) as [(-> & Hd & _ & Hb)|(-> & Hd & _ & _ & Hr & Hdis)].
    + destruct (Bus tp); destruct Hb as (_ & Hr & ->); destruct op; try done;
        cbn [find fst]; rewrite bool_decide_eq_true_2 by done; cbn -[device_as SLS]; unfold device_as; rewrite Hd, Hr; done.
    + rewrite Hdis. destruct op; try done. cbn [find fst]. rewrite bool_decide_eq_true_2 by done. cbn. by rewrite Hr.
  - intros w w' sz props region Ha. destruct (context_core _ _ _ _ _ _ _ _ _ _ Hm Ha) as [Hn Htm].
    split; [exact Hn|]. intros core host m Hc. rewrite (Htm core Hc). apply managers_no_bad.
Qed.

Section buffers.
Context {K : Type} {Dr : Driver K} (tp : Constants) (imdb_ranks : Z) (fs : device_files) (type : Z) (ctx : context (W := machine K)).
#[local] Hint Extern 0 (AccessorCore any_core) => exact (any_accessor_core tp) : typeclass_instances.
#[local] Hint Extern 0 (Allocator (machine K)) => exact (allocator_ ctx) : typeclass_instances.
Context (AL : AllocatorLaws (machine K) (allocator_ ctx)) (L : DeviceAccess any_core (transfer_manager_ ctx)).

End buffers.

(** Two channels of 64 GiB behind one device file. *)
Definition sample_devices : device_files := mkDevices (Ok (mkFile (2 ^ 40) (fun _ _ => true) [0; 2 ^ 36])) (Err IO).

Definition sample_context {W} `{!Driver W} : context (W := W) :=
  mkContext SLS (mkDevice SLS (mkFile (2 ^ 40) (fun _ _ => true) [0; 2 ^ 36]) 0) (ranked_allocator 2) ChannelTransferManager
    (CxlReductionRunner 2) [(SlsOperationType, sls_channel_dispatch)].

Definition sample_channels : ChannelAccessorCore.t :=
  ChannelAccessorCore.mk [mkRegion 0 1024 (Some 0) 0; mkRegion 4096 1024 (Some 1) 0] 1024
    [mkSpan (2 ^ 40) 1024; mkSpan (2 ^ 40 + 2 ^ 36 + 4096) 1024]
    [mkSpan (2 ^ 40) (2 ^ 21); mkSpan (2 ^ 40 + 2 ^ 36 + 4096) (2 ^ 21)].

#[local] Instance two_channels : Driver (list pnm_allocation) := sample_driver 2 3.

Lemma context_parts_fit_witness : ∃ ctx : context (W := list pnm_allocation),
  make_context sample_cxl 1 sample_devices SLS = Ok ctx ∧
  runner_run ctx SlsOperationType = Ok tt ∧ runner_run ctx ScanType = Err LogicError.
Proof.
  exists (sample_context). split; [reflexivity|].
  destruct (context_parts_fit (list pnm_allocation) two_channels sample_cxl 1 sample_devices SLS
    (sample_context) eq_refl) as [Hr _].
  split; [exact (Hr SlsOperationType)|exact (Hr ScanType)].
Defined.

Lemma sample_views : channel_views sample_channels = ChannelAccessorCore.virtual_region_ sample_channels.
Proof. reflexivity. Qed.

Lemma sample_replica (r : Z → Z) (i : Z) :
  r ∈ replicas (DeviceAccess := cxl_access sample_cxl) (ChannelCore sample_channels) → 0 ≤ i < 1024 →
  r i = 2 ^ 40 + i ∨ r i = 2 ^ 40 + 2 ^ 36 + 4096 + i.
Proof.
  cbn [replicas cxl_access embed channel_access]. rewrite sample_views. cbn. rewrite !elem_of_cons.
  unfold linear. intros [->|[->|Hr]] Hi; [left|right|by apply elem_of_nil in Hr]; rewrite u64_small; lia.
Qed.

