(* ===== verification/Handshake.v ===== *)
(** * The host and the simulator thread of a compute unit

    SlsDevice runs the simulator thread of a unit when the host polls.  Here the two
    threads are interleaved: the host is a list of commands, the worker is at a point
    of the loop of [BaseSlsSimulator::worker_job], and a schedule says which of them
    makes the next step.  The theorems show that no schedule which keeps giving turns
    to both threads can hang, that the worker executes a trace only while the host
    polls for its end, and that the result is the one of the sequential model. *)
From S2P Require Import Prelude Topology RankAddress WordMemory DeviceMemory InstGenerator RankMemory ExecutionGenerator TraceGenerator SparseReduction SlsSimulator AxdimmProofs Allocators SlsDevice SlsRunner CxlRun CxlOperation.
Import SlsOperation ExecutionPacksData SparseReduction.

(** ** Two threads *)
Inductive actor := Host | Worker.

#[export] Instance thread_eq_dec : EqDecision actor.
Proof. solve_decision. Defined.

(** The next step of [worker_job]: the test of the loop, the load of the exec
    register, the execution of the trace and the two stores. *)
Inductive worker_pc := AtTest | AtLoad | AtExec | AtClear | AtSignal | AtEnd | Thrown (e : error).

Section threads.
Context {H K : Type} {HB : SlsMemBlockHandler H} {C : ComputeDevice H K}.
Context (tp : Constants) (unit_id : Z).

(** What the host does next: a call, one load of a polling loop, or
    [finished.get()]. *)
Inductive host_command :=
  | Act (t : task H K unit)
  | Poll (reg : MemMap.t → result Z) (target : Z)
  | Join.

Record config := mkConfig {
  now : world H K;
  host : result (list host_command);
  worker : worker_pc
}.

Definition exec_reg (mm : MemMap.t) : result Z := BaseDevice.exec_sls_register tp mm unit_id.
Definition poll_reg (mm : MemMap.t) : result Z := BaseDevice.psum_poll_register tp mm unit_id.

(** A step of the worker: the result of a task and where the worker is then. *)
Definition worker_after {A} (r : world H K * result A) (next : A → worker_pc) : world H K * worker_pc :=
  match r with
  | (w, Ok a) => (w, next a)
  | (w, Err e) => (w, Thrown e)
  end.

Definition worker_job_step (w : world H K) (pc : worker_pc) : world H K * worker_pc :=
  match pc with
  | AtTest =>
      worker_after (w, BaseAsyncSimulator.should_stop (sim w) unit_id)
        (fun stop : bool => if stop then AtEnd else AtLoad)
  | AtLoad =>
      worker_after (load_register exec_reg w)
        (fun v => if negb (v =? SLS_ENABLE_VALUE) then AtTest else AtExec)
  | AtExec => worker_after (exec_sls unit_id w) (fun _ => AtClear)
  | AtClear => worker_after (store_register exec_reg SLS_DISABLE_VALUE w) (fun _ => AtSignal)
  | AtSignal => worker_after (store_register poll_reg POLL_FINISH_VALUE w) (fun _ => AtTest)
  | AtEnd | Thrown _ => (w, pc)
  end.

Definition worker_step (s : config) : config :=
  let '(w, pc) := worker_job_step (now s) (worker s) in mkConfig w (host s) pc.

(** An exception of the worker is rethrown by [finished.get()]. *)
Definition command_step (s : config) : config :=
  match host s with
  | Ok (Act t :: rest) =>
      match t (now s) with
      | (w, Ok _) => mkConfig w (Ok rest) (worker s)
      | (w, Err e) => mkConfig w (Err e) (worker s)
      end
  | Ok (Poll reg target :: rest) =>
      match load_register reg (now s) with
      | (_, Ok v) => if v =? target then mkConfig (now s) (Ok rest) (worker s) else s
      | (_, Err e) => mkConfig (now s) (Err e) (worker s)
      end
  | Ok (Join :: rest) =>
      match worker s with
      | AtEnd => mkConfig (now s) (Ok rest) AtEnd
      | Thrown e => mkConfig (now s) (Err e) (worker s)
      | _ => s
      end
  | _ => s
  end.

Definition thread_step (t : actor) : config → config :=
  match t with Host => command_step | Worker => worker_step end.

Definition interleave (schedule : list actor) (s : config) : config :=
  fold_left (fun s t => thread_step t s) schedule s.

(** A schedule of [n] rounds, in each of which both threads make a step. *)
Inductive rounds : nat → list actor → Prop :=
  | rounds_0 (l : list actor) : rounds 0 l
  | rounds_S (n : nat) (l l' : list actor) :
      Host ∈ l → Worker ∈ l → rounds n l' → rounds (S n) (l ++ l').

(** ** The host's side of an execution *)
Definition worker_idle (w : world H K) : Prop :=
  (∃ v, load_register exec_reg w = (w, Ok v) ∧ v ≠ SLS_ENABLE_VALUE) ∧
  BaseAsyncSimulator.should_stop (sim w) unit_id = Ok false.

Definition reads (reg : MemMap.t → result Z) (w : world H K) (P : Z → Prop) : Prop :=
  ∃ v, load_register reg w = (w, Ok v) ∧ P v.

(** The worker has ended and the host makes its last [n] steps. *)
Inductive alone : list host_command → world H K → nat → world H K → Prop :=
  | alone_nil w : alone [] w 0 w
  | alone_act t rest w w' n wf :
      t w = (w', Ok tt) → alone rest w' n wf → alone (Act t :: rest) w (S n) wf.

(** [path cmds w n wf]: from [w], with an idle worker, the commands and what the
    worker does for them take at most [n] steps and end in [wf]. *)
Inductive path : list host_command → world H K → nat → world H K → Prop :=
  | path_act t rest w w' n wf :
      worker_idle w → t w = (w', Ok tt) → path rest w' n wf → path (Act t :: rest) w (S n) wf
  | path_poll reg target rest w n wf :
      worker_idle w → reads reg w (eq target) → path rest w n wf → path (Poll reg target :: rest) w (S n) wf
  | path_run t reg target rest w w1 w2 w3 w4 n wf :
      worker_idle w → t w = (w1, Ok tt) →
      reads exec_reg w1 (eq SLS_ENABLE_VALUE) →
      BaseAsyncSimulator.should_stop (sim w1) unit_id = Ok false →
      exec_sls unit_id w1 = (w2, Ok tt) →
      store_register exec_reg SLS_DISABLE_VALUE w2 = (w3, Ok tt) →
      store_register poll_reg POLL_FINISH_VALUE w3 = (w4, Ok tt) →
      Forall (fun w => reads reg w (fun v => v ≠ target)) [w1; w2; w3] →
      path (Poll reg target :: rest) w4 n wf →
      path (Act t :: Poll reg target :: rest) w (6 + n) wf
  | path_stop t rest w w1 n wf :
      worker_idle w → t w = (w1, Ok tt) →
      reads exec_reg w1 (fun v => v ≠ SLS_ENABLE_VALUE) →
      BaseAsyncSimulator.should_stop (sim w1) unit_id = Ok true →
      alone rest w1 n wf → path (Act t :: Join :: rest) w (4 + n) wf.

(** Where the two threads can be, with the number of steps left and the thread that
    makes the next one. *)
Inductive on_path : config → nat → actor → world H K → Prop :=
  | on_host cmds w pc n wf :
      path cmds w n wf → pc = AtTest ∨ pc = AtLoad → on_path (mkConfig w (Ok cmds) pc) n Host wf
  | on_enabled reg target rest w1 w2 w3 w4 pc n wf :
      reads exec_reg w1 (eq SLS_ENABLE_VALUE) →
      BaseAsyncSimulator.should_stop (sim w1) unit_id = Ok false →
      exec_sls unit_id w1 = (w2, Ok tt) →
      store_register exec_reg SLS_DISABLE_VALUE w2 = (w3, Ok tt) →
      store_register poll_reg POLL_FINISH_VALUE w3 = (w4, Ok tt) →
      Forall (fun w => reads reg w (fun v => v ≠ target)) [w1; w2; w3] →
      path (Poll reg target :: rest) w4 n wf →
      pc = AtTest ∨ pc = AtLoad ∨ pc = AtExec →
      on_path (mkConfig w1 (Ok (Poll reg target :: rest)) pc)
        (match pc with AtTest => 5 | AtLoad => 4 | _ => 3 end + n) Worker wf
  | on_executed reg target rest w2 w3 w4 n wf :
      store_register exec_reg SLS_DISABLE_VALUE w2 = (w3, Ok tt) →
      store_register poll_reg POLL_FINISH_VALUE w3 = (w4, Ok tt) →
      Forall (fun w => reads reg w (fun v => v ≠ target)) [w2; w3] →
      path (Poll reg target :: rest) w4 n wf →
      on_path (mkConfig w2 (Ok (Poll reg target :: rest)) AtClear) (2 + n) Worker wf
  | on_cleared reg target rest w3 w4 n wf :
      store_register poll_reg POLL_FINISH_VALUE w3 = (w4, Ok tt) →
      reads reg w3 (fun v => v ≠ target) →
      path (Poll reg target :: rest) w4 n wf →
      on_path (mkConfig w3 (Ok (Poll reg target :: rest)) AtSignal) (1 + n) Worker wf
  | on_stopping rest w1 pc n wf :
      reads exec_reg w1 (fun v => v ≠ SLS_ENABLE_VALUE) →
      BaseAsyncSimulator.should_stop (sim w1) unit_id = Ok true →
      alone rest w1 n wf → pc = AtTest ∨ pc = AtLoad →
      on_path (mkConfig w1 (Ok (Join :: rest)) pc)
        (match pc with AtTest => 2 | _ => 3 end + n) Worker wf
  | on_joining rest w1 n wf :
      alone rest w1 n wf → on_path (mkConfig w1 (Ok (Join :: rest)) AtEnd) (1 + n) Host wf
  | on_alone rest w n wf :
      alone rest w n wf → on_path (mkConfig w (Ok rest) AtEnd) n Host wf.

Definition other (t : actor) : actor := match t with Host => Worker | Worker => Host end.

Lemma poll_waits reg target rest w pc :
  reads reg w (fun v => v ≠ target) →
  command_step (mkConfig w (Ok (Poll reg target :: rest)) pc) = mkConfig w (Ok (Poll reg target :: rest)) pc.
Proof.
  intros (v & Hl & Hv). unfold command_step. cbn [host now]. rewrite Hl.
  by rewrite (proj2 (Z.eqb_neq _ _) Hv).
Qed.

Lemma path_idle cmds w n wf : path cmds w n wf → worker_idle w.
Proof. by intros []. Qed.

(** The worker waits for work and leaves everything as it is. *)
Lemma worker_waits cmds w pc :
  worker_idle w → pc = AtTest ∨ pc = AtLoad →
  ∃ pc', worker_step (mkConfig w cmds pc) = mkConfig w cmds pc' ∧ (pc' = AtTest ∨ pc' = AtLoad).
Proof.
  intros [(v & Hl & Hv) Hs] Hpc. unfold worker_step, worker_job_step. cbn [now worker host].
  destruct Hpc as [->| ->].
  - rewrite Hs. cbn. eauto.
  - rewrite Hl. cbn. rewrite (proj2 (Z.eqb_neq _ _) Hv). cbn. eauto.
Qed.

(** The step of the thread whose turn it is brings the end nearer. *)
Lemma turn_advances (s : config) (n : nat) (t : actor) (wf : world H K) :
  on_path s n t wf → n = O ∧ s = mkConfig wf (Ok []) AtEnd ∨
  ∃ n' t', on_path (thread_step t s) n' t' wf ∧ (n' < n)%nat.
Proof.
  intros [cmds w pc m wf' Hp Hpc|reg target rest w1 w2 w3 w4 pc m wf' Hx Hs He Hc Hg HF Hp Hpc
    |reg target rest w2 w3 w4 m wf' Hc Hg HF Hp|reg target rest w3 w4 m wf' Hg Hr Hp
    |rest w1 pc m wf' Hx Hs Ha Hpc|rest w1 m wf' Ha|rest w m wf' Ha]; cbn [thread_step].
  - right. destruct Hp as [t' rest w w' m wf' Hi Ht Hp|reg target rest w m wf' Hi (v & Hl & <-) Hp
      |t' reg target rest w w1 w2 w3 w4 m wf' Hi Ht Hx Hs He Hc Hg HF Hp
      |t' rest w w1 m wf' Hi Ht Hx Hs Ha]; unfold command_step; cbn [host now worker].
    + rewrite Ht. exists m, Host. split; [by apply on_host|lia].
    + rewrite Hl, Z.eqb_refl. exists m, Host. split; [by apply on_host|lia].
    + rewrite Ht. eexists _, Worker. split; [eapply on_enabled; try done; tauto|].
      destruct Hpc as [->| ->]; lia.
    + rewrite Ht. eexists _, Worker. split; [by eapply on_stopping|]. destruct Hpc as [->| ->]; lia.
  - right. unfold worker_step, worker_job_step. cbn [now worker host].
    destruct Hpc as [->|[->| ->]].
    + rewrite Hs. cbn. eexists _, Worker. split; [eapply (on_enabled _ _ _ w1 w2 w3 w4 AtLoad); try done; tauto|lia].
    + destruct Hx as (v & Hl & <-). rewrite Hl. cbn. eexists _, Worker.
      split; [eapply (on_enabled _ _ _ w1 w2 w3 w4 AtExec); try done; [by eexists|tauto]|lia].
    + rewrite He. cbn. eexists _, Worker. split; [eapply on_executed; try done|lia].
      by apply Forall_inv_tail in HF.
  - right. unfold worker_step, worker_job_step. cbn [now worker host]. rewrite Hc. cbn.
    eexists _, Worker. split; [eapply on_cleared; try done|lia].
    by apply Forall_inv_tail, Forall_inv in HF.
  - right. unfold worker_step, worker_job_step. cbn [now worker host]. rewrite Hg. cbn.
    eexists _, Host. split; [apply on_host; [done|tauto]|lia].
  - right. unfold worker_step, worker_job_step. cbn [now worker host]. destruct Hpc as [->| ->].
    + rewrite Hs. cbn. eexists _, Host. split; [by apply on_joining|lia].
    + destruct Hx as (v & Hl & Hv). rewrite Hl. cbn. rewrite (proj2 (Z.eqb_neq _ _) Hv). cbn.
      eexists _, Worker. split; [eapply (on_stopping _ _ AtTest); try done; [by eexists|tauto]|lia].
  - right. eexists _, Host. split; [by apply on_alone|lia].
  - destruct Ha as [w|t' rest w w' m wf' Ht Ha]; [by left|right].
    unfold command_step. cbn [host now worker]. rewrite Ht. exists m, Host. split; [by apply on_alone|lia].
Qed.

(** The other thread waits. *)
Lemma other_waits (s : config) (n : nat) (t : actor) (wf : world H K) :
  on_path s n t wf → on_path (thread_step (other t) s) n t wf.
Proof.
  intros [cmds w pc m wf' Hp Hpc|reg target rest w1 w2 w3 w4 pc m wf' Hx Hs He Hc Hg HF Hp Hpc
    |reg target rest w2 w3 w4 m wf' Hc Hg HF Hp|reg target rest w3 w4 m wf' Hg Hr Hp
    |rest w1 pc m wf' Hx Hs Ha Hpc|rest w1 m wf' Ha|rest w m wf' Ha]; cbn [thread_step other].
  - destruct (worker_waits (Ok cmds) w pc (path_idle _ _ _ _ Hp) Hpc) as (pc' & -> & Hpc').
    by apply on_host.
  - rewrite poll_waits by (by apply Forall_inv in HF). by eapply on_enabled.
  - rewrite poll_waits by (by apply Forall_inv in HF). by eapply on_executed.
  - rewrite poll_waits by done. by eapply on_cleared.
  - unfold command_step. cbn [host worker]. destruct Hpc as [->| ->];
      [eapply (on_stopping _ _ AtTest)|eapply (on_stopping _ _ AtLoad)]; tauto.
  - by apply on_joining.
  - by apply on_alone.
Qed.

Lemma any_step (s : config) (n : nat) (t t' : actor) (wf : world H K) :
  on_path s n t wf → ∃ n' t'', on_path (thread_step t' s) n' t'' wf ∧ (n' ≤ n)%nat.
Proof.
  intros Hp. destruct (decide (t' = other t)) as [->|Hne].
  - exists n, t. split; [by apply other_waits|lia].
  - assert (t' = t) as -> by (destruct t, t'; cbn in Hne; congruence).
    destruct (turn_advances s n t wf Hp) as [[-> ->]|(n' & t'' & H1 & H2)].
    + exists O, Host. split; [|lia]. destruct t; cbn; apply on_alone; constructor.
    + exists n', t''. split; [done|lia].
Qed.

Lemma any_steps (l : list actor) : ∀ (s : config) (n : nat) (t : actor) (wf : world H K),
  on_path s n t wf → ∃ n' t', on_path (interleave l s) n' t' wf ∧ (n' ≤ n)%nat.
Proof.
  induction l as [|x l IH]; intros s n t wf Hp; [by exists n, t|].
  destruct (any_step s n t x wf Hp) as (n1 & t1 & H1 & L1).
  destruct (IH _ _ _ _ H1) as (n2 & t2 & H2 & L2). exists n2, t2. split; [done|lia].
Qed.

Lemma round_advances (l : list actor) : ∀ (s : config) (n : nat) (t : actor) (wf : world H K),
  on_path s n t wf → t ∈ l → ∃ n' t', on_path (interleave l s) n' t' wf ∧ (n' ≤ pred n)%nat.
Proof.
  induction l as [|x l IH]; intros s n t wf Hp Ht; [by apply elem_of_nil in Ht|].
  change (interleave (x :: l) s) with (interleave l (thread_step x s)).
  destruct (decide (x = t)) as [->|Hne].
  - destruct (turn_advances s n t wf Hp) as [[-> ->]|(n1 & t1 & H1 & L1)].
    + destruct (any_step _ _ _ t _ Hp) as (n1 & t1 & H1 & L1).
      destruct (any_steps l _ _ _ _ H1) as (n2 & t2 & H2 & L2). exists n2, t2. split; [done|lia].
    + destruct (any_steps l _ _ _ _ H1) as (n2 & t2 & H2 & L2). exists n2, t2. split; [done|lia].
  - assert (x = other t) as -> by (destruct t, x; cbn in *; congruence).
    apply elem_of_cons in Ht as [E|Ht]; [congruence|]. apply (IH _ n t wf); [by apply other_waits|done].
Qed.

Lemma no_steps_left (s : config) (t : actor) (wf : world H K) :
  on_path s 0 t wf → s = mkConfig wf (Ok []) AtEnd.
Proof.
  intros Hp. destruct (turn_advances s 0 t wf Hp) as [[_ ->]|(n' & t' & _ & Hlt)]; [done|lia].
Qed.

(** As many rounds as there are steps left reach the end. *)
Lemma rounds_finish (n : nat) (l : list actor) : rounds n l → ∀ (s : config) (t : actor) (wf : world H K),
  on_path s n t wf → interleave l s = mkConfig wf (Ok []) AtEnd.
Proof.
  assert (G : rounds n l → ∀ s k t wf, on_path s k t wf → (k ≤ n)%nat →
    interleave l s = mkConfig wf (Ok []) AtEnd).
  { intros Hr. induction Hr as [l|n l l' Hh Hw _ IH]; intros s k t wf Hp Hk.
    - destruct (any_steps l s k t wf Hp) as (n' & t' & Hp' & Hl).
      replace n' with O in Hp' by lia. by eapply no_steps_left.
    - destruct (round_advances l s k t wf Hp) as (n' & t' & Hp' & Hl); [by destruct t|].
      unfold interleave. rewrite fold_left_app. apply (IH _ n' t' wf Hp'). lia. }
  intros Hr s t wf Hp. by apply (G Hr s n t wf Hp).
Qed.

(** The worker executes only while the host polls. *)
Lemma exec_while_polling (s : config) (n : nat) (t : actor) (wf : world H K) :
  on_path s n t wf → worker s = AtExec ∨ worker s = AtClear ∨ worker s = AtSignal →
  ∃ reg target rest, host s = Ok (Poll reg target :: rest) ∧ command_step s = s.
Proof.
  intros [cmds w pc m wf' Hp Hpc|reg target rest w1 w2 w3 w4 pc m wf' Hx Hs He Hc Hg HF Hp Hpc
    |reg target rest w2 w3 w4 m wf' Hc Hg HF Hp|reg target rest w3 w4 m wf' Hg Hr Hp
    |rest w1 pc m wf' Hx Hs Ha Hpc|rest w1 m wf' Ha|rest w m wf' Ha]; cbn [worker host];
    try (by intros [?|[?|?]]);
    try (destruct Hpc as [->| ->]; by intros [?|[?|?]]); intros _;
    exists reg, target, rest; (split; [done|]); apply poll_waits; try (by apply Forall_inv in HF); done.
Qed.
End threads.

(** ** The threads of a compute unit on the CXL device *)
Arguments host_command : clear implicits.
Arguments config : clear implicits.

(** [disable_thread] up to the store of the flag, and after the worker has ended. *)
Definition set_stop_flag (s : BaseAsyncSimulator.t) (thread_id : Z) : result BaseAsyncSimulator.t :=
  let! enabled := BaseAsyncSimulator.is_thread_enabled s thread_id in
  if negb enabled then Err InvalidArguments
  else let! cs := vec_set (BaseAsyncSimulator.thread_controls_ s) thread_id
                    (BaseAsyncSimulator.mkControls true true) in
       Ok (BaseAsyncSimulator.mk (BaseAsyncSimulator.thread_pool_ s) cs).

Definition drop_future (s : BaseAsyncSimulator.t) (thread_id : Z) : result BaseAsyncSimulator.t :=
  let! c := vec_at (BaseAsyncSimulator.thread_controls_ s) thread_id in
  let! cs := vec_set (BaseAsyncSimulator.thread_controls_ s) thread_id
               (BaseAsyncSimulator.mkControls (BaseAsyncSimulator.stop_flag c) false) in
  Ok (BaseAsyncSimulator.mk (BaseAsyncSimulator.thread_pool_ s) cs).

Section program.
Context (tp : Constants) (bufs : buffers) {K : Type} {D : CunitDriver K}.
Context {dbg : bool} (r : SparseReduction.t (Channel dbg)) (pack compute_unit : Z).
#[local] Existing Instance CxlSimulatorMemBlockHandler.
#[local] Hint Extern 0 (ComputeDevice unit _) => exact (CxlSimulatorComputeDevice tp) : typeclass_instances.

(** [CxlRunner::process_exec] *)
Definition process_exec_commands (exec_id : Z) : list (host_command unit K) :=
  [Act (prepare tp bufs pack compute_unit dbg r exec_id);
   Act (reset_psum_poll_register tp compute_unit);
   Act (base_write_exec_sls_register tp compute_unit SLS_ENABLE_VALUE);
   Poll (fun mm => BaseDevice.psum_poll_register tp mm compute_unit) POLL_FINISH_VALUE;
   Act (read_output_buffers tp bufs r compute_unit pack exec_id)].

(** [~CxlComputeUnit] with [SimulatorComputeDevice::release_cunit] *)
Definition release_commands : list (host_command unit K) :=
  [Act (disable compute_unit);
   Poll (fun mm => BaseDevice.control_switch_register tp mm compute_unit) SLS_ENABLE_VALUE;
   Act get_sim;
   Act (on_sim (fun s => set_stop_flag s compute_unit));
   Join;
   Act (on_sim (fun s => drop_future s compute_unit));
   Act (BaseDevice.release_cunit compute_unit)].

(** The body of [CxlRunner::run_on_pack], with a unit, for [n] executions. *)
Definition run_on_pack_commands (n : Z) : list (host_command unit K) :=
  flat process_exec_commands (range n) ++ release_commands.

(** The unit's thread has just been enabled. *)
Definition start_config (w : world unit K) (n : Z) : config unit K :=
  mkConfig w (Ok (run_on_pack_commands n)) AtTest.
End program.

Section cxl_threads.
Import CxlSimulatorCore.
Context (tp : Constants) (op : SlsOperation.t) (mm : MemMap.t) (b : Z → blocks) (bufs : buffers).
Context (Hsys : system_ok tp op mm b bufs).
Context {K : Type} {D : CunitDriver K} {L : CunitLaws K (NumOfCUnits tp)}.
#[local] Existing Instance CxlSimulatorMemBlockHandler.
#[local] Hint Extern 0 (ComputeDevice unit _) => exact (CxlSimulatorComputeDevice tp) : typeclass_instances.
Context (p c : Z) (Hp : p ∈ RankMemory.pack_identifiers tp) (Hc : 0 ≤ c < NumOfCUnits tp).
Context (dbg : bool) (r : SparseReduction.t (Channel dbg)).
Context (w : world unit K) (Hw : mem_map w = mm).
Context (Hrun : BaseAsyncSimulator.should_stop (sim w) c = Ok false).

Abbreviation path := (path (H := unit) (K := K) tp c).
Abbreviation stopped := (CxlRun.stopped tp b c).

Let exec_at : Z := cfgr (b c) + RegSlsExec tp.
Let poll_at : Z := cfgr (b c) + (RegPolling tp + 4).

Lemma registers_apart : exec_at + 4 ≤ poll_at ∨ poll_at + 4 ≤ exec_at.
Proof.
  pose proof (sy_apart _ _ _ _ _ Hsys p (ExecReg c) (PollReg c) Hp Hc Hc ltac:(done)) as Ha.
  exact Ha.
Qed.

Lemma idle_at (m : memory) : stopped m → worker_idle tp c (at_mem w m).
Proof.
  intros Hm. destruct (unit_registers tp op mm b bufs Hsys c Hc) as (Rx & _ & _).
  split; [|exact Hrun]. eexists. split; [by apply (load_register_at mm)|exact Hm].
Qed.

Lemma stopped_changes (rs : list region) (m m' : memory) :
  changes tp op b bufs p rs m m' → Forall (fun r' => valid tp r' ∧ r' ≠ ExecReg c) rs →
  stopped m → stopped m'.
Proof.
  intros H HF Hm. unfold CxlRun.stopped, load32 in *.
  rewrite (same_load tp op mm b bufs Hsys p Hp rs (ExecReg c) m m' _ 4 H Hc HF); cbn; [done|lia|lia].
Qed.

Lemma stopped_finished (m : memory) : stopped (finished_mem tp b c m).
Proof.
  pose proof registers_apart as Ha. unfold CxlRun.stopped, finished_mem, load32, store32. fold exec_at poll_at.
  rewrite (load_store_other _ _ _ _ 4 4) by lia. rewrite (load_store_same 4). done.
Qed.

Lemma exec_path (i : Z) (m m3 m6 m' : memory) (rest : list (host_command unit K)) (n : nat) (wf : world unit K) :
  exec_steps tp op mm b bufs w p c dbg r i m m3 m6 m' → stopped m →
  path rest (at_mem w m') n wf →
  path (process_exec_commands tp bufs r p c i ++ rest) (at_mem w m) (10 + n) wf.
Proof.
  intros [Hpr Hex Hrd C3 C6 C10] Hm Hrest.
  destruct (unit_registers tp op mm b bufs Hsys c Hc) as (Rx & Rp & _). fold exec_at in Rx. fold poll_at in Rp.
  pose proof registers_apart as Ha.
  assert (H3 : stopped m3) by (eapply stopped_changes; [exact C3|regions|done]).
  set (m4 := store32 m3 poll_at 0).
  assert (H4 : stopped m4).
  { unfold CxlRun.stopped, m4, load32, store32. fold exec_at. by rewrite (load_store_other _ _ _ _ 4 4) by lia. }
  assert (E5 : store32 m4 exec_at SLS_ENABLE_VALUE = enabled_mem tp b c m3) by done.
  assert (P5 : load32 (enabled_mem tp b c m3) poll_at = 0).
  { rewrite <- E5. unfold load32, store32. rewrite (load_store_other _ _ _ _ 4 4) by lia.
    apply (load_store_same 4). }
  assert (P6 : load32 m6 poll_at = 0).
  { rewrite <- P5. apply (same_load tp op mm b bufs Hsys p Hp _ (PollReg c) _ _ _ 4 C6 Hc); cbn;
      [regions|unfold poll_at; lia|unfold poll_at; lia]. }
  cbn [process_exec_commands app].
  apply (path_act _ _ _ _ _ (at_mem w m3) (9 + n)); [by apply idle_at|exact Hpr|].
  apply (path_act _ _ _ _ _ (at_mem w m4) (8 + n)); [by apply idle_at|by apply (store_register_at mm)|].
  apply (path_run _ _ _ _ _ _ _ (at_mem w (enabled_mem tp b c m3)) (at_mem w m6)
    (at_mem w (store32 m6 exec_at SLS_DISABLE_VALUE)) (at_mem w (finished_mem tp b c m6)) (2 + n)).
  - by apply idle_at.
  - rewrite <- E5. by apply (store_register_at mm).
  - eexists. split; [by apply (load_register_at mm)|]. rewrite <- E5, load32_store32. done.
  - exact Hrun.
  - cbn [exec_sls CxlSimulatorComputeDevice]. apply (on_memory_at mm); [done|]. by rewrite Hex.
  - by apply (store_register_at mm).
  - by apply (store_register_at mm).
  - repeat constructor; (eexists; split; [by apply (load_register_at mm)|]); [by rewrite P5|by rewrite P6|].
    unfold load32, store32. rewrite (load_store_other _ _ _ _ 4 4) by lia. change (load32 m6 poll_at ≠ POLL_FINISH_VALUE).
    by rewrite P6.
  - apply path_poll; [apply idle_at, stopped_finished| |].
    + eexists. split; [by apply (load_register_at mm)|]. unfold finished_mem. fold poll_at.
      by rewrite load32_store32.
    + apply (path_act _ _ _ _ _ (at_mem w m')); [apply idle_at, stopped_finished|exact Hrd|done].
Qed.

Context (Hop : op_ok tp op) (Hlk : lookups_ok op) (Htype : op_type_ op = Uint32).
Context (V : Z → Z → Z → Z) (E : list Execution.t) (g : TraceGenerator.t).
Context (Hobjs : ∀ o, o ∈ pack_objs (layout_ op) p → ∃ off, placed tp op c o off).
Context (Hready : pack_ready tp op p dbg r E g).

Lemma execs_path (fuel : nat) (m : memory) (todo : list Z) : ∀ (dn : list Z) (m1 : memory),
  tables_in tp op b p c V m → range (Z.of_nat (length E)) = dn ++ todo →
  gathered tp op b bufs p c V E m dn m1 → stopped m1 →
  ∃ m2, mfold (cxl_process_exec tp bufs (S fuel) r p c) todo (at_mem w m1) = (at_mem w m2, Ok tt) ∧
    stopped m2 ∧
    ∀ rest n wf, path rest (at_mem w m2) n wf →
      path (flat (process_exec_commands tp bufs r p c) todo ++ rest) (at_mem w m1)
        (10 * length todo + n) wf.
Proof.
  induction todo as [|i todo IH]; intros dn m1 Htab El HG Hs.
  - exists m1. split; [done|]. split; [done|]. by intros.
  - assert (Hi : i ∈ range (Z.of_nat (length E))) by (rewrite El; apply elem_of_app; right; by left).
    apply elem_of_range in Hi.
    destruct (next_exec tp op mm b bufs Hsys w Hw Hop Hlk Htype p c Hp Hc dbg V Hobjs r E g Hready
      m m1 dn i Htab HG Hi) as (m3 & m6 & m2 & Hst & HG2).
    assert (Hs2 : stopped m2).
    { eapply stopped_changes; [exact (es_gathered _ _ _ _ _ _ _ _ _ _ _ _ _ _ _ Hst)|regions|].
      apply stopped_finished. }
    destruct (IH (dn ++ [i]) m2 Htab) as (m4 & Hm & Hs4 & Hpath); [by rewrite <- app_assoc|done|done|].
    exists m4. split; [|split; [done|]].
    + cbn [mfold]. by erewrite (mbind_at _ _ (at_mem w m1))
        by (by eapply (exec_steps_at tp op mm b bufs Hsys w Hw p c Hc)).
    + intros rest n wf Hrest. rewrite flat_cons, <- app_assoc. cbn [length].
      replace (10 * S (length todo) + n)%nat with (10 + (10 * length todo + n))%nat by lia.
      eapply exec_path; [exact Hst|done|]. by apply Hpath.
Qed.
End cxl_threads.

Section release.
Import CxlSimulatorCore.
Context (tp : Constants) (op : SlsOperation.t) (mm : MemMap.t) (b : Z → blocks) (bufs : buffers).
Context (Hsys : system_ok tp op mm b bufs).
Context {K : Type} {D : CunitDriver K} {L : CunitLaws K (NumOfCUnits tp)}.
#[local] Existing Instance CxlSimulatorMemBlockHandler.
#[local] Hint Extern 0 (ComputeDevice unit _) => exact (CxlSimulatorComputeDevice tp) : typeclass_instances.
Context (p c : Z) (Hp : p ∈ RankMemory.pack_identifiers tp) (Hc : 0 ≤ c < NumOfCUnits tp).
Context (w : world unit K) (k : K) (Hid : idle_ok tp mm w).

Lemma controls_at (x : BaseAsyncSimulator.ThreadControls) :
  vec_at (<[Z.to_nat c := x]> (BaseAsyncSimulator.thread_controls_ (sim w))) c = Ok x.
Proof.
  apply vec_at_Ok. split; [lia|]. apply list_lookup_insert_eq. pose proof (id_length _ _ _ Hid). lia.
Qed.

Lemma taken_runs : BaseAsyncSimulator.should_stop (sim (taken w k c)) c = Ok false.
Proof.
  unfold BaseAsyncSimulator.should_stop, taken, with_control. cbn [sim set_sim
    BaseAsyncSimulator.thread_controls_]. by rewrite controls_at.
Qed.

(** The unit's thread has been told to stop. *)
Definition stopping : world unit K :=
  set_sim (taken w k c) (with_control (sim w) c (BaseAsyncSimulator.mkControls true true)).

Lemma set_control (s : BaseAsyncSimulator.t) (x y : BaseAsyncSimulator.ThreadControls) :
  (Z.to_nat c < length (BaseAsyncSimulator.thread_controls_ s))%nat →
  vec_set (BaseAsyncSimulator.thread_controls_ (with_control s c x)) c y =
  Ok (BaseAsyncSimulator.thread_controls_ (with_control s c y)).
Proof.
  intros Hlt. unfold with_control. cbn [BaseAsyncSimulator.thread_controls_].
  rewrite vec_set_Ok by (rewrite length_insert; lia). by rewrite list_insert_insert_eq.
Qed.

Lemma set_stop_flag_at (m : memory) :
  on_sim (fun s => set_stop_flag s c) (at_mem (taken w k c) m) = (at_mem stopping m, Ok tt).
Proof.
  pose proof (id_length _ _ _ Hid) as Hl. unfold on_sim, set_stop_flag, BaseAsyncSimulator.is_thread_enabled,
    BaseAsyncSimulator.threads_num_. cbn [sim at_mem set_mem taken set_sim set_kernel].
  unfold with_control at 1 2. cbn [BaseAsyncSimulator.thread_controls_].
  rewrite length_insert, controls_at. rewrite (proj2 (Z.leb_gt _ _)) by lia. cbn [rbind negb
    BaseAsyncSimulator.finished]. rewrite set_control by lia. done.
Qed.

Lemma drop_future_at (m : memory) :
  on_sim (fun s => drop_future s c) (at_mem stopping m) =
  (at_mem (given_back w k c) m, Ok tt).
Proof.
  pose proof (id_length _ _ _ Hid) as Hl. unfold on_sim, drop_future, stopping.
  cbn [sim at_mem set_mem taken set_sim set_kernel].
  unfold with_control at 1. cbn [BaseAsyncSimulator.thread_controls_].
  rewrite controls_at. cbn [rbind BaseAsyncSimulator.stop_flag]. by rewrite set_control by lia.
Qed.

Lemma release_path (m : memory) (k' : K) (x : Z) :
  CxlRun.stopped tp b c m → RELEASE_CUNIT k c = (k', x) → 0 ≤ x →
  path tp c (release_commands tp c) (at_mem (taken w k c) m) 9
    (at_mem (given_back w k' c) (store32 m (cfgr (b c) + RegSlsEn tp) SLS_ENABLE_VALUE)).
Proof.
  intros Hm Hrel Hx. pose proof (id_map _ _ _ Hid) as Hmap.
  assert (Hmt : mem_map (taken w k c) = mm) by done.
  destruct (unit_registers tp op mm b bufs Hsys c Hc) as (Rx & _ & Rs).
  set (m' := store32 m _ SLS_ENABLE_VALUE).
  assert (Hm' : CxlRun.stopped tp b c m').
  { eapply (stopped_changes tp op mm b bufs Hsys p c Hp Hc [SwitchReg c]); [|regions|exact Hm].
    by apply (changes_store32 tp op b bufs p (SwitchReg c)). }
  pose proof (idle_at tp op mm b bufs Hsys c Hc (taken w k c) Hmt taken_runs) as Hidle.
  unfold release_commands.
  apply (path_act _ _ _ _ _ (at_mem (taken w k c) m') 8); [by apply Hidle| |].
  { apply (switch_write tp op mm b bufs Hsys); try done. by right. }
  apply path_poll; [by apply Hidle| |].
  { eexists. split; [by apply (load_register_at mm)|]. unfold m'. by rewrite load32_store32. }
  apply (path_act _ _ _ _ _ (at_mem (taken w k c) m') 6); [by apply Hidle|by rewrite get_sim_spec|].
  apply (path_stop _ _ _ _ _ (at_mem stopping m') 2); [by apply Hidle|apply set_stop_flag_at| | |].
  - eexists. split; [by apply (load_register_at mm)|exact Hm'].
  - unfold BaseAsyncSimulator.should_stop, stopping, with_control. cbn [sim set_sim at_mem set_mem
      BaseAsyncSimulator.thread_controls_]. by rewrite controls_at.
  - eapply alone_act; [apply drop_future_at|]. eapply alone_act; [|constructor].
    unfold BaseDevice.release_cunit. cbn [kernel at_mem set_mem given_back set_sim set_kernel].
    rewrite Hrel. by replace (x <? 0) with false by lia.
Qed.
End release.

(** Property C27.  On the CXL simulator, with the host thread of a pack and the
    simulator thread of the unit it has taken interleaved step by step: every
    schedule in which both threads keep making steps, [10] rounds per execution and
    [9] to give the unit back, ends with both threads done and in the state of the
    sequential run of the pack; and at every point of every schedule, while the
    simulator executes a trace or stores to its registers the host only polls. *)
Theorem pack_threads_finish (tp : Constants) (op : SlsOperation.t) (mm : MemMap.t)
    (b : Z → CxlSimulatorCore.blocks) (bufs : buffers) (K : Type) (D : CunitDriver K)
    (L : CunitLaws K (NumOfCUnits tp)) (dbg : bool) (V : Z → Z → Z → Z) (r : SparseReduction.t (Channel dbg))
    (fuel : nat) (p d : Z) (E : list Execution.t) (g : TraceGenerator.t) (w : world unit K) :
  system_ok tp op mm b bufs → op_ok tp op → lookups_ok op → op_type_ op = Uint32 →
  idle_ok tp mm w → p ∈ RankMemory.pack_identifiers tp → pack_ready tp op p dbg r E g →
  0 ≤ d < NumOfCUnits tp → Z.testbit p d = true → held (kernel w) d = false →
  pack_placed tp op b V p (mem w) →
  ∃ w1 c w',
    CxlComputeUnit (HB := CxlSimulatorMemBlockHandler) (C := CxlSimulatorComputeDevice tp) tp (S fuel) p w
      = (w1, Ok c) ∧
    cxl_run_on_pack (HB := CxlSimulatorMemBlockHandler) (C := CxlSimulatorComputeDevice tp)
      tp bufs (S fuel) r p w = (w', Ok tt) ∧
    (∀ schedule, rounds (10 * length E + 9) schedule →
       interleave (HB := CxlSimulatorMemBlockHandler) (C := CxlSimulatorComputeDevice tp) tp c schedule
         (start_config tp bufs r p c w1 (Z.of_nat (length E))) = mkConfig w' (Ok []) AtEnd) ∧
    (∀ schedule,
       let s := interleave (HB := CxlSimulatorMemBlockHandler) (C := CxlSimulatorComputeDevice tp) tp c
                  schedule (start_config tp bufs r p c w1 (Z.of_nat (length E))) in
       worker s = AtExec ∨ worker s = AtClear ∨ worker s = AtSignal →
       ∃ reg target rest, host s = Ok (Poll reg target :: rest) ∧ command_step s = s).
Proof.
  intros Hsys Hop Hlk Htype Hid Hp Hready Hd Hbit Hheld Hpl.
  destruct (acquire_spec tp op mm b bufs Hsys w (S fuel) p d Hid Hd Hbit Hheld)
    as (k & c & m1 & Hacq & Hc & Hcb & Hcf & Hk & Hx & C1).
  specialize (C1 p). destruct (Hpl c Hc Hcb) as [Hobjs Htab].
  assert (Htab1 : tables_in tp op b p c V m1).
  { eapply (tables_in_changes tp op mm b bufs Hsys p c Hc); [exact Hp|exact C1|regions|exact Htab]. }
  assert (Hwm : mem_map (taken w k c) = mm) by apply (id_map _ _ w Hid).
  assert (Hs1 : CxlRun.stopped tp b c m1) by (unfold CxlRun.stopped; by rewrite Hx).
  destruct (execs_path tp op mm b bufs Hsys p c Hp Hc dbg r (taken w k c) Hwm (taken_runs tp mm c Hc w k Hid)
    Hop Hlk Htype V E g Hobjs Hready fuel m1 (range (Z.of_nat (length E))) [] m1 Htab1 eq_refl
    (gathered_nil tp op b bufs p c V E m1) Hs1) as (m2 & Hexecs & Hs2 & Hpath).
  destruct (unit_release_spec tp op mm b bufs Hsys w k c m2 (S fuel) Hid Hc) as (k' & Hrel & (x & Hr & Hx0) & Hk').
  { rewrite Hk, Z.eqb_refl. done. }
  specialize (Hpath _ _ _ (release_path tp op mm b bufs Hsys p c Hp Hc w k Hid m2 k' x Hs2 Hr Hx0)).
  set (w' := at_mem (given_back w k' c) _) in *.
  assert (Hon : on_path (HB := CxlSimulatorMemBlockHandler) (C := CxlSimulatorComputeDevice tp) tp c
    (start_config tp bufs r p c (at_mem (taken w k c) m1) (Z.of_nat (length E)))
    (10 * length E + 9) Host w').
  { apply on_host; [|by left]. rewrite length_range in Hpath. by rewrite Nat2Z.id in Hpath. }
  exists (at_mem (taken w k c) m1), c, w'. split; [exact Hacq|]. split; [|split].
  - unfold cxl_run_on_pack. rewrite (mbind_at _ _ _ _ _ Hacq). unfold with_object.
    rewrite (process_execs_unfold tp op bufs p c dbg r E g Hready), Hexecs.
    by rewrite (mbind_at _ _ _ _ _ Hrel).
  - intros schedule Hr'. by eapply rounds_finish.
  - intros schedule s Hs. destruct (any_steps tp c schedule _ _ _ _ Hon) as (n & t & Hn & _).
    by eapply exec_while_polling.
Qed.

Lemma pack_threads_finish_witness :
  ∃ (r : SparseReduction.t (Channel true)) (n : nat) (w1 w' : world unit Z) (c : Z),
  (0 < n)%nat ∧ SparseReduction.make sample_cxl split_op None = Ok r ∧
  interleave (HB := CxlSimulatorMemBlockHandler) (C := CxlSimulatorComputeDevice sample_cxl) sample_cxl c
    (concat (replicate (10 * n + 9) [Worker; Host]))
    (start_config (D := mask_driver 2) sample_cxl split_buffers r 1 c w1 (Z.of_nat n)) = mkConfig w' (Ok []) AtEnd.
Proof.
  destruct (ready_spec sample_cxl split_op split_map split_blocks split_buffers split_system split_op_ok
    ltac:(split; vm_compute; split; congruence) None I split_layout_ok
    ltac:(repeat constructor; vm_compute; congruence) true) as (r & execs & Hr & Hx).
  destruct (Hx 1 ltac:(left)) as (_ & _ & Hne & Hg). destruct Hg as [g Hg]; [discriminate|].
  destruct (pack_threads_finish sample_cxl split_op split_map split_blocks split_buffers Z (mask_driver 2)
    (mask_laws 2) true split_value r 0 1 0 (execs 1) g split_world) as (w1 & c & w' & _ & _ & Hl & _).
  - exact split_system.
  - exact split_op_ok.
  - exact split_lookups.
  - reflexivity.
  - exact split_idle.
  - left.
  - exact Hg.
  - vm_compute; split; congruence.
  - reflexivity.
  - apply Z.bits_0.
  - apply split_all_placed. left.
  - exists r, (length (execs 1)), w1, w', c. split; [|split; [exact Hr|]].
    + destruct (execs 1) as [|e l]; [|cbn; lia]. discriminate (proj1 Hne eq_refl).
    + apply Hl. generalize (10 * length (execs 1%Z) + 9)%nat as n. intros n.
      induction n as [|n IH]; [constructor|]. apply (rounds_S n [Worker; Host]); [| |exact IH].
      * right. left.
      * left.
Defined.
