(* ===== verification/Sysfs.v ===== *)
(** * Device control through sysfs

    common/misc_control.h, core/device/sls/control.cpp, core/device/imdb/control.cpp,
    the constructors of the topology constants (common/topology_constants.h) and the
    opening of an SLS device (core/device/sls/base.cpp, [MemMap::init_device_memory]).

    The file system is a class: what a file shows when it is opened, whether it can be
    opened for writing, and what becomes of the system when a text reaches a file.  An
    attribute of sysfs is such a file whose contents the driver makes up, so no law is
    assumed; the theorems name the attributes they rely on.  The path macros of
    linux/sls_resources.h and linux/imdb_resources.h are the constructors of [macro],
    and their expansion is a parameter. *)
From Stdlib Require Import String.
From S2P Require Import Prelude Text Topology DeviceMemory SlsDevice.

(** ** The kernel's headers and files *)
Inductive macro :=
  | SLS_SYSFS_ROOT | SLS_RESOURCE_PATH | SLS_MEMDEV_PATH | DAX_PATH
  | DEVICE_CUNITS_PATH | DEVICE_RESET_PATH | DEVICE_LEAKED_PATH
  | DEVICE_RESOURCE_CLEANUP_PATH | DEVICE_ACQUISITION_TIMEOUT_PATH
  | CUNIT_STATE_PATH | CUNIT_ACQUISITION_COUNT_PATH | CUNIT_FREE_SIZE_PATH
  | CUNIT_REGION_BASE_SIZE_PATH | CUNIT_REGION_BASE_OFFSET_PATH
  | CUNIT_REGION_BASE_MAP_SIZE_PATH | CUNIT_REGION_BASE_MAP_OFFSET_PATH
  | CUNIT_REGION_INST_SIZE_PATH | CUNIT_REGION_INST_OFFSET_PATH
  | CUNIT_REGION_INST_MAP_SIZE_PATH | CUNIT_REGION_INST_MAP_OFFSET_PATH
  | CUNIT_REGION_CFGR_SIZE_PATH | CUNIT_REGION_CFGR_OFFSET_PATH
  | CUNIT_REGION_CFGR_MAP_SIZE_PATH | CUNIT_REGION_CFGR_MAP_OFFSET_PATH
  | CUNIT_REGION_TAGS_SIZE_PATH | CUNIT_REGION_TAGS_OFFSET_PATH
  | CUNIT_REGION_TAGS_MAP_SIZE_PATH | CUNIT_REGION_TAGS_MAP_OFFSET_PATH
  | CUNIT_REGION_PSUM_SIZE_PATH | CUNIT_REGION_PSUM_OFFSET_PATH
  | CUNIT_REGION_PSUM_MAP_SIZE_PATH | CUNIT_REGION_PSUM_MAP_OFFSET_PATH
  | ATTR_DEV_TYPE_PATH | ATTR_NUM_OF_CUNITS_PATH | ATTR_PSUM_BUFFER_PATH
  | ATTR_TAGS_BUFFER_PATH | ATTR_INST_BUFFER_PATH | ATTR_BUFFER_SIZE_PATH
  | ATTR_INSTRUCTION_SIZE_PATH | ATTR_ALIGNED_TAG_SIZE_PATH | ATTR_DATA_SIZE_PATH
  | ATTR_POLLING_REGISTER_OFFSET_PATH | ATTR_SLS_EXEC_VALUE_PATH | ATTR_REG_SLS_EN_PATH
  | IMDB_SYSFS_PATH | IMDB_RESOURCE_DEVICE_PATH
  | IMDB_ATTR_NUM_OF_RANKS_PATH | IMDB_ATTR_NUM_OF_THREADS_PATH.

Class Headers := expand : macro → chars.

Class FileSystem (S : Type) := {
  fs_exists : S → chars → bool;             (* std::filesystem::exists *)
  fs_read : S → chars → option chars;       (* the text of a file, if it can be opened *)
  fs_writable : S → chars → bool;           (* whether it can be opened for writing *)
  fs_store : S → chars → chars → S;         (* after the text has reached the file *)
}.

(** [std::filesystem::path::operator/] *)
Definition slash : Z := 47.

Definition path_append (p q : chars) : chars :=
  match q with
  | c :: _ =>
      if c =? slash then q
      else if bool_decide (last p = None ∨ last p = Some slash) then p ++ q
      else p ++ slash :: q
  | [] => if bool_decide (last p = None ∨ last p = Some slash) then p else p ++ [slash]
  end.
Infix "//" := path_append (at level 40, left associativity) : pnm_scope.

(** [std::to_string] of an unsigned integer. *)
Definition to_string (v : Z) : chars := digits 20 v.

(** What the sysfs attribute [p] displays is the number [v]. *)
Definition shows {S} `{FileSystem S} (s : S) (p : chars) (v : Z) : Prop :=
  0 ≤ v < 2 ^ 64 ∧ ∃ rest, ends_value rest ∧ fs_read s p = Some (to_string v ++ rest).

(** ** common/misc_control.h *)
Section misc_control.
Context {S : Type} `{FileSystem S}.

Definition read_file {T} (F : Format T) (d : T) (s : S) (path : chars) : result T :=
  match fs_read s path with
  | None => Err IO
  | Some text => match extract F (Some text) d with
                 | (value, Some _) => Ok value
                 | (_, None) => Err IO
                 end
  end.

(** The text is only put into the buffer of the stream before its state is tested; it
    reaches the file when the stream is destroyed, and an error then is not seen. *)
Definition write_file (s : S) (path : chars) (text : chars) : result S :=
  if fs_writable s path then Ok (fs_store s path text) else Err IO.

Definition read_u64 : S → chars → result Z := read_file (unsigned 64) 0.
Definition read_u32 : S → chars → result Z := read_file (unsigned 32) 0.
End misc_control.

(** ** include/pnmlib/core/sls_cunit_info.h *)
Module ComputeUnitInfo.
Inductive t :=
  | State
  | AcquisitionCount
  | FreeSize
  | RegionBaseSize
  | RegionBaseOffset
  | RegionBaseMapSize
  | RegionBaseMapOffset
  | RegionInstSize
  | RegionInstOffset
  | RegionInstMapSize
  | RegionInstMapOffset
  | RegionCfgrSize
  | RegionCfgrOffset
  | RegionCfgrMapSize
  | RegionCfgrMapOffset
  | RegionTagsSize
  | RegionTagsOffset
  | RegionTagsMapSize
  | RegionTagsMapOffset
  | RegionPsumSize
  | RegionPsumOffset
  | RegionPsumMapSize
  | RegionPsumMapOffset
  | Max.

#[export] Instance t_eq_dec : EqDecision t.
Proof. solve_decision. Defined.
End ComputeUnitInfo.
Import ComputeUnitInfo.

Definition cunit_info_to_index (info : ComputeUnitInfo.t) : Z :=
  match info with
  | State => 0 | AcquisitionCount => 1 | FreeSize => 2
  | RegionBaseSize => 3 | RegionBaseOffset => 4 | RegionBaseMapSize => 5 | RegionBaseMapOffset => 6
  | RegionInstSize => 7 | RegionInstOffset => 8 | RegionInstMapSize => 9 | RegionInstMapOffset => 10
  | RegionCfgrSize => 11 | RegionCfgrOffset => 12 | RegionCfgrMapSize => 13 | RegionCfgrMapOffset => 14
  | RegionTagsSize => 15 | RegionTagsOffset => 16 | RegionTagsMapSize => 17 | RegionTagsMapOffset => 18
  | RegionPsumSize => 19 | RegionPsumOffset => 20 | RegionPsumMapSize => 21 | RegionPsumMapOffset => 22
  | Max => 23
  end.

Definition cunit_info_length : Z := cunit_info_to_index Max.

(** ** The SLS control object: include/pnmlib/sls/control.h, core/device/sls/control.cpp *)
Module RegionInfo.
Record t := mk { size : Z; offset : Z; map_size : Z; map_offset : Z }.
End RegionInfo.

Module SlsControl.

Definition cunit_info_paths_ : list macro :=
  [ CUNIT_STATE_PATH;
    CUNIT_ACQUISITION_COUNT_PATH;
    CUNIT_FREE_SIZE_PATH;
    CUNIT_REGION_BASE_SIZE_PATH;
    CUNIT_REGION_BASE_OFFSET_PATH;
    CUNIT_REGION_BASE_MAP_SIZE_PATH;
    CUNIT_REGION_BASE_MAP_OFFSET_PATH;
    CUNIT_REGION_INST_SIZE_PATH;
    CUNIT_REGION_INST_OFFSET_PATH;
    CUNIT_REGION_INST_MAP_SIZE_PATH;
    CUNIT_REGION_INST_MAP_OFFSET_PATH;
    CUNIT_REGION_CFGR_SIZE_PATH;
    CUNIT_REGION_CFGR_OFFSET_PATH;
    CUNIT_REGION_CFGR_MAP_SIZE_PATH;
    CUNIT_REGION_CFGR_MAP_OFFSET_PATH;
    CUNIT_REGION_TAGS_SIZE_PATH;
    CUNIT_REGION_TAGS_OFFSET_PATH;
    CUNIT_REGION_TAGS_MAP_SIZE_PATH;
    CUNIT_REGION_TAGS_MAP_OFFSET_PATH;
    CUNIT_REGION_PSUM_SIZE_PATH;
    CUNIT_REGION_PSUM_OFFSET_PATH;
    CUNIT_REGION_PSUM_MAP_SIZE_PATH;
    CUNIT_REGION_PSUM_MAP_OFFSET_PATH ].

(** The table of [get_region_info]: size, offset, size and offset of the mapping. *)
Definition key_matching : list (Z * (ComputeUnitInfo.t * ComputeUnitInfo.t * ComputeUnitInfo.t * ComputeUnitInfo.t)) :=
  [ (SLS_BLOCK_BASE, (RegionBaseSize, RegionBaseOffset, RegionBaseMapSize, RegionBaseMapOffset));
    (SLS_BLOCK_CFGR, (RegionCfgrSize, RegionCfgrOffset, RegionCfgrMapSize, RegionCfgrMapOffset));
    (SLS_BLOCK_INST, (RegionInstSize, RegionInstOffset, RegionInstMapSize, RegionInstMapOffset));
    (SLS_BLOCK_TAGS, (RegionTagsSize, RegionTagsOffset, RegionTagsMapSize, RegionTagsMapOffset));
    (SLS_BLOCK_PSUM, (RegionPsumSize, RegionPsumOffset, RegionPsumMapSize, RegionPsumMapOffset)) ].

Section control.
Context {S : Type} `{FileSystem S} `{Headers}.

Definition sls_sysfs_root_ : chars := expand SLS_SYSFS_ROOT ++ str "/".

(** [compute_unit] is a [uint8_t]: callers pass wider integers. *)
Definition cunit_path (compute_unit : Z) (attribute : macro) : chars :=
  sls_sysfs_root_ // expand DEVICE_CUNITS_PATH // to_string (u8 compute_unit) // expand attribute.

Definition get_compute_unit_info (s : S) (compute_unit : Z) (key : ComputeUnitInfo.t) : result Z :=
  let! attribute := vec_at cunit_info_paths_ (cunit_info_to_index key) in
  read_u64 s (cunit_path compute_unit attribute).

Definition get_region_info (s : S) (compute_unit key : Z) : result RegionInfo.t :=
  match list_find (fun '(k, _) => k = key) key_matching with
  | None => Err InvalidArguments
  | Some (_, (_, (size, offset, map_size, map_offset))) =>
      let! size := get_compute_unit_info s compute_unit size in
      let! offset := get_compute_unit_info s compute_unit offset in
      let! map_size := get_compute_unit_info s compute_unit map_size in
      let! map_offset := get_compute_unit_info s compute_unit map_offset in
      Ok (RegionInfo.mk size offset map_size map_offset)
  end.

Definition sysfs_reset (s : S) : result S :=
  write_file s (sls_sysfs_root_ // expand DEVICE_RESET_PATH) (str "1").

Definition get_leaked (s : S) : result Z :=
  read_u64 s (sls_sysfs_root_ // expand DEVICE_LEAKED_PATH).

Definition set_resource_cleanup (s : S) (value : Z) : result S :=
  write_file s (sls_sysfs_root_ // expand DEVICE_RESOURCE_CLEANUP_PATH) (to_string value).

Definition get_resource_cleanup (s : S) : result Z :=
  read_u64 s (sls_sysfs_root_ // expand DEVICE_RESOURCE_CLEANUP_PATH).

Definition get_acquisition_timeout (s : S) : result Z :=
  read_u64 s (sls_sysfs_root_ // expand DEVICE_ACQUISITION_TIMEOUT_PATH).

Definition set_acquisition_timeout (s : S) (value : Z) : result S :=
  write_file s (sls_sysfs_root_ // expand DEVICE_ACQUISITION_TIMEOUT_PATH) (to_string value).

(** [MemInfo]: the blocks of every compute unit. *)
Definition get_mem_info (tp : Constants) (s : S) : result (list (list RegionInfo.t)) :=
  rmap (fun compute_unit => rmap (get_region_info s compute_unit) (seqZ 0 SLS_BLOCK_MAX))
       (seqZ 0 (NumOfCUnits tp)).

Definition memory_size (s : S) : result Z := read_u64 s (sls_sysfs_root_ // str "size").

End control.
End SlsControl.

(** ** The constants: common/topology_constants.h *)
Section topology.
Context {S : Type} `{FileSystem S} `{Headers}.

(** [Constants::Constants]: the code of the bus, a [uint8_t] that need not be one of the
    enumerators, and the record but for the bus. *)
Definition load_constants (s : S) : result (Z * (BusType → Constants)) :=
  let load64 attribute := read_u64 s (expand SLS_SYSFS_ROOT ++ str "/" ++ expand attribute) in
  let load32 attribute := read_u32 s (expand SLS_SYSFS_ROOT ++ str "/" ++ expand attribute) in
  let! bus_type := load64 ATTR_DEV_TYPE_PATH in
  let! cunits := load32 ATTR_NUM_OF_CUNITS_PATH in
  let! psum_bufs := load32 ATTR_PSUM_BUFFER_PATH in
  let! tags_bufs := load32 ATTR_TAGS_BUFFER_PATH in
  let! inst_bufs := load32 ATTR_INST_BUFFER_PATH in
  let! psum_size := load32 ATTR_BUFFER_SIZE_PATH in
  let! tags_size := load32 ATTR_BUFFER_SIZE_PATH in
  let! inst_size := load32 ATTR_BUFFER_SIZE_PATH in
  let! instruction := load32 ATTR_INSTRUCTION_SIZE_PATH in
  let! aligned_tag := load64 ATTR_ALIGNED_TAG_SIZE_PATH in
  let! data := load64 ATTR_DATA_SIZE_PATH in
  let! polling := load64 ATTR_POLLING_REGISTER_OFFSET_PATH in
  let! exec := load64 ATTR_SLS_EXEC_VALUE_PATH in
  let! en := load64 ATTR_REG_SLS_EN_PATH in
  Ok (u8 bus_type, fun bus =>
      {| Bus := bus; NumOfCUnits := cunits;
         PSumBufSize := psum_size; NumOfPSumBuf := psum_bufs;
         TagsBufSize := tags_size; NumOfTagsBuf := tags_bufs;
         InstBufSize := inst_size; NumOfInstBuf := inst_bufs;
         InstructionSize := instruction; RankInterleavingSize := Z.shiftl 1 HA_BIT_POS;
         AlignedTagSize := aligned_tag; RegPolling := polling; RegSlsExec := exec;
         RegSlsEn := en; DataSize := data |}).

(** The values of [enum class BusType]. *)
Definition bus_of_code (code : Z) : option BusType :=
  if code =? 1 then Some AXDIMM else if code =? 2 then Some CXL else None.

Definition code_of_bus (bus : BusType) : Z := match bus with AXDIMM => 1 | CXL => 2 end.

(** [PNM_PLATFORM] *)
Inductive Platform := HARDWARE | FUNCSIM | PERFSIM.

Definition get_device_path (platform : Platform) (code : Z) : result chars :=
  match platform with
  | FUNCSIM => Ok (str "/dev/shm/sls")
  | _ => match bus_of_code code with
         | Some AXDIMM => Ok (expand SLS_MEMDEV_PATH)
         | Some CXL => Ok (expand DAX_PATH)
         | None => Err InvalidArguments
         end
  end.

(** The IMDB constants: the numbers of ranks and of threads. *)
Definition load_imdb_constants (s : S) : result (Z * Z) :=
  let load32 attribute := read_u32 s (expand IMDB_SYSFS_PATH ++ str "/" ++ expand attribute) in
  let! ranks := load32 IMDB_ATTR_NUM_OF_RANKS_PATH in
  let! threads := load32 IMDB_ATTR_NUM_OF_THREADS_PATH in
  Ok (ranks, threads).
End topology.

(** ** The IMDB control object: core/device/imdb/control.cpp *)
Module ImdbControl.
Section control.
Context {S : Type} `{FileSystem S} `{Headers}.

Definition sysfs_root_ : chars := expand IMDB_SYSFS_PATH.

(** The constructor. *)
Definition make (s : S) : result unit :=
  if fs_exists s sysfs_root_ then Ok tt else Err IO.

Definition memory_size (s : S) : result Z := read_u64 s (sysfs_root_ // str "mem_size").

Definition alignment (s : S) : result Z := read_u64 s (sysfs_root_ // str "alignment").

Definition free_size (s : S) : result Z := read_u64 s (sysfs_root_ // str "free_size").

Definition thread_state (s : S) (thread : Z) : result bool :=
  let! value := read_u64 s (sysfs_root_ // to_string (u8 thread) // str "state") in
  Ok (negb (value =? 0)).

Definition reset (s : S) : result S := write_file s (sysfs_root_ // str "reset") (to_string 1).

Definition get_resource_cleanup (s : S) : result bool :=
  let! value := read_u64 s (sysfs_root_ // str "cleanup") in
  Ok (value =? 1).

Definition get_leaked (s : S) : result Z := read_u64 s (sysfs_root_ // str "leaked").

Definition set_resource_cleanup (s : S) (state : bool) : result S :=
  write_file s (sysfs_root_ // str "cleanup") (to_string (if state then 1 else 0)).
End control.
End ImdbControl.

(** ** Opening an SLS device *)
Section open.
Context {S : Type} `{FileSystem S} `{Headers}.

(** [open] with [O_RDWR], and [mmap] of a part of an open file: the address it returns. *)
Context (can_open : chars → bool) (mmap : chars → Z → Z → option Z).

(** One block of [MemMap::init_device_memory]: its address and its size. *)
Definition map_block (path : chars) (info : RegionInfo.t) : result (Z * Z) :=
  let! address := of_option IO (mmap path (RegionInfo.map_size info) (RegionInfo.map_offset info)) in
  Ok (address, RegionInfo.size info).

Definition init_device_memory (tp : Constants) (mem_info : list (list RegionInfo.t)) (path : chars) : result MemMap.t :=
  let! addr_infos := rmap (fun cunit =>
      let! blocks := vec_at mem_info cunit in
      let! mapped := rmap (fun reg => let! info := vec_at blocks reg in map_block path info) (seqZ 0 SLS_BLOCK_MAX) in
      Ok (MemMap.mkMemAddr mapped.*1 mapped.*2)) (seqZ 0 (NumOfCUnits tp)) in
  Ok (MemMap.init addr_infos).

(** [BaseDevice::BaseDevice]: both files are opened first. *)
Definition make_base_device (tp : Constants) (data_path : chars) (s : S) : result MemMap.t :=
  if negb (can_open (expand SLS_RESOURCE_PATH)) then Err IO
  else if negb (can_open data_path) then Err IO
  else
    let! _ := check_topology tp in
    let! mem_info := SlsControl.get_mem_info tp s in
    init_device_memory tp mem_info data_path.

(** [BaseDevice::make_device], up to the choice between the device of the hardware and
    its simulator: the constants of the machine and the map of its memory. *)
Definition make_sls_device (platform : Platform) (s : S) : result (Constants * MemMap.t) :=
  let! (code, constants) := load_constants s in
  match bus_of_code code with
  | None => Err NotSupported
  | Some bus =>
      let! mem_path := get_device_path platform code in
      let! map := make_base_device (constants bus) mem_path s in
      Ok (constants bus, map)
  end.
End open.

(** * What the files say

    A machine: its constants and the regions of the blocks of its compute units. *)
Definition topology_attributes (t : Constants) : list (macro * Z) :=
  [ (ATTR_DEV_TYPE_PATH, code_of_bus (Bus t)); (ATTR_NUM_OF_CUNITS_PATH, NumOfCUnits t);
    (ATTR_PSUM_BUFFER_PATH, NumOfPSumBuf t); (ATTR_TAGS_BUFFER_PATH, NumOfTagsBuf t);
    (ATTR_INST_BUFFER_PATH, NumOfInstBuf t); (ATTR_BUFFER_SIZE_PATH, PSumBufSize t);
    (ATTR_INSTRUCTION_SIZE_PATH, InstructionSize t); (ATTR_ALIGNED_TAG_SIZE_PATH, AlignedTagSize t);
    (ATTR_DATA_SIZE_PATH, DataSize t); (ATTR_POLLING_REGISTER_OFFSET_PATH, RegPolling t);
    (ATTR_SLS_EXEC_VALUE_PATH, RegSlsExec t); (ATTR_REG_SLS_EN_PATH, RegSlsEn t) ].

(** The attributes of a block: size, offset, size and offset of its mapping. *)
Definition block_attributes (block : Z) : list macro :=
  if block =? SLS_BLOCK_BASE then
    [CUNIT_REGION_BASE_SIZE_PATH; CUNIT_REGION_BASE_OFFSET_PATH; CUNIT_REGION_BASE_MAP_SIZE_PATH; CUNIT_REGION_BASE_MAP_OFFSET_PATH]
  else if block =? SLS_BLOCK_INST then
    [CUNIT_REGION_INST_SIZE_PATH; CUNIT_REGION_INST_OFFSET_PATH; CUNIT_REGION_INST_MAP_SIZE_PATH; CUNIT_REGION_INST_MAP_OFFSET_PATH]
  else if block =? SLS_BLOCK_CFGR then
    [CUNIT_REGION_CFGR_SIZE_PATH; CUNIT_REGION_CFGR_OFFSET_PATH; CUNIT_REGION_CFGR_MAP_SIZE_PATH; CUNIT_REGION_CFGR_MAP_OFFSET_PATH]
  else if block =? SLS_BLOCK_TAGS then
    [CUNIT_REGION_TAGS_SIZE_PATH; CUNIT_REGION_TAGS_OFFSET_PATH; CUNIT_REGION_TAGS_MAP_SIZE_PATH; CUNIT_REGION_TAGS_MAP_OFFSET_PATH]
  else if block =? SLS_BLOCK_PSUM then
    [CUNIT_REGION_PSUM_SIZE_PATH; CUNIT_REGION_PSUM_OFFSET_PATH; CUNIT_REGION_PSUM_MAP_SIZE_PATH; CUNIT_REGION_PSUM_MAP_OFFSET_PATH]
  else [].

Definition region_values (r : RegionInfo.t) : list Z :=
  [RegionInfo.size r; RegionInfo.offset r; RegionInfo.map_size r; RegionInfo.map_offset r].

(** The constants that sysfs can express: the three kinds of buffers have one size. *)
Record expressible (t : Constants) : Prop := {
  ex_widths : Forall (fun v => 0 ≤ v < 2 ^ 32)
    [NumOfCUnits t; NumOfPSumBuf t; NumOfTagsBuf t; NumOfInstBuf t; PSumBufSize t; InstructionSize t];
  ex_buffers : TagsBufSize t = PSumBufSize t ∧ InstBufSize t = PSumBufSize t;
  ex_interleaving : RankInterleavingSize t = 2 ^ HA_BIT_POS;
}.

Section describes.
Context {S : Type} `{FileSystem S} `{Headers}.

Record describes (s : S) (t : Constants) (regions : Z → Z → RegionInfo.t) : Prop := {
  de_topology : Forall (fun '(m, v) => shows s (expand SLS_SYSFS_ROOT ++ str "/" ++ expand m) v) (topology_attributes t);
  de_regions : ∀ c b, 0 ≤ c < NumOfCUnits t → 0 ≤ b < SLS_BLOCK_MAX →
    Forall2 (fun m v => shows s (SlsControl.cunit_path c m) v) (block_attributes b) (region_values (regions c b));
}.

(** A number that fits is read as it is shown. *)
Lemma read_shown (W : Z) (s : S) (p : chars) (v : Z) : 0 < W ≤ 64 → shows s p v → v < 2 ^ W →
  read_file (unsigned W) 0 s p = Ok v.
Proof.
  intros HW (Hv & rest & Hr & E) Hlt. unfold read_file. rewrite E. unfold to_string.
  assert (TCEq (0 <? W) true) by (apply TCEq_eq; lia). assert (TCEq (W <=? 64) true) by (apply TCEq_eq; lia).
  change (digits 20 v) with (show (unsigned W) v).
  by rewrite (extract_show (F := unsigned W) (valid := fun v => 0 ≤ v < 2 ^ W)) by (done || lia).
Qed.

Lemma read_shown_u64 (s : S) (p : chars) (v : Z) : shows s p v → read_u64 s p = Ok v.
Proof. intros Hs. apply read_shown; [lia|done|apply Hs]. Qed.

(** Reading fails in one way only. *)
Lemma read_file_error {T} (F : Format T) (d : T) (s : S) (p : chars) (e : error) :
  read_file F d s p = Err e → e = IO.
Proof. unfold read_file. repeat case_match; congruence. Qed.

(** [load_constants] reads the constants of the machine. *)
Lemma load_constants_shown (s : S) (t : Constants) (regions : Z → Z → RegionInfo.t) :
  describes s t regions → expressible t →
  load_constants s = Ok (code_of_bus (Bus t), fun bus =>
    mkConstants bus (NumOfCUnits t) (PSumBufSize t) (NumOfPSumBuf t) (TagsBufSize t) (NumOfTagsBuf t)
      (InstBufSize t) (NumOfInstBuf t) (InstructionSize t) (RankInterleavingSize t) (AlignedTagSize t)
      (RegPolling t) (RegSlsExec t) (RegSlsEn t) (DataSize t)).
Proof.
  intros [Ht _] [Hw [Hb1 Hb2] Hi]. unfold topology_attributes in Ht. rewrite !Forall_cons in Ht. rewrite !Forall_cons in Hw.
  decompose [and] Ht. decompose [and] Hw. unfold load_constants, read_u32.
  repeat match goal with
  | Hs : shows s ?p ?v |- context [read_u64 s ?p] => rewrite (read_shown_u64 s p v Hs); cbn [rbind]
  | Hs : shows s ?p ?v |- context [read_file _ 0 s ?p] => rewrite (read_shown 32 s p v) by (done || lia); cbn [rbind]
  end.
  rewrite Hb1, Hb2, Hi. by replace (u8 (code_of_bus (Bus t))) with (code_of_bus (Bus t)) by by destruct (Bus t).
Qed.

(** Without one of the attributes, or with a text that is no number of its width, there
    are no constants, and the error is always the same. *)
Lemma load_constants_error (s : S) (e : error) : load_constants s = Err e → e = IO.
Proof.
  unfold load_constants, read_u32, read_u64. intros Hl.
  repeat match type of Hl with
  | rbind ?m _ = _ => let E := fresh "E" in destruct m eqn:E; cbn [rbind] in Hl;
      [|injection Hl as <-; by eapply read_file_error]
  end. done.
Qed.

Lemma load_constants_missing (s : S) (t : Constants) (m : macro) (v : Z) :
  (m, v) ∈ topology_attributes t → fs_read s (expand SLS_SYSFS_ROOT ++ str "/" ++ expand m) = None →
  load_constants s = Err IO.
Proof.
  intros Hm Hn. destruct (load_constants s) as [x|e] eqn:E; [|by rewrite (load_constants_error s e E)]. exfalso.
  unfold load_constants in E.
  assert (H64 : ∀ y, read_u64 s (expand SLS_SYSFS_ROOT ++ str "/" ++ expand m) ≠ Ok y).
  { intros y. unfold read_u64, read_file. by rewrite Hn. }
  assert (H32 : ∀ y, read_u32 s (expand SLS_SYSFS_ROOT ++ str "/" ++ expand m) ≠ Ok y).
  { intros y. unfold read_u32, read_file. by rewrite Hn. }
  inv_result. unfold topology_attributes in Hm.
  repeat (apply elem_of_cons in Hm as [Hm|Hm]; [injection Hm as -> _; first [eapply H64; eassumption | eapply H32; eassumption]|]).
  by apply not_elem_of_nil in Hm.
Qed.

(** The table of paths has an entry for every key, in the order of the enumerators. *)
Lemma get_compute_unit_info_shown (s : S) (c : Z) (key : ComputeUnitInfo.t) (m : macro) (v : Z) :
  SlsControl.cunit_info_paths_ !! Z.to_nat (cunit_info_to_index key) = Some m →
  shows s (SlsControl.cunit_path c m) v → SlsControl.get_compute_unit_info s c key = Ok v.
Proof.
  intros Hm Hs. unfold SlsControl.get_compute_unit_info.
  rewrite (proj2 (vec_at_Ok _ _ m)) by (split; [by destruct key|done]). by apply read_shown_u64.
Qed.

Lemma get_region_info_shown (s : S) (t : Constants) (regions : Z → Z → RegionInfo.t) (c b : Z) :
  describes s t regions → 0 ≤ c < NumOfCUnits t → 0 ≤ b < SLS_BLOCK_MAX →
  SlsControl.get_region_info s c b = Ok (regions c b).
Proof.
  intros Hd Hc Hb. pose proof (de_regions _ _ _ Hd c b Hc Hb) as Hs. unfold SLS_BLOCK_MAX in Hb.
  assert (b = 0 ∨ b = 1 ∨ b = 2 ∨ b = 3 ∨ b = 4) as Hcase by lia. unfold SlsControl.get_region_info.
  destruct Hcase as [->|[->|[->|[->| ->]]]];
    apply Forall2_cons_1 in Hs as [H1 Hs]; apply Forall2_cons_1 in Hs as [H2 Hs];
    apply Forall2_cons_1 in Hs as [H3 Hs]; apply Forall2_cons_1 in Hs as [H4 _];
    match goal with |- context [@list_find ?A ?P ?D ?l] =>
      let r := eval vm_compute in (@list_find A P D l) in change (@list_find A P D l) with r end; cbv beta iota;
    do 4 (erewrite get_compute_unit_info_shown; [cbn [rbind]|reflexivity|eassumption]); by destruct (regions c _).
Qed.
End describes.

(** ** The map of the memory *)

(** The loop of [MemMap::init] leaves the least size of every block. *)
Lemma min_sizes_least (j : nat) (l : list MemMap.memAddr) : ∀ mins m,
  mins !! j = Some m → Forall (fun i => is_Some (MemMap.size i !! j)) l →
  ∃ r, fold_left MemMap.min_sizes l mins !! j = Some r ∧ r ≤ m ∧
    Forall (fun i => ∀ x, MemMap.size i !! j = Some x → r ≤ x) l ∧
    (r = m ∨ Exists (fun i => MemMap.size i !! j = Some r) l).
Proof.
  induction l as [|i l IH]; intros mins m Hm Hl; cbn [fold_left]; [exists m; repeat split; auto; lia|].
  apply Forall_cons in Hl as [[x Hx] Hl]. edestruct (IH (MemMap.min_sizes mins i) (Z.min m x)) as (r & E & Hr & Hall & Hex); [|done|].
  - unfold MemMap.min_sizes. by rewrite lookup_zip_with, Hm, Hx.
  - exists r. split; [done|]. split; [lia|]. split.
    + constructor; [|done]. intros y Hy. simplify_eq. lia.
    + destruct Hex as [->|Hex]; [|by right; right]. destruct (Z.min_spec m x) as [[_ ->]|[_ ->]]; [by left|by right; left].
Qed.

Lemma vec_at_seqZ {A} (f : Z → A) (n i : Z) : 0 ≤ i < n → vec_at (f <$> seqZ 0 n) i = Ok (f i).
Proof.
  intros Hi. apply vec_at_Ok. split; [lia|]. rewrite list_lookup_fmap, lookup_seqZ_lt by lia. cbn. f_equal. f_equal. lia.
Qed.

Section opened.
Context {S : Type} `{FileSystem S} `{Headers} (can_open : chars → bool) (mmap : chars → Z → Z → option Z).
Context (s : S) (t : Constants) (regions : Z → Z → RegionInfo.t) (Hd : describes s t regions).

Lemma get_mem_info_shown :
  SlsControl.get_mem_info t s = Ok ((fun c => regions c <$> seqZ 0 SLS_BLOCK_MAX) <$> seqZ 0 (NumOfCUnits t)).
Proof.
  apply rmap_spec. intros c Hc%elem_of_seqZ. apply rmap_spec. intros b Hb%elem_of_seqZ.
  by apply (get_region_info_shown s t regions); [|lia|].
Qed.

Lemma init_device_memory_mapped (path : chars) (address : Z → Z → Z) :
  (∀ c b, 0 ≤ c < NumOfCUnits t → 0 ≤ b < SLS_BLOCK_MAX →
    mmap path (RegionInfo.map_size (regions c b)) (RegionInfo.map_offset (regions c b)) = Some (address c b)) →
  init_device_memory mmap t ((fun c => regions c <$> seqZ 0 SLS_BLOCK_MAX) <$> seqZ 0 (NumOfCUnits t)) path =
  Ok (MemMap.init ((fun c => MemMap.mkMemAddr (address c <$> seqZ 0 SLS_BLOCK_MAX)
                               ((fun b => RegionInfo.size (regions c b)) <$> seqZ 0 SLS_BLOCK_MAX)) <$> seqZ 0 (NumOfCUnits t))).
Proof.
  intros Hm. unfold init_device_memory.
  rewrite (rmap_spec _ (fun c => MemMap.mkMemAddr (address c <$> seqZ 0 SLS_BLOCK_MAX)
                               ((fun b => RegionInfo.size (regions c b)) <$> seqZ 0 SLS_BLOCK_MAX))); [done|].
  intros c Hc%elem_of_seqZ. rewrite vec_at_seqZ by lia. cbn [rbind].
  rewrite (rmap_spec _ (fun b => (address c b, RegionInfo.size (regions c b)))); cbn [rbind].
  - by rewrite <- !list_fmap_compose.
  - intros b Hb%elem_of_seqZ. rewrite vec_at_seqZ by lia. cbn [rbind]. unfold map_block. by rewrite Hm by lia.
Qed.
End opened.

Lemma region_size_width {S : Type} `{FileSystem S} (s : S) (path : macro → chars) (b : Z) (r : RegionInfo.t) :
  0 ≤ b < SLS_BLOCK_MAX → Forall2 (fun m v => shows s (path m) v) (block_attributes b) (region_values r) →
  RegionInfo.size r < 2 ^ 64.
Proof.
  intros Hb Hr. assert (∃ m l, block_attributes b = m :: l) as (m & l & E).
  { unfold block_attributes. repeat case_match; eauto. zbool. unfold SLS_BLOCK_MAX, SLS_BLOCK_BASE, SLS_BLOCK_INST, SLS_BLOCK_CFGR, SLS_BLOCK_TAGS, SLS_BLOCK_PSUM in *. lia. }
  rewrite E in Hr. apply Forall2_cons_1 in Hr as [[Hv _] _]. apply Hv.
Qed.

(** The least size of a block over [n] units whose blocks have the sizes [sizes]. *)
Lemma init_min_block_size (address sizes : Z → Z → Z) (n b : Z) :
  0 < n → 0 ≤ b < SLS_BLOCK_MAX → (∀ c, 0 ≤ c < n → sizes c b < 2 ^ 64) →
  ∃ m, MemMap.get_min_block_size (MemMap.init ((fun c =>
      MemMap.mkMemAddr (address c <$> seqZ 0 SLS_BLOCK_MAX) (sizes c <$> seqZ 0 SLS_BLOCK_MAX)) <$> seqZ 0 n)) b = Ok m ∧
    (∀ c, 0 ≤ c < n → m ≤ sizes c b) ∧ ∃ c, 0 ≤ c < n ∧ m = sizes c b.
Proof.
  intros Hn Hb Hs. unfold MemMap.get_min_block_size, MemMap.check_block_type, assert.
  rewrite (proj2 (Z.leb_le _ _)), (proj2 (Z.ltb_lt _ _)) by (unfold SLS_BLOCK_BASE; lia).
  cbn [andb rbind MemMap.m_minSizeInfo MemMap.init].
  assert (Hl : ∀ c, (sizes c <$> seqZ 0 SLS_BLOCK_MAX) !! Z.to_nat b = Some (sizes c b)).
  { intros c. by apply (vec_at_Ok _ b), (vec_at_seqZ (sizes c)). }
  set (infos := _ <$> seqZ 0 n).
  destruct (min_sizes_least (Z.to_nat b) infos (replicate (Z.to_nat SLS_BLOCK_MAX) MemMap.size_max) MemMap.size_max)
    as (r & E & Hr & Hall & Hex); [apply lookup_replicate_2; lia| |].
  { apply Forall_fmap, Forall_forall. intros c _. unfold compose. cbn [MemMap.size]. by rewrite Hl. }
  unfold infos in Hall, Hex. rewrite Forall_fmap, Forall_forall in Hall. unfold compose in Hall.
  exists r. split; [by apply vec_at_Ok; split; [lia|]|]. split.
  - intros c Hc. apply (Hall c); [apply elem_of_seqZ; lia|apply Hl].
  - destruct Hex as [->|(i & Hi & Hx)%Exists_exists].
    + exists 0. split; [lia|]. assert (MemMap.size_max ≤ sizes 0 b).
      { apply (Hall 0); [apply elem_of_seqZ; lia|apply Hl]. }
      specialize (Hs 0). unfold MemMap.size_max in *. lia.
    + apply list_elem_of_fmap in Hi as (c & -> & Hc%elem_of_seqZ). cbn [MemMap.size] in Hx. rewrite Hl in Hx.
      exists c. split; [lia|congruence].
Qed.

(** Property C22.  Opening an SLS device whose sysfs attributes show the constants [t] and
    the regions of its blocks, on a machine that opens the files and maps the regions:
    the library works with exactly the constants [t]; the pointer of every block of every
    compute unit is the address of the mapping that the attributes of that block of that
    unit ask for; and the size the library reports for a block is the least size of the
    block over the units. *)
Theorem opened_device_follows_sysfs {S : Type} `{FileSystem S} `{Headers} (can_open : chars → bool)
  (mmap : chars → Z → Z → option Z) (platform : Platform) (s : S) (t : Constants)
  (regions : Z → Z → RegionInfo.t) (address : Z → Z → Z) (path : chars) :
  describes s t regions → expressible t → 0 < NumOfCUnits t < 256 → check_topology t = Ok tt →
  get_device_path platform (code_of_bus (Bus t)) = Ok path →
  can_open (expand SLS_RESOURCE_PATH) = true → can_open path = true →
  (∀ c b, 0 ≤ c < NumOfCUnits t → 0 ≤ b < SLS_BLOCK_MAX →
    mmap path (RegionInfo.map_size (regions c b)) (RegionInfo.map_offset (regions c b)) = Some (address c b)) →
  ∃ map, make_sls_device can_open mmap platform s = Ok (t, map) ∧
    (∀ c b, 0 ≤ c < NumOfCUnits t → 0 ≤ b < SLS_BLOCK_MAX → MemMap.block_addr map c b = Ok (address c b)) ∧
    (∀ b, 0 ≤ b < SLS_BLOCK_MAX → ∃ m, MemMap.get_min_block_size map b = Ok m ∧
      (∀ c, 0 ≤ c < NumOfCUnits t → m ≤ RegionInfo.size (regions c b)) ∧
      (∃ c, 0 ≤ c < NumOfCUnits t ∧ m = RegionInfo.size (regions c b))).
Proof.
  intros Hd He Hn Hc Hp Ho1 Ho2 Hm. unfold make_sls_device.
  rewrite (load_constants_shown s t regions) by done. cbn [rbind].
  replace (bus_of_code (code_of_bus (Bus t))) with (Some (Bus t)) by by destruct (Bus t).
  rewrite Hp. cbn [rbind]. replace (mkConstants (Bus t) _ _ _ _ _ _ _ _ _ _ _ _ _ _) with t by by destruct t.
  unfold make_base_device. rewrite Ho1, Ho2, Hc. cbn [negb rbind]. rewrite (get_mem_info_shown s t regions Hd). cbn [rbind].
  rewrite (init_device_memory_mapped mmap t regions path address Hm). cbn [rbind]. eexists. split; [done|]. split.
  - intros c b Hcc Hb. unfold MemMap.block_addr, MemMap.init. cbn [MemMap.m_cunitAddrInfo].
    rewrite vec_at_seqZ by lia. cbn [rbind MemMap.addr]. by rewrite vec_at_seqZ by lia.
  - intros b Hb. apply init_min_block_size; [lia|done|]. intros c Hcc.
    pose proof (de_regions _ _ _ Hd c b Hcc Hb) as Hr. by eapply region_size_width.
Qed.

(** ** Settings *)

(** The driver takes the number [v] written to [p], or leaves everything as it is. *)
Definition accepts {S} `{FileSystem S} (s : S) (p : chars) (v : Z) : Prop :=
  shows (fs_store s p (to_string v)) p v.
Definition rejects {S} `{FileSystem S} (s : S) (p : chars) (v : Z) : Prop :=
  fs_store s p (to_string v) = s.

(** What holds of a setter that writes [v] to [p] and of the getter that returns [x] when
    [p] shows [v]: a file that cannot be opened is an error, what the driver accepts is
    read back, and what it rejects is reported as a success that changes nothing. *)
Definition setting {S A} `{FileSystem S} (s : S) (p : chars) (v : Z) (x : A)
    (set : S → result S) (get : S → result A) : Prop :=
  (fs_writable s p = false → set s = Err IO) ∧
  (fs_writable s p = true → accepts s p v → ∃ s', set s = Ok s' ∧ get s' = Ok x) ∧
  (fs_writable s p = true → rejects s p v → set s = Ok s).

Lemma setting_spec {S A} `{FileSystem S} (s : S) (p : chars) (v : Z) (x : A)
    (set : S → result S) (get : S → result A) :
  (∀ s, set s = write_file s p (to_string v)) → (∀ s, shows s p v → get s = Ok x) → setting s p v x set get.
Proof.
  intros Hset Hget. unfold setting. rewrite Hset. unfold write_file. split; [by intros ->|]. split; intros ->.
  - intros Ha%Hget. by eexists.
  - by intros ->.
Qed.

(** The acquisition timeout and the resource cleanup of the SLS device and
    the resource cleanup of the IMDB device: setting one fails when its attribute cannot
    be opened and can be read back when the driver accepts it, for every 64-bit value;
    but when the driver rejects the value, the setter returns as if it had succeeded. *)
Theorem settings_roundtrip {S : Type} `{FileSystem S} `{Headers} (s : S) (v : Z) (state : bool) :
  setting s (SlsControl.sls_sysfs_root_ // expand DEVICE_ACQUISITION_TIMEOUT_PATH) v v
    (fun s => SlsControl.set_acquisition_timeout s v) SlsControl.get_acquisition_timeout ∧
  setting s (SlsControl.sls_sysfs_root_ // expand DEVICE_RESOURCE_CLEANUP_PATH) v v
    (fun s => SlsControl.set_resource_cleanup s v) SlsControl.get_resource_cleanup ∧
  setting s (ImdbControl.sysfs_root_ // str "cleanup") (if state then 1 else 0) state
    (fun s => ImdbControl.set_resource_cleanup s state) ImdbControl.get_resource_cleanup.
Proof.
  split; [|split]; (apply setting_spec; [done|]); intros s' Hs.
  - by apply read_shown_u64.
  - by apply read_shown_u64.
  - unfold ImdbControl.get_resource_cleanup. rewrite (read_shown_u64 _ _ _ Hs). by destruct state.
Qed.

(** ** A file system and the paths of the kernel's headers *)
Definition topology_constant (name : string) : chars := str "topology/" ++ str name.
Definition region_path (region attribute : string) : chars := str "regions/" ++ str region ++ str "/" ++ str attribute.

#[export] Instance linux_headers : Headers := fun m =>
  match m with
  | SLS_SYSFS_ROOT => str "/sys/class/pnm/sls_resource"
  | SLS_RESOURCE_PATH => str "/dev/pnm/sls_resource"
  | SLS_MEMDEV_PATH => str "/dev/sls_memdev"
  | DAX_PATH => str "/dev/dax0.0"
  | DEVICE_CUNITS_PATH => str "cunits"
  | DEVICE_RESET_PATH => str "reset"
  | DEVICE_LEAKED_PATH => str "leaked"
  | DEVICE_RESOURCE_CLEANUP_PATH => str "cleanup"
  | DEVICE_ACQUISITION_TIMEOUT_PATH => str "acq_timeout"
  | CUNIT_STATE_PATH => str "state"
  | CUNIT_ACQUISITION_COUNT_PATH => str "acquisition_count"
  | CUNIT_FREE_SIZE_PATH => str "free_size"
  | CUNIT_REGION_BASE_SIZE_PATH => region_path "base" "size"
  | CUNIT_REGION_BASE_OFFSET_PATH => region_path "base" "offset"
  | CUNIT_REGION_BASE_MAP_SIZE_PATH => region_path "base" "map_size"
  | CUNIT_REGION_BASE_MAP_OFFSET_PATH => region_path "base" "map_offset"
  | CUNIT_REGION_INST_SIZE_PATH => region_path "inst" "size"
  | CUNIT_REGION_INST_OFFSET_PATH => region_path "inst" "offset"
  | CUNIT_REGION_INST_MAP_SIZE_PATH => region_path "inst" "map_size"
  | CUNIT_REGION_INST_MAP_OFFSET_PATH => region_path "inst" "map_offset"
  | CUNIT_REGION_CFGR_SIZE_PATH => region_path "cfgr" "size"
  | CUNIT_REGION_CFGR_OFFSET_PATH => region_path "cfgr" "offset"
  | CUNIT_REGION_CFGR_MAP_SIZE_PATH => region_path "cfgr" "map_size"
  | CUNIT_REGION_CFGR_MAP_OFFSET_PATH => region_path "cfgr" "map_offset"
  | CUNIT_REGION_TAGS_SIZE_PATH => region_path "tags" "size"
  | CUNIT_REGION_TAGS_OFFSET_PATH => region_path "tags" "offset"
  | CUNIT_REGION_TAGS_MAP_SIZE_PATH => region_path "tags" "map_size"
  | CUNIT_REGION_TAGS_MAP_OFFSET_PATH => region_path "tags" "map_offset"
  | CUNIT_REGION_PSUM_SIZE_PATH => region_path "psum" "size"
  | CUNIT_REGION_PSUM_OFFSET_PATH => region_path "psum" "offset"
  | CUNIT_REGION_PSUM_MAP_SIZE_PATH => region_path "psum" "map_size"
  | CUNIT_REGION_PSUM_MAP_OFFSET_PATH => region_path "psum" "map_offset"
  | ATTR_DEV_TYPE_PATH => topology_constant "dev_type"
  | ATTR_NUM_OF_CUNITS_PATH => topology_constant "nr_cunits"
  | ATTR_PSUM_BUFFER_PATH => topology_constant "nr_psum_buf"
  | ATTR_TAGS_BUFFER_PATH => topology_constant "nr_tag_buf"
  | ATTR_INST_BUFFER_PATH => topology_constant "nr_inst_buf"
  | ATTR_BUFFER_SIZE_PATH => topology_constant "buf_sz"
  | ATTR_INSTRUCTION_SIZE_PATH => topology_constant "inst_sz"
  | ATTR_ALIGNED_TAG_SIZE_PATH => topology_constant "aligned_tag_sz"
  | ATTR_DATA_SIZE_PATH => topology_constant "data_sz"
  | ATTR_POLLING_REGISTER_OFFSET_PATH => topology_constant "reg_poll"
  | ATTR_SLS_EXEC_VALUE_PATH => topology_constant "reg_exec"
  | ATTR_REG_SLS_EN_PATH => topology_constant "reg_en"
  | IMDB_SYSFS_PATH => str "/sys/class/imdb_resource/pnm!imdb_resource"
  | IMDB_RESOURCE_DEVICE_PATH => str "/dev/pnm/imdb_resource"
  | IMDB_ATTR_NUM_OF_RANKS_PATH => topology_constant "nr_pools"
  | IMDB_ATTR_NUM_OF_THREADS_PATH => topology_constant "nr_cunits"
  end.

(** Files with their texts; writing to one replaces its text. *)
Definition Files := list (chars * chars).

#[export] Instance files : FileSystem Files := {|
  fs_exists s p := existsb (fun '(q, _) => bool_decide (take (length p) q = p)) s;
  fs_read s p := snd <$> (snd <$> list_find (fun '(q, _) => q = p) s);
  fs_writable s p := existsb (fun '(q, _) => bool_decide (q = p)) s;
  fs_store s p text := (fun '(q, old) => (q, if bool_decide (q = p) then text else old)) <$> s;
|}.

(** A CXL machine of two units, described by its driver. *)
Definition example_machine : Constants :=
  mkConstants CXL 2 (2 ^ 18) 1 (2 ^ 18) 1 (2 ^ 18) 2 8 (2 ^ 8) 32 64 128 192 64.

Definition example_regions (c b : Z) : RegionInfo.t :=
  RegionInfo.mk (4096 * (b + 1) - 16 * c) (65536 * c + 8192 * b) 8192 (65536 * c + 8192 * b).

Definition number_file (v : Z) : chars := to_string v ++ [newline].

Definition example_files : Files :=
  ((fun '(m, v) => (expand SLS_SYSFS_ROOT ++ str "/" ++ expand m, number_file v)) <$> topology_attributes example_machine) ++
  (seqZ 0 2 ≫= fun c => seqZ 0 5 ≫= fun b =>
     zip_with (fun m v => (SlsControl.cunit_path c m, number_file v)) (block_attributes b) (region_values (example_regions c b))).

(** [shows] of a file whose text is a number and a line break. *)
Definition shown_number (s : Files) (p : chars) (v : Z) : bool :=
  (0 <=? v) && (v <? 2 ^ 64) && bool_decide (fs_read s p = Some (number_file v)).

Lemma shown_number_shows (s : Files) (p : chars) (v : Z) : shown_number s p v = true → shows s p v.
Proof.
  unfold shown_number. intros Hs. zbool. apply bool_decide_eq_true in H0. split; [lia|]. by exists [newline].
Qed.

Lemma example_described : describes example_files example_machine example_regions.
Proof.
  assert (Ht : forallb (fun '(m, v) => shown_number example_files (expand SLS_SYSFS_ROOT ++ str "/" ++ expand m) v)
                 (topology_attributes example_machine) = true) by by vm_compute.
  assert (Hr : forallb (fun c => forallb (fun b => forallb (fun '(m, v) => shown_number example_files (SlsControl.cunit_path c m) v)
                 (zip (block_attributes b) (region_values (example_regions c b)))) (seqZ 0 5)) (seqZ 0 2) = true) by by vm_compute.
  rewrite forallb_forall in Ht. rewrite forallb_forall in Hr. split.
  - apply Forall_forall. intros [m v] Hm%list_elem_of_In. by apply shown_number_shows, (Ht (m, v)).
  - intros c b Hc Hb. assert (Hl : length (block_attributes b) = 4%nat).
    { unfold SLS_BLOCK_MAX in Hb. assert (b = 0 ∨ b = 1 ∨ b = 2 ∨ b = 3 ∨ b = 4) as [->|[->|[->|[->| ->]]]] by lia; done. }
    apply Forall2_same_length_lookup. split; [done|]. intros i m v Hm Hv. apply shown_number_shows.
    specialize (Hr c). rewrite forallb_forall in Hr. specialize (Hr ltac:(apply list_elem_of_In, elem_of_seqZ; cbn in Hc; lia) b).
    rewrite forallb_forall in Hr. apply (Hr ltac:(apply list_elem_of_In, elem_of_seqZ; unfold SLS_BLOCK_MAX in Hb; lia) (m, v)).
    apply list_elem_of_In, list_elem_of_lookup. exists i. rewrite lookup_zip_with, Hm. cbn. by rewrite Hv.
Qed.

Lemma opened_device_follows_sysfs_witness :
  ∃ map, make_sls_device (fun _ => true) (fun _ _ offset => Some (0x7f0000000000 + offset)) HARDWARE example_files =
           Ok (example_machine, map) ∧
    MemMap.block_addr map 1 SLS_BLOCK_TAGS = Ok (0x7f0000000000 + 65536 + 3 * 8192) ∧
    MemMap.get_min_block_size map SLS_BLOCK_PSUM = Ok (5 * 4096 - 16).
Proof.
  destruct (opened_device_follows_sysfs (fun _ => true) (fun _ _ offset => Some (0x7f0000000000 + offset)) HARDWARE
    example_files example_machine example_regions (fun c b => 0x7f0000000000 + (65536 * c + 8192 * b)) (str "/dev/dax0.0"))
    as (map & Hmap & Haddr & Hmin).
  - exact example_described.
  - split; [repeat constructor; cbn; lia|done|done].
  - cbn. lia.
  - reflexivity.
  - reflexivity.
  - reflexivity.
  - reflexivity.
  - reflexivity.
  - exists map. split; [exact Hmap|]. clear Hmap.
    assert (B : 0 ≤ 1 < NumOfCUnits example_machine) by (change (NumOfCUnits example_machine) with 2; lia).
    split; [exact (Haddr 1 SLS_BLOCK_TAGS B ltac:(unfold SLS_BLOCK_TAGS, SLS_BLOCK_MAX; lia))|].
    destruct (Hmin SLS_BLOCK_PSUM) as (m & E & Hle & c & Hc & ->); [unfold SLS_BLOCK_PSUM, SLS_BLOCK_MAX; lia|].
    rewrite E. f_equal. specialize (Hle 1 B). unfold example_regions, SLS_BLOCK_PSUM in *.
    cbn [RegionInfo.size] in *. change (NumOfCUnits example_machine) with 2 in Hc. lia.
Defined.
