(* ===== verification/ImdbDevice.v ===== *)
(** * The IMDB device

    core/device/imdb/base.{h,cpp}, simulator.cpp, hardware.cpp, the constructor of the
    simulator core, and the register map of include/pnmlib/imdb/libimdb.h.

    The components above work with banks of registers, one [ThreadCSR] per thread; here
    the banks are packed structures at fixed offsets of the mapped control file, and the
    bytes of that file refine the banks.  The resource driver that hands out threads is a
    class, like the one of the compute units. *)
From Stdlib Require Import String.
From S2P Require Import Prelude Text RankAddress WordMemory Allocators SlsDevice Imdb Sysfs.

(** ** include/pnmlib/imdb/libimdb.h *)
Definition REG_AREA_SIZE : Z := 0x1900.
Definition MAX_THREADS : Z := 3.
Definition COMMON_CSR_OFFSET : Z := 0.
Definition THREAD_STATUS_OFFSET : Z := 0x440.
Definition THREAD_CSR_SIZE : Z := 0x400.
Definition THREAD_CSR_BASE_OFFSET : Z := 0x1000.
Definition IMDB_RESET_ENABLE : Z := 0.
Definition IMDB_RESET_DISABLE : Z := 1.

Definition IMDB_CSR_DEVICE : chars := str "/dev/cxl/imdb0".
Definition IMDB_CSR_DEVICE_SIM_NAME : chars := str "/imdb-control".
Definition IMDB_CSR_DEVICE_SIM : chars := str "/dev/shm" ++ IMDB_CSR_DEVICE_SIM_NAME.
Definition IMDB_DEVMEMORY_PATH : chars := str "/dev/dax0.0".
Definition IMDB_DEVMEMORY_PATH_SIM_NAME : chars := str "/imdb-data".
Definition IMDB_DEVMEMORY_PATH_SIM : chars := str "/dev/shm" ++ IMDB_DEVMEMORY_PATH_SIM_NAME.

(** The fields of the packed [ThreadCSR] with their sizes in bytes; [None] is one of the
    [alignment] fields. *)
Definition thread_fields : list (option reg * Z) :=
  [ (Some THREAD_CTRL, 4); (Some THREAD_STATUS, 4); (Some THREAD_ERROR, 4); (Some THREAD_COMP_MODE, 4);
    (Some THREAD_START_ADDR, 8); (None, 8);
    (Some THREAD_SIZE_SB, 8); (None, 8);
    (Some THREAD_MIN_VALUE, 4); (Some THREAD_MAX_VALUE, 4); (None, 8);
    (Some THREAD_MIN_OPCODE, 4); (Some THREAD_MAX_OPCODE, 4); (None, 8);
    (Some THREAD_RES_ADDR, 8); (Some THREAD_RES_INDEX_OFFSET, 8);
    (Some THREAD_RES_SIZE_SB, 8); (None, 8);
    (Some THREAD_START_TIME, 4); (Some THREAD_DONE_TIME, 4); (None, 8);
    (Some THREAD_INLIST_ADDR, 8); (Some THREAD_INLIST_SIZE, 4); (Some THREAD_COLUMN_OFFSET, 4);
    (Some THREAD_RSLT_LMT, 4) ].

(** [sizeof(ThreadCSR)] *)
Definition thread_csr_sizeof : Z := foldr Z.add 0 (thread_fields.*2).

(** [offsetof(ThreadCSR, r)] *)
Fixpoint offset_in (fields : list (option reg * Z)) (r : reg) : option Z :=
  match fields with
  | [] => None
  | (f, size) :: fields' =>
      if decide (f = Some r) then Some 0 else Z.add size <$> offset_in fields' r
  end.
Definition field_offset (r : reg) : Z := default 0 (offset_in thread_fields r).

(** [CommonCSR] and [StatusCSR]: their fields of four bytes. *)
Inductive common_reg := IMDB_ID | IMDB_CAP | IMDB_RESET.
Definition common_offset (r : common_reg) : Z := match r with IMDB_ID => 0 | IMDB_CAP => 4 | IMDB_RESET => 8 end.
Definition common_csr_sizeof : Z := 12.
Definition status_csr_sizeof : Z := 4.

(** ** core/device/imdb/reg_mem.h, base.cpp: the register pointers *)
Record RegisterPointers := mkPointers {
  common : Z;
  status : Z;
  thread_csr : list Z
}.

(** [get_regs_section]: the control file is mapped at [data]. *)
Definition get_regs_section (data offset : Z) : Z := data + offset.

Definition register_pointers (threads data : Z) : RegisterPointers :=
  mkPointers (get_regs_section data COMMON_CSR_OFFSET) (get_regs_section data THREAD_STATUS_OFFSET)
    ((fun thread_id => get_regs_section data (THREAD_CSR_BASE_OFFSET + THREAD_CSR_SIZE * thread_id)) <$> seqZ 0 threads).

Definition get_csr (threads : Z) (regs : RegisterPointers) (thread_id : Z) : result Z :=
  let! _ := assert (thread_id <? threads) in
  vec_at (thread_csr regs) thread_id.

(** ** The driver of the threads *)

(** [ioctl]: what it returns and, for a negative result, [errno]. *)
Class ThreadDriver (K : Type) := {
  IMDB_IOCTL_GET_THREAD : K → K * Z * Z;
  IMDB_IOCTL_RELEASE_THREAD : K → Z → K * Z * Z
}.

(** What the driver documents: it hands out a thread that nobody holds, and takes back a
    thread that is held. *)
Class ThreadDriverLaws (K : Type) {D : ThreadDriver K} (threads : Z) := {
  thread_held : K → Z → bool;
  get_free : ∀ k c, 0 ≤ c < threads → thread_held k c = false →
    ∃ k' c', IMDB_IOCTL_GET_THREAD k = (k', c', 0) ∧ 0 ≤ c' < threads ∧ thread_held k c' = false ∧
      (∀ d, thread_held k' d = (d =? c') || thread_held k d);
  get_busy : ∀ k, (∀ c, 0 ≤ c < threads → thread_held k c = true) →
    ∃ k' e err, IMDB_IOCTL_GET_THREAD k = (k', e, err) ∧ e < 0 ∧ (∀ d, thread_held k' d = thread_held k d);
  release_taken : ∀ k c, 0 ≤ c < threads → thread_held k c = true →
    ∃ k' r, IMDB_IOCTL_RELEASE_THREAD k c = (k', r, 0) ∧ 0 ≤ r ∧
      (∀ d, thread_held k' d = negb (d =? c) && thread_held k d)
}.

(** The device: the driver, the threads of the simulator and the register file. *)
Record device_state (K : Type) := mkState {
  driver : K;
  sim_ : BaseAsyncSimulator.t;
  registers : memory
}.
Arguments mkState {K}.
Arguments driver {K} d.
Arguments sim_ {K} d.
Arguments registers {K} d.

Section device.
Context {K : Type} `{ThreadDriver K}.
Abbreviation action A := (M (device_state K) A).

Definition base_lock_thread_impl : action Z := fun d =>
  let '(k, rc, err) := IMDB_IOCTL_GET_THREAD (driver d) in
  (mkState k (sim_ d) (registers d), if rc <? 0 then Err (throw_from_errno err) else Ok (u8 rc)).

Definition base_release_thread_impl (thread_id : Z) : action unit := fun d =>
  let '(k, rc, err) := IMDB_IOCTL_RELEASE_THREAD (driver d) thread_id in
  (mkState k (sim_ d) (registers d), if rc <? 0 then Err (throw_from_errno err) else Ok tt).

Definition on_threads (f : BaseAsyncSimulator.t → result BaseAsyncSimulator.t) : action unit := fun d =>
  match f (sim_ d) with
  | Ok s => (mkState (driver d) s (registers d), Ok tt)
  | Err e => (d, Err e)
  end.

(** [SimulatorDevice::lock_thread_impl], [SimulatorDevice::release_thread_impl] *)
Definition lock_thread : action Z :=
  do! thread_id := base_lock_thread_impl in
  do! _ := on_threads (fun s => BaseAsyncSimulator.enable_thread s thread_id) in
  mret thread_id.

Definition release_thread (thread_id : Z) : action unit :=
  do! _ := on_threads (fun s => BaseAsyncSimulator.disable_thread s thread_id) in
  base_release_thread_impl thread_id.

(** [hw_atomic_store] to a register of four bytes. *)
Definition store_register (address value : Z) : action unit := fun d =>
  (mkState (driver d) (sim_ d) (store32 (registers d) address value), Ok tt).

Definition hardware_reset (regs : RegisterPointers) : action unit :=
  do! _ := store_register (common regs + common_offset IMDB_RESET) IMDB_RESET_ENABLE in
  store_register (common regs + common_offset IMDB_RESET) IMDB_RESET_DISABLE.

(** The constructor of [SimulatorCore]. *)
Definition simulator_core (threads : Z) (regs : RegisterPointers) (k : K) (m : memory) : result (device_state K) :=
  let! sim := BaseAsyncSimulator.make threads in
  let m := store32 m (status regs) (Z.shiftl 1 threads - 1) in
  let m := store32 m (common regs + common_offset IMDB_ID) 0x11 in
  let m := store32 m (common regs + common_offset IMDB_CAP) 0xD0000 in
  let! sim := BaseAsyncSimulator.start sim in
  Ok (mkState k sim m).
End device.

(** ** Opening, reset and forwarding: base.cpp, simulator.cpp, hardware.cpp *)

(** [Device::ResetOptions] *)
Inductive ResetOptions := SoftwareOnly | HardwareOnly | SoftwareHardware.

Section open.
Context {S K : Type} `{FileSystem S} `{Headers}.
Context (can_open : chars → bool) (mmap : chars → Z → Z → option Z).

(** [BaseDevice::BaseDevice]: the number of threads and the register pointers. *)
Definition base_device (devcontrol_path devmem_path : chars) (s : S) : result (Z * RegisterPointers) :=
  let! _ := (if can_open devcontrol_path then Ok tt else Err IO) in
  let! data := of_option IO (mmap devcontrol_path REG_AREA_SIZE 0) in
  let! _ := (if can_open devmem_path then Ok tt else Err IO) in
  let! _ := (if can_open (expand IMDB_RESOURCE_DEVICE_PATH) then Ok tt else Err IO) in
  let! _ := ImdbControl.make s in
  let! (_, threads) := load_imdb_constants s in
  Ok (threads, register_pointers threads data).

(** [HardwareDevice::HardwareDevice] *)
Definition hardware_device : S → result (Z * RegisterPointers) :=
  base_device IMDB_CSR_DEVICE IMDB_DEVMEMORY_PATH.

(** [SimulatorDevice::SimulatorDevice]: also where the memory of the device is mapped. *)
Definition simulator_device (k : K) (m : memory) (s : S) : result (RegisterPointers * Z * device_state K) :=
  let! (threads, regs) := base_device IMDB_CSR_DEVICE_SIM IMDB_DEVMEMORY_PATH_SIM s in
  let! size := ImdbControl.memory_size s in
  let! sim_memory := of_option IO (mmap IMDB_DEVMEMORY_PATH_SIM size 0) in
  let! d := simulator_core threads regs k m in
  Ok (regs, sim_memory, d).

(** [BaseDevice::make_device]: the path of the control file tells the two devices apart. *)
Definition make_imdb_device (platform : Platform) (k : K) (m : memory) (s : S)
    : result (RegisterPointers * option (Z * device_state K)) :=
  match platform with
  | HARDWARE => let! (_, regs) := hardware_device s in Ok (regs, None)
  | _ => let! (regs, sim_memory, d) := simulator_device k m s in Ok (regs, Some (sim_memory, d))
  end.

Definition software_reset : M (S * device_state K) unit := fun '(s, d) =>
  match ImdbControl.reset s with Ok s' => ((s', d), Ok tt) | Err e => ((s, d), Err e) end.

Definition on_device (f : M (device_state K) unit) : M (S * device_state K) unit := fun '(s, d) =>
  let (d', r) := f d in ((s, d'), r).

(** [BaseDevice::reset_impl] *)
Definition reset_impl (regs : RegisterPointers) (options : ResetOptions) : M (S * device_state K) unit :=
  match options with
  | SoftwareOnly => software_reset
  | HardwareOnly => on_device (hardware_reset regs)
  | SoftwareHardware => do! _ := software_reset in on_device (hardware_reset regs)
  end.

(** The driver's constant for a thread in use. *)
Definition is_thread_busy (IMDB_THREAD_BUSY : Z) (s : S) (thread : Z) : result bool :=
  let! state := ImdbControl.thread_state s thread in
  Ok ((if state then 1 else 0) =? IMDB_THREAD_BUSY).

(** The SLS device: [BaseDevice::reset_impl], [get_resource_cleanup_impl] *)
Definition sls_reset_impl (options : ResetOptions) (s : S) : result S :=
  match options with
  | SoftwareOnly | SoftwareHardware => SlsControl.sysfs_reset s
  | HardwareOnly => Err NotSupported
  end.

Definition sls_set_resource_cleanup_impl (state : bool) (s : S) : result S :=
  SlsControl.set_resource_cleanup s (if state then 1 else 0).

Definition sls_get_resource_cleanup_impl (s : S) : result bool :=
  let! value := SlsControl.get_resource_cleanup s in Ok (negb (value =? 0)).
End open.

(** * The register file refines the banks of registers *)
Definition reg_bytes (r : reg) : nat := Z.to_nat (reg_bits r / 8).

(** The bank of a thread whose structure is at [csr], and a store to one of its fields. *)
Definition bank (m : memory) (csr : Z) : ThreadCSR := fun r => load m (csr + field_offset r) (reg_bytes r).
Definition store_field (m : memory) (csr : Z) (r : reg) (v : Z) : memory :=
  store m (csr + field_offset r) (reg_bytes r) v.

(** The stores of [ScanOperation::write_registers] on the mapped file. *)
Definition store_writes (m : memory) (csr : Z) (ws : list write) : memory :=
  fold_left (fun m w => store_field m csr w.1 (w.2 (bank m csr))) ws m.

(** The offsets that libimdb.h documents next to the fields. *)
Definition documented_offset (r : reg) : Z :=
  match r with
  | THREAD_CTRL => 0x00 | THREAD_STATUS => 0x04 | THREAD_ERROR => 0x08 | THREAD_COMP_MODE => 0x0C
  | THREAD_START_ADDR => 0x10 | THREAD_SIZE_SB => 0x20
  | THREAD_MIN_VALUE => 0x30 | THREAD_MAX_VALUE => 0x34
  | THREAD_MIN_OPCODE => 0x40 | THREAD_MAX_OPCODE => 0x44
  | THREAD_RES_ADDR => 0x50 | THREAD_RES_INDEX_OFFSET => 0x58 | THREAD_RES_SIZE_SB => 0x60
  | THREAD_START_TIME => 0x70 | THREAD_DONE_TIME => 0x74
  | THREAD_INLIST_ADDR => 0x80 | THREAD_INLIST_SIZE => 0x88 | THREAD_COLUMN_OFFSET => 0x8C | THREAD_RSLT_LMT => 0x90
  end.

Lemma field_offset_documented (r : reg) : field_offset r = documented_offset r.
Proof. by destruct r. Qed.

Lemma thread_csr_sizeof_value : thread_csr_sizeof = 0x94.
Proof. done. Qed.

(** Fields lie inside of the structure and do not overlap. *)
Lemma field_inside (r : reg) : 0 ≤ field_offset r ∧ field_offset r + Z.of_nat (reg_bytes r) ≤ thread_csr_sizeof.
Proof. rewrite field_offset_documented, thread_csr_sizeof_value. destruct r; vm_compute; split; discriminate. Qed.

Lemma fields_disjoint (r r' : reg) : r ≠ r' →
  field_offset r + Z.of_nat (reg_bytes r) ≤ field_offset r' ∨ field_offset r' + Z.of_nat (reg_bytes r') ≤ field_offset r.
Proof.
  intros Hr. rewrite !field_offset_documented.
  destruct r, r'; (done || (left; vm_compute; discriminate) || (right; vm_compute; discriminate)).
Qed.

Lemma bank_store_field (m : memory) (csr : Z) (r r' : reg) (v : Z) :
  bank (store_field m csr r v) csr r' = store_reg (bank m csr) r v r'.
Proof.
  unfold bank, store_field, store_reg. case_decide as E.
  - subst r'. rewrite load_store_same. f_equal. f_equal. unfold reg_bytes. by destruct r.
  - apply load_store_other. pose proof (fields_disjoint r r' E). lia.
Qed.

Lemma bank_frame (m m' : memory) (csr : Z) (r : reg) :
  (∀ x, csr ≤ x < csr + thread_csr_sizeof → m' x = m x) → bank m' csr r = bank m csr r.
Proof. intros Hx. apply load_ext. intros x Hr. apply Hx. pose proof (field_inside r). lia. Qed.

Lemma store_field_frame (m : memory) (csr : Z) (r : reg) (v x : Z) :
  ¬ (csr ≤ x < csr + thread_csr_sizeof) → store_field m csr r v x = m x.
Proof. intros Hx. apply store_frame. pose proof (field_inside r). lia. Qed.

(** The values stored depend on registers only. *)
Definition respects (w : write) : Prop := ∀ c c', (∀ r, c r = c' r) → w.2 c = w.2 c'.

Lemma store_writes_refine (csr : Z) (ws : list write) : ∀ m c, Forall respects ws → (∀ r, bank m csr r = c r) →
  (∀ r, bank (store_writes m csr ws) csr r = apply_writes c ws r) ∧
  (∀ x, ¬ (csr ≤ x < csr + thread_csr_sizeof) → store_writes m csr ws x = m x).
Proof.
  unfold store_writes, apply_writes. induction ws as [|w ws IH]; intros m c Hw Hc; cbn [fold_left]; [done|].
  apply Forall_cons in Hw as [Hw Hws].
  destruct (IH (store_field m csr w.1 (w.2 (bank m csr))) (apply_write c w) Hws) as [H1 H2].
  - intros r. rewrite bank_store_field. unfold apply_write, store_reg. by rewrite (Hw _ c Hc), Hc.
  - split; [done|]. intros x Hx. rewrite H2 by done. by apply store_field_frame.
Qed.

(** The stores of a scan do so. *)
Lemma write_registers_respects (op : Scan) (ws : list write) : write_registers op = Ok ws → Forall respects ws.
Proof.
  unfold write_registers, set_predicate_info, set_output_type. intros Hw.
  destruct (predicate_ op); inv_result; cbn [app];
    repeat (apply Forall_cons; split; [intros c c' Hc; cbn [fst snd]; rewrite ?Hc; done|]); by apply Forall_nil.
Qed.

(** The sections of the register file, as start and size. *)
Definition sections (threads data : Z) : list (Z * Z) :=
  let regs := register_pointers threads data in
  (common regs, common_csr_sizeof) :: (status regs, status_csr_sizeof) ::
  ((fun csr => (csr, thread_csr_sizeof)) <$> thread_csr regs).

Definition disjoint_sections (a b : Z * Z) : Prop := a.1 + a.2 ≤ b.1 ∨ b.1 + b.2 ≤ a.1.

Lemma thread_csr_at (threads data i : Z) : 0 ≤ i < threads →
  get_csr threads (register_pointers threads data) i = Ok (data + (THREAD_CSR_BASE_OFFSET + THREAD_CSR_SIZE * i)).
Proof.
  intros Hi. unfold get_csr, assert. rewrite (proj2 (Z.ltb_lt _ _)) by lia. cbn [rbind thread_csr register_pointers].
  rewrite vec_at_seqZ by lia. done.
Qed.

(** Property C23.  The registers of up to three threads in the mapped control file: the
    common registers, the status register and the structures of the threads lie inside of
    the mapping and do not overlap, which fails for a fourth thread; every register is at
    its documented offset; and the bytes of the structure of a thread are a faithful bank
    of registers: the stores with which an operation programs the thread have the effect
    they have on the abstract bank, and change no register of another section. *)
Theorem register_file_refines_banks (threads data : Z) : 0 ≤ threads →
  (threads ≤ MAX_THREADS ↔ Forall (fun s => data ≤ s.1 ∧ s.1 + s.2 ≤ data + REG_AREA_SIZE) (sections threads data)) ∧
  (∀ i j a b, i ≠ j → sections threads data !! i = Some a → sections threads data !! j = Some b → disjoint_sections a b) ∧
  (∀ r, field_offset r = documented_offset r) ∧
  (∀ i op ws m, 0 ≤ i < threads → write_registers op = Ok ws →
    ∃ csr, get_csr threads (register_pointers threads data) i = Ok csr ∧
      (∀ r, bank (store_writes m csr ws) csr r = apply_writes (bank m csr) ws r) ∧
      (∀ a x, a ∈ sections threads data → a ≠ (csr, thread_csr_sizeof) → a.1 ≤ x < a.1 + a.2 →
        store_writes m csr ws x = m x)).
Proof.
  intros Ht.
  assert (Hlook : ∀ k a, sections threads data !! k = Some a →
    (k = 0%nat ∧ a = (data, 12)) ∨ (k = 1%nat ∧ a = (data + 0x440, 4)) ∨
    (∃ i, k = S (S i) ∧ Z.of_nat i < threads ∧ a = (data + (0x1000 + 0x400 * Z.of_nat i), 0x94))).
  { intros [|[|i]] a Ha; unfold sections in Ha; rewrite !lookup_cons in Ha; [left|right; left|right; right]; simplify_eq.
    - split; [done|]. f_equal. cbn [common register_pointers]. unfold get_regs_section, COMMON_CSR_OFFSET. lia.
    - done.
    - cbn [thread_csr register_pointers] in Ha. rewrite !list_lookup_fmap in Ha. destruct (seqZ 0 threads !! i) as [z|] eqn:E; [|done]. cbn in Ha. simplify_eq.
      apply lookup_seqZ in E as [-> Hi]. exists i. by repeat split; [lia|..]. }
  split; [|split; [|split; [exact field_offset_documented|]]].
  - split.
    + intros H3. apply Forall_lookup_2. intros k a [[_ ->]|[[_ ->]|(i & _ & Hi & ->)]]%Hlook; cbn [fst snd];
        unfold MAX_THREADS, REG_AREA_SIZE in *; lia.
    + intros Hall. apply Z.nlt_ge. intros H4. unfold MAX_THREADS in H4.
      assert (E : sections threads data !! 5%nat = Some (data + (0x1000 + 0x400 * 3), 0x94)).
      { unfold sections. rewrite !lookup_cons. cbn [thread_csr register_pointers]. rewrite !list_lookup_fmap, lookup_seqZ_lt by lia. done. }
      apply (proj1 (Forall_lookup _ _) Hall) in E. cbn [fst snd] in E. unfold REG_AREA_SIZE in E. lia.
  - intros i j a b Hij Ha%Hlook Hb%Hlook. unfold disjoint_sections.
    destruct Ha as [[-> ->]|[[-> ->]|(i' & -> & _ & ->)]]; destruct Hb as [[-> ->]|[[-> ->]|(j' & -> & _ & ->)]];
      cbn [fst snd]; try done; lia.
  - intros i op ws m Hi Hw. rewrite thread_csr_at by done. eexists. split; [done|].
    destruct (store_writes_refine (data + (THREAD_CSR_BASE_OFFSET + THREAD_CSR_SIZE * i)) ws m (bank m _)
      (write_registers_respects op ws Hw) (fun r => eq_refl)) as [H1 H2].
    split; [exact H1|]. intros a x Ha Hne Hx. apply H2. apply list_elem_of_lookup in Ha as [k Ha].
    unfold THREAD_CSR_BASE_OFFSET, THREAD_CSR_SIZE in *. rewrite thread_csr_sizeof_value in *.
    apply Hlook in Ha as [[_ ->]|[[_ ->]|(i' & _ & Hi' & ->)]]; cbn [fst snd] in Hx; try lia.
    destruct (decide (Z.of_nat i' = i)) as [E|]; [subst i; exfalso; by apply Hne|lia].
Qed.

(** ** Threads *)

Section threads.
Context {K : Type} `{ThreadDriver K} (threads : Z) `{!ThreadDriverLaws K threads}.

Abbreviation controls d := (BaseAsyncSimulator.thread_controls_ (sim_ d)).

(** The driver and the simulator agree on the threads in use. *)
Record threads_agree (d : device_state K) : Prop := {
  ta_running : BaseAsyncSimulator.thread_pool_ (sim_ d) = true;
  ta_threads : Z.of_nat (length (controls d)) = threads;
  ta_enabled : ∀ i ctl, 0 ≤ i < threads → controls d !! Z.to_nat i = Some ctl →
    BaseAsyncSimulator.finished ctl = thread_held (driver d) i
}.

Lemma control_exists (d : device_state K) (i : Z) : threads_agree d → 0 ≤ i < threads →
  ∃ ctl, controls d !! Z.to_nat i = Some ctl ∧ BaseAsyncSimulator.finished ctl = thread_held (driver d) i.
Proof.
  intros [_ Hn He] Hi. destruct (lookup_lt_is_Some_2 (controls d) (Z.to_nat i)) as [ctl Hc]; [lia|]. eauto.
Qed.

(** Replacing the controls of one thread when the driver changes in the same way. *)
Lemma agree_update (d : device_state K) (k : K) (i : Z) (ctl : BaseAsyncSimulator.ThreadControls) :
  threads_agree d → 0 ≤ i < threads →
  (∀ j, thread_held k j = if j =? i then BaseAsyncSimulator.finished ctl else thread_held (driver d) j) →
  threads_agree (mkState k (with_control (sim_ d) i ctl) (registers d)).
Proof.
  intros [Hp Hn He] Hi Hk. split; cbn [sim_ driver with_control BaseAsyncSimulator.thread_pool_ BaseAsyncSimulator.thread_controls_].
  - done.
  - by rewrite length_insert.
  - intros j c Hj. rewrite Hk. destruct (Z.eqb_spec j i) as [->|].
    + rewrite list_lookup_insert_eq by lia. by intros [= ->].
    + rewrite list_lookup_insert_ne by lia. by apply He.
Qed.

Lemma agree_driver (d : device_state K) (k : K) :
  threads_agree d → (∀ j, thread_held k j = thread_held (driver d) j) → threads_agree (mkState k (sim_ d) (registers d)).
Proof. intros [Hp Hn He] Hk. split; cbn [sim_ driver]; [done|done|]. intros j c Hj Hc. rewrite Hk. by apply He. Qed.

Lemma lock_thread_free (d : device_state K) (c : Z) :
  threads_agree d → threads ≤ 256 → 0 ≤ c < threads → thread_held (driver d) c = false →
  ∃ i d', lock_thread d = (d', Ok i) ∧ 0 ≤ i < threads ∧ thread_held (driver d) i = false ∧ threads_agree d' ∧
    registers d' = registers d ∧ ∀ j, thread_held (driver d') j = (j =? i) || thread_held (driver d) j.
Proof.
  intros Ha Ht Hc Hf. destruct (get_free (driver d) c Hc Hf) as (k' & i & E & Hi & Hh & Hk).
  destruct (control_exists d i Ha Hi) as (ctl & Hl & Hctl).
  exists i, (mkState k' (with_control (sim_ d) i (BaseAsyncSimulator.mkControls false true)) (registers d)).
  unfold lock_thread, base_lock_thread_impl, mbind. rewrite E. rewrite (proj2 (Z.ltb_ge i 0)) by lia.
  replace (u8 i) with i by (unfold u8; rewrite Z.mod_small; lia). unfold on_threads. cbn [sim_ driver registers].
  rewrite (enable_thread_spec _ i ctl) by (apply Ha || lia || congruence). split; [done|]. split; [done|]. split; [done|].
  split; [|done]. apply agree_update; [done|done|]. intros j. rewrite Hk. by destruct (j =? i).
Qed.

Lemma lock_thread_busy (d : device_state K) :
  threads_agree d → (∀ c, 0 ≤ c < threads → thread_held (driver d) c = true) →
  ∃ e d', lock_thread d = (d', Err e) ∧ threads_agree d' ∧ ∀ j, thread_held (driver d') j = thread_held (driver d) j.
Proof.
  intros Ha Hb. destruct (get_busy (driver d) Hb) as (k' & rc & err & E & Hrc & Hk).
  exists (throw_from_errno err), (mkState k' (sim_ d) (registers d)).
  unfold lock_thread, base_lock_thread_impl, mbind. rewrite E, (proj2 (Z.ltb_lt rc 0)) by lia. split; [done|].
  split; [by apply agree_driver|done].
Qed.

Lemma release_thread_held (d : device_state K) (i : Z) :
  threads_agree d → 0 ≤ i < threads → thread_held (driver d) i = true →
  ∃ d', release_thread i d = (d', Ok tt) ∧ threads_agree d' ∧ registers d' = registers d ∧
    ∀ j, thread_held (driver d') j = negb (j =? i) && thread_held (driver d) j.
Proof.
  intros Ha Hi Hh. destruct (control_exists d i Ha Hi) as (ctl & Hl & Hctl).
  destruct (release_taken (driver d) i Hi Hh) as (k' & r & E & Hr & Hk).
  exists (mkState k' (with_control (sim_ d) i (BaseAsyncSimulator.mkControls true false)) (registers d)).
  unfold release_thread, on_threads, mbind. rewrite (disable_thread_spec _ i ctl) by (apply Ha || lia || congruence).
  unfold base_release_thread_impl. cbn [driver sim_ registers]. rewrite E, (proj2 (Z.ltb_ge r 0)) by lia.
  split; [done|]. split; [|done]. apply agree_update; [done|done|]. intros j. rewrite Hk. by destruct (j =? i).
Qed.

(** A thread that is not locked cannot be released, and nothing happens. *)
Lemma release_thread_free (d : device_state K) (i : Z) :
  threads_agree d → 0 ≤ i < threads → thread_held (driver d) i = false → release_thread i d = (d, Err InvalidArguments).
Proof.
  intros Ha Hi Hh. destruct (control_exists d i Ha Hi) as (ctl & Hl & Hctl).
  unfold release_thread, on_threads, mbind, BaseAsyncSimulator.disable_thread, BaseAsyncSimulator.is_thread_enabled, BaseAsyncSimulator.threads_num_.
  rewrite (ta_threads d Ha), (proj2 (Z.leb_gt threads i)) by lia.
  rewrite (proj2 (vec_at_Ok (controls d) i ctl)) by (split; [lia|done]). cbn [rbind]. by rewrite Hctl, Hh.
Qed.

(** The sequence of calls of a client: what is locked and not released. *)
Inductive call_step : device_state K → list Z → device_state K → list Z → Prop :=
  | call_lock d d' i l : lock_thread d = (d', Ok i) → call_step d l d' (i :: l)
  | call_lock_fails d d' e l : lock_thread d = (d', Err e) → call_step d l d' l
  | call_release d d' i l l' : l ≡ₚ i :: l' → release_thread i d = (d', Ok tt) → call_step d l d' l'.

Inductive calls : device_state K → list Z → device_state K → list Z → Prop :=
  | calls_nil d l : calls d l d l
  | calls_step d l d' l' d'' l'' : call_step d l d' l' → calls d' l' d'' l'' → calls d l d'' l''.

Definition accounted (d : device_state K) (l : list Z) : Prop :=
  threads_agree d ∧ NoDup l ∧ ∀ i, 0 ≤ i < threads → (thread_held (driver d) i = true ↔ i ∈ l).

Lemma free_or_busy (d : device_state K) :
  (∃ c, 0 ≤ c < threads ∧ thread_held (driver d) c = false) ∨ (∀ c, 0 ≤ c < threads → thread_held (driver d) c = true).
Proof.
  destruct (existsb (fun c => negb (thread_held (driver d) c)) (seqZ 0 threads)) eqn:Ex.
  - apply existsb_exists in Ex as (c & Hc%list_elem_of_In%elem_of_seqZ & Hf%negb_true_iff). left. exists c. split; [lia|done].
  - right. intros c Hc. apply not_false_iff_true. intros Eh. apply not_true_iff_false in Ex. apply Ex, existsb_exists.
    exists c. split; [apply list_elem_of_In, elem_of_seqZ; lia|]. by rewrite Eh.
Qed.

Lemma lock_accounted (d d' : device_state K) (i : Z) (l : list Z) : threads ≤ 256 →
  lock_thread d = (d', Ok i) → accounted d l → 0 ≤ i < threads ∧ accounted d' (i :: l).
Proof.
  intros Ht E (Ha & Hnd & Hl). destruct (free_or_busy d) as [(c & Hc & Hf)|Hb].
  - destruct (lock_thread_free d c Ha Ht Hc Hf) as (j & d1 & E1 & Hj & Hjf & Ha1 & _ & Hh).
    rewrite E1 in E. injection E as -> ->. split; [done|]. split; [done|]. split.
    + constructor; [|done]. intros Hin%Hl; [congruence|done].
    + intros x Hx. by rewrite Hh, orb_true_iff, Z.eqb_eq, elem_of_cons, Hl.
  - destruct (lock_thread_busy d Ha Hb) as (e & d1 & E1 & _). congruence.
Qed.

Lemma failed_lock_accounted (d d' : device_state K) (e : error) (l : list Z) : threads ≤ 256 →
  lock_thread d = (d', Err e) → accounted d l → accounted d' l.
Proof.
  intros Ht E (Ha & Hnd & Hl). destruct (free_or_busy d) as [(c & Hc & Hf)|Hb].
  - destruct (lock_thread_free d c Ha Ht Hc Hf) as (j & d1 & E1 & _). congruence.
  - destruct (lock_thread_busy d Ha Hb) as (e1 & d1 & E1 & Ha1 & Hh). rewrite E1 in E. injection E as -> _.
    split; [done|]. split; [done|]. intros x Hx. by rewrite Hh, Hl.
Qed.

Lemma release_accounted (d d' : device_state K) (i : Z) (l l' : list Z) : l ≡ₚ i :: l' → 0 ≤ i < threads →
  release_thread i d = (d', Ok tt) → accounted d l → accounted d' l'.
Proof.
  intros Hp Hi E (Ha & Hnd & Hl). assert (Hin : i ∈ l) by (rewrite Hp; by left). apply Hl in Hin; [|done].
  destruct (release_thread_held d i Ha Hi Hin) as (d1 & E1 & Ha1 & _ & Hh). rewrite E1 in E. injection E as ->.
  rewrite Hp in Hnd. apply NoDup_cons in Hnd as [Hni Hnd]. split; [done|]. split; [done|].
  intros x Hx. rewrite Hh, andb_true_iff, negb_true_iff, Z.eqb_neq, Hl, Hp, elem_of_cons by done.
  split; [tauto|]. intros Hx'. split; [|by right]. by intros ->.
Qed.

Lemma calls_accounted (d d' : device_state K) (l l' : list Z) : threads ≤ 256 → calls d l d' l' →
  accounted d l → Forall (fun i => 0 ≤ i < threads) l → accounted d' l' ∧ Forall (fun i => 0 ≤ i < threads) l'.
Proof.
  intros Ht Hc. induction Hc as [|d l d' l' d'' l'' Hs Hc IH]; [done|]. intros Ha Hr.
  enough (accounted d' l' ∧ Forall (fun i => 0 ≤ i < threads) l') as [? ?] by by apply IH.
  destruct Hs as [d d' i l E|d d' e l E|d d' i l l' Hp E].
  - destruct (lock_accounted d d' i l Ht E Ha) as [Hi Ha']. split; [done|]. by constructor.
  - split; [|done]. by eapply failed_lock_accounted.
  - rewrite Hp, Forall_cons in Hr. destruct Hr as [Hi Hr]. split; [|done]. by eapply release_accounted.
Qed.

(** Fewer threads than there are leave one that nobody holds. *)
Lemma some_thread_free (d : device_state K) (l : list Z) :
  accounted d l → Z.of_nat (length l) < threads → ∃ c, 0 ≤ c < threads ∧ thread_held (driver d) c = false.
Proof.
  intros (Ha & Hnd & Hl) Hlen. destruct (free_or_busy d) as [|Hb]; [done|]. exfalso.
  assert (Hs : seqZ 0 threads ⊆+ l).
  { apply NoDup_submseteq; [apply NoDup_seqZ|]. intros x Hx%elem_of_seqZ. apply Hl; [lia|]. apply Hb. lia. }
  apply submseteq_length in Hs. rewrite length_seqZ in Hs. lia.
Qed.
End threads.

(** Property C24.  Threads of an IMDB device that clients lock and release in any order, on
    any driver that keeps its contract: after every sequence of calls the driver and the
    simulator agree that exactly the threads in the clients' hands are in use, no thread
    is in the hands of two; as long as not all threads are locked, the next lock succeeds
    with a thread that nobody holds; and every thread that is held can be released. *)
Theorem locked_threads_accounted {K : Type} `{ThreadDriver K} (threads : Z) `{!ThreadDriverLaws K threads}
    (d d' : device_state K) (l : list Z) :
  threads ≤ 256 → accounted threads d [] → calls d [] d' l →
  accounted threads d' l ∧
  (Z.of_nat (length l) < threads → ∃ i d'', lock_thread d' = (d'', Ok i) ∧ 0 ≤ i < threads ∧ i ∉ l) ∧
  (∀ i, i ∈ l → ∃ d'', release_thread i d' = (d'', Ok tt)).
Proof.
  intros Ht Ha Hc. destruct (calls_accounted threads d d' [] l Ht Hc Ha) as [Ha' Hr]; [constructor|].
  split; [done|]. destruct (id Ha') as (Hag & Hnd & Hl). split.
  - intros Hlen. destruct (some_thread_free threads d' l Ha' Hlen) as (c & Hcr & Hf).
    destruct (lock_thread_free threads d' c Hag Ht Hcr Hf) as (i & d'' & E & Hi & Hif & _). exists i, d''.
    split; [done|]. split; [done|]. intros Hin%Hl; [congruence|done].
  - intros i Hi. assert (Hir := proj1 (Forall_forall _ _) Hr i Hi). cbv beta in Hir. apply Hl in Hi; [|done].
    destruct (release_thread_held threads d' i Hag Hir Hi) as (d'' & E & _). eauto.
Qed.

(** The driver of the compute units, with every unit allowed, is a driver of threads. *)
Definition EBUSY : Z := 16.

Definition unit_driver {K} (D : CunitDriver K) (units : Z) : ThreadDriver K := {|
  IMDB_IOCTL_GET_THREAD k := let (k', rc) := GET_CUNIT k (Z.ones units) in (k', rc, if rc <? 0 then EBUSY else 0);
  IMDB_IOCTL_RELEASE_THREAD k c := let (k', rc) := RELEASE_CUNIT k c in (k', rc, 0)
|}.

#[program] Definition unit_driver_laws {K} (D : CunitDriver K) (units : Z) (L : CunitLaws K units) :
  ThreadDriverLaws K (D := unit_driver D units) units := {| thread_held := held (units := units) |}.
Next Obligation.
  intros K D units L k c Hc Hf. destruct (get_some k (Z.ones units) c Hc) as (k' & c' & E & Hc' & _ & Hf' & Hh).
  - by rewrite Z.ones_spec_low by lia.
  - done.
  - exists k', c'. cbn. rewrite E, (proj2 (Z.ltb_ge c' 0)) by lia. done.
Qed.
Next Obligation.
  intros K D units L k Hb. destruct (get_none (units := units) k (Z.ones units)) as (k' & e & E & He & Hh); [by intros; apply Hb|].
  exists k', e, EBUSY. cbn. rewrite E, (proj2 (Z.ltb_lt e 0)) by lia. done.
Qed.
Next Obligation.
  intros K D units L k c Hc Hh. destruct (release_held k c Hc Hh) as (k' & r & E & Hr & Hd). exists k', r. cbn. by rewrite E.
Qed.

(** The constructor of the simulator starts with nothing in use. *)
Lemma simulator_core_accounted {K : Type} `{ThreadDriver K} (threads : Z) `{!ThreadDriverLaws K threads}
    (regs : RegisterPointers) (k : K) (m : memory) :
  0 < threads → (∀ i, 0 ≤ i < threads → thread_held k i = false) →
  ∃ d, simulator_core threads regs k m = Ok d ∧ driver d = k ∧ accounted threads d [].
Proof.
  intros Ht Hk. unfold simulator_core, BaseAsyncSimulator.make, assert. rewrite (proj2 (Z.ltb_lt 0 threads)) by lia. cbn [rbind].
  eexists. split; [done|]. split; [done|]. split; [split|split].
  - done.
  - cbn [sim_ BaseAsyncSimulator.thread_controls_]. rewrite length_replicate. lia.
  - intros i ctl Hi [-> _]%lookup_replicate. cbn. by rewrite Hk.
  - constructor.
  - intros i Hi. cbn [driver]. rewrite Hk by done. split; [done|]. by intros ?%not_elem_of_nil.
Qed.

(** A reset of the hardware ends with the reset disabled, and changes nothing else. *)
Lemma hardware_reset_ends {K : Type} (threads data : Z) (d : device_state K) :
  ∃ d', hardware_reset (register_pointers threads data) d = (d', Ok tt) ∧
    load32 (registers d') (data + 8) = IMDB_RESET_DISABLE ∧
    ∀ x, ¬ (data + 8 ≤ x < data + 12) → registers d' x = registers d x.
Proof.
  eexists. split; [done|]. cbn [registers common register_pointers common_offset]. unfold get_regs_section, COMMON_CSR_OFFSET.
  rewrite Z.add_0_r. split.
  - unfold load32, store32. by rewrite load_store_same.
  - intros x Hx. unfold store32. rewrite !store_frame by lia. done.
Qed.

Definition sample_registers : RegisterPointers := register_pointers 3 0x7f0000000000.

Lemma register_file_refines_banks_witness :
  Forall (fun s => 0x7f0000000000 ≤ s.1 ∧ s.1 + s.2 ≤ 0x7f0000000000 + REG_AREA_SIZE) (sections 3 0x7f0000000000) ∧
  ¬ Forall (fun s => 0x7f0000000000 ≤ s.1 ∧ s.1 + s.2 ≤ 0x7f0000000000 + REG_AREA_SIZE) (sections 4 0x7f0000000000).
Proof.
  split.
  - apply (register_file_refines_banks 3 0x7f0000000000 ltac:(lia)). unfold MAX_THREADS. lia.
  - intros Hall. apply (register_file_refines_banks 4 0x7f0000000000 ltac:(lia)) in Hall. unfold MAX_THREADS in Hall. lia.
Defined.

(** The second of three threads is locked while the first is held. *)
Lemma locked_threads_accounted_witness :
  let D := unit_driver (mask_driver 3) 3 in
  ∃ d d' i d'', simulator_core 3 sample_registers 0 (fun _ => 0) = Ok d ∧
    lock_thread (H := D) d = (d', Ok 0) ∧ lock_thread (H := D) d' = (d'', Ok i) ∧ i ∉ [0].
Proof.
  intros D. pose (L := unit_driver_laws (mask_driver 3) 3 (mask_laws 3)).
  destruct (simulator_core_accounted (H := D) 3 (ThreadDriverLaws0 := L) sample_registers 0 (fun _ => 0)) as (d & Ed & Hk & Ha).
  { lia. } { intros i Hi. apply Z.bits_0. }
  destruct (lock_thread (H := D) d) as [d' r] eqn:El.
  assert (r = Ok 0) as ->.
  { unfold lock_thread, base_lock_thread_impl, mbind in El. destruct d as [k sim m]. cbn [driver] in Hk. subst k.
    unfold simulator_core in Ed. vm_compute in Ed. injection Ed as <- _. vm_compute in El. by injection El. }
  destruct (locked_threads_accounted (H := D) 3 (ThreadDriverLaws0 := L) d d' [0]) as (_ & Hlock & _).
  - lia.
  - exact Ha.
  - eapply calls_step; [by apply call_lock|]. apply calls_nil.
  - destruct Hlock as (i & d'' & E & _ & Hi); [cbn; lia|]. by exists d, d', i, d''.
Defined.
