(* ===== verification/PnmCtl.v ===== *)
(** * The control tool

    tools/pnm_ctl: the shared memory files of the simulators (shared.cpp), and the
    commands that show and change the settings of the devices (sls.cpp, imdb.cpp).  The
    command line itself is CLI11's: a command is modelled from the values its options
    have got.  A command is a function of the state it works on that returns what it
    prints. *)
From Stdlib Require Import String.
From S2P Require Import Prelude Text Topology DeviceMemory Allocators SlsDevice Sysfs ImdbDevice.

(** ** Shared memory files: shared.cpp *)
Definition SLS_SHMEM : chars := str "/sls".

(** The shared memory objects with their sizes, and what was printed to [stderr]. *)
Record Shm := mkShm { objects : list (chars * Z); err : list chars }.

Inductive syscall := shm_open | ftruncate | fchmod | close | shm_unlink.

(** Whether a call on an object fails for a reason other than the object's (non-)existence. *)
Class SyscallFaults := fails : syscall → chars → bool.

Definition has_object (name : chars) (l : list (chars * Z)) : bool := bool_decide (name ∈ l.*1).
Definition remove_object (name : chars) (l : list (chars * Z)) : list (chars * Z) :=
  filter (fun o => o.1 ≠ name) l.
Definition resize_object (name : chars) (size : Z) (l : list (chars * Z)) : list (chars * Z) :=
  (fun o => if bool_decide (o.1 = name) then (name, size) else o) <$> l.

Definition print_err (text : chars) : M Shm unit := fun w => (mkShm (objects w) (err w ++ [text]), Ok tt).
Definition on_objects (f : list (chars * Z) → list (chars * Z)) : M Shm unit := fun w =>
  (mkShm (f (objects w)) (err w), Ok tt).

Section shared.
Context `{SyscallFaults}.

Definition check_call (c : syscall) (name : chars) : M Shm unit :=
  if fails c name then mthrow IO else mret tt.

Definition destroy_shm (name : chars) : M Shm unit :=
  do! _ := check_call shm_unlink name in
  fun w => if has_object name (objects w) then on_objects (remove_object name) w
           else print_err (str "Shared memory file " ++ name ++ str " doesn't exist, skipping!" ++ [newline]) w.

Definition destroy_execute (is_sls is_imdb : bool) : M Shm unit :=
  do! _ := (if is_sls then destroy_shm SLS_SHMEM else mret tt) in
  do! _ := (if is_imdb then
              do! _ := destroy_shm IMDB_CSR_DEVICE_SIM_NAME in destroy_shm IMDB_DEVMEMORY_PATH_SIM_NAME
            else mret tt) in
  if negb is_sls && negb is_imdb then mthrow InvalidArguments else mret tt.

(** [ftruncate] takes a signed size. *)
Definition make_shm (name : chars) (size : Z) : M Shm unit :=
  do! _ := check_call shm_open name in
  fun w =>
    if has_object name (objects w) then
      print_err (str "Shared memory file " ++ name ++ str " already exists, skipping!" ++ [newline]) w
    else
      (do! _ := on_objects (fun l => l ++ [(name, 0)]) in
       do! _ := (if 2 ^ 63 <=? size then mthrow IO else check_call ftruncate name) in
       do! _ := on_objects (resize_object name size) in
       do! _ := check_call fchmod name in
       check_call close name) w.

Context {S : Type} `{FileSystem S} `{Headers}.

(** [SetupSharedMemory::execute]; [mem_size_] is a member, and what the first device has
    stored there is what the second one finds. *)
Definition setup_execute (s : S) (is_sls is_imdb : bool) (mem_size regs_size : Z) : M Shm unit :=
  if is_sls && is_imdb && (negb (mem_size =? 0) || negb (regs_size =? REG_AREA_SIZE)) then mthrow InvalidArguments
  else
    do! mem_size :=
      (if is_sls then
         do! mem_size :=
           (if mem_size =? 0 then
              if negb (fs_exists s (expand SLS_SYSFS_ROOT)) then mthrow InvalidArguments
              else mlift (SlsControl.memory_size s)
            else mret mem_size) in
         do! _ := make_shm SLS_SHMEM mem_size in
         mret mem_size
       else mret mem_size) in
    do! _ :=
      (if is_imdb then
         do! mem_size :=
           (if mem_size =? 0 then
              if negb (fs_exists s (expand IMDB_SYSFS_PATH)) then mthrow InvalidArguments
              else do! _ := mlift (ImdbControl.make s) in mlift (ImdbControl.memory_size s)
            else mret mem_size) in
         do! _ := make_shm IMDB_CSR_DEVICE_SIM_NAME regs_size in
         make_shm IMDB_DEVMEMORY_PATH_SIM_NAME mem_size
       else mret tt) in
    if negb is_sls && negb is_imdb then mthrow InvalidArguments else mret tt.
End shared.

(** ** Text of a table *)

(** ["{:<n}"] and ["{:>n}"] *)
Definition pad_right (n : nat) (s : chars) : chars := s ++ replicate (n - length s) 32.
Definition pad_left (n : nat) (s : chars) : chars := replicate (n - length s) 32 ++ s.

Definition hex_digit (v : Z) : Z := if v <? 10 then 48 + v else 87 + v.

(** ["{:x}"] of a 64-bit number: at most 16 digits. *)
Fixpoint hex (fuel : nat) (v : Z) : chars :=
  match fuel with
  | O => []
  | S f => if v <? 16 then [hex_digit v] else hex f (v / 16) ++ [hex_digit (v mod 16)]
  end.

(** ** The SLS commands: sls.cpp *)
Module SlsCtl.
Import ComputeUnitInfo.

Record RankInfoDescription := mkDescription {
  option_name : chars;
  option_description : chars;
  printable_name : chars;
  compute_unit_info : ComputeUnitInfo.t
}.

Abbreviation describe o d p k := (mkDescription (str o) (str d) (str p) k).

Definition descriptions_ : list RankInfoDescription :=
  [ describe "--state" "Show state of rank (0 = free, 1 = busy)" "STATE:" State;
    describe "--acquisition-count" "Show acquisition count of rank" "ACQUISITION COUNT:" AcquisitionCount;
    describe "--free-size" "Show size of free rank memory in bytes" "FREE SIZE:" FreeSize;
    describe "--base-size" "Show size of BASE region in bytes" "BASE SIZE:" RegionBaseSize;
    describe "--base-offset" "Show offset of BASE region in bytes" "BASE OFFSET:" RegionBaseOffset;
    describe "--base-map-size" "Show size of mapped BASE region in bytes" "BASE MAP SIZE:" RegionBaseMapSize;
    describe "--base-map-offset" "Show offset of mapped BASE region in bytes" "BASE MAP OFFSET:" RegionBaseMapOffset;
    describe "--inst-size" "Show size of INST region in bytes" "INST SIZE:" RegionInstSize;
    describe "--inst-offset" "Show offset of INST region in bytes" "INST OFFSET:" RegionInstOffset;
    describe "--inst-map-size" "Show size of mapped INST region in bytes" "INST MAP SIZE:" RegionInstMapSize;
    describe "--inst-map-offset" "Show offset of mapped INST region in bytes" "INST MAP OFFSET:" RegionInstMapOffset;
    describe "--cfgr-size" "Show size of CFGR region in bytes" "CFGR SIZE:" RegionCfgrSize;
    describe "--cfgr-offset" "Show offset of CFGR region in bytes" "CFGR OFFSET:" RegionCfgrOffset;
    describe "--cfgr-map-size" "Show size of mapped CFGR region in bytes" "CFGR MAP SIZE:" RegionCfgrMapSize;
    describe "--cfgr-map-offset" "Show offset of mapped CFGR region in bytes" "CFGR MAP OFFSET:" RegionCfgrMapOffset;
    describe "--tags-size" "Show size of TAGS region in bytes" "TAGS SIZE:" RegionTagsSize;
    describe "--tags-offset" "Show offset of TAGS region in bytes" "TAGS OFFSET:" RegionTagsOffset;
    describe "--tags-map-size" "Show size of mapped TAGS region in bytes" "TAGS MAP SIZE:" RegionTagsMapSize;
    describe "--tags-map-offset" "Show offset of mapped TAGS region in bytes" "TAGS MAP OFFSET:" RegionTagsMapOffset;
    describe "--psum-size" "Show size of PSUM region in bytes" "PSUM SIZE:" RegionPsumSize;
    describe "--psum-offset" "Show offset of PSUM region in bytes" "PSUM OFFSET:" RegionPsumOffset;
    describe "--psum-map-size" "Show size of mapped PSUM region in bytes" "PSUM MAP SIZE:" RegionPsumMapSize;
    describe "--psum-map-offset" "Show offset of mapped PSUM region in bytes" "PSUM MAP OFFSET:" RegionPsumMapOffset ].

(** The factors that [AcquisitionTimeout] gives to the units of time. *)
Definition time_mapping : list (chars * Z) :=
  [(str "ns", 1000000000); (str "us", 1000000); (str "ms", 1000)].

Section commands.
Context {S : Type} `{FileSystem S} `{Headers}.

(** [geteuid() == 0] *)
Context (root : bool).

Definition check_privileges : result unit := if root then Ok tt else Err IO.

Definition param_line (is_hex : bool) (name : chars) (value : Z) : chars :=
  str "  " ++ pad_right 20 name ++
  (if is_hex then pad_left 20 (hex 16 value) else str " " ++ pad_left 20 (to_string value)) ++ [newline].

Definition print_param (s : S) (is_hex : bool) (rank : Z) (d : RankInfoDescription) : result chars :=
  let! value := SlsControl.get_compute_unit_info s rank (compute_unit_info d) in
  Ok (param_line is_hex (printable_name d) value).

(** [PrintInfo::execute]: [options] are the flags of the command line, one for every
    description. *)
Definition print_info (s : S) (is_hex : bool) (enabled_ranks : list Z) (options : list bool) : result chars :=
  let print_all := forallb negb options in
  let! ranks := rmap (fun rank =>
    let! params := rmap (fun '(option, d) =>
      if print_all || option then print_param s is_hex rank d else Ok []) (zip options descriptions_) in
    Ok (str "RANK " ++ to_string rank ++ [newline] ++ mjoin params)) enabled_ranks in
  Ok (mjoin ranks).

(** The default of the option --ranks: [std::iota]. *)
Definition default_ranks (tp : Constants) : list Z := seqZ 0 (NumOfCUnits tp).

(** The callbacks of sls-reset, sls-timeout, sls-cleanup and sls-leaked.  The first makes
    a device. *)
Definition reset_command (can_open : chars → bool) (mmap : chars → Z → Z → option Z) (platform : Platform)
    (s : S) : result (S * chars) :=
  let! _ := check_privileges in
  let! _ := make_sls_device can_open mmap platform s in
  let! s := sls_reset_impl SoftwareOnly s in
  Ok (s, str "SLS device is reset" ++ [newline]).

Definition timeout_command (set : option Z) (s : S) : result (S * chars) :=
  match set with
  | Some set_timeout =>
      let! _ := check_privileges in
      let! s := SlsControl.set_acquisition_timeout s set_timeout in Ok (s, [])
  | None =>
      let! timeout := SlsControl.get_acquisition_timeout s in
      Ok (s, str "Acquisition time is: " ++ to_string timeout ++ str " [ns]" ++ [newline])
  end.

Definition cleanup_command (set : option bool) (s : S) : result (S * chars) :=
  match set with
  | Some set_cleanup =>
      let! _ := check_privileges in
      let! s := SlsControl.set_resource_cleanup s (if set_cleanup then 1 else 0) in Ok (s, [])
  | None =>
      let! cleanup := SlsControl.get_resource_cleanup s in
      Ok (s, str "Resouce cleanup feature is " ++ str (if cleanup =? 0 then "off" else "on") ++ [newline])
  end.

Definition leaked_command (s : S) : result (S * chars) :=
  let! cnt := SlsControl.get_leaked s in
  Ok (s, str "Leaked processes counter: " ++ to_string cnt ++ [newline]).
End commands.
End SlsCtl.

(** ** The IMDB commands: imdb.cpp *)
Module ImdbCtl.
Section commands.
Context {S : Type} `{FileSystem S} `{Headers} (root : bool).

Definition info_line (name : chars) (value : Z) : chars :=
  pad_right 15 name ++ str " " ++ pad_left 15 (to_string value) ++ [newline].

(** [PrintInfo::exec] *)
Definition print_info (s : S) : result chars :=
  let! _ := ImdbControl.make s in
  let! memory_size := ImdbControl.memory_size s in
  let! free_size := ImdbControl.free_size s in
  let! alignment := ImdbControl.alignment s in
  let! (_, threads) := load_imdb_constants s in
  let! states := rmap (fun i =>
    let! state := ImdbControl.thread_state s i in
    Ok (info_line (str "THREAD " ++ to_string i ++ str " state") (if state then 1 else 0))) (seqZ 0 threads) in
  Ok (info_line (str "Memory size") memory_size ++ info_line (str "Free size") free_size ++
      info_line (str "Alignment") alignment ++ mjoin states).

(** The callback of imdb-reset: it makes a device, whose simulator (if it has one) starts
    afresh on the registers and the driver of the machine. *)
Definition reset_options (hardware_reset : bool) : ResetOptions :=
  if hardware_reset then SoftwareHardware else SoftwareOnly.

Section reset.
Context {K : Type} (can_open : chars → bool) (mmap : chars → Z → Z → option Z) (platform : Platform).

Definition make_device_command : M (S * device_state K) RegisterPointers := fun '(s, d) =>
  match make_imdb_device can_open mmap platform (driver d) (registers d) s with
  | Ok (regs, Some (_, d')) => ((s, d'), Ok regs)
  | Ok (regs, None) => ((s, d), Ok regs)
  | Err e => ((s, d), Err e)
  end.

Definition reset_command (hardware_reset : bool) : M (S * device_state K) chars :=
  do! _ := mlift (SlsCtl.check_privileges root) in
  do! regs := make_device_command in
  do! _ := reset_impl regs (reset_options hardware_reset) in
  mret (str "IMDB device is reset" ++ [newline]).
End reset.

Definition cleanup_command (set : option bool) (s : S) : result (S * chars) :=
  let! _ := ImdbControl.make s in
  match set with
  | Some set_cleanup =>
      let! _ := SlsCtl.check_privileges root in
      let! s := ImdbControl.set_resource_cleanup s set_cleanup in Ok (s, [])
  | None =>
      let! cleanup := ImdbControl.get_resource_cleanup s in
      Ok (s, str "Resource cleanup feature is " ++ str (if cleanup : bool then "on" else "off") ++ [newline])
  end.

Definition leaked_command (s : S) : result (S * chars) :=
  let! _ := ImdbControl.make s in
  let! cnt := ImdbControl.get_leaked s in
  Ok (s, str "Leaked processes counter: " ++ to_string cnt ++ [newline]).
End commands.
End ImdbCtl.

(** * Theorems on the shared memory files *)
Section shm.
Context `{SyscallFaults} (Hok : ∀ c name, fails c name = false).

Lemma has_object_false (name : chars) (l : list (chars * Z)) : name ∉ l.*1 → has_object name l = false.
Proof. intros Hn. by apply bool_decide_eq_false_2. Qed.

Lemma resize_absent (name : chars) (size : Z) (l : list (chars * Z)) : name ∉ l.*1 → resize_object name size l = l.
Proof.
  intros Hn. unfold resize_object. rewrite <- (list_fmap_id l) at 2. apply list_fmap_ext. intros i o Ho.
  case_bool_decide as E; [|done]. exfalso. apply Hn. subst name. apply list_elem_of_fmap. exists o. split; [done|].
  by eapply list_elem_of_lookup_2.
Qed.

Lemma remove_absent (name : chars) (l : list (chars * Z)) : name ∉ l.*1 → remove_object name l = l.
Proof.
  intros Hn. unfold remove_object. induction l as [|o l IH]; [done|]. cbn in Hn. apply not_elem_of_cons in Hn as [Ho Hn].
  rewrite filter_cons_True by congruence. by rewrite IH.
Qed.

Lemma remove_created (name : chars) (size : Z) (l l' : list (chars * Z)) :
  name ∉ l.*1 → name ∉ l'.*1 → remove_object name (l ++ (name, size) :: l') = l ++ l'.
Proof.
  intros Hl Hl'. unfold remove_object. rewrite filter_app, filter_cons_False by (cbn; tauto).
  f_equal; by apply remove_absent.
Qed.

(** A file that does not exist is created with the size asked for. *)
Lemma make_shm_fresh (w : Shm) (name : chars) (size : Z) : size < 2 ^ 63 → name ∉ (objects w).*1 →
  make_shm name size w = (mkShm (objects w ++ [(name, size)]) (err w), Ok tt).
Proof.
  intros Hs Hn. unfold make_shm, mbind, check_call. rewrite !Hok. cbn [mret]. rewrite has_object_false by done.
  rewrite (proj2 (Z.leb_gt _ _)) by lia. unfold on_objects. cbn [objects err mret].
  assert (E : resize_object name size (objects w ++ [(name, 0)]) = objects w ++ [(name, size)]); [|by rewrite E].
  unfold resize_object. rewrite fmap_app. f_equal; [by apply resize_absent|]. cbn. by rewrite bool_decide_eq_true_2.
Qed.

Lemma destroy_shm_created (w : Shm) (name : chars) (size : Z) (l l' : list (chars * Z)) :
  objects w = l ++ (name, size) :: l' → name ∉ l.*1 → name ∉ l'.*1 →
  destroy_shm name w = (mkShm (l ++ l') (err w), Ok tt).
Proof.
  intros Hw Hl Hl'. unfold destroy_shm, mbind, check_call. rewrite Hok. cbn [mret]. rewrite Hw. unfold has_object.
  rewrite bool_decide_eq_true_2; [unfold on_objects; by rewrite Hw, remove_created|].
  rewrite fmap_app. apply elem_of_app. right. by left.
Qed.
End shm.

(** When [ftruncate] fails the command fails, but the empty file stays; the next attempt
    finds it and reports success. *)
Lemma make_shm_after_failure (name : chars) (size : Z) (w : Shm) : size < 2 ^ 63 → name ∉ (objects w).*1 →
  ∃ w' w'', make_shm (H := fun c _ => if c is ftruncate then true else false) name size w = (w', Err IO) ∧
    make_shm (H := fun _ _ => false) name size w' = (w'', Ok tt) ∧ objects w'' = objects w ++ [(name, 0)].
Proof.
  intros Hs Hn. unfold make_shm, mbind, check_call, fails. cbn [mret]. rewrite has_object_false by done.
  rewrite (proj2 (Z.leb_gt _ _)) by lia. cbn [on_objects mthrow objects err].
  eexists _, _. split; [done|]. cbn [objects]. unfold has_object. rewrite bool_decide_eq_true_2; [by split|].
  rewrite fmap_app. apply elem_of_app. right. by left.
Qed.

(** Where [setup-shm] takes the size of the memory from. *)
Definition memory_size_of {S} `{FileSystem S} `{Headers} (s : S) (is_sls : bool) (mem_size size : Z) : Prop :=
  if mem_size =? 0 then
    if is_sls then fs_exists s (expand SLS_SYSFS_ROOT) = true ∧ SlsControl.memory_size s = Ok size
    else fs_exists s (expand IMDB_SYSFS_PATH) = true ∧ ImdbControl.memory_size s = Ok size
  else mem_size = size.

Definition created (is_sls is_imdb : bool) (size regs_size : Z) : list (chars * Z) :=
  (if is_sls then [(SLS_SHMEM, size)] else []) ++
  (if is_imdb then [(IMDB_CSR_DEVICE_SIM_NAME, regs_size); (IMDB_DEVMEMORY_PATH_SIM_NAME, size)] else []).

Section setup.
Context `{SyscallFaults} {S : Type} `{FileSystem S} `{Headers} (Hok : ∀ c name, fails c name = false).
Context (w : Shm) (Hnew : Forall (fun name => name ∉ (objects w).*1)
  [SLS_SHMEM; IMDB_CSR_DEVICE_SIM_NAME; IMDB_DEVMEMORY_PATH_SIM_NAME]).

(** The two files of the IMDB device, after those of the SLS device. *)
Lemma make_imdb_files (l : list (chars * Z)) (e : list chars) (size regs_size : Z) : size < 2 ^ 63 → regs_size < 2 ^ 63 →
  IMDB_CSR_DEVICE_SIM_NAME ∉ l.*1 → IMDB_DEVMEMORY_PATH_SIM_NAME ∉ l.*1 →
  (do! _ := make_shm IMDB_CSR_DEVICE_SIM_NAME regs_size in make_shm IMDB_DEVMEMORY_PATH_SIM_NAME size) (mkShm l e) =
  (mkShm (l ++ [(IMDB_CSR_DEVICE_SIM_NAME, regs_size); (IMDB_DEVMEMORY_PATH_SIM_NAME, size)]) e, Ok tt).
Proof.
  intros Hs Hr Hl1 Hl2. erewrite mbind_ok by by apply make_shm_fresh. cbn [objects err]. rewrite make_shm_fresh; [|done|done|].
  - cbn [objects err]. by rewrite <- app_assoc.
  - cbn [objects]. rewrite fmap_app, not_elem_of_app. split; [done|]. apply not_elem_of_cons. split; [done|]. apply not_elem_of_nil.
Qed.

Lemma setup_creates (s : S) (is_sls is_imdb : bool) (mem_size regs_size size : Z) :
  is_sls || is_imdb = true → (is_sls && is_imdb = true → mem_size = 0 ∧ regs_size = REG_AREA_SIZE) →
  memory_size_of s is_sls mem_size size → 0 < size < 2 ^ 63 → regs_size < 2 ^ 63 →
  setup_execute s is_sls is_imdb mem_size regs_size w =
    (mkShm (objects w ++ created is_sls is_imdb size regs_size) (err w), Ok tt).
Proof.
  intros Hdev Hboth Hmem Hsize Hregs. rewrite !Forall_cons in Hnew. destruct Hnew as (Hn1 & Hn2 & Hn3 & _).
  unfold setup_execute. destruct is_sls; cbn [andb orb negb] in *.
  - replace (is_imdb && (negb (mem_size =? 0) || negb (regs_size =? REG_AREA_SIZE))) with false.
    2:{ destruct is_imdb; [|done]. by destruct (Hboth eq_refl) as [-> ->]. }
    erewrite (mbind_ok _ _ w).
    2:{ erewrite (mbind_ok _ _ w w size).
        2:{ unfold memory_size_of in Hmem. destruct (mem_size =? 0); [|by rewrite Hmem]. destruct Hmem as [-> E]. cbn [negb].
            unfold mlift. by rewrite E. }
        erewrite mbind_ok by (apply make_shm_fresh; [done|lia|done]). reflexivity. }
    unfold created. destruct is_imdb; cbn [negb andb].
    + rewrite (proj2 (Z.eqb_neq size 0)) by lia. erewrite (mbind_ok (A := unit)).
      2:{ erewrite (mbind_ok (A := Z)) by reflexivity. apply make_imdb_files; [lia|done| |]; rewrite fmap_app, not_elem_of_app;
            (split; [done|]); apply not_elem_of_cons; (split; [done|]); apply not_elem_of_nil. }
      by rewrite <- app_assoc.
    + reflexivity.
  - subst is_imdb. cbn [andb negb]. erewrite (mbind_ok (A := Z) _ _ w) by reflexivity.
    erewrite (mbind_ok (A := unit) _ _ w).
    2:{ erewrite (mbind_ok _ _ w w size).
        2:{ unfold memory_size_of in Hmem. destruct (mem_size =? 0); [|by rewrite Hmem]. destruct Hmem as [Hex E]. rewrite Hex. cbn [negb].
            erewrite (mbind_ok (A := unit) _ _ w w tt) by by (unfold mlift, ImdbControl.make, ImdbControl.sysfs_root_; rewrite Hex).
            unfold mlift. by rewrite E. }
        replace w with (mkShm (objects w) (err w)) at 1 by by destruct w. by apply make_imdb_files; [lia|..]. }
    reflexivity.
Qed.

Lemma destroy_created (is_sls is_imdb : bool) (size regs_size : Z) : is_sls || is_imdb = true →
  destroy_execute is_sls is_imdb (mkShm (objects w ++ created is_sls is_imdb size regs_size) (err w)) = (w, Ok tt).
Proof.
  intros Hdev. rewrite !Forall_cons in Hnew. destruct Hnew as (Hn1 & Hn2 & Hn3 & _). unfold destroy_execute.
  erewrite (mbind_ok (A := unit) _ _ _ (mkShm (objects w ++ created false is_imdb size regs_size) (err w)) tt).
  2:{ destruct is_sls; [|done]. erewrite destroy_shm_created; [reflexivity|done|reflexivity|done|].
      unfold created. destruct is_imdb; cbn; rewrite ?not_elem_of_cons; repeat split; try done; apply not_elem_of_nil. }
  erewrite (mbind_ok (A := unit) _ _ _ w tt).
  2:{ destruct is_imdb; [|unfold created; cbn [app]; rewrite app_nil_r; by destruct w].
      erewrite mbind_ok.
      2:{ eapply destroy_shm_created; [done|reflexivity|done|]. cbn. apply not_elem_of_cons. split; [done|]. apply not_elem_of_nil. }
      erewrite destroy_shm_created; [|done|reflexivity|done|apply not_elem_of_nil]. cbn [err]. rewrite app_nil_r. by destruct w. }
  by destruct is_sls, is_imdb.
Qed.
End setup.

(** Property C37.  [setup-shm] and [destroy-shm] when no system call fails and none of the
    files exists: for every choice of devices the tool accepts, the files of exactly the
    chosen devices are created, and destroying the same choice restores what was there.
    The size of both memories is the one given, or else the one that the driver reports:
    of the SLS device as soon as it is chosen, also for the memory of the IMDB device. *)
Theorem shm_setup_destroy `{SyscallFaults} {S : Type} `{FileSystem S} `{Headers} (s : S) (w : Shm)
    (is_sls is_imdb : bool) (mem_size regs_size size : Z) :
  (∀ c name, fails c name = false) →
  Forall (fun name => name ∉ (objects w).*1) [SLS_SHMEM; IMDB_CSR_DEVICE_SIM_NAME; IMDB_DEVMEMORY_PATH_SIM_NAME] →
  is_sls || is_imdb = true → (is_sls && is_imdb = true → mem_size = 0 ∧ regs_size = REG_AREA_SIZE) →
  memory_size_of s is_sls mem_size size → 0 < size < 2 ^ 63 → regs_size < 2 ^ 63 →
  ∃ w', setup_execute s is_sls is_imdb mem_size regs_size w = (w', Ok tt) ∧
    objects w' = objects w ++ created is_sls is_imdb size regs_size ∧ err w' = err w ∧
    destroy_execute is_sls is_imdb w' = (w, Ok tt).
Proof.
  intros Hok Hn Hdev Hboth Hmem Hsize Hregs.
  exists (mkShm (objects w ++ created is_sls is_imdb size regs_size) (err w)). split; [|split; [done|split; [done|]]].
  - by apply setup_creates.
  - by apply destroy_created.
Qed.

(** The driver of the SLS device reports 64 MB, that of the IMDB device 16 MB: with both
    devices chosen, the memory of the IMDB device gets 64 MB. *)
Definition sizes_files : Files :=
  [(SlsControl.sls_sysfs_root_ // str "size", number_file 67108864);
   (ImdbControl.sysfs_root_ // str "mem_size", number_file 16777216)].

Lemma shm_setup_destroy_witness :
  let H := fun _ _ => false in
  ImdbControl.memory_size sizes_files = Ok 16777216 ∧
  ∃ w', setup_execute (H := H) sizes_files true true 0 REG_AREA_SIZE (mkShm [] []) = (w', Ok tt) ∧
    objects w' = [(SLS_SHMEM, 67108864); (IMDB_CSR_DEVICE_SIM_NAME, REG_AREA_SIZE); (IMDB_DEVMEMORY_PATH_SIM_NAME, 67108864)] ∧
    destroy_execute (H := H) true true w' = (mkShm [] [], Ok tt).
Proof.
  intros H. split; [by vm_compute|].
  destruct (shm_setup_destroy (H := H) sizes_files (mkShm [] []) true true 0 REG_AREA_SIZE 67108864) as (w' & E & Ho & _ & Ed).
  - done.
  - repeat constructor; apply not_elem_of_nil.
  - done.
  - done.
  - split; by vm_compute.
  - lia.
  - unfold REG_AREA_SIZE. lia.
  - by exists w'.
Defined.

(** * What sls-info prints *)

(** The descriptions are listed in the order of the kinds of information, so that the
    [i]-th flag shows the [i]-th attribute. *)
Lemma descriptions_in_order (i : nat) (d : SlsCtl.RankInfoDescription) :
  SlsCtl.descriptions_ !! i = Some d → cunit_info_to_index (SlsCtl.compute_unit_info d) = Z.of_nat i.
Proof.
  assert (Hall : forallb (fun i => match SlsCtl.descriptions_ !! Z.to_nat i with
                                   | Some d => cunit_info_to_index (SlsCtl.compute_unit_info d) =? i | None => false end)
                   (seqZ 0 cunit_info_length) = true) by by vm_compute.
  intros Hd. pose proof (lookup_lt_Some _ _ _ Hd) as Hi. change (length SlsCtl.descriptions_) with 23%nat in Hi.
  rewrite forallb_forall in Hall. specialize (Hall (Z.of_nat i)). rewrite Nat2Z.id, Hd in Hall. apply Z.eqb_eq, Hall.
  apply list_elem_of_In, elem_of_seqZ. unfold cunit_info_length. cbn [cunit_info_to_index]. lia.
Qed.

(** What a line shows is read back from behind the columns of the name. *)
Lemma param_line_read (name : chars) (value : Z) : (length name ≤ 20)%nat → 0 ≤ value < 2 ^ 64 →
  extract (unsigned 64) (Some (drop 22 (SlsCtl.param_line false name value))) 0 = (value, Some [newline]).
Proof.
  intros Hn Hv. unfold SlsCtl.param_line. change (str "  ") with [32; 32]. cbn [app drop].
  rewrite drop_app_length' by (unfold pad_right; rewrite length_app, length_replicate; lia).
  unfold pad_left. cbn [app]. change (str " ") with [32]. cbn [app].
  rewrite (extract_space (F := unsigned 64) 32 _ _ eq_refl), <- app_assoc.
  induction (20 - length (to_string value))%nat as [|n IH]; cbn [replicate app].
  - unfold to_string. change (digits 20 value) with (show (unsigned 64) value).
    by rewrite (extract_show (F := unsigned 64) (valid := fun v => 0 ≤ v < 2 ^ 64)).
  - by rewrite (extract_space (F := unsigned 64) 32 _ _ eq_refl).
Qed.

(** With the attributes of the ranks shown, every chosen line is printed, or all of them
    when none is chosen. *)
Definition chosen_line (is_hex : bool) (options : list bool) (value : Z → Z)
    '((option, d) : bool * SlsCtl.RankInfoDescription) : chars :=
  if forallb negb options || option
  then SlsCtl.param_line is_hex (SlsCtl.printable_name d) (value (cunit_info_to_index (SlsCtl.compute_unit_info d)))
  else [].

Lemma print_info_text {S : Type} `{FileSystem S} `{Headers} (s : S) (is_hex : bool) (ranks : list Z)
    (options : list bool) (value : Z → Z → Z) :
  (∀ rank i m, rank ∈ ranks → SlsControl.cunit_info_paths_ !! i = Some m →
    shows s (SlsControl.cunit_path rank m) (value rank (Z.of_nat i))) →
  SlsCtl.print_info s is_hex ranks options = Ok (mjoin ((fun rank =>
    str "RANK " ++ to_string rank ++ [newline] ++
    mjoin (chosen_line is_hex options (value rank) <$> zip options SlsCtl.descriptions_)) <$> ranks)).
Proof.
  intros Hs. unfold SlsCtl.print_info. erewrite rmap_spec; [reflexivity|]. intros rank Hr. cbv beta.
  rewrite (rmap_spec _ (chosen_line is_hex options (value rank))); [reflexivity|].
  intros [option d] Hd. unfold chosen_line. destruct (forallb negb options || option); [|done].
  apply elem_of_zip_r, list_elem_of_lookup in Hd as [i Hi]. unfold SlsCtl.print_param.
  destruct (lookup_lt_is_Some_2 SlsControl.cunit_info_paths_ i) as [m Hm].
  { apply lookup_lt_Some in Hi. exact Hi. }
  pose proof (descriptions_in_order i d Hi) as Hix.
  rewrite (get_compute_unit_info_shown s rank _ m (value rank (Z.of_nat i))).
  - by rewrite Hix.
  - by rewrite Hix, Nat2Z.id.
  - by apply Hs.
Qed.
