(* ===== verification/DatagenCache.v ===== *)
(** * Test data of the IMDB benchmarks

    tools/datagen/imdb/utils.h with the factories it uses (common_factory.h,
    general/column_entry_gens_creator.h, {column,range,predicate_vec}_generator/factory.cpp):
    the argument strings of the generators, and the functions that look for data on the
    disk and generate and store it when there is none.

    The disk maps paths to the bytes of files; a directory that is created leaves no trace
    in it.  What the random device returns, which files and directories can be written, how the C library prints a double and in which order an
    unordered map is traversed are parameters. *)
From Stdlib Require Import String SpecFloat.
From S2P Require Import Prelude Text InfoFiles BitViews Scan Avx2 Allocators DataFiles DatagenImdb DatagenPredicates Sysfs.

(** ** Signed integers in streams *)

(** [is >> v] for a signed integer of [W] bits. *)
Definition extract_signed (W : Z) (iss : stream) (old : Z) : Z * stream :=
  match iss with
  | None => (old, None)
  | Some s =>
      match skip_ws s with
      | [] => (old, None)
      | s' =>
          let (negative, s1) := read_sign s' in
          match read_digits s1 false 0 with
          | (None, _) => (0, None)
          | (Some v, rest) =>
              let v := if negative then - v else v in
              if v <? - 2 ^ (W - 1) then (- 2 ^ (W - 1), None)
              else if 2 ^ (W - 1) <=? v then (2 ^ (W - 1) - 1, None)
              else (v, Some rest)
          end
      end
  end.

Definition show_signed (v : Z) : chars := if v <? 0 then 45 :: digits 20 (- v) else digits 20 v.

(** ** general/column_entry_gens.h *)
Module RandomEntry.
Record t (E : Type) := mk { distr_min : Z; distr_max : Z; engine_ : E }.
Arguments mk {E}.
Arguments distr_min {E} t.
Arguments distr_max {E} t.
Arguments engine_ {E} t.

Definition make {E} `{Uniform E} (entry_bit_size seed : Z) (min_value max_value : option Z) : result (t E) :=
  let lo := default 0 min_value in
  let hi := default (calc_entry_max_value entry_bit_size) max_value in
  let! _ := validate_entry_gen_args entry_bit_size lo hi in
  Ok (mk lo hi (seeded seed)).

Definition apply {E} `{Uniform E} (g : t E) : Z * t E :=
  let (v, e) := uni (distr_min g) (distr_max g) (engine_ g) in (v, mk (distr_min g) (distr_max g) e).
End RandomEntry.

(** ** general/column_entry_gens_creator.h *)

(** What is read from the argument string: the size of an entry, and a seed or a step, a
    least and a greatest value as far as they are there. *)
Record EntryArgs := mkArgs { arg_bits : Z; arg_first : option Z; arg_min : option Z; arg_max : option Z }.

Definition parse_entry_args (first : stream → Z → Z * stream) (args : chars) : result EntryArgs :=
  match extract_unsigned 64 (Some args) 0 with
  | (_, None) => Err StdException
  | (entry_bit_size, iss) =>
      match first iss 0 with
      | (_, None) => Ok (mkArgs entry_bit_size None None None)
      | (v, iss) =>
          match extract_unsigned 32 iss 0 with
          | (_, None) => Ok (mkArgs entry_bit_size (Some v) None None)
          | (min_value, iss) =>
              match extract_unsigned 32 iss 0 with
              | (_, None) => Ok (mkArgs entry_bit_size (Some v) (Some min_value) None)
              | (max_value, _) => Ok (mkArgs entry_bit_size (Some v) (Some min_value) (Some max_value))
              end
          end
      end
  end.

(** ** common_factory.h *)
Module CommonFactory.
Definition t (R : Type) := list (chars * R).

(** [std::unordered_map::emplace] keeps what is there. *)
Definition register_builder {R} (builders_ : t R) (gen_name : chars) (builder : R) : t R :=
  if bool_decide (gen_name ∈ builders_.*1) then builders_ else builders_ ++ [(gen_name, builder)].

Definition create {R} (builders_ : t R) (gen_name : chars) : result R :=
  match list_find (fun '(n, _) => n = gen_name) builders_ with
  | Some (_, (_, builder)) => Ok builder
  | None => Err StdException
  end.
End CommonFactory.

Definition column_random_generator : chars := str "random".
Definition column_positioned_generator : chars := str "positioned".
Definition scan_ranges_generator_random : chars := str "random".
Definition scan_ranges_generator_random_precise : chars := str "random_precise".
Definition predictor_generator_random : chars := str "random".
Definition predictor_generator_random_precise : chars := str "random_precise".

Definition column_default_name : chars := str "table_column.bin".
Definition column_info_default_name : chars := str "table_column.info".
Definition scan_range_suffix_bin : chars := str ".scan_range.bin".
Definition scan_range_suffix_info : chars := str ".scan_range.info".
Definition predicate_vec_suffix_bin : chars := str ".predicate_vec.bin".
Definition predicate_vec_suffix_info : chars := str ".predicate_vec.info".
Definition bit_vec_suffix_bin : chars := str ".bit_vec.bin".
Definition bit_vec_suffix_info : chars := str ".bit_vec.info".
Definition index_vec_suffix_bin : chars := str ".index_vec.bin".
Definition index_vec_suffix_info : chars := str ".index_vec.info".

(** ** The parameters: utils.h *)
Record CommonGeneratorParams := mkCommon {
  root_ : chars;
  filename_prefix_ : option chars;
  generator_name_ : chars
}.

Record GeneratorColumnParams := mkColumnParams {
  column_common_params_ : CommonGeneratorParams;
  entry_bit_size_ : Z;
  entry_count_ : Z;
  column_seed_ : option Z;
  column_step_ : option Z;
  column_min_value_ : option Z;
  column_max_value_ : option Z
}.

Record GeneratorRangesParams := mkRangesParams {
  ranges_common_params_ : CommonGeneratorParams;
  ranges_selectivities_ : list spec_float;
  ranges_seed_ : option Z;
  ranges_epsilon_ : option spec_float;
  ranges_generate_golden_ : bool
}.

Record GeneratorPredicateVectorsParams := mkPredicateParams {
  predicate_common_params_ : CommonGeneratorParams;
  params_selectivities_ : list spec_float;
  params_max_values_ : list Z;
  predicate_seed_ : option Z;
  predicate_epsilon_ : option spec_float;
  predicate_generate_golden_ : bool
}.

Definition opt_arg {A} (show : A → chars) (o : option A) : chars :=
  match o with Some v => 32 :: show v | None => [] end.

(** [GeneratorColumnParams::get_factory_str_arg] *)
Definition column_str_arg (p : GeneratorColumnParams) : chars :=
  let gen_name := generator_name_ (column_common_params_ p) in
  to_string (entry_bit_size_ p) ++
  (if bool_decide (gen_name = column_random_generator) then opt_arg to_string (column_seed_ p)
   else if bool_decide (gen_name = column_positioned_generator) then opt_arg show_signed (column_step_ p) else []) ++
  match column_min_value_ p with
  | Some min_value => 32 :: to_string min_value ++ opt_arg to_string (column_max_value_ p)
  | None => []
  end.

(** [GeneratorRangesParams::get_factory_str_arg], and the same for predicate vectors;
    [print_f] is [std::to_string] of a double. *)
Definition request_str_arg (print_f : spec_float → chars) (gen_name : chars) (seed : option Z) (epsilon : option spec_float) : chars :=
  if bool_decide (gen_name = scan_ranges_generator_random ∨ gen_name = scan_ranges_generator_random_precise) then
    match seed with
    | None => []
    | Some seed => to_string seed ++ match epsilon with None => [] | Some eps => print_f eps end
    end
  else [].

Definition ranges_str_arg (print_f : spec_float → chars) (p : GeneratorRangesParams) : chars :=
  request_str_arg print_f (generator_name_ (ranges_common_params_ p)) (ranges_seed_ p) (ranges_epsilon_ p).

Definition predicates_str_arg (print_f : spec_float → chars) (p : GeneratorPredicateVectorsParams) : chars :=
  request_str_arg print_f (generator_name_ (predicate_common_params_ p)) (predicate_seed_ p) (predicate_epsilon_ p).

(** The default of the precision: the double next to 0.001. *)
Definition default_epsilon : spec_float := S754_finite false 4611686018427388 (-62).

(** ** The disk *)
Definition Disk := chars → option (list Z).

Definition put_file (path : chars) (data : list Z) (d : Disk) : Disk :=
  fun q => if decide (q = path) then Some data else d q.

Section datagen.
Context {E : Type} `{Uniform E}.

(** [std::random_device{}()], the text of a double, whether the kernel maps a file,
    whether a file can be written, and the traversal of an unordered map. *)
Context (random_device : Z) (print_f : spec_float → chars) (double : Format spec_float) (zero : spec_float).
Context (mmap : Z → bool) (can_write : chars → bool) (order : list Z → list (Z * Z)).

(** *** The factories *)
Definition create_random_entry (args : chars) : result (RandomEntry.t E) :=
  let! a := parse_entry_args (extract_unsigned 64) args in
  RandomEntry.make (arg_bits a) (default random_device (arg_first a)) (arg_min a) (arg_max a).

Definition create_positioned_entry (args : chars) : result PositionedEntry.t :=
  let! a := parse_entry_args (extract_signed 32) args in
  PositionedEntry.make (arg_bits a) (default 1 (arg_first a)) (arg_min a) (arg_max a).

(** [TrivialColumnGenerator<RandomEntry>::create_column_impl]: one draw per entry. *)
Definition set_random_entry (s : bit_compressed * RandomEntry.t E) (index : Z) : result (bit_compressed * RandomEntry.t E) :=
  let (v, g) := RandomEntry.apply s.2 in
  let! column := set_value element_bits s.1 index v in Ok (column, g).

Definition create_random_column (g : RandomEntry.t E) (info : ColumnsInfo.t) : result bit_compressed :=
  let! column := compressed_vector element_bits (ColumnsInfo.entry_bit_size info) (ColumnsInfo.entry_count info) in
  let! (column, _) := rfold set_random_entry (column, g) (range (ColumnsInfo.entry_count info)) in
  Ok column.

Definition column_builders : CommonFactory.t (chars → result (ColumnsInfo.t → result bit_compressed)) :=
  CommonFactory.register_builder
    (CommonFactory.register_builder [] column_random_generator
      (fun args => let! g := create_random_entry args in Ok (create_random_column g)))
    column_positioned_generator
    (fun args => let! g := create_positioned_entry args in
       Ok (fun info => create_column_impl (PositionedEntry.apply g) (ColumnsInfo.entry_bit_size info) (ColumnsInfo.entry_count info))).

(** The entries of a column, as the generators of requests see them. *)
Definition column_entries (column : bit_compressed) : result (list Z) :=
  rmap (get_value element_bits column) (range (value_counts_ column)).

(** The seed and the precision in the arguments of a generator of requests. *)
Definition parse_request_args (args : chars) : option Z * option spec_float :=
  match extract_unsigned 64 (Some args) 0 with
  | (_, None) => (None, None)
  | (seed, iss) =>
      match extract double iss zero with
      | (_, None) => (Some seed, None)
      | (eps, _) => (Some seed, Some eps)
      end
  end.

Definition ranges_builders : CommonFactory.t
    (chars → option bit_compressed → result (list spec_float → ColumnsInfo.t → result (list RangeOperation))) :=
  CommonFactory.register_builder
    (CommonFactory.register_builder [] scan_ranges_generator_random
      (fun args _ => Ok (fun selectivities info =>
         RandomRangesGen.create_scan_ranges_impl (default random_device (parse_request_args args).1)
           (ColumnsInfo.entry_bit_size info) (ColumnsInfo.entry_count info) selectivities)))
    scan_ranges_generator_random_precise
    (fun args column =>
       match column with
       | None => Err LogicError
       | Some column => Ok (fun selectivities info =>
           let! entries := column_entries column in
           create_precise_ranges (SFabs (default default_epsilon (parse_request_args args).2))
             (default random_device (parse_request_args args).1) entries
             (ColumnsInfo.entry_bit_size info) (ColumnsInfo.entry_count info) selectivities)
       end).

Definition predicates_builders : CommonFactory.t
    (chars → option bit_compressed → result (PredicateVectorsInfo spec_float → ColumnsInfo.t → result (list bit_vector_view))) :=
  CommonFactory.register_builder
    (CommonFactory.register_builder [] predictor_generator_random
      (fun args _ => Ok (fun info column_info =>
         RandomPredicateVecsGen.create_predicate_vecs_impl (default random_device (parse_request_args args).1)
           (ColumnsInfo.entry_bit_size column_info) (ColumnsInfo.entry_count column_info)
           (predicate_selectivities_ info) (predicate_max_values_ info))))
    predictor_generator_random_precise
    (fun args column =>
       match column with
       | None => Err LogicError
       | Some column => Ok (fun info column_info =>
           let! entries := column_entries column in
           PreciseRandomPredicateVecsGen.create_predicate_vecs_impl (SFabs (default default_epsilon (parse_request_args args).2))
             entries (order entries) (default random_device (parse_request_args args).1)
             (ColumnsInfo.entry_bit_size column_info) (ColumnsInfo.entry_count column_info)
             (predicate_selectivities_ info) (predicate_max_values_ info))
       end).

(** *** Files *)

(** The [store_to_file] functions write the text first. *)
Definition write_data (path : chars) (data : list Z) : M Disk unit := fun d =>
  if can_write path then (put_file path data d, Ok tt) else (d, Err StdException).

Definition store_files (info_path data_path : chars) (files : chars * list Z) : M Disk unit :=
  do! _ := write_data info_path files.1 in write_data data_path files.2.

(** The [Mmap] structures and [load_from_file]. *)
Definition load_files {I V} (parse : InfoFiles.file → result I) (load : I → list Z → result V)
    (data_path info_path : chars) : M Disk (V * I) := fun d =>
  (d, let! mapped := MappedFile mmap (d data_path) in
      let! info := parse (d info_path) in
      let! v := load info mapped in Ok (v, info)).

(** [std::filesystem::create_directory] throws when the system refuses; that the directory
    is there already is not an error. *)
Definition create_directory (root : chars) : M Disk unit := fun d =>
  (d, if can_write root then Ok tt else Err StdException).

Definition exists_file (path : chars) (d : Disk) : bool := bool_decide (is_Some (d path)).

(** [get_mmap_columns] with the load that follows it everywhere. *)
Definition get_mmap_columns (root : chars) : M Disk (bit_compressed * ColumnsInfo.t) :=
  load_files (ColumnsInfo.load_from_file (ColumnsInfo.mk 0 0)) ColumnsIO.load_from_file
    (root // column_default_name) (root // column_info_default_name).

Definition get_column_with_info (root : chars) : M Disk (bit_compressed * ColumnsInfo.t) := get_mmap_columns root.

Definition get_or_create_test_columns (params : GeneratorColumnParams) : M Disk bit_compressed := fun d =>
  let root := root_ (column_common_params_ params) in
  (do! _ :=
     (if exists_file (root // column_default_name) d then mret tt
      else
        do! _ := create_directory root in
        do! builder := mlift (CommonFactory.create column_builders (generator_name_ (column_common_params_ params))) in
        do! generator := mlift (builder (column_str_arg params)) in
        let info := ColumnsInfo.mk (entry_bit_size_ params) (entry_count_ params) in
        do! column := mlift (generator info) in
        store_files (root // column_info_default_name) (root // column_default_name) (ColumnsIO.store_to_file column info)) in
   do! (column, _) := get_mmap_columns root in
   mret column) d.

(** [compute_and_store_golden]: bit vectors and index vectors. *)
Definition compute_and_store_golden (root prefix : chars) (bv : result (list bit_vector_view)) (iv : result (list (list Z)))
  : M Disk unit :=
  do! bits := mlift (ImdbGoldenVecGenerator.store_golden_bv bv) in
  do! _ := store_files (root // (prefix ++ bit_vec_suffix_info)) (root // (prefix ++ bit_vec_suffix_bin)) bits in
  do! rows := mlift (ImdbGoldenVecGenerator.store_golden_iv iv) in
  store_files (root // (prefix ++ index_vec_suffix_info)) (root // (prefix ++ index_vec_suffix_bin)) rows.

Definition get_mmap_scan_ranges (root prefix : chars) : M Disk (list RangeOperation * RangesInfo spec_float) :=
  load_files (load_ranges_info double zero) RangesIO.load_from_file
    (root // (prefix ++ scan_range_suffix_bin)) (root // (prefix ++ scan_range_suffix_info)).

Definition get_or_create_test_scan_ranges (params : GeneratorRangesParams) : M Disk (list RangeOperation) := fun d =>
  let root := root_ (ranges_common_params_ params) in
  let prefix := default [] (filename_prefix_ (ranges_common_params_ params)) in
  let gen_name := generator_name_ (ranges_common_params_ params) in
  (do! _ :=
     (if exists_file (root // (prefix ++ scan_range_suffix_bin)) d then mret tt
      else
        do! (column, column_info) := get_column_with_info root in
        do! builder := mlift (CommonFactory.create ranges_builders gen_name) in
        do! generator := mlift (builder (ranges_str_arg print_f params) (Some column)) in
        let info := make_ranges_info (ranges_selectivities_ params) in
        do! ranges := mlift (generator (selectivities_ info) column_info) in
        do! _ := store_files (root // (prefix ++ scan_range_suffix_info)) (root // (prefix ++ scan_range_suffix_bin))
                   (RangesIO.store_to_file double ranges info) in
        if ranges_generate_golden_ params then
          compute_and_store_golden root prefix (ImdbGoldenVecGenerator.scan_ranges_bv column ranges)
            (ImdbGoldenVecGenerator.scan_ranges_iv column ranges)
        else mret tt) in
   do! (ranges, _) := get_mmap_scan_ranges root prefix in
   mret ranges) d.

Definition get_mmap_predicate_vectors (root prefix : chars) : M Disk (list bit_vector_view * PredicateVectorsInfo spec_float) :=
  load_files (load_predicates_info double zero) PredicateVectorsIO.load_from_file
    (root // (prefix ++ predicate_vec_suffix_bin)) (root // (prefix ++ predicate_vec_suffix_info)).

Definition get_or_create_test_predicate_vectors (params : GeneratorPredicateVectorsParams) : M Disk (list bit_vector_view) := fun d =>
  let root := root_ (predicate_common_params_ params) in
  let prefix := default [] (filename_prefix_ (predicate_common_params_ params)) in
  let gen_name := generator_name_ (predicate_common_params_ params) in
  (do! _ :=
     (if exists_file (root // (prefix ++ predicate_vec_suffix_bin)) d then mret tt
      else
        do! (column, column_info) := get_column_with_info root in
        do! builder := mlift (CommonFactory.create predicates_builders gen_name) in
        do! generator := mlift (builder (predicates_str_arg print_f params) (Some column)) in
        do! info := mlift (make_predicates_info (params_selectivities_ params) (params_max_values_ params)) in
        do! predictors := mlift (generator info column_info) in
        do! _ := store_files (root // (prefix ++ predicate_vec_suffix_info)) (root // (prefix ++ predicate_vec_suffix_bin))
                   (PredicateVectorsIO.store_to_file double predictors info) in
        if predicate_generate_golden_ params then
          compute_and_store_golden root prefix (ImdbGoldenVecGenerator.scan_lists_bv column predictors)
            (ImdbGoldenVecGenerator.scan_lists_iv column predictors)
        else mret tt) in
   do! (predictors, _) := get_mmap_predicate_vectors root prefix in
   mret predictors) d.

(** *** [generate_and_store_data] *)
Inductive vectors :=
  | no_vectors
  | bit_vectors (l : list bit_vector_view)
  | index_vectors (l : list (list Z)).

Definition get_mmap_bit_vectors (root prefix : chars) : M Disk (list bit_vector_view * list Z) :=
  load_files VectorOfVectorsInfo.load BitVectorsIO.load_from_file
    (root // (prefix ++ bit_vec_suffix_bin)) (root // (prefix ++ bit_vec_suffix_info)).

Definition get_mmap_index_vectors (root prefix : chars) : M Disk (list (list Z) * list Z) :=
  load_files VectorOfVectorsInfo.load IndexVectorsIO.load_from_file
    (root // (prefix ++ index_vec_suffix_bin)) (root // (prefix ++ index_vec_suffix_info)).

Definition load_golden (bits : bool) (root prefix : chars) : M Disk vectors :=
  if bits then do! (l, _) := get_mmap_bit_vectors root prefix in mret (bit_vectors l)
  else do! (l, _) := get_mmap_index_vectors root prefix in mret (index_vectors l).

(** [fmt::format("{}", double)] is the text of the info files. *)
Definition dir_name (list : bool) (column_generator_type pred_generator_type : chars)
    (bit_size column_size inputs_size : Z) (selectivity : spec_float) : chars :=
  str "imdb_" ++ str (if list then "list" else "range") ++ str "_" ++ column_generator_type ++ str "_" ++
  pred_generator_type ++ str "_" ++ to_string bit_size ++ str "b_" ++ to_string column_size ++ str "ts_" ++
  to_string inputs_size ++ str "is_" ++ show double selectivity ++ str "sel".

Section generate.
Context (columns_root column_generator_type pred_generator_type : chars) (bit_size column_size inputs_size : Z)
  (selectivity : spec_float).

Definition gen_root (list : bool) : chars :=
  columns_root // dir_name list column_generator_type pred_generator_type bit_size column_size inputs_size selectivity.

Definition column_params (root : chars) (seed : Z) : GeneratorColumnParams :=
  mkColumnParams (mkCommon root None column_generator_type) bit_size column_size (Some seed) (Some 7) None None.

Definition inputs_filename_prefix : chars := str "inputs".

(** For ranges; [bits] tells the type of the output. *)
Definition generate_and_store_ranges (bits generate_golden : bool) (seed : Z)
  : M Disk (bit_compressed * list RangeOperation * vectors) :=
  let root := gen_root false in
  do! column := get_or_create_test_columns (column_params root seed) in
  do! input := get_or_create_test_scan_ranges
    (mkRangesParams (mkCommon root (Some inputs_filename_prefix) pred_generator_type)
       (replicate (Z.to_nat inputs_size) selectivity) (Some seed) None generate_golden) in
  do! result := (if generate_golden then load_golden bits root inputs_filename_prefix else mret no_vectors) in
  mret (column, input, result).

(** For predicate vectors. *)
Definition generate_and_store_lists (bits generate_golden : bool) (seed : Z)
  : M Disk (bit_compressed * list bit_vector_view * vectors) :=
  let root := gen_root true in
  do! column := get_or_create_test_columns (column_params root seed) in
  do! input := get_or_create_test_predicate_vectors
    (mkPredicateParams (mkCommon root (Some inputs_filename_prefix) pred_generator_type)
       (replicate (Z.to_nat inputs_size) selectivity)
       (replicate (Z.to_nat inputs_size) (u32 (Z.shiftl 1 bit_size - 1))) (Some seed) None generate_golden) in
  do! result := (if generate_golden then load_golden bits root inputs_filename_prefix else mret no_vectors) in
  mret (column, input, result).
End generate.
End datagen.

(** * Argument strings *)
Definition signed (W : Z) : Format Z := {| show := show_signed; extract := extract_signed W |}.

#[export] Instance signed_laws : FormatLaws (signed 32) (fun v => - 2 ^ 31 ≤ v < 2 ^ 31).
Proof.
  assert (Hdig : ∀ v, 0 ≤ v < 10 ^ 20 → Forall (fun c => 48 ≤ c ≤ 57) (digits 20 v) ∧ digits 20 v ≠ [] ∧
    fold_left (fun v c => 10 * v + (c - 48)) (digits 20 v) 0 = v).
  { intros v Hv. destruct (digits_value 20 v Hv) as (H1 & H2 & H3). repeat split; [done|by apply H2|done]. }
  assert (Hread : ∀ v rest, 0 ≤ v < 10 ^ 20 → ends_value rest → read_digits (digits 20 v ++ rest) false 0 = (Some v, rest)).
  { intros v rest Hv Hr. destruct (Hdig v Hv) as (H1 & H2 & H3). rewrite read_digits_app by done.
    rewrite H3, bool_decide_eq_true_2 by done. destruct rest as [|c rest]; cbn [orb read_digits]; [done|].
    apply space_digit in Hr. by replace ((48 <=? c) && (c <=? 57)) with false by (symmetry; apply andb_false_iff; lia). }
  split; cbn [signed show extract].
  - intros v Hv. unfold show_signed. destruct (v <? 0) eqn:E; zbool.
    + destruct (Hdig (- v) ltac:(lia)) as (H1 & _). split; [done|]. constructor; [done|].
      apply (digits_word (digits 20 (- v))); [by apply Hdig; lia|done].
    + apply digits_word; by apply Hdig; lia.
  - intros v rest old Hv Hr. unfold extract_signed, show_signed. destruct (v <? 0) eqn:E; zbool.
    + cbn [app skip_ws is_space]. change (is_space 45) with false. cbn match. cbn [read_sign]. change (45 =? 45) with true. cbn match.
      rewrite Hread by (lia || done). rewrite Z.opp_involutive.
      by rewrite (proj2 (Z.ltb_ge v _)), (proj2 (Z.leb_gt _ v)) by (cbn; lia).
    + destruct (Hdig v ltac:(lia)) as (H1 & H2 & _). rewrite skip_word by by apply digits_word.
      pose proof (Hread v rest ltac:(lia) Hr) as E1. destruct (digits 20 v) as [|c s]; [done|].
      apply Forall_cons in H1 as [Hc _]. cbn [app read_sign] in *.
      rewrite (proj2 (Z.eqb_neq c 45)), (proj2 (Z.eqb_neq c 43)) by lia. rewrite E1.
      by rewrite (proj2 (Z.ltb_ge v _)), (proj2 (Z.leb_gt _ v)) by (cbn; lia).
  - intros c s old Hc. unfold extract_signed. cbn [skip_ws]. by rewrite Hc.
  - done.
  - done.
  - intros s old v rest Hx. unfold extract_signed in Hx. pose proof (skip_ws_length s) as Hl.
    destruct (skip_ws s) as [|c s'] eqn:E; [done|]. destruct (read_sign (c :: s')) as [neg s1] eqn:Es.
    assert (length s1 ≤ length (c :: s'))%nat.
    { cbn [read_sign] in Es. repeat case_match; simplify_eq; cbn [length]; lia. }
    destruct (digits_read s1 false 0) as [_ Hd]. destruct (read_digits s1 false 0) as [[x|] r] eqn:Er; [|done].
    specialize (Hd eq_refl x eq_refl). cbn [snd] in Hd. repeat case_match; simplify_eq; lia.
Qed.

(** The text of the arguments of a column generator. *)
Definition args_text (show_first : Z → chars) (a : EntryArgs) : chars :=
  to_string (arg_bits a) ++ opt_arg show_first (arg_first a) ++
  match arg_min a with
  | Some min_value => 32 :: to_string min_value ++ opt_arg to_string (arg_max a)
  | None => []
  end.

(** The arguments of which the parser reads a prefix: one is there only after another. *)
Definition prefixed (a : EntryArgs) : EntryArgs :=
  match arg_first a, arg_min a with
  | _, None => mkArgs (arg_bits a) (arg_first a) None None
  | None, Some min_value => mkArgs (arg_bits a) (Some min_value) (arg_max a) None
  | Some _, Some _ => a
  end.

Record args_ok (valid : Z → Prop) (a : EntryArgs) : Prop := {
  ok_bits : 0 ≤ arg_bits a < 2 ^ 64;
  ok_first : ∀ v, arg_first a = Some v → valid v;
  ok_min : ∀ v, arg_min a = Some v → 0 ≤ v < 2 ^ 31;
  ok_max : ∀ v, arg_max a = Some v → 0 ≤ v < 2 ^ 32;
}.

Section args.
Context (F : Format Z) (valid : Z → Prop) `{!FormatLaws F valid}.

(** The step or seed can be printed like an unsigned number. *)
Context (Hun : ∀ v, 0 ≤ v < 2 ^ 31 → valid v ∧ show F v = to_string v).

Lemma read_next (G : Format Z) (ok : Z → Prop) `{!FormatLaws G ok} (v old : Z) (rest : chars) :
  ok v → ends_value rest → extract G (Some (32 :: show G v ++ rest)) old = (v, Some rest).
Proof. intros Hv Hr. rewrite (extract_space (F := G)) by done. by rewrite (extract_show (F := G) (valid := ok)). Qed.

Lemma read_u (W v old : Z) (rest : chars) : (W = 32 ∨ W = 64) → 0 ≤ v < 2 ^ W → ends_value rest →
  extract_unsigned W (Some (32 :: to_string v ++ rest)) old = (v, Some rest).
Proof. intros [-> | ->] Hv Hr; [apply (read_next (unsigned 32) _ v old rest Hv Hr)|apply (read_next (unsigned 64) _ v old rest Hv Hr)]. Qed.

Lemma read_bits (v : Z) (rest : chars) : 0 ≤ v < 2 ^ 64 → ends_value rest →
  extract_unsigned 64 (Some (to_string v ++ rest)) 0 = (v, Some rest).
Proof. intros Hv Hr. apply (extract_show (F := unsigned 64) (valid := fun v => 0 ≤ v < 2 ^ 64) v rest 0 Hv Hr). Qed.

Lemma read_nothing (W : Z) : (extract_unsigned W (Some []) 0).2 = None.
Proof. done. Qed.

(** What the parser finds in the text of the arguments: all of them in their places, if
    none is missing in between; without a seed or step, the least value is taken for it
    and the greatest for the least. *)
Lemma parse_args_text (a : EntryArgs) : args_ok valid a →
  parse_entry_args (extract F) (args_text (show F) a) = Ok (prefixed a).
Proof.
  destruct a as [b f lo hi]. intros [Hb Hf Hlo Hhi]. unfold args_text, parse_entry_args, prefixed. cbn [arg_bits arg_first arg_min arg_max] in *.
  assert (Hends : ∀ (s : Z → chars) (o : option Z), ends_value (opt_arg s o)) by by intros s [].
  destruct f as [v|], lo as [m|]; cbn [opt_arg app].
  - rewrite read_bits by done. rewrite (read_next F valid) by (done || by apply Hf). rewrite <- (app_nil_r (opt_arg _ hi)).
    specialize (Hlo m eq_refl). rewrite (read_u 32) by (auto || lia || by destruct hi).
    destruct hi as [h|]; cbn [opt_arg app]; [|done]. by rewrite (read_u 32 h) by (done || auto).
  - rewrite read_bits by done. rewrite (read_next F valid) by (done || by apply Hf). done.
  - rewrite read_bits by done. specialize (Hlo m eq_refl). destruct (Hun m Hlo) as [Hvm Hsm]. rewrite <- Hsm.
    rewrite (read_next F valid) by (done || by destruct hi). destruct hi as [h|]; cbn [opt_arg app]; [|done].
    rewrite <- (app_nil_r (to_string h)). by rewrite (read_u 32 h) by (done || auto).
  - rewrite read_bits by done. pose proof (extract_end (F := F) 0) as He. by destruct (extract F (Some []) 0) as [? [|]].
Qed.
End args.

(** ** Seeds with a precision are misread

    [std::to_string] of a precision below one starts with "0.": without a separator the
    zero becomes a digit of the seed. *)
Lemma seed_with_epsilon_misread (double : Format spec_float) (zero : spec_float) (print_f : spec_float → chars)
    (seed : Z) (eps : spec_float) (rest : chars) :
  print_f eps = str "0." ++ rest → 0 ≤ seed → 10 * seed < 2 ^ 64 →
  (parse_request_args double zero (request_str_arg print_f scan_ranges_generator_random_precise (Some seed) (Some eps))).1 =
  Some (10 * seed).
Proof.
  intros Hp H0 Hs. unfold request_str_arg, parse_request_args. rewrite bool_decide_eq_true_2 by by right. rewrite Hp.
  destruct (digits_value 20 seed ltac:(lia)) as (H1 & H2 & H3). specialize (H2 ltac:(lia)).
  assert (E : extract_unsigned 64 (Some (to_string seed ++ str "0." ++ rest)) 0 = (10 * seed, Some (46 :: rest))).
  { unfold extract_unsigned, to_string. change (str "0." ++ rest) with (48 :: 46 :: rest).
    rewrite skip_word by by apply digits_word.
    pose proof (read_digits_app (digits 20 seed) (48 :: 46 :: rest) false 0 H1) as E.
    rewrite H3, bool_decide_eq_true_2 in E by done. cbn [orb] in E.
    change (read_digits (48 :: 46 :: rest) true seed) with (Some (10 * seed + (48 - 48)), 46 :: rest) in E.
    replace (10 * seed + (48 - 48)) with (10 * seed) in E by lia.
    destruct (digits 20 seed) as [|c s]; [done|]. apply Forall_cons in H1 as [Hc _]. cbn [app read_sign] in *.
    rewrite (proj2 (Z.eqb_neq c 45)), (proj2 (Z.eqb_neq c 43)) by lia. cbv iota. rewrite E. cbv iota.
    by rewrite (proj2 (Z.ltb_lt _ _)), Z.mod_small by lia. }
  rewrite E. by destruct (extract double _ zero) as [? [|]].
Qed.

Lemma column_str_arg_random (p : GeneratorColumnParams) :
  generator_name_ (column_common_params_ p) = column_random_generator →
  column_str_arg p = args_text (show (unsigned 64))
    (mkArgs (entry_bit_size_ p) (column_seed_ p) (column_min_value_ p) (column_max_value_ p)).
Proof. intros Hn. unfold column_str_arg. by rewrite Hn. Qed.

Lemma column_str_arg_positioned (p : GeneratorColumnParams) :
  generator_name_ (column_common_params_ p) = column_positioned_generator →
  column_str_arg p = args_text (show (signed 32))
    (mkArgs (entry_bit_size_ p) (column_step_ p) (column_min_value_ p) (column_max_value_ p)).
Proof. intros Hn. unfold column_str_arg. by rewrite Hn. Qed.

(** A column generator is made with the parameters that were asked for, when the seed or
    the step is given. *)
Lemma column_generators_made {E} `{Uniform E} (random_device : Z) (p : GeneratorColumnParams) (v : Z) :
  0 ≤ entry_bit_size_ p < 2 ^ 64 → (∀ m, column_min_value_ p = Some m → 0 ≤ m < 2 ^ 31) →
  (∀ m, column_max_value_ p = Some m → 0 ≤ m < 2 ^ 32) → (column_min_value_ p = None → column_max_value_ p = None) →
  (generator_name_ (column_common_params_ p) = column_random_generator → column_seed_ p = Some v → 0 ≤ v < 2 ^ 64 →
    create_random_entry random_device (column_str_arg p) =
    RandomEntry.make (entry_bit_size_ p) v (column_min_value_ p) (column_max_value_ p)) ∧
  (generator_name_ (column_common_params_ p) = column_positioned_generator → column_step_ p = Some v → - 2 ^ 31 ≤ v < 2 ^ 31 →
    create_positioned_entry (column_str_arg p) =
    PositionedEntry.make (entry_bit_size_ p) v (column_min_value_ p) (column_max_value_ p)).
Proof.
  intros Hb Hlo Hhi Hmm. split; intros Hn Hs Hv.
  - unfold create_random_entry. rewrite (column_str_arg_random p Hn).
    change (extract_unsigned 64) with (extract (unsigned 64)).
    rewrite (parse_args_text (unsigned 64) (fun v => 0 ≤ v < 2 ^ 64)).
    + unfold prefixed. cbn [arg_first arg_min arg_max arg_bits]. rewrite Hs. destruct (column_min_value_ p); cbn [rbind arg_first arg_min arg_max arg_bits default]; [done|].
      by rewrite Hmm.
    + intros x Hx. split; [lia|done].
    + split; cbn [arg_bits arg_first arg_min arg_max]; [done| |done|done]. intros x Hx. by simplify_eq.
  - unfold create_positioned_entry. rewrite (column_str_arg_positioned p Hn).
    change (extract_signed 32) with (extract (signed 32)).
    rewrite (parse_args_text (signed 32) (fun v => - 2 ^ 31 ≤ v < 2 ^ 31)).
    + unfold prefixed. cbn [arg_first arg_min arg_max arg_bits]. rewrite Hs. destruct (column_min_value_ p); cbn [rbind arg_first arg_min arg_max arg_bits default]; [done|].
      by rewrite Hmm.
    + intros x Hx. split; [lia|]. cbn [signed show]. unfold show_signed. by rewrite (proj2 (Z.ltb_ge x 0)) by lia.
    + split; cbn [arg_bits arg_first arg_min arg_max]; [done| |done|done]. intros x Hx. by simplify_eq.
Qed.

(** * The data on the disk *)

(** A name of a file: not empty, not an absolute path. *)
Definition is_name (q : chars) : Prop := match q with c :: _ => c ≠ slash | [] => False end.

Lemma path_append_inj (p q q' : chars) : is_name q → is_name q' → p // q = p // q' → q = q'.
Proof.
  unfold path_append. destruct q as [|c q]; [done|]. destruct q' as [|c' q']; [done|]. cbn. intros Hc Hc'.
  rewrite (proj2 (Z.eqb_neq c slash)), (proj2 (Z.eqb_neq c' slash)) by done. case_bool_decide; intros E%app_inv_head; congruence.
Qed.

Lemma put_file_same (path : chars) (data : list Z) (d : Disk) : put_file path data d path = Some data.
Proof. unfold put_file. by rewrite decide_True. Qed.

Lemma put_file_other (path q : chars) (data : list Z) (d : Disk) : q ≠ path → put_file path data d q = d q.
Proof. intros Hq. unfold put_file. by rewrite decide_False. Qed.

(** Two different files of a directory. *)
Ltac names := by (intros ?%path_append_inj; [discriminate|done|done]).
Ltac disk := repeat first [rewrite put_file_same | rewrite put_file_other by names].

Section disk.
Context {E : Type} `{Uniform E} (random_device : Z) (print_f : spec_float → chars) (double : Format spec_float) (zero : spec_float)
  (mmap : Z → bool) (can_write : chars → bool) (order : list Z → list (Z * Z)).
Context (finite : spec_float → Prop) `{!FormatLaws double finite}.
Context (Hmap : maps_files mmap) (Hwr : ∀ p, can_write p = true).

Lemma store_files_put (info_path data_path : chars) (files : chars * list Z) (d : Disk) :
  store_files can_write info_path data_path files d = (put_file data_path files.2 (put_file info_path files.1 d), Ok tt).
Proof. unfold store_files, mbind, write_data. by rewrite !Hwr. Qed.

Lemma load_files_found {I V} (parse : InfoFiles.file → result I) (load : I → list Z → result V)
    (data_path info_path text : chars) (data : list Z) (info : I) (v : V) (d : Disk) :
  d data_path = Some data → d info_path = Some text → data ≠ [] → parse (Some text) = Ok info → load info data = Ok v →
  load_files mmap parse load data_path info_path d = (d, Ok (v, info)).
Proof.
  intros Hd Hi Hn Hp Hl. unfold load_files, MappedFile, MappedData_whole. rewrite Hd, Hi. cbn [of_option rbind]. rewrite Hmap by lia.
  rewrite (proj2 (Z.ltb_lt _ _)) by (destruct data; [done|cbn [length]; lia]). cbn [rbind]. rewrite Hp. cbn [rbind]. by rewrite Hl.
Qed.

(** The disk holds a column in the directory [root]. *)
Record holds_column (d : Disk) (root : chars) (column : bit_compressed) (info : ColumnsInfo.t) : Prop := {
  hc_data : d (root // column_default_name) = Some (write_words (data_ column));
  hc_info : d (root // column_info_default_name) = Some (ColumnsInfo.store_to_file info);
  hc_owned : owned_column column info;
  hc_bits : 0 ≤ ColumnsInfo.entry_bit_size info < 2 ^ 64;
  hc_count : 0 ≤ ColumnsInfo.entry_count info < 2 ^ 32;
  hc_some : data_ column ≠ [];
}.

Lemma column_found (d : Disk) (root : chars) (column : bit_compressed) (info : ColumnsInfo.t) :
  holds_column d root column info → get_column_with_info mmap root d = (d, Ok (column, info)).
Proof.
  intros [Hd Hi Ho Hb Hc Hs]. unfold get_column_with_info. eapply load_files_found; [done|done| |by apply columns_info_read|by apply load_column].
  destruct (data_ column); [done|]. unfold write_words. intros Hn%(f_equal length). rewrite length_bytes_of_words in Hn. cbn in Hn. lia.
Qed.

(** What is found is returned, whatever was asked for. *)
Lemma get_existing_column (d : Disk) (params : GeneratorColumnParams) (column : bit_compressed) (info : ColumnsInfo.t) :
  holds_column d (root_ (column_common_params_ params)) column info →
  get_or_create_test_columns random_device mmap can_write params d = (d, Ok column).
Proof.
  intros Hc. unfold get_or_create_test_columns, exists_file. rewrite (hc_data _ _ _ _ Hc), bool_decide_eq_true_2 by done.
  erewrite mbind_ok by reflexivity. by erewrite mbind_ok by by apply column_found.
Qed.

(** A column that is created is stored and returned. *)
Lemma create_column (d : Disk) (params : GeneratorColumnParams) (column : bit_compressed)
    (builder : chars → result (ColumnsInfo.t → result bit_compressed)) (generator : ColumnsInfo.t → result bit_compressed) :
  let root := root_ (column_common_params_ params) in
  let info := ColumnsInfo.mk (entry_bit_size_ params) (entry_count_ params) in
  d (root // column_default_name) = None →
  CommonFactory.create (column_builders random_device) (generator_name_ (column_common_params_ params)) = Ok builder →
  builder (column_str_arg params) = Ok generator → generator info = Ok column →
  owned_column column info → 0 ≤ entry_bit_size_ params < 2 ^ 64 → 0 ≤ entry_count_ params < 2 ^ 32 → data_ column ≠ [] →
  ∃ d', get_or_create_test_columns random_device mmap can_write params d = (d', Ok column) ∧ holds_column d' root column info ∧
    ∀ q, q ≠ root // column_default_name → q ≠ root // column_info_default_name → d' q = d q.
Proof.
  intros root info Hn Hb Hg Hc Ho H1 H2 Hs.
  set (d' := put_file (root // column_default_name) (write_words (data_ column))
               (put_file (root // column_info_default_name) (ColumnsInfo.store_to_file info) d)).
  assert (Hh : holds_column d' root column info).
  { split; [| |done|done|done|done]; unfold d'; by disk. }
  exists d'. split; [|split; [done|]].
  - unfold get_or_create_test_columns, exists_file. fold root. rewrite Hn, bool_decide_eq_false_2 by by intros [].
    erewrite (mbind_ok _ _ d d').
    + by erewrite mbind_ok by by apply column_found.
    + unfold mlift, create_directory. erewrite mbind_ok by by rewrite Hwr. erewrite mbind_ok by by rewrite Hb. erewrite mbind_ok by by rewrite Hg. fold info.
      erewrite mbind_ok by by rewrite Hc. by rewrite store_files_put.
  - intros q Hq1 Hq2. unfold d'. by rewrite !put_file_other.
Qed.

(** The disk holds ranges, and the golden vectors of requests. *)
Record holds_ranges (d : Disk) (root prefix : chars) (ranges : list RangeOperation) (selectivities : list spec_float) : Prop := {
  hr_data : d (root // (prefix ++ scan_range_suffix_bin)) =
    Some (ranges ≫= fun r => write_words [range_start r; range_end r]);
  hr_info : d (root // (prefix ++ scan_range_suffix_info)) = Some (store_ranges_info double (make_ranges_info selectivities));
  hr_words : Forall range_words ranges;
  hr_length : length ranges = length selectivities;
  hr_finite : Forall finite selectivities;
  hr_some : ranges ≠ [];
}.

Record holds_golden (d : Disk) (root prefix : chars) (bits : list bit_vector_view) (rows : list (list Z)) : Prop := {
  hg_bits : d (root // (prefix ++ bit_vec_suffix_bin)) = Some (store_vectors bits_data bits);
  hg_bits_info : d (root // (prefix ++ bit_vec_suffix_info)) = Some (VectorOfVectorsInfo.store_to_file (max_value_ <$> bits));
  hg_rows : d (root // (prefix ++ index_vec_suffix_bin)) = Some (store_vectors (fun v => v) rows);
  hg_rows_info : d (root // (prefix ++ index_vec_suffix_info)) =
    Some (VectorOfVectorsInfo.store_to_file ((fun v => Z.of_nat (length v)) <$> rows));
  hg_owned : Forall owned_bits bits ∧ store_vectors bits_data bits ≠ [];
  hg_words : Forall words rows ∧ Forall (fun v => Z.of_nat (length v) < 2 ^ 64) rows ∧ store_vectors (fun v => v) rows ≠ [];
}.

Lemma ranges_found (d : Disk) (root prefix : chars) (ranges : list RangeOperation) (selectivities : list spec_float) :
  holds_ranges d root prefix ranges selectivities →
  get_mmap_scan_ranges double zero mmap root prefix d = (d, Ok (ranges, make_ranges_info selectivities)).
Proof.
  intros [Hd Hi Hw Hl Hf Hs]. unfold get_mmap_scan_ranges.
  eapply load_files_found; [done|done| |by apply (ranges_info_read double finite)|].
  - by destruct ranges.
  - unfold RangesIO.load_from_file. rewrite view_ranges by done. cbn [make_ranges_info num_requests_]. by rewrite Hl, Z.eqb_refl.
Qed.

Lemma golden_found (d : Disk) (root prefix : chars) (bits : list bit_vector_view) (rows : list (list Z)) (b : bool) :
  holds_golden d root prefix bits rows →
  load_golden mmap b root prefix d = (d, Ok (if b then bit_vectors bits else index_vectors rows)).
Proof.
  intros [Hb Hbi Hr Hri [Ho Hbn] (Hw & Hl & Hrn)]. unfold load_golden, get_mmap_bit_vectors, get_mmap_index_vectors. destruct b.
  - etrans; [eapply mbind_ok, load_files_found; [done|done|done| |]|done].
    + apply sizes_info_read. apply Forall_fmap. eapply Forall_impl; [exact Ho|]. intros v (_ & Hv & _). cbn. lia.
    + apply (load_bits (fun z => z)); [done|]. by rewrite list_fmap_id.
  - etrans; [eapply mbind_ok, load_files_found; [done|done|done| |by apply load_indices]|done].
    apply sizes_info_read. apply Forall_fmap. eapply Forall_impl; [exact Hl|]. cbn. lia.
Qed.

Lemma get_existing_ranges (d : Disk) (params : GeneratorRangesParams) (ranges : list RangeOperation) (selectivities : list spec_float) :
  holds_ranges d (root_ (ranges_common_params_ params)) (default [] (filename_prefix_ (ranges_common_params_ params))) ranges selectivities →
  get_or_create_test_scan_ranges random_device print_f double zero mmap can_write params d = (d, Ok ranges).
Proof.
  intros Hr. unfold get_or_create_test_scan_ranges, exists_file. rewrite (hr_data _ _ _ _ _ Hr), bool_decide_eq_true_2 by done.
  erewrite mbind_ok by reflexivity. by erewrite mbind_ok by by apply ranges_found.
Qed.

(** The files of requests in the directory of a column. *)
Definition inputs : chars := inputs_filename_prefix.

Lemma compute_golden (root : chars) (bits : list bit_vector_view) (rows : list (list Z)) (d : Disk) :
  Forall owned_bits bits ∧ store_vectors bits_data bits ≠ [] →
  Forall words rows ∧ Forall (fun v => Z.of_nat (length v) < 2 ^ 64) rows ∧ store_vectors (fun v => v) rows ≠ [] →
  ∃ d', compute_and_store_golden can_write root inputs (Ok bits) (Ok rows) d = (d', Ok tt) ∧ holds_golden d' root inputs bits rows ∧
    ∀ q, q ∉ (fun suffix => root // (inputs ++ suffix)) <$> [bit_vec_suffix_bin; bit_vec_suffix_info; index_vec_suffix_bin; index_vec_suffix_info] →
      d' q = d q.
Proof.
  intros Hb Hr. eexists. split; [|split].
  - unfold compute_and_store_golden, mlift. cbn [ImdbGoldenVecGenerator.store_golden_bv ImdbGoldenVecGenerator.store_golden_iv rbind].
    erewrite mbind_ok by reflexivity. erewrite mbind_ok by apply store_files_put. erewrite mbind_ok by reflexivity. apply store_files_put.
  - split; [| | | |done|done]; cbn [BitVectorsIO.store_to_file IndexVectorsIO.store_to_file fst snd]; by disk.
  - intros q Hq. cbn [fmap list_fmap] in Hq. rewrite !not_elem_of_cons in Hq. destruct Hq as (H1 & H2 & H3 & H4 & _). by rewrite !put_file_other.
Qed.

Lemma holds_column_frame (d d' : Disk) (root : chars) (column : bit_compressed) (info : ColumnsInfo.t) :
  d' (root // column_default_name) = d (root // column_default_name) →
  d' (root // column_info_default_name) = d (root // column_info_default_name) →
  holds_column d root column info → holds_column d' root column info.
Proof. intros H1 H2 []. split; congruence. Qed.

Lemma holds_ranges_frame (d d' : Disk) (root prefix : chars) (ranges : list RangeOperation) (selectivities : list spec_float) :
  d' (root // (prefix ++ scan_range_suffix_bin)) = d (root // (prefix ++ scan_range_suffix_bin)) →
  d' (root // (prefix ++ scan_range_suffix_info)) = d (root // (prefix ++ scan_range_suffix_info)) →
  holds_ranges d root prefix ranges selectivities → holds_ranges d' root prefix ranges selectivities.
Proof. intros H1 H2 []. split; congruence. Qed.

(** The parameters of [generate_and_store_data]. *)
Definition ranges_params (root gen_name : chars) (selectivities : list spec_float) (seed : Z) (golden : bool) : GeneratorRangesParams :=
  mkRangesParams (mkCommon root (Some inputs_filename_prefix) gen_name) selectivities (Some seed) None golden.

(** The ranges that a generator makes for a column. *)
Definition makes_ranges (gen_name : chars) (seed : Z) (column : bit_compressed) (info : ColumnsInfo.t)
    (selectivities : list spec_float) (ranges : list RangeOperation) : Prop :=
  ∃ builder generator, CommonFactory.create (ranges_builders random_device double zero) gen_name = Ok builder ∧
    builder (request_str_arg print_f gen_name (Some seed) None) (Some column) = Ok generator ∧
    generator selectivities info = Ok ranges ∧
    Forall range_words ranges ∧ length ranges = length selectivities ∧ Forall finite selectivities ∧ ranges ≠ [].

(** What scans a column for the golden vectors. *)
Definition makes_golden (column : bit_compressed) (ranges : list RangeOperation) (bits : list bit_vector_view) (rows : list (list Z)) : Prop :=
  ImdbGoldenVecGenerator.scan_ranges_bv column ranges = Ok bits ∧ ImdbGoldenVecGenerator.scan_ranges_iv column ranges = Ok rows ∧
  (Forall owned_bits bits ∧ store_vectors bits_data bits ≠ []) ∧
  (Forall words rows ∧ Forall (fun v => Z.of_nat (length v) < 2 ^ 64) rows ∧ store_vectors (fun v => v) rows ≠ []).

Lemma create_ranges (d : Disk) (root gen_name : chars) (selectivities : list spec_float) (seed : Z) (golden : bool)
    (column : bit_compressed) (info : ColumnsInfo.t) (ranges : list RangeOperation) (bits : list bit_vector_view) (rows : list (list Z)) :
  holds_column d root column info → d (root // (inputs ++ scan_range_suffix_bin)) = None →
  makes_ranges gen_name seed column info selectivities ranges → makes_golden column ranges bits rows →
  ∃ d', get_or_create_test_scan_ranges random_device print_f double zero mmap can_write
          (ranges_params root gen_name selectivities seed golden) d = (d', Ok ranges) ∧
    holds_column d' root column info ∧ holds_ranges d' root inputs ranges selectivities ∧
    if golden then holds_golden d' root inputs bits rows
    else ∀ suffix, suffix = bit_vec_suffix_bin ∨ suffix = index_vec_suffix_bin →
           d' (root // (inputs ++ suffix)) = d (root // (inputs ++ suffix)).
Proof.
  intros Hc Hn (builder & generator & Hb & Hg & Hr & Hw & Hl & Hf & Hs) (Hbv & Hiv & Hbits & Hrows).
  set (d1 := put_file (root // (inputs ++ scan_range_suffix_bin)) (ranges ≫= fun r => write_words [range_start r; range_end r])
               (put_file (root // (inputs ++ scan_range_suffix_info)) (store_ranges_info double (make_ranges_info selectivities)) d)).
  assert (Hc1 : holds_column d1 root column info) by (eapply holds_column_frame; [| |exact Hc]; unfold d1; by disk).
  assert (Hr1 : holds_ranges d1 root inputs ranges selectivities) by (split; [| |done|done|done|done]; unfold d1; by disk).
  destruct (compute_golden root bits rows d1 Hbits Hrows) as (d2 & E2 & Hg2 & Hfr).
  assert (Hc2 : holds_column d2 root column info).
  { eapply holds_column_frame; [| |exact Hc1]; apply Hfr; cbn [fmap list_fmap]; rewrite !not_elem_of_cons; repeat split; (names || apply not_elem_of_nil). }
  assert (Hr2 : holds_ranges d2 root inputs ranges selectivities).
  { eapply holds_ranges_frame; [| |exact Hr1]; apply Hfr; cbn [fmap list_fmap]; rewrite !not_elem_of_cons; repeat split; (names || apply not_elem_of_nil). }
  exists (if golden then d2 else d1).
  unfold get_or_create_test_scan_ranges, ranges_str_arg, ranges_params, exists_file. cbn [ranges_common_params_ root_ filename_prefix_ generator_name_
    ranges_selectivities_ ranges_seed_ ranges_epsilon_ ranges_generate_golden_].
  change (default [] (Some inputs_filename_prefix)) with inputs. rewrite Hn, bool_decide_eq_false_2 by by intros [].
  split; [|destruct golden; [done|]; split; [done|]; split; [done|]; intros suffix [-> | ->]; unfold d1; by disk].
  erewrite (mbind_ok _ _ d (if golden then d2 else d1)).
  - etrans; [eapply mbind_ok, ranges_found|done]. by destruct golden.
  - erewrite mbind_ok by by apply column_found. cbn beta iota. unfold mlift. erewrite mbind_ok by by rewrite Hb.
    erewrite mbind_ok by by rewrite Hg. cbn [make_ranges_info selectivities_]. erewrite mbind_ok by by rewrite Hr.
    erewrite mbind_ok by apply store_files_put. cbn [RangesIO.store_to_file fst snd]. fold d1.
    destruct golden; [by rewrite Hbv, Hiv|done].
Qed.
End disk.

(** ** [generate_and_store_data] *)
Section generated.
Context {E : Type} `{Uniform E} (random_device : Z) (print_f : spec_float → chars) (double : Format spec_float) (zero : spec_float)
  (mmap : Z → bool) (can_write : chars → bool).
Context (columns_root column_generator pred_generator : chars) (bit_size column_size inputs_size : Z) (selectivity : spec_float).

Definition data_root : chars :=
  gen_root double columns_root column_generator pred_generator bit_size column_size inputs_size selectivity false.
Definition data_info : ColumnsInfo.t := ColumnsInfo.mk bit_size column_size.
Definition data_selectivities : list spec_float := replicate (Z.to_nat inputs_size) selectivity.

(** The column that a seed gives. *)
Definition makes_column (seed : Z) (column : bit_compressed) : Prop :=
  ∃ builder generator,
    CommonFactory.create (column_builders random_device) column_generator = Ok builder ∧
    builder (column_str_arg (column_params column_generator bit_size column_size data_root seed)) = Ok generator ∧
    generator data_info = Ok column ∧ owned_column column data_info ∧ data_ column ≠ [].

Definition generate (bits golden : bool) (seed : Z) : M Disk (bit_compressed * list RangeOperation * vectors) :=
  generate_and_store_ranges random_device print_f double zero mmap can_write columns_root column_generator pred_generator
    bit_size column_size inputs_size selectivity bits golden seed.
End generated.

Section consistent.
Context {E : Type} `{Uniform E} (random_device : Z) (print_f : spec_float → chars) (double : Format spec_float) (zero : spec_float)
  (mmap : Z → bool) (can_write : chars → bool) (finite : spec_float → Prop) `{!FormatLaws double finite}.
Context (Hmap : maps_files mmap) (Hwr : ∀ p, can_write p = true).
Context (columns_root column_generator pred_generator : chars) (bit_size column_size inputs_size : Z) (selectivity : spec_float).

Abbreviation root := (data_root double columns_root column_generator pred_generator bit_size column_size inputs_size selectivity).
Abbreviation generated := (generate random_device print_f double zero mmap can_write columns_root column_generator pred_generator
  bit_size column_size inputs_size selectivity).

(** What is on the disk is returned, whatever the seed is. *)
Lemma generate_existing (d : Disk) (column : bit_compressed) (ranges : list RangeOperation) (bits : list bit_vector_view)
    (rows : list (list Z)) (b golden : bool) (seed : Z) (selectivities : list spec_float) :
  holds_column d root column (data_info bit_size column_size) → holds_ranges double finite d root inputs ranges selectivities →
  (golden = true → holds_golden d root inputs bits rows) →
  generated b golden seed d =
  (d, Ok (column, ranges, if golden then if b then bit_vectors bits else index_vectors rows else no_vectors)).
Proof.
  intros Hc Hr Hg. unfold generate, generate_and_store_ranges.
  erewrite mbind_ok by (eapply (get_existing_column random_device mmap can_write Hmap); exact Hc).
  erewrite mbind_ok by (eapply (get_existing_ranges random_device print_f double zero mmap can_write finite Hmap); exact Hr).
  destruct golden; [|done]. erewrite mbind_ok by (apply (golden_found mmap Hmap); exact (Hg eq_refl)). done.
Qed.

(** Golden vectors that are not on the disk are not computed. *)
Lemma generate_without_golden (d : Disk) (column : bit_compressed) (ranges : list RangeOperation) (b : bool) (seed : Z)
    (selectivities : list spec_float) :
  holds_column d root column (data_info bit_size column_size) → holds_ranges double finite d root inputs ranges selectivities →
  d (root // (inputs ++ bit_vec_suffix_bin)) = None → d (root // (inputs ++ index_vec_suffix_bin)) = None →
  generated b true seed d = (d, Err IO).
Proof.
  intros Hc Hr Hb Hi. unfold generate, generate_and_store_ranges.
  erewrite mbind_ok by (eapply (get_existing_column random_device mmap can_write Hmap); exact Hc).
  erewrite mbind_ok by (eapply (get_existing_ranges random_device print_f double zero mmap can_write finite Hmap); exact Hr).
  unfold load_golden, get_mmap_bit_vectors, get_mmap_index_vectors, mbind, load_files. fold inputs.
  change (gen_root double columns_root column_generator pred_generator bit_size column_size inputs_size selectivity false) with root.
  destruct b; [by rewrite Hb|by rewrite Hi].
Qed.

Lemma generate_fresh (d : Disk) (seed : Z) (column : bit_compressed) (ranges : list RangeOperation) (bits : list bit_vector_view)
    (rows : list (list Z)) (golden : bool) :
  0 ≤ bit_size < 2 ^ 64 → 0 ≤ column_size < 2 ^ 32 →
  d (root // column_default_name) = None → d (root // (inputs ++ scan_range_suffix_bin)) = None →
  makes_column random_device double columns_root column_generator pred_generator bit_size column_size inputs_size selectivity seed column →
  makes_ranges random_device print_f double zero finite pred_generator seed column (data_info bit_size column_size)
    (data_selectivities inputs_size selectivity) ranges →
  makes_golden column ranges bits rows →
  ∃ d', (∀ b, generated b golden seed d =
      (d', Ok (column, ranges, if golden then if b then bit_vectors bits else index_vectors rows else no_vectors))) ∧
    holds_column d' root column (data_info bit_size column_size) ∧
    holds_ranges double finite d' root inputs ranges (data_selectivities inputs_size selectivity) ∧
    (golden = true → holds_golden d' root inputs bits rows) ∧
    (golden = false → ∀ suffix, suffix = bit_vec_suffix_bin ∨ suffix = index_vec_suffix_bin →
       d' (root // (inputs ++ suffix)) = d (root // (inputs ++ suffix))).
Proof.
  intros Hbs Hcs Hn1 Hn2 (cb & cg & Hcb & Hcg & Hcc & Hco & Hcn) Hmr Hmg.
  destruct (create_column random_device mmap can_write Hmap Hwr d
    (column_params column_generator bit_size column_size root seed) column cb cg) as (d1 & E1 & Hc1 & Hf1); try done.
  destruct (create_ranges random_device print_f double zero mmap can_write finite Hmap Hwr d1 root pred_generator
    (data_selectivities inputs_size selectivity) seed golden column (data_info bit_size column_size) ranges bits rows)
    as (d2 & E2 & Hc2 & Hr2 & Hg2); [done| |done|done|].
  { rewrite Hf1 by names. done. }
  assert (Hg : golden = true → holds_golden d2 root inputs bits rows) by by intros ->.
  exists d2. split; [|split; [done|split; [done|split; [done|]]]].
  - intros b. unfold generate, generate_and_store_ranges. erewrite mbind_ok by exact E1. erewrite mbind_ok by exact E2.
    destruct golden; [|done]. erewrite mbind_ok by (apply (golden_found mmap Hmap); exact (Hg eq_refl)). done.
  - intros -> suffix Hs. rewrite Hg2 by done. apply Hf1; destruct Hs as [-> | ->]; names.
Qed.
End consistent.

(** ** What a seed gives

    The values of a column and the ranges of requests, from the draws of an engine and
    without argument strings and factories. *)
Inductive column_kind := RandomColumn | PositionedColumn.

Definition column_kind_name (k : column_kind) : chars :=
  match k with RandomColumn => column_random_generator | PositionedColumn => column_positioned_generator end.

(** One draw of [bits] bits for every entry, or every seventh value modulo [2^bits]. *)
Definition column_values {E} `{Uniform E} (k : column_kind) (seed bits n : Z) : list Z :=
  match k with
  | RandomColumn => (draw (fun (e : E) _ => uni 0 (2 ^ bits - 1) e) (seeded seed) (range n)).1
  | PositionedColumn => (fun i => (7 * i) mod 2 ^ bits) <$> range n
  end.

Inductive ranges_kind := RandomRanges | PreciseRanges.

Definition ranges_kind_name (k : ranges_kind) : chars :=
  match k with RandomRanges => scan_ranges_generator_random | PreciseRanges => scan_ranges_generator_random_precise end.

(** Ranges of random requests have the length that the selectivity asks for and a drawn
    start that keeps them below [2^bits].  Precise ranges are the generator's for the
    seed, the values of the column and the default precision. *)
Definition drawn_ranges {E} `{Uniform E} (k : ranges_kind) (seed bits : Z) (values : list Z) (requests : Z) (selectivity : spec_float)
    (ranges : list RangeOperation) : Prop :=
  let n := Z.of_nat (length values) in
  match k with
  | RandomRanges => ∃ len, value_per_request_count (2 ^ bits) n selectivity = Ok len ∧ 0 ≤ len < 2 ^ bits ∧
      ranges = (fun v => mkRange v (v + len)) <$>
        (draw (fun (e : E) _ => uni 0 (2 ^ bits - 1 - len) e) (seeded seed) (range requests)).1
  | PreciseRanges =>
      create_precise_ranges default_epsilon seed values bits n (replicate (Z.to_nat requests) selectivity) = Ok ranges ∧
      Forall (fun r => 0 ≤ range_start r < 2 ^ 31 ∧ 0 ≤ range_end r < 2 ^ 31) ranges ∧
      Z.of_nat (length ranges) = requests
  end.

(** The rows of a column whose values are in a range. *)
Definition rows_in_range (values : list Z) (r : RangeOperation) : list Z :=
  filter (fun i => in_range r (default 0 (values !! Z.to_nat i)) = true) (range (Z.of_nat (length values))).

Section seeds.
Context {E : Type} `{UniformLaws E}.

Lemma column_values_ok (k : column_kind) (seed bits n : Z) : 0 < bits → 0 ≤ n →
  Forall (fun v => 0 ≤ v < 2 ^ bits) (column_values k seed bits n) ∧ Z.of_nat (length (column_values k seed bits n)) = n.
Proof.
  intros Hb Hn. assert (0 < 2 ^ bits) by (apply Z.pow_pos_nonneg; lia). destruct k; cbn [column_values]; split.
  - apply draw_forall. intros e x. pose proof (uni_range 0 (2 ^ bits - 1) e ltac:(lia)). lia.
  - rewrite draw_length, length_range. lia.
  - apply Forall_fmap, Forall_forall. intros i _. by apply Z.mod_pos_bound.
  - rewrite length_fmap, length_range. lia.
Qed.

(** The loop over the entries, with any generator that has a state. *)
Lemma random_column_drawn (bits n : Z) (g : RandomEntry.t E) : 0 ≤ n →
  create_random_column g (ColumnsInfo.mk bits n) =
  compressed_vector_of element_bits bits
    (draw (fun e (_ : Z) => uni (RandomEntry.distr_min g) (RandomEntry.distr_max g) e) (RandomEntry.engine_ g) (range n)).1.
Proof.
  intros Hn. unfold create_random_column, compressed_vector_of. cbn [ColumnsInfo.entry_bit_size ColumnsInfo.entry_count].
  rewrite draw_length, length_range, Z2Nat.id by done. destruct (compressed_vector element_bits bits n) as [c|e]; [|done]. cbn [rbind].
  destruct g as [lo hi e]. cbn [RandomEntry.distr_min RandomEntry.distr_max RandomEntry.engine_].
  assert (Hstep : ∀ c e j, set_random_entry (c, RandomEntry.mk lo hi e) j =
    let (v, e1) := uni lo hi e in let! column := set_value element_bits c j v in Ok (column, RandomEntry.mk lo hi e1)).
  { intros c' e' j. unfold set_random_entry, RandomEntry.apply. cbn [fst snd RandomEntry.distr_min RandomEntry.distr_max RandomEntry.engine_].
    by destruct (uni lo hi e'). }
  assert (Hloop : ∀ (k : nat) c e j,
    (let! (column, _) := rfold set_random_entry (c, RandomEntry.mk lo hi e) ((fun i => j + Z.of_nat i) <$> seq 0 k) in Ok column) =
    set_values element_bits c j (draw (fun e (_ : Z) => uni lo hi e) e ((fun i => j + Z.of_nat i) <$> seq 0 k)).1).
  { induction k as [|k IH]; intros c' e' j; [done|]. cbn [seq fmap list_fmap rfold draw]. rewrite Hstep.
    destruct (uni lo hi e') as [v e1]. rewrite Z.add_0_r.
    assert (Hseq : (fun i => j + Z.of_nat i) <$> seq 1 k = (fun i => j + 1 + Z.of_nat i) <$> seq 0 k).
    { rewrite <- fmap_S_seq, <- list_fmap_compose. apply list_fmap_ext. intros _ i _. cbn [compose]. lia. }
    rewrite Hseq. pose proof (fun c => IH c e1 (j + 1)) as IH'.
    destruct (draw _ e1 _) as [l e2]. cbn [fst set_values] in *.
    destruct (set_value element_bits c' j v) as [c2|err]; [|done]. cbn [rbind]. apply IH'. }
  exact (Hloop (Z.to_nat n) c e 0).
Qed.

(** A packed column is stored and loaded as it is. *)
Lemma packed_owned (bits : Z) (l : list Z) (c : bit_compressed) :
  1 ≤ bits < 32 → 0 < Z.of_nat (length l) < 2 ^ 32 → compressed_vector_of element_bits bits l = Ok c →
  owned_column c (ColumnsInfo.mk bits (Z.of_nat (length l))) ∧ data_ c ≠ [].
Proof.
  intros Hb Hn Hc. destruct (packed_values element_bits (or_introl eq_refl) bits l) as (c' & Hc' & Hw & Hcount & _); [done|nia|].
  assert (c' = c) as -> by congruence. destruct (packed_bits bits l c Hb ltac:(nia) Hc) as [Hbits Hsize].
  pose proof Hc as Hs. unfold compressed_vector_of in Hs. inv_result. destruct (set_values_shape _ _ _ _ Hs) as [_ Hlen].
  split; [split|].
  - apply (cw_words _ _ Hw).
  - exists a. cbn [ColumnsInfo.entry_bit_size ColumnsInfo.entry_count]. split; [done|]. split; [done|].
    unfold compressed_vector, make_compressed in E0. inv_result. replace (bits <? element_bits) with true in E0 by (unfold element_bits; lia).
    injection E0 as <-. unfold set_data. cbn [value_bits_ value_counts_ value_mask_].
    pose proof (cw_mask _ _ Hw) as Hm. rewrite Hbits in Hm. rewrite <- Hm, <- Hcount, <- Hbits at 1. by destruct c.
  - intros Hnil. unfold bits_of in Hsize. rewrite Hnil in Hsize. unfold EXTRA_BITS in Hsize. cbn in Hsize. lia.
Qed.

(** The factory makes the column of the seed: the argument string is read back. *)
Lemma column_made (random_device : Z) (double : Format spec_float) (columns_root pred_generator : chars)
    (k : column_kind) (bits n inputs_size seed : Z) (selectivity : spec_float) :
  1 ≤ bits < 32 → 0 < n < 2 ^ 32 → 0 ≤ seed < 2 ^ 64 →
  ∃ column, compressed_vector_of element_bits bits (column_values k seed bits n) = Ok column ∧
    makes_column random_device double columns_root (column_kind_name k) pred_generator bits n inputs_size selectivity seed column.
Proof.
  intros Hb Hn Hseed. destruct (column_values_ok k seed bits n) as [Hv Hl]; [lia|lia|].
  destruct (packed_values element_bits (or_introl eq_refl) bits (column_values k seed bits n)) as (c & Hc & _); [done|nia|].
  exists c. split; [done|]. destruct (packed_owned bits (column_values k seed bits n) c Hb) as [Ho Hd]; [by rewrite Hl|done|]. rewrite Hl in Ho.
  pose proof (entry_pow bits ltac:(lia)) as Hp.
  assert (Hp2 : 2 ^ 1 ≤ 2 ^ bits) by (apply Z.pow_le_mono_r; lia).
  set (p := column_params (column_kind_name k) bits n
    (data_root double columns_root (column_kind_name k) pred_generator bits n inputs_size selectivity) seed).
  assert (Emax : calc_entry_max_value bits = 2 ^ bits - 1)
    by (unfold calc_entry_max_value, u32; rewrite Z.shiftl_1_l, (Z.mod_small (2 ^ bits)), Z.mod_small by lia; done).
  destruct k; cbn [column_kind_name column_values] in *.
  - destruct (column_generators_made random_device p seed) as [Hg _]; [cbn; lia|done|done|done|].
    specialize (Hg eq_refl eq_refl Hseed).
    eexists _, _. split; [reflexivity|]. cbv beta. fold p. rewrite Hg. cbn [p column_params entry_bit_size_ column_min_value_ column_max_value_].
    unfold RandomEntry.make, validate_entry_gen_args. cbn [default from_option]. rewrite Emax.
    assert ((2 ^ bits - 1 <? 0) = false ∧ (2 ^ bits - 1 <? 2 ^ bits - 1) = false) as [E1 E2] by (rewrite !Z.ltb_ge; lia).
    cbn. rewrite E1, E2. cbn [orb rbind]. split; [reflexivity|]. split; [|done].
    unfold data_info. rewrite random_column_drawn by lia. exact Hc.
  - destruct (column_generators_made (E:=E) random_device p 7) as [_ Hg]; [cbn; lia|done|done|done|].
    specialize (Hg eq_refl eq_refl ltac:(lia)).
    assert (Hmk : ∃ g, PositionedEntry.make bits 7 None None = Ok g).
    { unfold PositionedEntry.make, validate_entry_gen_args. cbn [default from_option]. rewrite Emax.
      assert ((2 ^ bits - 1 <? 0) = false ∧ (2 ^ bits - 1 <? 2 ^ bits - 1) = false) as [E1 E2] by (rewrite !Z.ltb_ge; lia).
      cbn. rewrite E1, E2. cbn. by eexists. }
    destruct Hmk as (g & Hmk). cbn [p column_params entry_bit_size_ column_min_value_ column_max_value_] in Hg. rewrite Hmk in Hg.
    eexists _, _. split; [reflexivity|]. cbv beta. fold p. rewrite Hg. split; [reflexivity|]. split; [|done].
    unfold data_info. cbn [ColumnsInfo.entry_bit_size ColumnsInfo.entry_count].
    rewrite (create_column_spec bits n _ (fun i => (7 * i) mod 2 ^ bits)); [exact Hc|lia|lia|].
    intros i Hi. split; [|apply Z.mod_pos_bound; lia].
    destruct (positioned_value bits 7 None None g i) as (v & -> & Hr & Hmod); [lia|done|lia|lia|done|].
    destruct (positioned_make bits 7 None None g ltac:(lia) ltac:(done) Hmk) as (Em & EM & _ & Hst).
    cbn [default from_option] in Em, EM. rewrite Em, EM in *. f_equal.
    destruct (Hst ltac:(lia)) as [Elen Estep]. rewrite Elen in Estep.
    assert (Hs0 : 0 ≤ PositionedEntry.step_ g) by (rewrite Estep; apply Z.rem_nonneg; lia).
    rewrite (proj2 (Z.leb_le 0 _)) in Hmod by done. cbv zeta in Hmod.
    replace (2 ^ bits - 1 - 0 + 1) with (2 ^ bits) in Hmod by lia. rewrite Z.sub_0_r, Z.mod_small in Hmod by lia.
    rewrite Hmod. f_equal. lia.
Qed.

(** The entries of a packed column are its values. *)
Lemma packed_entries (bits : Z) (l : list Z) (c : bit_compressed) :
  1 ≤ bits < 32 → Z.of_nat (length l) < 2 ^ 32 → Forall (fun v => 0 ≤ v < 2 ^ bits) l →
  compressed_vector_of element_bits bits l = Ok c → column_entries c = Ok l.
Proof.
  intros Hb Hn Hl Hc. destruct (packed_column bits l Hb Hn Hl) as (c' & Hc' & Hw & Hcount & Hel).
  assert (c' = c) as -> by congruence. unfold column_entries. rewrite Hcount.
  rewrite (rmap_spec _ (fun i => default 0 (l !! Z.to_nat i))).
  - f_equal. unfold range. rewrite Nat2Z.id, <- list_fmap_compose. apply list_eq. intros i. rewrite list_lookup_fmap.
    destruct (l !! i) as [v|] eqn:Ei.
    + rewrite lookup_seq_lt by by eapply lookup_lt_Some. cbn. by rewrite Nat2Z.id, Ei.
    + apply lookup_ge_None in Ei. by rewrite lookup_seq_ge by done.
  - intros i Hi%elem_of_range. destruct (element_ok c Hw i) as [-> _]; [lia|]. by rewrite Hel.
Qed.

Lemma random_ranges_drawn {X} (bits n len : Z) (selectivity : spec_float) (xs : list X) : ∀ (e : E) (out : list RangeOperation),
  0 ≤ bits < 32 → value_per_request_count (2 ^ bits) n selectivity = Ok len → 0 ≤ len < 2 ^ bits →
  let d := draw (fun e (_ : X) => uni 0 (2 ^ bits - 1 - len) e) e xs in
  rfold (RandomRangesGen.next_range (2 ^ bits - 1) n) (e, out) (replicate (length xs) selectivity) =
  Ok (d.2, out ++ ((fun v => mkRange v (v + len)) <$> d.1)).
Proof.
  induction xs as [|x xs IH]; intros e out Hb Hlen Hl; cbv zeta; cbn [length replicate rfold draw fst snd fmap list_fmap]; [by rewrite app_nil_r|].
  pose proof (entry_pow bits Hb) as Hp. unfold RandomRangesGen.next_range at 1. unfold u32 at 1.
  rewrite Z.sub_add, Z.mod_small, Hlen by lia. cbn [rbind fst snd]. rewrite u64_small by lia. unfold u32 at 1. rewrite Z.mod_small by lia.
  pose proof (uni_range 0 (2 ^ bits - 1 - len) e ltac:(lia)) as Hu. destruct (uni 0 (2 ^ bits - 1 - len) e) as [v e1]. cbn [fst] in Hu.
  cbn [rbind]. unfold u32 at 1. rewrite Z.mod_small by lia. rewrite IH by done. cbv zeta.
  destruct (draw _ e1 xs) as [l e2]. cbn [fst snd fmap list_fmap]. by rewrite <- app_assoc.
Qed.

(** A seed without a precision is read back from the argument string. *)
Lemma seed_read (double : Format spec_float) (zero : spec_float) (finite : spec_float → Prop) `{!FormatLaws double finite}
    (print_f : spec_float → chars) (k : ranges_kind) (seed : Z) : 0 ≤ seed < 2 ^ 64 →
  parse_request_args double zero (request_str_arg print_f (ranges_kind_name k) (Some seed) None) = (Some seed, None).
Proof.
  intros Hs. unfold request_str_arg, parse_request_args.
  rewrite bool_decide_eq_true_2 by (destruct k; [by left|by right]). cbv iota.
  rewrite (read_bits seed []) by done. pose proof (extract_end (F := double) zero) as He.
  by destruct (extract double (Some []) zero) as [? [|]].
Qed.

(** The factory makes the ranges of the seed. *)
Lemma ranges_made (random_device : Z) (print_f : spec_float → chars) (double : Format spec_float) (zero : spec_float)
    (finite : spec_float → Prop) `{!FormatLaws double finite} (k : ranges_kind) (seed bits : Z) (l : list Z) (column : bit_compressed)
    (requests : Z) (selectivity : spec_float) (ranges : list RangeOperation) :
  1 ≤ bits ≤ 18 → Z.of_nat (length l) < 2 ^ 32 → Forall (fun v => 0 ≤ v < 2 ^ bits) l → 0 ≤ seed < 2 ^ 64 → 0 < requests →
  finite selectivity → compressed_vector_of element_bits bits l = Ok column →
  drawn_ranges k seed bits l requests selectivity ranges →
  makes_ranges random_device print_f double zero finite (ranges_kind_name k) seed column (data_info bits (Z.of_nat (length l)))
    (data_selectivities requests selectivity) ranges ∧
  Forall (fun r => 0 ≤ range_start r < 2 ^ 31 ∧ 0 ≤ range_end r < 2 ^ 31) ranges.
Proof.
  intros Hb Hn Hl Hseed Hreq Hfin Hc Hd. pose proof (entry_pow bits ltac:(lia)) as Hp.
  pose proof (seed_read double zero finite print_f k seed Hseed) as Hargs.
  assert (Hfin' : Forall finite (data_selectivities requests selectivity)) by by apply Forall_replicate.
  assert (Hsel : length (data_selectivities requests selectivity) = Z.to_nat requests) by apply length_replicate.
  assert (Hwords : ∀ rs, Forall (fun r => 0 ≤ range_start r < 2 ^ 31 ∧ 0 ≤ range_end r < 2 ^ 31) rs → Forall range_words rs).
  { intros rs Hr. eapply Forall_impl; [exact Hr|]. intros r [? ?]. repeat constructor; lia. }
  assert (Hne : ∀ rs : list RangeOperation, Z.of_nat (length rs) = requests → rs ≠ []) by (intros [|] ?; [cbn in *; lia|done]).
  destruct k; cbn [drawn_ranges ranges_kind_name] in *.
  - destruct Hd as (len & Hlen & Hr & ->).
    set (starts := (draw _ (seeded seed) (range requests)).1).
    assert (Hst : Forall (fun v => 0 ≤ v ≤ 2 ^ bits - 1 - len) starts)
      by (apply draw_forall; intros e x; apply uni_range; lia).
    assert (Hb' : Forall (fun r => 0 ≤ range_start r < 2 ^ 31 ∧ 0 ≤ range_end r < 2 ^ 31) ((fun v => mkRange v (v + len)) <$> starts)).
    { apply Forall_fmap. eapply Forall_impl; [exact Hst|]. cbn. intros v Hv. lia. }
    assert (Hlen' : length starts = Z.to_nat requests) by (unfold starts; by rewrite draw_length, length_range).
    split; [|done]. eexists _, _. split; [reflexivity|]. split; [reflexivity|]. split.
    + rewrite Hargs. cbn [fst default from_option data_info ColumnsInfo.entry_bit_size ColumnsInfo.entry_count].
      unfold RandomRangesGen.create_scan_ranges_impl. rewrite Z.shiftl_1_l, (u64_small (2 ^ bits)), u64_small by lia.
      pose proof (random_ranges_drawn bits (Z.of_nat (length l)) len selectivity (range requests) (seeded seed) [] ltac:(lia) Hlen Hr) as Hf.
      cbv zeta in Hf. rewrite length_range in Hf. unfold data_selectivities. cbn. by rewrite Hf.
    + split; [by apply Hwords|]. split; [by rewrite length_fmap, Hsel|]. split; [done|]. apply Hne. rewrite length_fmap. lia.
  - destruct Hd as (Hd & Hb' & Hlen). split; [|done]. eexists _, _. split; [reflexivity|]. split; [reflexivity|].
    split; [|split; [by apply Hwords|split; [lia|split; [done|by apply Hne]]]].
    rewrite (packed_entries bits l column) by (done || lia). cbn [rbind]. rewrite Hargs. exact Hd.
Qed.

(** The golden vectors of a packed column: the rows in every range. *)
Lemma golden_bits (bits : Z) (l : list Z) (column : bit_compressed) (r : RangeOperation) :
  1 ≤ bits ≤ 18 → 0 < Z.of_nat (length l) ≤ 2 ^ 32 - 8 → Forall (fun v => 0 ≤ v < 2 ^ bits) l →
  compressed_vector_of element_bits bits l = Ok column → range_start r < 2 ^ 31 → range_end r < 2 ^ 31 →
  (∃ b, AVX2Runner_range_bv column r = Ok b ∧ values element_bits b = Ok (rows_in_range l r) ∧ owned_bits b ∧ bits_data b ≠ []) ∧
  (Z.of_nat (length l) mod 8 = 0 → AVX2Runner_range_iv column r = Ok (rows_in_range l r)).
Proof.
  intros Hb Hn Hl Hc Hs He.
  destruct (packed_column bits l ltac:(lia) ltac:(lia) Hl) as (c & Hc' & Hw & Hcount & Hel). assert (c = column) as -> by congruence.
  destruct (packed_bits bits l column ltac:(lia) ltac:(nia) Hc) as [Hbits Hx].
  assert (Hrows : selected (fun i => in_range r (element column i)) (value_counts_ column) = rows_in_range l r).
  { unfold selected, rows_in_range. rewrite Hcount. apply list_filter_iff'. intros i Hi%elem_of_range. by rewrite Hel. }
  assert (H18 : value_bits_ column ≤ 18) by lia. assert (Hcnt : 0 ≤ value_counts_ column ≤ 2 ^ 32 - 8) by lia.
  assert (Hx' : value_bits_ column * value_counts_ column + EXTRA_BITS ≤ bits_of 32 (data_ column)) by by rewrite Hbits, Hcount.
  pose proof (agree_range r Hs He) as Hag. split.
  - destruct (bit_vector_spec element_bits (or_introl eq_refl) (value_counts_ column)) as (b0 & Hb0 & Hw0 & Hm0 & _); [lia..|].
    destruct (runner_bv column Hw H18 Hcnt Hx' _ _ Hag b0 Hw0 Hm0) as (k & d & n & Hk & Hsc & Hv).
    destruct (avx2_bv column Hw H18 Hcnt Hx' _ _ (fun data Hl' Hf => Hag data Hl' (small_fields column Hw H18 data Hf)) k (bits_data b0) Hk)
      as (d2 & Hd2 & Hdw & Hdl & _).
    { apply Hw0. }
    { pose proof (bw_size _ _ Hw0) as Hbs. rewrite Hm0 in Hbs. unfold bits_of in *. unfold blocks. change element_bits with 32 in Hbs. dlia. }
    rewrite Hsc in Hd2. injection Hd2 as <- _.
    exists (mkBits (max_value_ b0) d). unfold AVX2Runner_range_bv, scan_range_bv, in_range_scan_impl. rewrite Hb0. cbn [rbind].
    rewrite Hk. cbn [rbind]. rewrite Hsc. split; [done|]. split; [change element_bits with 32; by rewrite Hv, Hrows|].
    split; [split; [exact Hdw|]; cbn [max_value_ bits_data]; rewrite Hm0; split; [lia|]; by exists b0|].
    cbn [bits_data]. intros ->. pose proof (bw_size _ _ Hw0) as Hbs. unfold bits_of in Hbs. rewrite <- Hdl, Hm0 in Hbs. cbn in Hbs. lia.
  - intros Hmod. destruct (runner_iv column Hw H18 Hcnt Hx' _ _ Hag) as (k & out & Hk & Hsc & Ht); [by rewrite Hcount|].
    unfold AVX2Runner_range_iv, scan_range_iv, in_range_scan_impl. rewrite Hk. cbn [rbind]. rewrite Hsc. cbn [rbind].
    by rewrite Nat2Z.id, Ht, Hrows.
Qed.

Lemma golden_made (bits : Z) (l : list Z) (column : bit_compressed) (ranges : list RangeOperation) :
  1 ≤ bits ≤ 18 → 0 < Z.of_nat (length l) ≤ 2 ^ 32 - 8 → Z.of_nat (length l) mod 8 = 0 → Forall (fun v => 0 ≤ v < 2 ^ bits) l →
  compressed_vector_of element_bits bits l = Ok column →
  Forall (fun r => 0 ≤ range_start r < 2 ^ 31 ∧ 0 ≤ range_end r < 2 ^ 31) ranges →
  (∃ r, r ∈ ranges ∧ rows_in_range l r ≠ []) →
  ∃ bv, Forall2 (fun r b => values element_bits b = Ok (rows_in_range l r)) ranges bv ∧
    makes_golden column ranges bv (rows_in_range l <$> ranges).
Proof.
  intros Hb Hn Hmod Hl Hc Hr (r0 & Hr0 & Hne).
  set (scan r := match AVX2Runner_range_bv column r with Ok b => b | Err _ => mkBits 0 [] end).
  assert (Hscan : ∀ r, r ∈ ranges → AVX2Runner_range_bv column r = Ok (scan r) ∧ values element_bits (scan r) = Ok (rows_in_range l r) ∧
    owned_bits (scan r) ∧ bits_data (scan r) ≠ [] ∧ AVX2Runner_range_iv column r = Ok (rows_in_range l r)).
  { intros r Hin. pose proof (proj1 (Forall_forall _ _) Hr r Hin) as [? ?].
    destruct (golden_bits bits l column r) as [(b & Hb1 & Hb2 & Hb3 & Hb4) Hiv]; [done..|lia|lia|]. unfold scan. rewrite Hb1. specialize (Hiv Hmod). done. }
  assert (Hstored : ∀ {V} (data : V → list Z) (f : RangeOperation → V), data (f r0) ≠ [] → store_vectors data (f <$> ranges) ≠ []).
  { intros V data f Hd Hnil. destruct (data (f r0)) as [|w ws] eqn:Ew; [done|].
    assert (Hin : ∀ x, x ∈ write_words (data (f r0)) → x ∈ store_vectors data (f <$> ranges)).
    { intros x Hx. apply list_elem_of_bind. exists (f r0). split; [done|]. by apply list_elem_of_fmap_2. }
    rewrite Hnil, Ew in Hin.
    assert (Hlen : write_words (w :: ws) ≠ [])
      by (unfold write_words; intros Hw%(f_equal length); rewrite length_bytes_of_words in Hw; cbn in Hw; lia).
    destruct (write_words (w :: ws)) as [|x xs]; [done|]. specialize (Hin x ltac:(left)). by apply elem_of_nil in Hin. }
  exists (scan <$> ranges). split.
  { apply Forall2_fmap_r, Forall_Forall2_diag, Forall_forall. intros r Hin. by apply Hscan. }
  split; [|split; [|split; [|split; [|split]]]].
  - unfold ImdbGoldenVecGenerator.scan_ranges_bv. apply rmap_spec. intros r Hin. by apply Hscan.
  - unfold ImdbGoldenVecGenerator.scan_ranges_iv. apply rmap_spec. intros r Hin. by apply Hscan.
  - split; [|by apply Hstored, Hscan]. apply Forall_fmap, Forall_forall. intros r Hin. by apply Hscan.
  - apply Forall_fmap, Forall_forall. intros r _. apply Forall_forall. intros i [_ Hi%elem_of_range]%list_elem_of_filter. lia.
  - apply Forall_fmap, Forall_forall. intros r _. cbn. unfold rows_in_range.
    pose proof (length_filter (fun i => in_range r (default 0 (l !! Z.to_nat i)) = true) (range (Z.of_nat (length l)))) as Hf.
    rewrite length_range in Hf. lia.
  - by apply (Hstored _ (fun v => v)).
Qed.
End seeds.

(** Property C34.  Data for benchmarks of scans by ranges, in a directory that has none
    yet, for both generators of columns and of ranges, every engine and seed:
    [generate_and_store_data] returns the packed column of the values that the seed gives,
    drawn one by one or positioned, and the ranges that the seed gives for it.  With them
    come the golden vectors, which have for every range exactly the rows of the column
    whose values are in it, as index vectors or bit vectors.  Every later call returns the
    same data from the disk and writes nothing, whatever its seed, the type of vectors and
    the random device.  Except for one order of calls: when the first call was made without
    golden vectors, a later call that asks for them fails, since they are only computed
    together with new ranges.  The column has a multiple of eight entries of at most 18
    bits, and some row is selected, since an empty file cannot be mapped. *)
Theorem generated_data_is_consistent {E : Type} `{UniformLaws E} (random_device : Z) (print_f : spec_float → chars)
    (double : Format spec_float) (zero : spec_float) (mmap : Z → bool) (can_write : chars → bool)
    (finite : spec_float → Prop) `{!FormatLaws double finite}
    (columns_root : chars) (ck : column_kind) (rk : ranges_kind) (bit_size column_size inputs_size : Z) (selectivity : spec_float)
    (d : Disk) (seed : Z) (ranges : list RangeOperation) :
  let root := data_root double columns_root (column_kind_name ck) (ranges_kind_name rk) bit_size column_size inputs_size selectivity in
  let generate rd := generate rd print_f double zero mmap can_write columns_root (column_kind_name ck) (ranges_kind_name rk)
    bit_size column_size inputs_size selectivity in
  let vs := column_values ck seed bit_size column_size in
  maps_files mmap → (∀ p, can_write p = true) → finite selectivity → 0 ≤ seed < 2 ^ 64 →
  1 ≤ bit_size ≤ 18 → 0 < column_size ≤ 2 ^ 32 - 8 → column_size mod 8 = 0 → 0 < inputs_size →
  d (root // column_default_name) = None →
  Forall (fun suffix => d (root // (inputs ++ suffix)) = None) [scan_range_suffix_bin; bit_vec_suffix_bin; index_vec_suffix_bin] →
  drawn_ranges rk seed bit_size vs inputs_size selectivity ranges →
  (∃ r, r ∈ ranges ∧ rows_in_range vs r ≠ []) →
  ∃ column bits,
    compressed_vector_of element_bits bit_size vs = Ok column ∧
    Forall2 (fun r b => values element_bits b = Ok (rows_in_range vs r)) ranges bits ∧
    let data (b : bool) := (column, ranges, if b then bit_vectors bits else index_vectors (rows_in_range vs <$> ranges)) in
    (∃ d', (∀ b, generate random_device b true seed d = (d', Ok (data b))) ∧
           (∀ rd b seed', generate rd b true seed' d' = (d', Ok (data b)))) ∧
    (∃ d', (∀ b, generate random_device b false seed d = (d', Ok (column, ranges, no_vectors))) ∧
           (∀ rd b seed', generate rd b true seed' d' = (d', Err IO))).
Proof.
  intros root generate vs Hmap Hwr Hfin Hseed Hb Hn Hmod Hreq Hn1 Hn2 Hd Hsome.
  destruct (column_values_ok ck seed bit_size column_size) as [Hv Hl]; [lia|lia|]. fold vs in Hv, Hl.
  destruct (column_made random_device double columns_root (ranges_kind_name rk) ck bit_size column_size inputs_size seed selectivity)
    as (column & Hc & Hmc); [lia|lia|done|]. fold vs in Hc.
  destruct (ranges_made random_device print_f double zero finite rk seed bit_size vs column inputs_size selectivity ranges)
    as [Hmr Hrb]; [done|lia|done..|]. rewrite Hl in Hmr.
  destruct (golden_made bit_size vs column ranges) as (bits & Hbits & Hg); [lia|lia|by rewrite Hl|done..|].
  exists column, bits. split; [done|]. split; [done|]. cbv zeta.
  rewrite !Forall_cons in Hn2. destruct Hn2 as (Hn2 & Hn3 & Hn4 & _). split.
  - destruct (generate_fresh random_device print_f double zero mmap can_write finite Hmap Hwr columns_root (column_kind_name ck)
      (ranges_kind_name rk) bit_size column_size inputs_size selectivity d seed column ranges bits (rows_in_range vs <$> ranges) true)
      as (d' & Eg & H1 & H2 & H3 & _); [lia|lia|done..|].
    exists d'. split; [exact Eg|]. intros rd b seed'.
    by apply (generate_existing rd print_f double zero mmap can_write finite Hmap _ _ _ _ _ _ _ _ _ _ bits _ b true seed' _ H1 H2).
  - destruct (generate_fresh random_device print_f double zero mmap can_write finite Hmap Hwr columns_root (column_kind_name ck)
      (ranges_kind_name rk) bit_size column_size inputs_size selectivity d seed column ranges bits (rows_in_range vs <$> ranges) false)
      as (d' & Eg & H1 & H2 & _ & H4); [lia|lia|done..|].
    exists d'. split; [exact Eg|]. intros rd b seed'.
    apply (generate_without_golden rd print_f double zero mmap can_write finite Hmap _ _ _ _ _ _ _ _ column ranges b seed' _ H1 H2);
      rewrite H4 by auto; done.
Qed.

(** A format in which one half is a word, enough for requests of half of the rows. *)
Definition half := f64_div (f64_of 1) (f64_of 2).

Definition half_text : Format spec_float :=
  {| show := fun _ => to_string 1;
     extract := fun s old => match extract_unsigned 64 s 0 with (_, Some rest) => (half, Some rest) | (_, None) => (old, None) end |}.

#[export] Instance half_laws : FormatLaws half_text (fun v => v = half).
Proof.
  assert (L : FormatLaws (unsigned 64) (fun v => 0 ≤ v < 2 ^ 64)) by apply _.
  split; cbn [half_text show extract].
  - intros v _. apply (show_word (F := unsigned 64) 1). lia.
  - intros v rest old -> Hr. pose proof (extract_show (F := unsigned 64) (valid := fun v => 0 ≤ v < 2 ^ 64) 1 rest 0 ltac:(done) Hr) as Ex.
    cbn [unsigned show extract] in Ex. unfold to_string in *. by rewrite Ex.
  - intros c s old Hc. pose proof (extract_space (F := unsigned 64) c s 0 Hc) as Ex. cbn [unsigned extract] in Ex. by rewrite Ex.
  - done.
  - done.
  - intros s old v rest Hx. destruct (extract_unsigned 64 (Some s) 0) as [x [r|]] eqn:E; [|done]. simplify_eq.
    apply (extract_progress (F := unsigned 64) (valid := fun v => 0 ≤ v < 2 ^ 64) s 0 x rest E).
Qed.

(** A positioned column of eight 4-bit entries, two random ranges for half of them. *)
Definition some_ranges : list RangeOperation := [mkRange 2 10; mkRange 3 11].

Lemma generated_data_is_consistent_witness :
  let generate rd := @generate Z lcg rd (fun _ => []) half_text half (fun n => 0 <? n) (fun _ => true) (str "data")
    column_positioned_generator scan_ranges_generator_random 4 8 2 half in
  let vs := [0; 7; 14; 5; 12; 3; 10; 1] in
  ∃ column bits,
    compressed_vector_of element_bits 4 vs = Ok column ∧
    Forall2 (fun r b => values element_bits b = Ok (rows_in_range vs r)) some_ranges bits ∧
    let data (b : bool) := (column, some_ranges, if b then bit_vectors bits else index_vectors (rows_in_range vs <$> some_ranges)) in
    (∃ d', (∀ b, generate 3 b true 42 (fun _ => None) = (d', Ok (data b))) ∧
           (∀ rd b seed', generate rd b true seed' d' = (d', Ok (data b)))) ∧
    (∃ d', (∀ b, generate 3 b false 42 (fun _ => None) = (d', Ok (column, some_ranges, no_vectors))) ∧
           (∀ rd b seed', generate rd b true seed' d' = (d', Err IO))).
Proof.
  intros generate vs.
  apply (@generated_data_is_consistent Z lcg lcg_laws 3 (fun _ => []) half_text half (fun n => 0 <? n) (fun _ => true) (fun v => v = half) half_laws
    (str "data") PositionedColumn RandomRanges 4 8 2 half (fun _ => None) 42 some_ranges).
  - by intros n _.
  - done.
  - reflexivity.
  - lia.
  - lia.
  - lia.
  - reflexivity.
  - lia.
  - reflexivity.
  - by repeat constructor.
  - exists 8. split; [vm_compute; reflexivity|]. split; [lia|]. vm_compute. reflexivity.
  - exists (mkRange 2 10). split; [left|]. vm_compute. discriminate.
Defined.
