(* ===== verification/DatagenSlsCache.v ===== *)
(** * Test data of the SLS benchmarks

    tools/datagen/sls/utils.h with the factories of tables, lengths, indices and golden
    vectors, and the functions of the generators' base classes that store what was
    generated.  The disk is that of DatagenCache.  Golden vectors of tables of [uint64_t]
    and [float] entries are a parameter; those of [uint32_t] entries are computed by
    DatagenSls. *)
From Stdlib Require Import String SpecFloat.
From S2P Require Import Prelude Topology Text WordMemory InfoFiles Allocators DataFiles Aes CpuSls DatagenPredicates DatagenSls Sysfs DatagenCache.

Definition tables_default_name : chars := str "embedding.bin".
Definition info_default_name : chars := str "embedding.info".
Definition indices_suffix_bin : chars := str ".indices.bin".
Definition indices_suffix_info : chars := str ".indices.info".
Definition golden_suffix_bin : chars := str ".golden.bin".

Record GeneratorWithOverflowParams := mkOverflowParams {
  max_num_lookup : Z;
  min_num_lookup : Z;
  mini_batch_size : Z;
  params_root : chars;
  params_prefix : chars;
  generator_lengths_name : chars;
  overflow_type : chars;
  generator_indices_name : chars;
  entry_type : chars
}.

(** [NumericEntry<float>]: the product of an integer and the single next to 0.01. *)
Definition seed_sparse_feature_val : spec_float := f32_of_bits 0x3c23d70a.

Definition FloatNumericEntry (knum_idx_values_ sparse_feature_size_ : Z) : EntryGen numeric := fun s _ _ _ =>
  let s := if counter_ s mod sparse_feature_size_ =? 0
           then mkNumeric (u64 (feature_id_ s + 1)) (counter_ s)
                  (bits_of_f32 (SFmul 24 128 (binary_normalize 24 128 (feature_id_ s mod knum_idx_values_ + 1) 0 false)
                                  seed_sparse_feature_val))
           else s in
  (sparse_feature_part_ s, mkNumeric (feature_id_ s) (u64 (counter_ s + 1)) (sparse_feature_part_ s)).

(** A golden vector from the bytes of tables and indices. *)
Definition Golden := list Z → TablesInfo.t → list Z → IndicesInfo.t → result (list Z).

Section factories.
Context {E : Type} `{Uniform E}.

(** The device's constants, and what a local variable holds that was not initialized.
    Every call of [std::random_device{}()] gives another number: the argument
    [random_device] of a generator is the one it draws. *)
Context (tp : Constants) (uninit : Z) (golden_uint64_t golden_float : Golden).

(** ** The factories *)

(** Two [uint32_t] arguments.  The remainders of [NumericEntry] are undefined for a zero,
    as soon as there is an entry. *)
Definition numeric_args (args : chars) : Z * Z :=
  let (kvalue, iss) := extract_unsigned 32 (Some args) uninit in
  let (sparse_feature_size, _) := extract_unsigned 32 iss uninit in (kvalue, sparse_feature_size).

Definition has_entries (info : TablesInfo.t) : bool :=
  (0 <? TablesInfo.cols_ info) && existsb (fun n => 0 <? n) (take (Z.to_nat (TablesInfo.num_tables_ info)) (TablesInfo.table_rows_ info)).

Definition numeric_tables (entry : Z → Z → EntryGen numeric) (args : chars) (info : TablesInfo.t) : result (list Z) :=
  let (kvalue, sparse_feature_size) := numeric_args args in
  if has_entries info && ((kvalue =? 0) || (sparse_feature_size =? 0)) then Err UndefinedBehaviour
  else create_tables (entry kvalue sparse_feature_size) numeric_start info.

Definition tables_builders (random_device : Z) : CommonFactory.t (chars → result (TablesInfo.t → result (list Z))) :=
  let f := CommonFactory.register_builder [] (str "random") (fun _ => Ok (create_tables RandomEntry (seeded random_device))) in
  let f := CommonFactory.register_builder f (str "position") (fun _ => Ok (create_tables PositionedEntry tt)) in
  let f := CommonFactory.register_builder f (str "float_tapp") (fun args => Ok (numeric_tables FloatNumericEntry args)) in
  let f := CommonFactory.register_builder f (str "uint32_t_tapp") (fun args => Ok (numeric_tables NumericEntry args)) in
  CommonFactory.register_builder f (str "fixed")
    (fun args => Ok (create_tables (FixedEntry (extract_unsigned 32 (Some args) uninit).1) tt)).

Definition lengths_builders (random_device : Z) : CommonFactory.t (chars → result (Z → option Z → Z → Z → list Z)) :=
  let f := CommonFactory.register_builder [] (str "random")
    (fun args => Ok (RandomLengthsGen tp (extract_signed 32 (Some args) uninit).1 random_device)) in
  CommonFactory.register_builder f (str "random_from_lookups_per_table") (fun _ => Ok (DuplicateRandomLengthsGen random_device)).

Definition indices_builders (random_device : Z) : CommonFactory.t (chars → result (IndicesInfo.t → TablesInfo.t → result (list Z))) :=
  let f := CommonFactory.register_builder [] (str "random") (fun _ => Ok (create_indices RandomIndicesGen random_device)) in
  CommonFactory.register_builder f (str "sequential") (fun _ => Ok (create_indices SequentialIndicesGen random_device)).

Definition golden_builders : CommonFactory.t Golden :=
  let f := CommonFactory.register_builder [] (str "uint32_t") compute_golden_sls in
  let f := CommonFactory.register_builder f (str "uint64_t") golden_uint64_t in
  CommonFactory.register_builder f (str "float") golden_float.

(** ** The disk *)
Context (mmap : Z → bool) (can_write : chars → bool).

Definition get_test_tables_mmap (root : chars) : M Disk (list Z * TablesInfo.t) :=
  load_files mmap (TablesInfo.load_from_file TablesInfo.empty) (fun _ data => Ok data)
    (root // tables_default_name) (root // info_default_name).

(** [ITablesGenerator::create_and_store] *)
Definition store_test_tables (root : chars) (info : TablesInfo.t) (generator : TablesInfo.t → result (list Z)) : M Disk unit :=
  do! data := mlift (generator info) in
  store_files can_write (root // info_default_name) (root // tables_default_name) (TablesInfo.store_to_file info, data).

Definition get_or_create_test_tables (random_device : Z) (root generator_name generator_args : chars) (sparse_feature_size num_tables emb_table_len : Z)
  : M Disk (list Z) := fun d =>
  (do! _ :=
     (if exists_file (root // tables_default_name) d then mret tt
      else
        do! _ := create_directory can_write root in
        do! builder := mlift (CommonFactory.create (tables_builders random_device) generator_name) in
        do! generator := mlift (builder generator_args) in
        store_test_tables root (TablesInfo.mk num_tables sparse_feature_size (replicate (Z.to_nat num_tables) (u32 emb_table_len))) generator) in
   do! (tables, _) := get_test_tables_mmap root in
   mret tables) d.

(** The bytes of the indices' file, which is opened as a stream. *)
Definition get_test_indices (root prefix : chars) : M Disk (list Z * IndicesInfo.t) := fun d =>
  (d, let! bin := of_option StdException (d (root // (prefix ++ indices_suffix_bin))) in
      let! info := IndicesInfo.load uninit (d (root // (prefix ++ indices_suffix_info))) in
      Ok (bin, info)).

(** [IIndicesGenerator::create_and_store] *)
Definition store_test_indices (root prefix : chars) (info : IndicesInfo.t) (tinfo : TablesInfo.t)
    (generator : IndicesInfo.t → TablesInfo.t → result (list Z)) : M Disk unit :=
  do! data := mlift (generator info tinfo) in
  store_files can_write (root // (prefix ++ indices_suffix_info)) (root // (prefix ++ indices_suffix_bin))
    (IndicesInfo.store_to_file info, bytes_of_words data).

Definition compute_and_store_golden_sls (root prefix : chars) (tables : list Z * TablesInfo.t) (indices : list Z * IndicesInfo.t)
    (generator : Golden) : M Disk unit :=
  do! golden := mlift (generator tables.1 tables.2 indices.1 indices.2) in
  write_data can_write (root // (prefix ++ golden_suffix_bin)) golden.

(** What [read] fills a vector of [n] words with: the bytes that are there, and zeros. *)
Definition read_words (n : Z) (bytes : list Z) : list Z :=
  words_of_bytes (take (Z.to_nat (4 * n)) bytes ++ replicate (Z.to_nat (4 * n) - length bytes) 0).

(** [std::accumulate] from [0ULL] *)
Definition index_count (lengths : list Z) : Z := fold_left (fun n len => u64 (n + len)) lengths 0.

Definition get_or_create_test_indices (lengths_device indices_device : Z) (params : GeneratorWithOverflowParams) : M Disk (list Z * list Z) := fun d =>
  let root := params_root params in
  let prefix := params_prefix params in
  (do! _ :=
     (if exists_file (root // (prefix ++ indices_suffix_bin)) d then mret tt
      else
        do! indices_builder := mlift (CommonFactory.create (indices_builders indices_device) (generator_indices_name params)) in
        do! indices_generator := mlift (indices_builder []) in
        do! lengths_builder := mlift (CommonFactory.create (lengths_builders lengths_device) (generator_lengths_name params)) in
        do! length_generator := mlift (lengths_builder (overflow_type params)) in
        do! tables := get_test_tables_mmap root in
        let lengths := length_generator (TablesInfo.num_tables_ tables.2) (Some (min_num_lookup params)) (max_num_lookup params)
                         (u64 (mini_batch_size params)) in
        let info := IndicesInfo.make (u64 (mini_batch_size params)) lengths in
        do! _ := store_test_indices root prefix info tables.2 indices_generator in
        do! indices := get_test_indices root prefix in
        do! generator := mlift (CommonFactory.create golden_builders (entry_type params)) in
        compute_and_store_golden_sls root prefix tables indices generator) in
   do! (bin, info) := get_test_indices root prefix in
   mret (IndicesInfo.lengths_ info, read_words (index_count (IndicesInfo.lengths_ info)) bin)) d.

Definition get_golden_vector (root prefix : chars) : M Disk (list Z) := fun d =>
  (d, of_option StdException (d (root // (prefix ++ golden_suffix_bin)))).
End factories.

(** * Names of files *)
Lemma suffix_ne (p s q : chars) : take (length s) (reverse q) ≠ reverse s → p ++ s ≠ q.
Proof. intros Hn <-. apply Hn. rewrite reverse_app, <- (length_reverse s). apply take_app_length. Qed.

(** A prefix that does not make a name an absolute path. *)
Definition is_prefix (p : chars) : Prop := head p ≠ Some slash.

Lemma prefixed_name (p s : chars) : is_prefix p → is_name s → is_name (p ++ s).
Proof. destruct p as [|c p]; [done|]. unfold is_prefix. cbn. congruence. Qed.

(** Two different files of a directory, some of which may have a prefix. *)
Ltac sls_names := intros ?%path_append_inj; [| by (done || apply prefixed_name) | by (done || apply prefixed_name)];
  first [ match goal with H : ?p ++ _ = ?p ++ _ |- _ => apply app_inv_head in H; discriminate end
        | match goal with H : _ ++ _ = _ |- _ => revert H; apply suffix_ne; discriminate end
        | match goal with H : _ = _ ++ _ |- _ => symmetry in H; revert H; apply suffix_ne; discriminate end
        | discriminate ].
Ltac sls_disk := repeat first [rewrite put_file_same | rewrite put_file_other by sls_names].

(** * Reading indices back *)
Lemma index_count_sum (lens : list Z) : ∀ n, 0 ≤ n → Forall (Z.le 0) lens → n + foldr Z.add 0 lens < 2 ^ 64 →
  fold_left (fun n len => u64 (n + len)) lens n = n + foldr Z.add 0 lens.
Proof.
  induction lens as [|len lens IH]; intros n Hn Hl Hs; cbn [fold_left foldr] in *; [lia|]. apply Forall_cons in Hl as [H1 H2].
  assert (0 ≤ foldr Z.add 0 lens) by (clear -H2; induction H2; cbn [foldr]; lia).
  unfold u64 at 2. rewrite Z.mod_small by lia. rewrite IH by (done || lia). lia.
Qed.

Lemma sum_all_lengths (qs : list request) : foldr Z.add 0 (all_lengths qs) = Z.of_nat (length (all_indices qs)).
Proof.
  assert (Happ : ∀ l l', foldr Z.add 0 (l ++ l') = foldr Z.add 0 l + foldr Z.add 0 l').
  { intros l l'. induction l as [|x l IH]; cbn [app foldr]; lia. }
  assert (Hb : ∀ bs, foldr Z.add 0 (lengths_of bs) = Z.of_nat (length (concat bs))).
  { induction bs as [|b bs IH]; [done|]. unfold lengths_of in *. cbn [fmap list_fmap foldr concat]. rewrite length_app. lia. }
  unfold all_lengths, all_indices. induction qs as [|q qs IH]; [done|]. cbn [fmap list_fmap concat].
  rewrite Happ, length_app, Hb, IH. lia.
Qed.

Lemma read_words_all (l : list Z) : words l → read_words (Z.of_nat (length l)) (bytes_of_words l) = l.
Proof.
  intros Hl. unfold read_words. rewrite length_bytes_of_words.
  replace (Z.to_nat (4 * Z.of_nat (length l))) with (4 * length l)%nat by lia. rewrite Nat.sub_diag, app_nil_r.
  rewrite take_ge by (rewrite length_bytes_of_words; lia). by apply words_bytes_roundtrip.
Qed.

(** * The data on the disk *)
Record holds_tables (d : Disk) (root : chars) (info : TablesInfo.t) (data : list Z) : Prop := {
  ht_data : d (root // tables_default_name) = Some data;
  ht_info : d (root // info_default_name) = Some (TablesInfo.store_to_file info);
  ht_num : 0 ≤ TablesInfo.num_tables_ info < 2 ^ 64;
  ht_cols : 0 ≤ TablesInfo.cols_ info < 2 ^ 64;
  ht_rows : words (TablesInfo.table_rows_ info);
  ht_some : data ≠ [];
}.

Record holds_indices (d : Disk) (root prefix : chars) (mb : Z) (qs : list request) (golden : list Z) : Prop := {
  hi_data : d (root // (prefix ++ indices_suffix_bin)) = Some (bytes_of_words (all_indices qs));
  hi_info : d (root // (prefix ++ indices_suffix_info)) = Some (IndicesInfo.store_to_file (IndicesInfo.make mb (all_lengths qs)));
  hi_golden : d (root // (prefix ++ golden_suffix_bin)) = Some golden;
}.

(** Lengths and indices that files can hold. *)
Record indices_fit (mb : Z) (qs : list request) : Prop := {
  fit_mb : 0 ≤ mb < 2 ^ 64;
  fit_lengths : words (all_lengths qs);
  fit_indices : words (all_indices qs);
  fit_count : Z.of_nat (length (all_indices qs)) < 2 ^ 64;
}.

Section disk.
Context {E : Type} `{Uniform E} (tp : Constants) (uninit : Z) (golden_uint64_t golden_float : Golden).
Context (mmap : Z → bool) (can_write : chars → bool) (Hmap : maps_files mmap) (Hwr : ∀ p, can_write p = true).

Abbreviation test_tables := (get_or_create_test_tables uninit mmap can_write).
Abbreviation test_indices := (get_or_create_test_indices tp uninit golden_uint64_t golden_float mmap can_write).

Lemma tables_found (d : Disk) (root : chars) (info : TablesInfo.t) (data : list Z) :
  holds_tables d root info data → get_test_tables_mmap mmap root d = (d, Ok (data, info)).
Proof.
  intros [Hd Hi Hn Hc Hr Hs]. eapply (load_files_found mmap Hmap); [exact Hd|exact Hi|done| |done].
  rewrite tables_info_read by done. by destruct info.
Qed.

Lemma get_existing_tables (rd : Z) (d : Disk) (root name args : chars) (cols n len : Z) (info : TablesInfo.t) (data : list Z) :
  holds_tables d root info data → test_tables rd root name args cols n len d = (d, Ok data).
Proof.
  intros Ht. unfold get_or_create_test_tables, exists_file. rewrite (ht_data _ _ _ _ Ht), bool_decide_eq_true_2 by done.
  erewrite mbind_ok by reflexivity. by erewrite mbind_ok by by apply tables_found.
Qed.

Lemma create_test_tables (rd : Z) (d : Disk) (root name args : chars) (cols n len : Z) (data : list Z)
    (builder : chars → result (TablesInfo.t → result (list Z))) (generator : TablesInfo.t → result (list Z)) :
  let info := TablesInfo.mk n cols (replicate (Z.to_nat n) (u32 len)) in
  d (root // tables_default_name) = None → CommonFactory.create (tables_builders uninit rd) name = Ok builder →
  builder args = Ok generator → generator info = Ok data → 0 ≤ n < 2 ^ 64 → 0 ≤ cols < 2 ^ 64 → data ≠ [] →
  ∃ d', test_tables rd root name args cols n len d = (d', Ok data) ∧ holds_tables d' root info data ∧
    ∀ q, q ≠ root // tables_default_name → q ≠ root // info_default_name → d' q = d q.
Proof.
  intros info Hn Hb Hg Hd H1 H2 Hs.
  set (d' := put_file (root // tables_default_name) data (put_file (root // info_default_name) (TablesInfo.store_to_file info) d)).
  assert (Hh : holds_tables d' root info data).
  { split; [unfold d'; by disk|unfold d'; by disk|done|done| |done]. cbn [info TablesInfo.table_rows_].
    apply Forall_replicate. unfold u32. apply Z.mod_pos_bound. lia. }
  exists d'. split; [|split; [done|intros q Hq1 Hq2; unfold d'; by rewrite !put_file_other]].
  unfold get_or_create_test_tables, exists_file. rewrite Hn, bool_decide_eq_false_2 by by intros [].
  erewrite (mbind_ok _ _ d d').
  - by erewrite mbind_ok by by apply tables_found.
  - unfold mlift, create_directory, store_test_tables. erewrite mbind_ok by by rewrite Hwr. erewrite mbind_ok by by rewrite Hb.
    erewrite mbind_ok by by rewrite Hg. fold info. unfold mlift. erewrite mbind_ok by by rewrite Hd. by rewrite store_files_put.
Qed.

Lemma indices_found (d : Disk) (root prefix : chars) (mb : Z) (qs : list request) :
  d (root // (prefix ++ indices_suffix_bin)) = Some (bytes_of_words (all_indices qs)) →
  d (root // (prefix ++ indices_suffix_info)) = Some (IndicesInfo.store_to_file (IndicesInfo.make mb (all_lengths qs))) →
  indices_fit mb qs →
  get_test_indices uninit root prefix d = (d, Ok (bytes_of_words (all_indices qs), IndicesInfo.make mb (all_lengths qs))).
Proof.
  intros Hd Hi [H1 H2 H3 H4]. unfold get_test_indices. rewrite Hd, Hi. cbn [of_option rbind].
  by rewrite (indices_info_read uninit mb (all_lengths qs)) by done.
Qed.

Lemma indices_read_back (mb : Z) (qs : list request) : indices_fit mb qs →
  read_words (index_count (all_lengths qs)) (bytes_of_words (all_indices qs)) = all_indices qs.
Proof.
  intros [H1 H2 H3 H4]. unfold index_count. rewrite index_count_sum, sum_all_lengths.
  - by apply read_words_all.
  - done.
  - eapply Forall_impl; [exact H2|]. cbv beta. lia.
  - rewrite sum_all_lengths. lia.
Qed.

Lemma get_existing_indices (lrd ird : Z) (d : Disk) (params : GeneratorWithOverflowParams) (mb : Z) (qs : list request) (golden : list Z) :
  holds_indices d (params_root params) (params_prefix params) mb qs golden → indices_fit mb qs →
  test_indices lrd ird params d = (d, Ok (all_lengths qs, all_indices qs)).
Proof.
  intros [Hd Hi Hg] Hf. unfold get_or_create_test_indices, exists_file. cbv zeta. rewrite Hd, bool_decide_eq_true_2 by done.
  erewrite mbind_ok by reflexivity. erewrite mbind_ok by (apply (indices_found d _ _ mb qs); done). cbn beta iota.
  cbn [IndicesInfo.make IndicesInfo.lengths_]. by rewrite (indices_read_back mb).
Qed.

Lemma create_test_indices (lrd ird : Z) (d : Disk) (params : GeneratorWithOverflowParams) (tinfo : TablesInfo.t) (tables : list Z)
    (qs : list request) (golden : list Z)
    (ib : chars → result (IndicesInfo.t → TablesInfo.t → result (list Z))) (ig : IndicesInfo.t → TablesInfo.t → result (list Z))
    (lb : chars → result (Z → option Z → Z → Z → list Z)) (lg : Z → option Z → Z → Z → list Z) (gg : Golden) :
  let (root, prefix) := (params_root params, params_prefix params) in
  let mb := u64 (mini_batch_size params) in
  let info := IndicesInfo.make mb (all_lengths qs) in
  is_prefix prefix → holds_tables d root tinfo tables → d (root // (prefix ++ indices_suffix_bin)) = None →
  CommonFactory.create (indices_builders ird) (generator_indices_name params) = Ok ib → ib [] = Ok ig →
  CommonFactory.create (lengths_builders tp uninit lrd) (generator_lengths_name params) = Ok lb →
  lb (overflow_type params) = Ok lg →
  lg (TablesInfo.num_tables_ tinfo) (Some (min_num_lookup params)) (max_num_lookup params) mb = all_lengths qs →
  ig info tinfo = Ok (all_indices qs) →
  CommonFactory.create (golden_builders golden_uint64_t golden_float) (entry_type params) = Ok gg →
  gg tables tinfo (bytes_of_words (all_indices qs)) info = Ok golden → indices_fit mb qs →
  ∃ d', test_indices lrd ird params d = (d', Ok (all_lengths qs, all_indices qs)) ∧
    holds_tables d' root tinfo tables ∧ holds_indices d' root prefix mb qs golden.
Proof.
  destruct params as [hi lo mbs root prefix ln ot inn et]. cbn [params_root params_prefix mini_batch_size generator_indices_name
    generator_lengths_name overflow_type min_num_lookup max_num_lookup entry_type].
  intros Hp Ht Hn Hib Hig Hlb Hlg Hl Hi Hgb Hg Hf.
  set (d1 := put_file (root // (prefix ++ indices_suffix_bin)) (bytes_of_words (all_indices qs))
    (put_file (root // (prefix ++ indices_suffix_info)) (IndicesInfo.store_to_file (IndicesInfo.make (u64 mbs) (all_lengths qs))) d)).
  set (d2 := put_file (root // (prefix ++ golden_suffix_bin)) golden d1).
  assert (Hh2 : holds_indices d2 root prefix (u64 mbs) qs golden) by (split; unfold d2, d1; by sls_disk).
  assert (Ht2 : holds_tables d2 root tinfo tables).
  { destruct Ht. split; try done; unfold d2, d1; by sls_disk. }
  exists d2. split; [|done]. unfold get_or_create_test_indices, exists_file.
  cbn [params_root params_prefix mini_batch_size generator_indices_name generator_lengths_name overflow_type min_num_lookup max_num_lookup entry_type].
  cbv zeta. rewrite Hn, bool_decide_eq_false_2 by by intros [].
  erewrite (mbind_ok _ _ d d2).
  - erewrite mbind_ok by (apply (indices_found d2 _ _ (u64 mbs) qs); [apply Hh2|apply Hh2|done]). cbn beta iota.
    cbn [IndicesInfo.make IndicesInfo.lengths_]. by rewrite (indices_read_back (u64 mbs)).
  - unfold mlift. erewrite mbind_ok by by rewrite Hib. erewrite mbind_ok by by rewrite Hig. erewrite mbind_ok by by rewrite Hlb.
    erewrite mbind_ok by by rewrite Hlg. erewrite mbind_ok by by apply tables_found. cbn [snd]. rewrite Hl.
    erewrite (mbind_ok _ _ d d1).
    + erewrite mbind_ok by (apply (indices_found d1 _ _ (u64 mbs) qs); [unfold d1; by sls_disk|unfold d1; by sls_disk|done]).
      erewrite mbind_ok by by rewrite Hgb. unfold compute_and_store_golden_sls, mlift. cbn [fst snd].
      erewrite mbind_ok by by rewrite Hg. unfold write_data. by rewrite Hwr.
    + unfold store_test_indices, mlift. erewrite mbind_ok by by rewrite Hi. by rewrite store_files_put.
Qed.
End disk.

(** * Generated data *)

(** The indices of well-formed requests are words, and tables with an entry are not empty. *)
Lemma indices_words (cols mb : nat) (qs : list request) :
  Forall (CpuSls.request_ok cols mb) qs → Forall (fun n => n ≤ 2 ^ 32) (rows_counts qs) → words (all_indices qs).
Proof.
  intros Hq Hr. unfold rows_counts in Hr. rewrite Forall_fmap in Hr. apply Forall_concat, Forall_fmap.
  eapply Forall_impl; [exact (proj2 (Forall_and _ _) (conj Hq Hr))|]. intros q [(_ & _ & Hi) Hn]. cbn in Hn |- *.
  apply Forall_concat. eapply Forall_impl; [exact Hi|]. intros l Hl. eapply Forall_impl; [exact Hl|]. cbv beta. lia.
Qed.

Lemma words_some (cols mb n : nat) (len : Z) (qs : list request) :
  Forall (CpuSls.request_ok cols mb) qs → rows_counts qs = replicate n len → (0 < n)%nat → 0 < len → (0 < cols)%nat →
  bytes_of_words (all_words qs) ≠ [].
Proof.
  intros Hq Hr Hn Hl Hc. destruct n as [|n]; [lia|]. destruct qs as [|[[|r rows] ids] qs]; [done|cbn in Hr; simplify_eq; lia|].
  apply Forall_cons in Hq as [(Hw & _) _]. cbn [fst] in Hw. apply Forall_cons in Hw as [Hw _]. destruct r as [|w r]; [cbn in Hw; lia|]. done.
Qed.

(** * The generators by name *)

(** A request for tables: the generator and its arguments. *)
Inductive tables_source :=
  | RandomTables
  | PositionTables
  | FixedTables (value : Z)
  | NumericTables (kvalue sparse_feature_size : Z).

Definition tables_name (src : tables_source) : chars :=
  match src with
  | RandomTables => str "random"
  | PositionTables => str "position"
  | FixedTables _ => str "fixed"
  | NumericTables _ _ => str "uint32_t_tapp"
  end.

Definition tables_args (src : tables_source) : chars :=
  match src with
  | RandomTables | PositionTables => []
  | FixedTables value => to_string value
  | NumericTables kvalue sparse_feature_size => to_string kvalue ++ 32 :: to_string sparse_feature_size
  end.

Definition source_ok (src : tables_source) : Prop :=
  match src with
  | RandomTables | PositionTables => True
  | FixedTables value => 0 ≤ value < 2 ^ 32
  | NumericTables kvalue sparse_feature_size => 0 < kvalue < 2 ^ 32 ∧ 0 < sparse_feature_size < 2 ^ 32
  end.

(** The entries at a list of positions: one draw of 16 bits for each; a number made of the
    position; always the same number; or the numbers from 1 to [kvalue] and from 1 again,
    each for [sparse_feature_size] entries. *)
Definition tables_entries {E} `{Uniform E} (src : tables_source) (seed : Z) (ps : list (Z * Z * Z)) : list Z :=
  match src with
  | RandomTables => (draw (fun (e : E) _ => uni 0 (2 ^ 16 - 1) e) (seeded seed) ps).1
  | PositionTables => (fun p => (2 ^ 16 * p.1.1 + 2 ^ 8 * p.1.2 + p.2) mod 2 ^ 32) <$> ps
  | FixedTables value => (fun _ => value) <$> ps
  | NumericTables kvalue sparse_feature_size =>
      imap (fun i _ => Z.of_nat i / sparse_feature_size mod kvalue + 1) ps
  end.

Inductive lengths_source := RandomLengths (type_ : Z) | DuplicateLengths.

Definition lengths_name (src : lengths_source) : chars :=
  match src with RandomLengths _ => str "random" | DuplicateLengths => str "random_from_lookups_per_table" end.

Definition lengths_args (src : lengths_source) : chars :=
  match src with RandomLengths type_ => show_signed type_ | DuplicateLengths => [] end.

Definition lengths_ok (src : lengths_source) : Prop :=
  match src with RandomLengths type_ => -1 ≤ type_ < 2 ^ 31 | DuplicateLengths => True end.

Definition lengths_drawn {E} `{Uniform E} (tp : Constants) (src : lengths_source) (seed num_tables lo hi mb : Z) : list Z :=
  match src with
  | RandomLengths type_ => random_lengths (E:=E) tp type_ seed num_tables lo hi mb
  | DuplicateLengths => duplicate_random_lengths (E:=E) seed num_tables lo hi mb
  end.

Inductive indices_source := RandomIndices | SequentialIndices.

Definition indices_name (src : indices_source) : chars :=
  match src with RandomIndices => str "random" | SequentialIndices => str "sequential" end.

(** The indices of all batches: for every lookup one draw below the number of rows of its
    table, or for every batch the rows from the first. *)
Definition indices_drawn {E} `{Uniform E} (src : indices_source) (seed : Z) (rows : list Z) (groups : list (list Z)) : list Z :=
  match src with
  | RandomIndices => (draw (fun (e : E) size => uni 0 (size - 1) e) (seeded seed) (lookups rows groups)).1
  | SequentialIndices => concat groups ≫= range
  end.

Lemma read_first (W v : Z) (rest : chars) (old : Z) : (W = 32 ∨ W = 64) → 0 ≤ v < 2 ^ W → ends_value rest →
  extract_unsigned W (Some (to_string v ++ rest)) old = (v, Some rest).
Proof.
  intros [-> | ->] Hv Hr;
    [apply (extract_show (F := unsigned 32) (valid := fun v => 0 ≤ v < 2 ^ 32) v rest old Hv Hr)
    |apply (extract_show (F := unsigned 64) (valid := fun v => 0 ≤ v < 2 ^ 64) v rest old Hv Hr)].
Qed.

Lemma draw_pure {X} (next : unit → X → Z * unit) (f : X → Z) (xs : list X) :
  (∀ x, x ∈ xs → (next tt x).1 = f x) → (draw next tt xs).1 = f <$> xs.
Proof.
  induction xs as [|x xs IH]; intros Hf; cbn [draw fmap list_fmap]; [done|].
  pose proof (Hf x ltac:(left)) as Hv. destruct (next tt x) as [v []]. cbn [fst] in Hv. subst v.
  rewrite <- IH by (intros y Hy; apply Hf; by right). by destruct (draw next tt xs).
Qed.

(** The factory makes the generator that was asked for. *)
Lemma tables_generator_made {E} `{UniformLaws E} (src : tables_source) (rd uninit : Z) (info : TablesInfo.t) :
  source_ok src → TablesInfo.num_tables_ info = Z.of_nat (length (TablesInfo.table_rows_ info)) →
  let ps := positions (TablesInfo.table_rows_ info) (TablesInfo.cols_ info) in
  Forall (fun p => 0 ≤ p.1.1 < 2 ^ 32 ∧ 0 ≤ p.1.2 < 2 ^ 32 ∧ 0 ≤ p.2 < 2 ^ 32) ps → Z.of_nat (length ps) < 2 ^ 64 →
  ∃ builder generator S (entry : EntryGen S) start,
    CommonFactory.create (tables_builders uninit rd) (tables_name src) = Ok builder ∧
    builder (tables_args src) = Ok generator ∧ generator info = create_tables entry start info ∧
    (draw (entry_at entry) start ps).1 = tables_entries src rd ps ∧ words (tables_entries src rd ps).
Proof.
  intros Hok Hnum ps Hps Hlen. destruct src as [| |value|k s]; cbn [source_ok] in Hok.
  - eexists _, _, E, RandomEntry, (seeded rd). do 4 (split; [reflexivity|]). cbn [tables_entries]. apply draw_forall.
    intros e x. pose proof (uni_range 0 (2 ^ 16 - 1) e ltac:(lia)). cbv beta. lia.
  - eexists _, _, unit, PositionedEntry, tt. do 3 (split; [reflexivity|]). split.
    + cbn [tables_entries]. apply draw_pure. intros [[t r] c] Hp.
      pose proof (proj1 (Forall_forall _ _) Hps _ Hp) as (H1 & H2 & H3). cbn [fst snd] in H1, H2, H3.
      unfold entry_at, PositionedEntry. cbn [fst snd]. rewrite !Z.shiftl_mul_pow2 by lia.
      rewrite !u64_small by (rewrite ?u64_small; lia). unfold u32. f_equal. lia.
    + cbn [tables_entries]. apply Forall_fmap, Forall_forall. intros p _. cbn. apply Z.mod_pos_bound. lia.
  - eexists _, _, unit, (FixedEntry value), tt. split; [reflexivity|]. cbn [tables_args]. split; [reflexivity|].
    rewrite <- (app_nil_r (to_string value)), read_first by (done || by left). split; [reflexivity|]. cbn [tables_entries]. split.
    + by apply draw_pure.
    + apply Forall_fmap, Forall_forall. intros p _. exact Hok.
  - destruct Hok as [Hk Hs]. eexists _, _, numeric, (NumericEntry k s), numeric_start. split; [reflexivity|].
    cbn [tables_args]. split; [reflexivity|]. split.
    + unfold numeric_tables, numeric_args. rewrite read_first by (done || lia || by left).
      rewrite <- (app_nil_r (to_string s)), (read_u 32) by (done || lia || by left).
      rewrite (proj2 (Z.eqb_neq k 0)), (proj2 (Z.eqb_neq s 0)), andb_false_r by lia. done.
    + cbn [tables_entries]. split.
      * rewrite (numeric_drawn k s ps 0); try done; try lia. cbn [numeric_start feature_id_]. symmetry. apply Z.div_small. lia.
      * apply Forall_lookup. intros i v. rewrite list_lookup_imap, fmap_Some. intros (p & _ & ->).
        pose proof (Z.mod_pos_bound (Z.of_nat i / s) k ltac:(lia)). lia.
Qed.

Lemma lengths_generator_made {E} `{UniformLaws E} (tp : Constants) (src : lengths_source) (rd uninit num_tables lo hi mb : Z) :
  lengths_ok src → 0 < num_tables < 2 ^ 32 → 0 ≤ lo < 2 ^ 32 → 0 ≤ hi < 2 ^ 32 →
  ∃ builder generator,
    CommonFactory.create (lengths_builders tp uninit rd) (lengths_name src) = Ok builder ∧
    builder (lengths_args src) = Ok generator ∧
    generator num_tables (Some lo) hi mb = lengths_drawn tp src rd num_tables lo hi mb.
Proof.
  intros Hok Hn Hlo Hhi. destruct src as [type_|]; eexists _, _; (split; [reflexivity|]); (split; [reflexivity|]);
    cbn [lengths_args lengths_drawn].
  - cbn [lengths_ok] in Hok. rewrite <- (app_nil_r (show_signed type_)).
    pose proof (extract_show (F := signed 32) (valid := fun v => - 2 ^ 31 ≤ v < 2 ^ 31) type_ [] uninit ltac:(cbv beta; lia) I) as Hx. cbn [signed extract show] in Hx.
    rewrite Hx. apply random_lengths_drawn; done || lia.
  - by apply duplicate_lengths_drawn.
Qed.

Lemma indices_generator_made {E} `{UniformLaws E} (src : indices_source) (rd : Z) (info : TablesInfo.t) (mb : Z) (groups : list (list Z)) :
  lengths_fit mb (TablesInfo.table_rows_ info) groups →
  ∃ gen, BatchGenLaws (E:=E) gen ∧
    CommonFactory.create (indices_builders rd) (indices_name src) = Ok (fun _ => Ok (create_indices gen rd)) ∧
    create_indices gen rd (IndicesInfo.make mb (concat groups)) info =
      Ok (indices_drawn src rd (TablesInfo.table_rows_ info) groups).
Proof.
  intros Hg. destruct src; [exists RandomIndicesGen|exists SequentialIndicesGen]; (split; [apply _|]); (split; [reflexivity|]);
    [by apply random_indices_drawn|by apply sequential_indices_drawn].
Qed.

(** The words of generated tables: as many positions as entries, and not too many. *)
Lemma positions_bounds (num_tables len cols : Z) :
  0 ≤ num_tables < 2 ^ 32 → 0 ≤ len < 2 ^ 32 → 0 ≤ cols < 2 ^ 32 →
  let ps := positions (replicate (Z.to_nat num_tables) len) cols in
  Forall (fun p => 0 ≤ p.1.1 < 2 ^ 32 ∧ 0 ≤ p.1.2 < 2 ^ 32 ∧ 0 ≤ p.2 < 2 ^ 32) ps ∧
  Z.of_nat (length ps) = num_tables * len * cols.
Proof.
  intros Hn Hl Hc. unfold positions. rewrite length_replicate.
  assert (Hrow : ∀ t, 0 ≤ t < 2 ^ 32 → let row := table_positions cols t len in
    Forall (fun p => 0 ≤ p.1.1 < 2 ^ 32 ∧ 0 ≤ p.1.2 < 2 ^ 32 ∧ 0 ≤ p.2 < 2 ^ 32) row ∧ Z.of_nat (length row) = len * cols).
  { intros t Ht. unfold table_positions. split.
    - apply Forall_concat, Forall_fmap, Forall_forall. intros r Hr%elem_of_range. cbn.
      apply Forall_fmap, Forall_forall. intros c Hc'%elem_of_range. cbn. lia.
    - assert (Hlen : len = Z.of_nat (length (range len))) by (rewrite length_range; lia). rewrite Hlen at 2. clear Ht Hlen.
      induction (range len) as [|r rs IH]; [done|]. cbn [fmap list_fmap concat length].
      rewrite length_app, length_fmap, length_range, Nat2Z.inj_add, IH. lia. }
  fold (table_positions cols). set (m := Z.to_nat num_tables).
  assert (Hall : ∀ (ts : list Z), Forall (fun t => 0 ≤ t < 2 ^ 32) ts → length ts = m →
    let ps := concat (zip_with (table_positions cols) ts (replicate m len)) in
    Forall (fun p => 0 ≤ p.1.1 < 2 ^ 32 ∧ 0 ≤ p.1.2 < 2 ^ 32 ∧ 0 ≤ p.2 < 2 ^ 32) ps ∧ Z.of_nat (length ps) = Z.of_nat m * len * cols).
  { clear -Hrow. induction m as [|m IH]; intros [|t ts] Ht Hts; try done; cbn [replicate zip_with concat].
    apply Forall_cons in Ht as [Ht Hts']. destruct (Hrow t Ht) as [H1 H2]. destruct (IH ts Hts' ltac:(cbn in Hts; lia)) as [H3 H4].
    cbv zeta in *. split; [by apply Forall_app|]. rewrite length_app, Nat2Z.inj_add, H2, H4. lia. }
  destruct (Hall (range (Z.of_nat m))) as [H1 H2].
  - apply Forall_forall. intros t Ht%elem_of_range. lia.
  - rewrite length_range. lia.
  - split; [exact H1|]. etrans; [exact H2|]. unfold m. lia.
Qed.

(** Property C32.  Data for SLS benchmarks of [uint32_t] tables, in a directory without
    tables and without indices of the given prefix, for four generators of tables, both
    generators of lengths and both generators of indices, every engine and whatever the
    random device gives to each of them, when every batch has fewer lookups than its table
    has rows.  [get_or_create_test_tables] returns the words that the generator has for the
    positions (table, row, column) in order.  [get_or_create_test_indices] then returns the
    lengths that were drawn and the indices that were drawn for them, batch by batch as
    many as the lengths say and all of them rows of their tables.  The golden vector on the
    disk holds for every table and batch the sum of the rows that are looked up.  Every
    later call, whatever its other parameters and the random device, returns the same
    tables, lengths and indices and writes nothing. *)
Theorem sls_data_is_consistent {E} `{UniformLaws E} (tp : Constants) (uninit : Z) (golden_uint64_t golden_float : Golden)
    (mmap : Z → bool) (can_write : chars → bool) (d : Disk) (params : GeneratorWithOverflowParams)
    (tsrc : tables_source) (lsrc : lengths_source) (isrc : indices_source) (tables_device lengths_device indices_device : Z)
    (cols num_tables len : Z) (groups : list (list Z)) :
  let tables rd := get_or_create_test_tables uninit mmap can_write rd (params_root params) in
  let indices := get_or_create_test_indices tp uninit golden_uint64_t golden_float mmap can_write in
  let mb := mini_batch_size params in
  let rows := replicate (Z.to_nat num_tables) len in
  maps_files mmap → (∀ p, can_write p = true) → is_prefix (params_prefix params) →
  d (params_root params // tables_default_name) = None →
  d (params_root params // (params_prefix params ++ indices_suffix_bin)) = None →
  0 < num_tables < 2 ^ 32 → 0 < cols < 2 ^ 32 → 0 < len < 2 ^ 32 → 0 < mb < 2 ^ 31 →
  num_tables * len * cols < 2 ^ 64 → source_ok tsrc → lengths_ok lsrc →
  0 ≤ min_num_lookup params < 2 ^ 32 → 0 ≤ max_num_lookup params < 2 ^ 32 →
  generator_lengths_name params = lengths_name lsrc → overflow_type params = lengths_args lsrc →
  generator_indices_name params = indices_name isrc → entry_type params = str "uint32_t" →
  lengths_drawn tp lsrc lengths_device num_tables (min_num_lookup params) (max_num_lookup params) mb = concat groups →
  lengths_fit mb rows groups → foldr Z.add 0 (concat groups) < 2 ^ 64 →
  ∃ d1 d2 qs,
    tables tables_device (tables_name tsrc) (tables_args tsrc) cols num_tables len d = (d1, Ok (bytes_of_words (all_words qs))) ∧
    all_words qs = tables_entries tsrc tables_device (positions rows cols) ∧
    indices lengths_device indices_device params d1 = (d2, Ok (concat groups, all_indices qs)) ∧
    all_indices qs = indices_drawn isrc indices_device rows groups ∧
    rows_counts qs = rows ∧ all_lengths qs = concat groups ∧
    Forall (CpuSls.request_ok (Z.to_nat cols) (Z.to_nat mb)) qs ∧
    get_golden_vector (params_root params) (params_prefix params) d2 = (d2, Ok (bytes_of_words (all_sums (Z.to_nat cols) id qs))) ∧
    (∀ rd name args c n l, tables rd name args c n l d2 = (d2, Ok (bytes_of_words (all_words qs)))) ∧
    (∀ lrd ird params', params_root params' = params_root params → params_prefix params' = params_prefix params →
       indices lrd ird params' d2 = (d2, Ok (concat groups, all_indices qs))).
Proof.
  intros tables indices mb rows Hmap Hwr Hp Hn1 Hn2 Hnum Hcols Hlen Hmb Hbig Hsrc Hlok Hlo Hhi Hln Hla Hin Het Hl Hfit Hsum.
  set (info := TablesInfo.mk num_tables cols rows).
  destruct (positions_bounds num_tables len cols) as [Hpb Hpl]; [lia..|]. fold rows in Hpb, Hpl.
  assert (Hnl : TablesInfo.num_tables_ info = Z.of_nat (length (TablesInfo.table_rows_ info)))
    by (cbn [info TablesInfo.num_tables_ TablesInfo.table_rows_]; unfold rows; rewrite length_replicate; lia).
  destruct (tables_generator_made tsrc tables_device uninit info Hsrc Hnl) as (tb & tg & S & entry & start & Htb & Htg & Hgen & Hent & Hw);
    [exact Hpb|cbn [info TablesInfo.table_rows_ TablesInfo.cols_]; lia|].
  destruct (lengths_generator_made tp lsrc lengths_device uninit num_tables _ _ mb Hlok Hnum Hlo Hhi) as (lb & lg & Hlb & Hlg & Hld).
  destruct (indices_generator_made isrc indices_device info mb groups Hfit) as (gen & Hgl & Hib & Hid).
  cbn [info TablesInfo.table_rows_ TablesInfo.cols_] in Hent, Hw, Hid.
  destruct (golden_is_sums entry start gen indices_device info mb groups) as (ids & qs & Ht & Haw & Hi & -> & Hrc & Hal & Hq & Hg);
    [change (words (draw (entry_at entry) start (positions rows cols)).1); by rewrite Hent|lia|cbn; lia| |done|done|].
  { apply Forall_replicate. lia. }
  cbn [info TablesInfo.table_rows_ TablesInfo.cols_] in Haw, Hrc, Hq, Hg. rewrite Hent in Haw.
  assert (Hai : all_indices qs = indices_drawn isrc indices_device rows groups) by congruence.
  assert (Hmb' : u64 (mini_batch_size params) = mb) by (unfold u64; rewrite Z.mod_small; [done|unfold mb in *; lia]).
  assert (Hlen' : u32 len = len) by (unfold u32; rewrite Z.mod_small; [done|lia]).
  assert (Hif : indices_fit mb qs).
  { split; [lia| | |].
    - rewrite Hal. apply Forall_concat. eapply Forall2_Forall_r; [exact Hfit|]. apply Forall_forall. intros n _ g (_ & Hs & Hg').
      eapply Forall_impl; [exact Hg'|]. cbv beta. lia.
    - apply (indices_words _ _ _ Hq). rewrite Hrc. apply Forall_replicate. lia.
    - by rewrite <- sum_all_lengths, Hal. }
  destruct (create_test_tables uninit mmap can_write Hmap Hwr tables_device d (params_root params) (tables_name tsrc) (tables_args tsrc)
    cols num_tables len (bytes_of_words (all_words qs)) tb tg) as (d1 & E1 & Ht1 & Hfr);
    [done|done|done|rewrite Hlen'; fold rows info; by rewrite Hgen|lia|lia| |].
  { apply (words_some _ _ _ _ _ Hq Hrc); lia. }
  rewrite Hlen' in Ht1. fold rows info in Ht1.
  destruct (create_test_indices tp uninit golden_uint64_t golden_float mmap can_write Hmap Hwr lengths_device indices_device d1 params info
    (bytes_of_words (all_words qs)) qs (bytes_of_words (all_sums (Z.to_nat cols) id qs))
    (fun _ => Ok (create_indices gen indices_device)) (create_indices gen indices_device) lb lg compute_golden_sls)
    as (d2 & E2 & Ht2 & Hi2); rewrite ?Hmb', ?Hal, ?Hln, ?Hla, ?Hin, ?Het; try done.
  { rewrite Hfr; [done|sls_names|sls_names]. }
  { by rewrite <- Hl. }
  exists d1, d2, qs. rewrite <- Hal. do 7 (split; [done|]). rewrite Hmb' in Hi2. split; [|split].
  - unfold get_golden_vector. by rewrite (hi_golden _ _ _ _ _ _ Hi2).
  - intros rd name args c n l. by apply (get_existing_tables uninit mmap can_write Hmap rd _ _ _ _ _ _ _ info).
  - intros lrd ird params' Hr' Hp'. rewrite <- Hr', <- Hp' in Hi2.
    by apply (get_existing_indices tp uninit golden_uint64_t golden_float mmap can_write lrd ird _ _ mb qs _ Hi2).
Qed.

(** Two tables of four positioned rows, two batches with the same number of random
    lookups for each of them. *)
Definition some_params : GeneratorWithOverflowParams :=
  mkOverflowParams 3 1 2 (str "data") (str "small") (str "random_from_lookups_per_table") [] (str "random") (str "uint32_t").

Lemma sls_data_is_consistent_witness :
  let none : Golden := fun _ _ _ _ => Err StdException in
  let tables rd := @get_or_create_test_tables Z lcg 0 (fun n => 0 <? n) (fun _ => true) rd (str "data") in
  let indices := @get_or_create_test_indices Z lcg example_machine 0 none none (fun n => 0 <? n) (fun _ => true) in
  ∃ d1 d2 qs,
    tables 5 (str "position") [] 2 2 4 (fun _ => None) = (d1, Ok (bytes_of_words (all_words qs))) ∧
    all_words qs = @tables_entries Z lcg PositionTables 5 (positions [4; 4] 2) ∧
    indices 7 11 some_params d1 = (d2, Ok (concat [[2; 2]; [1; 1]], all_indices qs)) ∧
    all_indices qs = @indices_drawn Z lcg RandomIndices 11 [4; 4] [[2; 2]; [1; 1]] ∧
    rows_counts qs = [4; 4] ∧ all_lengths qs = concat [[2; 2]; [1; 1]] ∧ Forall (CpuSls.request_ok 2 2) qs ∧
    get_golden_vector (str "data") (str "small") d2 = (d2, Ok (bytes_of_words (all_sums 2 id qs))) ∧
    (∀ rd name args c n l, tables rd name args c n l d2 = (d2, Ok (bytes_of_words (all_words qs)))) ∧
    (∀ lrd ird params', params_root params' = str "data" → params_prefix params' = str "small" →
       indices lrd ird params' d2 = (d2, Ok (concat [[2; 2]; [1; 1]], all_indices qs))).
Proof.
  intros none tables indices.
  apply (@sls_data_is_consistent Z lcg lcg_laws example_machine 0 none none (fun n => 0 <? n) (fun _ => true) (fun _ => None) some_params
    PositionTables DuplicateLengths RandomIndices 5 7 11 2 2 4 [[2; 2]; [1; 1]]).
  - by intros n _.
  - done.
  - done.
  - done.
  - done.
  - done.
  - done.
  - done.
  - done.
  - done.
  - exact I.
  - exact I.
  - done.
  - done.
  - reflexivity.
  - reflexivity.
  - reflexivity.
  - reflexivity.
  - vm_compute. reflexivity.
  - repeat constructor; cbn; lia.
  - done.
Defined.
